(* ===== verification/_CoqProject ===== *)
-Q . S2P
Prelude.v
OrdMap.v
Monad.v
Registers.v
Tlm.v
AddrMapCache.v
RegBank.v
RegProxy.v
AddressMap.v
Cci.v
Biflow.v
Pl011.v
IbexUart.v
QuantumKeeper.v
RunOnSysc.v
MemServices.v
Remote.v
RemoteSync.v
RemoteCci.v
Loader.v
QemuDmi.v
QemuInitiator.v
RegRouter.v
Router.v
ExclusiveMonitor.v
GsMemory.v
Addrtr.v
DmiConverter.v
SmmuRegs.v
Smmu.v
SmmuWalk.v
SmmuTlb.v
SmmuQueue.v
SmmuTbu.v
SmmuMmio.v
SmmuInv.v
Smmu500.v
MacDma.v
Dwmac.v
DwmacRings.v
Xgmac.v
SyncWindow.v
Mcips.v
QemuCpu.v
