(* ===== verification/Prelude.v ===== *)
(** * Verification of the qbox virtual platform components

    qbox builds virtual platforms out of SystemC components that exchange TLM
    transactions and grant each other direct memory access (DMI).  This library
    models the components a transaction passes on its way from a QEMU processor
    to memory, in its own process or across the bridge to another, the SMMUs
    that translate it, the serial and Ethernet devices, and the machinery that keeps the
    simulation's threads and processes in step, as executable definitions, and
    proves what makes them correct.

    ** Parts, files and sources (paths under src/systemc-components)

    - [Prelude], [OrdMap], [Monad]: machine integers, abnormal ends ([res]: failed
      assertion, fatal report, undefined behaviour), byte lists, the ordered map
      that stands for [std::map], the state monad of the SMMU files.
    - [Tlm] (common/include/tlm-extensions): the generic payload, the DMI
      descriptor, path id, underlying DMI and exclusive access extensions, and the
      classes of what a component asks of the module bound to its socket.
    - [AddrMapCache], [AddressMap], [Cci], [Router] (router/include/router.h,
      addrmap_cache_examples.h, common/include/router_if.h, cciutils.h): the
      region map with its priority resolution, the four address caches behind one
      class, configuration, routing, DMI bookkeeping.
    - [ExclusiveMonitor] (exclusive_monitor/include/exclusive-monitor.h): load-link
      and store-conditional over locked regions.
    - [GsMemory] (gs_memory/include/gs_memory.h): the tree of lazily allocated
      sub-blocks, transactions, debug access, DMI, reset, sizing.
    - [Addrtr] (addrtr/include/addrtr.h): the window onto another address range.
    - [DmiConverter] (dmi_converter/include/dmi_converter.h): the loop that serves
      a transaction out of cached DMI regions.
    - [Registers], [RegBank], [RegProxy] (common/include/registers.h): masks and
      bit fields as functions; the layout of a bank of registers; registers whose
      value lives in a memory behind a socket, reached by transactions or DMI, with
      their operators, masks and callbacks.
    - [RegRouter] (reg_router/include/reg_router.h): the router between the bus,
      the registers and the memory that holds their values.
    - [SmmuRegs], [Smmu], [SmmuWalk], [SmmuTlb], [SmmuQueue], [SmmuTbu],
      [SmmuMmio], [SmmuInv] (smmuv3/include/*.h): register file; memory accesses,
      global errors and interrupts; stream table, context descriptors and the
      page table walk of both stages; translation cache; event, page request and
      command queues with every command; translation and the transport methods of
      the translation units, with stalls, ATS, GATOS and reset; the callbacks of
      the driver's register accesses; the machine whose steps are all of these.
    - [Smmu500] (smmu500/include/*.h, smmu500/src/smmu500.cc): the older SMMU: stream
      matching, context banks, the walk of both stages, its translation units and
      the ranges of their grants, register callbacks and reset.
    - [Biflow], [Pl011], [IbexUart] (common/include/ports/biflow-socket.h, uart/):
      the sockets that carry serial data under flow control, and two UARTs.
    - [QuantumKeeper] (common/src/libgssync/qkmultithread.cc, common/include/
      qkmulti-*.h, async_event.h): a thread that keeps its local time within a
      policy's distance of the SystemC time.
    - [RunOnSysc] (common/include/runonsysc.h): jobs that other threads hand to the
      SystemC thread, and wait for.
    - [QemuDmi], [QemuInitiator] (src/qemu-components/common/include/dmi-manager.h,
      ports/initiator.h): the host blocks of a QEMU instance, and the socket that
      turns QEMU's accesses into transactions, DMI grants into aliases of QEMU's
      memory map and IOMMU pages into cached translations.
    - [MemServices] (common/src/memory_services.cc): shared memory segments.
    - [Remote], [RemoteSync], [RemoteCci] (common/include/remote.h): the bridge to
      another process: transactions and DMI; signals, phases and ports; the
      configuration.  [Remote] maps segments with [MemServices].
    - [Loader] (common/include/loader.h, common/src/elf_loader.cc): images.
    - [MacDma], [Dwmac], [DwmacRings], [Xgmac] (common/include/macs, common/src/macs/
      components, macs/): the bus master, MAC addresses, PHY and frame buffers of the
      Ethernet controllers, and the two controllers with their registers, descriptor
      rings, checksum insertion and interrupts.
    - [SyncWindow] (common/include/sync_window.h): the windows by which two simulators
      keep in step.
    - [Mcips] (src/qemu-components/common/include/mcips-plugin.h): time by counted
      instructions; exchanges windows with SystemC through [SyncWindow].
    - [QemuCpu] (src/qemu-components/common/include/cpu.h): a processor: its thread in
      QEMU, which synchronises and sleeps, and the SystemC thread, which halts, resets
      and stops it.

    ** Modelling conventions

    Integers are [Z] with the wrap-around of their width written out.  State is a
    record threaded through the operations.  A module bound to a socket is a
    parameter (a class or an argument): it takes a transaction and a state of its
    own and returns both; where a theorem relies on its behaviour, the hypothesis
    is named.  Host pointers are integers; host memory is a parameter.  Calls out
    of a component that return nothing (DMI invalidations, interrupt lines) are
    outputs.  The callbacks of a register are functions on the transaction and the
    state of everything around the register.  Each operation is atomic, except
    where several threads or processes are the point: there the stretches between
    two synchronisations are the steps of a machine, an event is a flag, a wait is
    a state of its process, and the theorems hold in every reachable state.

    ** What the theorems show

    A condition that a theorem needs and the code does not check is named in its comment, and where
    the code goes wrong without it a lemma beside the theorem shows how.

    - Address map and router: after any history of additions, decoding returns a
      target of best priority, with no cache or the cache of single addresses in
      front (the caches of regions misroute: [region_cache_misroutes]); regions stay
      ordered and disjoint; an access whose bytes decode to one target reaches it
      with the right offset and comes back unchanged; every address of a DMI grant
      decodes to the target that gave it.
    - Exclusive monitor: a store that meets a reservation makes the matching
      exclusive store fail; unrelated traffic does not; the two tables agree for
      transactions that carry data; no DMI grant holds a locked byte.
    - Memory: the tree refines a flat byte array; DMI pointers stay valid.
    - Address translator and DMI converter: accesses and invalidations are those
      of the translated range; without byte enables and over disjoint grants the
      converter is transparent, reports failures, and its loop ends.
    - Registers: values assigned read back under the mask, by transaction and by
      DMI; the indices, flat index and byte offset of a bank element determine each
      other; a write from the bus to a masked register with callbacks changes the
      writable bits only; the router runs the callbacks of the claiming registers of
      best priority.
    - SMMUv3: the stage 1 walk of the lower half finds the translations that the
      architecture's rules give over the tables in memory, and faults only without
      one; a transaction of a stage 1 stream with cached configuration that misses
      the translation cache is refused, stalled or sent where the tables say; the
      translation cache refines a bounded list by recent insertion; the caches
      stay within their bounds in every reachable state; commands are consumed in
      order, and unread events never overwritten; global errors follow their
      toggle protocol.
    - SMMU-500: a transaction of a stage 1 stream is sent where the tables say, or
      ends in an error that the context bank shows; an invalidation of a bank
      withdraws every grant made through it.
    - Serial devices: a socket refines a queue with a credit, for every kind of
      grant; two UARTs back to back are a channel.
    - Synchronisation: a quantum keeper stays within its policy's lead and what the
      processor overran its budget by, and its waits end; jobs run once, in order,
      and their waiters are told; no wake-up is lost; two kernels bound by windows
      stay within a quantum and never both wait.
    - Instruction-counted time: readings of QEMU's clock that no callback overlaps
      never go back, and a processor runs unless the instance is ahead of the window
      that SystemC gave.
    - Processors: at the end of a simulation the thread of a processor is let go
      and leaves, wherever it was, with the help of the destructor if it restarted
      the quantum keeper; resets start and end alternately, and no wait is missed.
    - QEMU: as long as grants do not overlap and jobs are accepted, aliases in QEMU's
      memory map are grants that stand, or a job is pending that removes them; a
      cached or fresh IOMMU translation leads to the host address granted;
      invalidations drop what they meet and no more.
    - Bridge: a transaction without path or exclusive extension comes back as from
      the peer's own target; a DMI grant leads to the same byte of the shared segment
      in both processes; signals keep their order, and at most one is held back for
      ever; the processes pass the phases together unless stopped; presets arrive
      under the same relative names; segments are unlinked after a crash.
    - Loader: files and segments are written exactly, however they are read.
    - Ethernet: a frame spread over a chain of descriptors is sent as the bytes of
      its buffers, a ring is drained in order, received frames are stored and
      described, every descriptor goes back to the driver; the checksums inserted in
      an unpadded frame are accepted by a receiver.
    - Theorems whose names end in a defect ([region_cache_misroutes],
      [tbu_hit_wrong_address], ...) prove that the code departs from its intent;
      the manifest lists them as findings.

    ** Bounds and fuel

    The descent in the memory tree has fuel [max_depth] = 33: a split divides the
    length by four, so 64-bit sizes need fewer levels.  Loops over data take fuel
    from the length (two turns per byte in the DMI converter); the theorems prove
    it is enough.  [update_irq_levels] and [set_gerror] call each other: an abort
    of a message raises an error bit that is then pending, so at most three of the
    bits recurse and [irq_fuel] = 33 suffices.  The command loop has fuel
    2^(log2size + 1), the number of index values.  A walk has four levels.
    [qemu_map] has the length of its range, the loaders the number of bytes: each
    turn moves on by one at least.  The transmit loops of the Ethernet controllers
    have the number of descriptors that the driver queued.

    ** Not modelled

    Logging, time annotation, and the SystemC scheduler and host threads other
    than in the machines above.  Of the bridge: launching and watching the other
    process and the RPC library.  Of the loader: the choice by parameters, archives
    and device trees.  Of the QEMU socket: locks and the memory-region hint.
    Of a processor: the loop of the coroutine mode and the destructor beyond its
    wait for the thread.
    Components listed as not modelled in the manifest: the devices that wrap QEMU
    models, the TAP and character back ends, the suspension of the
    SystemC kernel, module construction and scripting.  *)

From stdpp Require Import base list numbers option.

#[global] Open Scope Z_scope.

Declare Scope qbox_scope.
Delimit Scope qbox_scope with qbox.
#[global] Open Scope qbox_scope.

(** ** Machine integers *)

(** An unsigned [w]-bit integer is a [Z] in [[0, 2^w)]; arithmetic wraps. *)
Definition wrap (w z : Z) : Z := z mod 2 ^ w.
Abbreviation u64 := (wrap 64).
Abbreviation u32 := (wrap 32).
Abbreviation u16 := (wrap 16).
Abbreviation u8 := (wrap 8).

Definition UINT64_MAX : Z := 2 ^ 64 - 1.
Definition UINT32_MAX : Z := 2 ^ 32 - 1.

(** Membership of the value range of an unsigned [w]-bit integer. *)
Definition in_width (w z : Z) : Prop := 0 <= z < 2 ^ w.

Lemma wrap_in_width w z : 0 <= w -> in_width w (wrap w z).
Proof. intros Hw. apply Z.mod_pos_bound. lia. Qed.

Lemma wrap_small w z : in_width w z -> wrap w z = z.
Proof. apply Z.mod_small. Qed.

Lemma u64_small z : 0 <= z < 2 ^ 64 -> u64 z = z.
Proof. apply Z.mod_small. Qed.

Lemma u64_range z : 0 <= u64 z < 2 ^ 64.
Proof. apply Z.mod_pos_bound. lia. Qed.

Lemma u32_range z : 0 <= u32 z < 2 ^ 32.
Proof. apply Z.mod_pos_bound. lia. Qed.

(** Subtraction that undoes an addition also does so modulo [2^64]. *)
Lemma u64_add_sub_cancel a b : 0 <= a < 2 ^ 64 -> u64 (u64 (a - b) + b) = a.
Proof.
  intros Ha. unfold wrap. rewrite Zplus_mod_idemp_l.
  replace (a - b + b) with a by lia. by apply Z.mod_small.
Qed.

Lemma u64_sub_add_cancel a b : 0 <= a < 2 ^ 64 -> u64 (u64 (a + b) - b) = a.
Proof.
  intros Ha. unfold wrap. rewrite Zminus_mod_idemp_l.
  replace (a + b - b) with a by lia. by apply Z.mod_small.
Qed.

(** ** Abnormal termination

    The sources stop in four ways other than returning: a failed [assert], an
    [SCP_FATAL] report (which throws), undefined behaviour such as a null
    dereference or an access outside an array, and leaving the process with
    [_Exit].  An operation that can do any of these returns a [res]. *)
Inductive stop : Type :=
| StopAssert
| StopFatal
| StopUndef
| StopExit.

#[global] Instance stop_eq_dec : EqDecision stop.
Proof. solve_decision. Defined.

Inductive res (A : Type) : Type :=
| Ret (a : A)
| Err (e : stop).
Arguments Ret {A} a.
Arguments Err {A} e.

#[global] Instance res_eq_dec {A} `{EqDecision A} : EqDecision (res A).
Proof. solve_decision. Defined.

Definition rbind {A B} (r : res A) (k : A -> res B) : res B :=
  match r with Ret a => k a | Err e => Err e end.

Notation "'let?' x ':=' r 'in' k" := (rbind r (fun x => k))
  (at level 10, x pattern, r at level 100, k at level 200) : qbox_scope.

(** [assert (b)] of the sources. *)
Definition assertb (b : bool) : res unit := if b then Ret tt else Err StopAssert.

Lemma rbind_Ret {A B} (r : res A) (k : A -> res B) b :
  rbind r k = Ret b <-> exists a, r = Ret a /\ k a = Ret b.
Proof. destruct r; naive_solver. Qed.

Lemma assertb_Ret b u : assertb b = Ret u <-> b = true.
Proof. destruct b, u; naive_solver. Qed.

(** ** Tactics *)

(** Split every conjunction and existential of the context. *)
Ltac dest :=
  repeat match goal with
    | H : exists _, _ |- _ => destruct H
    | H : _ /\ _ |- _ => destruct H
    end.

(** Case analysis on the scrutinee of an [if] or [match] of the goal or of a
    hypothesis, remembering the equation. *)
Ltac split_case :=
  match goal with
  | |- context [if ?b then _ else _] => destruct b eqn:?
  | |- context [match ?x with _ => _ end] => destruct x eqn:?
  | H : context [if ?b then _ else _] |- _ => destruct b eqn:?
  | H : context [match ?x with _ => _ end] |- _ => destruct x eqn:?
  end.

(** Case analysis until the goal is closed by computation or arithmetic. *)
Ltac cases := repeat (split_case; simplify_eq/=; try done; try lia).

(** ** Lists of bytes *)

(** [memcpy (&dst[off], src, length src)]: overwrite a window of [dst]. *)
Definition splice {A} (off : nat) (src dst : list A) : list A :=
  take off dst ++ src ++ drop (off + length src) dst.

Lemma length_splice {A} off (src dst : list A) :
  (off + length src <= length dst)%nat -> length (splice off src dst) = length dst.
Proof. intros H. unfold splice. rewrite !length_app, length_take, length_drop. lia. Qed.

Lemma lookup_splice {A} off (src dst : list A) i :
  (off + length src <= length dst)%nat ->
  splice off src dst !! i =
  if decide (off <= i < off + length src)%nat then src !! (i - off)%nat else dst !! i.
Proof.
  intros H. unfold splice.
  assert (Hto : length (take off dst) = off) by (rewrite length_take; lia).
  case_decide as Hd.
  - rewrite lookup_app_r by lia. rewrite Hto. apply lookup_app_l. lia.
  - destruct (decide (i < off)%nat).
    + rewrite lookup_app_l by lia. apply lookup_take_lt. lia.
    + rewrite lookup_app_r by lia. rewrite lookup_app_r by lia.
      rewrite lookup_drop, Hto. f_equal. lia.
Qed.

(** Reading back exactly the window that was written. *)
Lemma splice_read_back {A} off (src dst : list A) :
  (off + length src <= length dst)%nat ->
  take (length src) (drop off (splice off src dst)) = src.
Proof.
  intros H. unfold splice. rewrite drop_app_le by (rewrite length_take; lia).
  rewrite drop_ge by (rewrite length_take; lia). simpl.
  by rewrite take_app_length.
Qed.

(** ** Hints *)

Create HintDb qbox.
#[export] Hint Resolve wrap_in_width u64_range u32_range : qbox.
