(* ===== verification/OrdMap.v ===== *)
(** * std::map<uint64_t, V>

    The sources keep their ordered tables in [std::map] and walk them with
    iterators: [upper_bound], [lower_bound], [--it], [it++], [erase (it)].  A map
    is modelled as the list of its (key, value) pairs in key order, which is the
    order of iteration; an iterator is a split of that list into what lies before
    it and what it still has to visit. *)

From stdpp Require Import base list numbers option sorting sets.
From S2P Require Import Prelude.

Abbreviation omap V := (list (Z * V)).

Section OrdMap.
Context {V : Type}.
Implicit Types (m l r : omap V) (k j : Z) (v : V).

(** [m.find (k)], [None] being [m.end ()]. *)
Fixpoint om_find (k : Z) (m : omap V) : option V :=
  match m with
  | [] => None
  | (j, v) :: m' => if k =? j then Some v else om_find k m'
  end.

(** [m[k] = v]. *)
Fixpoint om_insert (k : Z) (v : V) (m : omap V) : omap V :=
  match m with
  | [] => [(k, v)]
  | (j, w) :: m' =>
      if k <? j then (k, v) :: (j, w) :: m'
      else if k =? j then (k, v) :: m'
      else (j, w) :: om_insert k v m'
  end.

(** [m.emplace (k, v)]: an existing entry is kept. *)
Definition om_emplace (k : Z) (v : V) (m : omap V) : omap V :=
  match om_find k m with Some _ => m | None => om_insert k v m end.

(** [m.erase (k)]. *)
Fixpoint om_erase (k : Z) (m : omap V) : omap V :=
  match m with
  | [] => []
  | (j, w) :: m' => if k =? j then m' else (j, w) :: om_erase k m'
  end.

(** [m.upper_bound (k)]: the iterator at the first key greater than [k]. *)
Fixpoint om_upper (k : Z) (m : omap V) : omap V * omap V :=
  match m with
  | [] => ([], [])
  | (j, w) :: m' =>
      if k <? j then ([], m)
      else let '(l, r) := om_upper k m' in ((j, w) :: l, r)
  end.

(** [m.lower_bound (k)]: the iterator at the first key not less than [k]. *)
Fixpoint om_lower (k : Z) (m : omap V) : omap V * omap V :=
  match m with
  | [] => ([], [])
  | (j, w) :: m' =>
      if k <=? j then ([], m)
      else let '(l, r) := om_lower k m' in ((j, w) :: l, r)
  end.

(** [if (it != m.begin ()) --it;] *)
Definition om_prev (it : omap V * omap V) : omap V * omap V :=
  let '(l, r) := it in
  match last l with
  | Some e => (removelast l, e :: r)
  | None => it
  end.

(** Keys strictly increase along the list. *)
Definition om_wf (m : omap V) : Prop := StronglySorted Z.lt (m.*1).

Lemma om_wf_nil : om_wf [].
Proof. constructor. Qed.

Lemma om_wf_cons k v m :
  om_wf ((k, v) :: m) <-> om_wf m /\ Forall (fun e => k < e.1) m.
Proof.
  unfold om_wf. simpl. split.
  - intros H. inversion H; subst. split; [done|]. by rewrite Forall_fmap in *.
  - intros [H1 H2]. constructor; [done|]. by rewrite Forall_fmap.
Qed.

Lemma om_wf_app l r :
  om_wf (l ++ r) <->
  om_wf l /\ om_wf r /\ Forall (fun a => Forall (fun b => a.1 < b.1) r) l.
Proof.
  induction l as [|[k v] l IH]; simpl.
  - rewrite Forall_nil. pose proof om_wf_nil. naive_solver.
  - rewrite !om_wf_cons, IH, Forall_app, Forall_cons. simpl. naive_solver.
Qed.

Lemma om_find_Some k v m : om_find k m = Some v -> (k, v) ∈ m.
Proof.
  induction m as [|[j w] m IH]; simpl; [done|].
  destruct (k =? j) eqn:E.
  - apply Z.eqb_eq in E. intros [= ->]. subst. left.
  - intros H. right. auto.
Qed.

Lemma om_find_elem k v m : om_wf m -> (k, v) ∈ m <-> om_find k m = Some v.
Proof.
  intros Hwf. split; [|apply om_find_Some].
  induction m as [|[j w] m IH]; [by intros ?%not_elem_of_nil|].
  apply om_wf_cons in Hwf as [Hwf Hlt]. simpl.
  intros [Heq | Hin]%elem_of_cons.
  - simplify_eq. by rewrite Z.eqb_refl.
  - rewrite Forall_forall in Hlt. specialize (Hlt _ Hin). simpl in Hlt.
    destruct (k =? j) eqn:E; [lia|]. auto.
Qed.

Lemma om_find_None k m : om_find k m = None <-> Forall (fun e => e.1 <> k) m.
Proof.
  induction m as [|[j w] m IH]; simpl; [by rewrite Forall_nil|].
  rewrite Forall_cons. simpl. destruct (k =? j) eqn:E.
  - apply Z.eqb_eq in E. naive_solver.
  - apply Z.eqb_neq in E. naive_solver.
Qed.

Lemma om_elem_insert k v m e :
  om_wf m -> e ∈ om_insert k v m <-> e = (k, v) \/ (e ∈ m /\ e.1 <> k).
Proof.
  induction m as [|[j w] m IH]; intros Hwf; simpl.
  { rewrite list_elem_of_singleton. set_solver. }
  apply om_wf_cons in Hwf as [Hwf Hlt]. rewrite Forall_forall in Hlt.
  destruct (k <? j) eqn:E1; [|destruct (k =? j) eqn:E2].
  - rewrite elem_of_cons. split; [intros [->|Hin]; [by left|]|naive_solver].
    right. split; [done|]. apply elem_of_cons in Hin as [->|Hin]; simpl; [lia|].
    specialize (Hlt _ Hin). simpl in Hlt. lia.
  - apply Z.eqb_eq in E2 as ->. rewrite !elem_of_cons. split.
    + intros [->|Hin]; [by left|]. right. split; [by right|].
      specialize (Hlt _ Hin). simpl in Hlt. lia.
    + intros [->|[[->|Hin] Hne]]; [by left| |by right]. by simpl in Hne.
  - rewrite !elem_of_cons, IH by done. split.
    + intros [->|[->|[Hin Hne]]]; [right; split; [by left|simpl; lia]|by left|].
      right. split; [by right|done].
    + naive_solver.
Qed.

Lemma om_wf_insert k v m : om_wf m -> om_wf (om_insert k v m).
Proof.
  induction m as [|[j w] m IH]; intros Hwf; simpl.
  { apply om_wf_cons. split; [apply om_wf_nil|by apply Forall_nil]. }
  pose proof Hwf as Hwf0.
  apply om_wf_cons in Hwf as [Hwf Hlt].
  destruct (k <? j) eqn:E1; [|destruct (k =? j) eqn:E2].
  - apply om_wf_cons. split; [done|]. apply Forall_cons. split; [simpl; lia|].
    eapply Forall_impl; [exact Hlt|]. simpl. intros e He. lia.
  - apply Z.eqb_eq in E2 as ->. by apply om_wf_cons.
  - apply om_wf_cons. split; [by apply IH|]. apply Forall_forall.
    intros e [->|[Hin _]]%om_elem_insert; [simpl; lia| |done].
    rewrite Forall_forall in Hlt. by apply Hlt.
Qed.

Lemma om_elem_emplace k v m e :
  om_wf m -> om_find k m = None ->
  e ∈ om_emplace k v m <-> e = (k, v) \/ e ∈ m.
Proof.
  intros Hwf Hn. unfold om_emplace. rewrite Hn, om_elem_insert by done.
  apply om_find_None in Hn. rewrite Forall_forall in Hn. naive_solver.
Qed.

Lemma om_wf_emplace k v m : om_wf m -> om_wf (om_emplace k v m).
Proof. intros H. unfold om_emplace. destruct (om_find k m); [done|]. by apply om_wf_insert. Qed.

Lemma om_elem_erase k m e : om_wf m -> e ∈ om_erase k m <-> e ∈ m /\ e.1 <> k.
Proof.
  induction m as [|[j w] m IH]; intros Hwf; simpl; [set_solver|].
  apply om_wf_cons in Hwf as [Hwf Hlt]. rewrite Forall_forall in Hlt.
  destruct (k =? j) eqn:E.
  - apply Z.eqb_eq in E as ->. rewrite elem_of_cons. split.
    + intros Hin. split; [by right|]. specialize (Hlt _ Hin). simpl in Hlt. lia.
    + intros [[->|Hin] Hne]; [by simpl in Hne|done].
  - apply Z.eqb_neq in E. rewrite !elem_of_cons, IH by done. naive_solver.
Qed.

Lemma om_wf_erase k m : om_wf m -> om_wf (om_erase k m).
Proof.
  induction m as [|[j w] m IH]; intros Hwf; simpl; [done|].
  apply om_wf_cons in Hwf as [Hwf Hlt]. destruct (k =? j); [done|].
  apply om_wf_cons. split; [by apply IH|]. apply Forall_forall.
  intros e [Hin _]%om_elem_erase; [|done]. rewrite Forall_forall in Hlt. by apply Hlt.
Qed.

Lemma om_find_insert_eq k v m : om_wf m -> om_find k (om_insert k v m) = Some v.
Proof.
  intros Hwf. apply om_find_elem; [by apply om_wf_insert|].
  apply om_elem_insert; [done|]. by left.
Qed.

Lemma om_find_insert_ne k j v m :
  om_wf m -> k <> j -> om_find j (om_insert k v m) = om_find j m.
Proof.
  intros Hwf Hne. apply option_eq. intros w.
  rewrite <- !om_find_elem by (try apply om_wf_insert; done).
  rewrite om_elem_insert by done. naive_solver.
Qed.

Lemma om_find_erase_eq k m : om_wf m -> om_find k (om_erase k m) = None.
Proof.
  intros Hwf. apply om_find_None, Forall_forall.
  intros e [_ He]%om_elem_erase; [done|done].
Qed.

Lemma om_find_erase_ne k j m :
  om_wf m -> k <> j -> om_find j (om_erase k m) = om_find j m.
Proof.
  intros Hwf Hne. apply option_eq. intros w.
  rewrite <- !om_find_elem by (try apply om_wf_erase; done).
  rewrite om_elem_erase by done. naive_solver.
Qed.

Lemma om_upper_spec k m :
  om_wf m -> let '(l, r) := om_upper k m in
  m = l ++ r /\ Forall (fun e => e.1 <= k) l /\ Forall (fun e => k < e.1) r.
Proof.
  induction m as [|[j w] m IH]; intros Hwf; simpl; [by rewrite Forall_nil|].
  pose proof Hwf as Hwf0. apply om_wf_cons in Hwf as [Hwf Hlt].
  destruct (k <? j) eqn:E.
  - split; [done|]. split; [by apply Forall_nil|]. apply Forall_cons. split; [simpl; lia|].
    eapply Forall_impl; [exact Hlt|]. simpl. intros e He. lia.
  - specialize (IH Hwf). destruct (om_upper k m) as [l r]. destruct IH as (-> & Hl & Hr).
    split; [done|]. split; [|done]. apply Forall_cons. split; [simpl; lia|done].
Qed.

Lemma om_lower_spec k m :
  om_wf m -> let '(l, r) := om_lower k m in
  m = l ++ r /\ Forall (fun e => e.1 < k) l /\ Forall (fun e => k <= e.1) r.
Proof.
  induction m as [|[j w] m IH]; intros Hwf; simpl; [by rewrite Forall_nil|].
  pose proof Hwf as Hwf0. apply om_wf_cons in Hwf as [Hwf Hlt].
  destruct (k <=? j) eqn:E.
  - split; [done|]. split; [by apply Forall_nil|]. apply Forall_cons. split; [simpl; lia|].
    eapply Forall_impl; [exact Hlt|]. simpl. intros e He. lia.
  - specialize (IH Hwf). destruct (om_lower k m) as [l r]. destruct IH as (-> & Hl & Hr).
    split; [done|]. split; [|done]. apply Forall_cons. split; [simpl; lia|done].
Qed.

(** Stepping back keeps the list and moves exactly the last visited entry. *)
Lemma om_prev_spec l r :
  let '(l', r') := om_prev (l, r) in
  l' ++ r' = l ++ r /\
  (l = [] /\ l' = [] /\ r' = r \/ exists e, l = l' ++ [e] /\ r' = e :: r).
Proof.
  unfold om_prev. destruct (last l) as [e|] eqn:El.
  - apply last_Some in El as [l' ->]. rewrite removelast_last.
    split; [by rewrite <- app_assoc|]. right. by exists e.
  - apply last_None in El as ->. split; [done|]. by left.
Qed.

End OrdMap.

(** ** std::set<uint64_t>

    The boundary points of the router are collected in a [std::set]: a list in
    increasing order. *)
Fixpoint oset_insert (k : Z) (s : list Z) : list Z :=
  match s with
  | [] => [k]
  | j :: s' => if k <? j then k :: j :: s' else if k =? j then s else j :: oset_insert k s'
  end.

Definition oset_wf (s : list Z) : Prop := StronglySorted Z.lt s.

Lemma oset_elem_insert k s j : j ∈ oset_insert k s <-> j = k \/ j ∈ s.
Proof.
  induction s as [|i s IH]; simpl; [set_solver|].
  destruct (k <? i) eqn:E1; [set_solver|]. destruct (k =? i) eqn:E2.
  - apply Z.eqb_eq in E2 as ->. set_solver.
  - set_solver.
Qed.

Lemma oset_wf_insert k s : oset_wf s -> oset_wf (oset_insert k s).
Proof.
  intros H. induction H as [|i s Hs IH Hi]; simpl; [repeat constructor|].
  destruct (k <? i) eqn:E1; [|destruct (k =? i) eqn:E2]; constructor; try done.
  - by constructor.
  - constructor; [lia|]. eapply Forall_impl; [exact Hi|]. simpl. lia.
  - apply Forall_forall. intros j [->|Hj]%oset_elem_insert; [lia|].
    rewrite Forall_forall in Hi. by apply Hi.
Qed.

(** The segments between consecutive elements. *)
Fixpoint segments (bs : list Z) : list (Z * Z) :=
  match bs with
  | s :: ((e :: _) as bs') => (s, e) :: segments bs'
  | _ => []
  end.

Lemma segments_spec bs s e :
  oset_wf bs -> (s, e) ∈ segments bs ->
  s < e /\ s ∈ bs /\ e ∈ bs /\ forall b, b ∈ bs -> b <= s \/ e <= b.
Proof.
  intros Hwf. induction Hwf as [|x bs Hbs IH Hx]; simpl; [by intros ?%not_elem_of_nil|].
  destruct bs as [|y bs]; [by intros ?%not_elem_of_nil|].
  intros [[= -> ->]|Hin]%elem_of_cons.
  - rewrite Forall_forall in Hx. split; [apply Hx; by left|]. split; [by left|].
    split; [by right; left|]. intros b [->|[->|Hb]%elem_of_cons]%elem_of_cons; [lia|lia|].
    inversion Hbs as [|? ? _ Hy]; subst. rewrite Forall_forall in Hy.
    specialize (Hy _ Hb). lia.
  - destruct (IH Hin) as (Hlt & Hs & He & Hbet). split; [done|].
    split; [by right|]. split; [by right|]. intros b [->|Hb]%elem_of_cons; [|by apply Hbet].
    rewrite Forall_forall in Hx. specialize (Hx _ Hs). lia.
Qed.

(** Every point between two elements of the set lies in a segment. *)
Lemma segments_cover bs a lo hi :
  oset_wf bs -> lo ∈ bs -> hi ∈ bs -> lo <= a < hi ->
  exists s e, (s, e) ∈ segments bs /\ s <= a < e.
Proof.
  intros Hwf. revert lo. induction Hwf as [|x bs Hbs IH Hx]; intros lo; [by intros ?%not_elem_of_nil|].
  rewrite Forall_forall in Hx. intros Hlo Hhi Ha.
  assert (Hxlo : x <= lo).
  { apply elem_of_cons in Hlo as [->|Hlo]; [lia|]. specialize (Hx _ Hlo). lia. }
  destruct bs as [|y bs].
  { apply list_elem_of_singleton in Hhi as ->. lia. }
  apply elem_of_cons in Hhi as [->|Hhi]; [lia|].
  destruct (decide (a < y)).
  - exists x, y. split; [by left|lia].
  - destruct (IH y) as (s & e & Hin & Hse); [by left|done|lia|].
    exists s, e. split; [by right|done].
Qed.

Lemma segments_disjoint bs s e s' e' :
  oset_wf bs -> (s, e) ∈ segments bs -> (s', e') ∈ segments bs ->
  (s = s' /\ e = e') \/ e <= s' \/ e' <= s.
Proof.
  intros Hwf H H'.
  destruct (segments_spec _ _ _ Hwf H) as (? & Hs & He & Hb).
  destruct (segments_spec _ _ _ Hwf H') as (? & Hs' & He' & Hb').
  pose proof (Hb _ Hs'). pose proof (Hb _ He'). pose proof (Hb' _ Hs). pose proof (Hb' _ He). lia.
Qed.

Create HintDb omap.
#[export] Hint Resolve oset_wf_insert : omap.
#[export] Hint Resolve om_wf_nil om_wf_insert om_wf_emplace om_wf_erase : omap.

Lemma om_wf_sublist {V} (l m : omap V) : l `sublist_of` m -> om_wf m -> om_wf l.
Proof.
  intros Hs. induction Hs as [|[k v] l m Hs IH|[k v] l m Hs IH]; [done|..];
    rewrite ?om_wf_cons; intros [Hm Hk]; [|by apply IH].
  split; [by apply IH|]. rewrite Forall_forall in *. intros e He. apply Hk.
  by eapply elem_of_submseteq; [exact He|apply sublist_submseteq].
Qed.

Lemma oset_elem_foldl l s j : j ∈ foldl (fun s t => oset_insert t s) s l <-> j ∈ l \/ j ∈ s.
Proof.
  revert s. induction l as [|x l IH]; intros s; simpl; [set_solver|].
  rewrite IH, oset_elem_insert. set_solver.
Qed.

Lemma om_wf_lookup_lt {V} (m : omap V) i j e f :
  om_wf m -> m !! i = Some e -> m !! j = Some f -> (i < j)%nat -> e.1 < f.1.
Proof.
  intros Hwf Hi Hj Hlt. rewrite <- (take_drop (S i) m) in Hwf.
  apply om_wf_app in Hwf as (_ & _ & Hwf). rewrite Forall_forall in Hwf.
  assert (He : e ∈ take (S i) m) by (apply (list_elem_of_lookup_2 _ i); by rewrite lookup_take_lt by lia).
  specialize (Hwf _ He). rewrite Forall_forall in Hwf. apply Hwf.
  apply (list_elem_of_lookup_2 _ (j - S i)). rewrite lookup_drop.
  by replace (S i + (j - S i))%nat with j by lia.
Qed.

Lemma om_length_erase {V} k v (m : omap V) :
  om_find k m = Some v -> S (length (om_erase k m)) = length m.
Proof.
  induction m as [|[j w] m IH]; simpl; [done|]. destruct (k =? j); [done|].
  intros Hf. simpl. by rewrite IH.
Qed.

Lemma om_erase_app {V} k (v : V) (l r : omap V) : om_wf (l ++ (k, v) :: r) -> om_erase k (l ++ (k, v) :: r) = l ++ r.
Proof.
  induction l as [|[j w] l IH]; intros Hwf; cbn.
  - by rewrite Z.eqb_refl.
  - cbn in Hwf. apply om_wf_cons in Hwf as [Hwf Hlt]. rewrite list.Forall_forall in Hlt.
    assert (j < k) by (apply (Hlt (k, v)); set_solver). destruct (Z.eqb_spec k j); [lia|]. by rewrite IH.
Qed.

Lemma om_wf_app_lt {V} (l r : omap V) a b : om_wf (l ++ r) -> a ∈ l -> b ∈ r -> a.1 < b.1.
Proof.
  intros (_ & _ & H)%om_wf_app Ha Hb. rewrite list.Forall_forall in H. specialize (H _ Ha).
  rewrite list.Forall_forall in H. by apply H.
Qed.

(** A filter that keeps everything. *)
Lemma filter_keeps {A} (P : A -> Prop) `{forall x, Decision (P x)} (l : list A) : (forall x, x ∈ l -> P x) -> filter P l = l.
Proof.
  induction l as [|x l IH]; intros Hl; [done|]. rewrite filter_cons_True by (apply Hl; set_solver).
  f_equal. apply IH. set_solver.
Qed.

Lemma om_insert_insert {V} k (v w : V) m : om_wf m -> om_insert k v (om_insert k w m) = om_insert k v m.
Proof.
  induction m as [|[j x] m IH]; intros Hwf; cbn.
  - by rewrite Z.ltb_irrefl, Z.eqb_refl.
  - apply om_wf_cons in Hwf as [Hwf _]. destruct (Z.ltb_spec k j); cbn; [by rewrite Z.ltb_irrefl, Z.eqb_refl|].
    destruct (Z.eqb_spec k j); cbn; [by rewrite Z.ltb_irrefl, Z.eqb_refl|].
    rewrite (proj2 (Z.ltb_ge k j)), (proj2 (Z.eqb_neq k j)), IH by (done || lia). done.
Qed.

Lemma filter_none {A} (P : A -> Prop) `{forall x, Decision (P x)} (l : list A) : (forall x, x ∈ l -> ~ P x) -> filter P l = [].
Proof.
  induction l as [|x l IH]; intros Hl; [done|]. rewrite filter_cons_False by (apply Hl; set_solver). apply IH. set_solver.
Qed.
