(* ===== verification/Monad.v ===== *)
(** * State, and bytes in memory

    The larger components thread a state through many calls; their definitions are
    written in the state and error monad of this file.  Below it are little-endian
    words, which several components keep in memory. *)

From stdpp Require Import base list numbers option.
From S2P Require Import Prelude.

Definition SM (S A : Type) : Type := S -> res (A * S).

Definition sm_ret {S A} (a : A) : SM S A := fun s => Ret (a, s).
Definition sm_bind {S A B} (m : SM S A) (k : A -> SM S B) : SM S B :=
  fun s => match m s with Ret (a, s') => k a s' | Err e => Err e end.
Definition sm_get {S} : SM S S := fun s => Ret (s, s).
Definition sm_put {S} (s : S) : SM S unit := fun _ => Ret (tt, s).
Definition sm_modify {S} (f : S -> S) : SM S unit := fun s => Ret (tt, f s).
Definition sm_fail {S A} (e : stop) : SM S A := fun _ => Err e.
Definition sm_assert {S} (b : bool) : SM S unit := if b then sm_ret tt else sm_fail StopAssert.

Notation "'do!' x ':=' m 'in' k" := (sm_bind m (fun x => k))
  (at level 10, x pattern, m at level 100, k at level 200) : qbox_scope.
Notation "m ';;!' k" := (sm_bind m (fun _ => k)) (at level 101, right associativity) : qbox_scope.

(** [if (b) m]. *)
Definition sm_when {S} (b : bool) (m : SM S unit) : SM S unit := if b then m else sm_ret tt.

(** A loop over a list. *)
Fixpoint sm_iter {S A} (f : A -> SM S unit) (l : list A) : SM S unit :=
  match l with
  | [] => sm_ret tt
  | x :: l' => f x ;;! sm_iter f l'
  end.

Lemma sm_bind_Ret {S A B} (m : SM S A) (k : A -> SM S B) s b s' :
  sm_bind m k s = Ret (b, s') <-> exists a s1, m s = Ret (a, s1) /\ k a s1 = Ret (b, s').
Proof. unfold sm_bind. destruct (m s) as [[a s1]|e]; naive_solver. Qed.

(** ** Bits *)

(** [extract32], [extract64]: [(val >> start) & ((1 << length) - 1)]. *)
Definition extract (val start length : Z) : Z := Z.land (Z.shiftr val start) (Z.ones length).

(** Bit [i] of a word. *)
Definition bit (val i : Z) : bool := Z.testbit val i.

Lemma extract_range val start length : 0 <= length -> 0 <= extract val start length < 2 ^ length.
Proof. intros. unfold extract. rewrite Z.land_ones by done. apply Z.mod_pos_bound. lia. Qed.

Lemma extract_div val start length :
  0 <= start -> 0 <= length -> extract val start length = (val / 2 ^ start) mod 2 ^ length.
Proof. intros. unfold extract. by rewrite Z.land_ones, Z.shiftr_div_pow2. Qed.

(** ** Little-endian words *)

(** [load_le]. *)
Fixpoint load_le (l : list Z) : Z :=
  match l with
  | [] => 0
  | b :: l' => b + 256 * load_le l'
  end.

(** [store_le] of an [n]-byte word. *)
Fixpoint store_le (n : nat) (v : Z) : list Z :=
  match n with
  | O => []
  | S n' => v mod 256 :: store_le n' (v / 256)
  end.

Lemma length_store_le n v : length (store_le n v) = n.
Proof. revert v. induction n as [|n IH]; intros v; simpl; [done|]. by rewrite IH. Qed.

Lemma load_store_le n v : load_le (store_le n v) = v mod 2 ^ (8 * Z.of_nat n).
Proof.
  revert v. induction n as [|n IH]; intros v; [simpl; by rewrite Z.mod_1_r|].
  cbn [store_le load_le]. rewrite IH.
  replace (8 * Z.of_nat (S n)) with (8 + 8 * Z.of_nat n) by lia. rewrite Z.pow_add_r by lia.
  change (2 ^ 8) with 256. rewrite Z.rem_mul_r by lia. lia.
Qed.

Lemma load_le_bound l : Forall (fun b => 0 <= b < 256) l -> 0 <= load_le l < 2 ^ (8 * Z.of_nat (length l)).
Proof.
  induction 1 as [|b l Hb Hl IH]; [done|]. cbn [load_le length].
  replace (8 * Z.of_nat (S (length l))) with (8 + 8 * Z.of_nat (length l)) by lia.
  rewrite Z.pow_add_r by lia. change (2 ^ 8) with 256. lia.
Qed.
