(* ===== verification/Registers.v ===== *)
(** * Registers and bit fields

    [registers.h]: masked register writes and the bit fields of a register.  A
    register is an unsigned integer of [w] bits. *)

From stdpp Require Import base list numbers option.
From S2P Require Import Prelude Monad.

(** [gs_full_mask]. *)
Definition gs_full_mask (w : Z) : Z := Z.ones w.

(** [gs_mask_for_field]. *)
Definition gs_mask_for_field (w start length : Z) : res Z :=
  if (length =? 0) || (w <=? start) || (w - start <? length) then Err StopAssert
  else if length =? w then Ret (gs_full_mask w)
  else Ret (Z.shiftr (gs_full_mask w) (w - length)).

(** [~x] of a [w]-bit value. *)
Definition lnot_w (w x : Z) : Z := Z.ldiff (Z.ones w) x.

(** One element of [write_with_mask]: the masked bits of [src] over [dst]. *)
Definition write_with_mask (w src dst mask : Z) : Z :=
  Z.lor (Z.land src mask) (Z.land dst (lnot_w w mask)).

(** [gs_bitfield::operator=]: [m_reg &= ~mask; m_reg |= value << start]. *)
Definition bitfield_set (w start length value reg : Z) : res Z :=
  let? field_mask := gs_mask_for_field w start length in
  let? _ := assertb (Z.land value (lnot_w w field_mask) =? 0) in
  let mask := wrap w (Z.shiftl field_mask start) in
  let reg := Z.land reg (lnot_w w mask) in
  Ret (Z.lor reg (wrap w (Z.shiftl (Z.land value field_mask) start))).

(** [gs_bitfield::operator TYPE]. *)
Definition bitfield_get (w start length reg : Z) : res Z :=
  let? field_mask := gs_mask_for_field w start length in
  Ret (Z.land (Z.shiftr reg start) field_mask).

(** ** Lemmas *)

(** The field lies in the register. *)
Definition field_ok (w start length : Z) : Prop := 0 <= start /\ 0 < length /\ start + length <= w.

Lemma mask_for_field_ok w start length :
  field_ok w start length -> gs_mask_for_field w start length = Ret (Z.ones length).
Proof.
  intros (Hs & Hl & Hw). unfold gs_mask_for_field, gs_full_mask.
  rewrite (proj2 (Z.eqb_neq length 0)), (proj2 (Z.leb_gt w start)), (proj2 (Z.ltb_ge (w - start) length)) by lia.
  cbn [orb]. destruct (Z.eqb_spec length w) as [->|]; [done|]. f_equal. apply Z.bits_inj'. intros i Hi.
  rewrite Z.shiftr_spec, !Z.testbit_ones by lia.
  destruct (Z.leb_spec 0 i), (Z.ltb_spec i length), (Z.leb_spec 0 (i + (w - length))), (Z.ltb_spec (i + (w - length)) w);
    try done; lia.
Qed.

Lemma lnot_w_spec w x i : 0 <= w -> 0 <= i -> Z.testbit (lnot_w w x) i = (i <? w) && negb (Z.testbit x i).
Proof.
  intros Hw Hi. unfold lnot_w. rewrite Z.ldiff_spec, Z.testbit_ones by lia.
  by rewrite (proj2 (Z.leb_le 0 i)) by lia.
Qed.

Lemma testbit_above w x i : 0 <= x < 2 ^ w -> w <= i -> Z.testbit x i = false.
Proof.
  intros Hx Hi. destruct (decide (x = 0)) as [->|]; [apply Z.bits_0|]. apply Z.bits_above_log2; [lia|].
  enough (Z.log2 x < w) by lia. apply Z.log2_lt_pow2; lia.
Qed.

Lemma lor_add_aligned a b k : 0 <= k -> a mod 2 ^ k = 0 -> 0 <= b < 2 ^ k -> Z.lor a b = a + b.
Proof.
  intros Hk Ha Hb. assert (Z.land a b = 0) as Hl.
  { apply Z.bits_inj'. intros i Hi. rewrite Z.land_spec, Z.bits_0.
    destruct (Z.ltb_spec i k); [|by rewrite (testbit_above k b), andb_false_r by lia].
    assert (Z.testbit (Z.land a (Z.ones k)) i = false) as Ht by (rewrite Z.land_ones, Ha by lia; apply Z.bits_0).
    rewrite Z.land_spec, Z.testbit_ones in Ht by lia.
    rewrite (proj2 (Z.leb_le 0 i)), (proj2 (Z.ltb_lt i k)), andb_true_r in Ht by lia. by rewrite Ht. }
  pose proof (Z.add_lor_land a b). lia.
Qed.

(** A value that passes the assertion fits its field. *)
Lemma field_value_fits w length value :
  0 < length <= w -> 0 <= value < 2 ^ w -> Z.land value (lnot_w w (Z.ones length)) = 0 -> value < 2 ^ length.
Proof.
  intros Hl Hv H. assert (Z.shiftr value length = 0) as Hz.
  { apply Z.bits_inj'. intros i Hi. rewrite Z.shiftr_spec, Z.bits_0 by lia.
    destruct (Z.ltb_spec (i + length) w); [|apply (testbit_above w); lia].
    assert (Z.testbit (Z.land value (lnot_w w (Z.ones length))) (i + length) = false) as Ht by (rewrite H; apply Z.bits_0).
    rewrite Z.land_spec, lnot_w_spec, Z.testbit_ones in Ht by lia.
    rewrite (proj2 (Z.ltb_lt (i + length) w)), (proj2 (Z.ltb_ge (i + length) length)), andb_false_r in Ht by lia.
    simpl in Ht. by rewrite andb_true_r in Ht. }
  rewrite Z.shiftr_div_pow2 in Hz by lia. apply Z.div_small_iff in Hz; lia.
Qed.

Lemma bitfield_set_testbit w start length value reg r i :
  field_ok w start length -> 0 <= reg < 2 ^ w -> 0 <= value < 2 ^ w -> 0 <= i ->
  bitfield_set w start length value reg = Ret r ->
  Z.testbit r i = if (start <=? i) && (i <? start + length) then Z.testbit value (i - start) else Z.testbit reg i.
Proof.
  intros Hf Hr Hv Hi. unfold bitfield_set. rewrite mask_for_field_ok by done. cbn [rbind].
  intros H. apply rbind_Ret in H as (u & Ha%assertb_Ret & H). injection H as <-.
  destruct Hf as (Hs & Hl & Hw). rewrite Z.lor_spec, Z.land_spec, lnot_w_spec by lia. unfold wrap.
  rewrite <- !Z.land_ones, !Z.land_spec, !Z.shiftl_spec, Z.land_spec, !Z.testbit_ones by lia.
  destruct (Z.leb_spec 0 i); [|lia].
  destruct (Z.leb_spec start i), (Z.ltb_spec i (start + length)); cbn [andb].
  - rewrite (proj2 (Z.ltb_lt (i - start) length)), (proj2 (Z.leb_le 0 (i - start))), (proj2 (Z.ltb_lt i w)) by lia.
    cbn. by rewrite andb_false_r, !andb_true_r.
  - rewrite (proj2 (Z.ltb_ge (i - start) length)), !andb_false_r by lia. cbn.
    destruct (Z.ltb_spec i w); cbn; [by rewrite andb_true_r, orb_false_r|]. by rewrite (testbit_above w reg) by lia.
  - rewrite (proj2 (Z.leb_gt 0 (i - start))), !andb_false_r by lia. cbn.
    destruct (Z.ltb_spec i w); cbn; [by rewrite andb_true_r, orb_false_r|lia].
  - lia.
Qed.

(** Assignment and reading back. *)
Lemma bitfield_set_ok w start length value reg :
  field_ok w start length -> 0 <= reg < 2 ^ w -> 0 <= value < 2 ^ length ->
  exists r, bitfield_set w start length value reg = Ret r /\ 0 <= r < 2 ^ w /\
    bitfield_get w start length r = Ret value /\
    forall i, 0 <= i -> ~ start <= i < start + length -> Z.testbit r i = Z.testbit reg i.
Proof.
  intros Hf Hr Hv. pose proof Hf as (Hs & Hl & Hw).
  assert (2 ^ length <= 2 ^ w) by (apply Z.pow_le_mono_r; lia).
  destruct (bitfield_set w start length value reg) as [r|e] eqn:E.
  2: { unfold bitfield_set in E. rewrite mask_for_field_ok in E by done. cbn [rbind] in E.
    replace (Z.land value (lnot_w w (Z.ones length))) with 0 in E; [done|].
    apply Z.bits_inj'. intros i Hi. rewrite Z.bits_0, Z.land_spec, lnot_w_spec, Z.testbit_ones by lia.
    destruct (Z.ltb_spec i length); [|by rewrite (testbit_above length) by lia].
    rewrite (proj2 (Z.leb_le 0 i)) by lia. cbn. by rewrite !andb_false_r. }
  pose proof (fun i Hi => bitfield_set_testbit w start length value reg r i Hf Hr ltac:(lia) Hi E) as Hb.
  exists r. split; [done|]. split_and!.
  - apply Z.bits_iff_nonneg_ex. exists w. intros i Hi. rewrite Hb by lia.
    destruct (Z.leb_spec start i), (Z.ltb_spec i (start + length)); cbn; try lia; by apply (testbit_above w); lia.
  - enough (Z.shiftr r w = 0) as Hz.
    { rewrite Z.shiftr_div_pow2 in Hz by lia. apply Z.div_small_iff in Hz; lia. }
    apply Z.bits_inj'. intros i Hi. rewrite Z.shiftr_spec, Z.bits_0, Hb by lia.
    destruct (Z.leb_spec start (i + w)), (Z.ltb_spec (i + w) (start + length)); cbn; try lia; by apply (testbit_above w); lia.
  - unfold bitfield_get. rewrite mask_for_field_ok by done. cbn [rbind]. f_equal. apply Z.bits_inj'. intros i Hi.
    rewrite Z.land_spec, Z.shiftr_spec, Z.testbit_ones by lia.
    destruct (Z.ltb_spec i length).
    + rewrite Hb by lia. rewrite (proj2 (Z.leb_le start (i + start))), (proj2 (Z.ltb_lt (i + start) (start + length))) by lia.
      rewrite (proj2 (Z.leb_le 0 i)) by lia. cbn. rewrite andb_true_r. f_equal. lia.
    + rewrite !andb_false_r. by rewrite (testbit_above length) by lia.
  - intros i Hi Hout. rewrite Hb by done. destruct (Z.leb_spec start i), (Z.ltb_spec i (start + length)); try done; lia.
Qed.

(** ** Properties *)

(** Bit fields: assigning a value that fits stores it in the field, reading the field
    gives it back, and every bit outside the field keeps its value. *)
Theorem bitfield_set_get w start length value reg :
  field_ok w start length -> 0 <= reg < 2 ^ w -> 0 <= value < 2 ^ length ->
  exists r, bitfield_set w start length value reg = Ret r /\ 0 <= r < 2 ^ w /\
    bitfield_get w start length r = Ret value /\
    forall i, 0 <= i -> ~ start <= i < start + length -> Z.testbit r i = Z.testbit reg i.
Proof. apply bitfield_set_ok. Qed.

Lemma bitfield_set_get_witness :
  exists r, bitfield_set 32 23 7 5 0xffffffff = Ret r /\ bitfield_get 32 23 7 r = Ret 5.
Proof.
  destruct (bitfield_set_get 32 23 7 5 0xffffffff) as (r & H1 & _ & H2 & _);
    [unfold field_ok; lia|lia|lia|]. exists r. split; [exact H1|exact H2].
Defined.
