(* ===== verification/Tlm.v ===== *)
(** * Transactions and DMI descriptors

    The TLM-2.0 generic payload and DMI descriptor as the components read and
    write them (their accessors only store and return fields), together with the
    payload extensions that are part of the repository: the path recorded by the
    routers, the exclusive-access status and the record of underlying DMI regions. *)

From stdpp Require Import base list numbers option.
From S2P Require Import Prelude.

Inductive tlm_command : Type :=
| TLM_READ_COMMAND
| TLM_WRITE_COMMAND
| TLM_IGNORE_COMMAND.

#[global] Instance tlm_command_eq_dec : EqDecision tlm_command.
Proof. solve_decision. Defined.

Inductive tlm_response_status : Type :=
| TLM_OK_RESPONSE
| TLM_INCOMPLETE_RESPONSE
| TLM_GENERIC_ERROR_RESPONSE
| TLM_ADDRESS_ERROR_RESPONSE
| TLM_COMMAND_ERROR_RESPONSE
| TLM_BURST_ERROR_RESPONSE
| TLM_BYTE_ENABLE_ERROR_RESPONSE.

#[global] Instance tlm_response_status_eq_dec : EqDecision tlm_response_status.
Proof. solve_decision. Defined.

(** The enumerators' values, which the router compares with [>=]. *)
Definition status_code (s : tlm_response_status) : Z :=
  match s with
  | TLM_OK_RESPONSE => 1
  | TLM_INCOMPLETE_RESPONSE => 0
  | TLM_GENERIC_ERROR_RESPONSE => -1
  | TLM_ADDRESS_ERROR_RESPONSE => -2
  | TLM_COMMAND_ERROR_RESPONSE => -3
  | TLM_BURST_ERROR_RESPONSE => -4
  | TLM_BYTE_ENABLE_ERROR_RESPONSE => -5
  end.

(** ** DMI descriptors *)

Inductive dmi_access : Type :=
| DMI_ACCESS_NONE
| DMI_ACCESS_READ
| DMI_ACCESS_WRITE
| DMI_ACCESS_READ_WRITE.

#[global] Instance dmi_access_eq_dec : EqDecision dmi_access.
Proof. solve_decision. Defined.

(** Both addresses are inclusive; [dmi_ptr] is the host address of
    [dmi_start]. *)
Record tlm_dmi : Type := mk_dmi {
  dmi_ptr : Z;
  dmi_start : Z;
  dmi_end : Z;
  dmi_acc : dmi_access;
}.

#[global] Instance tlm_dmi_eq_dec : EqDecision tlm_dmi.
Proof. solve_decision. Defined.

Definition is_read_allowed (d : tlm_dmi) : bool :=
  match dmi_acc d with DMI_ACCESS_READ | DMI_ACCESS_READ_WRITE => true | _ => false end.

Definition is_write_allowed (d : tlm_dmi) : bool :=
  match dmi_acc d with DMI_ACCESS_WRITE | DMI_ACCESS_READ_WRITE => true | _ => false end.

Definition is_none_allowed (d : tlm_dmi) : bool :=
  match dmi_acc d with DMI_ACCESS_NONE => true | _ => false end.

Definition set_dmi_ptr (p : Z) (d : tlm_dmi) := mk_dmi p (dmi_start d) (dmi_end d) (dmi_acc d).
Definition set_start_address (a : Z) (d : tlm_dmi) := mk_dmi (dmi_ptr d) a (dmi_end d) (dmi_acc d).
Definition set_end_address (a : Z) (d : tlm_dmi) := mk_dmi (dmi_ptr d) (dmi_start d) a (dmi_acc d).
Definition set_access (c : dmi_access) (d : tlm_dmi) := mk_dmi (dmi_ptr d) (dmi_start d) (dmi_end d) c.

(** The descriptor a [tlm_dmi] starts as ([tlm_dmi::init]). *)
Definition dmi_init : tlm_dmi := mk_dmi 0 0 UINT64_MAX DMI_ACCESS_NONE.

(** The guest address [a] is granted by [d]. *)
Definition dmi_covers (d : tlm_dmi) (a : Z) : Prop := dmi_start d <= a <= dmi_end d.

#[global] Instance dmi_covers_dec d a : Decision (dmi_covers d a).
Proof. unfold dmi_covers. apply _. Defined.

(** The host address that [d] gives for the guest address [a]. *)
Definition dmi_host (d : tlm_dmi) (a : Z) : Z := dmi_ptr d + (a - dmi_start d).

(** ** Extensions *)

(** [gs::PathIDExtension] is a [std::vector<int>]. *)
Definition PathIDExtension : Type := list Z.

(** [ExclusiveAccessTlmExtension::ExclusiveStoreStatus]. *)
Inductive ExclusiveStoreStatus : Type :=
| EXCLUSIVE_STORE_NA
| EXCLUSIVE_STORE_SUCCESS
| EXCLUSIVE_STORE_FAILURE.

#[global] Instance ExclusiveStoreStatus_eq_dec : EqDecision ExclusiveStoreStatus.
Proof. solve_decision. Defined.

(** [gs::tlm_dmi_ex]. The module pointer is a number that names the module. *)
Inductive dmi_type : Type := dmi_mapped | dmi_nomap | dmi_valid | dmi_iommu.

#[global] Instance dmi_type_eq_dec : EqDecision dmi_type.
Proof. solve_decision. Defined.

Record tlm_dmi_ex : Type := mk_dmi_ex {
  ex_module : Z;
  ex_dmi : tlm_dmi;
  ex_type : dmi_type;
}.

(** [gs::UnderlyingDMITlmExtension]. *)
Definition UnderlyingDMI : Type := list tlm_dmi_ex.

Definition add_dmi (e : UnderlyingDMI) (m : Z) (d : tlm_dmi) (t : dmi_type) : UnderlyingDMI :=
  e ++ [mk_dmi_ex m d t].

Fixpoint has_dmi (e : UnderlyingDMI) (t : dmi_type) : bool :=
  match e with
  | [] => false
  | d :: e' => if decide (ex_type d = t) then true else has_dmi e' t
  end.

Fixpoint get_first (e : UnderlyingDMI) (t : dmi_type) : res tlm_dmi :=
  match e with
  | [] => Err StopFatal
  | d :: e' => if decide (ex_type d = t) then Ret (ex_dmi d) else get_first e' t
  end.

Definition get_last (e : UnderlyingDMI) (t : dmi_type) : res tlm_dmi :=
  get_first (rev e) t.

(** ** The generic payload *)

(** [data] is the memory behind the data pointer and [byt] that behind the byte
    enable pointer ([None] for a null pointer); [data_length],
    [byte_enable_length] and [streaming_width] are [unsigned int]. *)
Record payload : Type := mk_payload {
  command : tlm_command;
  address : Z;
  data : list Z;
  data_length : Z;
  streaming_width : Z;
  byt : option (list Z);
  byte_enable_length : Z;
  response : tlm_response_status;
  dmi_allowed : bool;
  ext_path : option PathIDExtension;
  ext_excl : option ExclusiveStoreStatus;
  ext_udmi : option UnderlyingDMI;
}.

Definition set_address (a : Z) (t : payload) : payload :=
  mk_payload (command t) a (data t) (data_length t) (streaming_width t) (byt t)
    (byte_enable_length t) (response t) (dmi_allowed t) (ext_path t) (ext_excl t) (ext_udmi t).
Definition set_data (d : list Z) (t : payload) : payload :=
  mk_payload (command t) (address t) d (data_length t) (streaming_width t) (byt t)
    (byte_enable_length t) (response t) (dmi_allowed t) (ext_path t) (ext_excl t) (ext_udmi t).
Definition set_response_status (s : tlm_response_status) (t : payload) : payload :=
  mk_payload (command t) (address t) (data t) (data_length t) (streaming_width t) (byt t)
    (byte_enable_length t) s (dmi_allowed t) (ext_path t) (ext_excl t) (ext_udmi t).
Definition set_dmi_allowed (b : bool) (t : payload) : payload :=
  mk_payload (command t) (address t) (data t) (data_length t) (streaming_width t) (byt t)
    (byte_enable_length t) (response t) b (ext_path t) (ext_excl t) (ext_udmi t).
Definition set_path (p : option PathIDExtension) (t : payload) : payload :=
  mk_payload (command t) (address t) (data t) (data_length t) (streaming_width t) (byt t)
    (byte_enable_length t) (response t) (dmi_allowed t) p (ext_excl t) (ext_udmi t).
Definition set_excl (s : option ExclusiveStoreStatus) (t : payload) : payload :=
  mk_payload (command t) (address t) (data t) (data_length t) (streaming_width t) (byt t)
    (byte_enable_length t) (response t) (dmi_allowed t) (ext_path t) s (ext_udmi t).
Definition set_udmi (u : option UnderlyingDMI) (t : payload) : payload :=
  mk_payload (command t) (address t) (data t) (data_length t) (streaming_width t) (byt t)
    (byte_enable_length t) (response t) (dmi_allowed t) (ext_path t) (ext_excl t) u.

(** A payload as an initiator sets it up for a plain access. *)
Definition plain_txn (c : tlm_command) (a : Z) (bytes : list Z) : payload :=
  mk_payload c a bytes (Z.of_nat (length bytes)) (Z.of_nat (length bytes)) None 0
    TLM_INCOMPLETE_RESPONSE false None None None.

(** The exclusive bounds a component derives from a payload:
    [start + data_length - 1], modulo [2^64]. *)
Definition txn_last (t : payload) : Z := u64 (address t + data_length t - 1).

(** What an initiator may hand over: fields within the width of their C types. *)
Definition txn_ok (t : payload) : Prop :=
  in_width 64 (address t) /\ in_width 32 (data_length t).

Lemma get_first_has_dmi e t d : get_first e t = Ret d -> has_dmi e t = true.
Proof. induction e as [|x e IH]; simpl; [done|]. case_decide; [done|]. apply IH. Qed.

Lemma has_dmi_get_first e t : has_dmi e t = true -> exists d, get_first e t = Ret d.
Proof. induction e as [|x e IH]; simpl; [done|]. case_decide; [by eauto|]. apply IH. Qed.

(** ** Memory behind a socket *)

(** What the socket of a component that keeps its data in memory is bound to: host memory
    behind DMI pointers, transactions and DMI requests. *)
Record dma_bus (W : Type) : Type := mk_bus {
  bus_hread : W -> Z -> Z;
  bus_hwrite : W -> Z -> Z -> W;
  bus_transport : payload -> W -> res (payload * W);
  bus_dmi : payload -> tlm_dmi -> W -> res (bool * payload * tlm_dmi * W);
}.
Arguments mk_bus {W}.
Arguments bus_hread {W}.
Arguments bus_hwrite {W}.
Arguments bus_transport {W}.
Arguments bus_dmi {W}.
