(* ===== verification/AddrMapCache.v ===== *)
(** * Address-map caches of the router

    [router.h] looks an address up in a cache before it searches its region map,
    and stores every result there.  [AddrMapCacheBase] is the interface (a class
    here), [AddrMapNoCache] its default implementation, and
    [addrmap_cache_examples.h] has the others: [LRUCache], [RegionFIFOCache] and
    [RegionLRUCache].  [CacheSound] says what the router needs of a cache: a hit
    returns what the region map would have returned. *)

From stdpp Require Import base list numbers option strings gmap.
From S2P Require Import Prelude.

(** ** Targets *)

(** [router_if::target_info]. *)
Record target_info : Type := mk_target {
  ti_index : nat;
  ti_name : string;
  ti_address : Z;
  ti_size : Z;
  ti_priority : Z;
  ti_use_offset : bool;
  ti_is_callback : bool;
  ti_chained : bool;
  ti_shortname : string;
  ti_stride : Z;
  ti_elem_size : Z;
  ti_dim_strides : list Z;
  ti_dim_counts : list Z;
}.

#[global] Instance target_info_eq_dec : EqDecision target_info.
Proof. solve_decision. Defined.

(** [std::shared_ptr<target_info>] that is not null: the object and its
    identity, which is what [==] on pointers compares. *)
Record tref : Type := mk_tref {
  t_id : nat;
  t_obj : target_info;
}.

#[global] Instance tref_eq_dec : EqDecision tref.
Proof. solve_decision. Defined.

(** The N-dimensional part of [target_info::claims]: index by each stride in
    turn, then compare the remainder with the element size.  A zero stride divides
    by zero, and a [dim_counts] shorter than [dim_strides] is read out of range. *)
Fixpoint claims_dims (strides counts : list Z) (r elem : Z) : res bool :=
  match strides, counts with
  | [], _ => Ret (r <? elem)
  | s :: strides', c :: counts' =>
      if s =? 0 then Err StopUndef
      else if c <=? r / s then Ret false
      else claims_dims strides' counts' (r mod s) elem
  | _ :: _, [] => Err StopUndef
  end.

(** [target_info::claims]. *)
Definition claims (t : target_info) (addr : Z) : res bool :=
  if (addr <? ti_address t) || (ti_size t <=? addr - ti_address t) then Ret false
  else match ti_dim_strides t with
       | _ :: _ =>
           claims_dims (ti_dim_strides t) (ti_dim_counts t) (addr - ti_address t) (ti_elem_size t)
       | [] =>
           if ti_stride t =? 0 then Ret true
           else Ret ((addr - ti_address t) mod ti_stride t <? ti_elem_size t)
       end.

(** ** The interface *)

(** [get] returns [Some v] on a hit; the value itself may be a null pointer, for
    a cached negative result. *)
Class AddrMapCache (C : Type) : Type := {
  c_empty : C;
  c_get : Z -> C -> option (option tref) * C;
  c_put : Z -> option tref -> Z -> C -> C;
  c_clear : C -> C;
  c_hits : C -> Z;
  c_misses : C -> Z;
  c_reset_stats : C -> C;
}.

(** [f] is the lookup function that the cache stands for.  The invariant holds
    for a new and for a cleared cache whatever [f] is, is kept by the two
    operations [addressMap::find] uses, and makes every hit agree with [f]. *)
Class CacheSound (C : Type) `{AddrMapCache C} (good : (Z -> option tref) -> Prop) : Type := {
  c_inv : (Z -> option tref) -> C -> Prop;
  c_inv_empty : forall f, c_inv f c_empty;
  c_inv_clear : forall f g c, c_inv f c -> c_inv g (c_clear c);
  c_inv_get : forall f k c, good f -> c_inv f c -> c_inv f (c_get k c).2;
  c_inv_put : forall f k sz c, good f -> c_inv f c -> (c_get k c).1 = None ->
      c_inv f (c_put k (f k) sz (c_get k c).2);
  c_hit : forall f k c v, good f -> c_inv f c -> (c_get k c).1 = Some v -> v = f k;
}.

(** ** AddrMapNoCache *)

Definition NoCache : Type := unit.

Definition NoCache_get (k : Z) (c : NoCache) : option (option tref) * NoCache := (None, c).
Definition NoCache_put (k : Z) (v : option tref) (sz : Z) (c : NoCache) : NoCache := c.
Definition NoCache_clear (c : NoCache) : NoCache := c.

#[export] Instance NoCache_cache : AddrMapCache NoCache := {
  c_empty := tt;
  c_get := NoCache_get;
  c_put := NoCache_put;
  c_clear := NoCache_clear;
  c_hits := fun _ => 0;
  c_misses := fun _ => 0;
  c_reset_stats := fun c => c;
}.

#[export] Program Instance NoCache_sound : CacheSound NoCache (fun _ => True) := {
  c_inv := fun _ _ => True;
}.
Solve All Obligations with done.

(** ** LRUCache *)

(** A node of [m_list]; [n_id] stands for its address, which is what the
    iterators of [m_map] hold. *)
Record lru_node : Type := mk_node {
  n_id : nat;
  n_key : Z;
  n_val : option tref;
}.

Record LRUCache : Type := mk_lru {
  l_list : list lru_node;
  l_map : gmap Z nat;
  l_next : nat;
  l_hits : Z;
  l_misses : Z;
}.

Definition LRU_Capacity : Z := 0x10000.

(** Dereference an iterator of [m_map]. *)
Definition node_at (id : nat) (l : list lru_node) : option lru_node :=
  snd <$> list_find (fun n => n_id n = id) l.

(** [m_list.splice (m_list.begin (), m_list, it)]. *)
Definition splice_front (id : nat) (l : list lru_node) : list lru_node :=
  match node_at id l with
  | Some n => n :: filter (fun x => n_id x <> id) l
  | None => l
  end.

(** [get]. An iterator of [m_map] always points into [m_list] (lemma
    [lru_no_dangling] below); the model reports a miss where it would not. *)
Definition LRU_get (k : Z) (c : LRUCache) : option (option tref) * LRUCache :=
  match l_map c !! k with
  | None => (None, mk_lru (l_list c) (l_map c) (l_next c) (l_hits c) (u64 (l_misses c + 1)))
  | Some id =>
      let l' := splice_front id (l_list c) in
      (n_val <$> node_at id (l_list c),
       mk_lru l' (l_map c) (l_next c) (u64 (l_hits c + 1)) (l_misses c))
  end.

(** The eviction at the head of [put]. *)
Definition LRU_evict (c : LRUCache) : LRUCache :=
  if decide (LRU_Capacity <= Z.of_nat (length (l_list c))) then
    match last (l_list c) with
    | Some n => mk_lru (removelast (l_list c)) (delete (n_key n) (l_map c))
                  (l_next c) (l_hits c) (l_misses c)
    | None => c
    end
  else c.

Definition LRU_put (k : Z) (v : option tref) (sz : Z) (c : LRUCache) : LRUCache :=
  let c := LRU_evict c in
  mk_lru (mk_node (l_next c) k v :: l_list c) (<[k := l_next c]> (l_map c))
    (S (l_next c)) (l_hits c) (l_misses c).

Definition LRU_clear (c : LRUCache) : LRUCache :=
  mk_lru [] ∅ (l_next c) (l_hits c) (l_misses c).

Definition LRU_reset_stats (c : LRUCache) : LRUCache :=
  mk_lru (l_list c) (l_map c) (l_next c) 0 0.

#[export] Instance LRU_cache : AddrMapCache LRUCache := {
  c_empty := mk_lru [] ∅ 0 0 0;
  c_get := LRU_get;
  c_put := LRU_put;
  c_clear := LRU_clear;
  c_hits := l_hits;
  c_misses := l_misses;
  c_reset_stats := LRU_reset_stats;
}.

(** Every node holds the value [f] has for its key; every iterator points at a
    node with its key; node addresses are distinct and below the next one; the
    list never exceeds the capacity. *)
Record lru_inv (f : Z -> option tref) (c : LRUCache) : Prop := {
  li_val : forall n, n ∈ l_list c -> n_val n = f (n_key n);
  li_map : forall k id, l_map c !! k = Some id ->
      exists n, n ∈ l_list c /\ n_id n = id /\ n_key n = k;
  li_ids : NoDup (n_id <$> l_list c);
  li_next : forall n, n ∈ l_list c -> (n_id n < l_next c)%nat;
  li_cap : Z.of_nat (length (l_list c)) <= LRU_Capacity;
}.

Lemma node_at_elem l n : NoDup (n_id <$> l) -> n ∈ l -> node_at (n_id n) l = Some n.
Proof.
  intros Hnd Hin. unfold node_at. induction l as [|x l IH]; [by apply not_elem_of_nil in Hin|].
  simpl. csimpl in Hnd. apply NoDup_cons in Hnd as [Hx Hnd].
  case_decide as E.
  - simpl. f_equal. apply elem_of_cons in Hin as [->|Hin]; [done|].
    destruct Hx. rewrite E. apply list_elem_of_fmap. eauto.
  - apply elem_of_cons in Hin as [->|Hin]; [done|]. specialize (IH Hnd Hin).
    destruct (list_find _ l) as [[]|]; by simplify_eq/=.
Qed.

Lemma node_at_Some l id n : node_at id l = Some n -> n ∈ l /\ n_id n = id.
Proof.
  unfold node_at. destruct (list_find _ l) as [[i x]|] eqn:E; intros [= <-].
  apply list_find_Some in E as (Hl & He & _). split; [|done].
  by apply list_elem_of_lookup_2 in Hl.
Qed.

(** The iterators of [m_map] never dangle. *)
Lemma lru_no_dangling f c k id :
  lru_inv f c -> l_map c !! k = Some id ->
  exists n, node_at id (l_list c) = Some n /\ n_key n = k.
Proof.
  intros Hinv Hk. destruct (li_map _ _ Hinv _ _ Hk) as (n & Hn & <- & <-).
  exists n. split; [|done]. apply node_at_elem; [apply Hinv|done].
Qed.

Lemma splice_front_elem l id n :
  NoDup (n_id <$> l) -> n ∈ splice_front id l <-> n ∈ l.
Proof.
  intros Hnd. unfold splice_front. destruct (node_at id l) as [x|] eqn:E; [|done].
  apply node_at_Some in E as [Hx Hid]. rewrite elem_of_cons, list_elem_of_filter.
  split; [naive_solver|]. intros Hn. destruct (decide (n_id n = id)) as [Heq|]; [|by right].
  left. pose proof (node_at_elem _ _ Hnd Hn) as E1. pose proof (node_at_elem _ _ Hnd Hx) as E2.
  rewrite Heq in E1. rewrite Hid in E2. congruence.
Qed.

Lemma splice_front_perm l id : NoDup (n_id <$> l) -> Permutation (splice_front id l) l.
Proof.
  intros Hnd. pose proof Hnd as Hnd'. apply NoDup_fmap_1 in Hnd'.
  apply NoDup_Permutation; [|done|intros; by apply splice_front_elem].
  unfold splice_front. destruct (node_at id l) as [x|] eqn:E; [|done].
  apply node_at_Some in E as [Hx Hid]. constructor; [|by apply NoDup_filter].
  rewrite list_elem_of_filter. naive_solver.
Qed.

Lemma lru_inv_get f k c : lru_inv f c -> lru_inv f (LRU_get k c).2.
Proof.
  intros Hinv. unfold LRU_get. destruct (l_map c !! k) as [id|] eqn:Ek; simpl; [|by destruct Hinv].
  pose proof (splice_front_perm (l_list c) id (li_ids _ _ Hinv)) as Hp.
  destruct Hinv as [Hv Hm Hi Hn Hc]. split; simpl.
  - intros n. rewrite Hp. apply Hv.
  - intros j jd Hj. setoid_rewrite Hp. by apply Hm.
  - by rewrite Hp.
  - intros n. rewrite Hp. apply Hn.
  - by rewrite Hp.
Qed.

Lemma lru_inv_evict f c :
  lru_inv f c -> lru_inv f (LRU_evict c) /\ Z.of_nat (length (l_list (LRU_evict c))) < LRU_Capacity.
Proof.
  intros Hinv. unfold LRU_evict. case_decide as Hd; [|split; [done|lia]].
  destruct (last (l_list c)) as [n|] eqn:El.
  - apply last_Some in El as [l Hl]. destruct Hinv as [Hv Hm Hi Hn Hc].
    rewrite Hl in *. rewrite removelast_last. rewrite length_app in Hc. simpl in Hc.
    rewrite fmap_app in Hi. apply NoDup_app in Hi as (Hi & Hdisj & _).
    split; [|simpl; lia]. split; simpl.
    + intros x Hx. apply Hv, elem_of_app. by left.
    + intros k id Hk. apply lookup_delete_Some in Hk as [Hne Hk].
      destruct (Hm _ _ Hk) as (x & Hx & Hid & Hkey). exists x. split; [|done].
      apply elem_of_app in Hx as [Hx|Hx]; [done|]. apply list_elem_of_singleton in Hx as ->.
      congruence.
    + done.
    + intros x Hx. apply Hn, elem_of_app. by left.
    + lia.
  - apply last_None in El. rewrite El in Hd. by destruct Hd.
Qed.

Lemma lru_inv_put f k v sz c : v = f k -> lru_inv f c -> lru_inv f (LRU_put k v sz c).
Proof.
  intros -> Hinv. apply lru_inv_evict in Hinv as [[Hv Hm Hi Hn Hc] Hlt].
  unfold LRU_put. set (e := LRU_evict c) in *. split; simpl.
  - intros n [->|Hin]%elem_of_cons; [done|]. by apply Hv.
  - intros j id [[-> <-]|[Hne Hj]]%lookup_insert_Some.
    + eexists. split; [by left|done].
    + destruct (Hm _ _ Hj) as (n & Hin & Hid). exists n. split; [by right|done].
  - constructor; [|done]. intros (n & Heq & Hin)%list_elem_of_fmap.
    specialize (Hn _ Hin). simpl in Heq. lia.
  - intros n [->|Hin]%elem_of_cons; simpl; [lia|]. specialize (Hn _ Hin). lia.
  - lia.
Qed.

#[export] Program Instance LRU_sound : CacheSound LRUCache (fun _ => True) := {
  c_inv := lru_inv;
}.
Next Obligation.
  intros f. split; simpl; try done; try (intros; set_solver). constructor.
Qed.
Next Obligation.
  intros f g c _. split; simpl; try done; try (intros; set_solver). constructor.
Qed.
Next Obligation. intros f k c _ H. by apply lru_inv_get. Qed.
Next Obligation. intros f k sz c _ H _. apply lru_inv_put; [done|by apply lru_inv_get]. Qed.
Next Obligation.
  intros f k c v _ Hinv. simpl. unfold LRU_get.
  destruct (l_map c !! k) as [id|] eqn:E; simpl; [|done].
  destruct (lru_no_dangling _ _ _ _ Hinv E) as (n & Hn & <-). rewrite Hn. intros [= <-].
  apply (li_val _ _ Hinv). by apply node_at_Some in Hn as [? _].
Qed.

(** ** RegionFIFOCache and RegionLRUCache

    An entry covers the whole range of the target it was created for, whatever
    the address that was probed. *)

Record CacheEntry : Type := mk_entry {
  e_start : Z;
  e_end : Z;
  e_target : tref;
}.

Definition Region_Capacity : nat := 8.

(** [key >= entry.start && key < entry.end]. *)
Definition entry_hit (k : Z) (e : CacheEntry) : bool := (e_start e <=? k) && (k <? e_end e).

(** [Entry {value->address, value->address + value->size, value}]. *)
Definition entry_of (t : tref) : CacheEntry :=
  mk_entry (ti_address (t_obj t)) (u64 (ti_address (t_obj t) + ti_size (t_obj t))) t.

Record RegionFIFOCache : Type := mk_fifo {
  f_cache : list CacheEntry;
  f_hits : Z;
  f_misses : Z;
}.

(** The first entry, in order of the list, that covers [k]. *)
Fixpoint find_entry (k : Z) (l : list CacheEntry) : option CacheEntry :=
  match l with
  | [] => None
  | e :: l' => if entry_hit k e then Some e else find_entry k l'
  end.

Definition FIFO_get (k : Z) (c : RegionFIFOCache) : option (option tref) * RegionFIFOCache :=
  match find_entry k (f_cache c) with
  | Some e => (Some (Some (e_target e)), mk_fifo (f_cache c) (u64 (f_hits c + 1)) (f_misses c))
  | None => (None, mk_fifo (f_cache c) (f_hits c) (u64 (f_misses c + 1)))
  end.

(** [if (size () >= Capacity) erase the front]. *)
Definition region_evict (l : list CacheEntry) : list CacheEntry :=
  if decide (Region_Capacity <= length l)%nat then tail l else l.

Definition FIFO_put (k : Z) (v : option tref) (sz : Z) (c : RegionFIFOCache) : RegionFIFOCache :=
  match v with
  | None => c
  | Some t => mk_fifo (region_evict (f_cache c) ++ [entry_of t]) (f_hits c) (f_misses c)
  end.

Definition FIFO_clear (c : RegionFIFOCache) : RegionFIFOCache :=
  mk_fifo [] (f_hits c) (f_misses c).

Record RegionLRUCache : Type := mk_rlru {
  r_list : list CacheEntry;
  r_hits : Z;
  r_misses : Z;
}.

(** The walk from the back of [m_list]: the entry found, and the list with that
    entry moved to the back. *)
Fixpoint rlru_walk (k : Z) (l : list CacheEntry) : option (CacheEntry * list CacheEntry) :=
  match l with
  | [] => None
  | e :: l' =>
      match rlru_walk k l' with
      | Some (x, l'') => Some (x, e :: l'')
      | None => if entry_hit k e then Some (e, l' ++ [e]) else None
      end
  end.

Definition RLRU_get (k : Z) (c : RegionLRUCache) : option (option tref) * RegionLRUCache :=
  match rlru_walk k (r_list c) with
  | Some (e, l) => (Some (Some (e_target e)), mk_rlru l (u64 (r_hits c + 1)) (r_misses c))
  | None => (None, mk_rlru (r_list c) (r_hits c) (u64 (r_misses c + 1)))
  end.

Definition RLRU_put (k : Z) (v : option tref) (sz : Z) (c : RegionLRUCache) : RegionLRUCache :=
  match v with
  | None => c
  | Some t => mk_rlru (region_evict (r_list c) ++ [entry_of t]) (r_hits c) (r_misses c)
  end.

Definition RLRU_clear (c : RegionLRUCache) : RegionLRUCache :=
  mk_rlru [] (r_hits c) (r_misses c).

#[export] Instance FIFO_cache : AddrMapCache RegionFIFOCache := {
  c_empty := mk_fifo [] 0 0;
  c_get := FIFO_get;
  c_put := FIFO_put;
  c_clear := FIFO_clear;
  c_hits := f_hits;
  c_misses := f_misses;
  c_reset_stats := fun c => mk_fifo (f_cache c) 0 0;
}.

#[export] Instance RLRU_cache : AddrMapCache RegionLRUCache := {
  c_empty := mk_rlru [] 0 0;
  c_get := RLRU_get;
  c_put := RLRU_put;
  c_clear := RLRU_clear;
  c_hits := r_hits;
  c_misses := r_misses;
  c_reset_stats := fun c => mk_rlru (r_list c) 0 0;
}.

(** What the region caches assume of the map: a target that answers anywhere
    answers on the whole of its declared range. *)
Definition unshadowed (f : Z -> option tref) : Prop :=
  forall k t, f k = Some t ->
  forall j, e_start (entry_of t) <= j < e_end (entry_of t) -> f j = Some t.

(** Each entry is right on its whole range, and there are at most [Capacity]. *)
Definition region_inv (f : Z -> option tref) (l : list CacheEntry) : Prop :=
  Forall (fun e => forall j, entry_hit j e = true -> f j = Some (e_target e)) l /\
  (length l <= Region_Capacity)%nat.

Lemma find_entry_Some k l e : find_entry k l = Some e -> e ∈ l /\ entry_hit k e = true.
Proof.
  induction l as [|x l IH]; simpl; [done|]. destruct (entry_hit k x) eqn:E.
  - intros [= ->]. split; [by left|done].
  - intros [? ?]%IH. split; [by right|done].
Qed.

Lemma rlru_walk_Some k l e l' :
  rlru_walk k l = Some (e, l') -> entry_hit k e = true /\ e ∈ l /\ Permutation l' l.
Proof.
  revert e l'. induction l as [|x l IH]; simpl; [done|]. intros e l'.
  destruct (rlru_walk k l) as [[y l'']|].
  - intros [= <- <-]. destruct (IH _ _ eq_refl) as (? & ? & Hp). split; [done|].
    split; [by right|]. by rewrite Hp.
  - destruct (entry_hit k x) eqn:E; intros [= <- <-]. split; [done|]. split; [by left|].
    symmetry. apply Permutation_cons_append.
Qed.

Lemma region_inv_put f k t l :
  unshadowed f -> f k = Some t -> region_inv f l -> region_inv f (region_evict l ++ [entry_of t]).
Proof.
  intros Hu Hk [Hl Hlen]. unfold region_evict. split.
  - apply Forall_app. split.
    + case_decide; [|done]. destruct l; [done|]. by apply Forall_inv_tail in Hl.
    + apply Forall_singleton. intros j Hj. apply (Hu _ _ Hk). unfold entry_hit in Hj. lia.
  - rewrite length_app. unfold Region_Capacity in *. simpl.
    case_decide as Hd; [|lia]. destruct l; simpl in *; lia.
Qed.

#[export] Program Instance FIFO_sound : CacheSound RegionFIFOCache unshadowed := {
  c_inv := fun f c => region_inv f (f_cache c);
}.
Next Obligation. intros f. split; [constructor|unfold Region_Capacity; simpl; lia]. Qed.
Next Obligation. intros f g c _. split; [constructor|unfold Region_Capacity; simpl; lia]. Qed.
Next Obligation. intros f k c Hu H. simpl. unfold FIFO_get. by destruct (find_entry k _). Qed.
Next Obligation.
  intros f k sz c Hu H. simpl. unfold FIFO_get. destruct (find_entry k _); [done|]. intros _. simpl.
  destruct (f k) as [t|] eqn:E; simpl; [|done]. by eapply region_inv_put.
Qed.
Next Obligation.
  intros f k c v Hu [H _]. simpl. unfold FIFO_get.
  destruct (find_entry k _) as [e|] eqn:E; simpl; [|done]. intros [= <-].
  apply find_entry_Some in E as [Hin Hhit]. rewrite Forall_forall in H. symmetry. eauto.
Qed.

#[export] Program Instance RLRU_sound : CacheSound RegionLRUCache unshadowed := {
  c_inv := fun f c => region_inv f (r_list c);
}.
Next Obligation. intros f. split; [constructor|unfold Region_Capacity; simpl; lia]. Qed.
Next Obligation. intros f g c _. split; [constructor|unfold Region_Capacity; simpl; lia]. Qed.
Next Obligation.
  intros f k c Hu [H Hl]. simpl. unfold RLRU_get. destruct (rlru_walk k _) as [[e l]|] eqn:E; [|done].
  apply rlru_walk_Some in E as (_ & _ & Hp). split; simpl; by rewrite Hp.
Qed.
Next Obligation.
  intros f k sz c Hu H. simpl. unfold RLRU_get. destruct (rlru_walk k _) as [[]|]; [done|].
  intros _. simpl. destruct (f k) as [t|] eqn:E; simpl; [|done]. by eapply region_inv_put.
Qed.
Next Obligation.
  intros f k c v Hu [H _]. simpl. unfold RLRU_get.
  destruct (rlru_walk k _) as [[e l]|] eqn:E; simpl; [|done]. intros [= <-].
  apply rlru_walk_Some in E as (Hhit & Hin & _). rewrite Forall_forall in H. symmetry. eauto.
Qed.
