(* ===== verification/RegBank.v ===== *)
(** * Layout of register banks

    [registers.h], the bank specialisation of [gs_register]: an N-dimensional grid of
    elements with a stride per dimension, outermost first.  The layout checks of the
    constructor, the conversions between indices, flat index and byte offset, the decoding
    of a transaction, and the strings through which the layout reaches the register router
    ([encode_vec], [parse_u64_csv] of [reg_router.h]). *)

From stdpp Require Import base list numbers option strings.
From Stdlib Require Import Ascii.
From S2P Require Import Prelude Tlm AddrMapCache.

(** ** Layout *)

(** The constants of a bank: element size in bytes, [m_dim_counts], [m_dim_strides],
    [m_row_major_div], [m_total_count] and [m_total_span]. *)
Record bank_layout : Type := mk_bank {
  bk_elem : Z;
  bk_counts : list Z;
  bk_strides : list Z;
  bk_div : list Z;
  bk_total_count : Z;
  bk_total_span : Z;
}.

(** The loop of [compute_total_span]: [None] when a dimension is empty. *)
Fixpoint span_loop (counts strides : list Z) (span : Z) : option Z :=
  match counts, strides with
  | c :: counts', s :: strides' => if c =? 0 then None else span_loop counts' strides' (u64 (span + (c - 1) * s))
  | _, _ => Some span
  end.

Definition compute_total_span (elem : Z) (counts strides : list Z) : Z :=
  match counts with
  | [] => 0
  | _ => if negb (length counts =? length strides)%nat then 0
         else match span_loop counts strides 0 with None => 0 | Some span => u64 (span + elem) end
  end.

Definition compute_total_count (counts : list Z) : Z := foldl (fun c v => u64 (c * v)) 1 counts.

(** [m_row_major_div]: for each dimension the product of the counts inside it. *)
Fixpoint row_major_div (counts : list Z) : list Z :=
  match counts with
  | [] => []
  | _ :: counts' =>
      match row_major_div counts' with
      | d :: ds => u64 (d * default 1 (head counts')) :: d :: ds
      | [] => [1]
      end
  end.

(** The inner span the constructor compares an outer stride with. *)
Fixpoint inner_span (elem : Z) (counts strides : list Z) : Z :=
  match counts, strides with
  | c :: counts', s :: strides' => u64 ((c - 1) * s + inner_span elem counts' strides')
  | _, _ => elem
  end.

(** The layout checks of [init_common]. *)
Fixpoint check_layout (elem : Z) (counts strides : list Z) : res unit :=
  match counts, strides with
  | _ :: counts', s :: strides' =>
      if s <? inner_span elem counts' strides' then Err StopFatal else check_layout elem counts' strides'
  | _, _ => Ret tt
  end.

Definition init_common (elem : Z) (counts strides : list Z) : res bank_layout :=
  let? _ := check_layout elem counts strides in
  Ret (mk_bank elem counts strides (row_major_div counts) (compute_total_count counts)
         (compute_total_span elem counts strides)).

(** The two constructors. *)
Definition new_bank_1d (elem count stride : Z) : res bank_layout := init_common elem [count] [stride].

Definition new_bank (elem : Z) (counts strides : list Z) : res bank_layout :=
  if negb (length counts =? length strides)%nat || (length counts =? 0)%nat then Err StopFatal
  else if existsb (fun c => c =? 0) counts then Err StopFatal
  else init_common elem counts strides.

(** ** Indices and offsets *)

(** [sum (indices[k] * weights[k])], with an index outside its count a fatal error. *)
Fixpoint weigh (indices counts weights : list Z) (acc : Z) : res Z :=
  match indices, counts, weights with
  | i :: indices', c :: counts', w :: weights' =>
      if c <=? i then Err StopFatal else weigh indices' counts' weights' (u64 (acc + i * w))
  | _, _, _ => Ret acc
  end.

Definition flat_index_for_indices (b : bank_layout) (indices : list Z) : res Z :=
  if negb (length indices =? length (bk_counts b))%nat then Err StopFatal
  else weigh indices (bk_counts b) (bk_div b) 0.

Definition byte_offset_for (b : bank_layout) (indices : list Z) : res Z :=
  if negb (length indices =? length (bk_strides b))%nat then Err StopFatal
  else weigh indices (bk_counts b) (bk_strides b) 0.

(** [build_cursor]: the byte offset of an element or of a slice. *)
Definition build_cursor (b : bank_layout) (indices : list Z) : res Z :=
  if (length indices =? 0)%nat || (length (bk_strides b) <? length indices)%nat then Err StopFatal
  else weigh indices (bk_counts b) (bk_strides b) 0.

(** Divide by each weight in turn: the quotients and the last remainder. *)
Fixpoint unravel (weights : list Z) (r : Z) : list Z * Z :=
  match weights with
  | [] => ([], r)
  | w :: weights' => let '(q, r') := unravel weights' (r mod w) in (r / w :: q, r')
  end.

(** [sum (indices[k] * weights[k])] without checks. *)
Fixpoint dot (indices weights : list Z) (acc : Z) : Z :=
  match indices, weights with
  | i :: indices', w :: weights' => dot indices' weights' (u64 (acc + i * w))
  | _, _ => acc
  end.

Definition byte_offset_for_flat (b : bank_layout) (flat : Z) : res Z :=
  if bk_total_count b <=? flat then Err StopFatal
  else Ret (dot (unravel (bk_div b) flat).1 (bk_strides b) 0).

(** Every index is below its count. *)
Fixpoint in_counts (indices counts : list Z) : bool :=
  match indices, counts with
  | i :: indices', c :: counts' => (i <? c) && in_counts indices' counts'
  | _, _ => true
  end.

Definition byte_offset_is_element (b : bank_layout) (off : Z) : bool :=
  let '(q, r) := unravel (bk_strides b) off in
  in_counts q (bk_counts b) && (r <? bk_elem b).

Definition try_flat_index_for_byte_offset (b : bank_layout) (off : Z) : option Z :=
  let '(q, r) := unravel (bk_strides b) off in
  if in_counts q (bk_counts b) && (r <? bk_elem b) then Some (dot q (bk_div b) 0) else None.

(** [gs_bank_access]. *)
Record gs_bank_access : Type := mk_access {
  ba_index : Z;
  ba_byte_offset : Z;
  ba_indices : list Z;
  ba_aligned : bool;
  ba_in_range : bool;
}.

Definition on_element (a : gs_bank_access) : bool := ba_aligned a && ba_in_range a.

(** [decode_access]; [base] is [p_offset] and [relative] is [p_relative_addresses]. *)
Definition decode_access (b : bank_layout) (base : Z) (relative : bool) (t : payload) : gs_bank_access :=
  let off := if relative then address t else u64 (address t - base) in
  let '(q, r) := unravel (bk_strides b) off in
  mk_access (dot q (bk_div b) 0) off q (r <? bk_elem b) (in_counts q (bk_counts b)).

Definition is_element_start (b : bank_layout) (a : gs_bank_access) : res bool :=
  if on_element a then let? o := byte_offset_for_flat b (ba_index a) in Ret (o =? ba_byte_offset a)
  else Ret false.

Definition masked_transaction_element_count (b : bank_layout) (t : payload) (a : gs_bank_access) : res Z :=
  let? start := is_element_start b a in
  if negb start then Ret 0
  else if (data_length t =? 0) || negb (data_length t mod bk_elem b =? 0) then Ret 0
  else
    let count := data_length t / bk_elem b in
    if count =? 1 then Ret count
    else match bk_counts b, bk_strides b with
         | [_], [s] =>
             if negb (s =? bk_elem b) then Ret 0
             else if (bk_total_count b <=? ba_index a) || (bk_total_count b - ba_index a <? count) then Ret 0
             else Ret count
         | _, _ => Ret 0
         end.

(** ** The layout as configuration strings *)

(** [std::to_string]: the decimal digits of [z], in front of [acc]. *)
Fixpoint dec_digits (fuel : nat) (z : Z) (acc : string) : string :=
  match fuel with
  | O => acc
  | S fuel' =>
      let acc := String (ascii_of_nat (48 + Z.to_nat (z mod 10))) acc in
      if z / 10 =? 0 then acc else dec_digits fuel' (z / 10) acc
  end.

(** [encode_vec]: 64-bit numbers have at most 20 digits. *)
Fixpoint encode_vec (v : list Z) : string :=
  match v with
  | [] => EmptyString
  | [z] => dec_digits 20 z EmptyString
  | z :: v' => dec_digits 20 z (String "," (encode_vec v'))
  end.

(** The value of a digit in a base. *)
Definition digit_of (base : Z) (c : ascii) : option Z :=
  let n := Z.of_nat (nat_of_ascii c) in
  let d := if (48 <=? n) && (n <=? 57) then n - 48
           else if (97 <=? n) && (n <=? 122) then n - 87
           else if (65 <=? n) && (n <=? 90) then n - 55
           else 99 in
  if d <? base then Some d else None.

Definition is_digit (base : Z) (c : ascii) : bool := match digit_of base c with Some _ => true | None => false end.

(** The longest run of digits: its value and the rest. *)
Fixpoint read_digits (base acc : Z) (s : string) : Z * string :=
  match s with
  | String c s' => match digit_of base c with Some d => read_digits base (acc * base + d) s' | None => (acc, s) end
  | EmptyString => (acc, s)
  end.

Definition is_space (c : ascii) : bool :=
  let n := nat_of_ascii c in (n =? 32)%nat || ((9 <=? n)%nat && (n <=? 13)%nat).

Fixpoint skip_spaces (s : string) : string :=
  match s with String c s' => if is_space c then skip_spaces s' else s | EmptyString => s end.

(** [std::stoull (s, &consumed, 0)]: the value and what follows it.  It throws when there
    is no number or when it does not fit. *)
Definition stoull (s : string) : res (Z * string) :=
  let s := skip_spaces s in
  let '(neg, s) := match s with
                   | String "-" s' => (true, s')
                   | String "+" s' => (false, s')
                   | _ => (false, s)
                   end in
  let? x :=
    match s with
    | String "0" (String x (String h _ as s')) =>
        if (Ascii.eqb x "x" || Ascii.eqb x "X") && is_digit 16 h
        then Ret (read_digits 16 0 s') else Ret (read_digits 8 0 s)
    | String "0" _ => Ret (read_digits 8 0 s)
    | String c _ => if is_digit 10 c then Ret (read_digits 10 0 s) else Err StopFatal
    | EmptyString => Err StopFatal
    end in
  let '(v, rest) := x in
  if UINT64_MAX <? v then Err StopFatal else Ret (if (neg : bool) then u64 (- v) else v, rest).

(** The separators [parse_u64_csv] skips. *)
Fixpoint skip_separators (s : string) : string :=
  match s with
  | String c s' => if Ascii.eqb c " " || Ascii.eqb c "," then skip_separators s' else s
  | EmptyString => s
  end.

(** [parse_u64_csv]: at most one number per character. *)
Fixpoint parse_csv_loop (fuel : nat) (s : string) : res (list Z) :=
  match skip_separators s with
  | EmptyString => Ret []
  | s =>
      match fuel with
      | O => Err StopUndef
      | S fuel' =>
          let? x := stoull s in
          let? l := parse_csv_loop fuel' x.2 in
          Ret (x.1 :: l)
      end
  end.

Definition parse_u64_csv (s : string) : res (list Z) := parse_csv_loop (String.length s) s.

(** ** Lemmas on layouts *)

(** The offset of an element, the span and the number of elements, as numbers. *)
Fixpoint offset (indices weights : list Z) : Z :=
  match indices, weights with
  | i :: indices', w :: weights' => i * w + offset indices' weights'
  | _, _ => 0
  end.

Fixpoint span (elem : Z) (counts strides : list Z) : Z :=
  match counts, strides with
  | c :: counts', s :: strides' => (c - 1) * s + span elem counts' strides'
  | _, _ => elem
  end.

Definition product (counts : list Z) : Z := foldr Z.mul 1 counts.

(** Each stride covers the span of the dimensions inside it. *)
Inductive nested (elem : Z) : list Z -> list Z -> Prop :=
| nested_nil : nested elem [] []
| nested_cons c counts s strides :
    0 < c -> span elem counts strides <= s -> nested elem counts strides ->
    nested elem (c :: counts) (s :: strides).

(** Indices of an element. *)
Definition indices_ok (indices counts : list Z) : Prop := Forall2 (fun i c => 0 <= i < c) indices counts.

Lemma span_pos elem counts strides : 0 < elem -> nested elem counts strides -> elem <= span elem counts strides.
Proof. intros He. induction 1 as [|c counts s strides Hc Hs _ IH]; simpl; [lia|]. nia. Qed.

Lemma offset_span elem counts strides indices :
  0 < elem -> nested elem counts strides -> indices_ok indices counts ->
  0 <= offset indices strides /\ offset indices strides + elem <= span elem counts strides.
Proof.
  intros He Hn. revert indices. induction Hn as [|c counts s strides Hc Hs Hn IH]; intros indices Hi.
  - apply Forall2_nil_inv_r in Hi as ->. simpl. lia.
  - apply Forall2_cons_inv_r in Hi as (i & indices' & Hi & His & ->). simpl. destruct (IH _ His). pose proof (span_pos _ _ _ He Hn).
    nia.
Qed.

(** Division by the strides recovers the indices. *)
Lemma unravel_offset elem counts strides indices b :
  0 < elem -> nested elem counts strides -> indices_ok indices counts -> 0 <= b < elem ->
  unravel strides (offset indices strides + b) = (indices, b).
Proof.
  intros He Hn. revert indices. induction Hn as [|c counts s strides Hc Hs Hn IH]; intros indices Hi Hb.
  - apply Forall2_nil_inv_r in Hi as ->. simpl. f_equal; lia.
  - apply Forall2_cons_inv_r in Hi as (i & indices' & Hi & His & ->). simpl.
    destruct (offset_span _ _ _ _ He Hn His). pose proof (span_pos _ _ _ He Hn).
    replace (i * s + offset indices' strides + b) with (offset indices' strides + b + i * s) by lia.
    rewrite Z.div_add, Z.mod_add, Z.div_small, Z.mod_small by lia. by rewrite (IH _ His Hb).
Qed.

(** Conversely every number is the offset of its quotients plus its remainder. *)
Lemma offset_unravel strides r : Forall (fun s => 0 < s) strides ->
  offset (unravel strides r).1 strides + (unravel strides r).2 = r /\ length (unravel strides r).1 = length strides.
Proof.
  intros Hs. revert r. induction Hs as [|s strides Hs _ IH]; intros r; simpl; [lia|].
  destruct (unravel strides (r mod s)) as [q r'] eqn:E. specialize (IH (r mod s)). rewrite E in IH. simpl in *.
  pose proof (Z.div_mod r s). lia.
Qed.

Lemma unravel_nonneg strides r : Forall (fun s => 0 < s) strides -> 0 <= r ->
  Forall (fun i => 0 <= i) (unravel strides r).1 /\ 0 <= (unravel strides r).2.
Proof.
  intros Hs. revert r. induction Hs as [|s strides Hs _ IH]; intros r Hr; simpl; [by split|].
  pose proof (Z.mod_pos_bound r s Hs). destruct (IH (r mod s)) as [H1 H2]; [lia|].
  destruct (unravel strides (r mod s)). simpl in *. split; [constructor; [apply Z.div_pos; lia|done]|done].
Qed.

Lemma in_counts_ok indices counts :
  Forall (fun i => 0 <= i) indices -> length indices = length counts -> in_counts indices counts = true <-> indices_ok indices counts.
Proof.
  intros Hn. revert counts. induction Hn as [|i indices Hi _ IH]; intros [|c counts] Hl; simpl in *; try done.
  - split; [constructor|done].
  - rewrite andb_true_iff, IH, Z.ltb_lt by lia. unfold indices_ok. rewrite Forall2_cons. intuition lia.
Qed.

Lemma nested_strides elem counts strides : 0 < elem -> nested elem counts strides -> Forall (fun s => 0 < s) strides.
Proof.
  intros He. induction 1 as [|c counts s strides Hc Hs Hn IH]; constructor; [|done].
  pose proof (span_pos _ _ _ He Hn). lia.
Qed.

Lemma nested_lengths elem counts strides : nested elem counts strides -> length counts = length strides.
Proof. induction 1; simpl; congruence. Qed.

(** A bank holds no more elements than bytes. *)
Lemma product_span elem counts strides :
  0 < elem -> nested elem counts strides -> 0 < product counts /\ product counts * elem <= span elem counts strides.
Proof.
  intros He. induction 1 as [|c counts s strides Hc Hs Hn IH]; simpl; [lia|]. fold (product counts). nia.
Qed.

(** ** No wrap-around *)

Lemma offset_nonneg indices weights :
  Forall (fun i => 0 <= i) indices -> Forall (fun w => 0 <= w) weights -> 0 <= offset indices weights.
Proof.
  intros Hi. revert weights. induction Hi as [|i indices Hi _ IH]; intros [|w weights] Hw; simpl; try lia.
  inversion_clear Hw. specialize (IH weights H0). nia.
Qed.

Lemma indices_ok_nonneg indices counts : indices_ok indices counts -> Forall (fun i => 0 <= i) indices.
Proof. induction 1; constructor; [lia|done]. Qed.

Lemma dot_offset indices weights : forall acc,
  Forall (fun i => 0 <= i) indices -> Forall (fun w => 0 <= w) weights -> 0 <= acc ->
  acc + offset indices weights < 2 ^ 64 -> dot indices weights acc = acc + offset indices weights.
Proof.
  revert weights. induction indices as [|i indices IH]; intros [|w weights] acc Hi Hw Ha Hl; simpl in *; try lia.
  inversion_clear Hi. inversion_clear Hw. pose proof (offset_nonneg indices weights H0 H2).
  rewrite u64_small by nia. rewrite IH by (done || nia). lia.
Qed.

Lemma weigh_offset indices counts weights : forall acc,
  indices_ok indices counts -> length weights = length counts -> Forall (fun w => 0 <= w) weights -> 0 <= acc ->
  acc + offset indices weights < 2 ^ 64 -> weigh indices counts weights acc = Ret (acc + offset indices weights).
Proof.
  intros acc Hi. revert weights acc. induction Hi as [|i c indices counts Hi Hn IH]; intros [|w weights] acc Hl Hw Ha Hlt;
    simpl in *; try done; [f_equal; lia|].
  inversion_clear Hw. pose proof (offset_nonneg indices weights (indices_ok_nonneg _ _ Hn) H0).
  rewrite (proj2 (Z.leb_gt c i)) by lia. rewrite u64_small by nia. rewrite IH by (done || lia || nia). f_equal. lia.
Qed.

Lemma product_pos counts : Forall (fun c => 0 < c) counts -> 0 < product counts.
Proof. induction 1 as [|c l Hc _ IH]; simpl; [lia|]. fold (product l). nia. Qed.

(** The row-major weights are the strides of a dense array of one-byte elements. *)
Lemma div_nested counts :
  Forall (fun c => 0 < c) counts -> product counts < 2 ^ 64 ->
  nested 1 counts (row_major_div counts) /\ span 1 counts (row_major_div counts) = product counts /\
  match row_major_div counts with [] => counts = [] | d :: _ => d * default 1 (head counts) = product counts end.
Proof.
  induction 1 as [|c counts Hc Hcs IH]; intros Hp; simpl in *; [repeat constructor|].
  fold (product counts) in *.
  pose proof (product_pos counts Hcs) as Hpp.
  destruct IH as (Hn & Hs & Hd); [nia|]. destruct (row_major_div counts) as [|d ds] eqn:E.
  - subst counts. simpl in *. split_and!; [|lia|lia]. constructor; [done|simpl; lia|constructor].
  - rewrite Hd, u64_small by nia. split_and!; [|simpl; nia|lia]. constructor; [done|lia|done].
Qed.

Lemma total_count_product counts : Forall (fun c => 0 < c) counts -> product counts < 2 ^ 64 ->
  compute_total_count counts = product counts.
Proof.
  intros Hc Hp. unfold compute_total_count.
  enough (forall acc, 0 < acc -> acc * product counts < 2 ^ 64 -> foldl (fun c v => u64 (c * v)) acc counts = acc * product counts)
    as H by (rewrite H; lia).
  clear Hp. induction Hc as [|c counts Hc Hcs IH]; intros acc Ha Hp; simpl in *; [lia|].
  fold (product counts) in *.
  pose proof (product_pos counts Hcs).
  rewrite u64_small by nia. rewrite IH by nia. lia.
Qed.

Lemma inner_span_ok elem counts strides :
  0 < elem -> Forall (fun c => 0 < c) counts -> Forall (fun s => 0 <= s) strides -> span elem counts strides < 2 ^ 64 ->
  inner_span elem counts strides = span elem counts strides /\ elem <= span elem counts strides.
Proof.
  intros He Hc. revert strides. induction Hc as [|c counts Hc _ IH]; intros [|s strides] Hs Hl; simpl in *; try lia.
  inversion_clear Hs.
  assert (0 <= (c - 1) * s) by nia. destruct (IH strides) as [-> ?]; [done|lia|]. rewrite u64_small by lia. lia.
Qed.

(** The checks of the constructor are those of a nested layout. *)
Lemma check_layout_nested elem counts strides :
  0 < elem -> Forall (fun c => 0 < c) counts -> Forall (fun s => 0 <= s) strides -> length counts = length strides ->
  span elem counts strides < 2 ^ 64 -> check_layout elem counts strides = Ret tt <-> nested elem counts strides.
Proof.
  intros He Hc. revert strides. induction Hc as [|c counts Hc Hcs IH]; intros [|s strides] Hs Hl Hsp; simpl in *; try done.
  { split; [constructor|done]. }
  inversion_clear Hs. assert (0 <= (c - 1) * s) by nia.
  destruct (inner_span_ok elem counts strides) as [-> ?]; [done..|lia|].
  destruct (Z.ltb_spec s (span elem counts strides)).
  - split; [done|]. inversion 1; lia.
  - rewrite IH by (done || lia). split; [|by inversion 1]. intros. by constructor.
Qed.

Lemma total_span_ok elem counts strides :
  0 < elem -> nested elem counts strides -> counts <> [] -> span elem counts strides < 2 ^ 64 ->
  compute_total_span elem counts strides = span elem counts strides.
Proof.
  intros He Hn Hne Hl. unfold compute_total_span. destruct counts as [|c0 counts0]; [done|].
  rewrite (nested_lengths _ _ _ Hn), Nat.eqb_refl. cbn [negb]. revert Hn Hl. generalize (c0 :: counts0). clear -He.
  intros counts Hn Hl. enough (forall acc, 0 <= acc -> acc + span elem counts strides < 2 ^ 64 ->
    span_loop counts strides acc = Some (acc + span elem counts strides - elem)) as ->; [|lia..|].
  - rewrite u64_small; [lia|]. pose proof (span_pos _ _ _ He Hn). lia.
  - clear Hl. induction Hn as [|c counts s strides Hc Hs Hn IH]; intros acc Ha Hl; simpl in *; [f_equal; lia|].
    rewrite (proj2 (Z.eqb_neq c 0)) by lia. pose proof (span_pos _ _ _ He Hn). assert (0 <= (c - 1) * s) by nia.
    rewrite u64_small by lia. rewrite IH by lia. f_equal. lia.
Qed.

(** ** Banks *)

(** A bank whose layout does not wrap around. *)
Record bank_ok (b : bank_layout) : Prop := {
  bo_elem : 0 < bk_elem b;
  bo_dims : bk_counts b <> [];
  bo_nested : nested (bk_elem b) (bk_counts b) (bk_strides b);
  bo_div : bk_div b = row_major_div (bk_counts b);
  bo_span : bk_total_span b = span (bk_elem b) (bk_counts b) (bk_strides b);
  bo_count : bk_total_count b = product (bk_counts b);
  bo_fits : bk_total_span b < 2 ^ 64;
}.

Lemma new_bank_ok elem counts strides b :
  0 < elem -> Forall (fun c => 0 <= c) counts -> Forall (fun s => 0 <= s) strides -> span elem counts strides < 2 ^ 64 ->
  new_bank elem counts strides = Ret b ->
  bank_ok b /\ bk_elem b = elem /\ bk_counts b = counts /\ bk_strides b = strides.
Proof.
  intros He Hc Hs Hl. unfold new_bank.
  destruct (Nat.eqb_spec (length counts) (length strides)) as [Hlen|]; cbn [negb orb]; [|done].
  destruct (Nat.eqb_spec (length counts) 0) as [|Hne]; [done|].
  destruct (existsb (fun c => c =? 0) counts) eqn:Ez; [done|]. unfold init_common.
  assert (Forall (fun c => 0 < c) counts) as Hpos.
  { rewrite Forall_forall in Hc |- *. intros c Hin. specialize (Hc c Hin). enough (c <> 0) by lia. intros ->.
    enough (existsb (fun c => c =? 0) counts = true) by congruence. apply existsb_exists. exists 0.
    split; [by apply list_elem_of_In|done]. }
  destruct (check_layout elem counts strides) as [[]|] eqn:Ec; [|done]. cbn [rbind].
  apply check_layout_nested in Ec; [|done..]. intros [= <-]. split; [|done].
  assert (counts <> []) as Hnil by by intros ->. destruct (product_span elem counts strides He Ec).
  split; cbn; try done; [by apply total_span_ok|apply total_count_product; [done|nia]|by rewrite total_span_ok].
Qed.

Section Bank.
Context (b : bank_layout) (Hb : bank_ok b).

Lemma bank_product_lt : product (bk_counts b) < 2 ^ 64.
Proof.
  destruct (product_span _ _ _ (bo_elem b Hb) (bo_nested b Hb)). pose proof (bo_fits b Hb). rewrite (bo_span b Hb) in *.
  pose proof (bo_elem b Hb). nia.
Qed.

Lemma bank_counts_pos : Forall (fun c => 0 < c) (bk_counts b).
Proof. generalize (bo_nested b Hb). induction 1; constructor; done. Qed.

(** The weights of the flat index form a layout too. *)
Lemma bank_div : nested 1 (bk_counts b) (bk_div b) /\ span 1 (bk_counts b) (bk_div b) = product (bk_counts b).
Proof. rewrite (bo_div b Hb). pose proof (div_nested _ bank_counts_pos bank_product_lt). tauto. Qed.

(** The flat index and the byte offset of an element. *)
Lemma bank_forward indices :
  indices_ok indices (bk_counts b) ->
  flat_index_for_indices b indices = Ret (offset indices (bk_div b)) /\
  byte_offset_for b indices = Ret (offset indices (bk_strides b)) /\
  0 <= offset indices (bk_div b) < bk_total_count b /\
  0 <= offset indices (bk_strides b) /\ offset indices (bk_strides b) + bk_elem b <= bk_total_span b.
Proof.
  intros Hi. pose proof (Forall2_length _ _ _ Hi) as Hlen. destruct bank_div as [Hd Hds].
  pose proof (offset_span _ _ _ _ (bo_elem b Hb) (bo_nested b Hb) Hi) as Ho.
  pose proof (offset_span _ _ _ _ (ltac:(lia) : 0 < 1) Hd Hi) as Hf. pose proof (bo_fits b Hb). pose proof bank_product_lt.
  rewrite (bo_span b Hb) in *. unfold flat_index_for_indices, byte_offset_for.
  rewrite Hlen, <- (nested_lengths _ _ _ (bo_nested b Hb)), Nat.eqb_refl. cbn [negb]. pose proof (bo_elem b Hb).
  rewrite (weigh_offset _ _ (bk_div b)), (weigh_offset _ _ (bk_strides b)); try done; try lia.
  - rewrite (bo_count b Hb). split_and!; lia || done.
  - by rewrite <- (nested_lengths _ _ _ (bo_nested b Hb)).
  - eapply Forall_impl; [by eapply (nested_strides (bk_elem b)), bo_nested|simpl; lia].
  - by rewrite <- (nested_lengths _ _ _ Hd).
  - eapply Forall_impl; [by eapply (nested_strides 1)|simpl; lia].
Qed.

Lemma flat_dot indices :
  indices_ok indices (bk_counts b) -> dot indices (bk_div b) 0 = offset indices (bk_div b).
Proof.
  intros Hi. destruct bank_div as [Hd Hds]. pose proof (offset_span _ _ _ _ (ltac:(lia) : 0 < 1) Hd Hi).
  pose proof bank_product_lt. rewrite dot_offset; [lia|by eapply indices_ok_nonneg| |lia|lia].
  eapply Forall_impl; [by eapply (nested_strides 1)|simpl; lia].
Qed.

Lemma byte_offset_flat indices :
  indices_ok indices (bk_counts b) ->
  byte_offset_for_flat b (offset indices (bk_div b)) = Ret (offset indices (bk_strides b)).
Proof.
  intros Hi. destruct (bank_forward indices Hi) as (_ & _ & Hf & Ho & Hs). unfold byte_offset_for_flat.
  rewrite (proj2 (Z.leb_gt _ _)) by lia. destruct bank_div as [Hd _].
  pose proof (unravel_offset 1 _ _ indices 0 ltac:(lia) Hd Hi ltac:(lia)) as Hu. rewrite Z.add_0_r in Hu. rewrite Hu. cbn [fst].
  pose proof (bo_fits b Hb). pose proof (bo_elem b Hb).
  rewrite dot_offset; [done|by eapply indices_ok_nonneg| |lia|lia].
  eapply Forall_impl; [by eapply (nested_strides (bk_elem b)), bo_nested|simpl; lia].
Qed.

(** A byte offset is on an element exactly when it is a byte of one. *)
Lemma byte_offset_element o :
  0 <= o -> byte_offset_is_element b o = true <->
  exists indices k, indices_ok indices (bk_counts b) /\ 0 <= k < bk_elem b /\ o = offset indices (bk_strides b) + k.
Proof.
  intros Ho. unfold byte_offset_is_element.
  pose proof (nested_strides _ _ _ (bo_elem b Hb) (bo_nested b Hb)) as Hs. split.
  - destruct (unravel (bk_strides b) o) as [q r] eqn:E. intros [Hc ?%Z.ltb_lt]%andb_true_iff.
    destruct (offset_unravel _ o Hs) as [Ho1 Hlen]. destruct (unravel_nonneg _ o Hs Ho) as [Hq Hr]. rewrite E in *. cbn [fst snd] in *.
    apply in_counts_ok in Hc; [|done|by rewrite Hlen, (nested_lengths _ _ _ (bo_nested b Hb))].
    exists q, r. split_and!; try done; lia.
  - intros (indices & k & Hi & Hk & ->).
    rewrite (unravel_offset _ _ _ _ _ (bo_elem b Hb) (bo_nested b Hb) Hi Hk).
    rewrite (proj2 (in_counts_ok _ _ (indices_ok_nonneg _ _ Hi) (Forall2_length _ _ _ Hi)) Hi), (proj2 (Z.ltb_lt k _)) by lia. done.
Qed.

(** The claim of the register router is the test of the bank. *)
Lemma claims_dims_bank o : claims_dims (bk_strides b) (bk_counts b) o (bk_elem b) = Ret (byte_offset_is_element b o).
Proof.
  unfold byte_offset_is_element. generalize (bo_elem b Hb) as He. generalize (bo_nested b Hb). generalize (bk_elem b). intros elem Hn He.
  revert o. induction Hn as [|c counts s strides Hc Hs Hn IH]; intros o; cbn [claims_dims unravel in_counts]; [done|].
  pose proof (span_pos _ _ _ He Hn). rewrite (proj2 (Z.eqb_neq s 0)), IH by lia.
  destruct (unravel strides (o mod s)) as [q r]. cbn [in_counts]. destruct (Z.leb_spec c (o / s)).
  - by rewrite (proj2 (Z.ltb_ge (o / s) c)).
  - by rewrite (proj2 (Z.ltb_lt (o / s) c)).
Qed.

End Bank.

(** ** Numbers in strings *)

Lemma digit_char z : 0 <= z < 10 -> digit_of 10 (ascii_of_nat (48 + Z.to_nat z)) = Some z /\
  Z.of_nat (nat_of_ascii (ascii_of_nat (48 + Z.to_nat z))) = 48 + z.
Proof.
  intros Hz. assert (Z.of_nat (nat_of_ascii (ascii_of_nat (48 + Z.to_nat z))) = 48 + z) as Hn by (rewrite nat_ascii_embedding; lia).
  split; [|done]. unfold digit_of. rewrite Hn. rewrite (proj2 (Z.leb_le 48 _)), (proj2 (Z.leb_le _ 57)) by lia. cbn [andb].
  rewrite (proj2 (Z.ltb_lt _ 10)) by lia. f_equal. lia.
Qed.

(** Reading digits undoes writing them. *)
Lemma read_dec_digits fuel : forall z acc s,
  0 <= z < 10 ^ Z.of_nat fuel -> (0 < fuel)%nat ->
  exists k, 0 < k /\ read_digits 10 acc (dec_digits fuel z s) = read_digits 10 (acc * 10 ^ k + z) s.
Proof.
  induction fuel as [|fuel IH]; intros z acc s Hz Hf; [lia|]. cbn [dec_digits]. pose proof (Z.mod_pos_bound z 10 ltac:(lia)) as Hm.
  pose proof (Z.div_mod z 10 ltac:(lia)) as Hdm. pose proof (proj1 (digit_char (z mod 10) Hm)) as Hd.
  destruct (Z.eqb_spec (z / 10) 0) as [E|E].
  - exists 1. split; [lia|]. cbn [read_digits]. rewrite Hd. f_equal. lia.
  - assert (0 <= z / 10) by (apply Z.div_pos; lia). replace (Z.of_nat (S fuel)) with (Z.of_nat fuel + 1) in Hz by lia.
    rewrite Z.pow_add_r in Hz by lia.
    assert (0 < fuel)%nat by (destruct fuel; [cbn in Hz; lia|lia]).
    destruct (IH (z / 10) acc (String (ascii_of_nat (48 + Z.to_nat (z mod 10))) s)) as (k & Hk & ->); [split; [done|]; lia|done|].
    exists (k + 1). split; [lia|]. cbn [read_digits]. rewrite Hd. rewrite Z.pow_add_r by lia. f_equal. lia.
Qed.

(** The first digit of a positive number is not zero. *)
Lemma dec_digits_head fuel : forall z s,
  0 <= z < 10 ^ Z.of_nat fuel -> (0 < fuel)%nat ->
  exists d s', dec_digits fuel z s = String (ascii_of_nat (48 + Z.to_nat d)) s' /\ 0 <= d < 10 /\ (d = 0 -> z = 0 /\ s' = s).
Proof.
  induction fuel as [|fuel IH]; intros z s Hz Hf; [lia|]. cbn [dec_digits]. pose proof (Z.mod_pos_bound z 10 ltac:(lia)) as Hm.
  pose proof (Z.div_mod z 10 ltac:(lia)) as Hdm. destruct (Z.eqb_spec (z / 10) 0) as [E|E].
  - exists (z mod 10), s. split_and!; try done; try lia. intros. split; [lia|done].
  - assert (0 <= z / 10) by (apply Z.div_pos; lia). replace (Z.of_nat (S fuel)) with (Z.of_nat fuel + 1) in Hz by lia.
    rewrite Z.pow_add_r in Hz by lia. assert (0 < fuel)%nat by (destruct fuel; [cbn in Hz; lia|lia]).
    destruct (IH (z / 10) (String (ascii_of_nat (48 + Z.to_nat (z mod 10))) s)) as (d & s' & -> & Hd & Hz0); [split; [done|]; lia|done|].
    exists d, s'. split_and!; try done; try lia.
Qed.

Lemma u64_digits z : 0 <= z < 2 ^ 64 -> 0 <= z < 10 ^ Z.of_nat 20.
Proof. change (10 ^ Z.of_nat 20) with 100000000000000000000. lia. Qed.

(** What can follow a number in an encoded vector. *)
Definition ends_number (s : string) : Prop := s = EmptyString \/ exists s', s = String "," s'.

Lemma stoull_dec z s : 0 <= z < 2 ^ 64 -> ends_number s -> stoull (dec_digits 20 z s) = Ret (z, s).
Proof.
  intros Hz Hs. pose proof (u64_digits z Hz) as Hz'.
  assert (read_digits 10 z s = (z, s)) as Hend by by destruct Hs as [->|[s' ->]].
  assert ((UINT64_MAX <? z) = false) as Hmax by (apply Z.ltb_ge; unfold UINT64_MAX; lia).
  destruct (read_dec_digits 20 z 0 s Hz' ltac:(lia)) as (k & Hk & Hr). rewrite Z.mul_0_l, Z.add_0_l, Hend in Hr.
  destruct (dec_digits_head 20 z s Hz' ltac:(lia)) as (d & s' & E & Hd & H0). rewrite E in *.
  destruct (decide (d = 0)) as [->|Hd0].
  - destruct H0 as [-> ->]; [done|]. destruct Hs as [->|[[|c s'] ->]]; reflexivity.
  - assert (exists c, ascii_of_nat (48 + Z.to_nat d) = c /\ stoull (String c s') =
      let '(v, rest) := read_digits 10 0 (String c s') in if UINT64_MAX <? v then Err StopFatal else Ret (v, rest)) as (c & Ec & Hst).
    { eexists. split; [done|]. assert (d = 1 \/ d = 2 \/ d = 3 \/ d = 4 \/ d = 5 \/ d = 6 \/ d = 7 \/ d = 8 \/ d = 9) as Hd' by lia.
      destruct Hd' as [->|[->|[->|[->|[->|[->|[->|[->| ->]]]]]]]]; reflexivity. }
    rewrite Ec in Hr |- *. by rewrite Hst, Hr, Hmax.
Qed.

Lemma skip_separators_dec z s : 0 <= z < 2 ^ 64 -> skip_separators (dec_digits 20 z s) = dec_digits 20 z s.
Proof.
  intros Hz. destruct (dec_digits_head 20 z s (u64_digits z Hz) ltac:(lia)) as (d & s' & -> & Hd & _).
  assert (d = 0 \/ d = 1 \/ d = 2 \/ d = 3 \/ d = 4 \/ d = 5 \/ d = 6 \/ d = 7 \/ d = 8 \/ d = 9) as Hd' by lia.
  destruct Hd' as [->|[->|[->|[->|[->|[->|[->|[->|[->| ->]]]]]]]]]; reflexivity.
Qed.

(** A vector of 64-bit numbers survives its trip through the configuration. *)
Lemma parse_encode_loop v : Forall (in_width 64) v -> forall fuel, (length v <= fuel)%nat ->
  parse_csv_loop fuel (encode_vec v) = Ret v /\ (v <> [] -> parse_csv_loop fuel (String "," (encode_vec v)) = Ret v).
Proof.
  induction 1 as [|z v Hz Hv IH]; intros fuel Hf.
  { split; [by destruct fuel|done]. }
  destruct fuel as [|fuel]; [simpl in Hf; lia|]. enough (exists s, encode_vec (z :: v) = dec_digits 20 z s /\ ends_number s /\
    parse_csv_loop fuel s = Ret v) as (s & -> & Hs & Hp).
  { cbn [parse_csv_loop]. change (skip_separators (String "," (dec_digits 20 z s))) with (skip_separators (dec_digits 20 z s)).
    rewrite skip_separators_dec by done. destruct (dec_digits 20 z s) eqn:E.
    - destruct (dec_digits_head 20 z s (u64_digits z Hz) ltac:(lia)) as (d & s' & E' & _). by rewrite E in E'.
    - rewrite <- E, stoull_dec by done. cbn [rbind fst snd]. by rewrite Hp. }
  destruct v as [|z' v].
  - exists EmptyString. split_and!; [done|by left|by destruct fuel].
  - exists (String "," (encode_vec (z' :: v))). split_and!; [done|right; eauto|].
    destruct (IH fuel) as [_ H]; [cbn [length] in Hf |- *; lia|]. by apply H.
Qed.

Lemma encode_vec_length v : (length v <= String.length (encode_vec v))%nat.
Proof.
  assert (forall fuel z s, (0 < fuel)%nat -> (S (String.length s) <= String.length (dec_digits fuel z s))%nat) as Hd.
  { induction fuel as [|fuel IH]; intros z s Hf; [lia|]. cbn [dec_digits]. destruct (_ =? 0); [simpl; lia|].
    destruct fuel; [simpl; lia|]. etrans; [|apply IH; lia]. simpl. lia. }
  induction v as [|z v IH]; [simpl; lia|]. destruct v as [|z' v].
  - etrans; [|apply Hd; lia]. simpl. lia.
  - change (encode_vec (z :: z' :: v)) with (dec_digits 20 z (String "," (encode_vec (z' :: v)))).
    etrans; [|apply Hd; lia]. cbn [length String.length] in *. lia.
Qed.

Lemma parse_encode v : Forall (in_width 64) v -> parse_u64_csv (encode_vec v) = Ret v.
Proof. intros Hv. apply parse_encode_loop; [done|apply encode_vec_length]. Qed.

(** ** Properties *)

(** C39: Register banks: the indices of an element, its flat index and its byte offset
    determine each other.  Every element lies in the span of the bank, every byte of it
    decodes to its indices and its flat index, a byte offset is accepted exactly when it
    belongs to an element (so no byte belongs to two), and the layout that is passed to the
    register router as text is read back unchanged. *)
Theorem bank_roundtrip elem counts strides b :
  0 < elem -> Forall (in_width 64) counts -> Forall (in_width 64) strides -> span elem counts strides < 2 ^ 64 ->
  new_bank elem counts strides = Ret b ->
  (forall indices, indices_ok indices counts -> exists flat off,
     flat_index_for_indices b indices = Ret flat /\ byte_offset_for b indices = Ret off /\
     byte_offset_for_flat b flat = Ret off /\ 0 <= flat < bk_total_count b /\ 0 <= off /\ off + elem <= bk_total_span b /\
     forall t k, 0 <= k < elem -> address t = off + k ->
       decode_access b 0 true t = mk_access flat (off + k) indices true true) /\
  (forall o, 0 <= o -> byte_offset_is_element b o = true <->
     exists indices k, indices_ok indices counts /\ 0 <= k < elem /\ byte_offset_for b indices = Ret (o - k)) /\
  parse_u64_csv (encode_vec counts) = Ret counts /\ parse_u64_csv (encode_vec strides) = Ret strides.
Proof.
  intros He Hc Hs Hl Hb. apply new_bank_ok in Hb as (Hok & <- & <- & <-); [|done| | |done].
  2, 3: eapply Forall_impl; [done|unfold in_width; simpl; lia].
  split_and!; [|..|by apply parse_encode|by apply parse_encode].
  - intros indices Hi. destruct (bank_forward b Hok indices Hi) as (H1 & H2 & H3 & H4 & H5).
    do 2 eexists. split_and!; try done; try lia; [by apply byte_offset_flat|]. intros t k Hk Ht. unfold decode_access. rewrite Ht.
    rewrite (unravel_offset _ _ _ _ _ He (bo_nested b Hok) Hi Hk), flat_dot by done.
    by rewrite (proj2 (in_counts_ok _ _ (indices_ok_nonneg _ _ Hi) (Forall2_length _ _ _ Hi)) Hi), (proj2 (Z.ltb_lt k _)) by lia.
  - intros o Ho. rewrite byte_offset_element by done. split.
    + intros (indices & k & Hi & Hk & ->). exists indices, k. split_and!; try done; try lia.
      destruct (bank_forward b Hok indices Hi) as (_ & -> & _). f_equal. lia.
    + intros (indices & k & Hi & Hk & E). exists indices, k. split_and!; try done; try lia.
      destruct (bank_forward b Hok indices Hi) as (_ & E' & _). rewrite E in E'. injection E'. lia.
Qed.

Lemma bank_roundtrip_witness :
  exists b, new_bank 4 [2; 3] [0x40; 0x10] = Ret b /\
    byte_offset_for b [1; 2] = Ret 0x60 /\ parse_u64_csv (encode_vec [0x40; 0x10]) = Ret [0x40; 0x10].
Proof.
  eexists. split; [reflexivity|].
  destruct (bank_roundtrip 4 [2; 3] [0x40; 0x10] _ ltac:(lia) ltac:(repeat constructor; lia) ltac:(repeat constructor; lia)
    ltac:(cbn; lia) eq_refl) as (H1 & _ & _ & H3). split; [|exact H3].
  destruct (H1 [1; 2]) as (flat & off & _ & H & _); [repeat constructor; lia|].
  rewrite H. vm_compute in H. injection H as <-. reflexivity.
Defined.
