(* ===== verification/RegProxy.v ===== *)
(** * Registers that keep their value in memory

    [registers.h]: [proxy_data_array] (values read and written through transactions or, once
    granted, through a DMI pointer), the operators of [gs_register] and of its bit fields,
    the callbacks of [port_fnct], and the write masks that are applied around a bus write. *)

From stdpp Require Import base list numbers option gmap.
From S2P Require Import Prelude Monad Registers Tlm AddrMapCache RegBank.

(** ** State *)

(** What a register keeps: [m_dmi], [p_mask], [m_element_masks], [m_in_callback] and
    [captured_txn_data]. *)
Record reg_state : Type := mk_rs {
  rs_dmi : option Z;
  rs_mask : Z;
  rs_element_masks : gmap Z Z;
  rs_in_callback : bool;
  rs_captured : list Z;
}.

(** The memory behind the registers and the registers, by number. *)
Record reg_world (M : Type) : Type := mk_world {
  rw_mem : M;
  rw_regs : gmap nat reg_state;
}.
Arguments mk_world {M}.
Arguments rw_mem {M}.
Arguments rw_regs {M}.

(** The constants of a register: its number, [sizeof (TYPE)], [p_number], [p_offset],
    [p_size], [p_stride], [p_relative_addresses], and its layout when it is a bank. *)
Record proxy : Type := mk_proxy {
  px_id : nat;
  px_bytes : nat;
  px_number : Z;
  px_offset : Z;
  px_span : Z;
  px_stride : Z;
  px_relative : bool;
  px_bank : option bank_layout;
}.

Definition px_width (r : proxy) : Z := 8 * Z.of_nat (px_bytes r).

Section Proxy.
Context {M : Type} (bus : dma_bus M).

Abbreviation RM := (SM (reg_world M)).

Definition rs_init (r : proxy) : reg_state := mk_rs None (gs_full_mask (px_width r)) ∅ false [].

Definition reg_of (r : proxy) (w : reg_world M) : reg_state := default (rs_init r) (rw_regs w !! px_id r).

Definition put_reg (r : proxy) (s : reg_state) (w : reg_world M) : reg_world M :=
  mk_world (rw_mem w) (<[px_id r := s]> (rw_regs w)).

Definition rs_get (r : proxy) : RM reg_state := fun w => Ret (reg_of r w, w).
Definition rs_mod (r : proxy) (f : reg_state -> reg_state) : RM unit :=
  fun w => Ret (tt, put_reg r (f (reg_of r w)) w).

Definition set_rs_dmi (d : option Z) (s : reg_state) :=
  mk_rs d (rs_mask s) (rs_element_masks s) (rs_in_callback s) (rs_captured s).
Definition set_rs_mask (m : Z) (s : reg_state) :=
  mk_rs (rs_dmi s) m (rs_element_masks s) (rs_in_callback s) (rs_captured s).
Definition set_rs_element_masks (m : gmap Z Z) (s : reg_state) :=
  mk_rs (rs_dmi s) (rs_mask s) m (rs_in_callback s) (rs_captured s).
Definition set_rs_in_callback (b : bool) (s : reg_state) :=
  mk_rs (rs_dmi s) (rs_mask s) (rs_element_masks s) b (rs_captured s).
Definition set_rs_captured (l : list Z) (s : reg_state) :=
  mk_rs (rs_dmi s) (rs_mask s) (rs_element_masks s) (rs_in_callback s) l.

(** ** Access to memory *)

(** [memcpy] from and to host memory. *)
Definition host_read (p : Z) (n : nat) : RM (list Z) :=
  fun w => Ret (map (fun i => bus_hread bus (rw_mem w) (p + Z.of_nat i)) (seq 0 n), w).

Fixpoint write_host (m : M) (p : Z) (l : list Z) : M :=
  match l with
  | [] => m
  | v :: l' => write_host (bus_hwrite bus m p v) (p + 1) l'
  end.

Definition host_write (p : Z) (l : list Z) : RM unit :=
  fun w => Ret (tt, mk_world (write_host (rw_mem w) p l) (rw_regs w)).

(** The payload of a register's own access; its lengths are [unsigned int]. *)
Definition reg_txn (c : tlm_command) (a : Z) (bytes : list Z) (len : Z) : payload :=
  mk_payload c a bytes (u32 len) (u32 len) None 0 TLM_INCOMPLETE_RESPONSE false None None None.

(** [check_dmi]. *)
Definition check_dmi (r : proxy) : RM unit :=
  fun w =>
    match bus_dmi bus (reg_txn TLM_IGNORE_COMMAND (px_offset r) [] (px_span r)) dmi_init (rw_mem w) with
    | Err e => Err e
    | Ret (ok, _, d, m) =>
        let w := mk_world m (rw_regs w) in
        if (ok : bool) then
          if u64 (u64 (dmi_start d + px_offset r) + px_span r) <=? dmi_end d
          then rs_mod r (set_rs_dmi (Some (dmi_ptr d + (px_offset r - dmi_start d)))) w
          else Err StopAssert
        else Ret (tt, w)
    end.

(** One transaction: it must succeed, and may lead to DMI. *)
Definition reg_access (r : proxy) (c : tlm_command) (a : Z) (bytes : list Z) : RM (list Z) :=
  fun w =>
    match bus_transport bus (reg_txn c a bytes (Z.of_nat (length bytes))) (rw_mem w) with
    | Err e => Err e
    | Ret (t, m) =>
        if decide (response t = TLM_OK_RESPONSE) then
          (sm_when (dmi_allowed t) (check_dmi r) ;;! sm_ret (data t)) (mk_world m (rw_regs w))
        else Err StopAssert
    end.

(** ** [proxy_data_array] *)

(** The values in a block of memory, [n] bytes each. *)
Fixpoint chunks (k : nat) (n : nat) (l : list Z) : list Z :=
  match k with
  | O => []
  | S k' => load_le (take n l) :: chunks k' n (drop n l)
  end.

Fixpoint unchunks (n : nat) (vs : list Z) : list Z :=
  match vs with [] => [] | v :: vs' => store_le n v ++ unchunks n vs' end.

(** [f (idx)], ..., [f (idx + length - 1)]. *)
Fixpoint each {A} (f : Z -> RM A) (idx : Z) (length : nat) : RM (list A) :=
  match length with
  | O => sm_ret []
  | S length' => do! x := f idx in do! l := each f (u64 (idx + 1)) length' in sm_ret (x :: l)
  end.

Fixpoint each_value (f : Z -> Z -> RM unit) (idx : Z) (vs : list Z) : RM unit :=
  match vs with
  | [] => sm_ret tt
  | v :: vs' => f idx v ;;! each_value f (u64 (idx + 1)) vs'
  end.

(** Element [idx] through DMI. *)
Definition dmi_element (r : proxy) (p idx : Z) : Z := p + u64 (px_stride r * idx).
Definition elem_addr (r : proxy) (idx : Z) : Z := u64 (px_offset r + px_stride r * idx).

Definition txn_get (r : proxy) (idx : Z) : RM Z :=
  do! l := reg_access r TLM_READ_COMMAND (elem_addr r idx) (replicate (px_bytes r) 0) in sm_ret (load_le l).

(** [get (dst, idx, length)]. *)
Definition proxy_get (r : proxy) (idx : Z) (length : nat) : RM (list Z) :=
  let n := px_bytes r in
  sm_assert (u64 (idx + Z.of_nat length) <=? px_number r) ;;!
  do! s := rs_get r in
  match rs_dmi s with
  | Some p => each (fun i => do! l := host_read (dmi_element r p i) n in sm_ret (load_le l)) idx length
  | None =>
      if (length =? 1)%nat || (px_stride r =? Z.of_nat n) then
        do! l := reg_access r TLM_READ_COMMAND (elem_addr r idx) (replicate (n * length) 0) in
        sm_ret (chunks length n l)
      else each (txn_get r) idx length
  end.

Definition merge (r : proxy) (mask src cur : Z) : Z := write_with_mask (px_width r) src cur mask.

(** One value of [set] through DMI. *)
Definition dmi_set (r : proxy) (p : Z) (mask : option Z) (idx v : Z) : RM unit :=
  let n := px_bytes r in
  match mask with
  | None => host_write (dmi_element r p idx) (store_le n v)
  | Some mask =>
      do! l := host_read (dmi_element r p idx) n in
      host_write (dmi_element r p idx) (store_le n (merge r mask v (load_le l)))
  end.

(** One value of [set] through a transaction. *)
Definition txn_set (r : proxy) (mask : option Z) (idx v : Z) : RM unit :=
  let n := px_bytes r in
  do! v := match mask with
           | None => sm_ret v
           | Some mask => do! l := proxy_get r idx 1 in sm_ret (merge r mask v (default 0 (head l)))
           end in
  do! _ := reg_access r TLM_WRITE_COMMAND (elem_addr r idx) (store_le n v) in sm_ret tt.

(** [set (src, idx, length, use_mask)]. *)
Definition proxy_set (r : proxy) (vs : list Z) (idx : Z) (use_mask : bool) : RM unit :=
  let n := px_bytes r in
  sm_assert (u64 (idx + Z.of_nat (length vs)) <=? px_number r) ;;!
  do! s := rs_get r in
  let full := rs_mask s =? gs_full_mask (px_width r) in
  let mask := if negb use_mask || full then None else Some (rs_mask s) in
  match rs_dmi s with
  | Some p => each_value (dmi_set r p mask) idx vs
  | None =>
      if ((length vs =? 1)%nat || (px_stride r =? Z.of_nat n)) && (full || negb use_mask) then
        do! _ := reg_access r TLM_WRITE_COMMAND (elem_addr r idx) (unchunks n vs) in sm_ret tt
      else each_value (txn_set r mask) idx vs
  end.

(** [mask_for_element] and [mask_for_byte_offset], with the bank's overrides. *)
Definition mask_for_element (s : reg_state) (idx : Z) : Z := default (rs_mask s) (rs_element_masks s !! idx).

Definition mask_for_byte_offset (r : proxy) (s : reg_state) (off : Z) : Z :=
  match px_bank r with
  | None => rs_mask s
  | Some b => match try_flat_index_for_byte_offset b off with
              | None => rs_mask s
              | Some flat => mask_for_element s flat
              end
  end.

(** [get_bytes], [set_bytes]. *)
Definition get_bytes (r : proxy) (off : Z) : RM Z :=
  let n := px_bytes r in
  do! s := rs_get r in
  match rs_dmi s with
  | Some p => do! l := host_read (p + off) n in sm_ret (load_le l)
  | None => do! l := reg_access r TLM_READ_COMMAND (u64 (px_offset r + off)) (replicate n 0) in sm_ret (load_le l)
  end.

Definition set_bytes (r : proxy) (v off : Z) (use_mask : bool) : RM unit :=
  let n := px_bytes r in
  do! s := rs_get r in
  let mask := mask_for_byte_offset r s off in
  let plain := negb use_mask || (mask =? gs_full_mask (px_width r)) in
  match rs_dmi s with
  | Some p =>
      if plain then host_write (p + off) (store_le n v)
      else do! l := host_read (p + off) n in host_write (p + off) (store_le n (merge r mask v (load_le l)))
  | None =>
      do! v := (if plain then sm_ret v else do! cur := get_bytes r off in sm_ret (merge r mask v cur)) in
      do! _ := reg_access r TLM_WRITE_COMMAND (u64 (px_offset r + off)) (store_le n v) in sm_ret tt
  end.

(** [invalidate_direct_mem_ptr]. *)
Definition reg_invalidate (r : proxy) : RM unit := rs_mod r (set_rs_dmi None).

(** [operator[] (int)]: the host address of the element. *)
Definition element_ref (r : proxy) (idx : Z) : RM Z :=
  do! s := rs_get r in
  (match rs_dmi s with Some _ => sm_ret tt | None => check_dmi r end) ;;!
  do! s := rs_get r in
  match rs_dmi s with
  | None => sm_fail StopFatal
  | Some p => if rs_mask s =? gs_full_mask (px_width r) then sm_ret (dmi_element r p idx) else sm_fail StopFatal
  end.

(** ** [gs_register] *)

(** The value of a scalar register. *)
Definition reg_read (r : proxy) : RM Z := do! l := proxy_get r 0 1 in sm_ret (default 0 (head l)).
Definition reg_write (r : proxy) (v : Z) : RM unit := proxy_set r [v] 0 true.

(** [r op= v]. *)
Definition reg_update (r : proxy) (f : Z -> Z) : RM unit :=
  do! v := reg_read r in reg_write r (wrap (px_width r) (f v)).

Definition reg_add r v := reg_update r (fun x => x + v).
Definition reg_sub r v := reg_update r (fun x => x - v).
Definition reg_mul r v := reg_update r (fun x => x * v).
Definition reg_and r v := reg_update r (fun x => Z.land x v).
Definition reg_or r v := reg_update r (fun x => Z.lor x v).
Definition reg_xor r v := reg_update r (fun x => Z.lxor x v).
Definition reg_div (r : proxy) (v : Z) : RM unit := if v =? 0 then sm_fail StopFatal else reg_update r (fun x => x / v).

(** Shifts: of a number of bits that the promoted type has. *)
Definition reg_shl (r : proxy) (v : Z) : RM unit :=
  if Z.max 32 (px_width r) <=? v then sm_fail StopUndef else reg_update r (fun x => Z.shiftl x v).
Definition reg_shr (r : proxy) (v : Z) : RM unit :=
  if Z.max 32 (px_width r) <=? v then sm_fail StopUndef else reg_update r (fun x => Z.shiftr x v).

(** [operator= (gs_register& other)]. *)
Definition reg_assign (r other : proxy) : RM unit := do! v := reg_read r in reg_write r v.

Definition set_mask (r : proxy) (m : Z) : RM unit := rs_mod r (set_rs_mask m).

(** [gs_bitfield]: assignment is an [&=] and an [|=] of the register. *)
Definition field_write (r : proxy) (start length v : Z) : RM unit :=
  fun w =>
    match gs_mask_for_field (px_width r) start length with
    | Err e => Err e
    | Ret fm =>
        if Z.land v (lnot_w (px_width r) fm) =? 0 then
          (reg_and r (lnot_w (px_width r) (wrap (px_width r) (Z.shiftl fm start))) ;;!
           reg_or r (wrap (px_width r) (Z.shiftl (Z.land v fm) start))) w
        else Err StopAssert
    end.

Definition field_read (r : proxy) (start length : Z) : RM Z :=
  do! v := reg_read r in
  fun w => match bitfield_get (px_width r) start length v with Ret x => Ret (x, w) | Err e => Err e end.

(** ** Bank elements *)

(** [gs_register_bank_element] at the byte offset [off] of its indices. *)
Definition bank_read (r : proxy) (off : Z) : RM Z := get_bytes r off.
Definition bank_write (r : proxy) (off v : Z) : RM unit := set_bytes r v off true.
Definition bank_update (r : proxy) (off : Z) (f : Z -> Z) : RM unit :=
  do! v := get_bytes r off in set_bytes r (wrap (px_width r) (f v)) off true.
Definition bank_field_write (r : proxy) (off start length v : Z) : RM unit :=
  fun w =>
    match gs_mask_for_field (px_width r) start length with
    | Err e => Err e
    | Ret fm =>
        let mask := wrap (px_width r) (Z.shiftl fm start) in
        bank_update r off (fun cur => Z.lor (Z.land cur (lnot_w (px_width r) mask)) (Z.shiftl (Z.land v fm) start)) w
    end.

(** [set_element_mask], [get_element_mask], [clear_element_mask] by flat index. *)
Definition set_element_mask (r : proxy) (b : bank_layout) (flat m : Z) : RM unit :=
  if bk_total_count b <=? flat then sm_fail StopFatal
  else rs_mod r (fun s => set_rs_element_masks (<[flat := m]> (rs_element_masks s)) s).
Definition get_element_mask (r : proxy) (b : bank_layout) (flat : Z) : RM Z :=
  if bk_total_count b <=? flat then sm_fail StopFatal else do! s := rs_get r in sm_ret (mask_for_element s flat).
Definition clear_element_mask (r : proxy) (b : bank_layout) (flat : Z) : RM unit :=
  if bk_total_count b <=? flat then sm_fail StopFatal
  else rs_mod r (fun s => set_rs_element_masks (delete flat (rs_element_masks s)) s).

(** A pure computation that may stop. *)
Definition rm_res {A} (x : res A) : RM A := fun w => match x with Ret a => Ret (a, w) | Err e => Err e end.

(** The bank's bulk access by flat index. *)
Definition bank_get (r : proxy) (b : bank_layout) (idx : Z) (length : nat) : RM (list Z) :=
  if (List.length (bk_counts b) =? 1)%nat then proxy_get r idx length
  else each (fun i => do! o := rm_res (byte_offset_for_flat b i) in get_bytes r o) idx length.
Definition bank_set (r : proxy) (b : bank_layout) (vs : list Z) (idx : Z) (use_mask : bool) : RM unit :=
  do! s := rs_get r in
  if (List.length (bk_counts b) =? 1)%nat && bool_decide (rs_element_masks s = ∅) then proxy_set r vs idx use_mask
  else each_value (fun i v => do! o := rm_res (byte_offset_for_flat b i) in set_bytes r v o use_mask) idx vs.

(** ** Callbacks *)

(** A [gs_register] as a bus target: the callbacks of [port_fnct], in the order of their
    registration. *)
Definition callback : Type := payload -> RM payload.

Record gs_register : Type := mk_register {
  gr_proxy : proxy;
  gr_pre_read : list callback;
  gr_pre_write : list callback;
  gr_post_read : list callback;
  gr_post_write : list callback;
}.

Definition new_register (r : proxy) : gs_register := mk_register r [] [] [] [].
Definition add_pre_read (cb : callback) (g : gs_register) : gs_register :=
  mk_register (gr_proxy g) (gr_pre_read g ++ [cb]) (gr_pre_write g) (gr_post_read g) (gr_post_write g).
Definition add_pre_write (cb : callback) (g : gs_register) : gs_register :=
  mk_register (gr_proxy g) (gr_pre_read g) (gr_pre_write g ++ [cb]) (gr_post_read g) (gr_post_write g).
Definition add_post_read (cb : callback) (g : gs_register) : gs_register :=
  mk_register (gr_proxy g) (gr_pre_read g) (gr_pre_write g) (gr_post_read g ++ [cb]) (gr_post_write g).
Definition add_post_write (cb : callback) (g : gs_register) : gs_register :=
  mk_register (gr_proxy g) (gr_pre_read g) (gr_pre_write g) (gr_post_read g) (gr_post_write g ++ [cb]).

Fixpoint run_callbacks (cbs : list callback) (t : payload) : RM payload :=
  match cbs with
  | [] => sm_ret t
  | cb :: cbs' => do! t := cb t in run_callbacks cbs' t
  end.

(** A full mask, or not a write: no masking. *)
Definition unmasked (r : proxy) (s : reg_state) (t : payload) : bool :=
  (bool_decide (rs_element_masks s = ∅) && (rs_mask s =? gs_full_mask (px_width r)))
  || negb (bool_decide (command t = TLM_WRITE_COMMAND)).

(** The element a transaction starts at, for a scalar register. *)
Definition txn_index (r : proxy) (t : payload) : Z :=
  (if px_relative r then address t else u64 (address t - px_offset r)) / px_stride r.

Definition bad_length (r : proxy) (t : payload) : bool :=
  (data_length t =? 0) || negb (data_length t mod Z.of_nat (px_bytes r) =? 0).

(** [capture_txn_pre] of a scalar register: remember the values about to be overwritten. *)
Definition capture_scalar (r : proxy) (t : payload) : RM payload :=
  do! s := rs_get r in
  if unmasked r s t then sm_ret t
  else if bad_length r t then sm_fail StopFatal
  else
    do! vs := proxy_get r (txn_index r t) (Z.to_nat (data_length t / Z.of_nat (px_bytes r))) in
    rs_mod r (set_rs_captured (unchunks (px_bytes r) vs)) ;;! sm_ret t.

(** [handle_mask_post]: merge the new values into the old ones, store them, and hand them
    to the post callbacks in the transaction. *)
Definition mask_scalar (r : proxy) (t : payload) : RM payload :=
  let n := px_bytes r in
  do! s := rs_get r in
  if unmasked r s t then sm_ret t
  else if bad_length r t then sm_fail StopFatal
  else
    let count := Z.to_nat (data_length t / Z.of_nat n) in
    if (length (rs_captured s) <? n * count)%nat || (length (data t) <? n * count)%nat then sm_fail StopUndef
    else
      let vs := zip_with (merge r (rs_mask s)) (chunks count n (data t)) (chunks count n (rs_captured s)) in
      rs_mod r (set_rs_captured (unchunks n vs)) ;;!
      proxy_set r vs (txn_index r t) false ;;!
      sm_ret (set_data (splice 0 (unchunks n vs) (data t)) t).

(** The same of a bank. *)
Definition capture_bank (r : proxy) (b : bank_layout) (t : payload) : RM payload :=
  do! s := rs_get r in
  if unmasked r s t then sm_ret t
  else
    let a := decode_access b (px_offset r) (px_relative r) t in
    do! count := rm_res (masked_transaction_element_count b t a) in
    if count =? 0 then
      rs_mod r (set_rs_captured []) ;;! sm_ret (set_response_status TLM_BURST_ERROR_RESPONSE t)
    else
      do! vs := each (fun i => do! o := rm_res (byte_offset_for_flat b i) in get_bytes r o) (ba_index a) (Z.to_nat count) in
      rs_mod r (set_rs_captured (unchunks (px_bytes r) vs)) ;;! sm_ret t.

(** One element: merge, store, and the new value. *)
Definition mask_element (r : proxy) (b : bank_layout) (incoming stored idx : Z) : RM Z :=
  do! mask := get_element_mask r b idx in
  let v := merge r mask incoming stored in
  do! o := rm_res (byte_offset_for_flat b idx) in
  set_bytes r v o false ;;! sm_ret v.

Fixpoint mask_elements (r : proxy) (b : bank_layout) (incoming stored : list Z) (idx : Z) : RM (list Z) :=
  match incoming, stored with
  | x :: incoming', y :: stored' =>
      do! v := mask_element r b x y idx in
      do! l := mask_elements r b incoming' stored' (u64 (idx + 1)) in
      sm_ret (v :: l)
  | _, _ => sm_ret []
  end.

Definition mask_bank (r : proxy) (b : bank_layout) (t : payload) : RM payload :=
  let n := px_bytes r in
  do! s := rs_get r in
  if unmasked r s t then sm_ret t
  else
    let a := decode_access b (px_offset r) (px_relative r) t in
    do! count := rm_res (masked_transaction_element_count b t a) in
    if (count =? 0) || (Z.of_nat (length (rs_captured s)) <? count * Z.of_nat n) then
      sm_ret (set_response_status TLM_BURST_ERROR_RESPONSE t)
    else if Z.of_nat (length (data t)) <? count * Z.of_nat n then sm_fail StopUndef
    else
      let k := Z.to_nat count in
      do! vs := mask_elements r b (chunks k n (data t)) (chunks k n (rs_captured s)) (ba_index a) in
      sm_ret (set_data (splice 0 (unchunks n vs) (data t)) t).

Definition capture_txn_pre (r : proxy) (t : payload) : RM payload :=
  match px_bank r with None => capture_scalar r t | Some b => capture_bank r b t end.
Definition handle_mask_post (r : proxy) (t : payload) : RM payload :=
  match px_bank r with None => mask_scalar r t | Some b => mask_bank r b t end.

Definition has_callbacks (g : gs_register) : bool :=
  negb (length (gr_pre_read g ++ gr_pre_write g ++ gr_post_read g ++ gr_post_write g) =? 0)%nat.

(** [port_fnct::b_transport]. *)
Definition port_b_transport (g : gs_register) (t : payload) : RM payload :=
  let r := gr_proxy g in
  do! s := rs_get r in
  do! t :=
    if has_callbacks g && negb (rs_in_callback s) then
      rs_mod r (set_rs_in_callback true) ;;!
      do! t :=
        match response t with
        | TLM_INCOMPLETE_RESPONSE =>
            do! t := match command t with
                     | TLM_READ_COMMAND => run_callbacks (gr_pre_read g) t
                     | TLM_WRITE_COMMAND => run_callbacks (gr_pre_write g) t
                     | TLM_IGNORE_COMMAND => sm_ret t
                     end in
            capture_txn_pre r t
        | TLM_OK_RESPONSE =>
            do! t := handle_mask_post r t in
            match command t with
            | TLM_READ_COMMAND => run_callbacks (gr_post_read g) t
            | TLM_WRITE_COMMAND => run_callbacks (gr_post_write g) t
            | TLM_IGNORE_COMMAND => sm_ret t
            end
        | _ => sm_ret t
        end in
      rs_mod r (set_rs_in_callback false) ;;! sm_ret t
    else sm_ret t in
  sm_ret (set_dmi_allowed false t).

(** [transport_dbg]: only whole elements, straight to the value. *)
Definition port_transport_dbg (r : proxy) (t : payload) : RM (Z * payload) :=
  let n := px_bytes r in
  if data_length t <? Z.of_nat n then sm_ret (0, t)
  else
    let off := match px_bank r with
               | None => Some 0
               | Some b => let o := if px_relative r then address t else u64 (address t - px_offset r) in
                           if byte_offset_is_element b o then Some o else None
               end in
    match off with
    | None => sm_ret (0, t)
    | Some off =>
        let bank := match px_bank r with Some _ => true | None => false end in
        match command t with
        | TLM_READ_COMMAND =>
            do! v := (if bank then get_bytes r off else reg_read r) in
            sm_ret (Z.of_nat n, set_data (splice 0 (store_le n v ++ replicate (Z.to_nat (data_length t) - n) 0) (data t)) t)
        | TLM_WRITE_COMMAND =>
            let v := load_le (take n (data t)) in
            (if bank then set_bytes r v off true else reg_write r v) ;;! sm_ret (Z.of_nat n, t)
        | TLM_IGNORE_COMMAND => sm_ret (0, t)
        end
    end.

End Proxy.

(** ** Contents of memory *)

(** Guest memory is a function from addresses to bytes, up to pointwise equality. *)
Definition contents : Type := Z -> Z.
Definition contents_eq (f g : contents) : Prop := forall x, f x = g x.

#[export] Instance contents_eq_equivalence : Equivalence contents_eq.
Proof. split; [done|by intros f g H x|intros f g h H1 H2 x; by rewrite H1]. Qed.

Definition bytes_at (f : contents) (a : Z) (n : nat) : list Z := map (fun i => f (a + Z.of_nat i)) (seq 0 n).

Definition write_at (f : contents) (a : Z) (l : list Z) : contents :=
  fun x => if decide (a <= x < a + Z.of_nat (length l)) then default 0 (l !! Z.to_nat (x - a)) else f x.

#[export] Instance bytes_at_proper : Proper (contents_eq ==> eq ==> eq ==> eq) bytes_at.
Proof. intros f g H a ? <- n ? <-. unfold bytes_at. apply map_ext. intros i. apply H. Qed.

#[export] Instance write_at_proper : Proper (contents_eq ==> eq ==> eq ==> contents_eq) write_at.
Proof. intros f g H a ? <- l ? <- x. unfold write_at. by rewrite H. Qed.

Lemma length_bytes_at f a n : length (bytes_at f a n) = n.
Proof. unfold bytes_at. by rewrite length_map, length_seq. Qed.

Lemma lookup_bytes_at f a n i : (i < n)%nat -> bytes_at f a n !! i = Some (f (a + Z.of_nat i)).
Proof. intros Hi. unfold bytes_at. rewrite list_lookup_fmap, lookup_seq_lt by done. done. Qed.

Lemma bytes_at_app f a n m : bytes_at f a (n + m) = bytes_at f a n ++ bytes_at f (a + Z.of_nat n) m.
Proof.
  apply list_eq. intros i. destruct (decide (i < n + m)%nat).
  - rewrite lookup_bytes_at by done. destruct (decide (i < n)%nat).
    + by rewrite lookup_app_l, lookup_bytes_at by (rewrite ?length_bytes_at; lia).
    + rewrite lookup_app_r, lookup_bytes_at by (rewrite ?length_bytes_at; lia). rewrite length_bytes_at. do 2 f_equal. lia.
  - rewrite !lookup_ge_None_2; [done|..]; rewrite ?length_app, ?length_bytes_at; lia.
Qed.

Lemma bytes_at_write f a l : bytes_at (write_at f a l) a (length l) = l.
Proof.
  apply list_eq. intros i. destruct (decide (i < length l)%nat) as [Hi|Hi].
  - rewrite lookup_bytes_at by done. unfold write_at. rewrite decide_True by lia.
    replace (Z.to_nat (a + Z.of_nat i - a)) with i by lia. apply lookup_lt_is_Some in Hi as [x Hx]. by rewrite Hx.
  - rewrite !lookup_ge_None_2; [done|..]; rewrite ?length_bytes_at; lia.
Qed.

Lemma bytes_at_write_disjoint f a l b n :
  b + Z.of_nat n <= a \/ a + Z.of_nat (length l) <= b -> bytes_at (write_at f a l) b n = bytes_at f b n.
Proof.
  intros H. unfold bytes_at. apply map_ext_in. intros i Hi%in_seq. unfold write_at. rewrite decide_False; [done|lia].
Qed.

Lemma write_at_app f a l1 l2 :
  contents_eq (write_at f a (l1 ++ l2)) (write_at (write_at f a l1) (a + Z.of_nat (length l1)) l2).
Proof.
  intros x. unfold write_at. rewrite length_app. repeat case_decide; try lia; try done.
  - rewrite lookup_app_r by lia. do 2 f_equal. lia.
  - by rewrite lookup_app_l by lia.
Qed.

(** ** What the memory promises *)

(** [rm_rd] is the guest byte at an address, [rm_host] relates host to guest addresses. *)
Class RegMemory {M} (bus : dma_bus M) : Type := {
  rm_rd : M -> contents;
  rm_host : M -> Z -> Z -> Prop;
  rm_limit : Z;
}.

(** Pointers that were given out stay valid. *)
Definition host_kept {M} {bus : dma_bus M} `{!RegMemory bus} (m m' : M) : Prop :=
  forall p a, rm_host m p a -> rm_host m' p a.

(** Memory serves every access inside it, and grants DMI to all of it or to nothing. *)
Class RegMemoryLaws {M} (bus : dma_bus M) `{!RegMemory bus} : Prop := {
  rml_limit : rm_limit <= 2 ^ 64;
  rml_byte : forall m a, 0 <= rm_rd m a < 256;
  rml_read : forall t m, command t = TLM_READ_COMMAND -> byt t = None -> data_length t = Z.of_nat (length (data t)) ->
    0 <= address t -> address t + data_length t <= rm_limit ->
    exists t' m', bus_transport bus t m = Ret (t', m') /\
      t' = set_dmi_allowed (dmi_allowed t') (set_response_status TLM_OK_RESPONSE
             (set_data (bytes_at (rm_rd m) (address t) (length (data t))) t)) /\
      contents_eq (rm_rd m') (rm_rd m) /\ host_kept m m';
  rml_write : forall t m, command t = TLM_WRITE_COMMAND -> byt t = None -> data_length t = Z.of_nat (length (data t)) ->
    Forall (fun v => 0 <= v < 256) (data t) -> 0 <= address t -> address t + data_length t <= rm_limit ->
    exists t' m', bus_transport bus t m = Ret (t', m') /\
      t' = set_dmi_allowed (dmi_allowed t') (set_response_status TLM_OK_RESPONSE t) /\
      contents_eq (rm_rd m') (write_at (rm_rd m) (address t) (data t)) /\ host_kept m m';
  rml_dmi : forall t d0 m, 0 <= address t < rm_limit ->
    exists ok t' d m', bus_dmi bus t d0 m = Ret (ok, t', d, m') /\
      contents_eq (rm_rd m') (rm_rd m) /\ host_kept m m' /\
      (ok = true -> dmi_start d = 0 /\ dmi_end d = rm_limit - 1 /\
        forall a, 0 <= a < rm_limit -> rm_host m' (dmi_host d a) a);
  rml_hread : forall m p a, rm_host m p a -> bus_hread bus m p = rm_rd m a;
  rml_hwrite : forall m p a v, rm_host m p a -> 0 <= v < 256 ->
    contents_eq (rm_rd (bus_hwrite bus m p v)) (write_at (rm_rd m) a [v]) /\ host_kept m (bus_hwrite bus m p v);
}.

(** ** Values *)

(** The value of an element, and memory with another one. *)
Definition elem_at (r : proxy) (f : contents) (idx : Z) : Z :=
  load_le (bytes_at f (px_offset r + px_stride r * idx) (px_bytes r)).
Definition store_elem (r : proxy) (f : contents) (idx v : Z) : contents :=
  write_at f (px_offset r + px_stride r * idx) (store_le (px_bytes r) v).

(** Memory after values were assigned from element [idx] on, under a mask or not. *)
Fixpoint store_values (r : proxy) (mask : option Z) (f : contents) (idx : Z) (vs : list Z) : contents :=
  match vs with
  | [] => f
  | v :: vs' =>
      let v := match mask with None => v | Some k => merge r k v (elem_at r f idx) end in
      store_values r mask (store_elem r f idx v) (idx + 1) vs'
  end.

#[export] Instance elem_at_proper r : Proper (contents_eq ==> eq ==> eq) (elem_at r).
Proof. intros f g H i ? <-. unfold elem_at. by rewrite H. Qed.

#[export] Instance store_elem_proper r : Proper (contents_eq ==> eq ==> eq ==> contents_eq) (store_elem r).
Proof. intros f g H i ? <- v ? <-. unfold store_elem. by rewrite H. Qed.

Lemma store_values_ext r mask vs : forall f g idx, contents_eq f g ->
  contents_eq (store_values r mask f idx vs) (store_values r mask g idx vs).
Proof.
  induction vs as [|v vs IH]; intros f g idx H; simpl; [done|]. apply IH.
  destruct mask as [k|]; [|by rewrite H]. by rewrite H.
Qed.

Lemma store_le_bytes n v : Forall (fun x => 0 <= x < 256) (store_le n v).
Proof. revert v. induction n as [|n IH]; intros v; constructor; [apply Z.mod_pos_bound; lia|apply IH]. Qed.

Lemma unchunks_bytes n vs : Forall (fun x => 0 <= x < 256) (unchunks n vs).
Proof. induction vs as [|v vs IH]; [constructor|]. apply Forall_app. split; [apply store_le_bytes|done]. Qed.

Lemma length_unchunks n vs : length (unchunks n vs) = (n * length vs)%nat.
Proof. induction vs as [|v vs IH]; cbn [unchunks length]; [lia|]. rewrite length_app, length_store_le, IH. lia. Qed.

(** A contiguous block is the elements one after the other. *)
Lemma chunks_elements r f : forall length idx, px_stride r = Z.of_nat (px_bytes r) ->
  chunks length (px_bytes r) (bytes_at f (px_offset r + px_stride r * idx) (px_bytes r * length)) =
  map (fun i => elem_at r f (idx + Z.of_nat i)) (seq 0 length).
Proof.
  induction length as [|k IH]; intros idx Hs; [done|]. cbn [chunks].
  replace (px_bytes r * S k)%nat with (px_bytes r + px_bytes r * k)%nat by lia. rewrite bytes_at_app.
  rewrite take_app_length', drop_app_length' by (by rewrite length_bytes_at). cbn [seq map]. f_equal.
  - unfold elem_at. do 3 f_equal. lia.
  - replace (px_offset r + px_stride r * idx + Z.of_nat (px_bytes r)) with (px_offset r + px_stride r * (idx + 1)) by lia.
    rewrite IH by done. rewrite <- seq_shift, map_map. apply map_ext. intros i. f_equal. lia.
Qed.

Lemma unchunks_store r vs : forall f idx, px_stride r = Z.of_nat (px_bytes r) ->
  contents_eq (write_at f (px_offset r + px_stride r * idx) (unchunks (px_bytes r) vs)) (store_values r None f idx vs).
Proof.
  induction vs as [|v vs IH]; intros f idx Hs.
  - intros x. unfold write_at. cbn. by rewrite decide_False by lia.
  - cbn [unchunks store_values]. rewrite write_at_app, length_store_le.
    replace (px_offset r + px_stride r * idx + Z.of_nat (px_bytes r)) with (px_offset r + px_stride r * (idx + 1)) by lia.
    apply IH. done.
Qed.

(** ** Specifications *)

(** A register that lies in its memory.  The span and the last byte of the memory leave room
    for the assertion of [check_dmi], which compares an inclusive end with an exclusive one. *)
Record proxy_ok {M} {bus : dma_bus M} `{!RegMemory bus} (r : proxy) : Prop := {
  po_bytes : (0 < px_bytes r)%nat;
  po_offset : 0 <= px_offset r;
  po_stride : Z.of_nat (px_bytes r) <= px_stride r;
  po_number : 0 < px_number r;
  po_span : px_stride r * (px_number r - 1) + Z.of_nat (px_bytes r) <= px_span r < 2 ^ 32;
  po_fits : px_offset r + px_span r < rm_limit;
}.
Arguments proxy_ok {M} bus {_} r.

Section ProxySpec.
Context {M : Type} (bus : dma_bus M) `{!RegMemory bus} `{!RegMemoryLaws bus} (r : proxy) (Hr : proxy_ok bus r).

(** The DMI pointer of the register, if it has one, is that of its first byte. *)
Definition dmi_ok (w : reg_world M) : Prop :=
  match rs_dmi (reg_of r w) with
  | Some p => forall k, 0 <= k < px_span r -> rm_host (rw_mem w) (p + k) (px_offset r + k)
  | None => True
  end.

(** An operation of the register that leaves memory as [f]: of the registers' states it only
    touches its own DMI pointer. *)
Record effect (w : reg_world M) (f : contents) (w' : reg_world M) : Prop := {
  ef_mem : contents_eq (rm_rd (rw_mem w')) f;
  ef_host : host_kept (rw_mem w) (rw_mem w');
  ef_reg : exists d, reg_of r w' = set_rs_dmi d (reg_of r w);
  ef_dmi : dmi_ok w';
  ef_others : forall i, i <> px_id r -> rw_regs w' !! i = rw_regs w !! i;
}.

Lemma effect_refl w : dmi_ok w -> effect w (rm_rd (rw_mem w)) w.
Proof. intros H. split; [done|by intros p a| |done|done]. exists (rs_dmi (reg_of r w)). by destruct (reg_of r w). Qed.

Lemma effect_trans w f w1 g w2 : effect w f w1 -> effect w1 g w2 -> effect w g w2.
Proof.
  intros [_ H1 [d Hd] _ Ho] [Hm H2 [d' Hd'] Hk Ho']. split; [done|unfold host_kept in *; auto| |done|].
  - exists d'. by rewrite Hd', Hd.
  - intros i Hi. by rewrite Ho', Ho.
Qed.

Lemma effect_ext w f g w' : contents_eq f g -> effect w f w' -> effect w g w'.
Proof. intros H [Hm ????]. split; try done. by rewrite Hm. Qed.

Lemma reg_of_put (w : reg_world M) s : reg_of r (put_reg r s w) = s.
Proof. unfold reg_of, put_reg. cbn. by rewrite lookup_insert_eq. Qed.

(** A step of memory only. *)
Lemma effect_mem w m f : dmi_ok w -> contents_eq (rm_rd m) f -> host_kept (rw_mem w) m -> effect w f (mk_world m (rw_regs w)).
Proof.
  intros Hd Hf Hh. split; try done.
  - exists (rs_dmi (reg_of r w)). change (reg_of r (mk_world m (rw_regs w))) with (reg_of r w). by destruct (reg_of r w).
  - unfold dmi_ok in *. change (reg_of r (mk_world m (rw_regs w))) with (reg_of r w). cbn. destruct (rs_dmi _); [|done].
    intros k Hk. by apply Hh, Hd.
Qed.

Lemma check_dmi_ok w : dmi_ok w -> exists w', check_dmi bus r w = Ret (tt, w') /\ effect w (rm_rd (rw_mem w)) w'.
Proof.
  intros Hd. pose proof (po_fits r Hr). pose proof (po_offset r Hr). pose proof (po_span r Hr). pose proof (po_bytes r Hr).
  pose proof (po_number r Hr). pose proof (po_stride r Hr). assert (0 < px_span r) by nia. pose proof (rml_limit (bus := bus)).
  unfold check_dmi. destruct (rml_dmi (bus := bus) (reg_txn TLM_IGNORE_COMMAND (px_offset r) [] (px_span r)) dmi_init (rw_mem w))
    as (ok & t' & d & m & -> & Hc & Hh & Hok); [cbn; lia|].
  pose proof (effect_mem w m _ Hd Hc Hh) as He. destruct ok; [|eauto].
  destruct (Hok eq_refl) as (Hs & Hend & Hmap). rewrite Hs, Hend, !u64_small by (rewrite ?u64_small by lia; lia).
  rewrite (proj2 (Z.leb_le _ _)) by lia. eexists. split; [done|]. split; try done.
  - eexists. by rewrite reg_of_put.
  - unfold dmi_ok. rewrite reg_of_put. cbn. intros k Hk. replace (dmi_ptr d + (px_offset r - 0) + k) with (dmi_host d (px_offset r + k)).
    + apply Hmap. lia.
    + unfold dmi_host. rewrite Hs. lia.
  - intros i Hi. cbn. by rewrite lookup_insert_ne.
Qed.

Lemma reg_read_txn w a n :
  dmi_ok w -> px_offset r <= a -> a + Z.of_nat n <= px_offset r + px_span r ->
  exists w', reg_access bus r TLM_READ_COMMAND a (replicate n 0) w = Ret (bytes_at (rm_rd (rw_mem w)) a n, w') /\
    effect w (rm_rd (rw_mem w)) w'.
Proof.
  intros Hd Ha Hn. pose proof (po_fits r Hr). pose proof (po_offset r Hr). pose proof (po_span r Hr).
  unfold reg_access. rewrite length_replicate.
  destruct (rml_read (bus := bus) (reg_txn TLM_READ_COMMAND a (replicate n 0) (Z.of_nat n)) (rw_mem w))
    as (t' & m & -> & -> & Hc & Hh); cbn; rewrite ?length_replicate; unfold wrap; rewrite ?Z.mod_small by lia; try done; try lia.
  pose proof (effect_mem w m _ Hd Hc Hh) as He. unfold sm_when, sm_bind. destruct (dmi_allowed t').
  - destruct (check_dmi_ok (mk_world m (rw_regs w))) as (w' & -> & He'); [apply He|]. eexists. split; [done|].
    eapply effect_trans; [done|]. eapply effect_ext; [|done]. cbn. by rewrite Hc.
  - eexists. split; [done|]. done.
Qed.

Lemma reg_write_txn w a l :
  dmi_ok w -> px_offset r <= a -> a + Z.of_nat (length l) <= px_offset r + px_span r -> Forall (fun x => 0 <= x < 256) l ->
  exists d w', reg_access bus r TLM_WRITE_COMMAND a l w = Ret (d, w') /\ effect w (write_at (rm_rd (rw_mem w)) a l) w'.
Proof.
  intros Hd Ha Hn Hl. pose proof (po_fits r Hr). pose proof (po_offset r Hr). pose proof (po_span r Hr). unfold reg_access.
  destruct (rml_write (bus := bus) (reg_txn TLM_WRITE_COMMAND a l (Z.of_nat (length l))) (rw_mem w))
    as (t' & m & -> & -> & Hc & Hh); cbn; unfold wrap; rewrite ?Z.mod_small by lia; try done; try lia.
  pose proof (effect_mem w m _ Hd Hc Hh) as He. unfold sm_when, sm_bind. destruct (dmi_allowed t').
  - destruct (check_dmi_ok (mk_world m (rw_regs w))) as (w' & -> & He'); [apply He|]. do 2 eexists. split; [done|].
    eapply effect_trans; [done|]. eapply effect_ext; [|done]. done.
  - do 2 eexists. split; [done|]. done.
Qed.

Lemma host_read_ok w p off n :
  dmi_ok w -> rs_dmi (reg_of r w) = Some p -> 0 <= off -> off + Z.of_nat n <= px_span r ->
  host_read bus (p + off) n w = Ret (bytes_at (rm_rd (rw_mem w)) (px_offset r + off) n, w).
Proof.
  intros Hd Hp Ho Hn. unfold dmi_ok in Hd. rewrite Hp in Hd. unfold host_read, bytes_at. do 2 f_equal. apply map_ext_in.
  intros i Hi%in_seq. apply (rml_hread (bus := bus)). replace (p + off + Z.of_nat i) with (p + (off + Z.of_nat i)) by lia.
  replace (px_offset r + off + Z.of_nat i) with (px_offset r + (off + Z.of_nat i)) by lia. apply Hd. lia.
Qed.

Lemma host_write_ok w p off l :
  dmi_ok w -> rs_dmi (reg_of r w) = Some p -> 0 <= off -> off + Z.of_nat (length l) <= px_span r ->
  Forall (fun x => 0 <= x < 256) l ->
  exists w', host_write bus (p + off) l w = Ret (tt, w') /\ effect w (write_at (rm_rd (rw_mem w)) (px_offset r + off) l) w' /\
    reg_of r w' = reg_of r w.
Proof.
  intros Hd Hp Ho Hn Hl. unfold host_write. eexists. split; [done|]. split; [|done]. pose proof Hd as Hd'. unfold dmi_ok in Hd'. rewrite Hp in Hd'.
  enough (forall m off, 0 <= off -> off + Z.of_nat (length l) <= px_span r ->
    (forall k, 0 <= k < px_span r -> rm_host m (p + k) (px_offset r + k)) ->
    contents_eq (rm_rd (write_host bus m (p + off) l)) (write_at (rm_rd m) (px_offset r + off) l) /\
    host_kept m (write_host bus m (p + off) l)) as H.
  { destruct (H (rw_mem w) off Ho Hn Hd') as [H1 H2]. by apply effect_mem. }
  clear -Hl RegMemoryLaws0. induction Hl as [|v l Hv Hl IH]; intros m off Ho Hn Hm; cbn [write_host length] in *.
  - split; [|by intros ??]. intros x. unfold write_at. cbn. by rewrite decide_False by lia.
  - destruct (rml_hwrite (bus := bus) m (p + off) (px_offset r + off) v) as [H1 H2]; [apply Hm; lia|done|].
    destruct (IH (bus_hwrite bus m (p + off) v) (off + 1)) as [H3 H4]; [lia|lia|intros; by apply H2, Hm|].
    replace (p + off + 1) with (p + (off + 1)) by lia. split; [|unfold host_kept in *; auto].
    rewrite H3, H1. change (v :: l) with ([v] ++ l). rewrite write_at_app. cbn [length].
    by replace (px_offset r + off + Z.of_nat 1) with (px_offset r + (off + 1)) by lia.
Qed.

(** Where an element lies. *)
Lemma elem_range idx : 0 <= idx < px_number r ->
  0 <= px_stride r * idx /\ px_stride r * idx + Z.of_nat (px_bytes r) <= px_span r /\
  u64 (px_stride r * idx) = px_stride r * idx /\ elem_addr r idx = px_offset r + px_stride r * idx /\ u64 (idx + 1) = idx + 1.
Proof.
  intros Hi. pose proof (po_fits r Hr). pose proof (po_offset r Hr). pose proof (po_span r Hr). pose proof (po_bytes r Hr).
  pose proof (po_stride r Hr). pose proof (rml_limit (bus := bus)). unfold elem_addr.
  assert (px_stride r * idx <= px_stride r * (px_number r - 1)) by nia. assert (0 <= px_stride r * idx) by nia.
  assert (idx <= px_stride r * idx) by nia. rewrite !u64_small by lia. lia.
Qed.

Lemma each_ok (P : reg_world M -> Prop) g length : forall idx w f,
  (forall i w, 0 <= i < px_number r -> P w -> dmi_ok w -> contents_eq (rm_rd (rw_mem w)) f ->
     exists w', g i w = Ret (elem_at r f i, w') /\ effect w f w' /\ P w') ->
  P w -> dmi_ok w -> contents_eq (rm_rd (rw_mem w)) f -> 0 <= idx -> idx + Z.of_nat length <= px_number r ->
  exists w', each g idx length w = Ret (map (fun i => elem_at r f (idx + Z.of_nat i)) (seq 0 length), w') /\ effect w f w'.
Proof.
  induction length as [|k IH]; intros idx w f Hg HP Hd Hf Hi Hn; cbn [each seq map].
  { exists w. split; [done|]. eapply effect_ext; [done|by apply effect_refl]. }
  destruct (Hg idx w) as (w1 & E1 & He & HP1); [lia|done..|]. destruct (elem_range idx) as (_ & _ & _ & _ & Hu); [lia|].
  destruct (IH (idx + 1) w1 f Hg HP1) as (w2 & E2 & He2); [apply He|apply He|lia|lia|].
  exists w2. unfold sm_bind. rewrite E1, Hu, E2. split; [|by eapply effect_trans]. unfold sm_ret. rewrite Z.add_0_r.
  rewrite <- seq_shift, map_map. do 3 f_equal. apply map_ext. intros i. f_equal. lia.
Qed.

Lemma each_value_ok (P : reg_world M -> Prop) g mask vs : forall idx w f,
  (forall i v w f, 0 <= i < px_number r -> P w -> dmi_ok w -> contents_eq (rm_rd (rw_mem w)) f ->
     exists w', g i v w = Ret (tt, w') /\ effect w (store_values r mask f i [v]) w' /\ P w') ->
  P w -> dmi_ok w -> contents_eq (rm_rd (rw_mem w)) f -> 0 <= idx -> idx + Z.of_nat (length vs) <= px_number r ->
  exists w', each_value g idx vs w = Ret (tt, w') /\ effect w (store_values r mask f idx vs) w'.
Proof.
  induction vs as [|v vs IH]; intros idx w f Hg HP Hd Hf Hi Hn; cbn [each_value store_values].
  { exists w. split; [done|]. eapply effect_ext; [done|by apply effect_refl]. }
  cbn [length] in Hn. destruct (Hg idx v w f) as (w1 & E1 & He & HP1); [lia|done..|].
  destruct (elem_range idx) as (_ & _ & _ & _ & Hu); [lia|].
  edestruct (IH (idx + 1) w1) as (w2 & E2 & He2); [exact Hg|exact HP1|apply He|apply He|lia|lia|].
  exists w2. unfold sm_bind. rewrite E1, Hu, E2. split; [done|]. by eapply effect_trans.
Qed.

Lemma number_small : px_number r <= px_span r.
Proof.
  pose proof (po_number r Hr). pose proof (po_span r Hr). pose proof (po_stride r Hr). pose proof (po_bytes r Hr).
  assert (px_number r - 1 <= px_stride r * (px_number r - 1)) by nia. lia.
Qed.

(** Reading through DMI or through transactions gives the values in memory. *)
Lemma proxy_get_ok w idx length :
  dmi_ok w -> 0 <= idx -> (0 < length)%nat -> idx + Z.of_nat length <= px_number r ->
  exists w', proxy_get bus r idx length w =
    Ret (map (fun i => elem_at r (rm_rd (rw_mem w)) (idx + Z.of_nat i)) (seq 0 length), w') /\ effect w (rm_rd (rw_mem w)) w'.
Proof.
  intros Hd Hi H0 Hn. pose proof (po_span r Hr) as Hsp. pose proof number_small as Hns.
  unfold proxy_get, sm_assert. rewrite u64_small, (proj2 (Z.leb_le _ _)) by lia.
  unfold sm_bind at 1, sm_ret at 1. unfold sm_bind at 1, rs_get at 1. destruct (rs_dmi (reg_of r w)) as [p|] eqn:Ep.
  - apply (each_ok (fun w => rs_dmi (reg_of r w) = Some p)); try done. intros i w1 Hi1 Hp1 Hd1 Hf1.
    destruct (elem_range i Hi1) as (H1 & H2 & H3 & _ & _). exists w1. unfold dmi_element, sm_bind. rewrite H3, host_read_ok by done.
    split; [|split; [eapply effect_ext; [done|by apply effect_refl]|done]]. unfold elem_at, sm_ret. by rewrite Hf1.
  - destruct ((length =? 1)%nat || (px_stride r =? Z.of_nat (px_bytes r))) eqn:Ec.
    + destruct (elem_range idx) as (H1 & H2 & _ & H4 & _); [lia|]. destruct (elem_range (idx + Z.of_nat length - 1)) as (_ & H2' & _); [lia|].
      assert (px_stride r * idx + Z.of_nat (px_bytes r * length) <= px_span r /\
        forall f, chunks length (px_bytes r) (bytes_at f (px_offset r + px_stride r * idx) (px_bytes r * length)) =
        map (fun i => elem_at r f (idx + Z.of_nat i)) (seq 0 length)) as [Hlen Hch].
      { apply orb_true_iff in Ec as [->%Nat.eqb_eq|Ec%Z.eqb_eq]; [|split; [nia|intros; by apply chunks_elements]].
        rewrite Nat.mul_1_r. split; [lia|]. intros f. cbn. rewrite take_ge by (by rewrite length_bytes_at). unfold elem_at. do 4 f_equal. lia. }
      unfold sm_bind. rewrite H4. destruct (reg_read_txn w (px_offset r + px_stride r * idx) (px_bytes r * length)) as (w' & -> & He); [done|lia|lia|].
      exists w'. by rewrite Hch.
    + apply (each_ok (fun _ => True)); try done. intros i w1 Hi1 _ Hd1 Hf1. destruct (elem_range i Hi1) as (H1 & H2 & H3 & H4 & _).
      unfold txn_get, sm_bind. rewrite H4. destruct (reg_read_txn w1 (px_offset r + px_stride r * i) (px_bytes r)) as (w' & -> & He); [done|lia|lia|].
      exists w'. split; [|split; [by eapply effect_ext|done]]. unfold elem_at, sm_ret. by rewrite Hf1.
Qed.

(** The mask [set] applies. *)
Definition mask_of (w : reg_world M) (use_mask : bool) : option Z :=
  let s := reg_of r w in
  if negb use_mask || (rs_mask s =? gs_full_mask (px_width r)) then None else Some (rs_mask s).

(** Writing, either way, assigns the values under the mask. *)
Lemma proxy_set_ok w vs idx use_mask :
  dmi_ok w -> 0 <= idx -> vs <> [] -> idx + Z.of_nat (length vs) <= px_number r ->
  exists w', proxy_set bus r vs idx use_mask w = Ret (tt, w') /\
    effect w (store_values r (mask_of w use_mask) (rm_rd (rw_mem w)) idx vs) w'.
Proof.
  intros Hd Hi H0 Hn. assert (0 < length vs)%nat as Hpos by (destruct vs; [done|simpl; lia]). pose proof (po_span r Hr) as Hsp. pose proof number_small as Hns.
  unfold proxy_set, sm_assert. rewrite u64_small, (proj2 (Z.leb_le _ _)) by lia.
  unfold sm_bind at 1, sm_ret at 1. unfold sm_bind at 1, rs_get at 1. cbv zeta. fold (mask_of w use_mask).
  destruct (rs_dmi (reg_of r w)) as [p|] eqn:Ep.
  - apply (each_value_ok (fun w => rs_dmi (reg_of r w) = Some p)); try done. intros i v w1 f Hi1 Hp1 Hd1 Hf1.
    destruct (elem_range i Hi1) as (H1 & H2 & H3 & _ & _). unfold dmi_set, dmi_element. rewrite H3. cbn [store_values].
    destruct (mask_of w use_mask) as [k|].
    + unfold sm_bind. rewrite host_read_ok by done. edestruct (host_write_ok w1 p (px_stride r * i)) as (w' & -> & He & Hreg);
        [done|done|done|by rewrite length_store_le|apply store_le_bytes|].
      exists w'. split; [done|]. split; [|by rewrite Hreg]. eapply effect_ext; [|done]. unfold store_elem. unfold elem_at. by rewrite Hf1.
    + edestruct (host_write_ok w1 p (px_stride r * i)) as (w' & -> & He & Hreg);
        [done|done|done|by rewrite length_store_le|apply store_le_bytes|].
      exists w'. split; [done|]. split; [|by rewrite Hreg]. eapply effect_ext; [|done]. unfold store_elem. by rewrite Hf1.
  - destruct (_ && _) eqn:Ec.
    + apply andb_true_iff in Ec as [Ec Hm]. assert (mask_of w use_mask = None) as ->.
      { unfold mask_of. rewrite orb_comm in Hm. by rewrite Hm. }
      destruct (elem_range idx) as (H1 & H2 & _ & H4 & _); [lia|].
      destruct (elem_range (idx + Z.of_nat (length vs) - 1)) as (_ & H2' & _); [lia|].
      assert (px_stride r * idx + Z.of_nat (px_bytes r * length vs) <= px_span r /\ forall f,
        contents_eq (write_at f (px_offset r + px_stride r * idx) (unchunks (px_bytes r) vs)) (store_values r None f idx vs)) as [Hlen Hst].
      { apply orb_true_iff in Ec as [Ec%Nat.eqb_eq|Ec%Z.eqb_eq]; [|split; [nia|intros; by apply unchunks_store]].
        destruct vs as [|v [|]]; try done. split; [cbn [length]; lia|]. intros f. cbn [unchunks store_values]. by rewrite app_nil_r. }
      unfold sm_bind. rewrite H4. destruct (reg_write_txn w (px_offset r + px_stride r * idx) (unchunks (px_bytes r) vs)) as (d & w' & -> & He);
        [done|lia|rewrite length_unchunks; lia|apply unchunks_bytes|].
      exists w'. split; [done|]. eapply effect_ext; [apply Hst|exact He].
    + apply (each_value_ok (fun w1 => True)); try done. intros i v w1 f Hi1 _ Hd1 Hf1.
      destruct (elem_range i Hi1) as (H1 & H2 & H3 & H4 & _). unfold txn_set. rewrite H4. cbn [store_values].
      destruct (mask_of w use_mask) as [k|].
      * destruct (proxy_get_ok w1 i 1) as (w2 & E2 & He2); [done|lia|lia|lia|]. unfold sm_bind at 1. unfold sm_bind at 1. rewrite E2.
        cbn [seq map head default]. unfold sm_ret at 1. unfold sm_bind.
        edestruct (reg_write_txn w2 (px_offset r + px_stride r * i)) as (d & w3 & -> & He3);
          [apply He2|lia|rewrite length_store_le; lia|apply store_le_bytes|].
        exists w3. split; [done|]. split; [|done]. eapply effect_trans; [done|]. eapply effect_ext; [|done]. unfold store_elem.
        rewrite (ef_mem _ _ _ He2), Hf1. unfold id. by rewrite Z.add_0_r.
      * unfold sm_bind, sm_ret. edestruct (reg_write_txn w1 (px_offset r + px_stride r * i)) as (d & w3 & -> & He3);
          [done|lia|rewrite length_store_le; lia|apply store_le_bytes|].
        exists w3. split; [done|]. split; [|done]. eapply effect_ext; [|done]. unfold store_elem. by rewrite Hf1.
Qed.

End ProxySpec.

(** ** Assigned values *)

(** The value an element gets. *)
Definition assigned (r : proxy) (mask : option Z) (v old : Z) : Z :=
  wrap (px_width r) (match mask with None => v | Some k => merge r k v old end).

Lemma elem_store_same r f idx v : elem_at r (store_elem r f idx v) idx = wrap (px_width r) v.
Proof.
  unfold elem_at, store_elem. rewrite <- (length_store_le (px_bytes r) v) at 2. rewrite bytes_at_write.
  by rewrite load_store_le.
Qed.

Lemma elem_store_other r f idx v j :
  Z.of_nat (px_bytes r) <= px_stride r -> idx <> j -> elem_at r (store_elem r f idx v) j = elem_at r f j.
Proof.
  intros Hs Hij. unfold elem_at, store_elem. rewrite bytes_at_write_disjoint; [done|]. rewrite length_store_le.
  destruct (decide (idx < j)); [right|left]; nia.
Qed.

Lemma elem_store_values r mask vs : Z.of_nat (px_bytes r) <= px_stride r -> forall f idx j,
  elem_at r (store_values r mask f idx vs) j =
  if decide (idx <= j < idx + Z.of_nat (length vs))
  then assigned r mask (default 0 (vs !! Z.to_nat (j - idx))) (elem_at r f j) else elem_at r f j.
Proof.
  intros Hs. induction vs as [|v vs IH]; intros f idx j; cbn [store_values length].
  { by rewrite decide_False by lia. }
  rewrite IH. destruct (decide (idx = j)) as [->|Hne].
  - rewrite decide_False, decide_True by lia. rewrite elem_store_same. by rewrite Z.sub_diag.
  - rewrite elem_store_other by done. repeat case_decide; try lia; try done.
    replace (Z.to_nat (j - idx)) with (S (Z.to_nat (j - (idx + 1)))) by lia. done.
Qed.

Lemma store_values_outside r mask vs : (0 <= px_stride r) -> forall f idx x,
  (forall i, (i < length vs)%nat -> ~ px_offset r + px_stride r * (idx + Z.of_nat i) <= x
     < px_offset r + px_stride r * (idx + Z.of_nat i) + Z.of_nat (px_bytes r)) ->
  store_values r mask f idx vs x = f x.
Proof.
  intros Hs. induction vs as [|v vs IH]; intros f idx x Hx; cbn [store_values]; [done|]. rewrite IH.
  - unfold store_elem, write_at. rewrite length_store_le, decide_False; [done|]. specialize (Hx 0%nat). rewrite Z.add_0_r in Hx.
    apply Hx. simpl. lia.
  - intros i Hi. specialize (Hx (S i)). replace (idx + 1 + Z.of_nat i) with (idx + Z.of_nat (S i)) by lia. apply Hx. simpl. lia.
Qed.

(** ** Blocks of values *)

Lemma store_load_le l : Forall (fun x => 0 <= x < 256) l -> store_le (length l) (load_le l) = l.
Proof.
  induction 1 as [|x l Hx _ IH]; [done|]. cbn [length store_le load_le]. f_equal.
  - rewrite Z.mul_comm, Z.mod_add by lia. by apply Z.mod_small.
  - rewrite Z.mul_comm, Z.div_add, Z.div_small, Z.add_0_l by lia. apply IH.
Qed.

Lemma unchunks_chunks n k : forall l, length l = (n * k)%nat -> Forall (fun x => 0 <= x < 256) l -> unchunks n (chunks k n l) = l.
Proof.
  induction k as [|k IH]; intros l Hl Hb; cbn [chunks unchunks].
  { by rewrite Nat.mul_0_r in Hl; apply nil_length_inv in Hl as ->. }
  rewrite IH; [|rewrite length_drop; lia|by apply Forall_drop].
  replace n with (length (take n l)) at 1 by (rewrite length_take; lia).
  rewrite store_load_le by by apply Forall_take. apply take_drop.
Qed.

Lemma chunks_unchunks n vs : chunks (length vs) n (unchunks n vs) = map (wrap (8 * Z.of_nat n)) vs.
Proof.
  induction vs as [|v vs IH]; [done|]. cbn [length chunks unchunks map].
  rewrite take_app_length', drop_app_length' by (by rewrite length_store_le). by rewrite load_store_le, IH.
Qed.

Lemma length_chunks k n l : length (chunks k n l) = k.
Proof. revert l. induction k as [|k IH]; intros l; cbn; [done|]. by rewrite IH. Qed.

Lemma write_at_twice f a l l' : length l = length l' -> contents_eq (write_at (write_at f a l) a l') (write_at f a l').
Proof. intros Hl x. unfold write_at. rewrite Hl. by repeat case_decide. Qed.

(** A transaction covers one element, or the elements leave no gaps. *)
Definition contiguous (r : proxy) (k : nat) : Prop := k = 1%nat \/ px_stride r = Z.of_nat (px_bytes r).

Lemma unchunks_store_contiguous r vs f idx : contiguous r (length vs) ->
  contents_eq (write_at f (px_offset r + px_stride r * idx) (unchunks (px_bytes r) vs)) (store_values r None f idx vs).
Proof.
  intros [H|H]; [|by apply unchunks_store]. destruct vs as [|v [|]]; try done. cbn [unchunks store_values]. by rewrite app_nil_r.
Qed.

(** ** A masked write *)

Section MaskedWrite.
Context {M : Type} (bus : dma_bus M) `{!RegMemory bus} `{!RegMemoryLaws bus} (r : proxy) (Hr : proxy_ok bus r).

(** The register's state becomes [s], its DMI pointer aside, and memory [f]. *)
Record reg_step (f : contents) (s : reg_state) (w' : reg_world M) : Prop := {
  rst_mem : contents_eq (rm_rd (rw_mem w')) f;
  rst_reg : exists d, reg_of r w' = set_rs_dmi d s;
  rst_dmi : dmi_ok bus r w';
}.

Lemma effect_step w f w' : effect bus r w f w' -> reg_step f (reg_of r w) w'.
Proof. intros [H1 _ H2 H3 _]. by split. Qed.

Lemma reg_step_refl w : dmi_ok bus r w -> reg_step (rm_rd (rw_mem w)) (reg_of r w) w.
Proof. intros H. split; [done| |done]. exists (rs_dmi (reg_of r w)). by destruct (reg_of r w). Qed.

(** A change of the state that keeps the DMI pointer. *)
Lemma rs_mod_step g w f s :
  (forall d s, g (set_rs_dmi d s) = set_rs_dmi d (g s)) -> reg_step f s w ->
  exists w', rs_mod r g w = Ret (tt, w') /\ reg_step f (g s) w' /\ rw_mem w' = rw_mem w.
Proof.
  intros Hg [Hm [d Hd] Hk]. eexists. split; [done|]. split; [|done]. split; [done| |].
  - exists d. by rewrite reg_of_put, Hd, Hg.
  - unfold dmi_ok in *. rewrite reg_of_put, Hd, Hg in *. cbn. done.
Qed.

(** The transactions the masks are for: whole elements, from element [idx] on. *)
Record masked_write (t : payload) (idx : Z) (count : nat) : Prop := {
  mw_command : command t = TLM_WRITE_COMMAND;
  mw_bytes : Forall (fun x => 0 <= x < 256) (data t);
  mw_data : length (data t) = (px_bytes r * count)%nat;
  mw_length : data_length t = Z.of_nat (length (data t));
  mw_count : (0 < count)%nat;
  mw_range : 0 <= idx /\ idx + Z.of_nat count <= px_number r;
  mw_contiguous : contiguous r count;
}.

(** The register as the bus write finds it: masked, and not in a callback. *)
Record masked_state (s : reg_state) : Prop := {
  ms_mask : rs_mask s <> gs_full_mask (px_width r);
  ms_elements : rs_element_masks s = ∅;
}.

Lemma masked_guards s t idx count :
  masked_state s -> masked_write t idx count ->
  unmasked r s t = false /\ bad_length r t = false /\ data_length t / Z.of_nat (px_bytes r) = Z.of_nat count.
Proof.
  intros [Hm He] [Hc _ Hd Hl Hk _ _]. pose proof (po_bytes r Hr) as Hb. unfold unmasked, bad_length.
  rewrite (proj2 (Z.eqb_neq _ _)), andb_false_r, Hc, bool_decide_true, Hl, Hd by done. rewrite Nat2Z.inj_mul.
  rewrite (Z.mul_comm (Z.of_nat (px_bytes r))), Z.mod_mul, Z.div_mul by lia. rewrite (proj2 (Z.eqb_neq _ 0)) by nia. done.
Qed.

(** The old values of the elements. *)
Definition old_values (f : contents) (idx : Z) (count : nat) : list Z :=
  map (fun i => elem_at r f (idx + Z.of_nat i)) (seq 0 count).

Lemma capture_ok w f s t idx count :
  reg_step f s w -> masked_state s -> masked_write t idx count -> px_bank r = None ->
  txn_index r t = idx ->
  exists w', capture_txn_pre bus r t w = Ret (t, w') /\
    reg_step f (set_rs_captured (unchunks (px_bytes r) (old_values f idx count)) s) w'.
Proof.
  intros [Hm [d Hd] Hk] Hms Hmw Hb Hidx. assert (masked_state (reg_of r w)) as Hms' by (rewrite Hd; by destruct Hms).
  destruct (masked_guards _ _ _ _ Hms' Hmw) as (Hu & Hbad & Hcnt). pose proof Hmw as [_ _ _ _ Hc [Hi Hn] _].
  unfold capture_txn_pre. rewrite Hb. unfold capture_scalar. unfold sm_bind at 1, rs_get at 1. rewrite Hu, Hbad, Hcnt, Hidx, Nat2Z.id.
  destruct (proxy_get_ok bus r Hr w idx count Hk Hi Hc Hn) as (w1 & E1 & He1). unfold sm_bind at 1. rewrite E1.
  destruct (rs_mod_step (set_rs_captured (unchunks (px_bytes r) (old_values f idx count))) w1 f s) as (w2 & E2 & Hs2 & _); [done| |].
  { destruct (effect_step _ _ _ He1) as [H1 [d' H2] H3]. split; [by rewrite H1| |done]. exists d'. by rewrite H2, Hd. }
  exists w2. split; [|done]. unfold sm_bind. replace (map _ (seq 0 count)) with (old_values f idx count); [by rewrite E2|].
  unfold old_values. apply map_ext. intros i. by rewrite Hm.
Qed.

Lemma old_values_width f idx count : (forall x, 0 <= f x < 256) -> map (wrap (px_width r)) (old_values f idx count) = old_values f idx count.
Proof.
  intros Hf. unfold old_values. rewrite map_map. apply map_ext. intros i. apply wrap_small. unfold elem_at, px_width, in_width.
  set (l := bytes_at _ _ _). replace (px_bytes r) with (length l) by apply length_bytes_at. apply load_le_bound.
  apply Forall_forall. intros x Hx. apply list_elem_of_fmap in Hx as (j & -> & _). apply Hf.
Qed.

(** The values that are stored. *)
Definition merged (s : reg_state) (f : contents) (t : payload) (idx : Z) (count : nat) : list Z :=
  zip_with (merge r (rs_mask s)) (chunks count (px_bytes r) (data t)) (old_values f idx count).

Lemma mask_ok w f s t idx count :
  reg_step (write_at f (px_offset r + px_stride r * idx) (data t)) s w -> (forall x, 0 <= f x < 256) ->
  masked_state s -> masked_write t idx count -> px_bank r = None -> txn_index r t = idx ->
  rs_captured s = unchunks (px_bytes r) (old_values f idx count) ->
  let vs := merged s f t idx count in
  exists w', handle_mask_post bus r t w = Ret (set_data (unchunks (px_bytes r) vs) t, w') /\
    reg_step (write_at f (px_offset r + px_stride r * idx) (unchunks (px_bytes r) vs))
      (set_rs_captured (unchunks (px_bytes r) vs) s) w'.
Proof.
  intros [Hm [d Hd] Hk] Hf Hms Hmw Hb Hidx Hcap vs. assert (masked_state (reg_of r w)) as Hms' by (rewrite Hd; by destruct Hms).
  destruct (masked_guards _ _ _ _ Hms' Hmw) as (Hu & Hbad & Hcnt). pose proof Hmw as [_ Hby Hdl _ Hc [Hi Hn] Hcg].
  assert (length (old_values f idx count) = count) as Hol by (unfold old_values; by rewrite length_map, length_seq).
  assert (length vs = count) as Hvl by (unfold vs, merged; rewrite length_zip_with, length_chunks, Hol; lia).
  unfold handle_mask_post. rewrite Hb. unfold mask_scalar. unfold sm_bind at 1, rs_get at 1. rewrite Hu, Hbad, Hcnt, Hidx, Nat2Z.id, Hd.
  cbn [rs_captured rs_mask set_rs_dmi]. rewrite Hcap, length_unchunks, Hol, Hdl, Nat.ltb_irrefl. cbn [orb].
  pose proof (chunks_unchunks (px_bytes r) (old_values f idx count)) as Hcu. rewrite Hol in Hcu. rewrite Hcu. fold (px_width r).
  rewrite old_values_width by done. fold (merged s f t idx count). fold vs.
  destruct (rs_mod_step (set_rs_captured (unchunks (px_bytes r) vs)) w _ s ltac:(done) (Build_reg_step _ _ _ Hm (ex_intro _ d Hd) Hk))
    as (w1 & E1 & [Hm1 [d1 Hd1] Hk1] & _). unfold sm_bind at 1. rewrite E1.
  destruct (proxy_set_ok bus r Hr w1 vs idx false Hk1 Hi) as (w2 & E2 & He2); [by destruct vs; [simpl in Hvl; lia|]|by rewrite Hvl|].
  exists w2. unfold sm_bind. rewrite E2. split.
  - unfold sm_ret, splice. cbn [take]. rewrite length_unchunks, Hvl, drop_ge, app_nil_r by lia. done.
  - destruct (effect_step _ _ _ He2) as [H1 [d2 H2] H3]. split; [|by exists d2; rewrite H2, Hd1|done].
    rewrite H1. change (mask_of r w1 false) with (@None Z). rewrite <- unchunks_store_contiguous by by rewrite Hvl.
    rewrite Hm1. apply write_at_twice. rewrite length_unchunks, Hvl. done.
Qed.

(** The first pass of a bus write: the old values are remembered. *)
Lemma port_pre g t w idx count :
  gr_proxy g = r -> has_callbacks g = true -> (forall t w, run_callbacks (gr_pre_write g) t w = Ret (t, w)) ->
  dmi_ok bus r w -> rs_in_callback (reg_of r w) = false -> response t = TLM_INCOMPLETE_RESPONSE ->
  masked_state (reg_of r w) -> masked_write t idx count -> px_bank r = None -> txn_index r t = idx ->
  exists w', port_b_transport bus g t w = Ret (set_dmi_allowed false t, w') /\
    reg_step (rm_rd (rw_mem w)) (set_rs_captured (unchunks (px_bytes r) (old_values (rm_rd (rw_mem w)) idx count)) (reg_of r w)) w'.
Proof.
  intros Hg Hcb Hpre Hd Hin Hresp Hms Hmw Hb Hidx. unfold port_b_transport. rewrite Hg, Hcb. unfold sm_bind at 1, rs_get at 1.
  rewrite Hin. cbn [andb negb]. unfold sm_bind at 1. unfold sm_bind at 1.
  destruct (rs_mod_step (set_rs_in_callback true) w _ _ ltac:(done) (reg_step_refl w Hd)) as (w1 & E1 & Hs1 & Hmem1).
  rewrite E1, Hresp, (mw_command _ _ _ Hmw). unfold sm_bind at 1. unfold sm_bind at 1. rewrite Hpre.
  destruct (capture_ok w1 (rm_rd (rw_mem w)) (set_rs_in_callback true (reg_of r w)) t idx count) as (w2 & E2 & Hs2);
    [by destruct Hs1; split|by destruct Hms|done..|].
  rewrite E2. destruct Hs2 as [H1 H2 H3].
  destruct (rs_mod_step (set_rs_in_callback false) w2 _ _ ltac:(done) (Build_reg_step _ _ _ H1 H2 H3)) as (w3 & E3 & Hs3 & _).
  unfold sm_bind at 1. rewrite E3. exists w3. split; [done|]. by destruct (reg_of r w); cbn in Hin; subst.
Qed.

(** The second pass: the merged values are stored, then the post callbacks run. *)
Lemma port_post g t w f s idx count :
  gr_proxy g = r -> has_callbacks g = true ->
  reg_step (write_at f (px_offset r + px_stride r * idx) (data t)) s w -> (forall x, 0 <= f x < 256) ->
  rs_in_callback s = false -> response t = TLM_OK_RESPONSE ->
  masked_state s -> masked_write t idx count -> px_bank r = None -> txn_index r t = idx ->
  rs_captured s = unchunks (px_bytes r) (old_values f idx count) ->
  let vs := merged s f t idx count in
  exists w', reg_step (write_at f (px_offset r + px_stride r * idx) (unchunks (px_bytes r) vs))
      (set_rs_captured (unchunks (px_bytes r) vs) (set_rs_in_callback true s)) w' /\
    port_b_transport bus g t w =
      (do! t := run_callbacks (gr_post_write g) (set_data (unchunks (px_bytes r) vs) t) in
       rs_mod r (set_rs_in_callback false) ;;! sm_ret (set_dmi_allowed false t)) w'.
Proof.
  intros Hg Hcb Hs Hf Hin Hresp Hms Hmw Hb Hidx Hcap vs. unfold port_b_transport. rewrite Hg, Hcb. unfold sm_bind at 1, rs_get at 1.
  destruct Hs as [Hm [d Hd] Hk]. rewrite Hd. cbn [rs_in_callback set_rs_dmi]. rewrite Hin. cbn [andb negb].
  destruct (rs_mod_step (set_rs_in_callback true) w _ _ ltac:(done) (Build_reg_step _ _ _ Hm (ex_intro _ d Hd) Hk)) as (w1 & E1 & [H1 H2 H3] & _).
  edestruct (mask_ok w1 f (set_rs_in_callback true s) t idx count) as (w2 & E2 & [H4 H5 H6]); [by split|done|by destruct Hms|done..|].
  exists w2. split; [by split|]. unfold sm_bind at 2. unfold sm_bind at 1. rewrite E1, Hresp. unfold sm_bind at 2. unfold sm_bind at 1. unfold sm_bind at 1.
  rewrite E2. cbn [command set_data]. rewrite (mw_command _ _ _ Hmw). unfold sm_bind.
  destruct (run_callbacks _ _ w2) as [[t3 w3]|]; [|done]. destruct (rs_mod r _ w3) as [[[] w4]|]; done.
Qed.

End MaskedWrite.

(** ** A memory *)

(** Memory of [limit] bytes, at host address [host]. *)
Definition flat_transport (limit : Z) (t : payload) (m : contents) : res (payload * contents) :=
  Ret (if limit <? address t + data_length t then (set_response_status TLM_ADDRESS_ERROR_RESPONSE t, m)
       else match command t with
            | TLM_READ_COMMAND =>
                (set_dmi_allowed true (set_response_status TLM_OK_RESPONSE
                   (set_data (bytes_at (fun a => m a mod 256) (address t) (length (data t))) t)), m)
            | TLM_WRITE_COMMAND =>
                (set_dmi_allowed true (set_response_status TLM_OK_RESPONSE t), write_at m (address t) (data t))
            | TLM_IGNORE_COMMAND => (set_response_status TLM_OK_RESPONSE t, m)
            end).

Definition flat_bus (host limit : Z) : dma_bus contents :=
  mk_bus (fun m p => m (p - host) mod 256) (fun m p v => write_at m (p - host) [v]) (flat_transport limit)
    (fun t d m => Ret (true, t, mk_dmi host 0 (limit - 1) DMI_ACCESS_READ_WRITE, m)).

#[export] Instance flat_memory host limit : RegMemory (flat_bus host limit) := {
  rm_rd := fun m a => m a mod 256;
  rm_host := fun _ p a => p = host + a;
  rm_limit := Z.min limit (2 ^ 64);
}.

Lemma write_at_mod m a l : Forall (fun v => 0 <= v < 256) l ->
  contents_eq (fun x => write_at m a l x mod 256) (write_at (fun x => m x mod 256) a l).
Proof.
  intros Hl x. unfold write_at. case_decide; [|done].
  destruct (l !! Z.to_nat (x - a)) as [v|] eqn:E; [|done]. cbn. apply Z.mod_small. exact (Forall_lookup_1 _ _ _ _ Hl E).
Qed.

#[export] Instance flat_memory_laws host limit : limit <= 2 ^ 64 -> RegMemoryLaws (flat_bus host limit).
Proof.
  intros Hl. split; cbn [rm_limit rm_rd rm_host flat_memory]; rewrite ?Z.min_l by lia.
  - lia.
  - intros. apply Z.mod_pos_bound. lia.
  - intros t m Hc _ Hlen Ha Hb. unfold flat_bus, flat_transport. cbn [bus_transport]. rewrite (proj2 (Z.ltb_ge _ _)), Hc by lia.
    do 2 eexists. split; [done|]. split; [done|]. by split; [|intros ??].
  - intros t m Hc _ Hlen Hv Ha Hb. unfold flat_bus, flat_transport. cbn [bus_transport]. rewrite (proj2 (Z.ltb_ge _ _)), Hc by lia.
    do 2 eexists. split; [done|]. split; [done|]. split; [by apply write_at_mod|by intros ??].
  - intros t d0 m Ha. do 4 eexists. split; [done|]. split; [done|]. split; [by intros ??|]. intros _. cbn [dmi_start dmi_end].
    split_and!; [done|lia|]. intros a _. unfold dmi_host. cbn. lia.
  - intros m p a ->. cbn. do 2 f_equal. lia.
  - intros m p a v -> Hv. cbn. replace (host + a - host) with a by lia. split; [|by intros ??].
    apply write_at_mod. by constructor.
Qed.

(** ** Properties *)

(** A register keeps what is assigned to it: after values are assigned to some of its
    elements, reading them gives the new values, with the bits outside the write mask as
    they were; every other element and every other byte of memory keeps its value, and
    reading changes nothing.  It makes no difference whether the register reaches its memory
    through transactions or through a DMI pointer, or changes from one to the other on the
    way, and whether its elements are contiguous or spread. *)
Theorem register_set_get {M} (bus : dma_bus M) (mem : RegMemory bus) (laws : RegMemoryLaws bus) r vs idx use_mask w :
  proxy_ok bus r -> dmi_ok bus r w -> 0 <= idx -> vs <> [] -> idx + Z.of_nat (length vs) <= px_number r ->
  exists w1 w2, proxy_set bus r vs idx use_mask w = Ret (tt, w1) /\
    proxy_get bus r idx (length vs) w1 =
      Ret (imap (fun i v => assigned r (mask_of r w use_mask) v (elem_at r (rm_rd (rw_mem w)) (idx + Z.of_nat i))) vs, w2) /\
    (forall j, j < idx \/ idx + Z.of_nat (length vs) <= j -> elem_at r (rm_rd (rw_mem w1)) j = elem_at r (rm_rd (rw_mem w)) j) /\
    (forall x, (forall j, idx <= j < idx + Z.of_nat (length vs) ->
        ~ px_offset r + px_stride r * j <= x < px_offset r + px_stride r * j + Z.of_nat (px_bytes r)) ->
      rm_rd (rw_mem w1) x = rm_rd (rw_mem w) x) /\
    contents_eq (rm_rd (rw_mem w2)) (rm_rd (rw_mem w1)) /\ dmi_ok bus r w2.
Proof.
  intros Hr Hd Hi Hv Hn. pose proof (po_stride r Hr) as Hs.
  destruct (proxy_set_ok bus r Hr w vs idx use_mask Hd Hi Hv Hn) as (w1 & E1 & He1).
  destruct (proxy_get_ok bus r Hr w1 idx (length vs)) as (w2 & E2 & He2); [apply He1|done|destruct vs; [done|simpl; lia]|done|].
  exists w1, w2. pose proof (ef_mem _ _ _ _ _ He1) as Hm. split_and!; try done.
  - rewrite E2. do 2 f_equal. apply list_eq. intros i. rewrite list_lookup_fmap, list_lookup_imap.
    destruct (decide (i < length vs)%nat) as [Hlt|Hge].
    + rewrite lookup_seq_lt by done. cbn. rewrite Hm, elem_store_values by done. rewrite decide_True by lia.
      apply lookup_lt_is_Some in Hlt as [v Hvi]. replace (Z.to_nat (idx + Z.of_nat i - idx)) with i by lia. by rewrite Hvi.
    + rewrite lookup_seq_ge by lia. by rewrite lookup_ge_None_2 by lia.
  - intros j Hj. rewrite Hm, elem_store_values by done. by rewrite decide_False by lia.
  - intros x Hx. rewrite (Hm x). apply store_values_outside; [lia|]. intros i Hi'. apply Hx. lia.
  - apply He2.
  - apply He2.
Qed.

(** Eight 32-bit values 16 bytes apart, in a memory of one page. *)
Definition ex_proxy : proxy := mk_proxy 0 4 8 0x100 0x74 0x10 true None.
Definition ex_bus : dma_bus contents := flat_bus 0x7f000000 0x1000.
Definition ex_world : reg_world contents := mk_world (fun _ => 0) {[ 0%nat := mk_rs None 0x00FF00FF ∅ false [] ]}.

#[export] Instance ex_bus_laws : RegMemoryLaws ex_bus.
Proof. apply flat_memory_laws. lia. Qed.

Lemma ex_proxy_ok : proxy_ok ex_bus ex_proxy.
Proof. split; cbn; lia. Qed.

Lemma register_set_get_witness :
  exists w1 w2, proxy_set ex_bus ex_proxy [0x12345678; 0xFFFFFFFF] 2 true ex_world = Ret (tt, w1) /\
    proxy_get ex_bus ex_proxy 2 2 w1 = Ret ([0x00340078; 0x00FF00FF], w2).
Proof.
  destruct (register_set_get ex_bus _ _ ex_proxy [0x12345678; 0xFFFFFFFF] 2 true ex_world) as (w1 & w2 & E1 & E2 & _).
  - apply ex_proxy_ok.
  - exact I.
  - lia.
  - discriminate.
  - cbn. lia.
  - exists w1, w2. split; [exact E1|]. etrans; [exact E2|]. vm_compute. reflexivity.
Defined.

(** A register that ends where its memory ends stops the simulation the first time it is
    granted DMI: the assertion wants the inclusive end of the grant to be at least the
    exclusive end of the register. *)
Theorem last_register_asserts {M} (bus : dma_bus M) r w t d m :
  bus_dmi bus (reg_txn TLM_IGNORE_COMMAND (px_offset r) [] (px_span r)) dmi_init (rw_mem w) = Ret (true, t, d, m) ->
  dmi_start d = 0 -> 0 <= px_offset r -> 0 <= px_span r -> px_offset r + px_span r < 2 ^ 64 ->
  dmi_end d = px_offset r + px_span r - 1 ->
  check_dmi bus r w = Err StopAssert.
Proof.
  intros E Hs Ho Hp Hl He. unfold check_dmi. rewrite E, Hs, He, Z.add_0_l, !u64_small by (rewrite ?u64_small by lia; lia).
  by rewrite (proj2 (Z.leb_gt _ _)) by lia.
Qed.
