(* ===== verification/AddressMap.v ===== *)
(** * router::addressMap

    The region map of the router (router.h): a [std::map] of non-overlapping
    regions, built one target at a time by splitting and resolving overlaps by
    priority, and searched by [find] (through a cache) and by [find_region] (for
    DMI).  [claimed] is the abstract specification: what each address should
    decode to, stated on the list of targets alone. *)

From stdpp Require Import base list numbers option sets strings.
From S2P Require Import Prelude OrdMap Tlm AddrMapCache.

(** ** Data *)

(** [addressMap::Region]: the half-open range [[reg_start, reg_end)]. *)
Record Region : Type := mk_region {
  reg_start : Z;
  reg_end : Z;
  reg_target : tref;
}.

(** [Interval] of [split_and_resolve]. *)
Record Interval : Type := mk_interval {
  iv_start : Z;
  iv_end : Z;
  iv_target : tref;
  iv_priority : Z;
}.

#[global] Instance Region_eq_dec : EqDecision Region.
Proof. solve_decision. Defined.
#[global] Instance Interval_eq_dec : EqDecision Interval.
Proof. solve_decision. Defined.

Definition priority (t : tref) : Z := ti_priority (t_obj t).

Definition interval_of (s e : Z) (t : tref) : Interval := mk_interval s e t (priority t).

(** ** split_and_resolve *)

(** Step 1, the overlap test. *)
Definition overlaps (ns ne : Z) (r : Region) : bool :=
  (reg_start r <? ne) && (ns <? reg_end r).

(** Steps 1 and 2: the overlapping regions, and the map without them. *)
Definition overlapping (ns ne : Z) (m : omap Region) : omap Region :=
  filter (fun e => overlaps ns ne e.2 = true) m.

Definition remove_keys (keys : list Z) (m : omap Region) : omap Region :=
  foldl (fun m k => om_erase k m) m keys.

(** Step 3: the new region first, then the overlapping ones in map order. *)
Definition intervals (ns ne : Z) (t : tref) (olds : omap Region) : list Interval :=
  interval_of ns ne t ::
  ((fun e => interval_of (reg_start e.2) (reg_end e.2) (reg_target e.2)) <$> olds).

(** Step 4. *)
Definition boundaries (ivs : list Interval) : list Z :=
  foldl (fun s iv => oset_insert (iv_end iv) (oset_insert (iv_start iv) s)) [] ivs.

(** Step 5, inner loop: the best priority so far and its target. *)
Definition best_step (s e : Z) (acc : Z * option tref) (iv : Interval) : Z * option tref :=
  if (iv_start iv <=? s) && (e <=? iv_end iv) then
    if iv_priority iv <? acc.1 then (iv_priority iv, Some (iv_target iv)) else acc
  else acc.

Definition best_target (ivs : list Interval) (s e : Z) : option tref :=
  (foldl (best_step s e) (UINT32_MAX, None) ivs).2.

(** Step 5, outer loop over the boundaries. *)
Fixpoint resolve_segments (ivs : list Interval) (bs : list Z) (m : omap Region) : omap Region :=
  match bs with
  | s :: ((e :: _) as bs') =>
      resolve_segments ivs bs'
        (match best_target ivs s e with
         | Some t => om_emplace s (mk_region s e t) m
         | None => m
         end)
  | _ => m
  end.

(** Step 6: no region of the final map belongs to this interval. *)
Definition completely_shadowed (m : omap Region) (iv : Interval) : bool :=
  negb (existsb (fun e =>
    bool_decide (t_id (reg_target e.2) = t_id (iv_target iv)) &&
    (reg_start e.2 <? iv_end iv) && (iv_start iv <? reg_end e.2)) m).

Definition is_new (ns ne : Z) (t : tref) (iv : Interval) : bool :=
  (iv_start iv =? ns) && (iv_end iv =? ne) && bool_decide (t_id (iv_target iv) = t_id t).

(** The new map, and the intervals a "completely shadowed" warning is issued for. *)
Definition split_and_resolve (ns ne : Z) (t : tref) (m : omap Region)
    : omap Region * list Interval :=
  let olds := overlapping ns ne m in
  let m1 := remove_keys (olds.*1) m in
  let ivs := intervals ns ne t olds in
  let m2 := resolve_segments ivs (boundaries ivs) m1 in
  (m2, filter (fun iv => is_new ns ne t iv = false /\ completely_shadowed m2 iv = true) ivs).

(** ** The class *)

Section AddressMap.
Context {C : Type} `{AddrMapCache C}.

Record addressMap : Type := mk_amap {
  am_regions : omap Region;
  am_cache : C;
}.

Definition amap_empty : addressMap := mk_amap [] c_empty.

(** [addressMap::add]. *)
Definition amap_add (t : tref) (am : addressMap) : addressMap :=
  let s := ti_address (t_obj t) in
  let e := u64 (ti_address (t_obj t) + ti_size (t_obj t)) in
  mk_amap (split_and_resolve s e t (am_regions am)).1 (c_clear (am_cache am)).

(** The search of [find] without the cache. *)
Definition find_slow (a : Z) (m : omap Region) : option tref :=
  match last (om_upper a m).1 with
  | Some (_, r) =>
      if (reg_start r <=? a) && (a <? reg_end r) then Some (reg_target r) else None
  | None => None
  end.

(** [addressMap::find]. *)
Definition amap_find (a size : Z) (am : addressMap) : option tref * addressMap :=
  match c_get a (am_cache am) with
  | (Some v, c') => (v, mk_amap (am_regions am) c')
  | (None, c') =>
      let v := find_slow a (am_regions am) in
      (v, mk_amap (am_regions am) (c_put a v size c'))
  end.

End AddressMap.
Arguments addressMap : clear implicits.
Arguments amap_empty C {_}.
Arguments split_and_resolve : simpl never.
Arguments find_slow : simpl never.

(** [addressMap::find_region]: the target, and the bounds set in [dmi] (both
    inclusive). *)
Definition find_region (a : Z) (m : omap Region) (d : tlm_dmi) : option tref * tlm_dmi :=
  let '(before, after) := om_upper a m in
  let hole :=
    let hole_start :=
      match last before with
      | Some (_, r) => if reg_end r <=? a then reg_end r else 0
      | None => 0
      end in
    let hole_end :=
      match after with
      | (_, r) :: _ => reg_start r
      | [] => UINT64_MAX
      end in
    (None, set_end_address (if hole_end =? 0 then 0 else u64 (hole_end - 1))
             (set_start_address hole_start d)) in
  match last before with
  | Some (_, r) =>
      if (reg_start r <=? a) && (a <? reg_end r)
      then (Some (reg_target r),
            set_end_address (u64 (reg_end r - 1)) (set_start_address (reg_start r) d))
      else hole
  | None => hole
  end.

(** ** Invariant *)

(** Keys are start addresses, regions are not empty, lie in the address space and
    do not overlap, and no region has the reserved priority [UINT32_MAX]. *)
Record amap_wf (m : omap Region) : Prop := {
  aw_sorted : om_wf m;
  aw_key : forall k r, (k, r) ∈ m -> k = reg_start r;
  aw_range : forall k r, (k, r) ∈ m -> 0 <= reg_start r < reg_end r /\ reg_end r < 2 ^ 64;
  aw_disjoint : forall k r k' r', (k, r) ∈ m -> (k', r') ∈ m ->
      r = r' \/ reg_end r <= reg_start r' \/ reg_end r' <= reg_start r;
  aw_priority : forall k r, (k, r) ∈ m -> priority (reg_target r) < UINT32_MAX;
}.

(** A target that [add] can place: a non-empty range that ends below [2^64], and a
    priority other than [UINT32_MAX]. *)
Record placeable (t : tref) : Prop := {
  pl_address : 0 <= ti_address (t_obj t);
  pl_size : 0 < ti_size (t_obj t);
  pl_end : ti_address (t_obj t) + ti_size (t_obj t) < 2 ^ 64;
  pl_priority : 0 <= priority t < UINT32_MAX;
}.

Definition reg_has (r : Region) (a : Z) : Prop := reg_start r <= a < reg_end r.
Definition iv_has (iv : Interval) (a : Z) : Prop := iv_start iv <= a < iv_end iv.

#[global] Instance reg_has_dec r a : Decision (reg_has r a).
Proof. unfold reg_has. apply _. Defined.
#[global] Instance iv_has_dec iv a : Decision (iv_has iv a).
Proof. unfold iv_has. apply _. Defined.

Lemma amap_wf_nil : amap_wf [].
Proof. split; [apply om_wf_nil|..]; intros; by apply not_elem_of_nil in H. Qed.

(** ** Searching *)

Lemma find_slow_Some m a t :
  amap_wf m ->
  find_slow a m = Some t <-> exists k r, (k, r) ∈ m /\ reg_has r a /\ reg_target r = t.
Proof.
  intros Hwf. unfold find_slow, reg_has.
  pose proof (om_upper_spec a m (aw_sorted _ Hwf)) as Hu.
  destruct (om_upper a m) as [l r]; simpl. destruct Hu as (-> & Hl & Hr).
  rewrite Forall_forall in Hl, Hr. destruct (last l) as [[k x]|] eqn:E.
  - apply last_Some in E as [l' ->].
    assert (Hin : (k, x) ∈ (l' ++ [(k, x)]) ++ r) by set_solver.
    destruct ((reg_start x <=? a) && (a <? reg_end x)) eqn:Hb.
    + split; [intros [= <-]; exists k, x; split; [done|split; [lia|done]]|].
      intros (k' & r' & Hin' & Ha & <-).
      destruct (aw_disjoint _ Hwf _ _ _ _ Hin Hin') as [->|?]; [done|lia].
    + split; [done|]. intros (k' & r' & Hin' & Ha & _). exfalso.
      pose proof (aw_key _ Hwf _ _ Hin'). pose proof (aw_key _ Hwf _ _ Hin). subst.
      rewrite !elem_of_app, list_elem_of_singleton in Hin'.
      destruct Hin' as [[Hin'|Hin']|Hin']; [|simplify_eq; lia|specialize (Hr _ Hin'); simpl in Hr; lia].
      assert (reg_start r' < reg_start x).
      { pose proof (aw_sorted _ Hwf) as Hs. apply om_wf_app in Hs as (Hs & _).
        apply om_wf_app in Hs as (_ & _ & Hs). rewrite Forall_forall in Hs.
        specialize (Hs _ Hin'). rewrite Forall_singleton in Hs. done. }
      assert (Hin2 : (reg_start r', r') ∈ (l' ++ [(reg_start x, x)]) ++ r) by set_solver.
      destruct (aw_disjoint _ Hwf _ _ _ _ Hin2 Hin) as [->|?]; [lia|].
      specialize (Hl (reg_start x, x)). simpl in Hl.
      pose proof (aw_range _ Hwf _ _ Hin).
      assert (reg_start x <= a) by (apply Hl; set_solver). lia.
  - apply last_None in E as ->. split; [done|]. intros (k' & r' & Hin & Ha & _).
    pose proof (aw_key _ Hwf _ _ Hin). subst. specialize (Hr _ Hin). simpl in Hr. lia.
Qed.

Lemma find_slow_None m a :
  amap_wf m -> find_slow a m = None <-> forall k r, (k, r) ∈ m -> ~ reg_has r a.
Proof.
  intros Hwf. split.
  - intros Hn k r Hin Ha. assert (find_slow a m = Some (reg_target r)); [|congruence].
    apply find_slow_Some; [done|]. eauto.
  - intros Hno. destruct (find_slow a m) as [t|] eqn:E; [|done].
    apply find_slow_Some in E as (k & r & Hin & Ha & _); [|done]. by destruct (Hno _ _ Hin).
Qed.

(** ** split_and_resolve *)

Lemma remove_keys_elem keys m e :
  om_wf m -> om_wf (remove_keys keys m) /\ (e ∈ remove_keys keys m <-> e ∈ m /\ e.1 ∉ keys).
Proof.
  revert m. induction keys as [|k keys IH]; intros m Hwf; simpl; [set_solver|].
  destruct (IH (om_erase k m) (om_wf_erase _ _ Hwf)) as [H1 H2]. split; [done|].
  unfold remove_keys in H2. rewrite H2, om_elem_erase by done. set_solver.
Qed.

Lemma overlapping_elem ns ne m e :
  e ∈ overlapping ns ne m <-> e ∈ m /\ overlaps ns ne e.2 = true.
Proof. unfold overlapping. rewrite list_elem_of_filter. tauto. Qed.

(** What survives step 2: exactly the regions that do not overlap the new one. *)
Lemma survivors_elem ns ne m e :
  amap_wf m ->
  e ∈ remove_keys ((overlapping ns ne m).*1) m <-> e ∈ m /\ overlaps ns ne e.2 = false.
Proof.
  intros Hwf. destruct (remove_keys_elem ((overlapping ns ne m).*1) m e (aw_sorted _ Hwf)) as [_ ->].
  split; intros [Hin Ho]; (split; [done|]).
  - destruct (overlaps ns ne e.2) eqn:E; [|done]. destruct Ho.
    apply list_elem_of_fmap. exists e. split; [done|]. by apply overlapping_elem.
  - intros (e' & He & Hin')%list_elem_of_fmap. apply overlapping_elem in Hin' as [Hin' Ho'].
    destruct e as [k r], e' as [k' r']; simpl in *; subst k'.
    assert (om_find k m = Some r) as E1 by (by apply om_find_elem; [apply Hwf|]).
    assert (om_find k m = Some r') as E2 by (by apply om_find_elem; [apply Hwf|]).
    congruence.
Qed.

Lemma boundaries_spec ivs :
  oset_wf (boundaries ivs) /\
  forall b, b ∈ boundaries ivs <-> exists iv, iv ∈ ivs /\ (b = iv_start iv \/ b = iv_end iv).
Proof.
  unfold boundaries.
  assert (Hgen : forall s, oset_wf s ->
    let s' := foldl (fun s iv => oset_insert (iv_end iv) (oset_insert (iv_start iv) s)) s ivs in
    oset_wf s' /\ forall b, b ∈ s' <->
      b ∈ s \/ exists iv, iv ∈ ivs /\ (b = iv_start iv \/ b = iv_end iv)).
  { induction ivs as [|iv ivs IH]; intros s Hs; simpl; [set_solver|].
    destruct (IH (oset_insert (iv_end iv) (oset_insert (iv_start iv) s))) as [H1 H2];
      [by apply oset_wf_insert, oset_wf_insert|].
    split; [done|]. intros b. rewrite H2, !oset_elem_insert. set_solver. }
  destruct (Hgen []) as [H1 H2]; [constructor|]. split; [done|]. set_solver.
Qed.

(** Inside a segment no interval starts or ends, so covering the segment and
    containing one of its addresses are the same. *)
Lemma segment_covered ivs s e a iv :
  (s, e) ∈ segments (boundaries ivs) -> s <= a < e -> iv ∈ ivs ->
  (iv_start iv <=? s) && (e <=? iv_end iv) = bool_decide (iv_has iv a).
Proof.
  intros Hseg Ha Hiv. destruct (boundaries_spec ivs) as [Hwf Hb].
  destruct (segments_spec _ _ _ Hwf Hseg) as (_ & _ & _ & Hbet).
  assert (H1 : iv_start iv <= s \/ e <= iv_start iv) by (apply Hbet, Hb; eauto).
  assert (H2 : iv_end iv <= s \/ e <= iv_end iv) by (apply Hbet, Hb; eauto).
  unfold iv_has. case_bool_decide; lia.
Qed.

(** The same fold, driven by one address of the segment. *)
Definition best_at_step (a : Z) (acc : Z * option tref) (iv : Interval) : Z * option tref :=
  if bool_decide (iv_has iv a) then
    if iv_priority iv <? acc.1 then (iv_priority iv, Some (iv_target iv)) else acc
  else acc.

Definition best_at (ivs : list Interval) (a : Z) : option tref :=
  (foldl (best_at_step a) (UINT32_MAX, None) ivs).2.

Lemma best_target_at ivs s e a :
  (s, e) ∈ segments (boundaries ivs) -> s <= a < e -> best_target ivs s e = best_at ivs a.
Proof.
  intros Hseg Ha. unfold best_target, best_at. f_equal.
  assert (Hall : forall iv, iv ∈ ivs ->
    (iv_start iv <=? s) && (e <=? iv_end iv) = bool_decide (iv_has iv a)).
  { intros iv Hiv. by eapply segment_covered. }
  generalize (UINT32_MAX, @None tref). clear Hseg.
  induction ivs as [|iv ivs IH]; intros acc; simpl; [done|].
  rewrite IH by set_solver. f_equal. unfold best_step, best_at_step.
  rewrite Hall by set_solver. done.
Qed.

Lemma best_at_skip a ivs acc :
  (forall iv, iv ∈ ivs -> ~ iv_has iv a) -> foldl (best_at_step a) acc ivs = acc.
Proof.
  revert acc. induction ivs as [|iv ivs IH]; intros acc Hno; simpl; [done|].
  rewrite IH by set_solver. unfold best_at_step. rewrite bool_decide_eq_false_2; [done|].
  apply Hno. by left.
Qed.

(** A winner is one of the intervals, and contains the address. *)
Lemma best_at_Some ivs a t :
  best_at ivs a = Some t -> exists iv, iv ∈ ivs /\ iv_has iv a /\ iv_target iv = t /\ iv_priority iv < UINT32_MAX.
Proof.
  unfold best_at. assert (Hgen : forall acc, acc.1 <= UINT32_MAX ->
    (foldl (best_at_step a) acc ivs).2 = Some t -> acc.2 = Some t \/
    exists iv, iv ∈ ivs /\ iv_has iv a /\ iv_target iv = t /\ iv_priority iv < UINT32_MAX).
  { induction ivs as [|iv ivs IH]; intros acc Hacc; simpl; [by left|].
    intros Hf. apply IH in Hf.
    - unfold best_at_step in Hf. case_bool_decide as Hh; [|set_solver].
      destruct (iv_priority iv <? acc.1) eqn:E; [|set_solver]. simpl in Hf.
      destruct Hf as [[= Hf]|Hf]; [|set_solver]. right. exists iv.
      split; [by left|]. split; [done|]. split; [done|lia].
    - unfold best_at_step. case_bool_decide; [|done]. destruct (_ <? _) eqn:E; simpl; lia. }
  intros Hf. by destruct (Hgen (UINT32_MAX, None) (Z.le_refl _) Hf).
Qed.

(** ** The result of a split *)

(** The loop over the boundaries adds one region per segment that has a winner. *)
Lemma resolve_segments_elem ivs bs m e :
  oset_wf bs -> om_wf m ->
  (forall s t' t, (s, t') ∈ segments bs -> best_target ivs s t' = Some t -> om_find s m = None) ->
  om_wf (resolve_segments ivs bs m) /\
  (e ∈ resolve_segments ivs bs m <->
   e ∈ m \/ exists s t' t, (s, t') ∈ segments bs /\ best_target ivs s t' = Some t /\
             e = (s, mk_region s t' t)).
Proof.
  intros Hbs. revert m. induction Hbs as [|s bs Hbs IH Hs]; intros m Hm Hfresh; simpl; [set_solver|].
  destruct bs as [|e' bs]; [set_solver|].
  set (m' := match best_target ivs s e' with
             | Some t => om_emplace s (mk_region s e' t) m | None => m end).
  assert (Hm' : om_wf m') by (unfold m'; destruct (best_target ivs s e'); eauto with omap).
  assert (Hel : forall x, x ∈ m' <-> x ∈ m \/ exists t, best_target ivs s e' = Some t /\ x = (s, mk_region s e' t)).
  { intros x. unfold m'. destruct (best_target ivs s e') as [t|] eqn:Eb; [|naive_solver].
    rewrite om_elem_emplace; [naive_solver|done|]. apply (Hfresh s e' t); [by left|done]. }
  destruct (IH m' Hm') as [H1 H2].
  - intros s2 e2 t2 Hin Hb. apply om_find_None, Forall_forall. intros [k r] Hk. simpl.
    apply Hel in Hk as [Hk|(t & _ & [= -> ->])].
    + assert (Hn : om_find s2 m = None) by (apply (Hfresh s2 e2 t2); [by right|done]).
      apply om_find_None in Hn. rewrite Forall_forall in Hn. by apply (Hn _ Hk).
    + destruct (segments_spec _ _ _ Hbs Hin) as (_ & Hs2 & _). rewrite Forall_forall in Hs.
      specialize (Hs _ Hs2). lia.
  - split; [done|]. fold m'. simpl in H2. rewrite H2, Hel. setoid_rewrite elem_of_cons. split.
    + intros [[Hm0|(t & Hb & ->)]|(s2 & e2 & t2 & Hin & Hb & ->)]; [by left|..]; right.
      * exists s, e', t. split; [by left|done].
      * exists s2, e2, t2. split; [by right|done].
    + intros [Hm0|(s2 & e2 & t2 & [[= -> ->]|Hin] & Hb & ->)]; [by left; left|..].
      * left. right. eauto.
      * right. eauto 6.
Qed.

Section Split.
Context (m : omap Region) (ns ne : Z) (t : tref).
Context (Hwf : amap_wf m) (Hrange : 0 <= ns < ne) (Hne : ne < 2 ^ 64)
        (Hprio : priority t < UINT32_MAX).

Let olds := overlapping ns ne m.
Let ivs := intervals ns ne t olds.
Let m1 := remove_keys (olds.*1) m.

Lemma intervals_elem iv :
  iv ∈ ivs <-> iv = interval_of ns ne t \/
    exists k r, (k, r) ∈ m /\ overlaps ns ne r = true /\
                iv = interval_of (reg_start r) (reg_end r) (reg_target r).
Proof.
  unfold ivs, intervals. rewrite elem_of_cons, list_elem_of_fmap. split.
  - intros [->|([k r] & -> & Hin)]; [by left|]. apply overlapping_elem in Hin as [Hin Ho].
    right. by exists k, r.
  - intros [->|(k & r & Hin & Ho & ->)]; [by left|]. right. exists (k, r).
    split; [done|]. by apply overlapping_elem.
Qed.

(** A surviving region meets no interval. *)
Lemma survivor_apart k r iv a :
  (k, r) ∈ m1 -> iv ∈ ivs -> reg_has r a -> iv_has iv a -> False.
Proof.
  intros [Hin Ho]%survivors_elem Hiv Ha Ha'; [|done]. unfold reg_has, iv_has in *. simpl in Ho.
  apply intervals_elem in Hiv as [->|(k' & r' & Hin' & Ho' & ->)]; simpl in *.
  - unfold overlaps in Ho. lia.
  - destruct (aw_disjoint _ Hwf _ _ _ _ Hin Hin') as [->|?]; [congruence|lia].
Qed.

Lemma segment_winner s e t' :
  (s, e) ∈ segments (boundaries ivs) -> best_target ivs s e = Some t' ->
  s < e /\ exists iv, iv ∈ ivs /\ iv_start iv <= s /\ e <= iv_end iv /\ iv_target iv = t' /\
                     iv_priority iv < UINT32_MAX.
Proof.
  intros Hseg Hb. destruct (boundaries_spec ivs) as [Hbs _].
  destruct (segments_spec _ _ _ Hbs Hseg) as (Hlt & _). split; [done|].
  rewrite (best_target_at ivs s e s) in Hb by (done || lia).
  apply best_at_Some in Hb as (iv & Hiv & Hh & <- & Hp). exists iv. split; [done|].
  pose proof (segment_covered ivs s e s iv Hseg ltac:(lia) Hiv) as Hc.
  rewrite (bool_decide_eq_true_2 _ Hh) in Hc. split; [lia|]. split; [lia|done].
Qed.

Lemma split_elem e :
  om_wf (split_and_resolve ns ne t m).1 /\
  (e ∈ (split_and_resolve ns ne t m).1 <->
   e ∈ m1 \/ exists s t' w, (s, t') ∈ segments (boundaries ivs) /\ best_target ivs s t' = Some w /\
              e = (s, mk_region s t' w)).
Proof.
  unfold split_and_resolve. simpl. destruct (boundaries_spec ivs) as [Hbs _].
  apply resolve_segments_elem; [done|by apply remove_keys_elem, Hwf|].
  intros s e' w Hseg Hb. destruct (segment_winner _ _ _ Hseg Hb) as (Hlt & iv & Hiv & H1 & H2 & _).
  apply om_find_None, Forall_forall. intros [k r] Hk. simpl. intros ->.
  pose proof Hk as Hk'. apply survivors_elem in Hk' as [Hin _]; [|done].
  pose proof (aw_key _ Hwf _ _ Hin). pose proof (aw_range _ Hwf _ _ Hin).
  apply (survivor_apart _ _ _ s Hk Hiv); unfold reg_has, iv_has; lia.
Qed.

Lemma split_wf : amap_wf (split_and_resolve ns ne t m).1.
Proof.
  assert (Hseg : forall s e w, (s, e) ∈ segments (boundaries ivs) -> best_target ivs s e = Some w ->
    0 <= s < e /\ e < 2 ^ 64 /\ priority w < UINT32_MAX).
  { intros s e w Hs Hb. destruct (segment_winner _ _ _ Hs Hb) as (Hlt & iv & Hiv & H1 & H2 & <- & Hp).
    apply intervals_elem in Hiv as [->|(k & r & Hin & _ & ->)]; simpl in *; [split; lia|].
    pose proof (aw_range _ Hwf _ _ Hin). split; lia. }
  assert (Hmix : forall k r s e w, (k, r) ∈ m1 -> (s, e) ∈ segments (boundaries ivs) ->
    best_target ivs s e = Some w -> reg_end r <= s \/ e <= reg_start r).
  { intros k r s e w Hin Hs Hb.
    destruct (segment_winner _ _ _ Hs Hb) as (Hlt & iv & Hiv & H1 & H2 & _).
    destruct (decide (reg_end r <= s \/ e <= reg_start r)) as [|Hn]; [done|]. exfalso.
    pose proof Hin as Hin'. apply survivors_elem in Hin' as [Hin' _]; [|done].
    pose proof (aw_range _ Hwf _ _ Hin').
    apply (survivor_apart _ _ _ (Z.max s (reg_start r)) Hin Hiv); unfold reg_has, iv_has; lia. }
  destruct (boundaries_spec ivs) as [Hbs _].
  split.
  - by apply (split_elem (0, mk_region 0 0 t)).
  - intros k r [Hin|(s & e & w & _ & _ & [= -> ->])]%split_elem; [|done].
    apply survivors_elem in Hin as [Hin _]; [|done]. by apply (aw_key _ Hwf).
  - intros k r [Hin|(s & e & w & Hs & Hb & [= -> ->])]%split_elem.
    + apply survivors_elem in Hin as [Hin _]; [|done]. by apply (aw_range _ Hwf _ _ Hin).
    + simpl. specialize (Hseg _ _ _ Hs Hb). lia.
  - intros k r k' r' [Hin|(s & e & w & Hs & Hb & [= -> ->])]%split_elem
      [Hin'|(s' & e' & w' & Hs' & Hb' & [= -> ->])]%split_elem; simpl.
    + apply survivors_elem in Hin as [Hin _]; [|done]. apply survivors_elem in Hin' as [Hin' _]; [|done].
      by apply (aw_disjoint _ Hwf _ _ _ _ Hin Hin').
    + specialize (Hmix _ _ _ _ _ Hin Hs' Hb'). lia.
    + specialize (Hmix _ _ _ _ _ Hin' Hs Hb). lia.
    + destruct (segments_disjoint _ _ _ _ _ Hbs Hs Hs') as [[-> ->]|?]; [|lia].
      left. congruence.
  - intros k r [Hin|(s & e & w & Hs & Hb & [= -> ->])]%split_elem.
    + apply survivors_elem in Hin as [Hin _]; [|done]. by apply (aw_priority _ Hwf _ _ Hin).
    + simpl. by apply (Hseg _ _ _ Hs Hb).
Qed.

Lemma best_at_step_idem a acc iv :
  best_at_step a (best_at_step a acc iv) iv = best_at_step a acc iv.
Proof.
  unfold best_at_step. case_bool_decide; [|done].
  destruct (iv_priority iv <? acc.1) eqn:E; simpl; [by rewrite Z.ltb_irrefl|by rewrite E].
Qed.

Lemma best_at_unique a l iv0 acc :
  (forall iv, iv ∈ l -> iv_has iv a -> iv = iv0) -> iv0 ∈ l ->
  foldl (best_at_step a) acc l = best_at_step a acc iv0.
Proof.
  revert acc. induction l as [|iv l IH]; intros acc Huniq Hin; [by apply not_elem_of_nil in Hin|].
  simpl. destruct (decide (iv0 ∈ l)) as [Hl|Hl].
  - rewrite IH by set_solver. destruct (decide (iv_has iv a)) as [Hh|Hh].
    + rewrite (Huniq iv) by set_solver. apply best_at_step_idem.
    + f_equal. unfold best_at_step. by rewrite bool_decide_eq_false_2.
  - apply elem_of_cons in Hin as [<-|Hin]; [|done].
    apply best_at_skip. intros iv Hiv Hh. rewrite (Huniq iv) in Hiv by set_solver. done.
Qed.

(** What the address [a] decodes to once [t] is added on [[ns, ne)]. *)
Definition add_spec (old : option tref) (a : Z) : option tref :=
  if decide (ns <= a < ne) then
    match old with
    | Some t' => if priority t' <? priority t then Some t' else Some t
    | None => Some t
    end
  else old.

Lemma best_at_add_spec a :
  (exists iv, iv ∈ ivs /\ iv_has iv a) -> best_at ivs a = add_spec (find_slow a m) a.
Proof.
  intros Hex. unfold best_at, ivs, intervals. simpl.
  set (acc0 := best_at_step a (UINT32_MAX, None) (interval_of ns ne t)).
  assert (Hacc0 : acc0 = if decide (ns <= a < ne) then (priority t, Some t) else (UINT32_MAX, None)).
  { unfold acc0, best_at_step, iv_has. simpl. case_bool_decide; case_decide; try done; try lia.
    destruct (priority t <? UINT32_MAX) eqn:E; [done|lia]. }
  unfold add_spec. destruct (find_slow a m) as [t'|] eqn:Ef.
  - apply find_slow_Some in Ef as (k & r & Hin & Ha & <-); [|done].
    destruct (overlaps ns ne r) eqn:Ho.
    + rewrite (best_at_unique _ _ (interval_of (reg_start r) (reg_end r) (reg_target r))).
      * unfold best_at_step. rewrite bool_decide_eq_true_2 by done. rewrite Hacc0. simpl.
        pose proof (aw_priority _ Hwf _ _ Hin). case_decide; simpl.
        -- by destruct (priority (reg_target r) <? priority t).
        -- destruct (priority (reg_target r) <? UINT32_MAX) eqn:E; [done|lia].
      * intros iv ([k' r'] & -> & Hin')%list_elem_of_fmap Hh.
        apply overlapping_elem in Hin' as [Hin' _]. simpl in *.
        unfold iv_has, reg_has in *. simpl in Hh.
        destruct (aw_disjoint _ Hwf _ _ _ _ Hin Hin') as [->|?]; [done|lia].
      * apply list_elem_of_fmap. exists (k, r). split; [done|]. by apply overlapping_elem.
    + exfalso. destruct Hex as (iv & Hiv & Hh).
      apply (survivor_apart k r iv a); [|done..]. by apply survivors_elem.
  - rewrite find_slow_None in Ef by done. rewrite best_at_skip.
    + rewrite Hacc0. by case_decide.
    + intros iv ([k' r'] & -> & Hin')%list_elem_of_fmap Hh.
      apply overlapping_elem in Hin' as [Hin' _]. by apply (Ef _ _ Hin').
Qed.

Lemma split_find a : find_slow a (split_and_resolve ns ne t m).1 = add_spec (find_slow a m) a.
Proof.
  destruct (boundaries_spec ivs) as [Hbs Hb].
  destruct (decide (Exists (fun iv => iv_has iv a) ivs)) as [Hex|Hno].
  - apply Exists_exists in Hex as (iv & Hiv & Hh).
    rewrite <- best_at_add_spec by eauto.
    destruct (segments_cover (boundaries ivs) a (iv_start iv) (iv_end iv)) as (s & e & Hseg & Ha);
      [done|apply Hb; eauto|apply Hb; eauto|done|].
    rewrite <- (best_target_at ivs s e a) by done.
    destruct (best_target ivs s e) as [w|] eqn:Ew.
    + apply find_slow_Some; [apply split_wf|]. exists s, (mk_region s e w).
      split; [apply split_elem; right; eauto 8|]. by split.
    + apply find_slow_None; [apply split_wf|].
      intros k r [Hin|(s' & e' & w & Hseg' & Hw & [= -> ->])]%split_elem Hh'.
      * by eapply survivor_apart.
      * unfold reg_has in Hh'. simpl in Hh'.
        destruct (segments_disjoint _ _ _ _ _ Hbs Hseg Hseg') as [[-> ->]|?]; [congruence|lia].
  - rewrite <- Forall_Exists_neg, Forall_forall in Hno.
    assert (Ha : ~ ns <= a < ne) by (apply (Hno (interval_of ns ne t)), intervals_elem; by left).
    unfold add_spec. rewrite decide_False by done.
    apply option_eq. intros w. rewrite !find_slow_Some by (apply split_wf || done). split.
    + intros (k & r & [Hin|(s & e & w' & Hs & Hw & [= -> ->])]%split_elem & Hh & <-).
      * apply survivors_elem in Hin as [Hin _]; [|done]. eauto.
      * exfalso. rewrite (best_target_at ivs s e a) in Hw by done.
        apply best_at_Some in Hw as (iv & Hiv & Hh' & _). by apply (Hno _ Hiv).
    + intros (k & r & Hin & Hh & <-). exists k, r. split; [|done]. apply split_elem. left.
      apply survivors_elem; [done|]. split; [done|]. simpl.
      destruct (overlaps ns ne r) eqn:Ho; [|done]. exfalso.
      apply (Hno (interval_of (reg_start r) (reg_end r) (reg_target r))); [|done].
      apply intervals_elem. right. eauto.
Qed.

End Split.

(** ** The abstract specification *)

(** [a] is in the range configured for [t]. *)
Definition in_range (t : tref) (a : Z) : Prop :=
  ti_address (t_obj t) <= a < ti_address (t_obj t) + ti_size (t_obj t).

#[global] Instance in_range_dec t a : Decision (in_range t a).
Proof. unfold in_range. apply _. Defined.

(** Of the targets added in the order [ts], the address [a] belongs to [t]: no
    target added before has a better (smaller) priority and none added after has
    an equal or better one, among those whose range has [a]. *)
Definition claimed (ts : list tref) (a : Z) (t : tref) : Prop :=
  exists l1 l2, ts = l1 ++ t :: l2 /\ in_range t a /\
    (forall t', t' ∈ l1 -> in_range t' a -> priority t <= priority t') /\
    (forall t', t' ∈ l2 -> in_range t' a -> priority t < priority t').

(** The same as a function. *)
Definition take_over (a : Z) (old : option tref) (t : tref) : option tref :=
  if decide (in_range t a) then
    match old with
    | Some t' => if priority t' <? priority t then Some t' else Some t
    | None => Some t
    end
  else old.

Definition winner (ts : list tref) (a : Z) : option tref := foldl (take_over a) None ts.

Lemma winner_snoc ts t a : winner (ts ++ [t]) a = take_over a (winner ts a) t.
Proof. unfold winner. by rewrite foldl_app. Qed.

Lemma claimed_snoc ts t a w :
  claimed (ts ++ [t]) a w <->
  (w = t /\ in_range t a /\ forall t', t' ∈ ts -> in_range t' a -> priority t <= priority t') \/
  (claimed ts a w /\ (in_range t a -> priority w < priority t)).
Proof.
  unfold claimed. split.
  - intros (l1 & l2 & Heq & Hw & H1 & H2). destruct l2 as [|x l2 _] using rev_ind.
    + apply app_inj_tail in Heq as [-> ->]. by left.
    + rewrite app_comm_cons, app_assoc in Heq. apply app_inj_tail in Heq as [-> ->].
      right. split; [|intros Hr; apply H2; set_solver].
      exists l1, l2. split; [done|]. split; [done|]. split; [done|]. intros t' Ht'. apply H2. set_solver.
  - intros [(-> & Hr & H1)|((l1 & l2 & -> & Hw & H1 & H2) & Hlt)].
    + exists ts, []. split; [done|]. split; [done|]. split; [done|]. set_solver.
    + exists l1, (l2 ++ [t]). rewrite app_comm_cons, app_assoc. split; [done|]. split; [done|].
      split; [done|]. intros t' [Ht'|Ht']%elem_of_app; [by apply H2|].
      apply list_elem_of_singleton in Ht' as ->. done.
Qed.

Lemma claimed_min ts a w t' :
  claimed ts a w -> t' ∈ ts -> in_range t' a -> priority w <= priority t'.
Proof.
  intros (l1 & l2 & -> & _ & H1 & H2) [Hin|[->|Hin]%elem_of_cons]%elem_of_app Hr; [by apply H1|lia|].
  specialize (H2 _ Hin Hr). lia.
Qed.

Lemma winner_claimed ts a w : winner ts a = Some w <-> claimed ts a w.
Proof.
  revert w. induction ts as [|t ts IH] using rev_ind; intros w.
  { split; [done|]. intros (l1 & l2 & Heq & _). by destruct l1. }
  rewrite winner_snoc, claimed_snoc. unfold take_over. rewrite <- IH.
  destruct (winner ts a) as [v|] eqn:Ew.
  - assert (Ew' : claimed ts a v) by (by apply IH). clear IH Ew. rename Ew' into Ew.
    case_decide as Hr; [|naive_solver].
    destruct (priority v <? priority t) eqn:Ep; split.
    + intros [= <-]. right. split; [done|]. intros _. lia.
    + intros [(-> & _ & Hmin)|[? _]]; [|done]. destruct Ew as (l1 & l2 & -> & Hv & _).
      specialize (Hmin v ltac:(set_solver) Hv). lia.
    + intros [= <-]. left. split; [done|]. split; [done|]. intros t' Hin Hr'.
      pose proof (claimed_min _ _ _ _ Ew Hin Hr'). lia.
    + intros [(-> & _ & _)|[[= <-] Hlt]]; [done|]. specialize (Hlt Hr). lia.
  - case_decide as Hr; [|naive_solver]. split; [|intros [(-> & _)|[? _]]; done].
    intros [= <-]. left. split; [done|]. split; [done|]. intros t' Hin Hr'. exfalso.
    clear IH. revert Ew. clear -Hin Hr'. unfold winner.
    assert (Hgen : forall o l, t' ∈ l \/ o <> None -> foldl (take_over a) o l <> None).
    { intros o l. revert o. induction l as [|x l IHl]; intros o Ho; simpl.
      - destruct Ho as [Ho|Ho]; [by apply not_elem_of_nil in Ho|done].
      - apply IHl. destruct Ho as [[->|Ho]%elem_of_cons|Ho]; [|by left|]; right; unfold take_over.
        + rewrite decide_True by done. by repeat case_match.
        + case_decide; [|done]. by repeat case_match. }
    apply Hgen. by left.
Qed.

(** ** Histories of the map *)

(** What clients of an [addressMap] do with it. *)
Inductive amap_op : Type :=
| OpAdd (t : tref)
| OpFind (a size : Z).

Fixpoint added (ops : list amap_op) : list tref :=
  match ops with
  | [] => []
  | OpAdd t :: ops' => t :: added ops'
  | OpFind _ _ :: ops' => added ops'
  end.

Section History.
Context {C : Type} `{AddrMapCache C} {good} `{!CacheSound C good}.

Definition amap_step (am : addressMap C) (o : amap_op) : addressMap C :=
  match o with
  | OpAdd t => amap_add t am
  | OpFind a size => (amap_find a size am).2
  end.

Definition amap_run (ops : list amap_op) : addressMap C := foldl amap_step (amap_empty C) ops.

(** The map stands for the targets [ts]: it is well formed, decodes every address
    as specified, and its cache is sound for that decoding. *)
Record amap_refines (ts : list tref) (am : addressMap C) : Prop := {
  ar_wf : amap_wf (am_regions am);
  ar_find : forall a, find_slow a (am_regions am) = winner ts a;
  ar_cache : c_inv (winner ts) (am_cache am);
}.

Lemma amap_refines_empty : amap_refines [] (amap_empty C).
Proof. split; [apply amap_wf_nil|done|apply c_inv_empty]. Qed.

Lemma amap_refines_add ts am t :
  placeable t -> amap_refines ts am -> amap_refines (ts ++ [t]) (amap_add t am).
Proof.
  intros [Ha Hs He Hp] [Hwf Hf Hc]. unfold amap_add. rewrite u64_small by lia.
  split; cbn [am_regions am_cache].
  - by apply split_wf; [done|lia..].
  - intros a. rewrite split_find by (done || lia). rewrite Hf, winner_snoc. done.
  - by eapply c_inv_clear.
Qed.

Lemma amap_refines_find ts am a size :
  good (winner ts) -> amap_refines ts am ->
  (amap_find a size am).1 = winner ts a /\ amap_refines ts (amap_find a size am).2.
Proof.
  intros Hg [Hwf Hf Hc]. unfold amap_find.
  pose proof (c_inv_get _ a _ Hg Hc) as Hc'.
  destruct (c_get a (am_cache am)) as [[v|] c'] eqn:E; simpl in *.
  - split; [|by split]. apply (c_hit (winner ts) a (am_cache am)); [done|done|]. by rewrite E.
  - rewrite Hf. split; [done|]. split; simpl; [done|done|].
    pose proof (c_inv_put (winner ts) a size _ Hg Hc) as Hput. rewrite E in Hput. by apply Hput.
Qed.

Lemma amap_refines_run ops :
  Forall placeable (added ops) ->
  (forall l1 l2, ops = l1 ++ l2 -> good (winner (added l1))) ->
  amap_refines (added ops) (amap_run ops).
Proof.
  induction ops as [|o ops IH] using rev_ind; intros Hpl Hgood; [apply amap_refines_empty|].
  assert (Hadd : added (ops ++ [o]) = added ops ++ added [o]).
  { clear. induction ops as [|[] ops IH]; simpl; [done|by rewrite IH|done]. }
  rewrite Hadd in *. apply Forall_app in Hpl as [Hpl Ho].
  unfold amap_run. rewrite foldl_app. simpl.
  assert (IH' : amap_refines (added ops) (amap_run ops)).
  { apply IH; [done|]. intros l1 l2 ->. apply (Hgood l1 (l2 ++ [o])). by rewrite app_assoc. }
  destruct o as [t|a size]; simpl.
  - apply amap_refines_add; [|done]. by apply Forall_inv in Ho.
  - rewrite app_nil_r. apply amap_refines_find; [|done]. by apply (Hgood ops [OpFind a size]).
Qed.

End History.

(** ** find_region *)

Section FindRegion.
Context (m : omap Region) (Hwf : amap_wf m) (a : Z) (d : tlm_dmi).

(** On a mapped address the bounds are those of a segment that holds the address
    and belongs entirely to the target. *)
Lemma find_region_Some t d' :
  find_region a m d = (Some t, d') ->
  dmi_covers d' a /\ forall b, dmi_covers d' b -> find_slow b m = Some t.
Proof.
  unfold find_region, dmi_covers. pose proof (om_upper_spec a m (aw_sorted _ Hwf)) as Hu.
  destruct (om_upper a m) as [l r]. destruct Hu as (Hm & Hl & Hr).
  destruct (last l) as [[k x]|] eqn:E; [|done]. apply last_Some in E as [l' ->].
  assert (Hin : (k, x) ∈ m) by (rewrite Hm; set_solver).
  pose proof (aw_range _ Hwf _ _ Hin).
  destruct ((reg_start x <=? a) && (a <? reg_end x)) eqn:Hb; [|done].
  intros [= <- <-]. simpl. rewrite u64_small by lia. split; [lia|].
  intros b Hbb. apply find_slow_Some; [done|]. exists k, x. unfold reg_has. split; [done|]. split; [lia|done].
Qed.

(** The regions before the iterator end no later than the last of them, ... *)
Lemma upper_before l r k x :
  om_upper a m = (l, r) -> (k, x) ∈ l ->
  exists k' y, last l = Some (k', y) /\ (k', y) ∈ m /\ reg_start y <= a /\ reg_end x <= reg_end y.
Proof.
  intros Heq Hin. pose proof (om_upper_spec a m (aw_sorted _ Hwf)) as Hu. rewrite Heq in Hu.
  destruct Hu as (Hm & Hl & _). rewrite Forall_forall in Hl.
  destruct (last l) as [[k' y]|] eqn:E; [|apply last_None in E as ->; set_solver].
  apply last_Some in E as [l' ->]. exists k', y. split; [done|].
  assert (Hiny : (k', y) ∈ m) by (rewrite Hm; set_solver). split; [done|].
  pose proof (aw_key _ Hwf _ _ Hiny) as ->. pose proof (aw_range _ Hwf _ _ Hiny).
  split; [apply (Hl (reg_start y, y)); set_solver|].
  assert (Hinx : (k, x) ∈ m) by (rewrite Hm; set_solver).
  pose proof (aw_key _ Hwf _ _ Hinx) as ->.
  destruct (aw_disjoint _ Hwf _ _ _ _ Hinx Hiny) as [->|Hd]; [lia|].
  apply elem_of_app in Hin as [Hin|Hin]; [|apply list_elem_of_singleton in Hin; simplify_eq; lia].
  pose proof (aw_sorted _ Hwf) as Hs. rewrite Hm in Hs. apply om_wf_app in Hs as (Hs & _).
  apply om_wf_app in Hs as (_ & _ & Hs). rewrite Forall_forall in Hs.
  specialize (Hs _ Hin). rewrite Forall_singleton in Hs. simpl in Hs. lia.
Qed.

(** ... and those after it start no earlier than the first of them. *)
Lemma upper_after l r k x :
  om_upper a m = (l, r) -> (k, x) ∈ r ->
  exists k' y r', r = (k', y) :: r' /\ (k', y) ∈ m /\ a < reg_start y <= reg_start x.
Proof.
  intros Heq Hin. pose proof (om_upper_spec a m (aw_sorted _ Hwf)) as Hu. rewrite Heq in Hu.
  destruct Hu as (Hm & _ & Hr). rewrite Forall_forall in Hr.
  destruct r as [|[k' y] r']; [set_solver|]. exists k', y, r'. split; [done|].
  assert (Hiny : (k', y) ∈ m) by (rewrite Hm; set_solver). split; [done|].
  pose proof (aw_key _ Hwf _ _ Hiny) as ->.
  pose proof (Hr (reg_start y, y) ltac:(by left)) as Hg. simpl in Hg. split; [done|].
  pose proof (aw_key _ Hwf k x ltac:(rewrite Hm; set_solver)) as ->.
  apply elem_of_cons in Hin as [[= -> ->]|Hin]; [lia|].
  pose proof (aw_sorted _ Hwf) as Hs. rewrite Hm in Hs. apply om_wf_app in Hs as (_ & Hs & _).
  apply om_wf_cons in Hs as [_ Hs]. rewrite Forall_forall in Hs. specialize (Hs _ Hin).
  simpl in Hs. lia.
Qed.

(** On an unmapped address the bounds hold unmapped addresses only, and hold the
    address itself, unless it is the very last one. *)
Lemma find_region_None d' :
  0 <= a -> find_region a m d = (None, d') ->
  find_slow a m = None /\ (forall b, dmi_covers d' b -> find_slow b m = None) /\
  (a < UINT64_MAX -> dmi_covers d' a).
Proof.
  intros Ha0 Hfr. assert (Hmiss : find_slow a m = None).
  { unfold find_region, find_slow in *. destruct (om_upper a m) as [l r]. simpl.
    destruct (last l) as [[k x]|]; [|done]. by destruct (_ && _). }
  split; [done|]. unfold find_region, dmi_covers in *.
  pose proof (fun k x => proj1 (find_slow_None m a Hwf) Hmiss k x) as Hno. unfold reg_has in Hno.
  pose proof (upper_before (om_upper a m).1 (om_upper a m).2) as Hbef.
  pose proof (upper_after (om_upper a m).1 (om_upper a m).2) as Haft.
  pose proof (om_upper_spec a m (aw_sorted _ Hwf)) as Hu.
  destruct (om_upper a m) as [l r]. simpl in *. destruct Hu as (Hm & _ & _).
  assert (Hd' : d' = set_end_address
     (match r with (_, y) :: _ => reg_start y - 1 | [] => UINT64_MAX - 1 end)
     (set_start_address (match last l with Some (_, y) => reg_end y | None => 0 end) d)).
  { assert (Hafter : match r with (_, y) :: _ => a < reg_start y < 2 ^ 64 | [] => True end).
    { destruct r as [|[k y] r]; [done|]. destruct (Haft k y eq_refl ltac:(by left)) as (? & ? & ? & [= -> -> ->] & Hy & ?).
      pose proof (aw_range _ Hwf _ _ Hy). lia. }
    destruct (last l) as [[k y]|] eqn:El.
    - apply last_Some in El as [l' ->]. destruct (Hbef k y eq_refl ltac:(set_solver)) as (? & ? & El & Hy & ? & ?).
      rewrite ?last_snoc in El; simplify_eq. pose proof (Hno _ _ Hy). pose proof (aw_range _ Hwf _ _ Hy).
      destruct (_ && _) eqn:Hb; [lia|]. injection Hfr as <-. destruct (reg_end _ <=? a) eqn:E2; [|lia].
      f_equal. destruct r as [|[k2 z] r]; [done|]. destruct (_ =? 0) eqn:E0; [lia|]. apply u64_small. lia.
    - injection Hfr as <-. f_equal. destruct r as [|[k2 z] r]; [done|].
      apply last_None in El as ->. destruct (Haft k2 z eq_refl ltac:(by left)) as (? & ? & ? & [= -> -> ->] & Hy & ?).
      pose proof (aw_range _ Hwf _ _ Hy). destruct (_ =? 0) eqn:E0; [lia|]. apply u64_small. lia. }
  subst d'. simpl. split.
  - intros b Hb. apply find_slow_None; [done|]. intros k x Hin Hh. unfold reg_has in Hh.
    rewrite Hm in Hin. apply elem_of_app in Hin as [Hin|Hin].
    + destruct (Hbef _ _ eq_refl Hin) as (k' & y & El & Hy & Hya & Hxy). rewrite El in Hb. lia.
    + destruct (Haft _ _ eq_refl Hin) as (k' & y & r' & -> & Hy & Hay). lia.
  - intros Ha. split.
    + destruct (last l) as [[k y]|] eqn:El; [|lia]. apply last_Some in El as [l' ->].
      destruct (Hbef k y eq_refl ltac:(set_solver)) as (? & ? & El & Hy & ? & ?).
      rewrite ?last_snoc in El; simplify_eq. pose proof (Hno _ _ Hy). lia.
    + destruct r as [|[k y] r]; [lia|].
      destruct (Haft k y eq_refl ltac:(by left)) as (? & ? & ? & [= -> -> ->] & Hy & ?). lia.
Qed.

End FindRegion.

(** ** Shadow warnings *)

Lemma completely_shadowed_spec m iv :
  amap_wf m -> iv_start iv < iv_end iv ->
  completely_shadowed m iv = true <->
  forall a t, iv_has iv a -> find_slow a m = Some t -> t_id t <> t_id (iv_target iv).
Proof.
  intros Hwf Hne. unfold completely_shadowed. rewrite negb_true_iff. split.
  - intros Hex a t Ha Hf Hid. apply find_slow_Some in Hf as (k & r & Hin & Hr & <-); [|done].
    apply Bool.not_true_iff_false in Hex. apply Hex, existsb_exists. exists (k, r).
    unfold iv_has, reg_has in *. split; [by apply list_elem_of_In|]. simpl.
    rewrite bool_decide_eq_true_2 by done. lia.
  - intros Hall. apply Bool.not_true_iff_false. intros ([k r] & Hin & Hr)%existsb_exists.
    apply list_elem_of_In in Hin. simpl in Hr. pose proof (aw_range _ Hwf _ _ Hin).
    apply andb_prop in Hr as [Hr H3]. apply andb_prop in Hr as [H1 H2].
    apply bool_decide_eq_true in H1.
    apply (Hall (Z.max (iv_start iv) (reg_start r)) (reg_target r)); [unfold iv_has; lia| |done].
    apply find_slow_Some; [done|]. exists k, r. unfold reg_has. split; [done|]. split; [lia|done].
Qed.

(** ** Caches that assume unshadowed targets *)

(** No two different targets share an address. *)
Definition disjoint_targets (ts : list tref) : Prop :=
  forall t t' a, t ∈ ts -> t' ∈ ts -> in_range t a -> in_range t' a -> t = t'.

Lemma winner_unshadowed ts :
  Forall placeable ts -> disjoint_targets ts -> unshadowed (winner ts).
Proof.
  intros Hpl Hdis k t Hk j Hj. apply winner_claimed in Hk as (l1 & l2 & -> & Hr & H1 & H2).
  rewrite Forall_forall in Hpl. destruct (Hpl t ltac:(set_solver)) as [? ? ? ?].
  simpl in Hj. rewrite u64_small in Hj by lia.
  assert (Hjr : in_range t j) by (unfold in_range; lia).
  apply winner_claimed. exists l1, l2. split; [done|]. split; [done|]. split.
  - intros t' Hin Hr'. rewrite (Hdis t' t j) by set_solver. lia.
  - intros t' Hin Hr'. assert (t' = t) as -> by (apply (Hdis _ _ j); set_solver).
    specialize (H2 _ Hin Hr). lia.
Qed.

Lemma added_app l1 l2 : added (l1 ++ l2) = added l1 ++ added l2.
Proof. induction l1 as [|[] l1 IH]; simpl; [done|by rewrite IH|done]. Qed.

Lemma amap_step_wf (C : Type) `{AddrMapCache C} (am : addressMap C) o :
  Forall placeable (added [o]) -> amap_wf (am_regions am) -> amap_wf (am_regions (amap_step am o)).
Proof.
  intros Ho Hwf. destruct o as [t|a size]; simpl.
  - apply Forall_inv in Ho as [? ? ? ?]. unfold amap_add. rewrite u64_small by lia.
    apply split_wf; [done|lia..].
  - unfold amap_find. by destruct (c_get a _) as [[]].
Qed.

Lemma amap_run_snoc (C : Type) `{AddrMapCache C} ops o :
  amap_run (C := C) (ops ++ [o]) = amap_step (amap_run ops) o.
Proof. unfold amap_run. by rewrite foldl_app. Qed.

Lemma amap_run_wf (C : Type) `{AddrMapCache C} ops :
  Forall placeable (added ops) -> amap_wf (am_regions (amap_run (C := C) ops)).
Proof.
  induction ops as [|o ops IH] using rev_ind; intros Hpl; [apply amap_wf_nil|].
  rewrite added_app in Hpl. apply Forall_app in Hpl as [Hpl Ho].
  rewrite amap_run_snoc. apply amap_step_wf; [done|by apply IH].
Qed.

(** The regions, unlike the answers, do not depend on the cache. *)
Lemma amap_run_find (C : Type) `{AddrMapCache C} ops a :
  Forall placeable (added ops) -> find_slow a (am_regions (amap_run (C := C) ops)) = winner (added ops) a.
Proof.
  induction ops as [|o ops IH] using rev_ind; intros Hpl; [done|].
  rewrite added_app in *. apply Forall_app in Hpl as [Hpl Ho].
  pose proof (amap_run_wf C ops Hpl) as Hwf. rewrite amap_run_snoc. destruct o as [t|b size]; cbn [amap_step added].
  - apply Forall_inv in Ho as [? ? ? ?]. unfold amap_add. rewrite u64_small by lia.
    cbn [am_regions]. rewrite split_find by (done || lia). rewrite IH by done. by rewrite winner_snoc.
  - rewrite app_nil_r. unfold amap_find. destruct (c_get b _) as [[]]; by apply IH.
Qed.

Lemma find_region_spec m a d :
  amap_wf m -> 0 <= a < UINT64_MAX ->
  let '(o, d') := find_region a m d in
  dmi_covers d' a /\ o = find_slow a m /\ forall b, dmi_covers d' b -> find_slow b m = o.
Proof.
  intros Hwf Ha. destruct (find_region a m d) as [[t|] d'] eqn:E.
  - destruct (find_region_Some _ Hwf _ _ _ _ E) as [H1 H2]. split; [done|].
    split; [symmetry; by apply H2|done].
  - destruct (find_region_None _ Hwf _ _ _ (proj1 Ha) E) as (H1 & H2 & H3).
    split; [apply H3; lia|]. split; [done|done].
Qed.

(** ** Properties *)

(** A target at [[addr, addr + size)] as the examples below use them. *)
Definition target_at (id : nat) (nm : string) (addr size prio : Z) : tref :=
  mk_tref id (mk_target id nm addr size prio true false false nm 0 0 [] []).

(** A large low-priority target and a small high-priority one inside it. *)
Definition ex_ram : tref := target_at 0 "ram" 0 0x1000 5.
Definition ex_dev : tref := target_at 1 "dev" 0x100 0x10 1.

Lemma ex_placeable : Forall placeable [ex_ram; ex_dev].
Proof. repeat constructor; vm_compute; done. Qed.

Definition ex_map : omap Region := am_regions (amap_run (C := NoCache) [OpAdd ex_ram; OpAdd ex_dev]).

Lemma ex_map_wf : amap_wf ex_map.
Proof. apply (amap_run_wf NoCache), ex_placeable. Qed.

(** Whatever targets were added and whatever addresses were looked up in between, [find] returns the
    target that the specification gives the address to; among equal priorities that is the last one
    added. *)
Theorem amap_find_claimed (C : Type) `{CacheSound C (fun _ => True)} ops a size t :
  Forall placeable (added ops) ->
  (amap_find a size (amap_run (C := C) ops)).1 = Some t <-> claimed (added ops) a t.
Proof.
  intros Hpl. rewrite <- winner_claimed.
  by rewrite (proj1 (amap_refines_find (added ops) _ a size I (amap_refines_run ops Hpl (fun _ _ _ => I)))).
Qed.

(** Decoding as documented: the address is in the range of [t], and no other target that has the
    address has a better (smaller) priority. *)
Definition best_claim (ts : list tref) (a : Z) (t : tref) : Prop :=
  t ∈ ts /\ in_range t a /\ forall t', t' ∈ ts -> in_range t' a -> priority t <= priority t'.

Lemma claimed_best ts a t : claimed ts a t -> best_claim ts a t.
Proof.
  intros (l1 & l2 & -> & Hr & H1 & H2). split; [set_solver|]. split; [done|]. intros t' Ht' Hr'.
  apply elem_of_app in Ht' as [Ht'|[->|Ht']%elem_of_cons]; [by apply H1|done|]. apply Z.lt_le_incl. by apply H2.
Qed.

Lemma winner_None ts a : winner ts a = None <-> forall t, t ∈ ts -> ~ in_range t a.
Proof.
  induction ts as [|t ts IH] using rev_ind; [split; [intros _ t Ht; by apply not_elem_of_nil in Ht|done]|].
  rewrite winner_snoc. unfold take_over. case_decide as Hr.
  - split; [destruct (winner ts a); [by destruct (_ <? _)|done]|]. intros Hn. destruct (Hn t); [set_solver|done].
  - rewrite IH. set_solver.
Qed.

(** C1: for targets whose ranges are not empty and end below the top of the address space, with
    priorities other than the largest, and with no cache or the cache of single addresses in front of
    the map: whatever was added and looked up before, [find] returns a target whose range has the
    address and such that no other target that has it has a better priority, and finds nothing
    exactly for the addresses that are in no range. *)
Theorem amap_find_best (C : Type) `{CacheSound C (fun _ => True)} ops a size :
  Forall placeable (added ops) ->
  match (amap_find a size (amap_run (C := C) ops)).1 with
  | Some t => best_claim (added ops) a t
  | None => forall t, t ∈ added ops -> ~ in_range t a
  end.
Proof.
  intros Hpl. rewrite (proj1 (amap_refines_find (added ops) _ a size I (amap_refines_run ops Hpl (fun _ _ _ => I)))).
  destruct (winner (added ops) a) as [t|] eqn:E; [by apply claimed_best, winner_claimed|by apply winner_None].
Qed.

Lemma amap_find_best_witness :
  (amap_find 0x104 4 (amap_run (C := LRUCache) [OpAdd ex_ram; OpFind 0x104 4; OpAdd ex_dev; OpFind 0x104 4])).1 = Some ex_dev /\
  best_claim [ex_ram; ex_dev] 0x104 ex_dev.
Proof.
  split; [vm_compute; done|].
  exact (amap_find_best LRUCache [OpAdd ex_ram; OpFind 0x104 4; OpAdd ex_dev; OpFind 0x104 4] 0x104 4 ex_placeable).
Defined.

(** Of two targets of equal priority the one added last is found. *)
Lemma equal_priority_last_wins :
  let t1 := target_at 0 "a" 0 0x1000 0 in let t2 := target_at 1 "b" 0 0x1000 0 in
  (amap_find 0x10 4 (amap_run (C := NoCache) [OpAdd t1; OpAdd t2])).1 = Some t2.
Proof. vm_compute. done. Qed.

Lemma amap_find_claimed_witness :
  (amap_find 0x104 4 (amap_run (C := LRUCache)
     [OpAdd ex_ram; OpFind 0x104 4; OpAdd ex_dev; OpFind 0x104 4])).1 = Some ex_dev <->
  claimed [ex_ram; ex_dev] 0x104 ex_dev.
Proof.
  apply (amap_find_claimed LRUCache
           [OpAdd ex_ram; OpFind 0x104 4; OpAdd ex_dev; OpFind 0x104 4] 0x104 4 ex_dev ex_placeable).
Defined.

(** C38: for targets whose ranges are not empty and end below the top of the address space, with
    priorities other than the largest: after any sequence of additions and lookups, whatever the
    cache, every region of the map is keyed by its start and is not empty, and of two regions the
    first ends before the second starts. *)
Theorem amap_regions_ordered (C : Type) `{AddrMapCache C} ops i ki ri :
  Forall placeable (added ops) ->
  am_regions (amap_run (C := C) ops) !! i = Some (ki, ri) ->
  ki = reg_start ri /\ reg_start ri < reg_end ri /\
  forall j kj rj, am_regions (amap_run (C := C) ops) !! j = Some (kj, rj) -> (i < j)%nat -> reg_end ri <= reg_start rj.
Proof.
  intros Hpl Hi. pose proof (amap_run_wf C ops Hpl) as Hwf.
  set (m := am_regions (amap_run (C := C) ops)) in *.
  pose proof (list_elem_of_lookup_2 _ _ _ Hi) as Hini. pose proof (aw_key _ Hwf _ _ Hini). pose proof (aw_range _ Hwf _ _ Hini).
  split_and!; [done|lia|]. intros j kj rj Hj Hlt. pose proof (list_elem_of_lookup_2 _ _ _ Hj) as Hinj.
  pose proof (aw_key _ Hwf _ _ Hinj). subst. pose proof (aw_range _ Hwf _ _ Hinj).
  pose proof (om_wf_lookup_lt _ _ _ _ _ (aw_sorted _ Hwf) Hi Hj Hlt) as Hk. simpl in Hk.
  destruct (aw_disjoint _ Hwf _ _ _ _ Hini Hinj) as [->|?]; lia.
Qed.

Lemma amap_regions_ordered_witness :
  let rs := am_regions (amap_run (C := NoCache) [OpAdd ex_ram; OpAdd ex_dev]) in
  rs = [(0, mk_region 0 0x100 ex_ram); (0x100, mk_region 0x100 0x110 ex_dev);
        (0x110, mk_region 0x110 0x1000 ex_ram)] /\
  0x100 = reg_start (mk_region 0x100 0x110 ex_dev) /\ 0x100 < 0x110 /\
  forall j kj rj, rs !! j = Some (kj, rj) -> (1 < j)%nat -> 0x110 <= reg_start rj.
Proof.
  split; [vm_compute; done|].
  apply (amap_regions_ordered NoCache [OpAdd ex_ram; OpAdd ex_dev] 1 0x100 (mk_region 0x100 0x110 ex_dev) ex_placeable). vm_compute. done.
Defined.

(** the region caches are right when no two targets overlap. *)
Theorem amap_find_claimed_region (C : Type) `{CacheSound C unshadowed} ops a size t :
  Forall placeable (added ops) -> disjoint_targets (added ops) ->
  (amap_find a size (amap_run (C := C) ops)).1 = Some t <-> claimed (added ops) a t.
Proof.
  intros Hpl Hdis. rewrite <- winner_claimed.
  assert (Hgood : forall l1 l2, ops = l1 ++ l2 -> unshadowed (winner (added l1))).
  { intros l1 l2 ->. rewrite added_app in *. apply Forall_app in Hpl as [Hpl _].
    apply winner_unshadowed; [done|]. intros x y b Hx Hy. apply Hdis; set_solver. }
  assert (Hg : unshadowed (winner (added ops))) by (apply (Hgood ops []); by rewrite app_nil_r).
  by rewrite (proj1 (amap_refines_find (added ops) _ a size Hg (amap_refines_run ops Hpl Hgood))).
Qed.

Lemma amap_find_claimed_region_witness :
  let ops := [OpAdd ex_ram; OpFind 0x104 4] in
  (amap_find 0x104 4 (amap_run (C := RegionLRUCache) ops)).1 = Some ex_ram <->
  claimed (added ops) 0x104 ex_ram.
Proof.
  apply (amap_find_claimed_region RegionLRUCache [OpAdd ex_ram; OpFind 0x104 4]).
  - repeat constructor; vm_compute; done.
  - intros t t' a Ht Ht' _ _. apply list_elem_of_singleton in Ht, Ht'. by subst.
Defined.

(** with overlapping targets the region caches are not: once the large target
    is cached, they answer it also where the small one, of better priority, was
    found by the map. *)
Theorem region_cache_misroutes :
  let ops := [OpAdd ex_ram; OpAdd ex_dev; OpFind 0 4] in
  claimed (added ops) 0x104 ex_dev /\
  (amap_find 0x104 4 (amap_run (C := RegionLRUCache) ops)).1 = Some ex_ram /\
  (amap_find 0x104 4 (amap_run (C := RegionFIFOCache) ops)).1 = Some ex_ram /\
  (amap_find 0x104 4 (amap_run (C := NoCache) ops)).1 = Some ex_dev.
Proof.
  cbn zeta. split; [apply winner_claimed; vm_compute; done|]. repeat split; vm_compute; done.
Qed.

(** [find_region] gives DMI bounds that hold the address and on which every
    address belongs to the same target, or to none when the address is in a hole. *)
Theorem find_region_uniform (C : Type) `{AddrMapCache C} ops a d :
  Forall placeable (added ops) -> 0 <= a < UINT64_MAX ->
  let '(o, d') := find_region a (am_regions (amap_run (C := C) ops)) d in
  dmi_covers d' a /\
  forall b, dmi_covers d' b -> forall t, claimed (added ops) b t <-> o = Some t.
Proof.
  intros Hpl Ha. pose proof (amap_run_wf C ops Hpl) as Hwf.
  pose proof (find_region_spec _ a d Hwf Ha) as Hs. pose proof (fun b => amap_run_find C ops b Hpl) as Hf.
  destruct (find_region _ _ _) as [o d']. destruct Hs as (Hc & _ & Hall). split; [done|].
  intros b Hb t. by rewrite <- winner_claimed, <- Hf, Hall.
Qed.

Lemma find_region_uniform_witness :
  let '(o, d') := find_region 0x20 ex_map dmi_init in
  dmi_covers d' 0x20 /\
  forall b, dmi_covers d' b -> forall t, claimed [ex_ram; ex_dev] b t <-> o = Some t.
Proof.
  exact (find_region_uniform NoCache [OpAdd ex_ram; OpAdd ex_dev] 0x20 dmi_init ex_placeable
           ltac:(vm_compute; done)).
Defined.

(** a "completely shadowed" warning is issued exactly for the overlapped
    regions of which no address decodes to their target any more. *)
Theorem shadow_warning_exact m ns ne t iv :
  amap_wf m -> 0 <= ns < ne -> ne < 2 ^ 64 -> priority t < UINT32_MAX ->
  let '(m', warned) := split_and_resolve ns ne t m in
  iv ∈ warned <->
  iv ∈ intervals ns ne t (overlapping ns ne m) /\ is_new ns ne t iv = false /\
  forall a t', iv_has iv a -> find_slow a m' = Some t' -> t_id t' <> t_id (iv_target iv).
Proof.
  intros Hwf Hr He Hp. pose proof (split_wf m ns ne t Hwf Hr He Hp) as Hwf'.
  destruct (split_and_resolve ns ne t m) as [m' warned] eqn:Es. simpl in Hwf'.
  unfold split_and_resolve in Es. injection Es as Hm' <-. rewrite Hm'.
  rewrite list_elem_of_filter.
  enough (Hlt : iv ∈ intervals ns ne t (overlapping ns ne m) -> iv_start iv < iv_end iv).
  { pose proof (completely_shadowed_spec m' iv Hwf'). naive_solver. }
  intros [->|(k & r & Hin & _ & ->)]%intervals_elem; simpl; [lia|].
  apply (aw_range _ Hwf _ _ Hin).
Qed.

Lemma shadow_warning_exact_witness :
  let '(m', warned) := split_and_resolve 0 0x1000 ex_ram ex_map in
  interval_of 0x100 0x110 ex_dev ∈ warned <->
  interval_of 0x100 0x110 ex_dev ∈ intervals 0 0x1000 ex_ram (overlapping 0 0x1000 ex_map) /\
  is_new 0 0x1000 ex_ram (interval_of 0x100 0x110 ex_dev) = false /\
  forall a t', iv_has (interval_of 0x100 0x110 ex_dev) a -> find_slow a m' = Some t' ->
    t_id t' <> t_id ex_dev.
Proof.
  exact (shadow_warning_exact ex_map 0 0x1000 ex_ram (interval_of 0x100 0x110 ex_dev) ex_map_wf
           ltac:(lia) ltac:(lia) ltac:(vm_compute; done)).
Defined.

(** ** Where the code departs from its comments *)

(** A target with the lowest priority [UINT32_MAX] is never mapped: the search
    for the best priority starts at that very value and only accepts less. *)
Theorem lowest_priority_unmapped :
  let t := target_at 0 "bg" 0 0x1000 UINT32_MAX in
  (amap_find 0x10 4 (amap_run (C := NoCache) [OpAdd t])).1 = None /\ claimed [t] 0x10 t.
Proof. split; [vm_compute; done|]. apply winner_claimed. vm_compute. done. Qed.

(** A target that ends at the top of the address space is never mapped: its
    exclusive end wraps to 0. *)
Theorem top_of_space_unmapped :
  let t := target_at 0 "top" (2 ^ 64 - 0x1000) 0x1000 0 in
  (amap_find (2 ^ 64 - 0x800) 4 (amap_run (C := NoCache) [OpAdd t])).1 = None /\
  claimed [t] (2 ^ 64 - 0x800) t.
Proof. split; [vm_compute; done|]. apply winner_claimed. vm_compute. done. Qed.

(** Adjacent segments of the same target are not merged: a shadowed low-priority
    region leaves its cuts, and the DMI bounds of the winner stop at them. *)
Theorem same_target_segments_not_merged :
  let big := target_at 0 "big" 0 0x1000 0 in
  let low := target_at 1 "low" 0x100 0x10 7 in
  let m := am_regions (amap_run (C := NoCache) [OpAdd big; OpAdd low]) in
  (forall a, 0 <= a < 0x1000 -> find_slow a m = Some big) /\
  find_region 0 m dmi_init = (Some big, mk_dmi 0 0 0xff DMI_ACCESS_NONE).
Proof.
  cbn zeta. split; [|vm_compute; done]. intros a Ha.
  assert (Hpl : Forall placeable (added [OpAdd (target_at 0 "big" 0 0x1000 0); OpAdd (target_at 1 "low" 0x100 0x10 7)]))
    by (repeat constructor; vm_compute; done).
  rewrite (ar_find _ _ (amap_refines_run (C := NoCache) _ Hpl (fun _ _ _ => I))). simpl.
  unfold winner, take_over, in_range. simpl. repeat case_decide; first [done | lia].
Qed.

(** The last address of an unbounded hole is left out of its DMI bounds. *)
Theorem hole_misses_last_address :
  find_region UINT64_MAX [] dmi_init = (None, mk_dmi 0 0 (UINT64_MAX - 1) DMI_ACCESS_NONE).
Proof. reflexivity. Qed.
