(* ===== verification/Cci.v ===== *)
(** * Configuration

    The CCI broker is a library of its own; the components only use the preset
    values it keeps.  It appears here as an interface ([CciBroker] with its laws)
    and [cciutils.h]'s accessors are written against it.  String helpers of
    [std::string] that the configuration code uses are below. *)

From stdpp Require Import base list numbers option strings gmap.
From Stdlib Require Import Ascii.
From S2P Require Import Prelude.

(** The kinds of [cci_value] the components read. *)
Inductive cci_value : Type :=
| CciNumber (z : Z)
| CciBool (b : bool)
| CciString (s : string).

#[global] Instance cci_value_eq_dec : EqDecision cci_value.
Proof. solve_decision. Defined.

(** [preset] is the preset value of a name, if it has one; [unconsumed] lists the
    names of the presets no parameter has consumed. *)
Class CciBroker (B : Type) : Type := {
  preset : B -> string -> option cci_value;
  set_preset : B -> string -> cci_value -> B;
  unconsumed : B -> list string;
}.

Class CciBrokerLaws (B : Type) `{CciBroker B} : Prop := {
  preset_set_eq : forall b n v, preset (set_preset b n v) n = Some v;
  preset_set_ne : forall b n n' v, n <> n' -> preset (set_preset b n v) n' = preset b n';
}.

(** A broker that only has presets. *)
Definition plain_broker : Type := gmap string cci_value.

#[export] Instance plain_broker_broker : CciBroker plain_broker := {
  preset := fun b n => b !! n;
  set_preset := fun b n v => <[n := v]> b;
  unconsumed := fun b => (map_to_list b).*1;
}.

#[export] Instance plain_broker_laws : CciBrokerLaws plain_broker.
Proof.
  split; simpl; intros; unfold plain_broker in *.
  - apply lookup_insert_eq.
  - by apply lookup_insert_ne.
Qed.

(** [cci_value::try_get<T>] for the types the sources instantiate it with. *)
Definition try_u64 (v : option cci_value) : option Z :=
  match v with
  | Some (CciNumber z) => if (0 <=? z) && (z <? 2 ^ 64) then Some z else None
  | _ => None
  end.
Definition try_u32 (v : option cci_value) : option Z :=
  match v with
  | Some (CciNumber z) => if (0 <=? z) && (z <? 2 ^ 32) then Some z else None
  | _ => None
  end.
Definition try_bool (v : option cci_value) : option bool :=
  match v with Some (CciBool b) => Some b | _ => None end.
Definition try_string (v : option cci_value) : option string :=
  match v with Some (CciString s) => Some s | _ => None end.

(** [cci_get<T> (broker, name)] reports an error when the value is missing or of
    another type; [cci_get_d<T>] falls back on a default. *)
Definition cci_get {T} (o : option T) : res T :=
  match o with Some v => Ret v | None => Err StopFatal end.
Definition cci_get_d {T} (o : option T) (d : T) : T := default d o.

(** ** std::string *)

(** [s.substr (n)]: throws [std::out_of_range] beyond the end. *)
Definition substr_from (n : nat) (s : string) : res string :=
  if decide (n <= String.length s)%nat then Ret (String.substring n (String.length s - n) s)
  else Err StopFatal.

(** The part of [s] before the first dot, all of it when there is none. *)
Fixpoint until_dot (s : string) : string :=
  match s with
  | EmptyString => EmptyString
  | String c s' => if Ascii.eqb c "."%char then EmptyString else String c (until_dot s')
  end.

(** Whether [needle] occurs in [s] ([find] does not return [npos]). *)
Definition contains (needle s : string) : bool :=
  match String.index 0 needle s with Some _ => true | None => false end.

(** [register_boundto]: the remainder of [s] after the longest prefix it shares
    with [tmp]. *)
Fixpoint drop_common (tmp s : string) : string :=
  match tmp, s with
  | String a tmp', String b s' => if Ascii.eqb a b then drop_common tmp' s' else s
  | _, _ => s
  end.

(** [std::list<std::string>::sort] and [unique]. *)
Fixpoint sort_insert (x : string) (l : list string) : list string :=
  match l with
  | [] => [x]
  | y :: l' => if String.leb x y then x :: l else y :: sort_insert x l'
  end.
Definition string_sort (l : list string) : list string := foldr sort_insert [] l.
Fixpoint string_unique (l : list string) : list string :=
  match l with
  | x :: ((y :: _) as l') => if String.eqb x y then string_unique l' else x :: string_unique l'
  | _ => l
  end.

Lemma sort_insert_elem x l y : y ∈ sort_insert x l <-> y = x \/ y ∈ l.
Proof.
  induction l as [|z l IH]; simpl; [by rewrite list_elem_of_singleton, elem_of_nil; tauto|].
  destruct (String.leb x z); rewrite !elem_of_cons; [tauto|]. rewrite IH. tauto.
Qed.

Lemma string_sort_elem l y : y ∈ string_sort l <-> y ∈ l.
Proof.
  induction l as [|z l IH]; simpl; [done|]. rewrite sort_insert_elem, elem_of_cons.
  unfold string_sort in IH. by rewrite IH.
Qed.

Lemma string_unique_elem l y : y ∈ string_unique l <-> y ∈ l.
Proof.
  induction l as [|x l IH]; simpl; [done|]. destruct l as [|z l]; [done|].
  destruct (String.eqb_spec x z) as [->|]; [|by rewrite !elem_of_cons in *; rewrite IH].
  rewrite IH. set_solver.
Qed.
