(* ===== verification/Biflow.v ===== *)
(** * Flow-controlled serial sockets

    The sockets between serial devices and their back ends
    (common/include/ports/biflow-socket.h): a queue of bytes that is sent as far as
    the other side has granted, the messages that grant, and the router that joins
    any number of such sockets.  The mutex of a socket makes each operation atomic;
    a run of [sendall] that its event has asked for is the flag [bf_notified], set by
    [notify] from either thread and cleared when the method runs. *)

From stdpp Require Import base list numbers option strings.
From S2P Require Import Prelude Monad Tlm.

(** [biflow_socket<MODULE, uint8_t>]. *)
Record biflow : Type := mk_biflow {
  bf_can_send : Z;
  bf_infinite : bool;
  bf_queue : list Z;
  bf_notified : bool;
  bf_attached : bool;
  bf_txn : option payload;
  bf_bound : bool;
}.

Definition set_can_send (v : Z) (s : biflow) : biflow :=
  mk_biflow v (bf_infinite s) (bf_queue s) (bf_notified s) (bf_attached s) (bf_txn s) (bf_bound s).
Definition set_infinite (v : bool) (s : biflow) : biflow :=
  mk_biflow (bf_can_send s) v (bf_queue s) (bf_notified s) (bf_attached s) (bf_txn s) (bf_bound s).
Definition set_queue (v : list Z) (s : biflow) : biflow :=
  mk_biflow (bf_can_send s) (bf_infinite s) v (bf_notified s) (bf_attached s) (bf_txn s) (bf_bound s).
Definition set_notified (v : bool) (s : biflow) : biflow :=
  mk_biflow (bf_can_send s) (bf_infinite s) (bf_queue s) v (bf_attached s) (bf_txn s) (bf_bound s).
Definition set_attached (v : bool) (s : biflow) : biflow :=
  mk_biflow (bf_can_send s) (bf_infinite s) (bf_queue s) (bf_notified s) v (bf_txn s) (bf_bound s).
Definition set_txn (v : option payload) (s : biflow) : biflow :=
  mk_biflow (bf_can_send s) (bf_infinite s) (bf_queue s) (bf_notified s) (bf_attached s) v (bf_bound s).
Definition set_bound (v : bool) (s : biflow) : biflow :=
  mk_biflow (bf_can_send s) (bf_infinite s) (bf_queue s) (bf_notified s) (bf_attached s) (bf_txn s) v.

(** The constructor: nothing granted, detached, and no run of [sendall]. *)
Definition new_biflow : biflow := mk_biflow 0 false [] false false None false.

(** ** Sending *)

(** A payload fresh from its constructor. *)
Definition fresh_txn : payload :=
  mk_payload TLM_IGNORE_COMMAND 0 [] 0 0 None 0 TLM_INCOMPLETE_RESPONSE false None None None.

Definition set_data_length (n : Z) (t : payload) : payload :=
  mk_payload (command t) (address t) (data t) n (streaming_width t) (byt t)
    (byte_enable_length t) (response t) (dmi_allowed t) (ext_path t) (ext_excl t) (ext_udmi t).
Definition set_streaming_width (n : Z) (t : payload) : payload :=
  mk_payload (command t) (address t) (data t) (data_length t) n (byt t)
    (byte_enable_length t) (response t) (dmi_allowed t) (ext_path t) (ext_excl t) (ext_udmi t).

(** [deep_copy_from] into a payload without data and byte enables: those are not
    copied; an extension replaces or is added. *)
Definition deep_copy_from (dst src : payload) : payload :=
  mk_payload (command src) (address src) (data dst) (data_length src) (streaming_width src) (byt dst)
    (byte_enable_length src) (response src) (dmi_allowed src)
    (match ext_path src with Some e => Some e | None => ext_path dst end)
    (match ext_excl src with Some e => Some e | None => ext_excl dst end)
    (match ext_udmi src with Some e => Some e | None => ext_udmi dst end).

Definition sending (s : biflow) : Z :=
  let size := Z.of_nat (length (bf_queue s)) in
  if bf_infinite s || (size <? bf_can_send s) then size else bf_can_send s.

(** The transaction of [sendall]; its data pointer is that of the queue. *)
Definition send_txn (s : biflow) : payload :=
  let t := match bf_txn s with
           | Some d => deep_copy_from fresh_txn d
           | None => set_data_length (u32 (sending s)) fresh_txn
           end in
  set_data (bf_queue s) (set_streaming_width (u32 (sending s)) t).

(** [sendall]: [deliver] is the transport function of the other side.  It is called
    with the mutex held, so it must not come back to this socket. *)
Definition sendall {M} (deliver : payload -> M -> res (payload * M)) (s : biflow) (m : M) : res (biflow * M) :=
  let s := set_notified false s in
  if 0 <? sending s then
    let? x := deliver (send_txn s) m in
    let '(t, m) := x in
    Ret (set_can_send (u32 (bf_can_send s - sending s)) (set_queue (drop (Z.to_nat (sending s)) (data t)) s), m)
  else Ret (s, m).

(** ** Granting *)

Inductive ctrl_cmd : Type := DELTA_CHANGE | ABSOLUTE_VALUE | INFINITE_VALUE.

Definition ctrl_code (c : ctrl_cmd) : Z :=
  match c with DELTA_CHANGE => 0 | ABSOLUTE_VALUE => 1 | INFINITE_VALUE => 2 end.

Record ctrl : Type := mk_ctrl { ct_cmd : ctrl_cmd; ct_can_send : Z }.

Definition sizeof_ctrl : Z := 8.

(** [send_ctrl]: the structure itself is the data. *)
Definition send_ctrl (c : ctrl) : payload :=
  set_data (store_le 4 (ctrl_code (ct_cmd c)) ++ store_le 4 (ct_can_send c)) (set_data_length sizeof_ctrl fresh_txn).

(** [initiator_ctrl]: a message from the other side. *)
Definition initiator_ctrl (t : payload) (s : biflow) : res biflow :=
  if negb (data_length t =? sizeof_ctrl) then Err StopAssert
  else if (length (data t) <? 8)%nat then Err StopUndef
  else
    let cmd := load_le (take 4 (data t)) in
    let can_send := load_le (take 4 (drop 4 (data t))) in
    let? s := (if cmd =? ctrl_code ABSOLUTE_VALUE then
                 Ret (set_attached (negb (can_send =? 0)) (set_infinite false (set_can_send can_send s)))
               else if cmd =? ctrl_code DELTA_CHANGE then
                 if bf_infinite s then Err StopAssert
                 else Ret (set_infinite false (set_can_send (u32 (bf_can_send s + can_send)) s))
               else if cmd =? ctrl_code INFINITE_VALUE then Ret (set_infinite true s)
               else Err StopFatal) in
    Ret (set_notified true s).

(** The owner of a socket grants: the message goes to the other side, [peer].
    [can_receive_any] leaves the count of the message as it finds it. *)
Definition can_receive_more (i : Z) (peer : biflow) : res biflow :=
  initiator_ctrl (send_ctrl (mk_ctrl DELTA_CHANGE (u32 i))) peer.
Definition can_receive_set (i : Z) (peer : biflow) : res biflow :=
  initiator_ctrl (send_ctrl (mk_ctrl ABSOLUTE_VALUE (u32 i))) peer.
Definition can_receive_any (stack : Z) (peer : biflow) : res biflow :=
  initiator_ctrl (send_ctrl (mk_ctrl INFINITE_VALUE stack)) peer.

(** ** The owner's side *)

Definition enqueue (b : Z) (s : biflow) : biflow := set_notified true (set_queue (bf_queue s ++ [b]) s).

Definition set_default_txn (t : payload) (s : biflow) : biflow :=
  set_txn (Some (deep_copy_from (default fresh_txn (bf_txn s)) t)) s.

Definition force_send {M} (deliver : payload -> M -> res (payload * M)) (t : payload) (m : M) : res (payload * M) :=
  deliver t m.

Definition bf_reset (s : biflow) : biflow := set_queue [] s.

(** ** Binding *)

Definition new_bind (s : biflow) : res unit := if bf_bound s then Err StopFatal else Ret tt.

Definition bind_done (s : biflow) : res biflow := if bf_bound s then Err StopFatal else Ret (set_bound true s).

(** [bind]: only the other side is checked. *)
Definition bind (s other : biflow) : res (biflow * biflow) :=
  let s := set_bound true s in
  let? _ := new_bind other in
  let? other := bind_done other in
  Ret (s, other).

(** ** The router *)

(** [remote]: [rm_sendto] is the index of the remote it sends to, if any. *)
Record remote : Type := mk_remote { rm_socket : biflow; rm_sendto : option nat }.

(** [biflow_router_socket]; [br_binding] is the index of the remote being bound. *)
Record biflow_router : Type := mk_biflow_router {
  br_remotes : list remote;
  br_binding : option nat;
  br_p_sendto : string;
  br_sendto : option nat;
}.

Definition new_biflow_router (sendto : string) : biflow_router := mk_biflow_router [] None sendto None.
Definition new_remote : remote := mk_remote new_biflow None.

Definition set_rm_socket (s : biflow) (r : remote) : remote := mk_remote s (rm_sendto r).
Definition set_sendto (k : nat) (r : remote) : remote := mk_remote (rm_socket r) (Some k).
Definition set_remotes (l : list remote) (r : biflow_router) : biflow_router :=
  mk_biflow_router l (br_binding r) (br_p_sendto r) (br_sendto r).
Definition set_binding (b : option nat) (r : biflow_router) : biflow_router :=
  mk_biflow_router (br_remotes r) b (br_p_sendto r) (br_sendto r).

(** The items of a transaction: [ptr[i]] for [i] below the data length. *)
Definition txn_items (t : payload) : res (list Z) :=
  let n := Z.to_nat (data_length t) in
  if (n <=? length (data t))%nat then Ret (take n (data t)) else Err StopUndef.

Definition enqueue_all (l : list Z) (s : biflow) : biflow := foldl (fun s b => enqueue b s) s l.

(** [&remote != this && (!m_sendto || m_sendto == &remote)]. *)
Definition routes_to (me : nat) (sendto : option nat) (j : nat) : bool :=
  negb (j =? me)%nat && match sendto with None => true | Some k => (k =? j)%nat end.

Fixpoint route_loop (me : nat) (sendto : option nat) (t : payload) (j : nat) (rs : list remote) (sent : bool)
  : res (list remote * bool) :=
  match rs with
  | [] => Ret ([], sent)
  | r :: rs' =>
      if routes_to me sendto j then
        let? items := txn_items t in
        let? x := route_loop me sendto t (S j) rs' true in
        Ret (set_rm_socket (enqueue_all items (set_default_txn t (rm_socket r))) r :: x.1, x.2)
      else
        let? x := route_loop me sendto t (S j) rs' sent in
        Ret (r :: x.1, x.2)
  end.

(** [route_data] of the remote [me].  The warning that nothing was sent names
    [m_sendto], which may be null. *)
Definition route_data (me : nat) (t : payload) (r : biflow_router) : res biflow_router :=
  match br_remotes r !! me with
  | None => Err StopUndef
  | Some this =>
      let? x := route_loop me (rm_sendto this) t 0 (br_remotes r) false in
      if negb x.2 && bool_decide (rm_sendto this = None) then Err StopUndef
      else Ret (set_remotes x.1 r)
  end.

(** [sendto_setup (other, remote)]. *)
Definition sendto_setup (other : string) (k : nat) (r : biflow_router) : biflow_router :=
  if (String.length (br_p_sendto r) =? 0)%nat then r
  else match br_sendto r with
       | Some d => set_remotes (alter (set_sendto d) k (br_remotes r)) r
       | None =>
           if String.prefix (br_p_sendto r) other then
             mk_biflow_router (imap (fun j x => if (j =? k)%nat then x else set_sendto k x) (br_remotes r))
               (br_binding r) (br_p_sendto r) (Some k)
           else r
       end.

(** [new_bind] and [bind_done], called when a socket named [other] binds to the router;
    [bind_done] grants that socket, [peer], any number of items. *)
Definition router_new_bind (other : string) (r : biflow_router) : res biflow_router :=
  let k := length (br_remotes r) in
  let r := set_binding (Some k) (set_remotes (br_remotes r ++ [new_remote]) r) in
  let? _ := new_bind (rm_socket new_remote) in
  Ret (sendto_setup other k r).

Definition router_bind_done (stack : Z) (peer : biflow) (r : biflow_router) : res (biflow_router * biflow) :=
  match br_binding r with
  | None => Err StopAssert
  | Some k =>
      match br_remotes r !! k with
      | None => Err StopUndef
      | Some x =>
          let? s := bind_done (rm_socket x) in
          let? peer := can_receive_any stack peer in
          Ret (set_binding None (set_remotes (<[k:=set_rm_socket s x]> (br_remotes r)) r), peer)
      end
  end.

(** [socket.bind (router)]: the socket [s] named [nm] binds itself to the router. *)
Definition bind_to_router (stack : Z) (nm : string) (s : biflow) (r : biflow_router) : res (biflow_router * biflow) :=
  let s := set_bound true s in
  let? r := router_new_bind nm r in
  router_bind_done stack s r.

(** [router.bind (socket)]. *)
Definition router_bind (stack : Z) (nm : string) (other : biflow) (r : biflow_router) : res (biflow_router * biflow) :=
  let k := length (br_remotes r) in
  let? x := bind (rm_socket new_remote) other in
  let '(s, other) := x in
  let r := set_remotes (br_remotes r ++ [set_rm_socket s new_remote]) r in
  let? other := can_receive_any stack other in
  Ret (sendto_setup nm k (set_binding None r), other).

(** A run of [sendall] of the remote [k]. *)
Definition router_sendall {M} (deliver : payload -> M -> res (payload * M)) (k : nat) (r : biflow_router) (m : M)
  : res (biflow_router * M) :=
  match br_remotes r !! k with
  | None => Err StopUndef
  | Some x => let? y := sendall deliver (rm_socket x) m in
              Ret (set_remotes (<[k:=set_rm_socket y.1 x]> (br_remotes r)) r, y.2)
  end.

(** ** A socket that many may bind to *)

(** [biflow_socket_multi]: the owner's socket behind a router that sends all data to it. *)
Record biflow_multi : Type := mk_biflow_multi { mu_main : biflow; mu_router : biflow_router }.

(** The constructor; [main] is the name of the owner's socket. *)
Definition new_biflow_multi (stack : Z) (main : string) : res biflow_multi :=
  let? x := router_bind stack main new_biflow (new_biflow_router main) in
  Ret (mk_biflow_multi x.2 x.1).

(** Other sockets bind to it ([inward]) or it binds to them. *)
Definition multi_bind (stack : Z) (inward : bool) (nm : string) (s : biflow) (m : biflow_multi)
  : res (biflow_multi * biflow) :=
  let? x := (if inward then bind_to_router else router_bind) stack nm s (mu_router m) in
  Ret (mk_biflow_multi (mu_main m) x.1, x.2).

(** The owner's operations are those of its own socket; what it grants goes to the remote
    that is bound to it, the first. *)
Definition multi_enqueue (b : Z) (m : biflow_multi) : biflow_multi :=
  mk_biflow_multi (enqueue b (mu_main m)) (mu_router m).
Definition multi_reset (m : biflow_multi) : biflow_multi :=
  mk_biflow_multi (bf_reset (mu_main m)) (mu_router m).
Definition multi_set_default_txn (t : payload) (m : biflow_multi) : biflow_multi :=
  mk_biflow_multi (set_default_txn t (mu_main m)) (mu_router m).
Definition multi_can_receive (grant : biflow -> res biflow) (m : biflow_multi) : res biflow_multi :=
  match br_remotes (mu_router m) !! 0%nat with
  | None => Err StopUndef
  | Some x => let? s := grant (rm_socket x) in
              Ret (mk_biflow_multi (mu_main m)
                     (set_remotes (<[0%nat:=set_rm_socket s x]> (br_remotes (mu_router m))) (mu_router m)))
  end.

(** A run of the owner's [sendall], which reaches the router through the first remote. *)
Definition multi_sendall (m : biflow_multi) : res biflow_multi :=
  let? x := sendall (fun t r => let? r := route_data 0 t r in Ret (t, r)) (mu_main m) (mu_router m) in
  Ret (mk_biflow_multi x.1 x.2).

(** * The operations of a socket *)

Lemma load_take4 a b : load_le (take 4 (store_le 4 a ++ store_le 4 b)) = u32 a.
Proof. rewrite take_app_le by (by rewrite length_store_le). rewrite firstn_all2 by (by rewrite length_store_le). by rewrite load_store_le. Qed.

Lemma load_drop4 a b : load_le (take 4 (drop 4 (store_le 4 a ++ store_le 4 b))) = u32 b.
Proof.
  rewrite (drop_app_length' (store_le 4 a)) by (by rewrite length_store_le).
  rewrite firstn_all2 by (by rewrite length_store_le). by rewrite load_store_le.
Qed.

(** What a message does that was built by [send_ctrl]. *)
Lemma initiator_ctrl_send c s :
  initiator_ctrl (send_ctrl c) s =
  let? s := match ct_cmd c with
            | ABSOLUTE_VALUE => Ret (set_attached (negb (u32 (ct_can_send c) =? 0))
                                       (set_infinite false (set_can_send (u32 (ct_can_send c)) s)))
            | DELTA_CHANGE => if bf_infinite s then Err StopAssert
                              else Ret (set_infinite false (set_can_send (u32 (bf_can_send s + u32 (ct_can_send c))) s))
            | INFINITE_VALUE => Ret (set_infinite true s)
            end in
  Ret (set_notified true s).
Proof.
  unfold initiator_ctrl, send_ctrl. cbn [data set_data data_length set_data_length].
  rewrite Z.eqb_refl, length_app, !length_store_le, load_take4, load_drop4. by destruct (ct_cmd c).
Qed.

Lemma u32_idem z : u32 (u32 z) = u32 z.
Proof. apply Z.mod_mod. lia. Qed.

Lemma can_receive_set_ok i s : 0 <= i < 2 ^ 32 ->
  can_receive_set i s = Ret (set_notified true (set_attached (negb (i =? 0)) (set_infinite false (set_can_send i s)))).
Proof. intros Hi. unfold can_receive_set. rewrite initiator_ctrl_send. cbn [ct_cmd ct_can_send rbind]. by rewrite u32_idem, (wrap_small 32 i). Qed.

Lemma can_receive_more_ok i s : 0 <= i -> 0 <= bf_can_send s -> bf_can_send s + i < 2 ^ 32 -> bf_infinite s = false ->
  can_receive_more i s = Ret (set_notified true (set_can_send (bf_can_send s + i) s)).
Proof.
  intros Hi Hc Hb Hf. unfold can_receive_more. rewrite initiator_ctrl_send. cbn [ct_cmd ct_can_send]. rewrite Hf, u32_idem.
  rewrite (wrap_small 32 i), wrap_small by (unfold in_width; lia). cbn [rbind]. f_equal. unfold set_notified, set_infinite, set_can_send; cbn. by rewrite Hf.
Qed.

Lemma can_receive_any_ok i s : can_receive_any i s = Ret (set_notified true (set_infinite true s)).
Proof. unfold can_receive_any. by rewrite initiator_ctrl_send. Qed.

(** A run of [sendall] is due whenever there is something that may be sent. *)
Definition awake (s : biflow) : Prop :=
  bf_notified s = true \/ sending s = 0.

(** The widths of the fields, and no sleeping with work to do. *)
Definition bf_ok (s : biflow) : Prop := 0 <= bf_can_send s < 2 ^ 32 /\ awake s.

Lemma sending_notified b s : sending (set_notified b s) = sending s.
Proof. done. Qed.

Lemma sending_bound s : 0 <= bf_can_send s -> 0 <= sending s <= Z.of_nat (length (bf_queue s)).
Proof. intros H. unfold sending. destruct (bf_infinite s); cbn [orb]; [lia|]. destruct (Z.ltb_spec (Z.of_nat (length (bf_queue s))) (bf_can_send s)); lia. Qed.

Lemma sending_credit s : bf_infinite s = false -> sending s = Z.min (Z.of_nat (length (bf_queue s))) (bf_can_send s).
Proof. intros H. unfold sending. rewrite H; cbn [orb]. destruct (Z.ltb_spec (Z.of_nat (length (bf_queue s))) (bf_can_send s)); lia. Qed.

(** [sendall] hands over the first items of the queue, as many as may be sent, to a receiver
    that does not write to them; then nothing is left to send. *)
Lemma sendall_ok {M} (deliver : payload -> M -> res (payload * M)) s m m' t :
  0 <= bf_can_send s < 2 ^ 32 -> (0 < sending s -> deliver (send_txn s) m = Ret (t, m') /\ data t = bf_queue s) ->
  (sending s = 0 -> m' = m) ->
  exists s', sendall deliver s m = Ret (s', m') /\ bf_queue s' = drop (Z.to_nat (sending s)) (bf_queue s) /\
    bf_infinite s' = bf_infinite s /\ (bf_infinite s = false -> bf_can_send s' = bf_can_send s - sending s) /\
    0 <= bf_can_send s' < 2 ^ 32 /\ sending s' = 0 /\ bf_txn s' = bf_txn s /\ bf_notified s' = false.
Proof.
  intros Hc Hd Hz. pose proof (sending_bound s (proj1 Hc)) as Hs. unfold sendall. rewrite sending_notified.
  destruct (Z.ltb_spec 0 (sending s)) as [Hlt|Hge].
  - destruct (Hd Hlt) as [Hdel Hdat]. change (send_txn (set_notified false s)) with (send_txn s). rewrite Hdel. cbn [rbind].
    eexists; split; [done|]. rewrite Hdat. cbn [set_can_send set_queue bf_queue bf_infinite bf_can_send bf_txn bf_notified set_notified].
    assert (bf_infinite s = false -> u32 (bf_can_send s - sending s) = bf_can_send s - sending s) as Hu.
    { intros Hi. rewrite (sending_credit s Hi) in *. apply Z.mod_small. lia. }
    repeat split; [done|apply Z.mod_pos_bound; lia|apply Z.mod_pos_bound; lia|].
    unfold sending at 1. cbn [set_can_send set_queue bf_queue bf_infinite bf_can_send set_notified]. rewrite length_drop.
    destruct (bf_infinite s) eqn:Hi; cbn [orb].
    { unfold sending. rewrite Hi. cbn [orb]. lia. }
    rewrite Hu by done. rewrite (sending_credit s Hi) in *.
    destruct (Z.ltb_spec (Z.of_nat (length (bf_queue s) - Z.to_nat (Z.min (Z.of_nat (length (bf_queue s))) (bf_can_send s))))
      (bf_can_send s - Z.min (Z.of_nat (length (bf_queue s))) (bf_can_send s))); lia.
  - assert (sending s = 0) as E by lia. rewrite (Hz E). eexists; split; [done|]. rewrite E. cbn. repeat split; try done; lia.
Qed.

(** ** Histories of a socket *)

(** What can happen to a socket, in any order: its owner enqueues, resets or sets the
    default transaction, the other side grants, [sendall] runs. *)
Inductive bf_op : Type :=
| OpEnqueue (b : Z)
| OpDefault (t : payload)
| OpReset
| OpMore (i : Z)
| OpSet (i : Z)
| OpAny (stack : Z)
| OpSendall.

(** The other side keeps the items of the transactions: [streaming_width] of each, as the UARTs and the
    back ends take them, or [data_length] of each, as a router and the monitor do. *)
Definition collect_by (width : payload -> Z) (t : payload) (got : list Z) : res (payload * list Z) :=
  let n := Z.to_nat (width t) in
  if (n <=? length (data t))%nat then Ret (t, got ++ take n (data t)) else Err StopUndef.

Definition collect : payload -> list Z -> res (payload * list Z) := collect_by streaming_width.

Section Histories.
Variable width : payload -> Z.

Definition bf_step (op : bf_op) (s : biflow) (got : list Z) : res (biflow * list Z) :=
  match op with
  | OpEnqueue b => Ret (enqueue b s, got)
  | OpDefault t => Ret (set_default_txn t s, got)
  | OpReset => Ret (bf_reset s, got)
  | OpMore i => let? s := can_receive_more i s in Ret (s, got)
  | OpSet i => let? s := can_receive_set i s in Ret (s, got)
  | OpAny i => let? s := can_receive_any i s in Ret (s, got)
  | OpSendall => sendall (collect_by width) s got
  end.

Fixpoint bf_run (ops : list bf_op) (s : biflow) (got : list Z) : res (biflow * list Z) :=
  match ops with
  | [] => Ret (s, got)
  | op :: ops' => let? x := bf_step op s got in bf_run ops' x.1 x.2
  end.

End Histories.

(** *** What is promised *)

(** A queue and a credit, [None] for no limit; [out] is what has been sent. *)
Record flow : Type := mk_flow { fl_queue : list Z; fl_credit : option Z; fl_out : list Z }.

Definition fl_sending (f : flow) : nat :=
  match fl_credit f with Some c => Z.to_nat (Z.min c (Z.of_nat (length (fl_queue f)))) | None => length (fl_queue f) end.

Definition flow_step (op : bf_op) (f : flow) : flow :=
  match op with
  | OpEnqueue b => mk_flow (fl_queue f ++ [b]) (fl_credit f) (fl_out f)
  | OpDefault _ => f
  | OpReset => mk_flow [] (fl_credit f) (fl_out f)
  | OpMore i => mk_flow (fl_queue f) ((fun c => c + i) <$> fl_credit f) (fl_out f)
  | OpSet i => mk_flow (fl_queue f) (Some i) (fl_out f)
  | OpAny _ => mk_flow (fl_queue f) None (fl_out f)
  | OpSendall =>
      mk_flow (drop (fl_sending f) (fl_queue f)) ((fun c => c - Z.of_nat (fl_sending f)) <$> fl_credit f)
        (fl_out f ++ take (fl_sending f) (fl_queue f))
  end.

Definition flow_run (ops : list bf_op) (f : flow) : flow := foldl (fun f op => flow_step op f) f ops.

(** Counts have 32 bits, and there is no increment while there is no limit. *)
Definition op_legal (op : bf_op) (f : flow) : Prop :=
  match op with
  | OpEnqueue _ => Z.of_nat (length (fl_queue f)) + 1 < 2 ^ 32
  | OpMore i => 0 <= i /\ match fl_credit f with Some c => c + i < 2 ^ 32 | None => False end
  | OpSet i => 0 <= i < 2 ^ 32
  | _ => True
  end.

Fixpoint legal (ops : list bf_op) (f : flow) : Prop :=
  match ops with
  | [] => True
  | op :: ops' => op_legal op f /\ legal ops' (flow_step op f)
  end.

Definition enqueued (op : bf_op) : list Z := match op with OpEnqueue b => [b] | _ => [] end.
Definition all_enqueued (ops : list bf_op) : list Z := concat (map enqueued ops).

Definition flow_of (s : biflow) (out : list Z) : flow := mk_flow (bf_queue s) (if bf_infinite s then None else Some (bf_can_send s)) out.

Lemma send_txn_width s : 0 <= sending s < 2 ^ 32 ->
  streaming_width (send_txn s) = sending s /\ data (send_txn s) = bf_queue s.
Proof.
  intros Hs. unfold send_txn.
  split; [|done]. cbn [streaming_width set_data set_streaming_width]. apply wrap_small. unfold in_width. lia.
Qed.

(** The receiver sees how many items are sent. *)
Definition sees (width : payload -> Z) (s : biflow) : Prop := width = streaming_width \/ width = data_length /\ bf_txn s = None.

Lemma sees_sending width s : sees width s -> 0 <= sending s < 2 ^ 32 -> width (send_txn s) = sending s.
Proof.
  intros [->|[-> Ht]] Hs; [by apply send_txn_width|]. unfold send_txn. rewrite Ht. cbn [data_length set_data set_streaming_width set_data_length].
  apply wrap_small. unfold in_width. lia.
Qed.

(** [sendall] to a receiver that keeps what it gets. *)
Lemma sendall_collect_by width s got : 0 <= bf_can_send s < 2 ^ 32 -> Z.of_nat (length (bf_queue s)) < 2 ^ 32 -> sees width s ->
  exists s', sendall (collect_by width) s got = Ret (s', got ++ take (Z.to_nat (sending s)) (bf_queue s)) /\
    bf_queue s' = drop (Z.to_nat (sending s)) (bf_queue s) /\ bf_infinite s' = bf_infinite s /\
    (bf_infinite s = false -> bf_can_send s' = bf_can_send s - sending s) /\ bf_ok s' /\ bf_txn s' = bf_txn s.
Proof.
  intros Hc Hq Hw. pose proof (sending_bound s (proj1 Hc)) as Hb.
  destruct (sendall_ok (collect_by width) s got (got ++ take (Z.to_nat (sending s)) (bf_queue s)) (send_txn s)) as (s' & Hs & Hqu & Hinf & Hcs & Hr & Hz & Ht & _).
  { done. }
  { intros _. split; [|done]. unfold collect_by. rewrite (sees_sending width s Hw) by lia. change (data (send_txn s)) with (bf_queue s). by rewrite (proj2 (Nat.leb_le _ _)) by lia. }
  { intros ->. by rewrite take_0, app_nil_r. }
  exists s'. split_and!; try done. split; [done|by right].
Qed.

Lemma sendall_collect s got : 0 <= bf_can_send s < 2 ^ 32 -> Z.of_nat (length (bf_queue s)) < 2 ^ 32 ->
  exists s', sendall collect s got = Ret (s', got ++ take (Z.to_nat (sending s)) (bf_queue s)) /\
    bf_queue s' = drop (Z.to_nat (sending s)) (bf_queue s) /\ bf_infinite s' = bf_infinite s /\
    (bf_infinite s = false -> bf_can_send s' = bf_can_send s - sending s) /\ bf_ok s'.
Proof. intros Hc Hq. destruct (sendall_collect_by streaming_width s got Hc Hq) as (s' & H); [by left|]. exists s'. tauto. Qed.

Lemma flow_sending s out : 0 <= bf_can_send s -> fl_sending (flow_of s out) = Z.to_nat (sending s).
Proof.
  intros Hc. unfold fl_sending, flow_of. cbn. destruct (bf_infinite s) eqn:Hf; [unfold sending; rewrite Hf; cbn; lia|]. rewrite (sending_credit s Hf). f_equal. lia.
Qed.

(** One step does what is promised. *)
Lemma flow_step_refines width op s got out :
  bf_ok s -> Z.of_nat (length (bf_queue s)) < 2 ^ 32 -> sees width s -> (forall t, op = OpDefault t -> width = streaming_width) -> op_legal op (flow_of s out) ->
  exists s' o, bf_step width op s got = Ret (s', got ++ o) /\ bf_ok s' /\ Z.of_nat (length (bf_queue s')) < 2 ^ 32 /\ sees width s' /\
    flow_step op (flow_of s out) = flow_of s' (out ++ o).
Proof.
  intros [Hc Ha] Hq Hw Hd Hl. destruct op as [b|t| |i|i|i|]; cbn [bf_step op_legal] in *.
  - exists (enqueue b s), []. cbn in Hl. rewrite !app_nil_r. split_and!; [done|split; [done|by left]|cbn; rewrite length_app; cbn; lia|done|done].
  - exists (set_default_txn t s), []. rewrite !app_nil_r. split_and!; try done. left. by eapply Hd.
  - exists (bf_reset s), []. rewrite !app_nil_r. split_and!; [done| |cbn; lia|done|done]. split; [done|right].
    pose proof (sending_bound (bf_reset s) (proj1 Hc)) as H. cbn in H. lia.
  - unfold flow_of in Hl |- *. cbn in Hl. destruct (bf_infinite s) eqn:Hf; [naive_solver|]. destruct Hl as [Hi Hl]. rewrite can_receive_more_ok by (done || lia). cbn [rbind].
    eexists _, []. rewrite !app_nil_r. split_and!; [done|split; [cbn; lia|by left]|done|done|]. cbn. by rewrite Hf.
  - rewrite can_receive_set_ok by done. cbn [rbind]. eexists _, []. rewrite !app_nil_r. split_and!; [done|split; [cbn; lia|by left]|done|done|done].
  - rewrite can_receive_any_ok. cbn [rbind]. eexists _, []. rewrite !app_nil_r. split_and!; [done|split; [done|by left]|done|done|done].
  - destruct (sendall_collect_by width s got Hc Hq Hw) as (s' & Hs & Hqu & Hinf & Hcs & Hok & Ht). pose proof (sending_bound s (proj1 Hc)).
    exists s', (take (Z.to_nat (sending s)) (bf_queue s)). split_and!; [done|done|rewrite Hqu, length_drop; lia|unfold sees; by rewrite Ht|].
    cbn [flow_step]. rewrite flow_sending by lia. unfold flow_of. cbn. rewrite Hqu, Hinf. destruct (bf_infinite s) eqn:Hf; [done|]. cbn. rewrite (Hcs eq_refl). do 2 f_equal. lia.
Qed.

Lemma flow_run_refines width ops : forall s got out,
  bf_ok s -> Z.of_nat (length (bf_queue s)) < 2 ^ 32 -> sees width s -> (forall t, OpDefault t ∈ ops -> width = streaming_width) -> legal ops (flow_of s out) ->
  exists s' o, bf_run width ops s got = Ret (s', got ++ o) /\ bf_ok s' /\ flow_run ops (flow_of s out) = flow_of s' (out ++ o).
Proof.
  induction ops as [|op ops IH]; intros s got out Hs Hq Hw Hd Hl; cbn [bf_run legal] in *; [exists s, []; by rewrite !app_nil_r|]. destruct Hl as [Hop Hl].
  destruct (flow_step_refines width op s got out) as (s1 & o1 & E1 & Hs1 & Hq1 & Hw1 & F1); try done; [intros t ->; apply (Hd t); by left|].
  rewrite E1. cbn [rbind fst snd]. unfold flow_run. cbn [foldl]. fold (flow_run ops (flow_step op (flow_of s out))). rewrite F1 in *.
  destruct (IH s1 (got ++ o1) (out ++ o1)) as (s2 & o2 & E2 & Hs2 & F2); try done; [intros t Ht; apply (Hd t); by right|].
  exists s2, (o1 ++ o2). by rewrite E2, F2, !app_assoc.
Qed.

(** What is promised keeps the order, if nothing is thrown away. *)
Lemma flow_run_order ops : forall f, OpReset ∉ ops -> fl_out (flow_run ops f) ++ fl_queue (flow_run ops f) = fl_out f ++ fl_queue f ++ all_enqueued ops.
Proof.
  induction ops as [|op ops IH]; intros f Hr; unfold flow_run, all_enqueued; cbn [foldl map concat]; [by rewrite app_nil_r|].
  fold (flow_run ops (flow_step op f)). fold (all_enqueued ops). rewrite IH by (intros H; apply Hr; by right).
  destruct op; cbn; rewrite ?app_nil_r; try done; [by rewrite <- !app_assoc|destruct Hr; by left|]. rewrite <- app_assoc. f_equal. rewrite app_assoc. by rewrite take_drop.
Qed.

(** C37: Flow control of a serial socket.  Whatever the order in which the owner enqueues and resets,
    the other side grants (more items, a number of items, any number) and the sending process runs,
    the socket sends as a queue with a credit does: items in the order in which they were enqueued,
    each once, none lost but those that a reset throws away, and never more than the credit that the
    last grants leave; no assertion fails, and whenever something may be sent a run of the sending
    process is due.  Counts have 32 bits, and the other side does not grant an increment while it
    has granted any number.  The receiver goes by [streaming_width]; one that goes by [data_length]
    gets the same as long as no default transaction is set ([routed_length_mismatch]). *)
Theorem biflow_flow_control width ops s got :
  bf_ok s -> Z.of_nat (length (bf_queue s)) < 2 ^ 32 -> sees width s -> (forall t, OpDefault t ∈ ops -> width = streaming_width) -> legal ops (flow_of s []) ->
  exists s' out, bf_run width ops s got = Ret (s', got ++ out) /\ bf_ok s' /\ flow_of s' out = flow_run ops (flow_of s []) /\
    (OpReset ∉ ops -> out ++ bf_queue s' = bf_queue s ++ all_enqueued ops).
Proof.
  intros Hs Hq Hw Hd Hl. destruct (flow_run_refines width ops s got []) as (s' & out & E & Hs' & F); try done. exists s', out. split_and!; try done.
  intros Hr. pose proof (flow_run_order ops (flow_of s []) Hr) as H. rewrite F in H. exact H.
Qed.

(** Two bytes are enqueued, one may be sent; later any number may. *)
Definition ex_history : list bf_op := [OpEnqueue 104; OpSet 1; OpEnqueue 105; OpSendall; OpEnqueue 106; OpAny 7; OpSendall].

Lemma biflow_flow_control_witness :
  flow_run (take 4 ex_history) (flow_of new_biflow []) = mk_flow [105] (Some 0) [104] /\
  exists s' out, bf_run data_length ex_history new_biflow [] = Ret (s', [] ++ out) /\ bf_ok s' /\
    flow_of s' out = flow_run ex_history (flow_of new_biflow []) /\ (OpReset ∉ ex_history -> out ++ bf_queue s' = [104; 105; 106]).
Proof.
  split; [reflexivity|]. apply (biflow_flow_control data_length ex_history new_biflow []).
  - split; [done|by right].
  - done.
  - right. by split.
  - intros t Ht. unfold ex_history in Ht. rewrite !elem_of_cons, elem_of_nil in Ht. naive_solver.
  - vm_compute. repeat split; discriminate.
Defined.

(** ** Any history keeps a socket awake *)

Lemma sending_empty s : 0 <= bf_can_send s -> bf_queue s = [] -> sending s = 0.
Proof. intros Hc Hq. pose proof (sending_bound s Hc) as H. rewrite Hq in H. cbn in H. lia. Qed.

(** Whatever happens to a socket, it does not sleep with something to send. *)
Lemma bf_step_ok op s got s' got' :
  bf_ok s -> Z.of_nat (length (bf_queue s)) < 2 ^ 32 -> bf_step streaming_width op s got = Ret (s', got') -> bf_ok s'.
Proof.
  intros [Hc Ha] Hq. destruct op; cbn [bf_step].
  - intros [= <- <-]. split; [done|by left].
  - intros [= <- <-]. by split.
  - intros [= <- <-]. split; [done|]. right. apply sending_empty; [apply Hc|done].
  - unfold can_receive_more. rewrite initiator_ctrl_send. cbn [ct_cmd ct_can_send].
    destruct (bf_infinite s); cbn [rbind]; [done|]. intros [= <- <-]. split; [apply u32_range|by left].
  - unfold can_receive_set. rewrite initiator_ctrl_send. intros [= <- <-]. split; [apply u32_range|by left].
  - rewrite can_receive_any_ok. intros [= <- <-]. split; [done|by left].
  - change (collect_by streaming_width) with collect. destruct (sendall_collect s got Hc Hq) as (s1 & -> & _ & _ & _ & Hok). by intros [= <- _].
Qed.

(** ** Routing *)

Lemma prefix_refl s : String.prefix s s = true.
Proof. induction s as [|a s IH]; [done|]. cbn. by destruct (Ascii.ascii_dec a a). Qed.

(** What a remote receives from [route_data]. *)
Definition routed (t : payload) (items : list Z) (x : remote) : remote :=
  set_rm_socket (enqueue_all items (set_default_txn t (rm_socket x))) x.

Lemma enqueue_all_queue items s :
  bf_queue (enqueue_all items s) = bf_queue s ++ items /\ (items <> [] -> bf_notified (enqueue_all items s) = true).
Proof.
  revert s. induction items as [|b items IH]; intros s; [by rewrite app_nil_r|].
  change (enqueue_all (b :: items) s) with (enqueue_all items (enqueue b s)).
  destruct (IH (enqueue b s)) as [-> Hn]. split; [by rewrite <- (app_assoc (bf_queue s) [b])|]. intros _.
  destruct items; [done|by apply Hn].
Qed.

Lemma route_loop_ok me sendto t items rs : txn_items t = Ret items -> forall j sent,
  route_loop me sendto t j rs sent =
  Ret (imap (fun i x => if routes_to me sendto (j + i) then routed t items x else x) rs,
       sent || existsb (routes_to me sendto) (seq j (length rs))).
Proof.
  intros Hi. induction rs as [|x rs IH]; intros j sent; cbn [route_loop imap length seq existsb]; [by rewrite orb_false_r|].
  rewrite Nat.add_0_r, Hi. cbn [rbind]. rewrite !IH. cbn [rbind fst snd].
  rewrite (imap_ext (fun i x => if routes_to me sendto (S j + i) then routed t items x else x)
    ((fun i x => if routes_to me sendto (j + i) then routed t items x else x) ∘ S)) by (intros; cbn; by rewrite Nat.add_succ_r).
  destruct (routes_to me sendto j); cbn [orb]; [by rewrite orb_true_r|done].
Qed.

(** [route_data] gives the items to the remotes it is for, and leaves the others alone. *)
Lemma route_data_ok me this t items r k0 :
  br_remotes r !! me = Some this -> txn_items t = Ret items -> (k0 < length (br_remotes r))%nat ->
  routes_to me (rm_sendto this) k0 = true ->
  route_data me t r =
    Ret (set_remotes (imap (fun k x => if routes_to me (rm_sendto this) k then routed t items x else x) (br_remotes r)) r).
Proof.
  intros Hme Hi Hk Hr. unfold route_data. rewrite Hme, (route_loop_ok _ _ _ items) by done. cbn [rbind fst snd orb].
  replace (existsb _ _) with true; [done|]. symmetry. apply existsb_exists. exists k0. split; [|done]. apply in_seq. lia.
Qed.

(** The router of a [biflow_socket_multi]: the first remote is the owner's and sends to all
    the others, which send to it alone. *)
Record star (r : biflow_router) : Prop := {
  star_named : br_p_sendto r <> EmptyString;
  star_sendto : br_sendto r = Some 0%nat;
  star_remotes : exists n, rm_sendto <$> br_remotes r = None :: replicate n (Some 0%nat);
}.

(** Traffic does not change where a remote sends. *)
Lemma star_traffic r l : star r -> rm_sendto <$> l = rm_sendto <$> br_remotes r -> star (set_remotes l r).
Proof. intros [Hn Hs Hr] E. split; [done|done|]. cbn. by rewrite E. Qed.

Lemma fmap_insert_same {A B} (f : A -> B) (l : list A) k x y : l !! k = Some x -> f y = f x -> f <$> <[k:=y]> l = f <$> l.
Proof. intros Hk E. rewrite list_fmap_insert, E. apply list_insert_id. by rewrite list_lookup_fmap, Hk. Qed.

Lemma star_route_data me t r r' : star r -> route_data me t r = Ret r' -> star r'.
Proof.
  intros Hs. unfold route_data. destruct (br_remotes r !! me) as [x|]; [|done]. destruct (txn_items t) as [items|e] eqn:Hi.
  - rewrite (route_loop_ok _ _ _ items) by done. cbn [rbind fst snd]. destruct (_ && _); [done|]. intros [= <-].
    apply star_traffic; [done|]. rewrite fmap_imap. rewrite <- (imap_const rm_sendto).
    apply imap_ext. intros i y _. cbn. by destruct (routes_to _ _ _).
  - destruct (route_loop _ _ _ _ _ _) as [[l b]|] eqn:Hl; cbn [rbind fst snd]; [|done]. destruct (_ && _); [done|]. intros [= <-].
    apply star_traffic; [done|]. clear -Hi Hl. revert Hl. generalize 0%nat, false, l, b.
    induction (br_remotes r) as [|y rs IH]; intros j s l' b'; cbn [route_loop]; [by intros [= <- <-]|].
    rewrite Hi. destruct (routes_to _ _ _); cbn [rbind]; [done|].
    destruct (route_loop _ _ _ _ rs _) as [[l1 b1]|] eqn:H1; cbn [rbind fst snd]; [|done]. intros [= <- <-].
    cbn. by rewrite (IH _ _ _ _ H1).
Qed.

(** Binding one more socket, from either side. *)
Lemma multi_bind_star stack inward nm s m :
  star (mu_router m) -> bf_bound s = false ->
  exists m', multi_bind stack inward nm s m =
      Ret (m', set_notified true (set_infinite true (set_bound true s))) /\
    star (mu_router m') /\ mu_main m' = mu_main m /\
    br_remotes (mu_router m') = br_remotes (mu_router m) ++ [mk_remote (set_bound true new_biflow) (Some 0%nat)].
Proof.
  intros [Hn Hs (n & Hr)] Hb. destruct m as [main r]. cbn [mu_router mu_main] in *.
  assert ((String.length (br_p_sendto r) =? 0)%nat = false) as Hl by (destruct (br_p_sendto r); done).
  assert (forall r' : biflow_router, br_p_sendto r' = br_p_sendto r -> br_sendto r' = Some 0%nat ->
    br_remotes r' = br_remotes r ++ [mk_remote (set_bound true new_biflow) (Some 0%nat)] -> star r') as Hstar.
  { intros r' Hp Hs' E. split; [by rewrite Hp|done|]. exists (S n). rewrite E, fmap_app, Hr. cbn [fmap list_fmap app rm_sendto].
    by rewrite replicate_S_end. }
  unfold multi_bind. destruct inward; cbn [mu_router mu_main].
  - unfold bind_to_router, router_new_bind. cbn [rbind new_bind rm_socket new_remote bf_bound new_biflow].
    unfold sendto_setup. cbn [set_binding set_remotes br_p_sendto br_sendto br_remotes br_binding]. rewrite Hl, Hs.
    unfold router_bind_done. cbn [set_binding set_remotes br_p_sendto br_sendto br_remotes br_binding].
    rewrite alter_app_r_alt, Nat.sub_diag by lia. rewrite lookup_app_r, Nat.sub_diag by lia. cbn [alter list_alter lookup list_lookup].
    cbn [rm_socket set_sendto new_remote bind_done bf_bound new_biflow rbind]. rewrite can_receive_any_ok. cbn [rbind fst snd].
    rewrite insert_app_r_alt, Nat.sub_diag by lia. eexists. split; [done|]. split; [by apply Hstar|done].
  - unfold router_bind, bind, new_bind, bind_done. rewrite Hb. cbn [rbind rm_socket new_remote]. rewrite can_receive_any_ok.
    cbn [rbind]. unfold sendto_setup. cbn [set_binding set_remotes br_p_sendto br_sendto br_remotes br_binding]. rewrite Hl, Hs.
    cbn [rbind fst snd]. rewrite alter_app_r_alt, Nat.sub_diag by lia. eexists. split; [done|]. split; [by apply Hstar|done].
Qed.

(** The states of a [biflow_socket_multi] whose owner's socket is named [main]: other sockets
    bind, the router's remotes receive, send and are granted, the owner uses its socket. *)
Inductive multi_reachable (main : string) : biflow_multi -> Prop :=
| multi_new stack m : new_biflow_multi stack main = Ret m -> multi_reachable main m
| multi_bound stack inward nm s m m' s' :
    multi_reachable main m -> multi_bind stack inward nm s m = Ret (m', s') -> multi_reachable main m'
| multi_data k t m r :
    multi_reachable main m -> route_data k t (mu_router m) = Ret r -> multi_reachable main (mk_biflow_multi (mu_main m) r)
| multi_sent M (deliver : payload -> M -> res (payload * M)) k m r w w' :
    multi_reachable main m -> router_sendall deliver k (mu_router m) w = Ret (r, w') ->
    multi_reachable main (mk_biflow_multi (mu_main m) r)
| multi_granted (k : nat) (c : ctrl) x s m :
    multi_reachable main m -> br_remotes (mu_router m) !! k = Some x -> initiator_ctrl (send_ctrl c) (rm_socket x) = Ret s ->
    multi_reachable main
      (mk_biflow_multi (mu_main m) (set_remotes (<[k:=set_rm_socket s x]> (br_remotes (mu_router m))) (mu_router m)))
| multi_owner s m : multi_reachable main m -> multi_reachable main (mk_biflow_multi s (mu_router m))
| multi_owner_sends m m' : multi_reachable main m -> multi_sendall m = Ret m' -> multi_reachable main m'.

Lemma multi_bind_bound stack inward nm s m x : multi_bind stack inward nm s m = Ret x -> inward = false -> bf_bound s = false.
Proof.
  intros H ->. unfold multi_bind, router_bind, bind, new_bind in H. by destruct (bf_bound s).
Qed.

(** Binding fails on nothing but a socket that the router binds to and that is bound. *)
Lemma multi_bind_inward stack nm s m : multi_bind stack true nm s m = multi_bind stack true nm (set_bound false s) m.
Proof. done. Qed.

Lemma star_reachable main m : main <> EmptyString -> multi_reachable main m -> star (mu_router m).
Proof.
  intros Hn. induction 1 as [stack m H|stack inward nm s m m' s' _ IH H|k t m r _ IH H|M deliver k m r w w' _ IH H
    |k c x s m _ IH Hk H|s m _ IH|m m' _ IH H].
  - unfold new_biflow_multi, router_bind in H. cbn [bind rm_socket new_remote new_bind bind_done bf_bound new_biflow rbind] in H.
    rewrite can_receive_any_ok in H. cbn [rbind] in H. unfold sendto_setup in H.
    cbn [set_binding set_remotes br_p_sendto br_sendto br_remotes br_binding new_biflow_router app length] in H.
    destruct main as [|a main]; [done|]. cbn [String.length Nat.eqb] in H.
    rewrite prefix_refl in H. injection H as <-. split; [done|done|]. by exists 0%nat.
  - destruct inward.
    + rewrite multi_bind_inward in H. edestruct multi_bind_star as (m1 & E & Hs & _); [exact IH| |by rewrite E in H; simplify_eq]. done.
    + pose proof (multi_bind_bound _ _ _ _ _ _ H eq_refl) as Hb.
      edestruct multi_bind_star as (m1 & E & Hs & _); [exact IH|exact Hb|]. rewrite E in H. by simplify_eq.
  - by eapply star_route_data.
  - unfold router_sendall in H. destruct (br_remotes (mu_router m) !! k) as [x|] eqn:Hk; [|done].
    destruct (sendall _ _ _) as [y|]; [|done]. cbn [rbind] in H. simplify_eq. apply star_traffic; [done|]. by eapply fmap_insert_same.
  - apply star_traffic; [done|]. by eapply fmap_insert_same.
  - done.
  - unfold multi_sendall in H. unfold sendall in H. destruct (0 <? _); cbn [rbind] in H; [|by simplify_eq].
    destruct (route_data _ _ _) as [r|] eqn:Hr; [|done]. cbn [rbind fst snd] in H. simplify_eq. by eapply star_route_data.
Qed.

(** Bytes that [route_data] appends to the queue of a remote. *)
Definition gains (r r' : biflow_router) (p : nat -> bool) (items : list Z) : Prop :=
  forall j x, br_remotes r !! j = Some x -> exists y, br_remotes r' !! j = Some y /\
    bf_queue (rm_socket y) = bf_queue (rm_socket x) ++ (if p j then items else []).

Lemma route_data_gains me this t items r k0 :
  br_remotes r !! me = Some this -> txn_items t = Ret items -> (k0 < length (br_remotes r))%nat ->
  routes_to me (rm_sendto this) k0 = true ->
  exists r', route_data me t r = Ret r' /\ gains r r' (routes_to me (rm_sendto this)) items.
Proof.
  intros Hme Hi Hk Hr. rewrite (route_data_ok me this t items r k0) by done. eexists. split; [done|].
  intros j x Hj. cbn. rewrite list_lookup_imap, Hj. cbn. eexists. split; [done|].
  destruct (routes_to _ _ j); [|by rewrite app_nil_r]. cbn. apply (enqueue_all_queue items (set_default_txn t (rm_socket x))).
Qed.

(** The router behind a socket that many may bind to.  However many sockets have bound and
    whatever was sent, a transaction from the owner goes to every socket that is bound, and
    one from any of them goes to the owner alone: its items are appended, in order and
    once, to the queues of these remotes and of no other. *)
Theorem multi_routes main m t items :
  main <> EmptyString -> multi_reachable main m -> txn_items t = Ret items ->
  let r := mu_router m in
  ((1 < length (br_remotes r))%nat ->
     exists r', route_data 0 t r = Ret r' /\ gains r r' (fun j => negb (j =? 0)%nat) items) /\
  (forall k, (0 < k < length (br_remotes r))%nat ->
     exists r', route_data k t r = Ret r' /\ gains r r' (fun j => (j =? 0)%nat) items).
Proof.
  intros Hn Hm Hi r. destruct (star_reachable main m Hn Hm) as [_ _ (n & Hr)]. fold r in Hr.
  assert (forall k, rm_sendto <$> br_remotes r !! k = (None :: replicate n (Some 0%nat)) !! k) as Hl.
  { intros k. by rewrite <- list_lookup_fmap, Hr. }
  split.
  - intros Hlen. specialize (Hl 0%nat). destruct (br_remotes r !! 0%nat) as [x|] eqn:Hx; [|done]. injection Hl as Hx0.
    destruct (route_data_gains 0 x t items r 1) as (r' & E & Hg); [done|done|done|by rewrite Hx0|].
    exists r'. split; [done|]. rewrite Hx0 in Hg. intros j y Hj. destruct (Hg j y Hj) as (z & Hz & Hq). exists z. split; [done|].
    unfold routes_to in Hq. by rewrite andb_true_r in Hq.
  - intros k [Hk Hlen]. specialize (Hl k). destruct (br_remotes r !! k) as [x|] eqn:Hx; [|apply lookup_ge_None in Hx; lia].
    destruct k as [|k]; [lia|]. cbn in Hl. symmetry in Hl. apply lookup_replicate in Hl as [Hx0 _].
    destruct (route_data_gains (S k) x t items r 0) as (r' & E & Hg); [done|done|lia|by rewrite Hx0|].
    exists r'. split; [done|]. rewrite Hx0 in Hg. intros j y Hj. destruct (Hg j y Hj) as (z & Hz & Hq). exists z. split; [done|].
    unfold routes_to in Hq. destruct j; [done|]. cbn in Hq. by rewrite andb_false_r in Hq.
Qed.

(** A multi socket with one other socket bound to it. *)
Definition ex_multi : biflow_multi :=
  mk_biflow_multi
    (mk_biflow 0 true [] true false None true)
    (mk_biflow_router [mk_remote (set_bound true new_biflow) None; mk_remote (set_bound true new_biflow) (Some 0%nat)]
       None "uart_main" (Some 0%nat)).

Lemma ex_multi_reachable : multi_reachable "uart_main" ex_multi.
Proof.
  eapply (multi_bound _ 0 true "backend" new_biflow); [by eapply (multi_new _ 0)|]. reflexivity.
Qed.

Definition ex_serial (l : list Z) : payload := set_streaming_width (Z.of_nat (length l)) (set_data l (set_data_length (Z.of_nat (length l)) fresh_txn)).

Lemma multi_routes_witness :
  exists r', route_data 1 (ex_serial [7; 8]) (mu_router ex_multi) = Ret r' /\
    gains (mu_router ex_multi) r' (fun j => (j =? 0)%nat) [7; 8].
Proof.
  apply (proj2 (multi_routes "uart_main" ex_multi (ex_serial [7; 8]) [7; 8] ltac:(done) ex_multi_reachable eq_refl)). cbn. lia.
Defined.

(** ** The length of a routed transaction *)

(** A router copies the length of the last transaction into the default transaction of its
    remotes, and a remote sends its whole queue under that length.  A receiver that goes by
    the data length, as another router does, gets as many items as the last transaction had
    and not what is sent: the rest is erased with the queue, and with more than was
    enqueued the receiver reads past the queue. *)
Theorem routed_length_mismatch s d :
  0 <= bf_can_send s < 2 ^ 32 -> 0 <= data_length d ->
  let s := set_default_txn d s in
  let n := Z.to_nat (data_length d) in
  ((n <= length (bf_queue s))%nat -> txn_items (send_txn s) = Ret (take n (bf_queue s))) /\
  ((length (bf_queue s) < n)%nat -> txn_items (send_txn s) = Err StopUndef) /\
  (bf_infinite s = true -> exists s', sendall (fun t got => let? l := txn_items t in Ret (t, got ++ l)) s [] =
     (if (0 <? length (bf_queue s))%nat && (length (bf_queue s) <? n)%nat then Err StopUndef
      else Ret (s', if (0 <? length (bf_queue s))%nat then take n (bf_queue s) else [])) /\ bf_queue s' = []).
Proof.
  intros Hc Hd s1 n.
  assert (txn_items (send_txn s1) = if (n <=? length (bf_queue s1))%nat then Ret (take n (bf_queue s1)) else Err StopUndef) as Hi
    by done.
  split; [intros H; rewrite Hi; by rewrite (proj2 (Nat.leb_le _ _) H)|].
  split; [intros H; rewrite Hi; by rewrite (proj2 (Nat.leb_gt _ _) H)|].
  intros Hinf. assert (sending s1 = Z.of_nat (length (bf_queue s1))) as Hs by (unfold sending; by rewrite Hinf).
  unfold sendall. rewrite sending_notified, Hs. change (send_txn (set_notified false s1)) with (send_txn s1).
  destruct (bf_queue s1) as [|b q] eqn:Hq.
  - cbn. eexists. split; [done|]. done.
  - change ((0 <? length (b :: q))%nat) with true. change (0 <? Z.of_nat (length (b :: q))) with true. cbn [andb]. rewrite Hi.
    destruct (Nat.leb_spec n (length (b :: q))) as [H|H].
    + rewrite (proj2 (Nat.ltb_ge _ _) H). cbn [rbind]. eexists. split; [done|].
      cbn [set_can_send set_queue bf_queue]. change (data (send_txn s1)) with (bf_queue s1). rewrite Hq, Nat2Z.id. by rewrite drop_all.
    + rewrite (proj2 (Nat.ltb_lt _ _) H). cbn [rbind]. by exists new_biflow.
Qed.

(** Three transactions of one byte through two routers: one byte is left. *)
Lemma routed_length_mismatch_witness :
  let s := enqueue_all [1; 2] (set_infinite true new_biflow) in
  txn_items (send_txn (set_default_txn (ex_serial [3]) (enqueue 3 s))) = Ret [1].
Proof.
  apply (proj1 (routed_length_mismatch (enqueue 3 (enqueue_all [1; 2] (set_infinite true new_biflow))) (ex_serial [3])
    ltac:(done) ltac:(done))). cbn. lia.
Defined.
