(* ===== verification/Pl011.v ===== *)
(** * The PL011 UART

    uart/uart-pl011/include/uart-pl011.h: the registers of the device, its receive
    buffer of sixteen characters and its interrupt, together with the serial socket to
    the back end.  The theorems are about the device and the socket at the other end of
    that link, for every order in which the driver, the back end and the processes of
    the two sockets run. *)

From stdpp Require Import base list numbers option.
From S2P Require Import Prelude Monad Tlm Biflow.

Definition PL011_INT_TX : Z := 0x20.
Definition PL011_INT_RX : Z := 0x10.
Definition PL011_FLAG_RXFF : Z := 0x40.
Definition PL011_FLAG_RXFE : Z := 0x10.

Definition INT_E : Z := 0x780.
Definition INT_MS : Z := 0xf.
Definition INT_RT : Z := 0x40.

(** [irqmask[0]], the combined interrupt. *)
Definition irqmask0 : Z := Z.lor (Z.lor (Z.lor (Z.lor INT_E INT_MS) INT_RT) PL011_INT_TX) PL011_INT_RX.

(** The device's state; [readbuff] of the source is never used. *)
Record PL011State : Type := mk_PL011State {
  pl_flags : Z;
  pl_lcr : Z;
  pl_rsr : Z;
  pl_cr : Z;
  pl_dmacr : Z;
  pl_int_enabled : Z;
  pl_int_level : Z;
  pl_read_fifo : list Z;
  pl_ilpr : Z;
  pl_ibrd : Z;
  pl_fbrd : Z;
  pl_ifl : Z;
  pl_read_pos : Z;
  pl_read_count : Z;
  pl_read_trigger : Z;
}.

Definition set_flags (v : Z) (s : PL011State) : PL011State :=
  mk_PL011State v (pl_lcr s) (pl_rsr s) (pl_cr s) (pl_dmacr s) (pl_int_enabled s) (pl_int_level s) (pl_read_fifo s)
    (pl_ilpr s) (pl_ibrd s) (pl_fbrd s) (pl_ifl s) (pl_read_pos s) (pl_read_count s) (pl_read_trigger s).
Definition set_lcr (v : Z) (s : PL011State) : PL011State :=
  mk_PL011State (pl_flags s) v (pl_rsr s) (pl_cr s) (pl_dmacr s) (pl_int_enabled s) (pl_int_level s) (pl_read_fifo s)
    (pl_ilpr s) (pl_ibrd s) (pl_fbrd s) (pl_ifl s) (pl_read_pos s) (pl_read_count s) (pl_read_trigger s).
Definition set_rsr (v : Z) (s : PL011State) : PL011State :=
  mk_PL011State (pl_flags s) (pl_lcr s) v (pl_cr s) (pl_dmacr s) (pl_int_enabled s) (pl_int_level s) (pl_read_fifo s)
    (pl_ilpr s) (pl_ibrd s) (pl_fbrd s) (pl_ifl s) (pl_read_pos s) (pl_read_count s) (pl_read_trigger s).
Definition set_cr (v : Z) (s : PL011State) : PL011State :=
  mk_PL011State (pl_flags s) (pl_lcr s) (pl_rsr s) v (pl_dmacr s) (pl_int_enabled s) (pl_int_level s) (pl_read_fifo s)
    (pl_ilpr s) (pl_ibrd s) (pl_fbrd s) (pl_ifl s) (pl_read_pos s) (pl_read_count s) (pl_read_trigger s).
Definition set_dmacr (v : Z) (s : PL011State) : PL011State :=
  mk_PL011State (pl_flags s) (pl_lcr s) (pl_rsr s) (pl_cr s) v (pl_int_enabled s) (pl_int_level s) (pl_read_fifo s)
    (pl_ilpr s) (pl_ibrd s) (pl_fbrd s) (pl_ifl s) (pl_read_pos s) (pl_read_count s) (pl_read_trigger s).
Definition set_int_enabled (v : Z) (s : PL011State) : PL011State :=
  mk_PL011State (pl_flags s) (pl_lcr s) (pl_rsr s) (pl_cr s) (pl_dmacr s) v (pl_int_level s) (pl_read_fifo s)
    (pl_ilpr s) (pl_ibrd s) (pl_fbrd s) (pl_ifl s) (pl_read_pos s) (pl_read_count s) (pl_read_trigger s).
Definition set_int_level (v : Z) (s : PL011State) : PL011State :=
  mk_PL011State (pl_flags s) (pl_lcr s) (pl_rsr s) (pl_cr s) (pl_dmacr s) (pl_int_enabled s) v (pl_read_fifo s)
    (pl_ilpr s) (pl_ibrd s) (pl_fbrd s) (pl_ifl s) (pl_read_pos s) (pl_read_count s) (pl_read_trigger s).
Definition set_read_fifo (v : list Z) (s : PL011State) : PL011State :=
  mk_PL011State (pl_flags s) (pl_lcr s) (pl_rsr s) (pl_cr s) (pl_dmacr s) (pl_int_enabled s) (pl_int_level s) v
    (pl_ilpr s) (pl_ibrd s) (pl_fbrd s) (pl_ifl s) (pl_read_pos s) (pl_read_count s) (pl_read_trigger s).
Definition set_ilpr (v : Z) (s : PL011State) : PL011State :=
  mk_PL011State (pl_flags s) (pl_lcr s) (pl_rsr s) (pl_cr s) (pl_dmacr s) (pl_int_enabled s) (pl_int_level s) (pl_read_fifo s)
    v (pl_ibrd s) (pl_fbrd s) (pl_ifl s) (pl_read_pos s) (pl_read_count s) (pl_read_trigger s).
Definition set_ibrd (v : Z) (s : PL011State) : PL011State :=
  mk_PL011State (pl_flags s) (pl_lcr s) (pl_rsr s) (pl_cr s) (pl_dmacr s) (pl_int_enabled s) (pl_int_level s) (pl_read_fifo s)
    (pl_ilpr s) v (pl_fbrd s) (pl_ifl s) (pl_read_pos s) (pl_read_count s) (pl_read_trigger s).
Definition set_fbrd (v : Z) (s : PL011State) : PL011State :=
  mk_PL011State (pl_flags s) (pl_lcr s) (pl_rsr s) (pl_cr s) (pl_dmacr s) (pl_int_enabled s) (pl_int_level s) (pl_read_fifo s)
    (pl_ilpr s) (pl_ibrd s) v (pl_ifl s) (pl_read_pos s) (pl_read_count s) (pl_read_trigger s).
Definition set_ifl (v : Z) (s : PL011State) : PL011State :=
  mk_PL011State (pl_flags s) (pl_lcr s) (pl_rsr s) (pl_cr s) (pl_dmacr s) (pl_int_enabled s) (pl_int_level s) (pl_read_fifo s)
    (pl_ilpr s) (pl_ibrd s) (pl_fbrd s) v (pl_read_pos s) (pl_read_count s) (pl_read_trigger s).
Definition set_read_pos (v : Z) (s : PL011State) : PL011State :=
  mk_PL011State (pl_flags s) (pl_lcr s) (pl_rsr s) (pl_cr s) (pl_dmacr s) (pl_int_enabled s) (pl_int_level s) (pl_read_fifo s)
    (pl_ilpr s) (pl_ibrd s) (pl_fbrd s) (pl_ifl s) v (pl_read_count s) (pl_read_trigger s).
Definition set_read_count (v : Z) (s : PL011State) : PL011State :=
  mk_PL011State (pl_flags s) (pl_lcr s) (pl_rsr s) (pl_cr s) (pl_dmacr s) (pl_int_enabled s) (pl_int_level s) (pl_read_fifo s)
    (pl_ilpr s) (pl_ibrd s) (pl_fbrd s) (pl_ifl s) (pl_read_pos s) v (pl_read_trigger s).
Definition set_read_trigger (v : Z) (s : PL011State) : PL011State :=
  mk_PL011State (pl_flags s) (pl_lcr s) (pl_rsr s) (pl_cr s) (pl_dmacr s) (pl_int_enabled s) (pl_int_level s) (pl_read_fifo s)
    (pl_ilpr s) (pl_ibrd s) (pl_fbrd s) (pl_ifl s) (pl_read_pos s) (pl_read_count s) v.

Definition pl011_id_arm : list Z := [0x11; 0x10; 0x14; 0x00; 0x0d; 0xf0; 0x05; 0xb1].

(** The device with its serial socket [u_socket] and the socket [u_peer] this is bound to;
    [u_update] says that [update_event] was notified and [u_irq] is the interrupt line. *)
Record Pl011 : Type := mk_Pl011 {
  u_s : PL011State;
  u_socket : biflow;
  u_peer : biflow;
  u_update : bool;
  u_irq : bool;
}.

(** The constructor; [pl011_update_sysc] runs once at the start of the simulation. *)
Definition new_Pl011 (socket peer : biflow) : Pl011 :=
  mk_Pl011 (mk_PL011State 0x90 0 0 0x300 0 0 0 (replicate 16 0) 0 0 0 0x12 0 0 1) socket peer true false.

Definition set_u_s (s : PL011State) (u : Pl011) : Pl011 := mk_Pl011 s (u_socket u) (u_peer u) (u_update u) (u_irq u).
Definition set_u_socket (b : biflow) (u : Pl011) : Pl011 := mk_Pl011 (u_s u) b (u_peer u) (u_update u) (u_irq u).
Definition set_u_peer (b : biflow) (u : Pl011) : Pl011 := mk_Pl011 (u_s u) (u_socket u) b (u_update u) (u_irq u).
Definition set_u_update (b : bool) (u : Pl011) : Pl011 := mk_Pl011 (u_s u) (u_socket u) (u_peer u) b (u_irq u).
Definition set_u_irq (b : bool) (u : Pl011) : Pl011 := mk_Pl011 (u_s u) (u_socket u) (u_peer u) (u_update u) b.

Definition UM (A : Type) : Type := SM Pl011 A.

(** An assignment to a field of the state. *)
Definition um_s (f : PL011State -> PL011State) : UM unit := sm_modify (fun u => set_u_s (f (u_s u)) u).

(** A field of the state. *)
Definition um_get {A} (f : PL011State -> A) : UM A := do! u := sm_get in sm_ret (f (u_s u)).

(** An element of a C array. *)
Definition array_get (l : list Z) (i : Z) : res Z :=
  if i <? 0 then Err StopUndef else match l !! Z.to_nat i with Some v => Ret v | None => Err StopUndef end.
Definition array_set (l : list Z) (i v : Z) : res (list Z) :=
  if (0 <=? i) && (i <? Z.of_nat (length l)) then Ret (<[Z.to_nat i:=v]> l) else Err StopUndef.

Definition um_res {A} (r : res A) : UM A := fun u => match r with Ret a => Ret (a, u) | Err e => Err e end.

(** Messages to the other side. *)
Definition um_grant (g : biflow -> res biflow) : UM unit :=
  do! u := sm_get in do! p := um_res (g (u_peer u)) in sm_put (set_u_peer p u).

Definition pl011_update : UM unit := sm_modify (set_u_update true).

(** [pl011_update_sysc], the process of the interrupt line. *)
Definition pl011_update_sysc (u : Pl011) : Pl011 :=
  let s := u_s u in
  let flags := Z.land (pl_int_level s) (pl_int_enabled s) in
  let u := set_u_update false u in
  if negb (Z.land irqmask0 (pl_int_enabled s) =? 0) then set_u_irq (negb (Z.land flags irqmask0 =? 0)) u else u.

(** [s->f &= ~v], [s->f |= v] on 32 bits. *)
Definition clear_bits (v z : Z) : Z := Z.land z (u32 (Z.lnot v)).

(** Reading the data register. *)
Definition read_UARTDR : UM Z :=
  um_s (fun s => set_flags (clear_bits PL011_FLAG_RXFF (pl_flags s)) s) ;;!
  do! s := um_get id in
  do! c := um_res (array_get (pl_read_fifo s) (pl_read_pos s)) in
  sm_when (0 <? pl_read_count s)
    (um_grant (can_receive_more 1) ;;!
     um_s (fun s => set_read_count (pl_read_count s - 1) s) ;;!
     um_s (fun s => set_read_pos (pl_read_pos s + 1) s) ;;!
     um_s (fun s => if pl_read_pos s =? 16 then set_read_pos 0 s else s)) ;;!
  um_s (fun s => if pl_read_count s =? 0 then set_flags (Z.lor (pl_flags s) PL011_FLAG_RXFE) s else s) ;;!
  um_s (fun s => if pl_read_count s =? pl_read_trigger s - 1
                 then set_int_level (clear_bits PL011_INT_RX (pl_int_level s)) s else s) ;;!
  um_s (set_rsr (Z.shiftr c 8)) ;;!
  pl011_update ;;!
  sm_ret c.

Definition pl011_read (offset : Z) : UM Z :=
  match Z.shiftr offset 2 with
  | 0 => read_UARTDR
  | 1 => um_get pl_rsr
  | 6 => um_get pl_flags
  | 8 => um_get pl_ilpr
  | 9 => um_get pl_ibrd
  | 10 => um_get pl_fbrd
  | 11 => um_get pl_lcr
  | 12 => um_get pl_cr
  | 13 => um_get pl_ifl
  | 14 => um_get pl_int_enabled
  | 15 => um_get pl_int_level
  | 16 => um_get (fun s => Z.land (pl_int_level s) (pl_int_enabled s))
  | 18 => um_get pl_dmacr
  | r => if (0x3f8 <=? r) && (r <=? 0x400) then um_res (array_get pl011_id_arm (Z.shiftr (offset - 0xfe0) 2))
         else sm_ret 0
  end.

Definition pl011_set_read_trigger : UM unit :=
  um_s (set_read_trigger 1) ;;!
  um_s (set_read_count 0) ;;!
  um_grant (can_receive_set 16).

Definition pl011_write (offset value : Z) : UM unit :=
  match Z.shiftr offset 2 with
  | 0 =>
      sm_modify (fun u => set_u_socket (enqueue (Z.land value 0xff) (u_socket u)) u) ;;!
      um_s (fun s => set_int_level (Z.lor (pl_int_level s) PL011_INT_TX) s) ;;!
      pl011_update
  | 1 => um_s (set_rsr 0)
  | 8 => um_s (set_ilpr value)
  | 9 => um_s (set_ibrd value)
  | 10 => um_s (set_fbrd value)
  | 11 =>
      um_s (fun s => if negb (Z.land (Z.lxor (pl_lcr s) value) 0x10 =? 0) then set_read_pos 0 (set_read_count 0 s) else s) ;;!
      um_s (set_lcr value) ;;!
      pl011_set_read_trigger
  | 12 => um_s (set_cr value)
  | 13 => um_s (set_ifl value) ;;! pl011_set_read_trigger
  | 14 => um_s (set_int_enabled value) ;;! pl011_update
  | 17 => um_s (fun s => set_int_level (clear_bits value (pl_int_level s)) s) ;;! pl011_update
  | 18 => um_s (set_dmacr value)
  | _ => sm_ret tt
  end.

Definition pl011_put_fifo (value : Z) : UM unit :=
  do! s := um_get id in
  let slot := pl_read_pos s + pl_read_count s in
  let slot := if 16 <=? slot then slot - 16 else slot in
  do! fifo := um_res (array_set (pl_read_fifo s) slot value) in
  um_s (set_read_fifo fifo) ;;!
  um_s (fun s => set_read_count (pl_read_count s + 1) s) ;;!
  um_s (fun s => set_flags (clear_bits PL011_FLAG_RXFE (pl_flags s)) s) ;;!
  um_s (fun s => if (Z.land (pl_lcr s) 0x10 =? 0) || (pl_read_count s =? 16)
                 then set_flags (Z.lor (pl_flags s) PL011_FLAG_RXFF) s else s) ;;!
  do! s := um_get id in
  sm_when (pl_read_count s =? pl_read_trigger s)
    (um_s (fun s => set_int_level (Z.lor (pl_int_level s) PL011_INT_RX) s) ;;! pl011_update).

(** [pl011_receive]: characters from the other side. *)
Definition pl011_receive (t : payload) (u : Pl011) : res (payload * Pl011) :=
  let n := Z.to_nat (streaming_width t) in
  if (length (data t) <? n)%nat then Err StopUndef
  else let? x := sm_iter pl011_put_fifo (take n (data t)) u in Ret (t, x.2).

(** [b_transport]: the driver's accesses.  A read of two bytes assigns through a pointer to
    one byte. *)
Definition pl011_b_transport (t : payload) (u : Pl011) : res (payload * Pl011) :=
  let t := set_response_status TLM_OK_RESPONSE (set_dmi_allowed false t) in
  let len := data_length t in
  let n := Z.to_nat len in
  match command t with
  | TLM_WRITE_COMMAND =>
      if (len =? 1) || (len =? 2) || (len =? 4) then
        if (length (data t) <? n)%nat then Err StopUndef
        else let? x := pl011_write (address t) (load_le (take n (data t))) u in Ret (t, x.2)
      else Err StopFatal
  | TLM_READ_COMMAND =>
      if (len =? 1) || (len =? 2) || (len =? 4) then
        if (length (data t) <? n)%nat then Err StopUndef
        else
          let? x := pl011_read (address t) u in
          let bytes := if len =? 4 then store_le 4 x.1 else store_le 1 x.1 in
          Ret (set_data (splice 0 bytes (data t)) t, x.2)
      else Err StopFatal
  | TLM_IGNORE_COMMAND => Ret (t, u)
  end.

(** * The link between the device and the back end *)

(** The device and, of the back end, the characters it has received. *)
Record serial : Type := mk_serial { y_u : Pl011; y_log : list Z }.

(** What happens, in any order: an access of the driver, the back end enqueues a character
    (from a thread of its own) or grants, and the processes run: [sendall] of either socket
    and the one of the interrupt line. *)
Inductive uart_op : Type :=
| UBus (t : payload)
| UPeerEnqueue (b : Z)
| UPeerGrant (c : ctrl)
| UPeerSendall
| USendall
| UUpdate.

(** The characters of the receive buffer, oldest first. *)
Definition slot_of (i : Z) : nat := Z.to_nat (if 16 <=? i then i - 16 else i).
Definition ring (fifo : list Z) (pos count : Z) : list Z :=
  (fun i => fifo !!! slot_of (pos + Z.of_nat i)) <$> seq 0 (Z.to_nat count).
Definition rx (s : PL011State) : list Z := ring (pl_read_fifo s) (pl_read_pos s) (pl_read_count s).

(** Characters leave the buffer when the driver reads one ([Got], with the first byte of the
    response), or when it writes a register that empties the buffer. *)
Inductive uart_event : Type := Got (b : Z) | Lost (l : list Z).

Definition bus_events (t : payload) (s : PL011State) (t' : payload) : list uart_event :=
  let r := Z.shiftr (address t) 2 in
  match command t with
  | TLM_READ_COMMAND => if (r =? 0) && (0 <? pl_read_count s) then [Got (default 0 (head (data t')))] else []
  | TLM_WRITE_COMMAND => if (r =? 11) || (r =? 13) then [Lost (rx s)] else []
  | TLM_IGNORE_COMMAND => []
  end.

Definition serial_step (op : uart_op) (y : serial) : res (serial * list uart_event) :=
  let u := y_u y in
  match op with
  | UBus t => let? x := pl011_b_transport t u in Ret (mk_serial x.2 (y_log y), bus_events t (u_s u) x.1)
  | UPeerEnqueue b => Ret (mk_serial (set_u_peer (enqueue b (u_peer u)) u) (y_log y), [])
  | UPeerGrant c => let? b := initiator_ctrl (send_ctrl c) (u_socket u) in Ret (mk_serial (set_u_socket b u) (y_log y), [])
  | UPeerSendall => let? x := sendall pl011_receive (u_peer u) u in Ret (mk_serial (set_u_peer x.1 x.2) (y_log y), [])
  | USendall => let? x := sendall collect (u_socket u) (y_log y) in Ret (mk_serial (set_u_socket x.1 u) x.2, [])
  | UUpdate => Ret (mk_serial (pl011_update_sysc u) (y_log y), [])
  end.

Fixpoint serial_run (ops : list uart_op) (y : serial) : res (serial * list uart_event) :=
  match ops with
  | [] => Ret (y, [])
  | op :: ops' =>
      let? x := serial_step op y in
      let? z := serial_run ops' x.1 in
      Ret (z.1, x.2 ++ z.2)
  end.

(** The characters of a history: taken from the buffer, enqueued by the back end, written by
    the driver. *)
Definition taken (e : uart_event) : list Z := match e with Got b => [b] | Lost l => l end.
Definition typed (op : uart_op) : list Z := match op with UPeerEnqueue b => [b] | _ => [] end.
Definition written (op : uart_op) : list Z :=
  match op with
  | UBus t => match command t with
              | TLM_WRITE_COMMAND =>
                  if Z.shiftr (address t) 2 =? 0 then [load_le (take (Z.to_nat (data_length t)) (data t)) mod 256] else []
              | _ => []
              end
  | _ => []
  end.

(** Accesses that the device accepts: one, two or four bytes, and no read of the word after its
    identification registers.  The back end does not add to an unlimited grant. *)
Definition op_valid (op : uart_op) : Prop :=
  match op with
  | UBus t => (command t = TLM_IGNORE_COMMAND \/ data_length t = 1 \/ data_length t = 2 \/ data_length t = 4) /\
              (Z.to_nat (data_length t) <= length (data t))%nat /\ 0 <= address t /\ Z.shiftr (address t) 2 <> 0x400
  | UPeerEnqueue b => 0 <= b < 256
  | UPeerGrant c => ct_cmd c <> DELTA_CHANGE
  | _ => True
  end.

(** The interrupt line is what the registers say, or its process is due. *)
Definition irq_ok (u : Pl011) : Prop :=
  u_update u = false -> Z.land irqmask0 (pl_int_enabled (u_s u)) <> 0 ->
  u_irq u = negb (Z.land (Z.land (pl_int_level (u_s u)) (pl_int_enabled (u_s u))) irqmask0 =? 0).

Definition is_byte (b : Z) : Prop := 0 <= b < 256.

(** The receive buffer is a ring of sixteen. *)
Record rx_ring_ok (s : PL011State) : Prop := {
  ring_length : length (pl_read_fifo s) = 16%nat;
  ring_pos : 0 <= pl_read_pos s < 16;
  ring_count : 0 <= pl_read_count s <= 16;
  ring_bytes : Forall is_byte (pl_read_fifo s);
}.

(** What the back end may still send fits in the buffer, exactly. *)
Record peer_ok (u : Pl011) : Prop := {
  peer_finite : bf_infinite (u_peer u) = false;
  peer_range : 0 <= bf_can_send (u_peer u);
  peer_credit : pl_read_count (u_s u) + bf_can_send (u_peer u) = 16 \/
                pl_read_count (u_s u) = 0 /\ bf_can_send (u_peer u) = 0;
  peer_awake : awake (u_peer u);
  peer_bytes : Forall is_byte (bf_queue (u_peer u));
}.

Record link_ok (u : Pl011) : Prop := {
  link_ring : rx_ring_ok (u_s u);
  link_peer : peer_ok u;
  link_socket : bf_ok (u_socket u);
  link_irq : irq_ok u;
}.

(** ** The ring *)

Lemma slot_of_inj p i j : 0 <= p < 16 -> 0 <= i < 16 -> 0 <= j < 16 -> slot_of (p + i) = slot_of (p + j) -> i = j.
Proof. unfold slot_of. intros. destruct (Z.leb_spec 16 (p + i)), (Z.leb_spec 16 (p + j)); lia. Qed.

Lemma ring_put fifo p c v : length fifo = 16%nat -> 0 <= p < 16 -> 0 <= c < 16 ->
  ring (<[slot_of (p + c):=v]> fifo) p (c + 1) = ring fifo p c ++ [v].
Proof.
  intros Hl Hp Hc. unfold ring. replace (Z.to_nat (c + 1)) with (Z.to_nat c + 1)%nat by lia.
  rewrite seq_app, fmap_app. cbn [seq fmap list_fmap]. f_equal.
  - apply list_fmap_ext. intros k i Hk. apply lookup_seq in Hk as [-> Hk]. rewrite list_lookup_total_insert_ne; [done|].
    intros E. apply slot_of_inj in E; lia.
  - replace (Z.of_nat (0 + Z.to_nat c)) with c by lia. rewrite list_lookup_total_insert_eq; [done|].
    unfold slot_of. destruct (Z.leb_spec 16 (p + c)); lia.
Qed.

Lemma ring_take fifo p c : 0 <= p < 16 -> 0 < c <= 16 ->
  ring fifo p c = fifo !!! Z.to_nat p :: ring fifo (if p + 1 =? 16 then 0 else p + 1) (c - 1).
Proof.
  intros Hp Hc. unfold ring. replace (Z.to_nat c) with (S (Z.to_nat (c - 1))) by lia.
  cbn [seq fmap list_fmap]. f_equal.
  - unfold slot_of. rewrite Z.add_0_r. by destruct (Z.leb_spec 16 p); [lia|].
  - rewrite <- fmap_S_seq, <- list_fmap_compose. apply list_fmap_ext. intros k i Hk. apply lookup_seq in Hk as [-> Hk]. cbn [compose].
    f_equal. unfold slot_of. destruct (Z.eqb_spec (p + 1) 16);
    repeat match goal with |- context [16 <=? ?x] => destruct (Z.leb_spec 16 x) end; lia.
Qed.

Lemma ring_empty fifo p : ring fifo p 0 = [].
Proof. done. Qed.

(** ** Reception *)

(** What the process of the interrupt line reads does not change without notice to it. *)
Definition irq_kept (u u' : Pl011) : Prop :=
  u_irq u' = u_irq u /\
  (u_update u' = true \/ u_update u' = u_update u /\ pl_int_level (u_s u') = pl_int_level (u_s u) /\
                         pl_int_enabled (u_s u') = pl_int_enabled (u_s u)).

Lemma irq_kept_ok u u' : irq_kept u u' -> irq_ok u -> irq_ok u'.
Proof. intros [Hi [Hu|(Hu & Hl & He)]] Ho; unfold irq_ok in *; [congruence|]. by rewrite Hu, Hl, He, Hi. Qed.

Lemma irq_kept_trans u1 u2 u3 : irq_kept u1 u2 -> irq_kept u2 u3 -> irq_kept u1 u3.
Proof. unfold irq_kept. intuition congruence. Qed.

Lemma put_fifo_ok v u :
  rx_ring_ok (u_s u) -> pl_read_count (u_s u) < 16 -> is_byte v ->
  exists u', pl011_put_fifo v u = Ret (tt, u') /\ rx_ring_ok (u_s u') /\ rx (u_s u') = rx (u_s u) ++ [v] /\
    pl_read_count (u_s u') = pl_read_count (u_s u) + 1 /\ u_peer u' = u_peer u /\ u_socket u' = u_socket u /\ irq_kept u u'.
Proof.
  intros [Hl Hp Hc Hb] Hlt Hv. destruct u as [s sk pe up irq]. cbn [u_s] in *.
  assert (array_set (pl_read_fifo s) (if 16 <=? pl_read_pos s + pl_read_count s then pl_read_pos s + pl_read_count s - 16
    else pl_read_pos s + pl_read_count s) v = Ret (<[slot_of (pl_read_pos s + pl_read_count s):=v]> (pl_read_fifo s))) as E.
  { unfold array_set, slot_of. rewrite Hl.
    destruct (Z.leb_spec 16 (pl_read_pos s + pl_read_count s)); (rewrite (proj2 (Z.leb_le _ _)), (proj2 (Z.ltb_lt _ _)) by lia); done. }
  unfold pl011_put_fifo, um_get, sm_bind, sm_get, sm_ret, um_s, sm_modify, um_res, sm_when, pl011_update.
  cbn [u_s set_u_s id]. rewrite E. cbn [u_s set_u_s set_read_fifo set_read_count set_flags pl_read_count pl_lcr pl_flags].
  assert (rx_ring_ok (set_read_count (pl_read_count s + 1) (set_read_fifo (<[slot_of (pl_read_pos s + pl_read_count s):=v]> (pl_read_fifo s)) s))) as Hr.
  { split; cbn; [by rewrite length_insert|done|lia|by apply Forall_insert]. }
  pose proof (ring_put (pl_read_fifo s) (pl_read_pos s) (pl_read_count s) v Hl Hp ltac:(lia)) as Hput.
  destruct (_ || _); destruct (_ =? _); (eexists; split; [done|]); destruct Hr;
    (split; [by split|]); (split; [exact Hput|]); repeat (split; [done|]); [by left|by right|by left|by right].
Qed.

Lemma put_all_ok l : forall u,
  rx_ring_ok (u_s u) -> pl_read_count (u_s u) + Z.of_nat (length l) <= 16 -> Forall is_byte l ->
  exists u', sm_iter pl011_put_fifo l u = Ret (tt, u') /\ rx_ring_ok (u_s u') /\ rx (u_s u') = rx (u_s u) ++ l /\
    pl_read_count (u_s u') = pl_read_count (u_s u) + Z.of_nat (length l) /\ u_peer u' = u_peer u /\ u_socket u' = u_socket u /\
    irq_kept u u'.
Proof.
  induction l as [|v l IH]; intros u Hr Hc Hb.
  { exists u. rewrite app_nil_r, Z.add_0_r. repeat split; try done; try apply Hr. by right. }
  inversion Hb as [|?? Hv Hl]; subst. cbn [length] in Hc. destruct (put_fifo_ok v u Hr) as (u1 & E1 & Hr1 & Hx1 & Hc1 & Hp1 & Hs1 & Hi1); [lia|done|].
  destruct (IH u1 Hr1) as (u2 & E2 & Hr2 & Hx2 & Hc2 & Hp2 & Hs2 & Hi2); [lia|done|].
  exists u2. cbn [sm_iter]. unfold sm_bind. rewrite E1. split; [done|]. split; [done|].
  rewrite Hx2, Hx1, <- app_assoc. split; [done|]. cbn [length]. split; [lia|]. split; [congruence|]. split; [congruence|].
  by eapply irq_kept_trans.
Qed.

(** A run of the other side's [sendall] fills the buffer, never beyond its end. *)
Lemma peer_sendall_ok y :
  link_ok (y_u y) ->
  exists y', serial_step UPeerSendall y = Ret (y', []) /\ link_ok (y_u y') /\ y_log y' = y_log y /\
    u_socket (y_u y') = u_socket (y_u y) /\
    let n := Z.to_nat (sending (u_peer (y_u y))) in
    rx (u_s (y_u y')) = rx (u_s (y_u y)) ++ take n (bf_queue (u_peer (y_u y))) /\
    bf_queue (u_peer (y_u y')) = drop n (bf_queue (u_peer (y_u y))).
Proof.
  destruct y as [u log]. cbn [y_u y_log]. intros [Hr [Hf Hpr Hcr Haw Hby] Hsk Hirq]. set (n := sending (u_peer u)).
  pose proof (sending_bound (u_peer u) Hpr) as Hn. fold n in Hn. pose proof (sending_credit (u_peer u) Hf) as Hmin. fold n in Hmin.
  pose proof (ring_count _ Hr) as Hcount.
  destruct (send_txn_width (u_peer u)) as [Hw Hd]; [fold n; lia|].
  destruct (put_all_ok (take (Z.to_nat n) (bf_queue (u_peer u))) u Hr) as (u' & E & Hr' & Hx & Hc & Hp & Hs & Hi).
  { rewrite length_take. lia. } { by apply Forall_take. }
  assert (pl011_receive (send_txn (u_peer u)) u = Ret (send_txn (u_peer u), u')) as Er.
  { unfold pl011_receive. rewrite Hw, Hd. fold n. rewrite (proj2 (Nat.ltb_ge _ _)) by lia. by rewrite E. }
  destruct (sendall_ok pl011_receive (u_peer u) u u' (send_txn (u_peer u))) as (p' & Es & Hq & Hinf & Hcs & Hrg & Hz & _).
  { lia. } { done. } { fold n. intros H0. rewrite H0 in E. change (Ret (tt, u) = Ret (tt, u')) in E. by injection E as ->. }
  exists (mk_serial (set_u_peer p' u') log). cbn [serial_step y_u y_log]. rewrite Es. cbn [rbind fst snd u_s u_peer u_socket set_u_peer].
  rewrite length_take in Hc. fold n in Hq, Hcs. specialize (Hcs Hf).
  split; [done|]. split.
  { split; cbn [u_s u_peer u_socket set_u_peer].
    - done.
    - split; cbn [u_s u_peer set_u_peer]; [congruence|lia|rewrite Hcs, Hc; lia|by right|]. rewrite Hq. by apply Forall_drop.
    - by rewrite Hs.
    - by apply (irq_kept_ok u u'). }
  split; [done|]. split; [by rewrite Hs|]. by split.
Qed.

(** ** The driver's accesses *)

(** The steps of the device outside the receive buffer. *)
Definition same_ring (s s' : PL011State) : Prop :=
  pl_read_fifo s' = pl_read_fifo s /\ pl_read_pos s' = pl_read_pos s /\ pl_read_count s' = pl_read_count s.

Lemma same_ring_ok s s' : same_ring s s' -> rx_ring_ok s -> rx_ring_ok s' /\ rx s' = rx s.
Proof. intros (Hf & Hp & Hc) [H1 H2 H3 H4]. unfold rx. rewrite Hf, Hp, Hc. split; [|done]. split; congruence. Qed.

Lemma same_ring_link u u' :
  same_ring (u_s u) (u_s u') -> irq_kept u u' -> u_peer u' = u_peer u -> bf_ok (u_socket u') -> link_ok u ->
  link_ok u' /\ rx (u_s u') = rx (u_s u).
Proof.
  intros Hs Hi Hp Hk [Hr [P1 P2 P3 P4 P5] _ Hq]. destruct (same_ring_ok _ _ Hs Hr) as [Hr' Hx]. split; [|done].
  destruct Hs as (_ & _ & Hc). split; [done| |done|by eapply irq_kept_ok]. split; rewrite ?Hp, ?Hc; done.
Qed.

(** What reading the data register leaves. *)
Definition dr_state (s : PL011State) : PL011State :=
  let s1 := set_flags (clear_bits PL011_FLAG_RXFF (pl_flags s)) s in
  let s2 := if 0 <? pl_read_count s then
              let s' := set_read_pos (pl_read_pos s + 1) (set_read_count (pl_read_count s - 1) s1) in
              if pl_read_pos s + 1 =? 16 then set_read_pos 0 s' else s'
            else s1 in
  let s3 := if pl_read_count s2 =? 0 then set_flags (Z.lor (pl_flags s2) PL011_FLAG_RXFE) s2 else s2 in
  let s4 := if pl_read_count s3 =? pl_read_trigger s3 - 1 then set_int_level (clear_bits PL011_INT_RX (pl_int_level s3)) s3 else s3 in
  set_rsr (Z.shiftr (pl_read_fifo s !!! Z.to_nat (pl_read_pos s)) 8) s4.

Lemma array_get_total l i : 0 <= i < Z.of_nat (length l) -> array_get l i = Ret (l !!! Z.to_nat i).
Proof.
  intros Hi. unfold array_get. rewrite (proj2 (Z.ltb_ge _ _)) by lia.
  by rewrite (list_lookup_lookup_total_lt l (Z.to_nat i)) by lia.
Qed.

Lemma dr_peer_grant u : link_ok u -> 0 < pl_read_count (u_s u) ->
  can_receive_more 1 (u_peer u) = Ret (set_notified true (set_can_send (bf_can_send (u_peer u) + 1) (u_peer u))).
Proof.
  intros [Hr [Hf Hpr Hcr _ _] _ _] Hc. pose proof (ring_count _ Hr). apply can_receive_more_ok; [done|done| |done]. lia.
Qed.

Lemma read_UARTDR_eq u : link_ok u ->
  read_UARTDR u =
  Ret (pl_read_fifo (u_s u) !!! Z.to_nat (pl_read_pos (u_s u)),
       mk_Pl011 (dr_state (u_s u)) (u_socket u)
         (if 0 <? pl_read_count (u_s u) then set_notified true (set_can_send (bf_can_send (u_peer u) + 1) (u_peer u)) else u_peer u)
         true (u_irq u)).
Proof.
  intros Hl. pose proof (dr_peer_grant u Hl) as Hg. destruct Hl as [[Hlen Hp Hc Hb] _ _ _]. destruct u as [s sk pe up irq]. cbn [u_s u_peer] in *.
  unfold read_UARTDR, um_grant, pl011_update, um_get, um_s, sm_when, um_res, sm_bind, sm_get, sm_put, sm_ret, sm_modify, dr_state.
  cbn [u_s set_u_s id set_flags pl_read_fifo pl_read_pos]. rewrite array_get_total by lia.
  cbn [pl_read_count set_flags]. destruct (Z.ltb_spec 0 (pl_read_count s)) as [Hlt|Hge].
  - cbn [u_s set_u_s u_peer]. rewrite (Hg Hlt). done.
  - done.
Qed.

(** The data register: the oldest character leaves the buffer and its place is granted again. *)
Lemma read_UARTDR_ok u : link_ok u ->
  exists v u', read_UARTDR u = Ret (v, u') /\ link_ok u' /\ is_byte v /\ u_socket u' = u_socket u /\
    bf_queue (u_peer u') = bf_queue (u_peer u) /\
    rx (u_s u) = (if 0 <? pl_read_count (u_s u) then [v] else []) ++ rx (u_s u').
Proof.
  intros Hl. rewrite (read_UARTDR_eq u Hl). do 2 eexists. split; [done|]. cbn [u_s u_socket u_peer].
  destruct Hl as [[Hlen Hp Hc Hb] [Hf Hpr Hcr Haw Hby] Hsk Hi]. set (s := u_s u) in *.
  assert (is_byte (pl_read_fifo s !!! Z.to_nat (pl_read_pos s))) as Hv.
  { eapply Forall_lookup_1; [exact Hb|]. apply list_lookup_lookup_total_lt. lia. }
  assert (pl_read_fifo (dr_state s) = pl_read_fifo s) as E1 by (unfold dr_state; repeat case_match; done).
  assert (pl_read_count (dr_state s) = if 0 <? pl_read_count s then pl_read_count s - 1 else pl_read_count s) as E2
    by (unfold dr_state; repeat case_match; done).
  assert (pl_read_pos (dr_state s) = if 0 <? pl_read_count s then if pl_read_pos s + 1 =? 16 then 0 else pl_read_pos s + 1 else pl_read_pos s) as E3
    by (unfold dr_state; repeat case_match; done).
  split; [split; cbn [u_s u_peer u_socket]|].
  - split; rewrite ?E1, ?E2, ?E3; [done| | |done]; destruct (Z.ltb_spec 0 (pl_read_count s)); try lia.
    destruct (Z.eqb_spec (pl_read_pos s + 1) 16); lia.
  - split; cbn [u_peer u_s]; rewrite ?E2; destruct (Z.ltb_spec 0 (pl_read_count s)); cbn; try done; try lia. by left.
  - done.
  - by unfold irq_ok.
  - split; [done|]. split; [done|]. split; [by destruct (0 <? _)|]. unfold rx. rewrite E1, E2, E3.
    destruct (Z.ltb_spec 0 (pl_read_count s)); [|done]. cbn [app]. apply ring_take; lia.
Qed.

(** Case analysis on a register number. *)
Ltac reg_cases r :=
  destruct r as [|r|r];
  repeat match goal with
    | |- context [match ?p with xI _ => _ | xO _ => _ | xH => _ end] => destruct p
    end.

Lemma pl011_read_other offset u :
  0 <= offset -> Z.shiftr offset 2 <> 0 -> Z.shiftr offset 2 <> 0x400 -> exists v, pl011_read offset u = Ret (v, u).
Proof.
  intros Ho H0 H4.
  assert (exists v, (if (0x3f8 <=? Z.shiftr offset 2) && (Z.shiftr offset 2 <=? 0x400)
    then um_res (array_get pl011_id_arm (Z.shiftr (offset - 0xfe0) 2)) else sm_ret 0) u = Ret (v, u)) as D.
  { destruct (Z.leb_spec 0x3f8 (Z.shiftr offset 2)); cbn [andb]; [|eexists; reflexivity].
    destruct (Z.leb_spec (Z.shiftr offset 2) 0x400); [|eexists; reflexivity]. unfold um_res. rewrite array_get_total; [eexists; reflexivity|].
    rewrite !Z.shiftr_div_pow2 in * by lia. change (2 ^ 2) with 4 in *. cbn [length pl011_id_arm]. Z.to_euclidean_division_equations. lia. }
  unfold pl011_read. set (d := Z.shiftr (offset - 0xfe0) 2) in *. clearbody d. set (r := Z.shiftr offset 2) in *. clearbody r.
  reg_cases r; first [exact D|done|eexists; reflexivity].
Qed.

Lemma pl011_write_other offset v u :
  Z.shiftr offset 2 <> 0 -> Z.shiftr offset 2 <> 11 -> Z.shiftr offset 2 <> 13 ->
  exists s up, pl011_write offset v u = Ret (tt, mk_Pl011 s (u_socket u) (u_peer u) up (u_irq u)) /\
    same_ring (u_s u) s /\ irq_kept u (mk_Pl011 s (u_socket u) (u_peer u) up (u_irq u)).
Proof.
  intros H0 H11 H13. unfold pl011_write. set (r := Z.shiftr offset 2) in *. clearbody r. destruct u as [s sk pe up irq].
  reg_cases r; try done; (do 2 eexists; split; [reflexivity|]); (split; [done|]); (split; [done|]); (by left) || (by right).
Qed.

Lemma write_UARTDR_ok offset v u : Z.shiftr offset 2 = 0 ->
  exists s, pl011_write offset v u = Ret (tt, mk_Pl011 s (enqueue (Z.land v 0xff) (u_socket u)) (u_peer u) true (u_irq u)) /\
    same_ring (u_s u) s.
Proof. intros H. unfold pl011_write. rewrite H. eexists. split; [reflexivity|done]. Qed.

(** The line control and FIFO level registers empty the buffer and grant all of it. *)
Lemma pl011_write_reset offset v u : Z.shiftr offset 2 = 11 \/ Z.shiftr offset 2 = 13 -> rx_ring_ok (u_s u) ->
  exists s, pl011_write offset v u =
      Ret (tt, mk_Pl011 s (u_socket u) (set_notified true (set_attached true (set_infinite false (set_can_send 16 (u_peer u)))))
                 (u_update u) (u_irq u)) /\
    rx_ring_ok s /\ pl_read_count s = 0 /\ pl_int_level s = pl_int_level (u_s u) /\ pl_int_enabled s = pl_int_enabled (u_s u).
Proof.
  intros H [H1 H2 H3 H4]. unfold pl011_write, pl011_set_read_trigger, um_grant, um_s, sm_bind, sm_modify, sm_get, um_res, sm_put.
  destruct u as [s sk pe up irq]. cbn [u_s] in *. destruct H as [H|H]; rewrite H; cbn [u_peer set_u_s]; rewrite can_receive_set_ok by lia.
  - eexists. split; [reflexivity|]. destruct (negb _); repeat split; cbn; done || lia.
  - eexists. split; [reflexivity|]. repeat split; cbn; done || lia.
Qed.

Definition all_taken (l : list uart_event) : list Z := concat (map taken l).

(** ** One step of the link *)

(** No step stops; characters stay in order on both directions. *)
Definition step_ok (op : uart_op) (y y' : serial) (ev : list uart_event) : Prop :=
  link_ok (y_u y') /\
  all_taken ev ++ rx (u_s (y_u y')) ++ bf_queue (u_peer (y_u y')) =
    rx (u_s (y_u y)) ++ bf_queue (u_peer (y_u y)) ++ typed op /\
  y_log y' ++ bf_queue (u_socket (y_u y')) = y_log y ++ bf_queue (u_socket (y_u y)) ++ written op /\
  (length (y_log y) <= length (y_log y'))%nat.

Lemma bf_ok_enqueue b s : bf_ok s -> bf_ok (enqueue b s).
Proof. intros [Hc _]. split; [done|by left]. Qed.

Lemma link_enqueue u b : link_ok u -> is_byte b -> link_ok (set_u_peer (enqueue b (u_peer u)) u).
Proof.
  intros [Hr [P1 P2 P3 P4 P5] Hs Hi] Hb. split; [done| |done|done]. split; cbn; [done|done|done|by left|].
  apply Forall_app. split; [done|by constructor].
Qed.

Lemma link_reset s u : link_ok u -> rx_ring_ok s -> pl_read_count s = 0 -> pl_int_level s = pl_int_level (u_s u) ->
  pl_int_enabled s = pl_int_enabled (u_s u) ->
  link_ok (mk_Pl011 s (u_socket u) (set_notified true (set_attached true (set_infinite false (set_can_send 16 (u_peer u)))))
             (u_update u) (u_irq u)).
Proof.
  intros [Hr [P1 P2 P3 P4 P5] Hs Hi] Hr' H0 Hl He. split; [done| |done|].
  - split; cbn; [done|done|left; lia|by left|done].
  - unfold irq_ok in *. cbn. by rewrite Hl, He.
Qed.

Lemma head_splice n v l : is_byte v -> head (splice 0 (store_le (S n) v) l) = Some v.
Proof. intros Hv. unfold splice. rewrite take_0. cbn. by rewrite (Z.mod_small v 256). Qed.

Lemma bus_read_ok t y : link_ok (y_u y) -> op_valid (UBus t) -> command t = TLM_READ_COMMAND ->
  exists y' ev, serial_step (UBus t) y = Ret (y', ev) /\ step_ok (UBus t) y y' ev.
Proof.
  intros Hl (Hlen & Hdat & Ha & Hid) Hc. destruct y as [u log]. cbn [y_u serial_step]. unfold pl011_b_transport.
  cbn [command set_response_status set_dmi_allowed data_length data address]. rewrite Hc.
  destruct Hlen as [?|Hlen]; [congruence|].
  assert ((data_length t =? 1) || (data_length t =? 2) || (data_length t =? 4) = true) as -> by (destruct Hlen as [->|[->| ->]]; done).
  rewrite (proj2 (Nat.ltb_ge _ _)) by lia. unfold step_ok, all_taken, bus_events, written. rewrite Hc. cbn [typed].
  destruct (Z.eqb_spec (Z.shiftr (address t) 2) 0) as [E|E]; cbn [andb].
  - assert (pl011_read (address t) u = read_UARTDR u) as -> by (unfold pl011_read; by rewrite E).
    destruct (read_UARTDR_ok u Hl) as (v & u' & -> & Hl' & Hv & Hs & Hq & Hx). cbn [rbind fst snd].
    do 2 eexists. split; [done|]. cbn [y_u y_log]. split; [done|]. rewrite Hs, Hq, !app_nil_r, Hx. split; [|done].
    destruct (0 <? _); [|done]. cbn [map concat taken data set_data]. rewrite app_nil_r, <- app_assoc.
    destruct (data_length t =? 4); rewrite head_splice by done; done.
  - destruct (pl011_read_other (address t) u Ha E Hid) as (v & ->). cbn [rbind fst snd].
    do 2 eexists. split; [done|]. cbn [y_u y_log map concat app]. by rewrite !app_nil_r.
Qed.

Lemma bus_write_ok t y : link_ok (y_u y) -> op_valid (UBus t) -> command t = TLM_WRITE_COMMAND ->
  exists y' ev, serial_step (UBus t) y = Ret (y', ev) /\ step_ok (UBus t) y y' ev.
Proof.
  intros Hl (Hlen & Hdat & Ha & Hid) Hc. destruct y as [u log]. cbn [y_u serial_step]. unfold pl011_b_transport.
  cbn [command set_response_status set_dmi_allowed data_length data address]. rewrite Hc.
  destruct Hlen as [?|Hlen]; [congruence|].
  assert ((data_length t =? 1) || (data_length t =? 2) || (data_length t =? 4) = true) as -> by (destruct Hlen as [->|[->| ->]]; done).
  rewrite (proj2 (Nat.ltb_ge _ _)) by lia. unfold step_ok, all_taken, bus_events, written. rewrite Hc. cbn [typed].
  set (v := load_le _). destruct (Z.eqb_spec (Z.shiftr (address t) 2) 0) as [E|E].
  - destruct (write_UARTDR_ok (address t) v u E) as (s & -> & Hs). cbn [rbind fst snd]. do 2 eexists. split; [done|].
    rewrite E. cbn [Z.eqb orb map concat app y_u y_log u_peer u_socket u_s].
    destruct (same_ring_link u (mk_Pl011 s (enqueue (Z.land v 255) (u_socket u)) (u_peer u) true (u_irq u)) Hs) as [Hl' Hx];
      [split; [done|by left]|done|apply bf_ok_enqueue, Hl|done|].
    split; [done|]. cbn [u_s] in Hx. rewrite Hx, app_nil_r. split; [done|]. cbn [enqueue set_notified set_queue bf_queue].
    change 255 with (Z.ones 8). rewrite Z.land_ones by done. done.
  - destruct (decide (Z.shiftr (address t) 2 = 11 \/ Z.shiftr (address t) 2 = 13)) as [Hr|Hr].
    + destruct (pl011_write_reset (address t) v u Hr (link_ring _ Hl)) as (s & -> & Hs & H0 & Hi1 & Hi2). cbn [rbind fst snd].
      assert ((Z.shiftr (address t) 2 =? 11) || (Z.shiftr (address t) 2 =? 13) = true) as -> by (destruct Hr as [->| ->]; done).
      do 2 eexists. split; [done|]. cbn [y_u y_log map concat taken u_s u_peer u_socket].
      split; [by apply link_reset|]. rewrite !app_nil_r. split; [|done]. unfold rx at 2. by rewrite H0, ring_empty.
    + destruct (pl011_write_other (address t) v u E ltac:(tauto) ltac:(tauto)) as (s & up & -> & Hs & Hi). cbn [rbind fst snd].
      assert ((Z.shiftr (address t) 2 =? 11) || (Z.shiftr (address t) 2 =? 13) = false) as ->.
      { apply orb_false_iff. split; apply Z.eqb_neq; tauto. }
      do 2 eexists. split; [done|]. cbn [y_u y_log map concat app u_peer u_socket u_s].
      destruct (same_ring_link u (mk_Pl011 s (u_socket u) (u_peer u) up (u_irq u)) Hs Hi eq_refl (link_socket _ Hl) Hl) as [Hl' Hx].
      cbn [u_s] in Hx. by rewrite Hx, !app_nil_r.
Qed.

Lemma update_irq_ok u : irq_ok (pl011_update_sysc u).
Proof.
  unfold pl011_update_sysc, irq_ok. destruct (Z.eqb_spec (Z.land irqmask0 (pl_int_enabled (u_s u))) 0); cbn; [done|]. intros _ _. done.
Qed.

Lemma serial_step_ok op y :
  link_ok (y_u y) -> op_valid op -> Z.of_nat (length (bf_queue (u_socket (y_u y)))) < 2 ^ 32 ->
  exists y' ev, serial_step op y = Ret (y', ev) /\ step_ok op y y' ev.
Proof.
  intros Hl Hv Hq. destruct op as [t|b|c| | |].
  - destruct (command t) eqn:Hc; [by apply bus_read_ok|by apply bus_write_ok|].
    cbn [serial_step]. unfold pl011_b_transport. cbn [command set_response_status set_dmi_allowed]. rewrite Hc. cbn [rbind fst snd].
    do 2 eexists. split; [done|]. unfold step_ok, bus_events, written. rewrite Hc. cbn. by rewrite !app_nil_r.
  - do 2 eexists. split; [reflexivity|]. split; [by apply link_enqueue|]. cbn. by rewrite !app_nil_r.
  - cbn [serial_step]. rewrite initiator_ctrl_send. cbn in Hv. destruct (ct_cmd c) eqn:Hc; [done| |]; cbn [rbind];
      (do 2 eexists; split; [reflexivity|]); unfold step_ok; cbn; rewrite !app_nil_r; (split; [|done]);
      destruct Hl as [Hr [P1 P2 P3 P4 P5] [Hs _] Hi]; (split; [done|by split| |done]); (split; [|by left]); cbn; [apply u32_range|done].
  - destruct (peer_sendall_ok y Hl) as (y' & E & Hl' & Hlog & Hsk & Hx & Hqu). exists y', []. split; [done|].
    split; [done|]. rewrite Hx, Hqu, Hlog, Hsk. cbn. rewrite !app_nil_r, <- app_assoc, take_drop. done.
  - destruct Hl as [Hr [P1 P2 P3 P4 P5] [Hs Ha] Hi]. destruct y as [u log]. cbn [y_u serial_step] in *.
    destruct (sendall_collect (u_socket u) log Hs Hq) as (s' & E & Hqu & _ & _ & Hok). set (n := Z.to_nat (sending (u_socket u))) in *.
    cbn [y_log]. rewrite E. cbn [rbind fst snd]. do 2 eexists. split; [done|]. split; cbn [y_u y_log].
    + by split.
    + cbn. rewrite Hqu, !app_nil_r, <- app_assoc, take_drop, length_app. repeat split; lia.
  - do 2 eexists. split; [reflexivity|]. unfold step_ok. cbn [y_u y_log].
    assert (exists b, pl011_update_sysc (y_u y) = mk_Pl011 (u_s (y_u y)) (u_socket (y_u y)) (u_peer (y_u y)) false b) as [b Hb].
    { unfold pl011_update_sysc. destruct (negb _); by eexists. }
    pose proof (update_irq_ok (y_u y)) as Hirq. rewrite Hb in Hirq |- *. cbn. rewrite !app_nil_r.
    destruct Hl as [Hr [P1 P2 P3 P4 P5] Hs Hi]. split; [|done]. split; [done|by split|done|done].
Qed.

(** C22: The serial link of the UART, for every order of the driver's accesses, the back end's
    characters and grants, and the processes: no step fails; the characters that leave the
    receive buffer, by a read of the data register or by a write that empties it, are
    those the back end enqueued, in that order and once each, and the rest waits in the
    buffer or in the back end's queue; those the driver writes reach the back end in the
    same way.  After it the buffer holds at most sixteen, what the back end may send fits,
    no process sleeps that has work, and the interrupt line is right or due. *)
Theorem uart_link ops : forall y,
  link_ok (y_u y) -> Forall op_valid ops ->
  Z.of_nat (length (bf_queue (u_socket (y_u y)) ++ concat (map written ops))) < 2 ^ 32 ->
  exists y' ev, serial_run ops y = Ret (y', ev) /\ link_ok (y_u y') /\
    all_taken ev ++ rx (u_s (y_u y')) ++ bf_queue (u_peer (y_u y')) =
      rx (u_s (y_u y)) ++ bf_queue (u_peer (y_u y)) ++ concat (map typed ops) /\
    y_log y' ++ bf_queue (u_socket (y_u y')) = y_log y ++ bf_queue (u_socket (y_u y)) ++ concat (map written ops).
Proof.
  induction ops as [|op ops IH]; intros y Hl Hv Hq.
  { exists y, []. cbn. by rewrite !app_nil_r. }
  inversion Hv as [|?? Hv1 Hv2]; subst. cbn [map concat] in *. rewrite !length_app in Hq.
  destruct (serial_step_ok op y Hl Hv1) as (y1 & e1 & E1 & Hl1 & Hr1 & Hw1 & Hlog1); [lia|].
  destruct (IH y1 Hl1 Hv2) as (y2 & e2 & E2 & Hl2 & Hr2 & Hw2).
  { apply (f_equal length) in Hw1. rewrite !length_app in Hw1. rewrite length_app. lia. }
  exists y2, (e1 ++ e2). cbn [serial_run]. rewrite E1. cbn [rbind fst snd]. rewrite E2. split; [done|]. split; [done|].
  unfold all_taken in *. rewrite map_app, concat_app, <- !app_assoc, Hr2, Hw2. split.
  - rewrite (app_assoc (rx (u_s (y_u y1)))), (app_assoc (concat (map taken e1))), Hr1. by rewrite <- !app_assoc.
  - rewrite (app_assoc (y_log y1)), Hw1. by rewrite <- !app_assoc.
Qed.

(** ** A character arrives *)

Lemma new_Pl011_ok socket : bf_ok socket -> link_ok (new_Pl011 socket new_biflow).
Proof.
  intros Hs. split; [| |done|done].
  - split; cbn; [done|lia|lia|]. by repeat constructor.
  - split; cbn; [done|lia|by right|by right|done].
Qed.

(** A read of the data register with characters in the buffer. *)
Lemma bus_read_got t y y' ev :
  command t = TLM_READ_COMMAND -> Z.shiftr (address t) 2 = 0 -> 0 < pl_read_count (u_s (y_u y)) ->
  serial_step (UBus t) y = Ret (y', ev) -> exists b, ev = [Got b].
Proof.
  intros Hc Ha Hn. cbn [serial_step]. destruct (pl011_b_transport t (y_u y)) as [x|]; [|done]. cbn [rbind].
  intros [= _ <-]. unfold bus_events. rewrite Hc, Ha, (proj2 (Z.ltb_lt _ _) Hn). by eexists.
Qed.

Lemma rx_nonempty s : rx_ring_ok s -> rx s <> [] -> 0 < pl_read_count s.
Proof.
  intros [_ _ Hc _] Hx. destruct (Z.eq_dec (pl_read_count s) 0) as [E|E]; [|lia]. exfalso. apply Hx. unfold rx. by rewrite E.
Qed.

(** No character is stuck.  Once the driver has set the line up, a character that waits in
    the back end's queue with nothing before it in the receive buffer has the sending
    process due, and after that process has run the driver's next read of the data
    register returns it; one that is first in the buffer is returned in any case. *)
Theorem uart_byte_arrives y t b rest :
  link_ok (y_u y) -> pl_read_count (u_s (y_u y)) + bf_can_send (u_peer (y_u y)) = 16 ->
  rx (u_s (y_u y)) ++ bf_queue (u_peer (y_u y)) = b :: rest ->
  op_valid (UBus t) -> command t = TLM_READ_COMMAND -> Z.shiftr (address t) 2 = 0 ->
  (rx (u_s (y_u y)) = [] -> bf_notified (u_peer (y_u y)) = true) /\
  exists y1 y2, serial_step UPeerSendall y = Ret (y1, []) /\ serial_step (UBus t) y1 = Ret (y2, [Got b]).
Proof.
  intros Hl H16 Hq Hv Hc Ha. pose proof (link_ring _ Hl) as Hr. destruct (link_peer _ Hl) as [Hf Hpr _ Haw _].
  pose proof (sending_credit (u_peer (y_u y)) Hf) as Hs.
  assert (rx (u_s (y_u y)) = [] -> 0 < sending (u_peer (y_u y))) as Hpos.
  { intros E. rewrite E in Hq. cbn in Hq. rewrite Hs, Hq. cbn [length].
    assert (pl_read_count (u_s (y_u y)) = 0); [|lia]. pose proof (ring_count _ Hr). apply (f_equal length) in E.
    unfold rx, ring in E. rewrite length_fmap, length_seq in E. cbn in E. lia. }
  split; [intros E; destruct Haw as [Hn|Hn]; [done|specialize (Hpos E); lia]|].
  destruct (peer_sendall_ok y Hl) as (y1 & E1 & Hl1 & _ & _ & Hx & Hqu).
  destruct (bus_read_ok t y1 Hl1 Hv Hc) as (y2 & ev & E2 & _ & Htk & _).
  assert (rx (u_s (y_u y1)) <> []) as Hne.
  { rewrite Hx. destruct (rx (u_s (y_u y))) as [|z l]; [|done]. specialize (Hpos eq_refl). cbn in Hq. rewrite Hq. cbn [app].
    destruct (Z.to_nat (sending (u_peer (y_u y)))) eqn:?; [lia|done]. }
  destruct (bus_read_got t y1 y2 ev Hc Ha (rx_nonempty _ (link_ring _ Hl1) Hne) E2) as [b' ->].
  exists y1, y2. split; [done|]. rewrite E2. do 4 f_equal. rewrite Hx, Hqu in Htk. cbn in Htk.
  rewrite app_nil_r, <- app_assoc, take_drop, Hq in Htk. by injection Htk.
Qed.

(** ** Examples and defects *)

Definition ex_access (c : tlm_command) (a : Z) (l : list Z) : payload := plain_txn c a l.

(** The driver sets the line up; a character is typed and read, another is printed. *)
Definition ex_session : list uart_op :=
  [UBus (ex_access TLM_WRITE_COMMAND 0x2c [0x70; 0; 0; 0]); UPeerGrant (mk_ctrl INFINITE_VALUE 0); UPeerEnqueue 97; UPeerEnqueue 98;
   UPeerSendall; UBus (ex_access TLM_READ_COMMAND 0 [0]); UBus (ex_access TLM_WRITE_COMMAND 0 [104]); USendall; UUpdate].

Lemma ex_session_valid : Forall op_valid ex_session.
Proof. repeat (apply Forall_cons_2; [cbn; repeat split; try done; try lia; right; tauto|]). by apply Forall_nil_2. Qed.

Definition ex_serial_link : serial := mk_serial (new_Pl011 new_biflow new_biflow) [].

Lemma new_biflow_ok : bf_ok new_biflow.
Proof. split; [done|by right]. Qed.

Lemma uart_link_witness :
  exists y' ev, serial_run ex_session ex_serial_link = Ret (y', ev) /\ link_ok (y_u y') /\
    all_taken ev ++ rx (u_s (y_u y')) ++ bf_queue (u_peer (y_u y')) = [97; 98] /\
    y_log y' ++ bf_queue (u_socket (y_u y')) = [104].
Proof.
  apply (uart_link ex_session ex_serial_link (new_Pl011_ok _ new_biflow_ok) ex_session_valid). reflexivity.
Defined.

(** The state after the driver has set the line up and a character was typed. *)
Definition ex_waiting : serial :=
  match serial_run (take 4 ex_session) ex_serial_link with Ret x => x.1 | Err _ => ex_serial_link end.

Definition ex_waiting_state : serial := Eval vm_compute in ex_waiting.

Lemma ex_waiting_ok : link_ok (y_u ex_waiting_state).
Proof.
  split; [split|split|split|]; cbn; try done; try lia; try (by left); try (by right); try (by repeat constructor); by left.
Qed.

Lemma uart_byte_arrives_witness :
  exists y1 y2, serial_step UPeerSendall ex_waiting_state = Ret (y1, []) /\
    serial_step (UBus (ex_access TLM_READ_COMMAND 0 [0])) y1 = Ret (y2, [Got 97]).
Proof.
  apply (uart_byte_arrives ex_waiting_state (ex_access TLM_READ_COMMAND 0 [0]) 97 [98] ex_waiting_ok); try reflexivity.
  split; [right; by left|]. cbn. repeat split; done || lia.
Defined.

(** Writing the line control or FIFO level register empties the buffer but leaves the flag
    register and the interrupt level: the driver still sees characters that are gone. *)
Theorem pl011_reset_keeps_flags offset v u u' :
  Z.shiftr offset 2 = 11 \/ Z.shiftr offset 2 = 13 -> pl011_write offset v u = Ret (tt, u') ->
  rx (u_s u') = [] /\ pl_flags (u_s u') = pl_flags (u_s u) /\ pl_int_level (u_s u') = pl_int_level (u_s u).
Proof.
  intros H. unfold pl011_write, pl011_set_read_trigger, um_grant, um_s, sm_bind, sm_modify, sm_get, um_res, sm_put.
  destruct H as [H|H]; rewrite H; rewrite can_receive_set_ok by lia; intros [= <-]; cbn; [|done]. by destruct (negb _).
Qed.

(** When every interrupt is masked the line keeps its level. *)
Theorem pl011_masked_irq_stuck u :
  Z.land irqmask0 (pl_int_enabled (u_s u)) = 0 -> u_irq (pl011_update_sysc u) = u_irq u.
Proof. intros H. unfold pl011_update_sysc. by rewrite H. Qed.

(** The word after the identification registers is read from behind their array. *)
Theorem pl011_id_out_of_bounds offset u : 0x1000 <= offset < 0x1004 -> pl011_read offset u = Err StopUndef.
Proof.
  intros H. assert (offset = 0x1000 \/ offset = 0x1001 \/ offset = 0x1002 \/ offset = 0x1003) as E by lia.
  destruct E as [->|[->|[->| ->]]]; reflexivity.
Qed.

(** A read of two bytes stores one. *)
Theorem pl011_read16_truncated t u t' u' b0 b1 :
  command t = TLM_READ_COMMAND -> data_length t = 2 -> data t = [b0; b1] -> pl011_b_transport t u = Ret (t', u') ->
  exists v, data t' = [v; b1].
Proof.
  intros Hc Hl Hd. unfold pl011_b_transport. cbn [command set_response_status set_dmi_allowed data_length data address].
  rewrite Hc, Hl, Hd. cbn. destruct (pl011_read _ _) as [x|]; [|done]. cbn. intros [= <- _]. by eexists.
Qed.
