(* ===== verification/IbexUart.v ===== *)
(** * The Ibex UART

    uart/uart-ibex/include/uart-ibex.h: a UART with one receive register, over the
    serial socket of [Biflow].  It grants one character when the driver enables the
    interrupt and one more with every read of the receive register. *)

From stdpp Require Import base list numbers option.
From S2P Require Import Prelude Monad Tlm Biflow Pl011.

Definition REG_ITSTAT : Z := 0x00.
Definition REG_ITEN : Z := 0x04.
Definition REG_CTRL : Z := 0x0c.
Definition REG_STATUS : Z := 0x10.
Definition REG_RDATA : Z := 0x14.
Definition REG_WDATA : Z := 0x18.

Definition FIELD_IT_RXWATERMARK : Z := 0x2.
Definition FIELD_CTRL_RXENABLE : Z := 0x2.
Definition FIELD_STATUS_TXEMPTY : Z := 0x04.
Definition FIELD_STATUS_RXIDLE : Z := 0x10.
Definition FIELD_STATUS_RXEMPTY : Z := 0x20.

(** The registers, the socket and the one it is bound to, [update_event] and the line. *)
Record ibex_uart : Type := mk_ibex {
  ib_it_state : Z;
  ib_it_enable : Z;
  ib_ctrl : Z;
  ib_status : Z;
  ib_rdata : Z;
  ib_socket : biflow;
  ib_peer : biflow;
  ib_update : bool;
  ib_irq : bool;
}.

Definition new_ibex_uart (socket peer : biflow) : ibex_uart :=
  mk_ibex 0 0 0 (Z.lor (Z.lor FIELD_STATUS_TXEMPTY FIELD_STATUS_RXIDLE) FIELD_STATUS_RXEMPTY) 0 socket peer true false.

Definition set_it_state (v : Z) (u : ibex_uart) : ibex_uart :=
  mk_ibex v (ib_it_enable u) (ib_ctrl u) (ib_status u) (ib_rdata u) (ib_socket u) (ib_peer u) (ib_update u) (ib_irq u).
Definition set_it_enable (v : Z) (u : ibex_uart) : ibex_uart :=
  mk_ibex (ib_it_state u) v (ib_ctrl u) (ib_status u) (ib_rdata u) (ib_socket u) (ib_peer u) (ib_update u) (ib_irq u).
Definition set_ctrl (v : Z) (u : ibex_uart) : ibex_uart :=
  mk_ibex (ib_it_state u) (ib_it_enable u) v (ib_status u) (ib_rdata u) (ib_socket u) (ib_peer u) (ib_update u) (ib_irq u).
Definition set_status (v : Z) (u : ibex_uart) : ibex_uart :=
  mk_ibex (ib_it_state u) (ib_it_enable u) (ib_ctrl u) v (ib_rdata u) (ib_socket u) (ib_peer u) (ib_update u) (ib_irq u).
Definition set_rdata (v : Z) (u : ibex_uart) : ibex_uart :=
  mk_ibex (ib_it_state u) (ib_it_enable u) (ib_ctrl u) (ib_status u) v (ib_socket u) (ib_peer u) (ib_update u) (ib_irq u).
Definition set_ib_socket (v : biflow) (u : ibex_uart) : ibex_uart :=
  mk_ibex (ib_it_state u) (ib_it_enable u) (ib_ctrl u) (ib_status u) (ib_rdata u) v (ib_peer u) (ib_update u) (ib_irq u).
Definition set_ib_peer (v : biflow) (u : ibex_uart) : ibex_uart :=
  mk_ibex (ib_it_state u) (ib_it_enable u) (ib_ctrl u) (ib_status u) (ib_rdata u) (ib_socket u) v (ib_update u) (ib_irq u).
Definition set_ib_update (v : bool) (u : ibex_uart) : ibex_uart :=
  mk_ibex (ib_it_state u) (ib_it_enable u) (ib_ctrl u) (ib_status u) (ib_rdata u) (ib_socket u) (ib_peer u) v (ib_irq u).
Definition set_ib_irq (v : bool) (u : ibex_uart) : ibex_uart :=
  mk_ibex (ib_it_state u) (ib_it_enable u) (ib_ctrl u) (ib_status u) (ib_rdata u) (ib_socket u) (ib_peer u) (ib_update u) v.

Definition has_bits (v f : Z) : bool := negb (Z.land v f =? 0).

(** [update_irqs], the process of the line. *)
Definition ibex_update_irqs (u : ibex_uart) : ibex_uart :=
  set_ib_irq (has_bits (Z.land (ib_it_state u) (ib_it_enable u)) FIELD_IT_RXWATERMARK) (set_ib_update false u).

(** [recv]: a character that finds the register taken, or the receiver off, is an error. *)
Definition ibex_recv (value : Z) : SM ibex_uart unit :=
  do! u := sm_get in
  if has_bits (ib_ctrl u) FIELD_CTRL_RXENABLE && has_bits (ib_status u) FIELD_STATUS_RXEMPTY then
    sm_put (set_ib_update true
      (set_it_state (Z.lor (ib_it_state u) FIELD_IT_RXWATERMARK)
        (set_status (clear_bits (Z.lor FIELD_STATUS_RXEMPTY FIELD_STATUS_RXIDLE) (ib_status u)) (set_rdata (u8 value) u))))
  else sm_fail StopFatal.

Definition ibex_receive (t : payload) (u : ibex_uart) : res (payload * ibex_uart) :=
  let n := Z.to_nat (streaming_width t) in
  if (length (data t) <? n)%nat then Err StopUndef
  else let? x := sm_iter ibex_recv (take n (data t)) u in Ret (t, x.2).

Definition ibex_reg_read (addr : Z) (u : ibex_uart) : res (Z * ibex_uart) :=
  if addr =? REG_ITSTAT then Ret (ib_it_state u, u)
  else if addr =? REG_ITEN then Ret (ib_it_enable u, u)
  else if addr =? REG_CTRL then Ret (ib_ctrl u, u)
  else if addr =? REG_STATUS then Ret (ib_status u, u)
  else if addr =? REG_RDATA then
    let r := ib_rdata u in
    let u := if has_bits (ib_ctrl u) FIELD_CTRL_RXENABLE
             then set_rdata 0 (set_status (Z.lor (ib_status u) (Z.lor FIELD_STATUS_RXIDLE FIELD_STATUS_RXEMPTY)) u) else u in
    let? p := can_receive_more 1 (ib_peer u) in
    Ret (r, set_ib_peer p u)
  else Ret (0, u).

Definition ibex_reg_write (addr data : Z) (u : ibex_uart) : res ibex_uart :=
  if addr =? REG_ITSTAT then Ret (set_ib_update true (set_it_state (clear_bits data (ib_it_state u)) u))
  else if addr =? REG_ITEN then
    let u := set_it_enable (Z.land data FIELD_IT_RXWATERMARK) u in
    let? p := can_receive_set 1 (ib_peer u) in
    Ret (set_ib_update true (set_ib_peer p u))
  else if addr =? REG_CTRL then Ret (set_ctrl data u)
  else if addr =? REG_STATUS then Ret u
  else if addr =? REG_WDATA then Ret (set_ib_socket (enqueue (Z.land data 0xff) (ib_socket u)) u)
  else Ret u.

(** [b_transport]; a read of two bytes stores one, as in the PL011. *)
Definition ibex_b_transport (t : payload) (u : ibex_uart) : res (payload * ibex_uart) :=
  let len := data_length t in
  let n := Z.to_nat len in
  if negb (Z.land (address t) 3 =? 0) then Ret (set_response_status TLM_ADDRESS_ERROR_RESPONSE t, u)
  else
    let? x := match command t with
              | TLM_WRITE_COMMAND =>
                  if (len =? 1) || (len =? 2) || (len =? 4) then
                    if (length (data t) <? n)%nat then Err StopUndef
                    else let? u := ibex_reg_write (address t) (load_le (take n (data t))) u in Ret (t, u)
                  else Err StopFatal
              | TLM_READ_COMMAND =>
                  if (len =? 1) || (len =? 2) || (len =? 4) then
                    if (length (data t) <? n)%nat then Err StopUndef
                    else
                      let? x := ibex_reg_read (address t) u in
                      let bytes := if len =? 4 then store_le 4 x.1 else store_le 1 x.1 in
                      Ret (set_data (splice 0 bytes (data t)) t, x.2)
                  else Err StopFatal
              | TLM_IGNORE_COMMAND => Ret (t, u)
              end in
    Ret (set_response_status TLM_OK_RESPONSE (set_dmi_allowed false x.1), x.2).

(** * The link with a careful driver *)

Record ibex_link : Type := mk_ibex_link { il_u : ibex_uart; il_log : list Z }.

(** The character in the receive register, if there is one. *)
Definition ib_rx (u : ibex_uart) : list Z := if has_bits (ib_status u) FIELD_STATUS_RXEMPTY then [] else [ib_rdata u].

Definition ibex_events (t : payload) (u : ibex_uart) (t' : payload) : list uart_event :=
  match command t with
  | TLM_READ_COMMAND => if address t =? REG_RDATA then [Got (default 0 (head (data t')))] else []
  | _ => []
  end.

Definition ibex_step (op : uart_op) (y : ibex_link) : res (ibex_link * list uart_event) :=
  let u := il_u y in
  match op with
  | UBus t => let? x := ibex_b_transport t u in Ret (mk_ibex_link x.2 (il_log y), ibex_events t u x.1)
  | UPeerEnqueue b => Ret (mk_ibex_link (set_ib_peer (enqueue b (ib_peer u)) u) (il_log y), [])
  | UPeerGrant c => let? b := initiator_ctrl (send_ctrl c) (ib_socket u) in Ret (mk_ibex_link (set_ib_socket b u) (il_log y), [])
  | UPeerSendall => let? x := sendall ibex_receive (ib_peer u) u in Ret (mk_ibex_link (set_ib_peer x.1 x.2) (il_log y), [])
  | USendall => let? x := sendall collect (ib_socket u) (il_log y) in Ret (mk_ibex_link (set_ib_socket x.1 u) x.2, [])
  | UUpdate => Ret (mk_ibex_link (ibex_update_irqs u) (il_log y), [])
  end.

(** A driver that reads the receive register when the status register says that it holds a
    character, and grants one, by the interrupt enable register, when it is empty and the
    receiver is on; it turns the receiver off when nothing is granted. *)
Definition careful (t : payload) (u : ibex_uart) : Prop :=
  let v := load_le (take (Z.to_nat (data_length t)) (data t)) in
  (data_length t = 1 \/ data_length t = 2 \/ data_length t = 4) /\ (Z.to_nat (data_length t) <= length (data t))%nat /\
  Z.land (address t) 3 = 0 /\
  match command t with
  | TLM_READ_COMMAND => address t = REG_RDATA -> ib_rx u <> []
  | TLM_WRITE_COMMAND =>
      (address t = REG_ITEN -> ib_rx u = [] /\ has_bits (ib_ctrl u) FIELD_CTRL_RXENABLE = true) /\
      (address t = REG_CTRL -> has_bits v FIELD_CTRL_RXENABLE = true \/ ib_rx u = [] /\ bf_can_send (ib_peer u) = 0)
  | TLM_IGNORE_COMMAND => True
  end.

Definition ibex_valid (op : uart_op) (u : ibex_uart) : Prop :=
  match op with
  | UBus t => careful t u
  | UPeerEnqueue b => is_byte b
  | UPeerGrant c => ct_cmd c <> DELTA_CHANGE
  | _ => True
  end.

Record ibex_ok (u : ibex_uart) : Prop := {
  ix_finite : bf_infinite (ib_peer u) = false;
  ix_credit : 0 <= bf_can_send (ib_peer u) /\ Z.of_nat (length (ib_rx u)) + bf_can_send (ib_peer u) <= 1;
  ix_enabled : Z.of_nat (length (ib_rx u)) + bf_can_send (ib_peer u) = 1 -> has_bits (ib_ctrl u) FIELD_CTRL_RXENABLE = true;
  ix_awake : awake (ib_peer u);
  ix_bytes : Forall is_byte (bf_queue (ib_peer u));
  ix_rdata : is_byte (ib_rdata u);
  ix_socket : bf_ok (ib_socket u);
}.

Definition ibex_written (op : uart_op) : list Z :=
  match op with
  | UBus t => match command t with
              | TLM_WRITE_COMMAND =>
                  if address t =? REG_WDATA then [load_le (take (Z.to_nat (data_length t)) (data t)) mod 256] else []
              | _ => []
              end
  | _ => []
  end.

Definition ibex_step_good (op : uart_op) (y y' : ibex_link) (ev : list uart_event) : Prop :=
  ibex_ok (il_u y') /\
  all_taken ev ++ ib_rx (il_u y') ++ bf_queue (ib_peer (il_u y')) = ib_rx (il_u y) ++ bf_queue (ib_peer (il_u y)) ++ typed op /\
  il_log y' ++ bf_queue (ib_socket (il_u y')) = il_log y ++ bf_queue (ib_socket (il_u y)) ++ ibex_written op.

(** The bit of the status register that says the receive register is empty. *)
Lemma status_cleared s : has_bits (clear_bits (Z.lor FIELD_STATUS_RXEMPTY FIELD_STATUS_RXIDLE) s) FIELD_STATUS_RXEMPTY = false.
Proof.
  unfold has_bits, clear_bits. rewrite <- Z.land_assoc. change (Z.land (u32 (Z.lnot (Z.lor FIELD_STATUS_RXEMPTY FIELD_STATUS_RXIDLE))) FIELD_STATUS_RXEMPTY) with 0.
  by rewrite Z.land_0_r.
Qed.

Lemma status_emptied s : has_bits (Z.lor s (Z.lor FIELD_STATUS_RXIDLE FIELD_STATUS_RXEMPTY)) FIELD_STATUS_RXEMPTY = true.
Proof.
  unfold has_bits. apply negb_true_iff, Z.eqb_neq. intros H. apply (f_equal (fun z => Z.testbit z 5)) in H.
  rewrite Z.land_spec, Z.lor_spec, Z.bits_0 in H. change (Z.testbit (Z.lor FIELD_STATUS_RXIDLE FIELD_STATUS_RXEMPTY) 5) with true in H.
  change (Z.testbit FIELD_STATUS_RXEMPTY 5) with true in H. by rewrite orb_true_r in H.
Qed.

(** A character is taken when the register is empty and the receiver on. *)
Lemma ibex_recv_ok v u : is_byte v -> ib_rx u = [] -> has_bits (ib_ctrl u) FIELD_CTRL_RXENABLE = true ->
  exists it st, ibex_recv v u = Ret (tt, mk_ibex it (ib_it_enable u) (ib_ctrl u) st v (ib_socket u) (ib_peer u) true (ib_irq u)) /\
    has_bits st FIELD_STATUS_RXEMPTY = false.
Proof.
  intros Hv Hx He. unfold ib_rx in Hx. destruct (has_bits (ib_status u) FIELD_STATUS_RXEMPTY) eqn:Hs; [|done].
  unfold ibex_recv, sm_bind, sm_get, sm_put. rewrite He, Hs. cbn [andb]. do 2 eexists. split; [|apply (status_cleared (ib_status u))].
  do 2 f_equal. unfold set_ib_update, set_it_state, set_status, set_rdata. cbn. by rewrite (wrap_small 8 v).
Qed.

Lemma ibex_peer_sendall_ok y : ibex_ok (il_u y) ->
  exists y', ibex_step UPeerSendall y = Ret (y', []) /\ ibex_step_good UPeerSendall y y' [].
Proof.
  destruct y as [u log]. intros [Hf [Hc0 Hc1] He Ha Hb Hr Hs]. cbn [il_u] in *. unfold ibex_step_good. cbn [ibex_step il_u il_log typed ibex_written].
  pose proof (sending_bound (ib_peer u) Hc0) as Hn. pose proof (sending_credit (ib_peer u) Hf) as Hm.
  assert (exists u', ibex_receive (send_txn (ib_peer u)) u = Ret (send_txn (ib_peer u), u') /\ (sending (ib_peer u) = 0 -> u' = u) /\
    ib_rx u' = ib_rx u ++ take (Z.to_nat (sending (ib_peer u))) (bf_queue (ib_peer u)) /\ ib_ctrl u' = ib_ctrl u /\
    ib_socket u' = ib_socket u /\ is_byte (ib_rdata u')) as (u' & E & Hz & Hx & Hct & Hso & Hrd).
  { destruct (send_txn_width (ib_peer u)) as [Hw Hd]; [lia|]. unfold ibex_receive. rewrite Hw, Hd.
    rewrite (proj2 (Nat.ltb_ge _ _)) by lia. destruct (Z.eq_dec (sending (ib_peer u)) 0) as [E0|E0].
    { rewrite E0. cbn. exists u. by rewrite app_nil_r. }
    assert (sending (ib_peer u) = 1) as -> by lia. destruct (bf_queue (ib_peer u)) as [|b q]; [cbn in *; lia|].
    apply Forall_cons_1 in Hb as [Hb _]. assert (ib_rx u = []) as E1 by (destruct (ib_rx u); [done|cbn in *; lia]).
    destruct (ibex_recv_ok b u Hb E1) as (it & st & Er & Hst). { apply He. rewrite E1. cbn. lia. }
    change (take (Z.to_nat 1) (b :: q)) with [b]. cbn [sm_iter]. unfold sm_bind. rewrite Er. eexists. split; [done|].
    split; [done|]. rewrite E1. unfold ib_rx. cbn. by rewrite Hst. }
  destruct (sendall_ok ibex_receive (ib_peer u) u u' (send_txn (ib_peer u))) as (p' & Es & Hq & Hinf & Hcs & Hrg & Hz' & _); [lia|done|done|].
  rewrite Es. cbn [rbind fst snd]. specialize (Hcs Hf). exists (mk_ibex_link (set_ib_peer p' u') log). split; [done|].
  cbn [il_u il_log ib_peer ib_socket set_ib_peer]. change (ib_rx (set_ib_peer p' u')) with (ib_rx u').
  assert (Z.of_nat (length (ib_rx u')) + bf_can_send p' = Z.of_nat (length (ib_rx u)) + bf_can_send (ib_peer u)) as Hsum.
  { rewrite Hx, Hcs, length_app, length_take. lia. }
  split.
  - split; cbn [ib_peer set_ib_peer ib_ctrl ib_socket ib_rdata]; change (ib_rx (set_ib_peer p' u')) with (ib_rx u').
    + congruence.
    + split; lia.
    + rewrite Hsum, Hct. done.
    + by right.
    + rewrite Hq. by apply Forall_drop.
    + done.
    + by rewrite Hso.
  - rewrite Hx, Hq, Hso. cbn. rewrite !app_nil_r, <- app_assoc, take_drop. done.
Qed.

Lemma ibex_read_ok t u : ibex_ok u -> careful t u -> command t = TLM_READ_COMMAND ->
  exists v u', ibex_reg_read (address t) u = Ret (v, u') /\ ibex_ok u' /\ ib_socket u' = ib_socket u /\
    bf_queue (ib_peer u') = bf_queue (ib_peer u) /\
    (if address t =? REG_RDATA then is_byte v /\ ib_rx u = [v] /\ ib_rx u' = [] else ib_rx u' = ib_rx u).
Proof.
  intros Hok (_ & _ & _ & Hr) Hc. rewrite Hc in Hr. unfold ibex_reg_read.
  destruct (Z.eqb_spec (address t) REG_RDATA) as [E|E].
  2: { destruct (address t =? REG_ITSTAT), (address t =? REG_ITEN), (address t =? REG_CTRL), (address t =? REG_STATUS);
       do 2 eexists; (split; [done|]); done. }
  rewrite E. cbn [Z.eqb Pos.eqb REG_RDATA REG_ITSTAT REG_ITEN REG_CTRL REG_STATUS]. specialize (Hr E).
  destruct Hok as [Hf [Hc0 Hc1] He Ha Hb Hrd Hs]. unfold ib_rx in Hr, He, Hc1 |- *.
  destruct (has_bits (ib_status u) FIELD_STATUS_RXEMPTY) eqn:Hst; [done|]. cbn [length Z.of_nat Pos.of_succ_nat] in *.
  rewrite He by lia. cbn [ib_peer set_rdata set_status]. rewrite can_receive_more_ok by (done || lia). cbn [rbind].
  do 2 eexists. split; [done|]. cbn [ib_peer ib_status ib_rdata ib_socket set_ib_peer set_rdata set_status]. rewrite status_emptied.
  assert (bf_can_send (ib_peer u) = 0) as H0 by lia.
  split; [|split; [done|]; split; [done|]; split; [apply Hrd|done]]. split; cbn; unfold ib_rx; cbn; rewrite ?status_emptied, ?H0; cbn; try done; try lia.
  - intros _. apply He. lia.
  - by left.
Qed.

Lemma ibex_write_ok t u : ibex_ok u -> careful t u -> command t = TLM_WRITE_COMMAND ->
  exists u', ibex_reg_write (address t) (load_le (take (Z.to_nat (data_length t)) (data t))) u = Ret u' /\ ibex_ok u' /\
    bf_queue (ib_peer u') = bf_queue (ib_peer u) /\ ib_rx u' = ib_rx u /\
    bf_queue (ib_socket u') = bf_queue (ib_socket u) ++ ibex_written (UBus t).
Proof.
  intros Hok (_ & _ & _ & Hw) Hc. rewrite Hc in Hw. destruct Hw as [Hie Hct]. cbn [ibex_written]. rewrite Hc.
  set (v := load_le _) in *. unfold ibex_reg_write.
  destruct (Z.eqb_spec (address t) REG_ITSTAT) as [->|_].
  { eexists. split; [done|]. cbn. rewrite app_nil_r. split; [|done]. by destruct Hok; split. }
  destruct (Z.eqb_spec (address t) REG_ITEN) as [E|_].
  { rewrite E. destruct (Hie E) as [Hx He]. destruct Hok as [Hf [Hc0 Hc1] Hen Ha Hb Hrd Hs].
    rewrite can_receive_set_ok by lia. cbn [rbind]. eexists. split; [done|]. cbn. rewrite app_nil_r. split; [|done].
    unfold ib_rx in *. split; cbn; unfold ib_rx; cbn; try done; rewrite ?Hx; cbn; try done. by left. }
  destruct (Z.eqb_spec (address t) REG_CTRL) as [E|_].
  { rewrite E. destruct Hok as [Hf [Hc0 Hc1] Hen Ha Hb Hrd Hs]. eexists. split; [done|]. cbn. rewrite app_nil_r. split; [|done].
    split; cbn; try done. change (ib_rx (set_ctrl v u)) with (ib_rx u). destruct (Hct E) as [H|[Hx H0]]; [done|].
    rewrite Hx, H0. cbn. lia. }
  destruct (Z.eqb_spec (address t) REG_STATUS) as [->|_].
  { eexists. split; [done|]. cbn. by rewrite app_nil_r. }
  destruct (address t =? REG_WDATA).
  { eexists. split; [done|]. cbn. split; [|split; [done|split; [done|]]].
    - destruct Hok; split; try done. by apply bf_ok_enqueue.
    - change 255 with (Z.ones 8). by rewrite Z.land_ones. }
  eexists. split; [done|]. by rewrite app_nil_r.
Qed.

(** The Ibex UART with a careful driver: whatever the order of its accesses, the back end's
    characters and the processes, no step fails and no character is lost, repeated or
    overtaken, in either direction. *)
Theorem ibex_careful_driver op y :
  ibex_ok (il_u y) -> ibex_valid op (il_u y) -> Z.of_nat (length (bf_queue (ib_socket (il_u y)))) < 2 ^ 32 ->
  exists y' ev, ibex_step op y = Ret (y', ev) /\ ibex_step_good op y y' ev.
Proof.
  intros Hok Hv Hq. destruct op as [t|b|c| | |].
  - pose proof Hv as (Hlen & Hdat & Hal & _). destruct y as [u log]. cbn [il_u ibex_step] in *. unfold ibex_b_transport, ibex_events.
    rewrite Hal. cbn [Z.eqb negb].
    assert ((data_length t =? 1) || (data_length t =? 2) || (data_length t =? 4) = true) as -> by (destruct Hlen as [->|[->| ->]]; done).
    rewrite (proj2 (Nat.ltb_ge _ _)) by lia. unfold ibex_step_good. destruct (command t) eqn:Hc.
    + destruct (ibex_read_ok t u Hok Hv Hc) as (v & u' & -> & Hok' & Hs & Hp & Hx). cbn [rbind fst snd].
      do 2 eexists. split; [done|]. cbn [il_u il_log typed ibex_written]. rewrite Hc, Hs, Hp, !app_nil_r. split; [done|]. split; [|done].
      destruct (address t =? REG_RDATA); [|by rewrite Hx]. destruct Hx as (Hb & -> & ->).
      unfold all_taken. cbn [map concat taken data set_data set_response_status set_dmi_allowed].
      destruct (data_length t =? 4); rewrite head_splice by done; done.
    + destruct (ibex_write_ok t u Hok Hv Hc) as (u' & -> & Hok' & Hp & Hx & Hs). cbn [rbind fst snd].
      do 2 eexists. split; [done|]. cbn [il_u il_log typed]. rewrite Hp, Hx, Hs, app_nil_r. done.
    + cbn [rbind fst snd]. do 2 eexists. split; [done|]. cbn. rewrite Hc, !app_nil_r. done.
  - do 2 eexists. split; [reflexivity|]. unfold ibex_step_good. cbn. rewrite !app_nil_r. split; [|done].
    destruct Hok as [Hf Hcr He Ha Hb Hrd Hs]. split; try done; [by left|]. cbn. apply Forall_app. split; [done|by constructor].
  - cbn [ibex_step]. rewrite initiator_ctrl_send. cbn in Hv. destruct (ct_cmd c) eqn:Hc; [done| |]; cbn [rbind];
      (do 2 eexists; split; [reflexivity|]); unfold ibex_step_good; cbn; rewrite !app_nil_r; (split; [|done]);
      destruct Hok as [Hf Hcr He Ha Hb Hrd [Hs _]]; split; try done; (split; [|by left]); [apply u32_range|done].
  - destruct (ibex_peer_sendall_ok y Hok) as (y' & E & Hg). by exists y', [].
  - destruct Hok as [Hf Hcr He Ha Hb Hrd [Hs Hw]]. destruct y as [u log]. cbn [il_u ibex_step] in *.
    destruct (sendall_collect (ib_socket u) log Hs Hq) as (s' & E & Hqu & _ & _ & Hsk).
    cbn [il_log]. rewrite E. cbn [rbind fst snd]. do 2 eexists. split; [done|]. split; cbn [il_u il_log].
    + by split.
    + cbn. rewrite Hqu, !app_nil_r, <- app_assoc, take_drop. done.
  - do 2 eexists. split; [reflexivity|]. unfold ibex_step_good. cbn. rewrite !app_nil_r. split; [|done]. by destruct Hok; split.
Qed.

(** A driver that reads the receive register while it is empty is granted a character too many:
    the second of two characters then finds the register taken and stops the simulation. *)
Definition ex_idle_read : list uart_op :=
  [UBus (ex_access TLM_WRITE_COMMAND REG_CTRL [2; 0; 0; 0]); UBus (ex_access TLM_WRITE_COMMAND REG_ITEN [2; 0; 0; 0]);
   UBus (ex_access TLM_READ_COMMAND REG_RDATA [0; 0; 0; 0]); UPeerEnqueue 97; UPeerEnqueue 98; UPeerSendall].

Fixpoint ibex_run (ops : list uart_op) (y : ibex_link) : res ibex_link :=
  match ops with
  | [] => Ret y
  | op :: ops' => let? x := ibex_step op y in ibex_run ops' x.1
  end.

Theorem ibex_idle_read_overflows :
  ibex_run ex_idle_read (mk_ibex_link (new_ibex_uart new_biflow new_biflow) []) = Err StopFatal.
Proof. reflexivity. Qed.
