(* ===== verification/QuantumKeeper.v ===== *)
(** * Quantum keepers

    The quantum keepers that let a processor model run in a thread of its own beside
    the SystemC kernel (common/src/libgssync/qkmultithread.cc, common/include/qkmulti-*.h
    and async_event.h).  Times are [sc_time] values: unsigned 64-bit counts of the time
    resolution.  The two threads are the steps of a machine: what runs under the mutex of
    the source is one step, a thread that waits on the condition variable waits for a
    state in which its loop ends. *)

From stdpp Require Import base list numbers option relations.
From S2P Require Import Prelude.

(** ** Events that another thread may notify *)

(** [async_event]: [ev_pending] is the time of the pending notification of the SystemC event,
    [ev_outstanding] the delay that another thread has left, [ev_attached] whether the
    kernel waits for the channel and [ev_attach] the change another thread has left. *)
Record async_event : Type := mk_event {
  ev_pending : option Z;
  ev_outstanding : option Z;
  ev_attached : bool;
  ev_attach : option bool;
}.

Definition new_async_event (start_attached : bool) : async_event := mk_event None None start_attached None.

(** [sc_event::notify (delay)]: of two pending notifications the earlier stays. *)
Definition sc_notify (now delay : Z) (e : async_event) : async_event :=
  let t := u64 (now + delay) in
  mk_event (Some (match ev_pending e with Some t' => Z.min t' t | None => t end))
    (ev_outstanding e) (ev_attached e) (ev_attach e).

(** [notify (delay)] from the SystemC thread or from another. *)
Definition ev_notify (sysc : bool) (now delay : Z) (e : async_event) : async_event :=
  if sysc then sc_notify now delay e
  else mk_event (ev_pending e) (Some delay) (ev_attached e) (ev_attach e).

(** [async_attach_suspending] and [async_detach_suspending]. *)
Definition ev_set_attached (sysc b : bool) (e : async_event) : async_event :=
  if sysc then mk_event (ev_pending e) (ev_outstanding e) b (ev_attach e)
  else mk_event (ev_pending e) (ev_outstanding e) (ev_attached e) (Some b).

(** [update], on the SystemC thread. *)
Definition ev_update (now : Z) (e : async_event) : async_event :=
  let e := match ev_outstanding e with
           | Some d => let e := sc_notify now d e in mk_event (ev_pending e) None (ev_attached e) (ev_attach e)
           | None => e
           end in
  let e := match ev_attach e with Some b => ev_set_attached true b e | None => e end in
  mk_event (ev_pending e) (ev_outstanding e) (ev_attached e) None.

(** ** Policies *)

Inductive jobstates : Type := NONE | RUNNING | STOPPED.

#[global] Instance jobstates_eq_dec : EqDecision jobstates.
Proof. solve_decision. Defined.

(** What the kinds of quantum keeper override: [time_to_sync] and [need_sync], given the state
    of the job, the SystemC time, the local time and the global quantum. *)
Class QkPolicy : Type := {
  time_to_sync : jobstates -> Z -> Z -> Z -> Z;
  need_sync : jobstates -> Z -> Z -> Z -> bool;
}.

(** [tlm_quantumkeeper_multithread]. *)
Definition time_to_sync_multithread (st : jobstates) (now local quantum : Z) : Z :=
  let q := u64 (now + u64 (quantum * 2)) in
  if local <=? q then q - local else 0.

#[global] Instance qk_multithread : QkPolicy := {
  time_to_sync := time_to_sync_multithread;
  need_sync _ _ _ _ := true;
}.

(** [tlm_quantumkeeper_multi_quantum]. *)
Definition time_to_sync_quantum (st : jobstates) (now local quantum : Z) : Z :=
  let next_quantum_boundary := u64 (now + quantum) in
  if local <=? next_quantum_boundary then next_quantum_boundary - local else 0.

Definition qk_multi_quantum : QkPolicy := {|
  time_to_sync := time_to_sync_quantum;
  need_sync st now local quantum := time_to_sync_quantum st now local quantum =? 0;
|}.

(** [tlm_quantumkeeper_multi_adaptive]; a time multiplied by 0.5 is rounded to the nearest. *)
Definition time_to_sync_adaptive (st : jobstates) (now local quantum : Z) : Z :=
  if negb (bool_decide (st = RUNNING)) then 0
  else if local <=? now then u64 (quantum * 2)
  else if local <=? u64 (now + quantum) then quantum
  else if local <=? u64 (now + u64 (2 * quantum)) then (quantum + 1) / 2
  else 0.

Definition qk_multi_adaptive : QkPolicy := {|
  time_to_sync := time_to_sync_adaptive;
  need_sync st now local quantum := time_to_sync_adaptive st now local quantum =? 0;
|}.

(** [tlm_quantumkeeper_unconstrained]. *)
Definition qk_unconstrained : QkPolicy := {|
  time_to_sync _ _ _ quantum := quantum;
  need_sync _ _ _ _ := false;
|}.

(** ** The keeper *)

(** The members of [tlm_quantumkeeper_multithread], with the SystemC time and the suspension
    that the keeper's process has asked the kernel for.  [q_budget] belongs to the
    initiator: the time it may still run by its last [time_to_sync], negative when it has run
    further. *)
Record qk : Type := mk_qk {
  q_now : Z;
  q_local : Z;
  q_status : jobstates;
  q_systemc_waiting : bool;
  q_extern_waiting : bool;
  q_suspended : bool;
  q_tick : async_event;
  q_budget : Z;
}.

Definition set_now (v : Z) (s : qk) : qk :=
  mk_qk v (q_local s) (q_status s) (q_systemc_waiting s) (q_extern_waiting s) (q_suspended s) (q_tick s) (q_budget s).
Definition set_local (v : Z) (s : qk) : qk :=
  mk_qk (q_now s) v (q_status s) (q_systemc_waiting s) (q_extern_waiting s) (q_suspended s) (q_tick s) (q_budget s).
Definition set_job (v : jobstates) (s : qk) : qk :=
  mk_qk (q_now s) (q_local s) v (q_systemc_waiting s) (q_extern_waiting s) (q_suspended s) (q_tick s) (q_budget s).
Definition set_suspended (v : bool) (s : qk) : qk :=
  mk_qk (q_now s) (q_local s) (q_status s) v (q_extern_waiting s) v (q_tick s) (q_budget s).
Definition set_extern_waiting (v : bool) (s : qk) : qk :=
  mk_qk (q_now s) (q_local s) (q_status s) (q_systemc_waiting s) v (q_suspended s) (q_tick s) (q_budget s).
Definition set_tick (v : async_event) (s : qk) : qk :=
  mk_qk (q_now s) (q_local s) (q_status s) (q_systemc_waiting s) (q_extern_waiting s) (q_suspended s) v (q_budget s).
Definition set_budget (v : Z) (s : qk) : qk :=
  mk_qk (q_now s) (q_local s) (q_status s) (q_systemc_waiting s) (q_extern_waiting s) (q_suspended s) (q_tick s) v.

(** [m_tick.notify (delay)]. *)
Definition tick_notify (sysc : bool) (delay : Z) (s : qk) : qk :=
  set_tick (ev_notify sysc (q_now s) delay (q_tick s)) s.

Definition qk_inc (t : Z) (s : qk) : qk := set_local (u64 (q_local s + t)) s.

(** [set]: the argument is relative to the SystemC time; time does not go back. *)
Definition qk_set (sysc : bool) (t : Z) (s : qk) : qk :=
  let s := if q_local s <=? u64 (t + q_now s) then set_local (u64 (t + q_now s)) s else s in
  tick_notify sysc 0 s.

Definition qk_reset (sysc : bool) (s : qk) : qk := tick_notify sysc 0 (set_local (q_now s) s).

Definition qk_start (sysc : bool) (s : qk) : qk :=
  let s := set_job RUNNING s in
  tick_notify sysc 0 (set_tick (ev_set_attached sysc true (q_tick s)) s).

Definition qk_stop (sysc : bool) (s : qk) : qk :=
  if bool_decide (q_status s = STOPPED) then s else tick_notify sysc 0 (set_job STOPPED s).

Definition get_local_time (s : qk) : Z := if q_now s <=? q_local s then q_local s - q_now s else 0.

(** The constructor. *)
Definition new_qk (now : Z) : qk :=
  qk_reset true (mk_qk now 0 NONE false false false (new_async_event false) 0).

(** [timehandler], the method that [m_tick] triggers. *)
Definition timehandler (quantum : Z) (s : qk) : qk :=
  let e := q_tick s in
  let s := set_tick (mk_event None (ev_outstanding e) (ev_attached e) (ev_attach e)) s in
  if negb (bool_decide (q_status s = RUNNING)) then
    let s := set_suspended false s in
    set_tick (ev_set_attached true false (q_tick s)) s
  else if q_now s <? q_local s then
    tick_notify true (Z.min (q_local s - q_now s) quantum) (set_suspended false s)
  else set_suspended true s.

(** [sync] of the keeper's own thread: up to the loop, the test of the loop, what follows it,
    and the time-out of the wait. *)
Definition sync_enter (s : qk) : qk := set_extern_waiting true (tick_notify false 0 s).
Definition sync_loops {P : QkPolicy} (quantum : Z) (s : qk) : bool :=
  bool_decide (q_status s = RUNNING) && (time_to_sync (q_status s) (q_now s) (q_local s) quantum =? 0).
Definition sync_leave {P : QkPolicy} (quantum : Z) (s : qk) : qk :=
  set_budget (time_to_sync (q_status s) (q_now s) (q_local s) quantum) (set_extern_waiting false s).
Definition sync_timeout (s : qk) : qk := tick_notify false 0 s.

(** [sync] on the SystemC thread: the time its process waits, if it waits. *)
Definition sync_sysc (s : qk) : res (qk * option Z) :=
  let? _ := assertb (q_now s <=? q_local s) in
  let t := q_local s - q_now s in
  Ret (tick_notify true 0 s, if bool_decide (q_status s = STOPPED) then None else Some t).

(** [sync] of [tlm_quantumkeeper_freerunning] outside the SystemC thread: it does not wait. *)
Definition sync_freerunning (s : qk) : qk := tick_notify false 0 s.

(** * The two threads *)

(** Times stay below this bound, far from the wrap of 64 bits. *)
Definition horizon : Z := 2 ^ 62.

(** The steps of the kernel: it updates the event, runs the process of an event whose time has
    come, and otherwise, unless it is suspended, lets time pass, up to the next
    notification. *)
Inductive kernel_step (quantum : Z) (s : qk) : qk -> Prop :=
| k_update : kernel_step quantum s (set_tick (ev_update (q_now s) (q_tick s)) s)
| k_tick : ev_pending (q_tick s) = Some (q_now s) -> kernel_step quantum s (timehandler quantum s)
| k_advance now' :
    q_suspended s = false -> q_now s < now' < horizon ->
    match ev_pending (q_tick s) with Some t => q_now s < t /\ now' <= t | None => True end ->
    kernel_step quantum s (set_now now' s).

(** The steps of the initiator's thread: it runs, as far as it likes, telling the keeper how far it
    got in either of two ways, and enters, waits in and leaves [sync]. *)
Inductive extern_step `{QkPolicy} (quantum : Z) (s : qk) : qk -> Prop :=
| e_inc d :
    q_extern_waiting s = false -> 0 <= d -> q_local s + d < horizon ->
    extern_step quantum s (set_budget (q_budget s - d) (qk_inc d s))
| e_set v :
    q_extern_waiting s = false -> 0 <= v < horizon ->
    extern_step quantum s (set_budget (q_budget s - Z.max 0 (v - q_local s)) (qk_set false (u64 (v - q_now s)) s))
| e_enter : q_extern_waiting s = false -> extern_step quantum s (sync_enter s)
| e_leave : q_extern_waiting s = true -> sync_loops quantum s = false -> extern_step quantum s (sync_leave quantum s)
| e_timeout : q_extern_waiting s = true -> extern_step quantum s (sync_timeout s).

Inductive qk_reach `{QkPolicy} (quantum : Z) (s : qk) : qk -> Prop :=
| qk_here : qk_reach quantum s s
| qk_kernel s1 s2 : qk_reach quantum s s1 -> kernel_step quantum s1 s2 -> qk_reach quantum s s2
| qk_extern s1 s2 : qk_reach quantum s s1 -> extern_step quantum s1 s2 -> qk_reach quantum s s2.

(** ** What a policy promises *)

(** With [lead quantum] the furthest that the policy lets the local time run ahead: the budget it
    gives, unless it gives none, stays within that, and it gives one when SystemC has caught up. *)
Class BoundedPolicy (P : QkPolicy) (lead : Z -> Z) : Prop := {
  lead_range quantum : 0 < quantum < 2 ^ 60 -> 0 < lead quantum <= 4 * quantum;
  budget_bound st now local quantum :
    0 < quantum < 2 ^ 60 -> 0 <= now < horizon -> 0 <= local < horizon ->
    0 <= time_to_sync st now local quantum /\
    (time_to_sync st now local quantum <> 0 -> local + time_to_sync st now local quantum <= now + lead quantum);
  budget_given now local quantum :
    0 < quantum < 2 ^ 60 -> 0 <= now < horizon -> 0 <= local < horizon -> local <= now ->
    0 < time_to_sync RUNNING now local quantum;
}.

Ltac time_arith :=
  intros; unfold horizon in *;
  repeat match goal with
    | |- context [wrap 64 ?z] =>
        lazymatch z with context [wrap _ _] => fail | _ => rewrite (wrap_small 64 z) by (unfold in_width; lia) end
    end;
  repeat match goal with |- context [?a <=? ?b] => destruct (Z.leb_spec a b) end; lia.

#[global] Instance multithread_bounded : BoundedPolicy qk_multithread (fun quantum => 2 * quantum).
Proof.
  split; cbn; unfold time_to_sync_multithread; time_arith.
Qed.

#[global] Instance quantum_bounded : BoundedPolicy qk_multi_quantum (fun quantum => quantum).
Proof. split; cbn; unfold time_to_sync_quantum; time_arith. Qed.

(** The adaptive keeper gives half a quantum to an initiator that is up to two ahead. *)
#[global] Instance adaptive_bounded : BoundedPolicy qk_multi_adaptive (fun quantum => 2 * quantum + (quantum + 1) / 2).
Proof.
  assert (forall q, 0 < q -> 0 < (q + 1) / 2 <= q) as Hh.
  { intros q Hq. split; [apply Z.div_str_pos; lia|]. apply Z.div_le_upper_bound; lia. }
  split; cbn; unfold time_to_sync_adaptive.
  - intros q Hq. specialize (Hh q ltac:(lia)). lia.
  - intros st now local q Hq. specialize (Hh q ltac:(lia)). destruct (bool_decide (st = RUNNING)); cbn [negb]; [time_arith|lia].
  - intros now local q Hq. specialize (Hh q ltac:(lia)). rewrite bool_decide_eq_true_2 by done. cbn [negb]. time_arith.
Qed.

(** ** Lockstep *)

Section lockstep.
Context {P : QkPolicy} {lead : Z -> Z} {HP : BoundedPolicy P lead}.
Context (quantum : Z) (Hquantum : 0 < quantum < 2 ^ 60).

(** Of a running keeper: the budget stays within the lead; the kernel is suspended or has a
    notification pending no later than the local time; and an initiator that waits has told
    a suspended kernel. *)
Record qk_inv (s : qk) : Prop := {
  qi_now : 0 <= q_now s < horizon;
  qi_local : q_now s <= q_local s < horizon;
  qi_running : q_status s = RUNNING;
  qi_budget : q_local s + q_budget s <= q_now s + lead quantum;
  qi_outstanding : forall d, ev_outstanding (q_tick s) = Some d -> d = 0;
  qi_pending : forall t, ev_pending (q_tick s) = Some t -> q_now s <= t <= q_local s;
  qi_armed : q_suspended s = false -> ev_pending (q_tick s) <> None;
  qi_told : q_suspended s = true -> q_extern_waiting s = true ->
    ev_outstanding (q_tick s) <> None \/ ev_pending (q_tick s) <> None \/ q_local s = q_now s;
  qi_due : q_suspended s = true -> forall t, ev_pending (q_tick s) = Some t -> t = q_now s;
}.

Lemma sc_notify_pending now delay e : 0 <= now + delay < 2 ^ 64 ->
  ev_pending (sc_notify now delay e) = Some (match ev_pending e with Some t => Z.min t (now + delay) | None => now + delay end).
Proof. intros H. unfold sc_notify. cbn. by rewrite wrap_small. Qed.

(** What [update] leaves. *)
Lemma ev_update_eq now e : 0 <= now < horizon -> (forall d, ev_outstanding e = Some d -> d = 0) ->
  ev_outstanding (ev_update now e) = None /\
  ev_pending (ev_update now e) =
    match ev_outstanding e with
    | Some _ => Some (match ev_pending e with Some t => Z.min t now | None => now end)
    | None => ev_pending e
    end.
Proof.
  unfold horizon. intros Hn Hd. unfold ev_update. destruct e as [p [d|] a [b|]]; cbn [ev_outstanding ev_pending ev_attach] in *;
    try (rewrite (Hd d eq_refl)); cbn; rewrite ?Z.add_0_r, ?wrap_small by (unfold in_width; lia); done.
Qed.

Lemma inv_update s : qk_inv s -> qk_inv (set_tick (ev_update (q_now s) (q_tick s)) s).
Proof.
  intros [Hn Hl Hr Hb Ho Hp Ha Ht Hd]. destruct (ev_update_eq (q_now s) (q_tick s) Hn Ho) as [E1 E2].
  revert E1 E2. generalize (ev_update (q_now s) (q_tick s)). intros e' E1 E2.
  split; cbn; rewrite ?E1, ?E2; try done.
  - intros t. destruct (ev_outstanding (q_tick s)) as [d|]; [|apply Hp]. intros [= <-].
    destruct (ev_pending (q_tick s)) as [t|] eqn:E; [specialize (Hp t eq_refl)|]; lia.
  - destruct (ev_outstanding (q_tick s)); [done|apply Ha].
  - intros Hs Hw. destruct (ev_outstanding (q_tick s)); [right; by left|]. destruct (Ht Hs Hw) as [?|?]; [done|by right].
  - intros Hs t. destruct (ev_outstanding (q_tick s)) as [d|]; [|by apply Hd]. intros [= <-].
    destruct (ev_pending (q_tick s)) as [t|] eqn:E; [specialize (Hd Hs t eq_refl)|]; lia.
Qed.

Lemma timehandler_running s : q_status s = RUNNING -> 0 <= q_now s < horizon -> q_local s < horizon ->
  timehandler quantum s =
  let e := q_tick s in
  if q_now s <? q_local s then
    mk_qk (q_now s) (q_local s) RUNNING false (q_extern_waiting s) false
      (mk_event (Some (q_now s + Z.min (q_local s - q_now s) quantum)) (ev_outstanding e) (ev_attached e) (ev_attach e)) (q_budget s)
  else
    mk_qk (q_now s) (q_local s) RUNNING true (q_extern_waiting s) true
      (mk_event None (ev_outstanding e) (ev_attached e) (ev_attach e)) (q_budget s).
Proof.
  unfold horizon. intros Hr Hn Hl. unfold timehandler. cbn [q_status set_tick]. rewrite Hr, bool_decide_eq_true_2 by done. cbn.
  destruct (Z.ltb_spec (q_now s) (q_local s)); unfold tick_notify, set_suspended, set_tick, sc_notify; cbn; rewrite ?Hr; [|done].
  f_equal. unfold sc_notify. cbn. do 2 f_equal. apply wrap_small. unfold in_width. lia.
Qed.

Lemma inv_tick s : qk_inv s -> qk_inv (timehandler quantum s).
Proof.
  intros [Hn Hl Hr Hb Ho Hp Ha Ht Hd]. rewrite timehandler_running by (done || lia). cbv zeta.
  destruct (Z.ltb_spec (q_now s) (q_local s)); split; cbn; try done; try lia.
  intros t [= <-]. lia.
Qed.

Lemma inv_kernel s s' : qk_inv s -> kernel_step quantum s s' -> qk_inv s'.
Proof.
  intros Hi. destruct 1 as [|Hd|n' Hs Hn' Hp]; [by apply inv_update|by apply inv_tick|].
  destruct Hi as [Hn Hl Hr Hb Ho Hpe Ha Ht Hd]. specialize (Ha Hs).
  destruct (ev_pending (q_tick s)) as [t|] eqn:E; [|done]. specialize (Hpe t eq_refl).
  split; cbn; rewrite ?E, ?Hs; try done; try lia. intros t' [= <-]. lia.
Qed.

Lemma inv_extern s s' : qk_inv s -> extern_step quantum s s' -> qk_inv s'.
Proof.
  intros Hi. pose proof Hi as [Hn Hl Hr Hb Ho Hp Ha Ht Hd].
  destruct 1 as [d Hw Hd' Hh|v Hw Hv|Hw|Hw Hloop|Hw]; unfold horizon in *.
  - assert (u64 (q_local s + d) = q_local s + d) as E by (apply wrap_small; unfold in_width; lia).
    split; cbn; rewrite ?E, ?Hw; try done; unfold horizon; try lia. intros t Et. specialize (Hp t Et). lia.
  - assert (u64 (u64 (v - q_now s) + q_now s) = v) as E by (apply u64_add_sub_cancel; lia).
    unfold qk_set. rewrite E. destruct (Z.leb_spec (q_local s) v);
      split; cbn; rewrite ?Hw; try done; unfold horizon; try lia; try (by intros d' [= <-]);
      intros t Et; specialize (Hp t Et); lia.
  - split; cbn; try done; try (by intros d' [= <-]). intros _ _. by left.
  - destruct (budget_bound (q_status s) (q_now s) (q_local s) quantum) as [Hb1 Hb2]; unfold horizon; try lia.
    unfold sync_loops in Hloop. rewrite bool_decide_eq_true_2 in Hloop by done. apply Z.eqb_neq in Hloop. specialize (Hb2 Hloop). split; cbn; try done.
  - split; cbn; try done; try (by intros d' [= <-]). intros _ _. by left.
Qed.

Lemma inv_reach s s' : qk_inv s -> qk_reach quantum s s' -> qk_inv s'.
Proof. intros Hi. induction 1; eauto using inv_kernel, inv_extern. Qed.

(** The keeper once it was started, at some time, and its process has run. *)
Definition started (now : Z) : qk := timehandler quantum (qk_start true (new_qk now)).

Lemma inv_started now : 0 <= now < horizon -> qk_inv (started now).
Proof.
  intros Hn. unfold started. rewrite timehandler_running by (cbn; done || lia). cbn. rewrite Z.ltb_irrefl.
  destruct (lead_range quantum Hquantum). split; cbn; try done; lia.
Qed.

(** ** Progress *)

(** A kernel that is not suspended catches up with the local time by itself. *)
Lemma kernel_catches_up n : forall s, qk_inv s -> q_suspended s = false -> q_local s - q_now s <= Z.of_nat n ->
  exists s', rtc (kernel_step quantum) s s' /\ qk_inv s' /\ q_now s' = q_local s'.
Proof.
  induction n as [|n IH]; intros s Hi Hs Hn; pose proof Hi as [Hnow Hl Hr Hb Ho Hp Ha Ht Hd].
  { exists s. split; [apply rtc_refl|]. split; [done|lia]. }
  destruct (Z.eq_dec (q_now s) (q_local s)) as [E|E]; [by exists s; split; [apply rtc_refl|]|].
  assert (forall s1 t, rtc (kernel_step quantum) s s1 -> qk_inv s1 -> q_suspended s1 = false -> q_now s1 = q_now s ->
    q_local s1 = q_local s -> ev_pending (q_tick s1) = Some t -> q_now s < t ->
    exists s', rtc (kernel_step quantum) s s' /\ qk_inv s' /\ q_now s' = q_local s') as Hgo.
  { intros s1 t Hrtc Hi1 Hs1 En El Ep Hlt. pose proof (qi_pending _ Hi1 t Ep) as Hb1.
    assert (kernel_step quantum s1 (set_now t s1)) as Hstep by (constructor; rewrite ?Ep; (done || lia)).
    destruct (IH (set_now t s1)) as (s' & Hrtc' & Hi' & Hq').
    - by apply (inv_kernel s1).
    - done.
    - cbn. lia.
    - exists s'. split; [|done]. etransitivity; [exact Hrtc|]. by eapply rtc_l. }
  destruct (ev_pending (q_tick s)) as [t|] eqn:Ep; [|by destruct (Ha Hs)]. specialize (Hp t eq_refl).
  destruct (Z.eq_dec t (q_now s)) as [->|Hne]; [|eapply (Hgo s t); [apply rtc_refl|done|done|done|done|done|lia]].
  pose proof (timehandler_running s Hr Hnow ltac:(lia)) as Eh. cbv zeta in Eh. rewrite (proj2 (Z.ltb_lt _ _)) in Eh by lia.
  eapply (Hgo (timehandler quantum s)); [apply rtc_once; by constructor|by apply inv_tick|by rewrite Eh..|]. lia.
Qed.

(** A suspended kernel that an initiator waits for runs its process again. *)
Lemma kernel_resumes s : qk_inv s -> q_extern_waiting s = true ->
  exists s', rtc (kernel_step quantum) s s' /\ qk_inv s' /\ (q_suspended s' = false \/ q_now s' = q_local s').
Proof.
  intros Hi Hw. destruct (q_suspended s) eqn:Hs; [|exists s; split; [apply rtc_refl|by auto]].
  assert (forall s1, rtc (kernel_step quantum) s s1 -> qk_inv s1 -> q_now s1 = q_now s -> ev_pending (q_tick s1) = Some (q_now s) ->
    exists s', rtc (kernel_step quantum) s s' /\ qk_inv s' /\ (q_suspended s' = false \/ q_now s' = q_local s')) as Hgo.
  { intros s1 Hrtc Hi1 En Ep. exists (timehandler quantum s1). split; [|split; [by apply inv_tick|]].
    - eapply rtc_r; [exact Hrtc|]. constructor. by rewrite En.
    - pose proof Hi1 as [Hnow Hl Hr Hb Ho Hp Ha Ht Hd]. rewrite timehandler_running by (done || lia). cbv zeta.
      destruct (Z.ltb_spec (q_now s1) (q_local s1)); cbn; [by left|right; lia]. }
  pose proof Hi as [Hnow Hl Hr Hb Ho Hp Ha Ht Hd]. destruct (ev_pending (q_tick s)) as [t|] eqn:Ep.
  { apply (Hgo s); [apply rtc_refl|done|done|]. by rewrite Ep, (Hd Hs t). }
  destruct (Ht Hs Hw) as [Hout|[?|E]]; [|done|by exists s; split; [apply rtc_refl|auto]].
  destruct (ev_update_eq (q_now s) (q_tick s) Hnow Ho) as [_ E2].
  apply (Hgo (set_tick (ev_update (q_now s) (q_tick s)) s)); [apply rtc_once; by constructor|by apply inv_update|done|].
  cbn [q_tick set_tick]. rewrite E2, Ep. by destruct (ev_outstanding (q_tick s)).
Qed.
End lockstep.

(** C7: Lockstep of a processor thread and SystemC.  While the quantum keeper runs, and times are far
    from the wrap of 64 bits, whatever the order in which the two threads take their steps and however
    far the processor runs: SystemC's time never passes the local time of the processor, and the
    processor is ahead of it by no more than the lead of its policy (two quanta for the default
    keeper, one for the quantum keeper, two and a half for the adaptive one) and what it has run
    beyond the budget that its last synchronisation gave it. *)
Theorem qk_lockstep (P : QkPolicy) (lead : Z -> Z) (HP : BoundedPolicy P lead) quantum now s :
  0 < quantum < 2 ^ 60 -> 0 <= now < horizon -> qk_reach quantum (started quantum now) s ->
  q_now s <= q_local s <= q_now s + lead quantum + Z.max 0 (- q_budget s).
Proof.
  intros Hq Hn Hr. destruct (inv_reach quantum Hq _ _ (inv_started quantum Hq now Hn) Hr) as [_ Hl _ Hb _ _ _ _ _]. lia.
Qed.

(** C34: No deadlock between a processor that waits in [sync] and a suspended SystemC kernel:
    in every reachable state the kernel has steps of its own, from that state, that give the
    processor a budget and let it leave. *)
Theorem qk_sync_returns (P : QkPolicy) (lead : Z -> Z) (HP : BoundedPolicy P lead) quantum now s :
  0 < quantum < 2 ^ 60 -> 0 <= now < horizon -> qk_reach quantum (started quantum now) s -> q_extern_waiting s = true ->
  exists s', rtc (kernel_step quantum) s s' /\ sync_loops quantum s' = false.
Proof.
  intros Hq Hn Hr Hw. pose proof (inv_reach quantum Hq _ _ (inv_started quantum Hq now Hn) Hr) as Hi.
  assert (exists s', rtc (kernel_step quantum) s s' /\ qk_inv (lead:=lead) quantum s' /\ q_now s' = q_local s') as (s' & Hs & Hi' & E).
  { destruct (kernel_resumes quantum Hq s Hi Hw) as (s1 & H1 & Hi1 & [Hsus|E]); [|by exists s1].
    destruct (kernel_catches_up quantum Hq (Z.to_nat (q_local s1 - q_now s1)) s1 Hi1 Hsus) as (s2 & H2 & Hi2 & E); [lia|].
    exists s2. split; [by etransitivity|done]. }
  exists s'. split; [done|]. unfold sync_loops. apply andb_false_iff. right. apply Z.eqb_neq.
  destruct Hi' as [Hn' Hl' Hr' _ _ _ _ _ _]. rewrite Hr'.
  pose proof (budget_given (q_now s') (q_local s') quantum). lia.
Qed.

(** ** Examples *)

(** The processor synchronises, and runs for some time. *)
Definition ex_sync (P : QkPolicy) (s : qk) : qk := sync_leave 1000 (sync_enter s).
Definition ex_runs (d : Z) (s : qk) : qk := set_budget (q_budget s - d) (qk_inc d s).

Lemma ex_sync_reach (P : QkPolicy) s0 s : qk_reach 1000 s0 s -> q_extern_waiting s = false ->
  sync_loops 1000 (sync_enter s) = false -> qk_reach 1000 s0 (ex_sync P s).
Proof.
  intros Hr Hw Hl. apply (qk_extern _ _ (sync_enter s)); [|by apply e_leave]. apply (qk_extern _ _ s); [done|by apply e_enter].
Qed.

Lemma ex_runs_reach (P : QkPolicy) d s0 s : qk_reach 1000 s0 s -> q_extern_waiting s = false ->
  0 <= d -> q_local s + d < horizon -> qk_reach 1000 s0 (ex_runs d s).
Proof. intros Hr Hw Hd Hh. apply (qk_extern _ _ s); [done|by apply e_inc]. Qed.

(** It waits again when its whole budget is used. *)
Definition ex_qk_waiting : qk := sync_enter (ex_runs 2000 (ex_sync qk_multithread (started 1000 0))).

Lemma ex_qk_waiting_reach : qk_reach 1000 (started 1000 0) ex_qk_waiting.
Proof.
  eapply qk_extern; [|by apply e_enter]. by apply ex_runs_reach; [apply ex_sync_reach; [apply qk_here|..]|..].
Qed.

(** A processor that runs 700 beyond its budget of 2000. *)
Definition ex_qk_overrun : qk := ex_runs 2700 (ex_sync qk_multithread (started 1000 0)).

Lemma ex_qk_overrun_reach : qk_reach 1000 (started 1000 0) ex_qk_overrun.
Proof. by apply ex_runs_reach; [apply ex_sync_reach; [apply qk_here|..]|..]. Qed.

Lemma qk_lockstep_witness : q_budget ex_qk_overrun = -700 /\
  q_now ex_qk_overrun <= q_local ex_qk_overrun <= q_now ex_qk_overrun + 2 * 1000 + Z.max 0 (- q_budget ex_qk_overrun).
Proof.
  split; [reflexivity|].
  apply (qk_lockstep qk_multithread (fun quantum => 2 * quantum) multithread_bounded 1000 0 ex_qk_overrun
    ltac:(lia) ltac:(done) ex_qk_overrun_reach).
Defined.

Lemma qk_sync_returns_witness : exists s', rtc (kernel_step 1000) ex_qk_waiting s' /\ sync_loops (P:=qk_multithread) 1000 s' = false.
Proof.
  apply (qk_sync_returns qk_multithread (fun quantum => 2 * quantum) multithread_bounded 1000 0 ex_qk_waiting
    ltac:(lia) ltac:(done) ex_qk_waiting_reach eq_refl).
Defined.

(** The adaptive keeper, described as allowing one quantum, reaches its bound of two and a half. *)
Theorem adaptive_two_and_a_half :
  exists s, qk_reach (H:=qk_multi_adaptive) 1000 (started 1000 0) s /\ q_local s = q_now s + 2500.
Proof.
  exists (ex_runs 500 (ex_sync qk_multi_adaptive (ex_runs 2000 (ex_sync qk_multi_adaptive (started 1000 0))))).
  split; [|reflexivity]. apply ex_runs_reach; [|done..]. apply ex_sync_reach; [|done..].
  apply ex_runs_reach; [|done..]. apply ex_sync_reach; [apply qk_here|done..].
Qed.
