(* ===== verification/RunOnSysc.v ===== *)
(** * Running jobs on the SystemC thread

    common/include/runonsysc.h: threads outside SystemC post jobs to a queue that a
    SystemC process serves, and may wait for their jobs.  The threads, the process and the
    kernel are the steps of a machine; what the source does under its mutex is one step. *)

From stdpp Require Import base list numbers option relations sorting.
From S2P Require Import Prelude.

(** [AsyncJob]: [j_throws] says how the job ends when it runs; the promise is empty, holds a
    value or an exception. *)
Inductive promise : Type := PEmpty | PValue | PException.

#[global] Instance promise_eq_dec : EqDecision promise.
Proof. solve_decision. Defined.

Record AsyncJob : Type := mk_job {
  j_throws : bool;
  j_cancelled : bool;
  j_promise : promise;
}.

(** [done_promise.set_value] and [set_exception] throw when the promise is set; every caller
    catches that. *)
Definition set_promise (p : promise) (j : AsyncJob) : AsyncJob :=
  mk_job (j_throws j) (j_cancelled j) (match j_promise j with PEmpty => p | q => q end).

(** [cancel]. *)
Definition job_cancel (j : AsyncJob) : AsyncJob := set_promise PValue (mk_job (j_throws j) true (j_promise j)).

(** Where the process [jobs_handler] is: at the head of its loops with the mutex, in a job, in
    the wait that follows a job, waiting for the event, or ended. *)
Inductive handler_pc : Type := HTop | HJob (j : nat) | HDrain (j : nat) | HWait | HStopped.

(** [Core], with the jobs by number, [rs_outstanding] for a notification of
    [jobs_handler_event] that the kernel has not delivered, [rs_posting] for the threads
    between the push and the notification, [rs_waiting] for those that wait for their job,
    and [rs_log], the jobs that have run, in order. *)
Record runonsysc : Type := mk_runonsysc {
  rs_running : bool;
  rs_jobs : list AsyncJob;
  rs_queue : list nat;
  rs_running_job : option nat;
  rs_outstanding : bool;
  rs_pc : handler_pc;
  rs_posting : list nat;
  rs_waiting : list nat;
  rs_log : list nat;
}.

Definition new_runonsysc : runonsysc := mk_runonsysc true [] [] None false HTop [] [] [].

Definition set_rs_running (b : bool) (s : runonsysc) : runonsysc :=
  mk_runonsysc b (rs_jobs s) (rs_queue s) (rs_running_job s) (rs_outstanding s) (rs_pc s) (rs_posting s) (rs_waiting s) (rs_log s).
Definition set_rs_jobs (l : list AsyncJob) (s : runonsysc) : runonsysc :=
  mk_runonsysc (rs_running s) l (rs_queue s) (rs_running_job s) (rs_outstanding s) (rs_pc s) (rs_posting s) (rs_waiting s) (rs_log s).
Definition set_rs_queue (l : list nat) (s : runonsysc) : runonsysc :=
  mk_runonsysc (rs_running s) (rs_jobs s) l (rs_running_job s) (rs_outstanding s) (rs_pc s) (rs_posting s) (rs_waiting s) (rs_log s).
Definition set_rs_running_job (o : option nat) (s : runonsysc) : runonsysc :=
  mk_runonsysc (rs_running s) (rs_jobs s) (rs_queue s) o (rs_outstanding s) (rs_pc s) (rs_posting s) (rs_waiting s) (rs_log s).
Definition set_rs_outstanding (b : bool) (s : runonsysc) : runonsysc :=
  mk_runonsysc (rs_running s) (rs_jobs s) (rs_queue s) (rs_running_job s) b (rs_pc s) (rs_posting s) (rs_waiting s) (rs_log s).
Definition set_rs_pc (pc : handler_pc) (s : runonsysc) : runonsysc :=
  mk_runonsysc (rs_running s) (rs_jobs s) (rs_queue s) (rs_running_job s) (rs_outstanding s) pc (rs_posting s) (rs_waiting s) (rs_log s).
Definition set_rs_posting (l : list nat) (s : runonsysc) : runonsysc :=
  mk_runonsysc (rs_running s) (rs_jobs s) (rs_queue s) (rs_running_job s) (rs_outstanding s) (rs_pc s) l (rs_waiting s) (rs_log s).
Definition set_rs_waiting (l : list nat) (s : runonsysc) : runonsysc :=
  mk_runonsysc (rs_running s) (rs_jobs s) (rs_queue s) (rs_running_job s) (rs_outstanding s) (rs_pc s) (rs_posting s) l (rs_log s).
Definition set_rs_log (l : list nat) (s : runonsysc) : runonsysc :=
  mk_runonsysc (rs_running s) (rs_jobs s) (rs_queue s) (rs_running_job s) (rs_outstanding s) (rs_pc s) (rs_posting s) (rs_waiting s) l.

(** ** The process *)

(** The heads of the two loops: the next job is taken, the event is waited for, or the process
    ends. *)
Definition handler_top (s : runonsysc) : runonsysc :=
  if rs_running s then
    match rs_queue s with
    | j :: q => set_rs_pc (HJob j) (set_rs_running_job (Some j) (set_rs_queue q s))
    | [] => set_rs_pc HWait s
    end
  else set_rs_pc HStopped s.

(** [AsyncJob::operator()]: a job that was cancelled is not called.  The call is one step: a job
    in which the process waits at the end of the simulation is not resumed. *)
Definition handler_job (j : nat) (s : runonsysc) : runonsysc :=
  match rs_jobs s !! j with
  | None => s
  | Some x =>
      let s := if j_cancelled x then s else set_rs_log (rs_log s ++ [j]) s in
      let p := if negb (j_cancelled x) && j_throws x then PException else PValue in
      set_rs_pc (HDrain j) (set_rs_jobs (<[j:=set_promise p x]> (rs_jobs s)) s)
  end.

(** The end of the wait that lets the job's own notifications run. *)
Definition handler_drained (s : runonsysc) : runonsysc := set_rs_pc HTop (set_rs_running_job None s).

(** The kernel delivers the notification: a process that does not wait for it misses it. *)
Definition deliver_event (s : runonsysc) : runonsysc :=
  let s := set_rs_outstanding false s in
  match rs_pc s with HWait => set_rs_pc HTop s | _ => s end.

(** ** The other threads *)

(** [run_on_sysc] up to the end of the block that holds the mutex: [None] when the handler is
    stopped. *)
Definition post_job (throws wait : bool) (s : runonsysc) : option runonsysc :=
  if rs_running s then
    let j := length (rs_jobs s) in
    let s := set_rs_jobs (rs_jobs s ++ [mk_job throws false PEmpty]) s in
    let s := set_rs_queue (rs_queue s ++ [j]) s in
    let s := set_rs_posting (rs_posting s ++ [j]) s in
    Some (if wait then set_rs_waiting (rs_waiting s ++ [j]) s else s)
  else None.

(** [jobs_handler_event.async_notify]. *)
Definition notify_handler (s : runonsysc) : runonsysc := set_rs_outstanding true s.

Definition rs_stop (s : runonsysc) : runonsysc := set_rs_running false s.

(** What [run_on_sysc] does once the job's promise is set, and what it returns; [None] while
    it waits. *)
Definition finish_wait (j : nat) (s : runonsysc) : option (bool * runonsysc) :=
  match rs_jobs s !! j with
  | None => None
  | Some x =>
      let s := set_rs_waiting (filter (fun k => k <> j) (rs_waiting s)) s in
      match j_promise x with
      | PEmpty => None
      | PValue => Some (negb (j_cancelled x), s)
      | PException => Some (false, notify_handler (rs_stop s))
      end
  end.

(** [cancel_all]. *)
Definition cancel_all (s : runonsysc) : runonsysc :=
  let s := set_rs_jobs (foldl (fun js j => alter job_cancel j js) (rs_jobs s) (rs_queue s)) s in
  let s := set_rs_queue [] s in
  match rs_running_job s with
  | Some j => set_rs_running_job None (set_rs_jobs (alter job_cancel j (rs_jobs s)) s)
  | None => s
  end.

Definition rs_end_of_simulation (s : runonsysc) : runonsysc := cancel_all (rs_stop s).

(** ** The machine *)

(** The steps that need no thread outside the simulation but those that have a notification to
    make. *)
Inductive sysc_step (s : runonsysc) : runonsysc -> Prop :=
| s_top : rs_pc s = HTop -> sysc_step s (handler_top s)
| s_job j : rs_pc s = HJob j -> sysc_step s (handler_job j s)
| s_drained j : rs_pc s = HDrain j -> sysc_step s (handler_drained s)
| s_event : rs_outstanding s = true -> sysc_step s (deliver_event s)
| s_notify j : j ∈ rs_posting s -> sysc_step s (notify_handler (set_rs_posting (filter (fun k => k <> j) (rs_posting s)) s)).

Inductive thread_step (s : runonsysc) : runonsysc -> Prop :=
| t_post throws wait s' : post_job throws wait s = Some s' -> thread_step s s'
| t_return j b s' : j ∈ rs_waiting s -> j ∉ rs_posting s -> finish_wait j s = Some (b, s') -> thread_step s s'
| t_end : thread_step s (rs_end_of_simulation s).

Inductive rs_reach : runonsysc -> Prop :=
| rs_new : rs_reach new_runonsysc
| rs_sysc s s' : rs_reach s -> sysc_step s s' -> rs_reach s'
| rs_thread s s' : rs_reach s -> thread_step s s' -> rs_reach s'.

(** ** The invariant *)

(** The jobs that are queued or about to run. *)
Definition to_run (s : runonsysc) : list nat :=
  (match rs_pc s with HJob j => [j] | _ => [] end) ++ rs_queue s.

(** What a job's promise says of it. *)
Definition job_ok (s : runonsysc) (j : nat) (x : AsyncJob) : Prop :=
  match j_promise x with
  | PEmpty => j_cancelled x = false /\ (j ∈ to_run s) /\ (j ∉ rs_log s) /\ (rs_pc s = HJob j -> rs_running_job s = Some j)
  | PValue => j_cancelled x = true \/ (j ∈ rs_log s /\ j_throws x = false)
  | PException => j ∈ rs_log s /\ j_throws x = true
  end.

Record rs_inv (s : runonsysc) : Prop := {
  ri_order : StronglySorted lt (rs_log s ++ to_run s);
  ri_bound : forall j, j ∈ rs_log s ++ to_run s -> (j < length (rs_jobs s))%nat;
  ri_jobs : forall j x, rs_jobs s !! j = Some x -> job_ok s j x;
  ri_queued : forall j, j ∈ rs_queue s -> j_promise <$> rs_jobs s !! j = Some PEmpty;
  ri_wake : rs_pc s = HWait -> rs_queue s <> [] -> rs_outstanding s = true \/ rs_posting s <> [];
}.

Lemma job_ok_ext s s' j x :
  to_run s' = to_run s -> rs_log s' = rs_log s -> rs_pc s' = rs_pc s -> rs_running_job s' = rs_running_job s ->
  job_ok s j x -> job_ok s' j x.
Proof. unfold job_ok. by intros -> -> -> ->. Qed.

(** A change that does not concern the jobs. *)
Lemma inv_same s s' :
  rs_jobs s' = rs_jobs s -> rs_queue s' = rs_queue s -> rs_log s' = rs_log s -> rs_running_job s' = rs_running_job s ->
  rs_pc s' = rs_pc s ->
  (rs_pc s = HWait -> rs_queue s <> [] -> rs_outstanding s' = true \/ rs_posting s' <> []) -> rs_inv s -> rs_inv s'.
Proof.
  intros E1 E2 E3 E4 E5 Hw [Ho Hb Hj Hq _]. assert (to_run s' = to_run s) as E6 by (unfold to_run; by rewrite E2, E5).
  split; rewrite ?E1, ?E2, ?E3, ?E5, ?E6; try done. intros j x Hx. apply (job_ok_ext s); [done..|]. by apply Hj.
Qed.

Lemma inv_top s : rs_pc s = HTop -> rs_inv s -> rs_inv (handler_top s).
Proof.
  intros Hpc [Ho Hb Hj Hq Hw]. unfold handler_top, to_run, job_ok in *. rewrite Hpc in *. cbn [app] in *.
  destruct (rs_running s); [destruct (rs_queue s) as [|j q] eqn:Eq|]; split; cbn; unfold to_run, job_ok; cbn; rewrite ?Eq; try done.
  - intros k x Hx. specialize (Hj k x Hx). unfold job_ok, to_run in Hj. rewrite Hpc, Eq in Hj. destruct (j_promise x); try done.
    destruct Hj as (H1 & H2 & H3 & _). by repeat split.
  - intros k x Hx. specialize (Hj k x Hx). unfold job_ok, to_run in Hj. rewrite Hpc, Eq in Hj. destruct (j_promise x); try done.
    destruct Hj as (H1 & H2 & H3 & _). repeat split; try done. by intros [= ->].
  - intros k Hk. apply Hq. by right.
  - intros k x Hx. specialize (Hj k x Hx). unfold job_ok, to_run in Hj. rewrite Hpc in Hj. destruct (j_promise x); try done.
    destruct Hj as (H1 & H2 & H3 & _). by repeat split.
Qed.

Lemma sorted_NoDup l : StronglySorted lt l -> NoDup l.
Proof.
  induction 1 as [|a l _ IH Hf]; constructor; [|done]. intros Ha. rewrite Forall_forall in Hf. specialize (Hf a Ha). lia.
Qed.

Lemma sorted_sublist l1 l2 : l1 `sublist_of` l2 -> StronglySorted lt l2 -> StronglySorted lt l1.
Proof.
  induction 1 as [|a l1 l2 Hs IH|a l1 l2 Hs IH]; intros H; [done| |]; inversion H as [|?? Hl Hf]; subst; [|by apply IH].
  constructor; [by apply IH|]. rewrite Forall_forall in Hf |- *. intros x Hx. apply Hf. by eapply elem_of_submseteq, sublist_submseteq.
Qed.

Lemma inv_job j s : rs_pc s = HJob j -> rs_inv s -> rs_inv (handler_job j s).
Proof.
  intros Hpc Hi. pose proof Hi as [Ho Hb Hj Hq Hw]. pose proof (sorted_NoDup _ Ho) as Hnd.
  unfold to_run in Ho, Hb, Hnd. rewrite Hpc in Ho, Hb, Hnd. cbn [app] in Ho, Hb, Hnd.
  apply NoDup_app in Hnd as (_ & Hdis & [Hjq Hndq]%NoDup_cons).
  unfold handler_job. destruct (rs_jobs s !! j) as [x|] eqn:Hx; [|done]. pose proof (Hj j x Hx) as Hjx.
  assert (forall k y, k <> j -> rs_jobs s !! k = Some y -> forall s', rs_pc s' = HDrain j -> rs_queue s' = rs_queue s ->
    (rs_log s' = rs_log s \/ rs_log s' = rs_log s ++ [j]) -> job_ok s' k y) as Hother.
  { intros k y Hne Hy s' Hp' Hq' Hl'. specialize (Hj k y Hy). unfold job_ok, to_run in *. rewrite Hpc in Hj. rewrite Hp', Hq'.
    assert (k ∈ rs_log s' <-> k ∈ rs_log s) as Hlog by (destruct Hl' as [->| ->]; [done|]; rewrite elem_of_app, list_elem_of_singleton; tauto).
    destruct (j_promise y); [|tauto|tauto]. destruct Hj as (H1 & [H2|H2]%elem_of_cons & H3 & _); [done|]. repeat split; try done. tauto. }
  assert (forall k y (l : list AsyncJob) p, l = <[j:=set_promise p x]> (rs_jobs s) -> l !! k = Some y ->
    k = j /\ y = set_promise p x \/ k <> j /\ rs_jobs s !! k = Some y) as Hins.
  { intros k y l p -> Hl. destruct (decide (k = j)) as [->|Hne].
    - left. rewrite list_lookup_insert_eq in Hl by (by eapply lookup_lt_Some). by simplify_eq.
    - right. by rewrite list_lookup_insert_ne in Hl. }
  assert (forall k p, k ∈ rs_queue s -> j_promise <$> <[j:=set_promise p x]> (rs_jobs s) !! k = Some PEmpty) as Hqueued.
  { intros k p Hk. rewrite list_lookup_insert_ne by (intros ->; done). by apply Hq. }
  destruct (j_cancelled x) eqn:Hcan; cbn [negb andb].
  - split; cbn; unfold to_run; cbn; try done.
    + eapply sorted_sublist; [|exact Ho]. apply sublist_app; [done|by apply sublist_cons].
    + intros k Hk. rewrite length_insert. apply Hb. rewrite elem_of_app, elem_of_cons in *. tauto.
    + intros k y Hy. destruct (Hins k y _ _ eq_refl Hy) as [[-> ->]|[Hne Hy']]; [|by apply (Hother k y Hne Hy'); auto].
      unfold job_ok in *. cbn. destruct (j_promise x); [destruct Hjx; congruence| |done]. by left.
    + intros k Hk. by apply Hqueued.
  - assert (j_promise x = PEmpty) as Hp.
    { unfold job_ok in Hjx. destruct (j_promise x); [done| |]; exfalso; apply (Hdis j); try (by left); [|apply Hjx].
      destruct Hjx as [?|[? _]]; [congruence|done]. }
    split; cbn; unfold to_run; cbn; try done.
    + by rewrite <- app_assoc.
    + rewrite <- app_assoc, length_insert. apply Hb.
    + intros k y Hy. destruct (Hins k y _ _ eq_refl Hy) as [[-> ->]|[Hne Hy']]; [|by apply (Hother k y Hne Hy'); auto].
      unfold job_ok, set_promise. cbn. rewrite Hp. destruct (j_throws x); cbn; [|right]; (split; [|done]); apply elem_of_app; right; by left.
    + intros k Hk. by apply Hqueued.
Qed.

(** The process leaves a job that has run. *)
Lemma inv_leave j s pc : rs_pc s = HDrain j \/ rs_pc s = HWait -> (forall k, pc <> HJob k) -> pc <> HWait -> rs_inv s ->
  forall o, rs_inv (set_rs_pc pc (set_rs_running_job o s)).
Proof.
  intros Hpc Hnj Hnw [Ho Hb Hj Hq Hw] o. assert (to_run (set_rs_pc pc (set_rs_running_job o s)) = to_run s) as E.
  { unfold to_run. cbn. destruct Hpc as [->| ->]; destruct pc; try done; by destruct (Hnj j0). }
  split; rewrite ?E; try done. intros k x Hx. specialize (Hj k x Hx). unfold job_ok in *. rewrite E. cbn.
  destruct (j_promise x); try done. destruct Hj as (H1 & H2 & H3 & _). repeat split; try done. intros Hk. by destruct (Hnj k).
Qed.

Lemma inv_event s : rs_inv s -> rs_inv (deliver_event s).
Proof.
  intros Hi. unfold deliver_event. cbn [rs_pc set_rs_outstanding]. destruct (rs_pc s) eqn:Hpc.
  1-3, 5: by apply (inv_same s); try done; rewrite Hpc.
  assert (rs_inv (set_rs_pc HTop (set_rs_running_job (rs_running_job s) s))) as H.
  { apply (inv_leave 0); [by right|done..]. }
  by apply (inv_same (set_rs_pc HTop (set_rs_running_job (rs_running_job s) s))).
Qed.

Lemma inv_sysc s s' : rs_inv s -> sysc_step s s' -> rs_inv s'.
Proof.
  intros Hi. destruct 1 as [Hpc|j Hpc|j Hpc|He|j Hj].
  - by apply inv_top.
  - by apply inv_job.
  - apply (inv_leave j); [by left|done..].
  - by apply inv_event.
  - apply (inv_same s); try done. intros _ _. by left.
Qed.

Lemma inv_post throws wait s s' : rs_inv s -> post_job throws wait s = Some s' -> rs_inv s'.
Proof.
  intros [Ho Hb Hj Hq Hw]. unfold post_job. destruct (rs_running s); [|done]. intros [= <-].
  set (n := length (rs_jobs s)). assert (forall w, to_run (set_rs_waiting w (set_rs_posting (rs_posting s ++ [n]) (set_rs_queue (rs_queue s ++ [n])
    (set_rs_jobs (rs_jobs s ++ [mk_job throws false PEmpty]) s)))) = to_run s ++ [n]) as Et by (intros w; unfold to_run; cbn; by rewrite app_assoc).
  assert (forall w, rs_inv (set_rs_waiting w (set_rs_posting (rs_posting s ++ [n]) (set_rs_queue (rs_queue s ++ [n])
    (set_rs_jobs (rs_jobs s ++ [mk_job throws false PEmpty]) s))))) as H; [|by destruct wait; [apply H|apply (H (rs_waiting s))]].
  intros w. assert (n ∉ rs_log s ++ to_run s) as Hn by (intros Hn; specialize (Hb n Hn); lia).
  split; rewrite ?Et; cbn.
  - rewrite app_assoc. apply StronglySorted_app_2; [|done|by repeat constructor].
    intros a b Ha ->%list_elem_of_singleton. by apply Hb.
  - intros k. rewrite app_assoc, elem_of_app, list_elem_of_singleton, length_app. cbn. intros [Hk| ->]; [specialize (Hb k Hk)|]; lia.
  - intros k x [Hx|[Hk Hx]]%lookup_app_Some.
    + specialize (Hj k x Hx). unfold job_ok in *. rewrite Et. cbn. destruct (j_promise x); try done.
      destruct Hj as (H1 & H2 & H3 & H4). repeat split; try done. apply elem_of_app. by left.
    + apply list_lookup_singleton_Some in Hx as [Hk0 <-]. assert (k = n) as -> by lia. unfold job_ok. rewrite Et. cbn.
      rewrite elem_of_app in Hn. repeat split; [apply elem_of_app; right; by left|tauto|]. intros Hpc.
      exfalso. apply Hn. right. unfold to_run. rewrite Hpc. by left.
  - intros k [Hk| ->%list_elem_of_singleton]%elem_of_app.
    + specialize (Hq k Hk). destruct (rs_jobs s !! k) eqn:E; [|done]. by rewrite lookup_app_l, E by (by eapply lookup_lt_Some).
    + rewrite lookup_app_r by done. by rewrite Nat.sub_diag.
  - intros _ _. right. by destruct (rs_posting s).
Qed.

(** ** Cancelling *)

Lemma job_cancel_idem x : job_cancel (job_cancel x) = job_cancel x.
Proof. unfold job_cancel, set_promise. cbn. by destruct (j_promise x). Qed.

Lemma cancel_list (q : list nat) : forall (js : list AsyncJob) (k : nat),
  foldl (fun js j => alter job_cancel j js) js q !! k = if decide (k ∈ q) then job_cancel <$> js !! k else js !! k.
Proof.
  induction q as [|j q IH]; intros js k; cbn [foldl]; [by rewrite decide_False by apply not_elem_of_nil|]. rewrite IH.
  destruct (decide (k = j)) as [->|Hne].
  - rewrite list_lookup_alter_eq. rewrite (decide_True (P := j ∈ j :: q)) by (by left). destruct (decide (j ∈ q)); [|done].
    destruct (js !! j); [|done]. cbn. by rewrite job_cancel_idem.
  - rewrite list_lookup_alter_ne by done. destruct (decide (k ∈ q)) as [Hk|Hk].
    + rewrite decide_True by (by right). done.
    + rewrite decide_False; [done|]. intros [?|?]%elem_of_cons; done.
Qed.

Definition to_cancel (s : runonsysc) : list nat := rs_queue s ++ (match rs_running_job s with Some j => [j] | None => [] end).

Lemma cancel_all_jobs s k : rs_jobs (cancel_all s) !! k = if decide (k ∈ to_cancel s) then job_cancel <$> rs_jobs s !! k else rs_jobs s !! k.
Proof.
  unfold cancel_all, to_cancel. cbn [rs_running_job set_rs_queue set_rs_jobs].
  assert (forall l : list nat, foldl (fun js j => alter job_cancel j js) (rs_jobs s) (rs_queue s ++ l) =
    foldl (fun js j => alter job_cancel j js) (foldl (fun js j => alter job_cancel j js) (rs_jobs s) (rs_queue s)) l) as E
    by (intros l; apply foldl_app).
  destruct (rs_running_job s) as [j|]; rewrite <- cancel_list; [by rewrite E|by rewrite app_nil_r].
Qed.

Lemma cancel_all_rest s : rs_queue (cancel_all s) = [] /\ rs_log (cancel_all s) = rs_log s /\ rs_pc (cancel_all s) = rs_pc s /\
  length (rs_jobs (cancel_all s)) = length (rs_jobs s).
Proof.
  assert (forall (q : list nat) (js : list AsyncJob), length (foldl (fun js j => alter job_cancel j js) js q) = length js) as Hl.
  { induction q as [|j q IH]; intros js; [done|]. cbn. by rewrite IH, length_alter. }
  unfold cancel_all. cbn. destruct (rs_running_job s); cbn; by rewrite ?length_alter, ?Hl.
Qed.

(** A job that is not done is cancelled by [cancel_all]. *)
Lemma undone_cancelled s j x : rs_inv s -> rs_jobs s !! j = Some x -> j_promise x = PEmpty -> j ∈ to_cancel s.
Proof.
  intros [_ _ Hj _ _] Hx Hp. specialize (Hj j x Hx). unfold job_ok in Hj. rewrite Hp in Hj. destruct Hj as (_ & Ht & _ & Hr).
  unfold to_cancel, to_run in *. destruct (rs_pc s) as [|k|k| |] eqn:Hpc; try (apply elem_of_app; by left).
  apply elem_of_cons in Ht as [->|Ht]; [|apply elem_of_app; by left]. rewrite (Hr eq_refl). apply elem_of_app. right. by left.
Qed.

Lemma inv_end s : rs_inv s -> rs_inv (rs_end_of_simulation s).
Proof.
  intros Hi. unfold rs_end_of_simulation. assert (rs_inv (rs_stop s)) as Hi' by (apply (inv_same s); try done; apply Hi).
  revert Hi'. generalize (rs_stop s). clear s Hi. intros s Hi. pose proof Hi as [Ho Hb Hj Hq Hw].
  destruct (cancel_all_rest s) as (E1 & E2 & E3 & E4).
  assert (rs_log s ++ to_run (cancel_all s) `sublist_of` rs_log s ++ to_run s) as Hsub.
  { apply sublist_app; [done|]. unfold to_run. rewrite E1, E3. apply sublist_app; [done|apply sublist_nil_l]. }
  split; rewrite ?E1, ?E2, ?E3, ?E4; try done.
  - by eapply sorted_sublist.
  - intros k Hk. apply Hb. by eapply elem_of_submseteq, sublist_submseteq.
  - intros k x. rewrite cancel_all_jobs. intros Hx.
    destruct (decide (k ∈ to_cancel s)) as [Hc|Hc].
    + destruct (rs_jobs s !! k) as [y|] eqn:Hy; [|done]. cbn in Hx. injection Hx as <-. specialize (Hj k y Hy).
      unfold job_ok, job_cancel, set_promise in *. cbn. rewrite E2. destruct (j_promise y); cbn; [by left|by left|done].
    + pose proof (Hj k x Hx) as Hk. unfold job_ok in *. rewrite E2. destruct (j_promise x) eqn:Hp; [|done|done].
      exfalso. apply Hc. by eapply undone_cancelled.
  - intros k Hk. by apply not_elem_of_nil in Hk.
Qed.

Lemma inv_thread s s' : rs_inv s -> thread_step s s' -> rs_inv s'.
Proof.
  intros Hi. destruct 1 as [throws wait s' Hp|j b s' _ _ Hf|]; [by eapply inv_post| |by apply inv_end].
  unfold finish_wait in Hf. destruct (rs_jobs s !! j) as [x|]; [|done]. destruct (j_promise x); [done| |];
    injection Hf as <- <-; apply (inv_same s); try done; [apply Hi|]. intros _ _. by left.
Qed.

Lemma inv_reachable s : rs_reach s -> rs_inv s.
Proof.
  induction 1; eauto using inv_sysc, inv_thread. split; cbn; try done.
  - apply SSorted_nil.
  - intros j Hj. by apply not_elem_of_nil in Hj.
  - intros j Hj. by apply not_elem_of_nil in Hj.
Qed.

(** * What the callers rely on *)

Lemma stopped_reachable s : rs_reach s -> rs_pc s = HStopped -> rs_running s = false.
Proof.
  induction 1 as [|s s' _ IH H|s s' _ IH H]; [done| |].
  - destruct H as [Hpc|j Hpc|j Hpc|He|j Hj]; cbn.
    + unfold handler_top. destruct (rs_running s) eqn:E; [destruct (rs_queue s)|]; done.
    + unfold handler_job. destruct (rs_jobs s !! j); [|congruence]. done.
    + done.
    + unfold deliver_event. cbn. destruct (rs_pc s) eqn:E; cbn; rewrite ?E; done.
    + done.
  - destruct H as [throws wait s' Hp|j b s' _ _ Hf|].
    + unfold post_job in Hp. destruct (rs_running s) eqn:E; [|done]. injection Hp as <-. destruct wait; cbn; intros Hpc; specialize (IH Hpc); congruence.
    + unfold finish_wait in Hf. destruct (rs_jobs s !! j) as [x|]; [|done]. destruct (j_promise x); [done| |]; by injection Hf as <- <-.
    + intros _. unfold rs_end_of_simulation, cancel_all. cbn. by destruct (rs_running_job s).
Qed.

(** C23: Jobs on the SystemC thread.  Whatever the order of the threads, the process and the
    kernel: the jobs that have run did so in the order in which they were posted and once
    each; every other job is still to run or was cancelled; and a thread that waited is
    told true only when its job ran to its end, false when it was cancelled or threw (it may have run
    before it was cancelled: [executed_reported_cancelled]). *)
Theorem runonsysc_order s : rs_reach s ->
  StronglySorted lt (rs_log s) /\
  (forall j x, rs_jobs s !! j = Some x -> j ∈ rs_log s \/ j ∈ to_run s \/ j_cancelled x = true) /\
  (forall j b s', finish_wait j s = Some (b, s') -> exists x, rs_jobs s !! j = Some x /\
     if b then (j ∈ rs_log s) /\ j_throws x = false else j_cancelled x = true \/ ((j ∈ rs_log s) /\ j_throws x = true)).
Proof.
  intros Hr. destruct (inv_reachable s Hr) as [Ho _ Hj _ _]. split; [by eapply StronglySorted_app_1_l|]. split.
  - intros j x Hx. specialize (Hj j x Hx). unfold job_ok in Hj. destruct (j_promise x); tauto.
  - intros j b s'. unfold finish_wait. destruct (rs_jobs s !! j) as [x|] eqn:Hx; [|done]. specialize (Hj j x Hx).
    unfold job_ok in Hj. destruct (j_promise x); [done| |]; intros [= <- _]; exists x; (split; [done|]).
    + destruct (j_cancelled x); cbn; [by left|]. by destruct Hj as [?|?].
    + by right.
Qed.

(** The process comes back to the head of its loop when there is a job for it. *)
Lemma handler_comes_back s : rs_reach s -> rs_running s = true -> rs_queue s <> [] -> (forall k, rs_pc s <> HJob k) ->
  exists s', rtc sysc_step s s' /\ rs_reach s' /\ rs_running s' = true /\ rs_pc s' = HTop /\ rs_queue s' = rs_queue s /\ rs_jobs s' = rs_jobs s.
Proof.
  intros Hr Hrun Hq Hnj. destruct (rs_pc s) as [|k|k| |] eqn:Hpc.
  - exists s. by repeat split; [apply rtc_refl|..].
  - by destruct (Hnj k).
  - exists (handler_drained s). assert (sysc_step s (handler_drained s)) by (by econstructor).
    split; [by apply rtc_once|]. split; [by eapply rs_sysc|done].
  - assert (exists s1, rtc sysc_step s s1 /\ rs_reach s1 /\ rs_running s1 = true /\ rs_pc s1 = HWait /\ rs_queue s1 = rs_queue s /\
      rs_jobs s1 = rs_jobs s /\ rs_outstanding s1 = true) as (s1 & H1 & Hr1 & Hrun1 & Hp1 & Hq1 & Hj1 & Ho1).
    { destruct (rs_outstanding s) eqn:Eo; [exists s; by repeat split; [apply rtc_refl|..]|].
      destruct (ri_wake _ (inv_reachable s Hr) Hpc Hq) as [?|Hpo]; [congruence|].
      destruct (rs_posting s) as [|j l] eqn:Epo; [done|].
      assert (sysc_step s (notify_handler (set_rs_posting (filter (fun k => k <> j) (rs_posting s)) s))) as Hst
        by (constructor; rewrite Epo; by left).
      eexists. split; [by apply rtc_once|]. split; [by eapply rs_sysc|]. done. }
    exists (deliver_event s1). assert (sysc_step s1 (deliver_event s1)) as Hst by (by constructor).
    split; [by eapply rtc_r|]. split; [by eapply rs_sysc|]. unfold deliver_event. cbn. by rewrite Hp1.
  - pose proof (stopped_reachable s Hr Hpc). congruence.
Qed.

(** The next job runs. *)
Lemma next_job_runs s : rs_reach s -> rs_running s = true -> to_run s <> [] ->
  exists s', rtc sysc_step s s' /\ rs_reach s' /\ rs_running s' = true /\ length (rs_jobs s') = length (rs_jobs s) /\
    (length (to_run s') < length (to_run s))%nat.
Proof.
  intros Hr Hrun Ht.
  assert (forall s k, rs_reach s -> rs_running s = true -> rs_pc s = HJob k -> exists s', sysc_step s s' /\ rs_reach s' /\
    rs_running s' = true /\ length (rs_jobs s') = length (rs_jobs s) /\ (length (to_run s') < length (to_run s))%nat) as Hjob.
  { clear. intros s k Hr Hrun Hpc. exists (handler_job k s). assert (sysc_step s (handler_job k s)) as Hst by (by constructor).
    split; [done|]. split; [by eapply rs_sysc|].
    assert (k < length (rs_jobs s))%nat as Hk.
    { apply (ri_bound _ (inv_reachable s Hr)). apply elem_of_app. right. unfold to_run. rewrite Hpc. by left. }
    apply lookup_lt_is_Some in Hk as [x Hx]. unfold handler_job. rewrite Hx. unfold to_run. rewrite Hpc.
    destruct (j_cancelled x); cbn; rewrite length_insert; repeat split; try done; lia. }
  destruct (rs_pc s) as [|k|k| |] eqn:Hpc.
  2: { destruct (Hjob s k Hr Hrun Hpc) as (s' & H1 & H2). exists s'. split; [by apply rtc_once|done]. }
  all: assert (rs_queue s <> []) as Hq by (unfold to_run in Ht; by rewrite Hpc in Ht);
    destruct (handler_comes_back s Hr Hrun Hq) as (s1 & H1 & Hr1 & Hrun1 & Hp1 & Hq1 & Hj1); [intros k'; by rewrite Hpc|];
    destruct (rs_queue s) as [|j q] eqn:Eq; [done|];
    assert (sysc_step s1 (handler_top s1)) as Hst by (by constructor);
    assert (handler_top s1 = set_rs_pc (HJob j) (set_rs_running_job (Some j) (set_rs_queue q s1))) as Etop
      by (unfold handler_top; by rewrite Hrun1, Hq1);
    destruct (Hjob (handler_top s1) j) as (s2 & Hs2 & Hr2 & Hrun2 & Hl2 & Ht2); [by eapply rs_sysc|by rewrite Etop..|];
    exists s2; (split; [eapply rtc_r; [eapply rtc_r; [exact H1|exact Hst]|exact Hs2]|]); (split; [done|]); (split; [done|]);
    rewrite Etop in Hl2, Ht2; cbn in Hl2; unfold to_run in Ht2 |- *; cbn in Ht2; rewrite Hpc, Eq, <- Hj1; cbn; (split; [done|lia]).
Qed.

(** Every job is served.  While the handler is not stopped, a job that was posted gets its
    promise: in every reachable state the process, the kernel and the notifications already
    due have steps that lead there, and unless it is cancelled the job has then run. *)
Theorem runonsysc_completes s j : rs_reach s -> rs_running s = true -> (j < length (rs_jobs s))%nat ->
  exists s' x, rtc sysc_step s s' /\ rs_jobs s' !! j = Some x /\ j_promise x <> PEmpty /\ (j_cancelled x = false -> j ∈ rs_log s').
Proof.
  intros Hr Hrun Hj. remember (length (to_run s)) as n eqn:Hn. revert s Hr Hrun Hj Hn.
  induction n as [n IH] using lt_wf_ind; intros s Hr Hrun Hj Hn.
  pose proof Hj as [x Hx]%lookup_lt_is_Some. pose proof (ri_jobs _ (inv_reachable s Hr) j x Hx) as Hjx.
  destruct (decide (j_promise x = PEmpty)) as [Hp|Hp].
  - unfold job_ok in Hjx. rewrite Hp in Hjx. destruct Hjx as (_ & Hin & _).
    destruct (next_job_runs s Hr Hrun) as (s1 & H1 & Hr1 & Hrun1 & Hl1 & Ht1); [intros E; rewrite E in Hin; by apply not_elem_of_nil in Hin|].
    destruct (IH (length (to_run s1)) ltac:(lia) s1 Hr1 Hrun1 ltac:(lia) eq_refl) as (s2 & y & H2 & Hy).
    exists s2, y. split; [by etransitivity|done].
  - exists s, x. split; [apply rtc_refl|]. split; [done|]. split; [done|]. intros Hc. unfold job_ok in Hjx.
    destruct (j_promise x); [done| |tauto]. destruct Hjx as [?|?]; [congruence|tauto].
Qed.

(** At the end of the simulation no thread stays behind: every job that has not run is
    cancelled, so whoever waits for it returns. *)
Theorem runonsysc_end_frees s j : rs_reach s -> (j < length (rs_jobs s))%nat ->
  exists b s', finish_wait j (rs_end_of_simulation s) = Some (b, s').
Proof.
  intros Hr [x Hx]%lookup_lt_is_Some. pose proof (inv_reachable _ (rs_thread s _ Hr (t_end s))) as Hi'.
  unfold finish_wait, rs_end_of_simulation in *. rewrite cancel_all_jobs. cbn [rs_jobs rs_stop set_rs_running].
  destruct (decide (j ∈ to_cancel (rs_stop s))) as [Hc|Hc]; rewrite Hx; cbn [fmap option_fmap option_map].
  - unfold job_cancel, set_promise. cbn. destruct (j_promise x); eauto.
  - destruct (j_promise x) eqn:Hp; [|eauto|eauto]. exfalso. apply Hc.
    assert (rs_inv (rs_stop s)) as Hi by (apply (inv_same s); try done; apply (inv_reachable s Hr)).
    by eapply (undone_cancelled (rs_stop s)).
Qed.

(** ** Examples *)

(** Two threads post jobs, the first of which will throw, and wait. *)
Definition ex_posted : runonsysc :=
  mk_runonsysc true [mk_job true false PEmpty; mk_job false false PEmpty] [0%nat; 1%nat] None false HTop [0%nat; 1%nat] [0%nat; 1%nat] [].

Lemma ex_posted_reach : rs_reach ex_posted.
Proof.
  apply (rs_thread (mk_runonsysc true [mk_job true false PEmpty] [0%nat] None false HTop [0%nat] [0%nat] [])).
  - apply (rs_thread new_runonsysc); [apply rs_new|by apply (t_post _ true true)].
  - by apply (t_post _ false true).
Qed.

(** Both notify; the first job has run and the process is in the wait that follows. *)
Definition ex_thrown : runonsysc := handler_job 0 (handler_top (notify_handler (set_rs_posting [] ex_posted))).

Lemma ex_thrown_reach : rs_reach ex_thrown.
Proof.
  set (s1 := notify_handler (set_rs_posting [1%nat] ex_posted)). set (s2 := notify_handler (set_rs_posting [] ex_posted)).
  assert (rs_reach s1) as H1 by (apply (rs_sysc ex_posted); [apply ex_posted_reach|apply (s_notify ex_posted 0); by left]).
  assert (rs_reach s2) as H2 by (apply (rs_sysc s1); [done|apply (s_notify s1 1); by left]).
  apply (rs_sysc (handler_top s2)); [|by apply s_job]. by apply (rs_sysc s2); [|apply s_top].
Qed.

Lemma runonsysc_order_witness :
  StronglySorted lt [0%nat] /\
  (forall j x, rs_jobs ex_thrown !! j = Some x -> j ∈ [0%nat] \/ j ∈ [1%nat] \/ j_cancelled x = true) /\
  (forall j b s', finish_wait j ex_thrown = Some (b, s') -> exists x, rs_jobs ex_thrown !! j = Some x /\
     if b then (j ∈ [0%nat]) /\ j_throws x = false else j_cancelled x = true \/ ((j ∈ [0%nat]) /\ j_throws x = true)).
Proof. apply (runonsysc_order ex_thrown ex_thrown_reach). Defined.

Lemma runonsysc_completes_witness :
  exists s' x, rtc sysc_step ex_posted s' /\ rs_jobs s' !! 1%nat = Some x /\ j_promise x <> PEmpty /\ (j_cancelled x = false -> 1%nat ∈ rs_log s').
Proof. apply (runonsysc_completes ex_posted 1 ex_posted_reach eq_refl). cbn. lia. Defined.

Lemma runonsysc_end_frees_witness : exists b s', finish_wait 1 (rs_end_of_simulation ex_thrown) = Some (b, s').
Proof. apply (runonsysc_end_frees ex_thrown 1 ex_thrown_reach). cbn. lia. Defined.

(** A process that has ended changes no job. *)
Lemma stopped_stays s s' : rs_pc s = HStopped -> rtc sysc_step s s' -> rs_jobs s' = rs_jobs s.
Proof.
  intros Hpc. induction 1 as [|s s1 s' Hs _ IH]; [done|]. rewrite IH.
  - destruct Hs as [E|j E|j E|_|]; try congruence; [|done]. unfold deliver_event. cbn. by rewrite Hpc.
  - destruct Hs as [E|j E|j E|_|]; try congruence; [|done]. unfold deliver_event. cbn. by rewrite Hpc.
Qed.

(** A job that has run to its end, in the wait that follows it, is cancelled with the others when the
    simulation ends: its thread is told that it was cancelled. *)
Lemma executed_reported_cancelled : exists s s', rs_reach s /\ rs_log s = [0%nat] /\ rs_jobs s = [mk_job false true PValue] /\ finish_wait 0 s = Some (false, s').
Proof.
  destruct (post_job false true new_runonsysc) as [s1|] eqn:E1; [|done]. set (s2 := handler_top s1). set (s3 := handler_job 0 s2).
  exists (rs_end_of_simulation s3), (set_rs_waiting [] (rs_end_of_simulation s3)). unfold post_job in E1. cbn in E1. injection E1 as <-.
  split; [|done]. eapply rs_thread; [|apply t_end]. eapply rs_sysc; [|apply (s_job s2 0); done]. eapply rs_sysc; [|by apply s_top].
  eapply rs_thread; [apply rs_new|]. by apply (t_post _ false true).
Qed.

(** When a job throws, the thread that waited for it stops the handler, but does not cancel the
    jobs behind it: the threads that wait for those are left until the simulation ends. *)
Theorem exception_strands_waiters :
  exists s, rs_reach s /\ (1%nat ∈ rs_waiting s) /\ forall s', rtc sysc_step s s' -> finish_wait 1 s' = None.
Proof.
  set (s1 := notify_handler (rs_stop (set_rs_waiting [1%nat] ex_thrown))).
  exists (handler_top (handler_drained s1)). split; [|split].
  - apply (rs_sysc (handler_drained s1)); [|by apply s_top]. apply (rs_sysc s1); [|by eapply s_drained].
    apply (rs_thread ex_thrown); [apply ex_thrown_reach|]. eapply (t_return _ 0 false); [by left|apply not_elem_of_nil|done].
  - by left.
  - intros s' Hs. unfold finish_wait. rewrite (stopped_stays (handler_top (handler_drained s1)) s' eq_refl Hs). done.
Qed.
