(* ===== verification/MemServices.v ===== *)
(** * Shared memory between processes

    common/src/memory_services.cc (the POSIX half): the segments that a process creates or
    joins, kept by name, and the registry of names that a forked cleaner unlinks when the
    process dies.  The namespace of the operating system, which all processes share, is part
    of the state; descriptors and addresses that the system hands out are arguments, [None]
    for a failed [mmap].  An operation that ends in [SCP_FATAL] or a failed assertion returns
    no value, but the state it leaves behind counts: other processes still see it. *)

From stdpp Require Import base list numbers option strings gmap relations.
From S2P Require Import Prelude.

Record SharedMemoryDescriptor : Type := mk_desc {
  file_descriptor : Z;
  shm_addr : Z;
  shm_size : Z;
}.

(** [MemoryServices] of one process: [m_shmem_desc_map], [m_named_shm_registry], the open
    descriptors, and the system's namespace with the sizes of the segments. *)
Record MemoryServices : Type := mk_ms {
  ms_desc : gmap string SharedMemoryDescriptor;
  ms_registry : list string;
  ms_fds : gset Z;
  ms_shm : gmap string Z;
}.

Definition MAX_SHM_STR_LENGTH : nat := 255.
Definition MAX_SHM_SEGS_NUM : nat := 1024.

Definition shm_unlink (n : string) (m : MemoryServices) : MemoryServices :=
  mk_ms (ms_desc m) (ms_registry m) (ms_fds m) (delete n (ms_shm m)).
Definition set_desc (n : string) (d : SharedMemoryDescriptor) (m : MemoryServices) : MemoryServices :=
  mk_ms (<[n := d]> (ms_desc m)) (ms_registry m) (ms_fds m) (ms_shm m).
Definition add_fd (fd : Z) (m : MemoryServices) : MemoryServices :=
  mk_ms (ms_desc m) (ms_registry m) ({[fd]} ∪ ms_fds m) (ms_shm m).
Definition close_fd (fd : Z) (m : MemoryServices) : MemoryServices :=
  mk_ms (ms_desc m) (ms_registry m) (ms_fds m ∖ {[fd]}) (ms_shm m).

(** The result of an operation: nothing when it does not return. *)
Definition MS (A : Type) : Type := MemoryServices -> option A * MemoryServices.

Definition ms_ret {A} (a : A) : MS A := fun m => (Some a, m).
Definition ms_bind {A B} (f : MS A) (k : A -> MS B) : MS B :=
  fun m => match f m with (Some a, m') => k a m' | (None, m') => (None, m') end.
Notation "'ms!' x ':=' f 'in' k" := (ms_bind f (fun x => k)) (at level 10, x pattern, f at level 100, k at level 200) : qbox_scope.

Definition die_sys_api {A} (memname : string) : MS A := fun m => (None, shm_unlink memname m).
Definition ms_fatal {A} : MS A := fun m => (None, m).

(** [shm_open]: creating fails when the name exists, joining when it does not. *)
Definition shm_open_create (n : string) (fd size : Z) : MS Z := fun m =>
  if decide (is_Some (ms_shm m !! n)) then die_sys_api n m
  else (Some fd, mk_ms (ms_desc m) (ms_registry m) ({[fd]} ∪ ms_fds m) (<[n := size]> (ms_shm m))).

Definition shm_open_join (n : string) (fd : Z) : MS Z := fun m =>
  if decide (is_Some (ms_shm m !! n)) then (Some fd, add_fd fd m) else die_sys_api n m.

Definition map_fd_to_mem (n : string) (fd : Z) (mapped : option Z) : MS Z := fun m =>
  match mapped with
  | Some p => (Some p, m)
  | None => die_sys_api n (close_fd fd m)
  end.

Definition add_shared_memory_region (n : string) : MS unit := fun m =>
  if decide (length (ms_registry m) = MAX_SHM_SEGS_NUM) then ms_fatal m
  else if decide (String.length n < MAX_SHM_STR_LENGTH)%nat
  then (Some tt, mk_ms (ms_desc m) (ms_registry m ++ [n]) (ms_fds m) (ms_shm m))
  else ms_fatal m.

Definition map_mem_create (n : string) (size fd : Z) (mapped : option Z) : MS Z := fun m =>
  if decide (is_Some (ms_desc m !! n)) then ms_fatal m
  else (ms! fd := shm_open_create n fd size in
        ms! ptr := map_fd_to_mem n fd mapped in
        ms! _ := add_shared_memory_region n in
        fun m => (Some ptr, set_desc n (mk_desc fd ptr size) m)) m.

Definition map_mem_join_new (n : string) (size fd : Z) (mapped : option Z) : MS Z :=
  ms! fd := shm_open_join n fd in
  ms! ptr := map_fd_to_mem n fd mapped in
  fun m => (Some ptr, close_fd fd (set_desc n (mk_desc fd ptr size) m)).

Definition map_mem_join (n : string) (size fd : Z) (mapped : option Z) : MS Z := fun m =>
  match ms_desc m !! n with
  | Some d => if decide (shm_size d = size) then ms_ret (shm_addr d) m else ms_fatal m
  | None => map_mem_join_new n size fd mapped m
  end.

Definition get_shmem_fd (n : string) (m : MemoryServices) : Z :=
  match ms_desc m !! n with Some d => file_descriptor d | None => -1 end.

(** [map_mem_create (memname, size, &out)]: the address, and [out] afterwards. *)
Definition map_mem_create_fd (n : string) (size fd : Z) (mapped : option Z) (out : Z) : MS (Z * Z) := fun m =>
  match map_mem_create n size fd mapped m with
  | (Some addr, m') => (Some (addr, if addr =? 0 then get_shmem_fd n m' else out), m')
  | (None, m') => (None, m')
  end.

(** [MemoryServices::cleanup] unlinks what the map names, [SharedMemoryCleaner::cleanup] what
    the registry does. *)
Definition ms_cleanup (m : MemoryServices) : MemoryServices := foldr shm_unlink m (map_to_list (ms_desc m)).*1.
Definition registry_cleanup (m : MemoryServices) : MemoryServices := foldr shm_unlink m (ms_registry m).

Definition get_shmem_seg_num (m : MemoryServices) : nat := size (ms_desc m).

Definition new_services (shm : gmap string Z) : MemoryServices := mk_ms ∅ [] ∅ shm.

(** ** Runs of a process *)

(** [alloc]: page-aligned sizes are allocated aligned; the pointers come from the system. *)
Definition ALIGNEDBITS : Z := 12.
Definition ms_alloc (size aligned plain : Z) : Z * bool :=
  if Z.land size (Z.shiftl 1 ALIGNEDBITS - 1) =? 0
  then if aligned =? 0 then (0, false) else (aligned, true)
  else (plain, false).

(** The process calls the services; other processes create and unlink segments of their own. *)
Inductive ms_step : MemoryServices -> MemoryServices -> Prop :=
| step_create m n size fd mapped p m' : map_mem_create n size fd mapped m = (Some p, m') -> ms_step m m'
| step_join m n size fd mapped p m' : map_mem_join n size fd mapped m = (Some p, m') -> ms_step m m'
| step_others m shm : ms_step m (mk_ms (ms_desc m) (ms_registry m) (ms_fds m) shm).

Lemma ms_bind_Some {A B} (f : MS A) (k : A -> MS B) m b m' :
  ms_bind f k m = (Some b, m') <-> exists a m1, f m = (Some a, m1) /\ k a m1 = (Some b, m').
Proof. unfold ms_bind. destruct (f m) as [[a|] m1]; naive_solver. Qed.

Lemma map_fd_Some n fd mapped m p m' : map_fd_to_mem n fd mapped m = (Some p, m') -> m' = m /\ mapped = Some p.
Proof. unfold map_fd_to_mem. destruct mapped; naive_solver. Qed.

(** What a creation that returns has done. *)
Lemma map_mem_create_Some n size fd mapped m p m' : map_mem_create n size fd mapped m = (Some p, m') ->
  ms_desc m !! n = None /\ ms_shm m !! n = None /\ mapped = Some p /\
  (length (ms_registry m) <> MAX_SHM_SEGS_NUM /\ String.length n < MAX_SHM_STR_LENGTH)%nat /\
  m' = mk_ms (<[n := mk_desc fd p size]> (ms_desc m)) (ms_registry m ++ [n]) ({[fd]} ∪ ms_fds m) (<[n := size]> (ms_shm m)).
Proof.
  unfold map_mem_create. destruct (decide _) as [|Hd]; [done|]. rewrite <- eq_None_not_Some in Hd.
  intros (fd' & m1 & H1 & H)%ms_bind_Some. apply ms_bind_Some in H as (q & m2 & [-> ->]%map_fd_Some & H).
  apply ms_bind_Some in H as ([] & m3 & H3 & H). injection H as -> <-.
  unfold shm_open_create in H1. destruct (decide _) as [|Hs]; [done|]. rewrite <- eq_None_not_Some in Hs. injection H1 as <- <-.
  unfold add_shared_memory_region in H3. cbn in H3. destruct (decide (length (ms_registry m) = _)); [done|].
  destruct (decide _); [|done]. by injection H3 as <-.
Qed.

Lemma map_mem_join_Some n size fd mapped m p m' : map_mem_join n size fd mapped m = (Some p, m') ->
  (exists d, ms_desc m !! n = Some d /\ shm_size d = size /\ p = shm_addr d /\ m' = m) \/
  (ms_desc m !! n = None /\ is_Some (ms_shm m !! n) /\ mapped = Some p /\
   m' = mk_ms (<[n := mk_desc fd p size]> (ms_desc m)) (ms_registry m) (({[fd]} ∪ ms_fds m) ∖ {[fd]}) (ms_shm m)).
Proof.
  unfold map_mem_join. destruct (ms_desc m !! n) as [d|] eqn:Ed.
  - destruct (decide _); [|done]. intros [= <- <-]. left. by exists d.
  - intros (fd' & m1 & H1 & H)%ms_bind_Some. apply ms_bind_Some in H as (q & m2 & [-> ->]%map_fd_Some & H). injection H as -> <-.
    unfold shm_open_join in H1. destruct (decide _) as [Hs|]; [|done]. injection H1 as <- <-. right. by repeat split.
Qed.

(** Steps only add: no mapping changes or goes, no name leaves the registry. *)
Lemma ms_step_mono m m' : ms_step m m' -> ms_desc m ⊆ ms_desc m' /\ ms_registry m `prefix_of` ms_registry m'.
Proof.
  intros [m0 n size fd mapped p m1 H|m0 n size fd mapped p m1 H|m0 shm].
  - apply map_mem_create_Some in H as (Hd & _ & _ & _ & ->). cbn. split; [by apply insert_subseteq|by apply prefix_app_r].
  - apply map_mem_join_Some in H as [(d & _ & _ & _ & ->)|(Hd & _ & _ & ->)]; cbn; [done|]. split; [by apply insert_subseteq|done].
  - done.
Qed.

Lemma ms_run_mono m m' : rtc ms_step m m' -> ms_desc m ⊆ ms_desc m' /\ ms_registry m `prefix_of` ms_registry m'.
Proof.
  induction 1 as [|x y z Hxy _ [IH1 IH2]]; [done|]. apply ms_step_mono in Hxy as [H1 H2]. split; by etrans.
Qed.

Lemma registry_bounded m m' : ms_step m m' -> (length (ms_registry m) <= MAX_SHM_SEGS_NUM)%nat -> (length (ms_registry m') <= MAX_SHM_SEGS_NUM)%nat.
Proof.
  intros [m0 n size fd mapped p m1 H|m0 n size fd mapped p m1 H|m0 shm] Hle.
  - apply map_mem_create_Some in H as (_ & _ & _ & [Hne _] & ->). cbn. rewrite length_app. cbn. lia.
  - by apply map_mem_join_Some in H as [(d & _ & _ & _ & ->)|(_ & _ & _ & ->)].
  - done.
Qed.

Lemma unlinked n l m : n ∈ l -> ms_shm (foldr shm_unlink m l) !! n = None.
Proof.
  induction l as [|x l IH]; [by intros ?%elem_of_nil|]. intros Hn. cbn. destruct (decide (x = n)) as [->|Hne]; [apply lookup_delete_eq|].
  rewrite lookup_delete_ne by done. apply IH. by apply elem_of_cons in Hn as [->|].
Qed.

Lemma mapped_desc n size fd mapped m p m1 :
  map_mem_create n size fd mapped m = (Some p, m1) \/ map_mem_join n size fd mapped m = (Some p, m1) ->
  exists d, ms_desc m1 !! n = Some d /\ shm_size d = size /\ shm_addr d = p.
Proof.
  intros [H|H].
  - apply map_mem_create_Some in H as (_ & _ & _ & _ & ->). eexists. split; [apply lookup_insert_eq|done].
  - apply map_mem_join_Some in H as [(d & Hd & Hs & -> & ->)|(_ & _ & _ & ->)]; [by exists d|]. eexists. split; [apply lookup_insert_eq|done].
Qed.

Lemma join_again n d fd mapped m1 m2 : ms_desc m1 !! n = Some d -> rtc ms_step m1 m2 ->
  map_mem_join n (shm_size d) fd mapped m2 = (Some (shm_addr d), m2).
Proof.
  intros Hd [Hr _]%ms_run_mono. apply (lookup_weaken _ _ _ _ Hd) in Hr. unfold map_mem_join. rewrite Hr. by rewrite decide_True.
Qed.

(** a segment keeps its address: after a process has created or joined a segment, whatever
    it and the other processes do, every later join of the name returns the same address and
    maps nothing again. *)
Theorem mapping_stable n size fd fd' mapped mapped' m p m1 m2 :
  map_mem_create n size fd mapped m = (Some p, m1) \/ map_mem_join n size fd mapped m = (Some p, m1) ->
  rtc ms_step m1 m2 -> map_mem_join n size fd' mapped' m2 = (Some p, m2).
Proof. intros (d & Hd & <- & <-)%mapped_desc Hr. by eapply join_again. Qed.

(** when a process dies, its cleaner unlinks every segment the process has created; the
    registry that tells it the names never overflows. *)
Theorem crash_cleanup shm n size fd mapped m p m1 m2 :
  rtc ms_step (new_services shm) m -> map_mem_create n size fd mapped m = (Some p, m1) -> rtc ms_step m1 m2 ->
  ms_shm (registry_cleanup m2) !! n = None /\ (length (ms_registry m2) <= MAX_SHM_SEGS_NUM)%nat.
Proof.
  intros Hr Hc Hr2. split.
  - apply unlinked. apply ms_run_mono in Hr2 as [_ [k ->]]. apply map_mem_create_Some in Hc as (_ & _ & _ & _ & ->). set_solver.
  - assert (rtc ms_step (new_services shm) m2) as Hall by (etrans; [exact Hr|]; eapply rtc_l; [by eapply step_create|done]).
    assert (length (ms_registry (new_services shm)) <= MAX_SHM_SEGS_NUM)%nat as H0 by (cbn; lia).
    clear -Hall H0. induction Hall as [|x y z Hxy _ IH]; [done|]. eauto using registry_bounded.
Qed.

Lemma mapping_stable_witness :
  exists m1, map_mem_create "/a" 4096 3 (Some 65536) (new_services ∅) = (Some 65536, m1) /\
    map_mem_join "/a" 4096 7 None m1 = (Some 65536, m1).
Proof.
  exists (map_mem_create "/a" 4096 3 (Some 65536) (new_services ∅)).2. split; [reflexivity|].
  eapply (mapping_stable "/a" 4096 3 7 (Some 65536) None (new_services ∅) 65536); [left; reflexivity|apply rtc_refl].
Defined.

Lemma crash_cleanup_witness :
  exists m1, map_mem_create "/a" 4096 3 (Some 65536) (new_services ∅) = (Some 65536, m1) /\
    is_Some (ms_shm m1 !! "/a") /\ ms_shm (registry_cleanup m1) !! "/a" = None.
Proof.
  exists (map_mem_create "/a" 4096 3 (Some 65536) (new_services ∅)).2. split; [reflexivity|]. split; [by eexists|].
  eapply (crash_cleanup ∅ "/a" 4096 3 (Some 65536) (new_services ∅) 65536); [apply rtc_refl|reflexivity|apply rtc_refl].
Defined.

(** The descriptor that [map_mem_create] is to return is read only when the address is null:
    a memory that is created successfully never learns it. *)
Lemma created_fd_not_returned n size fd p out m a o m' : p <> 0 ->
  map_mem_create_fd n size fd (Some p) out m = (Some (a, o), m') -> o = out /\ get_shmem_fd n m' = fd.
Proof.
  intros Hp. unfold map_mem_create_fd. destruct (map_mem_create n size fd (Some p) m) as [[b|] m1] eqn:E; [|done].
  apply map_mem_create_Some in E as (_ & _ & [= <-] & _ & ->). rewrite (proj2 (Z.eqb_neq p 0)) by done.
  intros [= <- <- <-]. split; [done|]. unfold get_shmem_fd. cbn. by rewrite lookup_insert_eq.
Qed.

(** The descriptor kept for a joined segment is closed. *)
Lemma joined_fd_closed n size fd mapped m p m' : ms_desc m !! n = None ->
  map_mem_join n size fd mapped m = (Some p, m') -> get_shmem_fd n m' = fd /\ fd ∉ ms_fds m'.
Proof.
  intros Hn [(d & Hd & _)|(_ & _ & _ & ->)]%map_mem_join_Some; [congruence|]. split; [|cbn; set_solver].
  unfold get_shmem_fd. cbn. by rewrite lookup_insert_eq.
Qed.

(** A process that fails to create a segment because the name is taken unlinks the segment of
    the process that has it. *)
Lemma name_clash_unlinks n size fd mapped m : ms_desc m !! n = None -> is_Some (ms_shm m !! n) ->
  exists m', map_mem_create n size fd mapped m = (None, m') /\ ms_shm m' !! n = None.
Proof.
  intros Hd Hs. exists (shm_unlink n m). split; [|apply lookup_delete_eq]. unfold map_mem_create.
  rewrite decide_False by (by rewrite Hd; intros [? ?]). unfold ms_bind at 1, shm_open_create. by rewrite decide_True.
Qed.
