(* ===== verification/Remote.v ===== *)
(** * The bridge between two simulations

    common/include/remote.h: [PassRPC] forwards transactions, DMI requests, invalidations and
    configuration to a peer process by remote procedure calls, or to the enclosing container
    when it works in local mode.  Transactions come from thread processes.  The RPC library
    carries a structure unchanged; the peer's target, the conversion of times to seconds and
    TLM's [update_original_from] are parameters. *)

From stdpp Require Import base list numbers option strings gmap relations.
From S2P Require Import Prelude Tlm MemServices.

(** [ShmemIDExtension]. *)
Record ShmemID : Type := mk_shmem {
  sx_memid : string;
  sx_mapped_addr : Z;
  sx_size : Z;
}.

(** [tlm_generic_payload_rpc]; times are of a type [D].  [m_sc_time], which no one reads, and the
    payload option are left out. *)
Record tlm_generic_payload_rpc (D : Type) : Type := mk_rpc {
  r_address : Z;
  r_command : tlm_command;
  r_length : Z;
  r_response_status : tlm_response_status;
  r_dmi : bool;
  r_byte_enable_length : Z;
  r_streaming_width : Z;
  r_quantum_time : D;
  r_data : list Z;
  r_byte_enable : list Z;
}.
Arguments mk_rpc {D}.
Arguments r_address {D}.
Arguments r_command {D}.
Arguments r_length {D}.
Arguments r_response_status {D}.
Arguments r_dmi {D}.
Arguments r_byte_enable_length {D}.
Arguments r_streaming_width {D}.
Arguments r_quantum_time {D}.
Arguments r_data {D}.
Arguments r_byte_enable {D}.

(** [tlm_dmi_rpc]; the latencies are not modelled. *)
Record tlm_dmi_rpc : Type := mk_dmi_rpc {
  rd_shmem_fn : string;
  rd_shmem_size : Z;
  rd_shmem_offset : Z;
  rd_start : Z;
  rd_end : Z;
  rd_access : dmi_access;
}.

(** The peer's initiator sockets. *)
Record remote_target (W : Type) : Type := mk_target {
  rt_transport : payload -> Z -> W -> res (payload * Z * W);
  rt_dbg : payload -> W -> res (Z * payload * W);
  rt_dmi : payload -> tlm_dmi -> W -> res (bool * option ShmemID * tlm_dmi * W);
}.
Arguments mk_target {W}.
Arguments rt_transport {W}.
Arguments rt_dbg {W}.
Arguments rt_dmi {W}.

(** [std::copy] out of an array; past its end is undefined. *)
Definition copy_bytes (n : Z) (l : list Z) : res (list Z) :=
  if n <=? Z.of_nat (length l) then Ret (take (Z.to_nat n) l) else Err StopUndef.

Definition is_null {A} (l : list A) : bool := match l with [] => true | _ => false end.

(** Which half of [PassRPC] this is, and whether it has a client. *)
Record PassRPC : Type := mk_pass {
  pr_local : bool;
  pr_client : bool;
}.

(** ** Carrying a transaction *)

Section Payload.
  Context {D : Type}.

Definition rpc_from_tlm (q : D) (other : payload) : res (tlm_generic_payload_rpc D) :=
  let? (len, dat) :=
    (if negb (data_length other =? 0) && negb (is_null (data other))
     then let? d := copy_bytes (data_length other) (data other) in Ret (data_length other, d)
     else Ret (0, [])) in
  let? (blen, be) :=
    (match byt other with
     | Some b => if negb (byte_enable_length other =? 0)
                 then let? d := copy_bytes (byte_enable_length other) b in Ret (byte_enable_length other, d)
                 else Ret (0, [])
     | None => Ret (0, [])
     end) in
  Ret (mk_rpc (address other) (command other) len (response other) (dmi_allowed other) blen (streaming_width other) q dat be).

Definition deep_copy_to_tlm (t : tlm_generic_payload_rpc D) : payload :=
  mk_payload (r_command t) (r_address t) (if r_length t =? 0 then [] else r_data t) (r_length t) (r_streaming_width t)
    (if r_byte_enable_length t =? 0 then None else Some (r_byte_enable t)) (r_byte_enable_length t)
    (r_response_status t) (r_dmi t) None None None.

(** [tlm_generic_payload::update_original_from]. *)
  Variable update_original_from : payload -> payload -> bool -> payload.

Definition set_byt (b : option (list Z)) (t : payload) : payload :=
  mk_payload (command t) (address t) (data t) (data_length t) (streaming_width t) b
    (byte_enable_length t) (response t) (dmi_allowed t) (ext_path t) (ext_excl t) (ext_udmi t).

Definition update_to_tlm (r : tlm_generic_payload_rpc D) (other : payload) : payload :=
  let tmp := mk_payload TLM_IGNORE_COMMAND 0 (if r_length r =? 0 then [] else r_data r) (r_length r) 0
               (if r_byte_enable_length r =? 0 then None else Some (r_byte_enable r)) (r_byte_enable_length r)
               (r_response_status r) (r_dmi r) None None None in
  let other := if r_byte_enable_length r =? 0 then set_byt None other else other in
  update_original_from other tmp (0 <? r_byte_enable_length r).
End Payload.

(** A byte that the byte enables let through. *)
Definition byte_enabled (o : payload) (use_byte_enable : bool) (i : nat) : bool :=
  match byt o with
  | Some be => if use_byte_enable then negb (bool_decide (be !! (i mod Z.to_nat (byte_enable_length o))%nat = Some 0)) else true
  | None => true
  end.

(** What IEEE 1666 says of [update_original_from]: the response, the DMI hint and, for a read,
    the enabled bytes are copied back; nothing else changes. *)
Record update_laws (upd : payload -> payload -> bool -> payload) : Prop := {
  ul_same : forall o t u, exists d, upd o t u = set_dmi_allowed (dmi_allowed t) (set_response_status (response t) (set_data d o));
  ul_keep : forall o t u, command o <> TLM_READ_COMMAND \/ data o = [] \/ data t = [] -> data (upd o t u) = data o;
  ul_copy : forall o t u i, command o = TLM_READ_COMMAND -> data o <> [] -> length (data t) = length (data o) ->
    data (upd o t u) !! i =
    if bool_decide (Z.of_nat i < data_length o) && byte_enabled o u i then data t !! i else data o !! i;
}.

(** ** Both ends *)

Section Bridge.
  Context {D W : Type}.
  Variable to_seconds : Z -> D.
  Variable of_seconds : D -> Z.
  Variable update_original_from : payload -> payload -> bool -> payload.
  Variable sysc_runs : W -> bool.
  Variable peer : remote_target W.

Definition set_quantum (q : D) (t : tlm_generic_payload_rpc D) : tlm_generic_payload_rpc D :=
  mk_rpc (r_address t) (r_command t) (r_length t) (r_response_status t) (r_dmi t) (r_byte_enable_length t)
    (r_streaming_width t) q (r_data t) (r_byte_enable t).

Definition b_transport_rpc (t : tlm_generic_payload_rpc D) (w : W) : res (tlm_generic_payload_rpc D * W) :=
  let trans := deep_copy_to_tlm t in
  let delay := of_seconds (r_quantum_time t) in
  let? (trans, delay, w) := (if sysc_runs w then rt_transport peer trans delay w else Ret (trans, delay, w)) in
  let? t := rpc_from_tlm (r_quantum_time t) trans in
  Ret (set_quantum (to_seconds delay) t, w).

Definition transport_dbg_rpc (t : tlm_generic_payload_rpc D) (w : W) : res (tlm_generic_payload_rpc D * W) :=
  let? (ret_len, trans, w) := rt_dbg peer (deep_copy_to_tlm t) w in
  let? t := rpc_from_tlm (r_quantum_time t) trans in
  let? _ := assertb ((data_length trans =? ret_len) || negb (bool_decide (response trans = TLM_OK_RESPONSE))) in
  Ret (t, w).

Definition dmi_from_tlm (other : tlm_dmi) (shm : ShmemID) : tlm_dmi_rpc :=
  mk_dmi_rpc (sx_memid shm) (sx_size shm) (u64 (dmi_ptr other - sx_mapped_addr shm)) (dmi_start other) (dmi_end other) (dmi_acc other).

Definition no_dmi_rpc : tlm_dmi_rpc := mk_dmi_rpc EmptyString 0 0 0 0 DMI_ACCESS_NONE.

Definition get_direct_mem_ptr_rpc (t : tlm_generic_payload_rpc D) (w : W) : res (tlm_dmi_rpc * W) :=
  let? (ok, ext, dmi_data, w) := rt_dmi peer (deep_copy_to_tlm t) dmi_init w in
  match ok, ext with
  | true, Some e => Ret (dmi_from_tlm dmi_data e, w)
  | _, _ => Ret (no_dmi_rpc, w)
  end.

(** [do_rpc_call] leaves the process when there is no connection. *)
Definition do_rpc {A} (p : PassRPC) (f : res A) : res A := if pr_client p then f else Err StopExit.

(** The enclosing container, in local mode. *)
  Variable container : remote_target W.

Definition pass_b_transport (p : PassRPC) (trans : payload) (delay : Z) (w : W) : res (payload * Z * W) :=
  if pr_local p then rt_transport container trans delay w
  else
    let? t := rpc_from_tlm (to_seconds delay) trans in
    let? (r, w) := do_rpc p (b_transport_rpc t w) in
    Ret (update_to_tlm update_original_from r trans, of_seconds (r_quantum_time r), w).

Definition pass_transport_dbg (p : PassRPC) (q0 : D) (trans : payload) (w : W) : res (Z * payload * W) :=
  if pr_local p then rt_dbg container trans w
  else
    let? t := rpc_from_tlm q0 trans in
    let? (r, w) := do_rpc p (transport_dbg_rpc t w) in
    let trans := update_to_tlm update_original_from r trans in
    Ret (if bool_decide (response trans = TLM_OK_RESPONSE) then data_length trans else 0, trans, w).

(** [to_tlm] maps the segment into this process; [fd] and [mapped] are what the system gives
    when that is new. *)
Definition dmi_to_tlm (r : tlm_dmi_rpc) (fd : Z) (mapped : option Z) (m : MemoryServices) : option tlm_dmi * MemoryServices :=
  match map_mem_join (rd_shmem_fn r) (rd_shmem_size r) fd mapped m with
  | (Some base, m') => (Some (mk_dmi (u64 (rd_shmem_offset r + base)) (rd_start r) (rd_end r) (rd_access r)), m')
  | (None, m') => (None, m')
  end.

Definition pass_get_direct_mem_ptr (p : PassRPC) (q0 : D) (trans : payload) (dmi_data : tlm_dmi) (fd : Z) (mapped : option Z)
    (m : MemoryServices) (w : W) : res (bool * tlm_dmi * MemoryServices * W) :=
  if pr_local p then
    let? (ok, _, d, w) := rt_dmi container trans dmi_data w in Ret (ok, d, m, w)
  else
    let? t := rpc_from_tlm q0 trans in
    let? (r, w) := do_rpc p (get_direct_mem_ptr_rpc t w) in
    if rd_shmem_size r =? 0 then Ret (false, dmi_data, m, w)
    else match dmi_to_tlm r fd mapped m with
         | (Some d, m') => Ret (negb (is_none_allowed d), d, m', w)
         | (None, _) => Err StopFatal
         end.

(** [invalidate_direct_mem_ptr] of the sockets towards the targets: the ranges given to the
    container in local mode, and those sent to the peer. *)
Definition pass_invalidate (p : PassRPC) (start end_ : Z) : res (list (Z * Z) * list (Z * Z)) :=
  let local := if pr_local p then [(start, end_)] else [] in
  let? sent := do_rpc p (Ret [(start, end_)]) in
  Ret (local, sent).

(** The peer passes a range on to each of its [n] target sockets. *)
Definition invalidate_rpc (n : nat) (start end_ : Z) : list (nat * (Z * Z)) := (fun i => (i, (start, end_))) <$> seq 0 n.
End Bridge.

(** In local mode neither a server nor a client is made; otherwise the constructor waits until
    the peer is connected. *)
Definition new_pass (is_local : bool) : PassRPC := mk_pass is_local (negb is_local).

(** ** The bridge is transparent *)

(** The arrays of a transaction have the lengths it says. *)
Record txn_wf (t : payload) : Prop := {
  tw_data : data_length t = Z.of_nat (length (data t));
  tw_be : match byt t with
          | None => byte_enable_length t = 0
          | Some b => byte_enable_length t = Z.of_nat (length b) /\ b <> []
          end;
}.

(** The transaction without its extensions. *)
Definition bare (t : payload) : payload := set_path None (set_excl None (set_udmi None t)).

(** What TLM asks of a target: attributes and array lengths stay, the data of anything but a
    read stays, and a read leaves disabled bytes alone. *)
Record target_ok (t t' : payload) : Prop := {
  ta_command : command t' = command t;
  ta_length : data_length t' = data_length t /\ length (data t') = length (data t);
  ta_be : byt t' = byt t /\ byte_enable_length t' = byte_enable_length t;
  ta_write : command t <> TLM_READ_COMMAND -> data t' = data t;
  ta_disabled : forall i, byte_enabled t true i = false -> data t' !! i = data t !! i;
}.

Lemma copy_bytes_all l : copy_bytes (Z.of_nat (length l)) l = Ret l.
Proof. unfold copy_bytes. rewrite Z.leb_refl, Nat2Z.id, take_ge by done. done. Qed.

Lemma length_zero_nil {A} (l : list A) : (Z.of_nat (length l) =? 0) = is_null l.
Proof. by destruct l. Qed.

(** Nothing is lost on the way to the peer but the extensions. *)
Lemma rpc_from_tlm_ok {D} (q : D) t : txn_wf t ->
  rpc_from_tlm q t = Ret (mk_rpc (address t) (command t) (data_length t) (response t) (dmi_allowed t) (byte_enable_length t)
                            (streaming_width t) q (data t) (default [] (byt t))).
Proof.
  intros [Hd Hb]. unfold rpc_from_tlm.
  assert ((if negb (data_length t =? 0) && negb (is_null (data t))
           then let? d := copy_bytes (data_length t) (data t) in Ret (data_length t, d) else Ret (0, [])) = Ret (data_length t, data t)) as ->.
  { rewrite Hd, length_zero_nil. destruct (data t) eqn:E; [done|]. rewrite <- E. cbn [is_null]. rewrite copy_bytes_all. by rewrite E. }
  cbn [rbind]. destruct (byt t) as [b|]; [|by rewrite Hb]. destruct Hb as [-> Hb]. rewrite length_zero_nil. destruct b as [|x b]; [done|].
  cbn [is_null negb]. rewrite copy_bytes_all. done.
Qed.

Lemma deep_copy_bare {D} (q : D) t : txn_wf t ->
  deep_copy_to_tlm (mk_rpc (address t) (command t) (data_length t) (response t) (dmi_allowed t) (byte_enable_length t)
                      (streaming_width t) q (data t) (default [] (byt t))) = bare t.
Proof.
  intros [Hd Hb]. destruct t; cbn in *. unfold deep_copy_to_tlm, bare, set_path, set_excl, set_udmi; cbn. f_equal.
  - rewrite Hd, length_zero_nil. by destruct data.
  - destruct byt as [b|]; [|by rewrite Hb]. destruct Hb as [-> Hb]. rewrite length_zero_nil. by destruct b.
Qed.

Lemma target_ok_wf t t' : txn_wf t -> target_ok t t' -> txn_wf t'.
Proof. intros [Hd Hb] [_ [H1 H2] [H3 H4] _ _]. split; [by rewrite H1, H2|by rewrite H3, H4]. Qed.

Lemma bare_wf t : txn_wf t -> txn_wf (bare t).
Proof. intros [Hd Hb]. by split. Qed.

Lemma update_to_tlm_ok {D} upd (q : D) t t' : update_laws upd -> txn_wf t -> target_ok (bare t) t' ->
  update_to_tlm upd (mk_rpc (address t') (command t') (data_length t') (response t') (dmi_allowed t') (byte_enable_length t')
                      (streaming_width t') q (data t') (default [] (byt t'))) t =
  set_dmi_allowed (dmi_allowed t') (set_response_status (response t') (set_data (data t') t)).
Proof.
  intros Hu [Hd Hb] Ht. destruct Ht as [H1 [H2 H3] [H4 H5] H6 H7]. unfold update_to_tlm. cbn [r_length r_data r_byte_enable_length r_response_status r_dmi r_byte_enable].
  rewrite H5. cbn [bare byte_enable_length set_path set_excl set_udmi].
  assert ((if byte_enable_length t =? 0 then set_byt None t else t) = t) as ->.
  { destruct (Z.eqb_spec (byte_enable_length t) 0) as [E|]; [|done]. unfold set_byt. destruct t; cbn in *. destruct byt as [b|]; [|done].
    destruct Hb as [-> Hb]. by destruct b. }
  match goal with |- upd t ?x ?u = _ => set (tmp := x); set (ub := u) end.
  destruct (ul_same _ Hu t tmp ub) as [d Eu]. rewrite Eu. assert (d = data t') as ->; [|done].
  assert (data (upd t tmp ub) = d) as <- by (by rewrite Eu). cbn in H2, H3, H6.
  assert (data tmp = data t') as Etmp. { cbn. rewrite H2, Hd, <- H3, length_zero_nil. by destruct (data t'). }
  destruct (decide (command t = TLM_READ_COMMAND)) as [Hr|Hr]; [|rewrite ul_keep by auto; symmetry; by apply H6].
  destruct (data t) as [|z l] eqn:Edt.
  { rewrite ul_keep by auto. rewrite Edt. symmetry. by apply nil_length_inv. }
  apply list_eq. intros i. rewrite ul_copy; [|done|done|by rewrite Edt|by rewrite Etmp, Edt].
  rewrite Etmp. case_bool_decide as Hi; cbn.
  - destruct (byte_enabled t ub i) eqn:Ee; [done|]. rewrite Edt. symmetry. rewrite H7; [cbn; by rewrite Edt|].
    unfold byte_enabled in *. cbn. destruct (byt t) as [b|]; [|done]. unfold ub in Ee. destruct (0 <? byte_enable_length t); [done|done].
  - rewrite !lookup_ge_None_2; [done| |]; rewrite ?Edt; cbn in *; lia.
Qed.

(** C10: a transaction that goes through the bridge, which carries neither the path nor the exclusive
    access extension, comes back as if the peer's target had been called directly on the transaction
    without its extensions: same response, DMI hint, data and effect, with nothing else changed, its
    extensions included; delays are those of a direct call, converted to seconds and back on each
    way.  The target keeps to what TLM asks of targets, and the kernel of the peer runs. *)
Theorem remote_transparent {D W} (to_seconds : Z -> D) of_seconds upd runs (peer cont : remote_target W) t delay w t' delay' w' :
  update_laws upd -> txn_wf t -> runs w = true ->
  rt_transport peer (bare t) (of_seconds (to_seconds delay)) w = Ret (t', delay', w') -> target_ok (bare t) t' ->
  pass_b_transport to_seconds of_seconds upd runs peer cont (new_pass false) t delay w =
  Ret (set_dmi_allowed (dmi_allowed t') (set_response_status (response t') (set_data (data t') t)), of_seconds (to_seconds delay'), w').
Proof.
  intros Hu Hw Hrun Ht Hok. unfold pass_b_transport. cbn [new_pass pr_local]. rewrite rpc_from_tlm_ok by done. cbn [rbind do_rpc pr_client new_pass negb].
  unfold b_transport_rpc. rewrite deep_copy_bare by done. cbn [r_quantum_time]. rewrite Hrun, Ht. cbn [rbind].
  rewrite rpc_from_tlm_ok by (eapply target_ok_wf; [by apply bare_wf|done]). cbn [rbind]. unfold set_quantum. cbn. by rewrite update_to_tlm_ok.
Qed.

(** An [update_original_from] with these properties. *)
Definition tlm_update (o t : payload) (u : bool) : payload :=
  let copied := imap (fun i x => if bool_decide (Z.of_nat i < data_length o) && byte_enabled o u i then default x (data t !! i) else x) (data o) in
  set_dmi_allowed (dmi_allowed t) (set_response_status (response t)
    (set_data (if bool_decide (command o = TLM_READ_COMMAND) && negb (is_null (data t)) then copied else data o) o)).

Lemma tlm_update_laws : update_laws tlm_update.
Proof.
  split.
  - intros o t u. by eexists.
  - intros o t u H. unfold tlm_update. cbn. destruct H as [H|[H|H]].
    + by rewrite bool_decide_false.
    + rewrite H. cbn. by destruct (bool_decide _ && _).
    + rewrite H. cbn. by rewrite andb_false_r.
  - intros o t u i Hr Hn Hl. unfold tlm_update. cbn. rewrite bool_decide_true by done.
    assert (is_null (data t) = false) as ->. { destruct (data t), (data o); done. }
    cbn. rewrite list_lookup_imap. destruct (data o !! i) as [x|] eqn:Ei; cbn.
    + destruct (bool_decide _ && _); [|done]. apply lookup_lt_Some in Ei. rewrite <- Hl in Ei. by apply lookup_lt_is_Some in Ei as [y ->].
    + apply lookup_ge_None in Ei. rewrite lookup_ge_None_2 by lia. by destruct (bool_decide _ && _).
Qed.

(** A peer whose only target answers a read with the bytes of a counter. *)
Definition counter_target : remote_target Z :=
  mk_target (fun t d w => Ret (set_response_status TLM_OK_RESPONSE (set_data (match command t with TLM_READ_COMMAND => (fun _ => w) <$> data t | _ => data t end) t), d + 5, w + 1))
    (fun t w => Ret (0, t, w))
    (fun t d w => Ret (true, Some (mk_shmem "/seg" 65536 8192), mk_dmi 69632 4096 8191 DMI_ACCESS_READ_WRITE, w)).

Lemma remote_transparent_witness :
  pass_b_transport id id tlm_update (fun _ => true) counter_target counter_target (new_pass false) (plain_txn TLM_READ_COMMAND 4096 [0; 0]) 7 9 =
  Ret (set_response_status TLM_OK_RESPONSE (plain_txn TLM_READ_COMMAND 4096 [9; 9]), 12, 10).
Proof.
  etrans; [eapply (remote_transparent id id tlm_update (fun _ => true) counter_target counter_target (plain_txn TLM_READ_COMMAND 4096 [0; 0]) 7 9)|].
  - exact tlm_update_laws.
  - split; reflexivity.
  - reflexivity.
  - reflexivity.
  - split; try done.
  - reflexivity.
Defined.

(** ** DMI across processes *)

(** A grant that lies in the segment it is described by. *)
Definition in_segment (d : tlm_dmi) (x : ShmemID) : Prop :=
  sx_mapped_addr x <= dmi_ptr d /\ dmi_start d <= dmi_end d /\ dmi_ptr d + (dmi_end d - dmi_start d) < sx_mapped_addr x + sx_size x /\ 0 < sx_size x < 2 ^ 64.

(** a DMI grant from the peer is the same memory: each granted address leads, in this
    process, to the byte of the shared segment that it leads to in the peer, and asking again
    later, whatever was mapped in between, gives the same pointer. *)
Theorem remote_dmi_same_memory {D W} (upd_peer cont : remote_target W) (q0 : D) t dmi0 fd mapped m w d x w' base m' :
  txn_wf t -> rt_dmi upd_peer (bare t) dmi_init w = Ret (true, Some x, d, w') -> in_segment d x -> dmi_acc d <> DMI_ACCESS_NONE ->
  map_mem_join (sx_memid x) (sx_size x) fd mapped m = (Some base, m') -> 0 <= base -> base + sx_size x <= 2 ^ 64 ->
  exists d', pass_get_direct_mem_ptr upd_peer cont (new_pass false) q0 t dmi0 fd mapped m w = Ret (true, d', m', w') /\
    dmi_start d' = dmi_start d /\ dmi_end d' = dmi_end d /\ dmi_acc d' = dmi_acc d /\
    (forall a, dmi_covers d a -> dmi_host d' a - base = dmi_host d a - sx_mapped_addr x /\ base <= dmi_host d' a < base + sx_size x) /\
    forall m2 w2 fd2 mapped2 dmi2, rtc ms_step m' m2 -> rt_dmi upd_peer (bare t) dmi_init w2 = Ret (true, Some x, d, w2) ->
      pass_get_direct_mem_ptr upd_peer cont (new_pass false) q0 t dmi2 fd2 mapped2 m2 w2 = Ret (true, d', m2, w2).
Proof.
  intros Hw Hd (H1 & H2 & H3 & H4) Ha Hj Hb Hbs. set (d' := mk_dmi (base + (dmi_ptr d - sx_mapped_addr x)) (dmi_start d) (dmi_end d) (dmi_acc d)).
  assert (negb (is_none_allowed d') = true) as Hna by (unfold is_none_allowed; cbn; by destruct (dmi_acc d)).
  assert (u64 (u64 (dmi_ptr d - sx_mapped_addr x) + base) = dmi_ptr d') as Hp.
  { rewrite (u64_small (dmi_ptr d - _)) by lia. cbn. rewrite u64_small by lia. lia. }
  assert (forall dm fd mapped m w m' w', rt_dmi upd_peer (bare t) dmi_init w = Ret (true, Some x, d, w') ->
    map_mem_join (sx_memid x) (sx_size x) fd mapped m = (Some base, m') ->
    pass_get_direct_mem_ptr upd_peer cont (new_pass false) q0 t dm fd mapped m w = Ret (true, d', m', w')) as Hrun.
  { intros dm fd0 mp0 m0 w0 m1 w1 Hr Hjo. unfold pass_get_direct_mem_ptr. cbn [new_pass pr_local]. rewrite rpc_from_tlm_ok by done. cbn [rbind do_rpc pr_client new_pass negb].
    unfold get_direct_mem_ptr_rpc. rewrite deep_copy_bare by done. rewrite Hr. cbn [rbind dmi_from_tlm rd_shmem_size].
    rewrite (proj2 (Z.eqb_neq _ _)) by lia. unfold dmi_to_tlm, dmi_from_tlm. cbn [rd_shmem_fn rd_shmem_size rd_shmem_offset rd_start rd_end rd_access].
    rewrite Hjo, Hp. cbn [dmi_ptr d']. fold d'. by rewrite Hna. }
  exists d'. split; [by eapply Hrun|]. do 3 (split; [done|]). split.
  - intros a [Hs He]. unfold dmi_host. cbn. lia.
  - intros m2 w2 fd2 mp2 dmi2 Hr Hd2. eapply Hrun; [done|]. destruct (mapped_desc _ _ fd mapped m _ _ (or_intror Hj)) as (ds & Hds & <- & <-). by eapply join_again.
Qed.

Lemma remote_dmi_same_memory_witness :
  exists d' m', pass_get_direct_mem_ptr counter_target counter_target (new_pass false) 0 (plain_txn TLM_READ_COMMAND 4096 []) dmi_init 3 (Some 1048576)
    (new_services {["/seg" := 8192]}) 0 = Ret (true, d', m', 0) /\ dmi_host d' 4100 = 1048576 + 4096 + 4.
Proof.
  edestruct (remote_dmi_same_memory counter_target counter_target 0 (plain_txn TLM_READ_COMMAND 4096 []) dmi_init 3 (Some 1048576)
    (new_services {["/seg" := 8192]}) 0 (mk_dmi 69632 4096 8191 DMI_ACCESS_READ_WRITE) (mk_shmem "/seg" 65536 8192) 0 1048576) as (d' & E & _ & _ & _ & Hh & _).
  - by split.
  - reflexivity.
  - unfold in_segment. cbn. lia.
  - done.
  - reflexivity.
  - lia.
  - cbn. lia.
  - eexists d', _. split; [exact E|]. destruct (Hh 4100) as [Ho _]; [unfold dmi_covers; cbn; lia|]. unfold dmi_host in Ho at 2. cbn in Ho. lia.
Defined.

(** In local mode there is no client, but the function goes on to call it: an invalidation
    ends the process. *)
Lemma local_invalidation_exits start end_ : pass_invalidate (new_pass true) start end_ = Err StopExit.
Proof. done. Qed.

(** A request that the peer refuses leaves the caller's descriptor as it was: the range that
    the peer has refused is lost. *)
Lemma refused_range_lost {D W} (peer cont : remote_target W) (q0 : D) t dmi0 fd mapped m w d w' :
  txn_wf t -> rt_dmi peer (bare t) dmi_init w = Ret (false, None, d, w') ->
  pass_get_direct_mem_ptr peer cont (new_pass false) q0 t dmi0 fd mapped m w = Ret (false, dmi0, m, w').
Proof.
  intros Hw Hd. unfold pass_get_direct_mem_ptr. cbn [new_pass pr_local]. rewrite rpc_from_tlm_ok by done. cbn [rbind do_rpc pr_client new_pass negb].
  unfold get_direct_mem_ptr_rpc. rewrite deep_copy_bare by done. by rewrite Hd.
Qed.
