(* ===== verification/RemoteSync.v ===== *)
(** * How two bridged simulations keep in step

    common/include/remote.h: the signals that the peer sends before and after the start of the
    simulation, the exchange of simulation phases that makes the two processes wait for each
    other, and the ports on which one transaction at a time waits for the peer.  Threads are
    the steps of a machine. *)

From stdpp Require Import base list numbers option relations.
From S2P Require Import Prelude.

(** [sc_core::sc_status], up to running. *)
Inductive sc_status : Type :=
| SC_ELABORATION
| SC_BEFORE_END_OF_ELABORATION
| SC_END_OF_ELABORATION
| SC_START_OF_SIMULATION
| SC_RUNNING.

Definition status_rank (s : sc_status) : Z :=
  match s with
  | SC_ELABORATION => 1
  | SC_BEFORE_END_OF_ELABORATION => 2
  | SC_END_OF_ELABORATION => 4
  | SC_START_OF_SIMULATION => 8
  | SC_RUNNING => 16
  end.

(** ** Signals *)

Definition signal : Type := nat * bool.

(** A job of [run_on_sysc] that writes a signal refers to the handler's arguments: [None] is a
    job whose arguments are gone, because the handler has not waited for it. *)
Record sig_state : Type := mk_sig {
  sg_status : sc_status;
  sg_checked : option signal;
  sg_queue : list signal;
  sg_jobs : list (option signal);
  sg_writes : list (option signal);
  sg_flushed : bool;
}.

Definition new_sig : sig_state := mk_sig SC_ELABORATION None [] [] [] false.

(** The "signal" call: the handler looks at the phase, and either queues the signal (a second
    step, under the lock of the queue) or posts a job. *)
Definition signal_rpc (x : signal) (s : sig_state) : sig_state :=
  if status_rank (sg_status s) <? status_rank SC_START_OF_SIMULATION
  then mk_sig (sg_status s) (Some x) (sg_queue s) (sg_jobs s) (sg_writes s) (sg_flushed s)
  else let wait := negb (status_rank (sg_status s) <? status_rank SC_RUNNING) in
       mk_sig (sg_status s) (sg_checked s) (sg_queue s) (sg_jobs s ++ [if wait then Some x else None]) (sg_writes s) (sg_flushed s).

Definition signal_push (s : sig_state) : sig_state :=
  match sg_checked s with
  | Some x => mk_sig (sg_status s) None (sg_queue s ++ [x]) (sg_jobs s) (sg_writes s) (sg_flushed s)
  | None => s
  end.

(** [handle_before_sim_start_signals] runs on the SystemC thread, where [run_on_sysc] calls the
    job at once. *)
Definition handle_before_sim_start_signals (s : sig_state) : sig_state :=
  mk_sig (sg_status s) (sg_checked s) [] (sg_jobs s) (sg_writes s ++ (Some <$> sg_queue s)) true.

Definition run_signal_job (s : sig_state) : sig_state :=
  match sg_jobs s with
  | j :: js => mk_sig (sg_status s) (sg_checked s) (sg_queue s) js (sg_writes s ++ [j]) (sg_flushed s)
  | [] => s
  end.

Definition set_sg_status (st : sc_status) (s : sig_state) : sig_state :=
  mk_sig st (sg_checked s) (sg_queue s) (sg_jobs s) (sg_writes s) (sg_flushed s).

(** The state with the signals that the peer has sent, each with the phase in which its handler looked
    at it.  The server has one worker thread, so handlers run one after the other.  The kernel runs jobs
    only while the simulation runs, which starts after [start_of_simulation] has emptied the queue. *)
Inductive sig_step : list (sc_status * signal) * sig_state -> list (sc_status * signal) * sig_state -> Prop :=
| sig_receive l x s : sg_checked s = None -> sig_step (l, s) (l ++ [(sg_status s, x)], signal_rpc x s)
| sig_push l s : sig_step (l, s) (l, signal_push s)
| sig_phase l s st : status_rank (sg_status s) < status_rank st -> st <> SC_RUNNING -> sig_step (l, s) (l, set_sg_status st s)
| sig_flush l s : sg_status s = SC_START_OF_SIMULATION -> sg_flushed s = false -> sig_step (l, s) (l, handle_before_sim_start_signals s)
| sig_run l s : sg_status s = SC_START_OF_SIMULATION -> sg_flushed s = true -> sig_step (l, s) (l, set_sg_status SC_RUNNING s)
| sig_job l s : sg_status s = SC_RUNNING -> sig_step (l, s) (l, run_signal_job s).

(** What the job of a signal writes: the arguments are gone if its handler did not wait. *)
Definition written (e : sc_status * signal) : option signal := match e.1 with SC_START_OF_SIMULATION => None | _ => Some e.2 end.

(** What is left of the signals from before the start: before the queue is emptied, all of them; after
    it, the one whose handler was between its two steps at that time, if any. *)
Definition held (s : sig_state) : list signal := sg_queue s ++ option_list (sg_checked s).

Record sig_inv (l : list (sc_status * signal)) (s : sig_state) : Prop := {
  si_before : sg_flushed s = false -> sg_writes s = [] /\ sg_status s <> SC_RUNNING /\ (Some <$> held s) ++ sg_jobs s = written <$> l;
  si_jobs : sg_jobs s <> [] -> sg_flushed s = false -> sg_checked s = None /\ sg_status s = SC_START_OF_SIMULATION;
  si_after : sg_flushed s = true -> 8 <= status_rank (sg_status s) /\
    (held s = [] /\ sg_writes s ++ sg_jobs s = written <$> l \/
     exists x l1 l2, held s = [x] /\ written <$> l = l1 ++ Some x :: l2 /\ sg_writes s ++ sg_jobs s = l1 ++ l2);
}.

Lemma flushed_more l s s' y : sg_flushed s = true -> sig_inv l s -> sg_flushed s' = true -> 8 <= status_rank (sg_status s') ->
  held s' = held s -> sg_writes s' ++ sg_jobs s' = (sg_writes s ++ sg_jobs s) ++ (written <$> y) -> sig_inv (l ++ y) s'.
Proof.
  intros Hf [_ _ Ha] Hf' Hr Hh Hw. split; [congruence|congruence|]. intros _. split; [done|]. rewrite Hh, Hw, fmap_app.
  destruct (Ha Hf) as [_ [[? ->]|(x & l1 & l2 & ? & -> & ->)]]; [by left|right]. exists x, l1, (l2 ++ (written <$> y)). by rewrite <- !app_assoc.
Qed.

Lemma sig_receive_inv l x s : sg_checked s = None -> sig_inv l s -> sig_inv (l ++ [(sg_status s, x)]) (signal_rpc x s).
Proof.
  intros Hc Hi. destruct (sg_flushed s) eqn:Hf.
  - destruct Hi as [Hb Hj Ha]. destruct (Ha Hf) as [Hr _]. apply (flushed_more l s); [done|by split|..];
      unfold signal_rpc; destruct (sg_status s) eqn:Es; cbn in Hr |- *; try lia; unfold held, written; cbn; rewrite ?Es, ?Hc; by rewrite ?app_assoc.
  - destruct Hi as [Hb Hj Ha]. destruct (Hb Hf) as (Hw & Hs & Hh). unfold held in Hh. rewrite Hc, app_nil_r in Hh.
    assert (sg_jobs s = [] \/ sg_status s = SC_START_OF_SIMULATION) as Hor by (destruct (sg_jobs s); [by left|right; by apply Hj]).
    unfold signal_rpc. destruct (sg_status s) eqn:Es; try done; cbn.
    1-3: destruct Hor as [Ej|]; [|done]; rewrite Ej in *; split; cbn; rewrite ?Es; try congruence; try done; intros _; split_and!; try done;
      unfold held; cbn; rewrite !fmap_app, <- Hh; cbn; by rewrite !app_nil_r.
    split; cbn; rewrite ?Es; try congruence; [|by rewrite Hc]. intros _. split_and!; [done|done|]. unfold held. cbn. by rewrite Hc, app_nil_r, !fmap_app, <- Hh, <- app_assoc.
Qed.

Lemma sig_step_inv l s l' s' : sig_step (l, s) (l', s') -> sig_inv l s -> sig_inv l' s'.
Proof.
  inversion 1 as [? x ? Hc|? ?|? ? st Hlt Hst|? ? Hs Hfl|? ? Hs Hfl|? ? Hs]; subst; intros Hi.
  - by apply sig_receive_inv.
  - unfold signal_push. destruct (sg_checked s) as [x|] eqn:Hc; [|done]. destruct Hi as [Hb Hj Ha].
    assert (held (signal_push s) = held s) as Hh by (unfold held, signal_push; rewrite Hc; cbn; by rewrite app_nil_r).
    unfold signal_push in Hh. rewrite Hc in Hh. split; cbn [sg_flushed sg_writes sg_status sg_jobs sg_checked]; rewrite ?Hh; [exact Hb| |exact Ha]. intros Hne Hf. split; [done|]. by apply Hj.
  - destruct Hi as [Hb Hj Ha]. split; cbn; [intros Hf; by destruct (Hb Hf) as (? & _ & ?)| |].
    + intros Hne Hf. destruct (Hj Hne Hf) as [? Hs]. split; [done|]. rewrite Hs in Hlt. by destruct st.
    + intros Hf. destruct (Ha Hf) as [Hr ?]. split; [lia|done].
  - destruct Hi as [Hb Hj Ha]. destruct (Hb Hfl) as (Hw & _ & Hh). split; cbn; try done. intros _. rewrite Hs. split; [done|]. rewrite Hw. cbn [app]. unfold held in *. cbn.
    destruct (sg_checked s) as [x|] eqn:Hc; cbn in *; [right|left; by rewrite app_nil_r in Hh]. exists x, (Some <$> sg_queue s), []. split; [done|].
    assert (sg_jobs s = []) as Ej by (destruct (sg_jobs s); [done|]; destruct Hj; done). rewrite Ej in *. by rewrite <- Hh, fmap_app, !app_nil_r.
  - destruct Hi as [Hb Hj Ha]. split; cbn; [congruence|congruence|]. intros Hf. destruct (Ha Hf) as [_ ?]. by split.
  - destruct (sg_flushed s) eqn:Hfl; [|destruct Hi as [Hb _ _]; by destruct (Hb Hfl) as (_ & ? & _)]. unfold run_signal_job. destruct (sg_jobs s) as [|j js] eqn:Ej; [done|].
    rewrite <- (app_nil_r l'). apply (flushed_more l' s); cbn; try done; [by rewrite Hs|]. by rewrite Ej, app_nil_r, <- app_assoc.
Qed.

(** C25: The peer's signals are written in the order it sent them, each at most once, the ones from
    before the start of the simulation included: whatever the moments at which they arrive, what is
    written and waits in jobs is the signals that were sent without at most one, and without none
    once the queue is empty and no handler is at work.  The arguments of a signal that arrives in the
    phase [SC_START_OF_SIMULATION] are lost ([start_phase_signal_dangles]); the one signal that may be
    missing is one whose handler looked at the phase before the queue was emptied and queued it
    afterwards, where it stays ([late_push_lost]). *)
Theorem signals_in_order l s : rtc sig_step ([], new_sig) (l, s) ->
  (sg_flushed s = false -> sg_writes s = [] /\ (Some <$> held s) ++ sg_jobs s = written <$> l) /\
  (sg_flushed s = true ->
     held s = [] /\ sg_writes s ++ sg_jobs s = written <$> l \/
     exists x l1 l2, held s = [x] /\ written <$> l = l1 ++ Some x :: l2 /\ sg_writes s ++ sg_jobs s = l1 ++ l2).
Proof.
  intros Hr. assert (sig_inv l s) as [Hb _ Ha].
  { remember ([], new_sig) as a eqn:Ea. remember (l, s) as b eqn:Eb. assert (sig_inv a.1 a.2) as Hi by (subst; by split).
    clear Ea. revert l s Eb. induction Hr as [|[l1 s1] [l2 s2] c Hxy _ IH]; intros l s ->; [exact Hi|]. apply IH; [|done]. cbn. by eapply sig_step_inv. }
  split; [intros Hf; by destruct (Hb Hf) as (? & _ & ?)|intros Hf; by destruct (Ha Hf)].
Qed.

Lemma signals_in_order_witness :
  exists s, rtc sig_step ([], new_sig) ([(SC_ELABORATION, (0%nat, true)); (SC_RUNNING, (0%nat, false))], s) /\ sg_writes s = [Some (0%nat, true); Some (0%nat, false)].
Proof.
  assert (exists s, rtc sig_step ([], new_sig) ([(SC_ELABORATION, (0%nat, true)); (SC_RUNNING, (0%nat, false))], s) /\ sg_jobs s = [] /\ sg_flushed s = true /\ held s = [])
    as (s & Hr & Hj & Hf & Hh).
  { eexists. split.
    - eapply rtc_l; [apply (sig_receive [] (0%nat, true)); done|]. eapply rtc_l; [apply sig_push|].
      eapply rtc_l; [apply (sig_phase _ _ SC_START_OF_SIMULATION); [cbn; lia|done]|]. eapply rtc_l; [by apply sig_flush|].
      eapply rtc_l; [by apply sig_run|]. eapply rtc_l; [by apply (sig_receive _ (0%nat, false))|]. eapply rtc_l; [by apply sig_job|]. apply rtc_refl.
    - done. }
  exists s. split; [exact Hr|]. destruct (proj2 (signals_in_order _ _ Hr) Hf) as [[_ H]|(x & l1 & l2 & H & _)]; [|congruence].
  rewrite Hj, app_nil_r in H. exact H.
Defined.

(** A handler that has looked at the phase but not yet queued its signal when the queue is
    emptied queues it for ever. *)
Lemma late_push_lost x :
  let s := signal_push (handle_before_sim_start_signals (set_sg_status SC_START_OF_SIMULATION (signal_rpc x new_sig))) in
  sg_queue s = [x] /\ sg_flushed s = true /\ sg_writes s = [] /\ sg_jobs s = [].
Proof. done. Qed.

(** A signal that arrives in the phase [SC_START_OF_SIMULATION] is posted without waiting: its
    job refers to arguments that no longer exist when it runs. *)
Lemma start_phase_signal_dangles x :
  sg_jobs (signal_rpc x (set_sg_status SC_START_OF_SIMULATION new_sig)) = [None].
Proof. done. Qed.

(** ** Phases *)

(** One process: the phases it has announced and those in which [send_status] has returned, the
    phase it knows of the peer, and [cancel_waiting], which [stop] sets. *)
Record phase_proc : Type := mk_proc {
  ph_called : nat;
  ph_done : nat;
  ph_remote : Z;
  ph_cancel : bool;
}.

(** The phases in which [send_status] is called: at the end of the constructor and in three
    callbacks of the kernel. *)
Definition sent_phases : list sc_status :=
  [SC_ELABORATION; SC_BEFORE_END_OF_ELABORATION; SC_END_OF_ELABORATION; SC_START_OF_SIMULATION].

Definition nth_rank (n : nat) : Z := match n with O => 0 | S k => default 0 (status_rank <$> sent_phases !! k) end.

(** The "status" call in the receiving process. *)
Definition status_rpc (st : Z) (p : phase_proc) : res phase_proc :=
  let? _ := assertb (ph_remote p <? st) in Ret (mk_proc (ph_called p) (ph_done p) st (ph_cancel p)).

(** [send_status]: the call to the peer, and the wait for its phase. *)
Definition send_status_call (p q : phase_proc) : res (phase_proc * phase_proc) :=
  let p := mk_proc (S (ph_called p)) (ph_done p) (ph_remote p) (ph_cancel p) in
  let? q := status_rpc (nth_rank (ph_called p)) q in Ret (p, q).

Definition send_status_return (p : phase_proc) : option phase_proc :=
  if (nth_rank (ph_called p) <=? ph_remote p) || ph_cancel p then Some (mk_proc (ph_called p) (S (ph_done p)) (ph_remote p) (ph_cancel p)) else None.

(** [stop]: it deletes the client and the server, after which no call to or from the process succeeds. *)
Definition phase_stop (p : phase_proc) : phase_proc := mk_proc (ph_called p) (ph_done p) (ph_remote p) true.

Definition may_call (p : phase_proc) : Prop := ph_called p = ph_done p /\ (ph_called p < length sent_phases)%nat.

Inductive phase_step : phase_proc * phase_proc -> phase_proc * phase_proc -> Prop :=
| phase_call p q p' q' : may_call p -> ph_cancel p = false -> ph_cancel q = false -> send_status_call p q = Ret (p', q') -> phase_step (p, q) (p', q')
| phase_return p q p' : ph_called p = S (ph_done p) -> send_status_return p = Some p' -> phase_step (p, q) (p', q)
| phase_stopped p q : phase_step (p, q) (phase_stop p, q)
| phase_swap p q p' q' : phase_step (q, p) (q', p') -> phase_step (p, q) (p', q').

Record phase_inv (p q : phase_proc) : Prop := {
  pi_p : (ph_done p <= ph_called p <= S (ph_done p))%nat /\ (ph_called p <= length sent_phases)%nat;
  pi_q : (ph_done q <= ph_called q <= S (ph_done q))%nat /\ (ph_called q <= length sent_phases)%nat;
  pi_knows : ph_remote p = nth_rank (ph_called q) /\ ph_remote q = nth_rank (ph_called p);
  pi_bar : (ph_cancel p = false -> ph_done p <= ph_called q)%nat /\ (ph_cancel q = false -> ph_done q <= ph_called p)%nat;
}.

Lemma nth_rank_lt a b : (a < b <= length sent_phases)%nat -> nth_rank a < nth_rank b.
Proof. cbn. intros H. destruct b as [|[|[|[|[|b]]]]]; try lia; destruct a as [|[|[|[|a]]]]; cbn; lia. Qed.

Lemma nth_rank_le a b : (a <= length sent_phases)%nat -> nth_rank a <= nth_rank b -> (a <= b)%nat.
Proof. intros Ha Hle. destruct (decide (a <= b)%nat); [done|]. pose proof (nth_rank_lt b a). lia. Qed.

Lemma phase_inv_sym p q : phase_inv p q -> phase_inv q p.
Proof. intros [H1 H2 [H3 H4] [H5 H6]]. by split. Qed.

Lemma phase_step_inv x y : phase_step x y -> phase_inv x.1 x.2 -> phase_inv y.1 y.2.
Proof.
  induction 1 as [p q p' q' [He Hl] Hcp Hcq E|p q p' He E|p q|p q p' q' _ IH]; cbn [fst snd] in *; intros Hi.
  - destruct Hi as [H1 H2 [H3 H4] [H5 H6]]. unfold send_status_call, status_rpc in E. cbn [ph_called] in E.
    destruct (ph_remote q <? nth_rank (S (ph_called p))); [|done]. injection E as <- <-. specialize (H5 Hcp). specialize (H6 Hcq). repeat split; cbn [ph_called ph_done ph_remote ph_cancel]; try intros _; (done || lia).
  - destruct Hi as [H1 H2 [H3 H4] [H5 H6]]. unfold send_status_return in E. destruct (_ || _) eqn:Ec; [|done].
    injection E as <-. repeat split; cbn [ph_called ph_done ph_remote ph_cancel]; try (done || lia). intros Hc. rewrite Hc, orb_false_r in Ec. apply Z.leb_le in Ec.
    rewrite H3 in Ec. apply nth_rank_le in Ec; lia.
  - destruct Hi as [H1 H2 [H3 H4] [H5 H6]]. repeat split; cbn [ph_called ph_done ph_remote ph_cancel phase_stop]; (done || lia).
  - apply phase_inv_sym, IH, phase_inv_sym, Hi.
Qed.

Lemma phase_call_ok p q : phase_inv p q -> may_call p -> exists r, send_status_call p q = Ret r.
Proof.
  intros [_ _ [_ H4] _] [_ Hl]. unfold send_status_call, status_rpc. cbn [ph_called]. rewrite H4.
  rewrite (proj2 (Z.ltb_lt _ _)) by (apply nth_rank_lt; lia). by eexists.
Qed.

(** The process that is behind can go on. *)
Lemma phase_goes_on p q : phase_inv p q -> ph_cancel p = false -> ph_cancel q = false -> (ph_called p <= ph_called q)%nat -> (ph_done p < length sent_phases)%nat ->
  exists r, phase_step (p, q) r /\ ph_cancel r.1 = false /\ ph_cancel r.2 = false.
Proof.
  intros Hi Hcp Hcq Hle Hlt. destruct (decide (ph_called p = ph_done p)) as [E|E].
  - assert (may_call p) as Hm by (split; [done|lia]). destruct (phase_call_ok p q Hi Hm) as [[p' q'] Er]. exists (p', q'). split; [by apply phase_call|].
    unfold send_status_call, status_rpc in Er. destruct (assertb _); [|done]. by injection Er as <- <-.
  - destruct Hi as [H1 H2 [H3 _] _]. eexists. split; [eapply phase_return; [lia|]|].
    + unfold send_status_return. rewrite H3, (proj2 (Z.leb_le _ _)); [done|]. destruct (decide (ph_called p = ph_called q)) as [->|]; [lia|].
      pose proof (nth_rank_lt (ph_called p) (ph_called q)). lia.
    + done.
Qed.

(** C27: the two processes go through the phases together: neither has left a phase that the
    other has not entered, unless it was stopped itself; the assertion on the order of phases never
    fails; and until both have started one of them can go on, unless one was stopped. *)
Theorem phases_in_step p q : rtc phase_step (mk_proc 0 0 0 false, mk_proc 0 0 0 false) (p, q) ->
  ((ph_cancel p = false -> ph_done p <= ph_called q) /\ (ph_cancel q = false -> ph_done q <= ph_called p))%nat /\
  (may_call p -> exists r, send_status_call p q = Ret r) /\
  (ph_cancel p = false -> ph_cancel q = false ->
   (ph_done p < length sent_phases \/ ph_done q < length sent_phases)%nat ->
   exists r, phase_step (p, q) r /\ ph_cancel r.1 = false /\ ph_cancel r.2 = false).
Proof.
  intros Hr. assert (phase_inv p q) as Hi.
  { assert (phase_inv (mk_proc 0 0 0 false, mk_proc 0 0 0 false).1 (mk_proc 0 0 0 false, mk_proc 0 0 0 false).2) as H0 by (split; cbn; lia).
    remember (mk_proc 0 0 0 false, mk_proc 0 0 0 false) as a eqn:Ea. remember (p, q) as b eqn:Eb. clear Ea.
    revert p q Eb. induction Hr as [|x y z Hxy _ IH]; intros p q ->; [exact H0|]. by eapply IH; [eapply phase_step_inv|]. }
  split; [apply Hi|]. split; [by apply phase_call_ok|]. intros Hcp Hcq Hor. pose proof Hi as [? ? _ [Hp Hq]]. specialize (Hp Hcp). specialize (Hq Hcq).
  destruct (decide (ph_called p <= ph_called q /\ ph_done p < length sent_phases)%nat) as [[Hle Hlt]|Hn]; [by apply phase_goes_on|].
  destruct (phase_goes_on q p) as ([q' p'] & Hs & ? & ?); [by apply phase_inv_sym|done|done|lia|lia|]. exists (p', q'). split; [by apply phase_swap|done].
Qed.

Lemma phases_in_step_witness :
  rtc phase_step (mk_proc 0 0 0 false, mk_proc 0 0 0 false) (mk_proc 1 0 0 false, mk_proc 0 0 1 false) /\
  exists r, phase_step (mk_proc 1 0 0 false, mk_proc 0 0 1 false) r /\ ph_cancel r.1 = false /\ ph_cancel r.2 = false.
Proof.
  assert (rtc phase_step (mk_proc 0 0 0 false, mk_proc 0 0 0 false) (mk_proc 1 0 0 false, mk_proc 0 0 1 false)) as Hr.
  { apply rtc_once. apply phase_call; [split; [done|cbn; lia]|reflexivity..]. }
  split; [exact Hr|]. apply (phases_in_step (mk_proc 1 0 0 false) (mk_proc 0 0 1 false) Hr); [reflexivity|reflexivity|]. cbn. lia.
Defined.

(** ** Ports *)

(** A process of the simulation in [b_transport]: about to look at the port, waiting for it,
    woken, waiting for the peer's answer, or through. *)
Inductive port_pc : Type := PcEnter | PcWait | PcWoken | PcCall | PcDone.

#[global] Instance port_pc_eq_dec : EqDecision port_pc.
Proof. solve_decision. Defined.

(** One port: [is_port_busy] and the processes that use it. *)
Record port_state : Type := mk_port {
  is_port_busy : bool;
  port_procs : list port_pc;
}.

(** The head of [b_transport]: the loop that waits while the port is busy, then the call. *)
Definition port_acquire (i : nat) (s : port_state) : port_state :=
  if is_port_busy s then mk_port true (<[i := PcWait]> (port_procs s)) else mk_port true (<[i := PcCall]> (port_procs s)).

(** Its end: the port is free and [port_available_events] wakes whoever waits. *)
Definition port_release (i : nat) (s : port_state) : port_state :=
  mk_port false ((fun pc => match pc with PcWait => PcWoken | pc => pc end) <$> <[i := PcDone]> (port_procs s)).

Inductive port_step : port_state -> port_state -> Prop :=
| port_step_enter s : port_step s (mk_port (is_port_busy s) (port_procs s ++ [PcEnter]))
| port_step_acquire s i pc : port_procs s !! i = Some pc -> pc = PcEnter \/ pc = PcWoken -> port_step s (port_acquire i s)
| port_step_answer s i : port_procs s !! i = Some PcCall -> port_step s (port_release i s).

(** The calls on the port. *)
Definition calling (s : port_state) (i : nat) : Prop := port_procs s !! i = Some PcCall.

Record port_inv (s : port_state) : Prop := {
  po_one : forall i j, calling s i -> calling s j -> i = j;
  po_busy : is_port_busy s = true <-> exists i, calling s i;
  po_wait : forall i, port_procs s !! i = Some PcWait -> is_port_busy s = true;
}.

Lemma port_acquire_lookup i s j : (i < length (port_procs s))%nat ->
  port_procs (port_acquire i s) !! j = if decide (j = i) then Some (if is_port_busy s then PcWait else PcCall) else port_procs s !! j.
Proof.
  intros Hi. unfold port_acquire. destruct (is_port_busy s); cbn; case_decide as E; subst; by rewrite ?list_lookup_insert_eq, ?list_lookup_insert_ne.
Qed.

Lemma port_step_inv s s' : port_step s s' -> port_inv s -> port_inv s'.
Proof.
  intros Hst [H1 H2 H3]. destruct Hst as [s|s i pc Hi Hpc|s i Hi].
  - assert (forall j pc, pc <> PcEnter -> (port_procs s ++ [PcEnter]) !! j = Some pc <-> port_procs s !! j = Some pc) as Hl.
    { intros j pc Hne. rewrite lookup_app. destruct (port_procs s !! j) eqn:E; [done|]. split; [|done]. intros H. apply list_lookup_singleton_Some in H as [_ <-]. done. }
    unfold calling in *. split; unfold calling; cbn [port_procs is_port_busy].
    + intros a b. rewrite !Hl by done. apply H1.
    + rewrite H2. split; intros [a Ha]; exists a; by apply Hl.
    + intros a. rewrite Hl by done. apply H3.
  - pose proof (lookup_lt_Some _ _ _ Hi) as Hlt. unfold calling in *. split; unfold calling.
    + intros a b. rewrite !port_acquire_lookup by done. destruct (is_port_busy s) eqn:Eb; repeat case_decide; try done; subst; intros Ha Hb; try done; [by apply H1| | |by apply H1].
      all: exfalso; assert (false = true) as ?; [apply H2; by eexists|done].
    + assert (is_port_busy (port_acquire i s) = true) as -> by (unfold port_acquire; by destruct (is_port_busy s)). split; [intros _|done].
      destruct (is_port_busy s) eqn:Eb.
      * destruct (proj1 H2 eq_refl) as [j Hj]. exists j. rewrite port_acquire_lookup by done. case_decide; [subst; destruct Hpc; congruence|done].
      * exists i. rewrite port_acquire_lookup, Eb by done. by rewrite decide_True.
    + intros a _. unfold port_acquire. by destruct (is_port_busy s).
  - assert (forall j pc, port_procs (port_release i s) !! j = Some pc -> pc <> PcWait /\ (pc = PcCall -> j <> i /\ port_procs s !! j = Some PcCall)) as Hl.
    { intros j pc. unfold port_release. cbn [port_procs]. intros Hy. apply list_lookup_fmap_Some in Hy as (y & -> & Hy). split; [by destruct y|].
      intros Ey. assert (y = PcCall) as -> by (by destruct y). apply list_lookup_insert_Some in Hy as [(<- & ? & _)|[Hne Hy]]; [done|]. split; [congruence|done]. }
    unfold calling in *. split; unfold calling.
    + intros a b Ha Hb. apply Hl in Ha as [_ Ha], Hb as [_ Hb]. destruct Ha as [? Ha], Hb as [? Hb]; [done..|]. by apply H1.
    + cbn. split; [done|]. intros [a Ha]. apply Hl in Ha as [_ Ha]. destruct Ha as [Hne Ha]; [done|]. by destruct Hne; apply H1.
    + intros a Ha. by apply Hl in Ha as [? _].
Qed.

(** at any time one transaction of a port waits for the peer at most, and none waits for
    the port in vain: while a process waits, another holds the port, and the answer to that one
    wakes every process that waits. *)
Theorem port_exclusive s : rtc port_step (mk_port false []) s ->
  (forall i j, calling s i -> calling s j -> i = j) /\
  (forall i, port_procs s !! i = Some PcWait -> exists j, calling s j /\ port_procs (port_release j s) !! i = Some PcWoken).
Proof.
  intros Hr. assert (port_inv s) as [H1 H2 H3].
  { remember (mk_port false []) as a eqn:Ea. assert (port_inv a) as Hi by (subst; split; cbn; unfold calling; cbn; [done|split; [done|by intros [? ?]]|done]).
    clear Ea. induction Hr as [|x y z Hxy _ IH]; [done|]. apply IH. by eapply port_step_inv. }
  split; [done|]. intros i Hi. destruct (proj1 H2 (H3 i Hi)) as [j Hj]. exists j. split; [done|]. unfold port_release. cbn [port_procs].
  rewrite list_lookup_fmap, list_lookup_insert_ne by (intros ->; unfold calling in Hj; congruence). by rewrite Hi.
Qed.

Lemma port_exclusive_witness :
  exists s, rtc port_step (mk_port false []) s /\ calling s 0 /\ port_procs (port_release 0 s) !! 1%nat = Some PcWoken.
Proof.
  assert (rtc port_step (mk_port false []) (mk_port true [PcCall; PcWait])) as Hr.
  { eapply rtc_l; [apply port_step_enter|]. eapply rtc_l; [apply port_step_enter|]. cbn.
    eapply rtc_l; [eapply (port_step_acquire _ 0%nat PcEnter); [done|by left]|]. cbn.
    eapply rtc_l; [eapply (port_step_acquire _ 1%nat PcEnter); [done|by left]|]. apply rtc_refl. }
  destruct (port_exclusive _ Hr) as [Hone Hw]. destruct (Hw 1%nat eq_refl) as (j & Hj & Hwk).
  exists (mk_port true [PcCall; PcWait]). split; [exact Hr|]. split; [reflexivity|]. assert (j = 0%nat) as -> by exact (Hone j 0%nat Hj eq_refl). exact Hwk.
Defined.
