(* ===== verification/RemoteCci.v ===== *)
(** * Handing the configuration to the peer

    common/include/remote.h: [get_cci_db] collects the preset values below the bridge's name,
    with the names made relative to it, and [set_cci_db] of the peer turns them into presets
    below its own parent.  The conversion of values to JSON is a parameter. *)

From stdpp Require Import base list numbers option strings gmap.
From Stdlib Require Import Ascii.
From S2P Require Import Prelude Cci.

Section Db.
  Variable to_json : cci_value -> string.
  Variable from_json : string -> cci_value.

Definition match_words : list string :=
  ["args"; "moduletype"; "initiator_socket"; "target_socket"; "initiator_signal_socket"; "target_signal_socket"].

(** The JSON of the string RemotePass. *)
Definition remote_pass_json : string := String (ascii_of_nat 34) ("RemotePass" ++ String (ascii_of_nat 34) EmptyString).

Definition is_self_param (parent parname value : string) : bool :=
  existsb (fun entry =>
    let search_str := if String.eqb entry "moduletype" && String.eqb value remote_pass_json then entry
                      else (parent ++ "." ++ entry)%string in
    contains search_str parname) match_words.

(** The pairs sent, and the names that are marked as used. *)
Fixpoint get_cci_db (parent : string) (l : list (string * cci_value)) : res (list (string * string) * list string) :=
  match l with
  | [] => Ret ([], [])
  | (n, v) :: l' =>
    if String.prefix parent n then
      if is_self_param parent n (to_json v) then get_cci_db parent l'
      else
        let? k := substr_from (String.length parent + 1) n in
        let? (db, used) := get_cci_db parent l' in
        Ret ((("$" ++ k)%string, to_json v) :: db, n :: used)
    else if contains "." n then get_cci_db parent l'
    else let? (db, used) := get_cci_db parent l' in Ret ((n, to_json v) :: db, used)
  end.

(** The name up to its last dot, all of it when there is none. *)
Fixpoint before_last_dot (s : string) : option string :=
  match s with
  | EmptyString => None
  | String c s' =>
    match before_last_dot s' with
    | Some t => Some (String c t)
    | None => if Ascii.eqb c "."%char then Some EmptyString else None
    end
  end.

Definition parent_of (modname : string) : string := default modname (before_last_dot modname).

Definition db_name (modname n : string) : string :=
  match n with
  | String c s => if Ascii.eqb c "$"%char then (parent_of modname ++ "." ++ s)%string
                  else if Ascii.eqb c "@"%char then (modname ++ "." ++ s)%string else n
  | EmptyString => n
  end.

  Context {B : Type} `{CciBroker B}.
  Variable has_param : B -> string -> bool.
  Variable set_param : B -> string -> cci_value -> B.

(** [set_cci_db]: a parameter that exists is set, otherwise its preset is. *)
Definition set_cci_db (modname : string) (db : list (string * string)) (b : B) : B :=
  foldl (fun b p => let n := db_name modname p.1 in
                    if has_param b n then set_param b n (from_json p.2) else set_preset b n (from_json p.2)) b db.
End Db.

(** ** Names *)

Lemma string_app_cons c p s : (String c p ++ s = String c (p ++ s))%string.
Proof. reflexivity. Qed.

Lemma prefix_app p s : String.prefix p (p ++ s) = true.
Proof. induction p as [|c p IH]; [by destruct s|]. rewrite string_app_cons. cbn. by destruct (Ascii.ascii_dec c c). Qed.

Lemma length_string_app p s : String.length (p ++ s) = (String.length p + String.length s)%nat.
Proof. induction p as [|c p IH]; [done|]. rewrite string_app_cons. cbn. by rewrite IH. Qed.

Lemma substring_all s : String.substring 0 (String.length s) s = s.
Proof. induction s as [|c s IH]; cbn; [done|]. by rewrite IH. Qed.

Lemma substring_app p s i n : String.substring (String.length p + i) n (p ++ s) = String.substring i n s.
Proof. induction p as [|c p IH]; [done|]. rewrite string_app_cons. cbn. apply IH. Qed.

Lemma substr_from_app p k : substr_from (String.length p + 1) (p ++ "." ++ k) = Ret k.
Proof.
  change ("." ++ k)%string with (String "." k). unfold substr_from. rewrite length_string_app. cbn [String.length].
  rewrite decide_True by lia. f_equal. rewrite substring_app.
  replace (String.length p + S (String.length k) - (String.length p + 1))%nat with (String.length k) by lia. apply substring_all.
Qed.

Lemma contains_dot a b : contains "." (a ++ "." ++ b) = true.
Proof.
  unfold contains. destruct (String.index 0 "." (a ++ "." ++ b)) eqn:E; [done|].
  destruct (String.index_correct3 0 (String.length a) "." (a ++ "." ++ b) E); [done|lia|]. rewrite <- (Nat.add_0_r (String.length a)), substring_app. by destruct b.
Qed.

Lemma string_app_inj p a b : (p ++ a = p ++ b)%string -> a = b.
Proof. induction p as [|c p IH]; [done|]. rewrite !string_app_cons. intros [= H]. by apply IH. Qed.

(** ** Round trip *)

Section RoundTrip.
  Variable to_json : cci_value -> string.
  Variable from_json : string -> cci_value.
  Hypothesis json_roundtrip : forall v, from_json (to_json v) = v.
  Context {B : Type} `{CciBrokerLaws B}.
  Variable set_param : B -> string -> cci_value -> B.

  Abbreviation self parent n v := (is_self_param parent n (to_json v)).

(** A name is below the bridge, or does not begin like the bridge's. *)
Definition regular (parent : string) (l : list (string * cci_value)) : Prop :=
  forall n v, (n, v) ∈ l -> (exists k, n = (parent ++ "." ++ k)%string) \/ String.prefix parent n = false.

(** Where an entry of the database comes from. *)
Definition db_entry (parent : string) (l : list (string * cci_value)) (e : string * string) : Prop :=
  exists n v, (n, v) ∈ l /\ e.2 = to_json v /\
    ((exists k, n = (parent ++ "." ++ k)%string /\ self parent n v = false /\ e.1 = ("$" ++ k)%string) \/
     (String.prefix parent n = false /\ contains "." n = false /\ e.1 = n)).

Lemma get_cci_db_entries parent l : regular parent l ->
  exists db used, get_cci_db to_json parent l = Ret (db, used) /\ forall e, e ∈ db <-> db_entry parent l e.
Proof.
  induction l as [|[n v] l IH]; intros Hr.
  { exists [], []. split; [done|]. intros e. split; [by intros ?%elem_of_nil|]. by intros (n & v & ?%elem_of_nil & _). }
  destruct IH as (db & used & E & Hdb); [intros n' v' Hin; apply (Hr n' v'); set_solver|].
  assert (forall e, db_entry parent l e -> db_entry parent ((n, v) :: l) e) as Hmono by (intros e (n' & v' & Hin & He); exists n', v'; split; [set_solver|done]).
  assert (forall e, db_entry parent ((n, v) :: l) e -> db_entry parent l e \/ e.2 = to_json v /\
    ((exists k, n = (parent ++ "." ++ k)%string /\ self parent n v = false /\ e.1 = ("$" ++ k)%string) \/
     (String.prefix parent n = false /\ contains "." n = false /\ e.1 = n))) as Hinv.
  { intros e (n' & v' & [[= -> ->]|Hin]%elem_of_cons & He); [by right|left; by exists n', v']. }
  cbn [get_cci_db]. destruct (Hr n v ltac:(set_solver)) as [[k ->]|Hp].
  - rewrite prefix_app. destruct (self parent (parent ++ "." ++ k) v) eqn:Es.
    + exists db, used. split; [done|]. intros e. rewrite Hdb. split; [apply Hmono|]. intros [He|(_ & [(k' & _ & ? & _)|(Hp & _)])]%Hinv; [done|congruence|].
      by rewrite prefix_app in Hp.
    + rewrite substr_from_app, E. cbn [rbind]. eexists _, _. split; [done|]. intros e. rewrite elem_of_cons, Hdb. split.
      * intros [->|He]; [|by apply Hmono]. exists (parent ++ "." ++ k)%string, v. split; [set_solver|]. split; [done|]. left. by exists k.
      * intros [He|(He2 & [(k' & Hk & _ & He1)|(Hp & _)])]%Hinv; [by right| |by rewrite prefix_app in Hp]. left. destruct e as [e1 e2]. cbn in *. subst.
        apply string_app_inj, string_app_inj in Hk. by subst.
  - rewrite Hp. assert (forall k, n <> (parent ++ "." ++ k)%string) as Hk by (intros k ->; by rewrite prefix_app in Hp).
    destruct (contains "." n) eqn:Ec.
    + exists db, used. split; [done|]. intros e. rewrite Hdb. split; [apply Hmono|]. intros [He|(_ & [(k & Hn & _)|(_ & Hc & _)])]%Hinv; [done|by destruct (Hk k)|congruence].
    + rewrite E. cbn [rbind]. eexists _, _. split; [done|]. intros e. rewrite elem_of_cons, Hdb. split.
      * intros [->|He]; [|by apply Hmono]. exists n, v. split; [set_solver|]. split; [done|]. by right.
      * intros [He|(He2 & [(k & Hn & _)|(_ & _ & He1)])]%Hinv; [by right|by destruct (Hk k)|]. left. destruct e as [e1 e2]. cbn in *. by subst.
Qed.

Lemma set_cci_db_preset modname db b x v :
  (forall e, e ∈ db -> db_name modname e.1 = x -> from_json e.2 = v) ->
  preset b x = Some v \/ (exists e, e ∈ db /\ db_name modname e.1 = x) ->
  preset (set_cci_db from_json (fun _ _ => false) set_param modname db b) x = Some v.
Proof.
  revert b. induction db as [|e db IH]; intros b Hall Hex; cbn.
  { destruct Hex as [?|(e & ?%elem_of_nil & _)]; done. }
  apply IH; [intros f Hf; apply Hall; set_solver|]. destruct (decide (db_name modname e.1 = x)) as [<-|Hne].
  - left. rewrite preset_set_eq. f_equal. apply Hall; [set_solver|done].
  - rewrite preset_set_ne by done. destruct Hex as [?|(f & [->|Hf]%elem_of_cons & Hn)]; [by left|done|right; by exists f].
Qed.

(** C36: a value preset below the bridge arrives at the peer: after the exchange, the parameter
    of the same relative name below the peer's parent has the value preset here, whatever else
    is exchanged with it. *)
Theorem cci_db_roundtrip parent modname l k v b :
  regular parent l -> NoDup l.*1 -> (forall n u, (n, u) ∈ l -> contains "." n = false -> db_name modname n = n) ->
  ((parent ++ "." ++ k)%string, v) ∈ l -> self parent (parent ++ "." ++ k)%string v = false ->
  exists db used, get_cci_db to_json parent l = Ret (db, used) /\
    preset (set_cci_db from_json (fun _ _ => false) set_param modname db b) (parent_of modname ++ "." ++ k) = Some v.
Proof.
  intros Hr Hnd Hplain Hin Hself. destruct (get_cci_db_entries parent l Hr) as (db & used & E & Hdb). exists db, used. split; [done|].
  apply set_cci_db_preset.
  - intros e (n & u & Hn & -> & [(k' & -> & _ & ->)|(_ & Hc & ->)])%Hdb Hx; rewrite json_roundtrip.
    + cbn in Hx. apply string_app_inj, string_app_inj in Hx as ->. apply list_elem_of_lookup in Hin as [i Hi], Hn as [j Hj].
      assert (i = j) as ->. { eapply (NoDup_lookup l.*1); [done| |]; rewrite list_lookup_fmap, ?Hi, ?Hj; done. } congruence.
    + rewrite (Hplain n u) in Hx by done. subst. by rewrite contains_dot in Hc.
  - right. exists ("$" ++ k, to_json v)%string. split; [|done]. apply Hdb. exists (parent ++ "." ++ k)%string, v. split; [done|]. split; [done|]. left. by exists k.
Qed.
End RoundTrip.

(** A parameter of a sibling whose name begins like the bridge's is taken for one of the
    bridge's own, and sent under a mangled name. *)
Lemma sibling_parameter_taken : get_cci_db (fun _ => "1"%string) "p.pass" [("p.pass2.size"%string, CciNumber 1)] =
  Ret ([("$.size"%string, "1"%string)], ["p.pass2.size"%string]).
Proof. vm_compute. reflexivity. Qed.

(** A conversion to strings and back. *)
Fixpoint pos_string (p : positive) : string :=
  match p with xH => "1" | xO p => String "0" (pos_string p) | xI p => String "1" (pos_string p) end.
Fixpoint string_pos (s : string) : positive :=
  match s with
  | String c (String d s' as t) => if Ascii.eqb c "0" then xO (string_pos t) else xI (string_pos t)
  | _ => xH
  end.
Definition value_string (v : cci_value) : string :=
  match v with
  | CciString s => String "s" s
  | CciBool b => if b then "t" else "f"
  | CciNumber (Zpos p) => String "+" (pos_string p)
  | CciNumber (Zneg p) => String "-" (pos_string p)
  | CciNumber Z0 => "z"
  end.
Definition string_value (s : string) : cci_value :=
  match s with
  | String c t =>
    if Ascii.eqb c "s" then CciString t else if Ascii.eqb c "t" then CciBool true else if Ascii.eqb c "f" then CciBool false
    else if Ascii.eqb c "+" then CciNumber (Zpos (string_pos t)) else if Ascii.eqb c "-" then CciNumber (Zneg (string_pos t)) else CciNumber 0
  | EmptyString => CciNumber 0
  end.

Lemma string_pos_string p : string_pos (pos_string p) = p.
Proof.
  induction p as [p IH|p IH|]; cbn; [| |done].
  - destruct (pos_string p) as [|c s] eqn:E; [by destruct p|]. cbn in *. by rewrite IH.
  - destruct (pos_string p) as [|c s] eqn:E; [by destruct p|]. cbn in *. by rewrite IH.
Qed.

Lemma string_value_string v : string_value (value_string v) = v.
Proof. destruct v as [[|p|p]|[]|s]; cbn; by rewrite ?string_pos_string. Qed.

Lemma cci_db_roundtrip_witness :
  exists db used, get_cci_db value_string "p.pass" [("p.pass.ram.size"%string, CciNumber 64); ("log"%string, CciBool true)] = Ret (db, used) /\
    preset (set_cci_db string_value (fun _ _ => false) (fun b _ _ => b) "q.pass" db (∅ : plain_broker)) "q.ram.size" = Some (CciNumber 64).
Proof.
  apply (cci_db_roundtrip value_string string_value string_value_string (fun b _ _ => b) "p.pass" "q.pass"
    [("p.pass.ram.size"%string, CciNumber 64); ("log"%string, CciBool true)] "ram.size" (CciNumber 64) (∅ : plain_broker)).
  - intros n v [[= -> ->]|[[= -> ->]|?%elem_of_nil]%elem_of_cons]%elem_of_cons; [left; by exists "ram.size"%string|by right|done].
  - repeat constructor; set_solver.
  - intros n u [[= -> ->]|[[= -> ->]|?%elem_of_nil]%elem_of_cons]%elem_of_cons; [done|done|done].
  - set_solver.
  - reflexivity.
Defined.
