(* ===== verification/Loader.v ===== *)
(** * Loading images

    common/include/loader.h and common/src/elf_loader.cc: binary files, ELF segments, tables of
    addresses and values and words of the configuration are written to memory, through debug
    transactions or a callback.  What takes the bytes is a parameter; files are the bytes they
    hold; libelf is a parameter.  Archives and device trees are not modelled. *)

From stdpp Require Import base list numbers option strings gmap.
From Stdlib Require Import Ascii.
From S2P Require Import Prelude Monad Cci RegBank.

(** A file: its bytes, and whether reading it fails (a directory, an I/O error). *)
Record file : Type := mk_file {
  f_bytes : list Z;
  f_fails : bool;
}.

(** [elf_loader::segment], and a program header. *)
Record segment : Type := mk_segment {
  sg_virt : Z;
  sg_phys : Z;
  sg_size : Z;
  sg_filesz : Z;
  sg_offset : Z;
}.

Record phdr : Type := mk_phdr {
  p_load : bool;
  p_segment : segment;
}.

Definition BINFILE_READ_CHUNK_SIZE : Z := 1024 * 1024.
Definition ELF_CHUNK_SIZE : Z := 1024.

(** [byte_swap32]. *)
Definition byte_swap32 (x : Z) : Z :=
  let out := Z.land x 255 in let x := Z.shiftr x 8 in
  let out := Z.lor (u32 (Z.shiftl out 8)) (Z.land x 255) in let x := Z.shiftr x 8 in
  let out := Z.lor (u32 (Z.shiftl out 8)) (Z.land x 255) in let x := Z.shiftr x 8 in
  Z.lor (u32 (Z.shiftl out 8)) (Z.land x 255).

(** ** CSV rows *)

(** [CSVRow::readNextRow] and [operator[]]: the fields between the commas. *)
Fixpoint csv_fields (line : string) : list string :=
  match line with
  | EmptyString => [EmptyString]
  | String c s =>
    if Ascii.eqb c ","%char then EmptyString :: csv_fields s
    else match csv_fields s with
         | f :: fs => String c f :: fs
         | [] => [String c EmptyString]
         end
  end.

(** The last column with a name, as the loop over the header finds it. *)
Fixpoint find_column (i : nat) (name : string) (fields : list string) (found : option nat) : option nat :=
  match fields with
  | [] => found
  | f :: fs => find_column (S i) name fs (if String.eqb f name then Some i else found)
  end.

(** ** Numbers in names *)

Fixpoint has_digit (s : string) : bool :=
  match s with EmptyString => false | String c s' => is_digit 10 c || has_digit s' end.

(** The sign of a number, and what follows it. *)
Definition read_sign (s : string) : bool * string :=
  match skip_spaces s with
  | String "-" s' => (true, s')
  | String "+" s' => (false, s')
  | s' => (false, s')
  end.

Definition starts_digit (s : string) : bool := match s with String c _ => is_digit 10 c | EmptyString => false end.

(** [std::stoi (s)] throws without digits and beyond the range of [int]. *)
Definition stoi (s : string) : res Z :=
  let '(neg, s) := read_sign s in
  let v := if neg then - (read_digits 10 0 s).1 else (read_digits 10 0 s).1 in
  if starts_digit s && (- 2 ^ 31 <=? v) && (v <? 2 ^ 31) then Ret v else Err StopFatal.

(** [std::stoll (s, nullptr, 0)]. *)
Definition stoll (s : string) : res Z :=
  let '(neg, s) := read_sign s in
  if starts_digit s then
    let? (m, _) := stoull s in
    let v := if neg then - m else m in
    if (- 2 ^ 63 <=? v) && (v <? 2 ^ 63) then Ret v else Err StopFatal
  else Err StopFatal.

Section Loader.
  Context {W : Type}.
(** [send] of a block: [None] when the target does not take all of it. *)
  Variable put : Z -> list Z -> W -> option W.

Definition send (addr : Z) (bytes : list Z) (w : W) : res W :=
  match put addr bytes w with Some w' => Ret w' | None => Err StopFatal end.

(** ** Binary files *)

(** The [std::ifstream]: position, end-of-file and failure bits. *)
Record ifstream : Type := mk_stream {
  is_pos : Z;
  is_eof : bool;
  is_bad : bool;
}.

(** [fin.read (n)] and [gcount]. *)
Definition fin_read (f : file) (n : Z) (s : ifstream) : list Z * ifstream :=
  if is_eof s || is_bad s || f_fails f then ([], mk_stream (is_pos s) (is_eof s) true)
  else
    let got := take (Z.to_nat n) (drop (Z.to_nat (is_pos s)) (f_bytes f)) in
    (got, mk_stream (is_pos s + Z.of_nat (length got)) (Z.of_nat (length got) <? n) (Z.of_nat (length got) <? n)).

Fixpoint file_load_loop (fuel : nat) (f : file) (addr c rem_len : Z) (s : ifstream) (w : W) : res (option W) :=
  match fuel with
  | O => Ret None
  | S fuel' =>
    if negb (is_eof s) && (0 <? rem_len) then
      let read_len := Z.min rem_len BINFILE_READ_CHUNK_SIZE in
      let '(bytes, s) := fin_read f read_len s in
      let r := Z.of_nat (length bytes) in
      let? w := send (u64 (addr + c)) bytes w in
      file_load_loop fuel' f addr (c + r) (if r <=? rem_len then rem_len - r else 0) s w
    else Ret (Some w)
  end.

(** [seekg (file_offset, beg)] of a stream that was just opened: the offset is converted to a signed
    number, and seeking before the beginning fails. *)
Definition seekg (file_offset : Z) : ifstream :=
  if file_offset <? 2 ^ 63 then mk_stream file_offset false false else mk_stream 0 false true.

(** [file_load]; [None] when the loop has not ended within the fuel. *)
Definition file_load (fuel : nat) (f : option file) (addr file_offset file_data_len : Z) (w : W) : res (option W) :=
  match f with
  | None => Err StopFatal
  | Some f => file_load_loop fuel f addr 0 file_data_len (seekg file_offset) w
  end.

(** ** ELF *)

Definition get_segments (hdrs : list phdr) : list segment := p_segment <$> filter (fun h => p_load h = true) hdrs.

Fixpoint to_phys (segs : list segment) (virt : Z) : Z :=
  match segs with
  | [] => virt
  | s :: segs' => if (sg_virt s <=? virt) && (virt <? sg_virt s + sg_size s) then sg_phys s + virt - sg_virt s else to_phys segs' virt
  end.

(** [::read] may return less than it is asked for: [rd pos want] is what it returns, negative
    for an error. *)
  Variable rd : Z -> Z -> Z.

Fixpoint read_segment_loop (fuel : nat) (bytes : list Z) (seg : segment) (sz offset : Z) (w : W) : res (option W) :=
  match fuel with
  | O => Ret None
  | S fuel' =>
    if sz =? 0 then Ret (Some w)
    else
      let pos := sg_offset seg + offset in
      let s := Z.min (rd pos (Z.min sz ELF_CHUNK_SIZE)) (Z.max 0 (Z.of_nat (length bytes) - pos)) in
      if s =? 0 then Err StopFatal
      else if s <? 0 then Err StopUndef
      else
        let? w := send (u64 (sg_phys seg + offset)) (take (Z.to_nat s) (drop (Z.to_nat pos) bytes)) w in
        read_segment_loop fuel' bytes seg (sz - s) (offset + s) w
  end.

Definition read_segment (bytes : list Z) (seg : segment) (w : W) : res (option W) :=
  read_segment_loop (S (Z.to_nat (sg_filesz seg))) bytes seg (sg_filesz seg) 0 w.

Fixpoint read_segments (bytes : list Z) (segs : list segment) (w : W) : res (option W) :=
  match segs with
  | [] => Ret (Some w)
  | s :: segs' =>
    let? o := read_segment bytes s w in
    match o with Some w => read_segments bytes segs' w | None => Ret None end
  end.

Definition elf_load (bytes : list Z) (hdrs : list phdr) (w : W) : res (option W) := read_segments bytes (get_segments hdrs) w.

(** ** Tables and words *)

Definition csv_row (addr_i value_i : nat) (offset : Z) (byte_swap : bool) (line : string) (w : W) : res W :=
  let row := csv_fields line in
  if decide (length row <= Nat.max addr_i value_i)%nat then Ret w
  else
    let? v := stoll (default EmptyString (row !! value_i)) in
    let value := u64 v in
    let value := if byte_swap then byte_swap32 (u32 value) else value in
    let? a := stoll (default EmptyString (row !! addr_i)) in
    send (u64 (a + offset)) (store_le 8 value) w.

Fixpoint csv_rows (addr_i value_i : nat) (offset : Z) (byte_swap : bool) (lines : list string) (w : W) : res W :=
  match lines with
  | [] => Ret w
  | l :: ls => let? w := csv_row addr_i value_i offset byte_swap l w in csv_rows addr_i value_i offset byte_swap ls w
  end.

Definition csv_load (lines : list string) (offset : Z) (addr_str value_str : string) (byte_swap : bool) (w : W) : res W :=
  match lines with
  | [] => Err StopFatal
  | header :: ls =>
    match find_column 0 addr_str (csv_fields header) None, find_column 0 value_str (csv_fields header) None with
    | Some addr_i, Some value_i => csv_rows addr_i value_i offset byte_swap ls w
    | _, _ => Err StopFatal
    end
  end.

(** One entry of [data_load]: the product is computed as [int]. *)
Definition data_word (addr : Z) (byte_swap : bool) (name : string) (v : option Z) (w : W) : res W :=
  if has_digit name then
    let? d := Cci.cci_get v in
    let d := if byte_swap then byte_swap32 d else d in
    let? i := stoi name in
    if (- 2 ^ 31 <=? i * 4) && (i * 4 <? 2 ^ 31) then send (u64 (addr + i * 4)) (store_le 4 d) w else Err StopUndef
  else Err StopFatal.

Fixpoint data_words (addr : Z) (byte_swap : bool) (l : list (string * option Z)) (w : W) : res W :=
  match l with
  | [] => Ret w
  | (n, v) :: l' => let? w := data_word addr byte_swap n v w in data_words addr byte_swap l' w
  end.

(** The byte range of a binary file that is loaded: both parameters are given, or neither
    counts. *)
Definition bin_range (file_size : Z) (offset size : option Z) : Z * Z :=
  match offset, size with
  | Some o, Some s => (o, s)
  | _, _ => (0, file_size)
  end.

(** The swap parameter of a table: the result of the lookup is stored over the value. *)
Definition csv_byte_swap (v : option bool) : bool := match v with Some _ => true | None => false end.

(** The swap parameter of [data]. *)
Definition data_byte_swap (v : option bool) : bool := default false v.
End Loader.

(** ** What is loaded *)

(** What takes the bytes may be given them in pieces. *)
Record put_laws {W} (put : Z -> list Z -> W -> option W) : Prop := {
  pl_nil : forall a w, put a [] w = Some w;
  pl_app : forall a x y w, put a (x ++ y) w = put a x w ≫= put (a + Z.of_nat (length x)) y;
}.

(** A whole block in one piece. *)
Definition put_block {W} (put : Z -> list Z -> W -> option W) (addr : Z) (bytes : list Z) (w : W) : res (option W) :=
  match put addr bytes w with Some w' => Ret (Some w') | None => Err StopFatal end.

Section Exact.
  Context {W : Type} (put : Z -> list Z -> W -> option W) (Hput : put_laws put).

Lemma file_load_ended n f addr c rem s w : is_eof s = true \/ rem = 0 -> file_load_loop put (S n) f addr c rem s w = Ret (Some w).
Proof. intros [H|H]; cbn [file_load_loop]; rewrite H; cbn; [done|]. by rewrite andb_false_r. Qed.

Lemma file_load_loop_exact fuel f addr c rem pos w :
  f_fails f = false -> 0 <= pos -> 0 <= rem -> 0 <= addr + c ->
  let bytes := take (Z.to_nat rem) (drop (Z.to_nat pos) (f_bytes f)) in
  (length bytes + 1 < fuel)%nat -> addr + c + Z.of_nat (length bytes) <= 2 ^ 64 ->
  file_load_loop put fuel f addr c rem (mk_stream pos false false) w = put_block put (addr + c) bytes w.
Proof.
  intros Hf. revert c rem pos w. induction fuel as [|fuel IH]; intros c rem pos w Hp Hr Ha; cbn zeta; [lia|].
  intros Hfuel Hend. set (rest := drop (Z.to_nat pos) (f_bytes f)) in *. destruct (Z.eqb_spec rem 0) as [->|Hrem].
  { rewrite file_load_ended by auto. unfold put_block. cbn. by rewrite pl_nil. }
  cbn [file_load_loop is_eof negb andb]. rewrite (proj2 (Z.ltb_lt 0 rem)) by lia.
  set (n := Z.min rem BINFILE_READ_CHUNK_SIZE). assert (0 < n <= rem) as Hn by (unfold n, BINFILE_READ_CHUNK_SIZE; lia).
  unfold fin_read. cbn [is_eof is_bad is_pos orb]. rewrite Hf. fold rest. set (got := take (Z.to_nat n) rest).
  assert (length got = Nat.min (Z.to_nat n) (length rest)) as Hg by apply length_take.
  rewrite (proj2 (Z.leb_le (Z.of_nat (length got)) rem)) by lia.
  destruct (Z.ltb_spec (Z.of_nat (length got)) n) as [Hshort|Hfull].
  - assert (take (Z.to_nat rem) rest = got) as Eb by (unfold got; rewrite !take_ge by lia; done). rewrite Eb in *.
    unfold send, put_block. destruct (decide (got = [])) as [->|Hne].
    + rewrite !(pl_nil put Hput). cbn [rbind]. destruct fuel; [lia|]. by rewrite file_load_ended by auto.
    + assert (0 < length got)%nat by (destruct got; [done|cbn; lia]). rewrite u64_small by lia. destruct (put _ got w); [|done]. cbn [rbind].
      destruct fuel; [lia|]. by rewrite file_load_ended by auto.
  - assert (take (Z.to_nat rem) rest = got ++ take (Z.to_nat (rem - n)) (drop (Z.to_nat (pos + n)) (f_bytes f))) as Eb.
    { unfold got. rewrite Z2Nat.inj_add, <- drop_drop, Z2Nat.inj_sub by lia. fold rest.
      rewrite <- (take_drop (Z.to_nat n) rest) at 1. rewrite take_app, take_take, length_take.
      f_equal; [f_equal; lia|]. f_equal. lia. }
    assert (Z.of_nat (length got) = n) as Hgn by lia. rewrite Hgn. rewrite Eb in *. rewrite length_app in Hfuel, Hend.
    unfold put_block. rewrite (pl_app put Hput), Hgn. unfold send. rewrite u64_small by lia. destruct (put (addr + c) got w) as [w'|]; [|done].
    cbn [rbind mbind option_bind]. rewrite IH; [|lia..|lia]. unfold put_block. by rewrite Z.add_assoc.
Qed.

(** C33: a binary file whose reads succeed is loaded exactly: the bytes of the chosen range, which
    starts below [2 ^ 63], as far as the file has them, are written to consecutive addresses from the
    given one on, in one piece as far as memory can tell, and the loop ends.  Where a read or the
    seek fails it does not end: [file_load_spins]. *)
Theorem file_load_exact f addr off len w : f_fails f = false -> 0 <= off < 2 ^ 63 -> 0 <= len -> 0 <= addr ->
  let bytes := take (Z.to_nat len) (drop (Z.to_nat off) (f_bytes f)) in
  addr + Z.of_nat (length bytes) <= 2 ^ 64 ->
  file_load put (length bytes + 2) (Some f) addr off len w = put_block put addr bytes w.
Proof.
  intros Hf [Ho Ho'] Hl Ha bytes Hend. unfold file_load, seekg. rewrite (proj2 (Z.ltb_lt _ _) Ho'). pose proof (file_load_loop_exact (length bytes + 2) f addr 0 len off w Hf Ho Hl) as H.
  rewrite Z.add_0_r in H. apply H; [done|unfold bytes; lia|done].
Qed.

(** When reading fails without an end of file, or seeking does, the loop goes round for ever. *)
Lemma file_load_spins f addr off len w : f_fails f = true \/ 2 ^ 63 <= off -> 0 < len -> forall fuel, file_load put fuel (Some f) addr off len w = Ret None.
Proof.
  intros Hf Hl fuel. unfold file_load.
  assert (forall pos bad c, f_fails f = true \/ bad = true -> file_load_loop put fuel f addr c len (mk_stream pos false bad) w = Ret None) as H.
  - induction fuel as [|fuel IH]; intros pos bad c Hb; cbn [file_load_loop is_eof negb andb]; [done|]. rewrite (proj2 (Z.ltb_lt 0 len)) by lia.
    unfold fin_read. cbn [is_eof is_bad is_pos orb]. replace (bad || f_fails f) with true by (destruct Hb as [->| ->]; [by rewrite orb_true_r|done]).
    cbv beta iota zeta. change (Z.of_nat (@length Z [])) with 0. unfold send. rewrite (pl_nil put Hput). cbn [rbind].
    rewrite (proj2 (Z.leb_le 0 len)) by lia. rewrite Z.sub_0_r, Z.add_0_r. apply IH. by right.
  - unfold seekg. destruct Hf as [Hf|Hf]; [destruct (off <? 2 ^ 63); apply H; by left|]. rewrite (proj2 (Z.ltb_ge _ _) Hf). apply H. by right.
Qed.

(** ** Segments *)

(** The part of the file a segment is loaded from lies in the file, and below the end of the
    address space when loaded. *)
Definition segment_ok (bytes : list Z) (s : segment) : Prop :=
  0 <= sg_offset s /\ 0 <= sg_filesz s /\ sg_offset s + sg_filesz s <= Z.of_nat (length bytes) /\
  0 <= sg_phys s /\ sg_phys s + sg_filesz s <= 2 ^ 64.

Definition segment_bytes (bytes : list Z) (s : segment) : list Z :=
  take (Z.to_nat (sg_filesz s)) (drop (Z.to_nat (sg_offset s)) bytes).

  Variable rd : Z -> Z -> Z.
  Hypothesis rd_some : forall pos want, 0 < want -> 0 < rd pos want <= want.

Lemma read_segment_loop_exact fuel bytes seg sz offset w : segment_ok bytes seg -> 0 <= offset -> 0 <= sz -> offset + sz = sg_filesz seg ->
  (Z.to_nat sz < fuel)%nat ->
  read_segment_loop put rd fuel bytes seg sz offset w =
  put_block put (sg_phys seg + offset) (take (Z.to_nat sz) (drop (Z.to_nat (sg_offset seg + offset)) bytes)) w.
Proof.
  intros (H1 & H2 & H3 & H4 & H5). revert sz offset w. induction fuel as [|fuel IH]; intros sz offset w Ho Hs He Hf; [lia|].
  cbn [read_segment_loop]. destruct (Z.eqb_spec sz 0) as [->|Hsz]. { unfold put_block. cbn. by rewrite (pl_nil put Hput). }
  set (pos := sg_offset seg + offset). pose proof (rd_some pos (Z.min sz ELF_CHUNK_SIZE)) as Hrd. unfold ELF_CHUNK_SIZE in *.
  specialize (Hrd ltac:(lia)). set (r := rd pos (Z.min sz 1024)) in *.
  rewrite (Z.min_l r) by lia. destruct (Z.eqb_spec r 0); [lia|]. destruct (Z.ltb_spec r 0); [lia|].
  set (rest := drop (Z.to_nat pos) bytes). set (got := take (Z.to_nat r) rest).
  assert (Z.of_nat (length got) = r) as Hg by (unfold got, rest; rewrite length_take, length_drop; lia).
  assert (take (Z.to_nat sz) rest = got ++ take (Z.to_nat (sz - r)) (drop (Z.to_nat (pos + r)) bytes)) as ->.
  { unfold got. rewrite Z2Nat.inj_add, <- drop_drop, Z2Nat.inj_sub by lia. fold rest.
    rewrite <- (take_drop (Z.to_nat r) rest) at 1. rewrite take_app, take_take, length_take. unfold rest in *.
    rewrite length_drop. f_equal; [f_equal; lia|]. f_equal. lia. }
  unfold put_block, send. rewrite (pl_app put Hput), Hg, u64_small by lia. destruct (put _ got w) as [w'|]; [|done].
  cbn [rbind mbind option_bind]. rewrite IH by lia. unfold put_block. unfold pos. by rewrite !Z.add_assoc.
Qed.

Lemma read_segment_exact bytes seg w : segment_ok bytes seg ->
  read_segment put rd bytes seg w = put_block put (sg_phys seg) (segment_bytes bytes seg) w.
Proof.
  intros Hok. pose proof Hok as (H1 & H2 & _). unfold read_segment. rewrite read_segment_loop_exact by (done || lia).
  by rewrite !Z.add_0_r.
Qed.

(** an ELF file is loaded exactly: each loadable segment's bytes are written at its
    physical address, in the order of the program headers, however the reads of the file are
    cut, and nothing else is written. *)
Theorem elf_load_exact bytes hdrs w : (forall s, s ∈ get_segments hdrs -> segment_ok bytes s) ->
  elf_load put rd bytes hdrs w =
  foldl (fun r s => match r with Ret (Some w) => put_block put (sg_phys s) (segment_bytes bytes s) w | r => r end) (Ret (Some w)) (get_segments hdrs).
Proof.
  unfold elf_load. generalize (get_segments hdrs) as segs. intros segs. revert w. induction segs as [|s segs IH]; intros w Hok; [done|].
  cbn [read_segments foldl]. rewrite read_segment_exact by (apply Hok; set_solver).
  destruct (put_block put (sg_phys s) (segment_bytes bytes s) w) as [[w'|]|e]; cbn [rbind].
  - apply IH. intros t Ht. apply Hok. set_solver.
  - clear. by induction segs.
  - clear. by induction segs.
Qed.
End Exact.

(** ** A flat memory *)

(** Memory as a map of bytes; it takes every write. *)
Fixpoint mem_bytes (a : Z) (l : list Z) (m : gmap Z Z) : gmap Z Z :=
  match l with [] => m | b :: l' => mem_bytes (a + 1) l' (<[a := b]> m) end.

Definition mem_put (a : Z) (l : list Z) (m : gmap Z Z) : option (gmap Z Z) := Some (mem_bytes a l m).

Lemma mem_put_laws : put_laws mem_put.
Proof.
  split; [done|]. intros a x y m. unfold mem_put. cbn [mbind option_bind]. f_equal. revert a m.
  induction x as [|b x IH]; intros a m; cbn [mem_bytes app length]; [by rewrite Z.add_0_r|]. rewrite IH. f_equal. lia.
Qed.

Lemma file_load_exact_witness :
  file_load mem_put 5 (Some (mk_file [1; 2; 3; 4; 5] false)) 4096 1 3 ∅ = Ret (Some {[4096 := 2; 4097 := 3; 4098 := 4]}).
Proof.
  etrans; [apply (file_load_exact mem_put mem_put_laws (mk_file [1; 2; 3; 4; 5] false) 4096 1 3 ∅); cbn; lia || done|].
  vm_compute. reflexivity.
Defined.

Lemma elf_load_exact_witness :
  elf_load mem_put (fun _ want => Z.min want 2) [7; 8; 9] [mk_phdr true (mk_segment 0 4096 8 3 0); mk_phdr false (mk_segment 0 0 3 3 0)] ∅ =
  Ret (Some {[4096 := 7; 4097 := 8; 4098 := 9]}).
Proof.
  etrans; [apply (elf_load_exact mem_put mem_put_laws (fun _ want => Z.min want 2))|vm_compute; reflexivity].
  - intros pos want Hw. lia.
  - intros s Hs. apply list_elem_of_singleton in Hs as ->. unfold segment_ok. cbn. lia.
Defined.

(** The bytes of a segment beyond its file size are not cleared: an image that is loaded again
    at a reset finds what the program left there. *)
Lemma elf_bss_kept :
  elf_load mem_put (fun _ want => want) [7] [mk_phdr true (mk_segment 0 4096 2 1 0)] {[4097 := 99]} = Ret (Some {[4096 := 7; 4097 := 99]}).
Proof. vm_compute. reflexivity. Qed.

(** A read that fails is taken for a count. *)
Lemma elf_read_error_undefined bytes seg w : 0 < sg_filesz seg ->
  read_segment (W := gmap Z Z) mem_put (fun _ _ => -1) bytes seg w = Err StopUndef.
Proof.
  intros Hs. unfold read_segment. cbn [read_segment_loop]. rewrite (proj2 (Z.eqb_neq (sg_filesz seg) 0)) by lia.
  rewrite Z.min_l by lia. done.
Qed.

(** ** Words *)

Lemma lor_shiftl_add o b : 0 <= b < 256 -> Z.lor (Z.shiftl o 8) b = 256 * o + b.
Proof.
  intros Hb. assert (Z.land (Z.shiftl o 8) b = 0) as Hl.
  { rewrite <- (Z.mod_small b (2 ^ 8)), <- Z.land_ones, (Z.land_comm b), Z.land_assoc, Z.land_ones by lia.
    rewrite Z.shiftl_mul_pow2, Z.mod_mul by lia. apply Z.land_0_l. }
  pose proof (Z.add_lor_land (Z.shiftl o 8) b). rewrite Z.shiftl_mul_pow2 in * by lia. lia.
Qed.

Lemma byte_swap32_bytes a b c d : 0 <= a < 256 -> 0 <= b < 256 -> 0 <= c < 256 -> 0 <= d < 256 ->
  byte_swap32 (a + 256 * (b + 256 * (c + 256 * d))) = d + 256 * (c + 256 * (b + 256 * a)).
Proof.
  intros Ha Hb Hc Hd. assert (forall x y, 0 <= x < 256 -> Z.land (x + 256 * y) 255 = x) as Hm.
  { intros x y Hx. change 255 with (Z.ones 8). rewrite Z.land_ones by lia. change (2 ^ 8) with 256.
    rewrite Z.mul_comm, Z.mod_add, Z.mod_small by lia. done. }
  assert (forall x y, 0 <= x < 256 -> Z.shiftr (x + 256 * y) 8 = y) as Hs.
  { intros x y Hx. rewrite Z.shiftr_div_pow2 by lia. change (2 ^ 8) with 256. rewrite Z.mul_comm, Z.div_add, Z.div_small by lia. lia. }
  assert (Z.land d 255 = d) as Hd' by (rewrite <- (Hm d 0) at 2 by lia; f_equal; lia).
  unfold byte_swap32. rewrite Hm, !Hs, !Hm, Hd' by lia.
  assert (forall o, 0 <= o < 2 ^ 24 -> u32 (Z.shiftl o 8) = Z.shiftl o 8) as Hu.
  { intros o Ho. unfold wrap. rewrite Z.shiftl_mul_pow2, Z.mod_small by lia. done. }
  rewrite (Hu a) by lia. rewrite (lor_shiftl_add a) by lia. rewrite (Hu (256 * a + b)) by lia. rewrite (lor_shiftl_add (256 * a + b)) by lia.
  rewrite Hu by lia. rewrite lor_shiftl_add by lia. lia.
Qed.

Lemma word_bytes x : in_width 32 x ->
  exists a b c d, (0 <= a < 256 /\ 0 <= b < 256 /\ 0 <= c < 256 /\ 0 <= d < 256) /\ x = a + 256 * (b + 256 * (c + 256 * d)).
Proof.
  intros Hx. exists (x mod 256), (x / 256 mod 256), (x / 256 / 256 mod 256), (x / 256 / 256 / 256).
  unfold in_width in Hx. split; [repeat split; try apply Z.mod_pos_bound; try lia; try (apply Z.div_lt_upper_bound; lia) | ].
  - repeat apply Z.div_pos; lia.
  - repeat (apply Z.div_lt_upper_bound; [lia|]). lia.
  - pose proof (Z.div_mod x 256). pose proof (Z.div_mod (x / 256) 256). pose proof (Z.div_mod (x / 256 / 256) 256). lia.
Qed.

Lemma store_le_4 a b c d : 0 <= a < 256 -> 0 <= b < 256 -> 0 <= c < 256 -> 0 <= d < 256 ->
  store_le 4 (a + 256 * (b + 256 * (c + 256 * d))) = [a; b; c; d].
Proof.
  intros Ha Hb Hc Hd. cbn [store_le]. assert (forall x y, 0 <= x < 256 -> (x + 256 * y) mod 256 = x /\ (x + 256 * y) / 256 = y) as H.
  { intros x y Hx. rewrite (Z.mul_comm 256), Z.mod_add, Z.div_add, Z.mod_small, Z.div_small by lia. lia. }
  destruct (H a (b + 256 * (c + 256 * d)) Ha) as [-> ->]. destruct (H b (c + 256 * d) Hb) as [-> ->]. destruct (H c d Hc) as [-> ->].
  by rewrite Z.mod_small.
Qed.

(** Swapping a word reverses its bytes in memory. *)
Lemma byte_swap32_reverses x : in_width 32 x -> store_le 4 (byte_swap32 x) = rev (store_le 4 x).
Proof.
  intros (a & b & c & d & (Ha & Hb & Hc & Hd) & ->)%word_bytes. rewrite byte_swap32_bytes, !store_le_4 by done. done.
Qed.

(** ** Rows *)

(** Putting the fields together with commas again. *)
Fixpoint csv_join (fs : list string) : string :=
  match fs with
  | [] => EmptyString
  | [f] => f
  | f :: fs' => (f ++ String ","%char (csv_join fs'))%string
  end.

Fixpoint has_comma (s : string) : bool :=
  match s with EmptyString => false | String c s' => Ascii.eqb c ","%char || has_comma s' end.

Lemma csv_fields_not_nil line : csv_fields line <> [].
Proof. destruct line as [|c s]; cbn; [done|]. destruct (Ascii.eqb c ","); [done|]. by destruct (csv_fields s). Qed.

(** The fields of a row are what lies between its commas: joined again they give the row, and
    none of them holds a comma. *)
Lemma csv_fields_join line : csv_join (csv_fields line) = line /\ Forall (fun f => has_comma f = false) (csv_fields line).
Proof.
  induction line as [|c s [IH1 IH2]]; cbn [csv_fields]; [by split; [|repeat constructor]|]. pose proof (csv_fields_not_nil s) as Hn.
  destruct (Ascii.eqb_spec c ",") as [->|Hc].
  - split; [|by constructor]. destruct (csv_fields s) as [|f fs]; [done|]. change (String "," (csv_join (f :: fs)) = String "," s). by rewrite IH1.
  - destruct (csv_fields s) as [|f fs]; [done|]. apply list.Forall_cons in IH2 as [Hf Hfs]. split.
    + rewrite <- IH1. by destruct fs.
    + apply list.Forall_cons. split; [|done]. cbn. rewrite Hf, orb_false_r. by apply Ascii.eqb_neq.
Qed.

(** A row of a table writes eight bytes: the word after it is lost. *)
Lemma csv_row_clobbers :
  csv_load mem_put ["a,v"%string; "4,2"%string; "0,1"%string] 0 "a" "v" false ∅ =
  Ret {[0 := 1; 1 := 0; 2 := 0; 3 := 0; 4 := 0; 5 := 0; 6 := 0; 7 := 0; 8 := 0; 9 := 0; 10 := 0; 11 := 0]}.
Proof. vm_compute. reflexivity. Qed.

(** A table whose swap parameter is given as false is swapped. *)
Lemma csv_swap_false_swaps : csv_byte_swap (Some false) = true /\ data_byte_swap (Some false) = false.
Proof. done. Qed.
