(* ===== verification/QemuDmi.v ===== *)
(** * The DMI regions of a QEMU instance

    qemu-components/common/include/dmi-manager.h: one QEMU memory region per host block that a
    target has granted, and the aliases through which the processors of the instance map
    it.  QEMU's own memory regions are not part of the repository: what the code adds to and
    removes from one is kept as the list of its subregions. *)

From stdpp Require Import base list numbers option.
From S2P Require Import Prelude Tlm OrdMap.

(** [DmiRegion]: a block of host memory; its key is the host address. *)
Record DmiRegion : Type := mk_region { dr_ptr : Z; dr_size : Z }.

(** [DmiRegionAlias]: a window of an address space onto the host block at [al_ptr]. *)
Record DmiRegionAlias : Type := mk_alias {
  al_start : Z;
  al_end : Z;
  al_ptr : Z;
  al_installed : bool;
}.

#[global] Instance DmiRegion_eq_dec : EqDecision DmiRegion.
Proof. solve_decision. Defined.
#[global] Instance DmiRegionAlias_eq_dec : EqDecision DmiRegionAlias.
Proof. solve_decision. Defined.

Definition size_from_tlm_dmi (info : tlm_dmi) : res Z :=
  let? _ := assertb (dmi_start info <? dmi_end info) in
  let? _ := assertb (negb ((dmi_start info =? 0) && (dmi_end info =? UINT64_MAX))) in
  Ret (dmi_end info - dmi_start info + 1).

Definition new_DmiRegion (info : tlm_dmi) : res DmiRegion :=
  let? size := size_from_tlm_dmi info in Ret (mk_region (dmi_ptr info) size).

Definition region_end (r : DmiRegion) : Z := u64 (dr_ptr r + (dr_size r - 1)).

(** [QemuInstanceDmiManager]: the regions by host address and the subregions of its root. *)
Record QemuInstanceDmiManager : Type := mk_dmi_manager {
  dm_regions : omap DmiRegion;
  dm_root : list (Z * DmiRegion);
}.

Definition new_dmi_manager : QemuInstanceDmiManager := mk_dmi_manager [] [].

Definition root_del (r : DmiRegion) (l : list (Z * DmiRegion)) : list (Z * DmiRegion) := filter (fun e => e.2 <> r) l.

(** [get_region]: a region of another size at the same host address is replaced. *)
Definition get_region (info : tlm_dmi) (g : QemuInstanceDmiManager) : res QemuInstanceDmiManager :=
  let start := dmi_ptr info in
  let size := u64 (dmi_end info - dmi_start info + 1) in
  let add g :=
    let? region := new_DmiRegion info in
    match om_find start (dm_regions g) with
    | Some _ => Err StopFatal
    | None => Ret (mk_dmi_manager (om_insert start region (dm_regions g)) (dm_root g ++ [(start, region)]))
    end in
  match om_find start (dm_regions g) with
  | Some r => if negb (dr_size r =? size)
              then add (mk_dmi_manager (om_erase start (dm_regions g)) (root_del r (dm_root g)))
              else Ret g
  | None => add g
  end.

Definition new_DmiRegionAlias (info : tlm_dmi) : DmiRegionAlias :=
  mk_alias (dmi_start info) (dmi_end info) (dmi_ptr info) false.

Definition get_new_region_alias (info : tlm_dmi) (g : QemuInstanceDmiManager) : res (DmiRegionAlias * QemuInstanceDmiManager) :=
  let? g := get_region info g in
  Ret (new_DmiRegionAlias info, g).

Definition al_size (a : DmiRegionAlias) : Z := al_end a - al_start a + 1.

(** ** Regions and aliases *)

(** The root holds the regions of the table, under their host addresses. *)
Record dm_ok (g : QemuInstanceDmiManager) : Prop := {
  dm_wf : om_wf (dm_regions g);
  dm_keyed : forall k r, (k, r) ∈ dm_regions g -> dr_ptr r = k /\ 0 < dr_size r;
  dm_same : forall k r, (k, r) ∈ dm_root g <-> (k, r) ∈ dm_regions g;
}.

(** Every byte of the host block is in some region of the root. *)
Definition backed (g : QemuInstanceDmiManager) (ptr size : Z) : Prop :=
  forall a, ptr <= a < ptr + size -> exists k r, (k, r) ∈ dm_root g /\ dr_ptr r <= a < dr_ptr r + dr_size r.

(** A descriptor that a region can be made from. *)
Definition grant_ok (info : tlm_dmi) : Prop :=
  0 <= dmi_start info < dmi_end info /\ dmi_end info < 2 ^ 64 /\ ~ (dmi_start info = 0 /\ dmi_end info = UINT64_MAX).

Lemma new_DmiRegion_ok info : grant_ok info -> new_DmiRegion info = Ret (mk_region (dmi_ptr info) (dmi_end info - dmi_start info + 1)).
Proof.
  intros (Hs & He & Hn). unfold new_DmiRegion, size_from_tlm_dmi. rewrite (proj2 (Z.ltb_lt _ _)) by lia. cbn [assertb rbind].
  destruct (Z.eqb_spec (dmi_start info) 0), (Z.eqb_spec (dmi_end info) UINT64_MAX); try done. tauto.
Qed.

Lemma grant_size info : grant_ok info -> u64 (dmi_end info - dmi_start info + 1) = dmi_end info - dmi_start info + 1.
Proof. intros (Hs & He & Hn). unfold UINT64_MAX in *. apply wrap_small. unfold in_width. lia. Qed.

(** What [get_region] leaves at the host address of the grant, and elsewhere. *)
Lemma get_region_ok info g : grant_ok info -> dm_ok g ->
  exists g', get_region info g = Ret g' /\ dm_ok g' /\
    om_find (dmi_ptr info) (dm_regions g') = Some (mk_region (dmi_ptr info) (dmi_end info - dmi_start info + 1)) /\
    (forall k, k <> dmi_ptr info -> om_find k (dm_regions g') = om_find k (dm_regions g)).
Proof.
  intros Hg [Hwf Hk Hs]. pose proof (grant_size info Hg) as Esz. pose proof (new_DmiRegion_ok info Hg) as Er.
  set (p := dmi_ptr info) in *. set (n := dmi_end info - dmi_start info + 1) in *.
  assert (0 < n) as Hn by (destruct Hg; unfold n; lia).
  assert (forall g0, dm_ok g0 -> om_find p (dm_regions g0) = None ->
    dm_ok (mk_dmi_manager (om_insert p (mk_region p n) (dm_regions g0)) (dm_root g0 ++ [(p, mk_region p n)])) /\
    (forall k, k <> p -> om_find k (om_insert p (mk_region p n) (dm_regions g0)) = om_find k (dm_regions g0))) as Hadd.
  { intros g0 [Hwf0 Hk0 Hs0] Hnone. rewrite om_find_None, list.Forall_forall in Hnone. split; [|intros k Hne; by apply om_find_insert_ne].
    split; cbn.
    - by apply om_wf_insert.
    - intros k r Hin. apply om_elem_insert in Hin; [|done]. cbn in Hin. destruct Hin as [[= -> ->]|[Hin _]]; [done|by apply Hk0].
    - intros k r. rewrite elem_of_app, list_elem_of_singleton, Hs0, om_elem_insert by done. cbn. split.
      + intros [Hin|Hin]; [|by left]. right. split; [done|]. apply (Hnone (k, r) Hin).
      + intros [Hin|[Hin _]]; [by right|by left]. }
  unfold get_region. cbn zeta. fold p n. rewrite Esz. destruct (om_find p (dm_regions g)) as [r|] eqn:Ef.
  - pose proof (om_find_Some _ _ _ Ef) as Hin. destruct (Hk p r Hin) as [Hrp Hrs].
    destruct (Z.eqb_spec (dr_size r) n) as [E|E]; cbn [negb].
    + exists g. split; [done|]. split; [done|]. split; [|done]. rewrite Ef. destruct r; cbn in *; by subst.
    + set (g0 := mk_dmi_manager (om_erase p (dm_regions g)) (root_del r (dm_root g))).
      assert (dm_ok g0) as Hg0.
      { split; cbn.
        - by apply om_wf_erase.
        - intros k r' Hin'. apply om_elem_erase in Hin' as [Hin' _]; [|done]. by apply Hk.
        - intros k r'. unfold root_del. rewrite list_elem_of_filter, Hs, om_elem_erase by done. cbn. split.
          + intros [H1 H2]. split; [done|]. intros ->. apply H1. apply om_find_elem in H2; [congruence|done].
          + intros [H1 H2]. split; [|done]. intros ->. apply H2. destruct (Hk k r H1). congruence. }
      assert (om_find p (dm_regions g0) = None) as Hn0 by (by apply om_find_erase_eq).
      destruct (Hadd g0 Hg0 Hn0) as [Hok Hne]. rewrite Er. cbn [rbind]. rewrite Hn0. eexists. split; [done|]. split; [done|].
      split; [by apply om_find_insert_eq, Hg0|]. intros k Hkp. etrans; [by apply Hne|]. by apply om_find_erase_ne.
  - rewrite Er. cbn [rbind]. destruct (Hadd g) as [Hok Hne]; [done|done|]. eexists. split; [done|]. split; [done|].
    split; [by apply om_find_insert_eq|done].
Qed.

Lemma backed_find g p r : dm_ok g -> om_find p (dm_regions g) = Some r -> backed g p (dr_size r).
Proof.
  intros [Hwf Hk Hs] Hf a Ha. apply om_find_Some in Hf. destruct (Hk p r Hf) as [Hp _].
  exists p, r. split; [by apply Hs|]. rewrite Hp. lia.
Qed.

(** a grant gives an alias over exactly the granted addresses, all of whose bytes lie in a
    region of the instance, and no block that was mapped before loses its memory unless the
    grant is smaller than an earlier one at the same host address. *)
Theorem dmi_alias_backed info g : grant_ok info -> dm_ok g ->
  exists a g', get_new_region_alias info g = Ret (a, g') /\ dm_ok g' /\
    al_start a = dmi_start info /\ al_end a = dmi_end info /\ backed g' (al_ptr a) (al_size a) /\
    ((forall r, om_find (dmi_ptr info) (dm_regions g) = Some r -> dr_size r <= al_size a) ->
     forall p n, backed g p n -> backed g' p n).
Proof.
  intros Hg Hok. destruct (get_region_ok info g Hg Hok) as (g' & E & Hok' & Hf & Hne).
  exists (new_DmiRegionAlias info), g'. unfold get_new_region_alias. rewrite E. cbn [rbind]. split; [done|]. split; [done|].
  split; [done|]. split; [done|]. split; [exact (backed_find _ _ _ Hok' Hf)|].
  intros Hle p n Hb a Ha. destruct (Hb a Ha) as (k & r & Hin & Hr). apply Hok in Hin. pose proof (dm_keyed _ Hok _ _ Hin) as [Hp _].
  apply om_find_elem in Hin; [|apply Hok]. destruct (Z.eq_dec k (dmi_ptr info)) as [->|Hk].
  - eapply backed_find; [done|exact Hf|]. specialize (Hle _ Hin). unfold al_size in Hle. cbn in *. lia.
  - exists k, r. split; [|done]. apply Hok', om_find_Some. by rewrite Hne.
Qed.

Lemma dm_ok_new : dm_ok new_dmi_manager.
Proof. split; cbn; [apply om_wf_nil|by intros k r ?%elem_of_nil|done]. Qed.

Lemma dmi_alias_backed_witness :
  exists a g', get_new_region_alias (mk_dmi 4096 65536 69631 DMI_ACCESS_READ_WRITE) new_dmi_manager = Ret (a, g') /\
    backed g' 4096 4096.
Proof.
  destruct (dmi_alias_backed (mk_dmi 4096 65536 69631 DMI_ACCESS_READ_WRITE) new_dmi_manager) as (a & g' & E & _ & Hs & He & Hb & _).
  - unfold grant_ok. cbn. lia.
  - exact dm_ok_new.
  - exists a, g'. split; [exact E|]. injection E as <- _. exact Hb.
Defined.

(** A second, smaller grant at the host address of an earlier one replaces the region that the
    earlier alias maps: the end of the alias has no memory behind it. *)
Lemma dmi_region_shrinks :
  exists a g a' g',
    get_new_region_alias (mk_dmi 4096 65536 73727 DMI_ACCESS_READ_WRITE) new_dmi_manager = Ret (a, g) /\
    backed g (al_ptr a) (al_size a) /\
    get_new_region_alias (mk_dmi 4096 65536 69631 DMI_ACCESS_READ_WRITE) g = Ret (a', g') /\
    ~ backed g' (al_ptr a) (al_size a).
Proof.
  destruct (get_region_ok (mk_dmi 4096 65536 73727 DMI_ACCESS_READ_WRITE) new_dmi_manager) as (g & Eg & Hok & Hf & _);
    [unfold grant_ok; cbn; lia|exact dm_ok_new|].
  exists (mk_alias 65536 73727 4096 false), g. vm_compute in Eg. injection Eg as <-. eexists _, _. split; [reflexivity|].
  split; [exact (backed_find _ _ _ Hok Hf)|]. split; [reflexivity|]. intros Hb.
  destruct (Hb 8192) as (k & r & Hin & Hr); [unfold al_size; cbn; lia|]. cbn in Hin.
  apply list_elem_of_singleton in Hin as [= -> ->]. cbn in Hr. lia.
Qed.
