(* ===== verification/QemuInitiator.v ===== *)
(** * The initiator socket of a QEMU processor or device

    qemu-components/common/include/ports/initiator.h: the accesses QEMU makes become TLM
    transactions, the DMI grants that the targets give back become aliases in QEMU's memory
    map, ranges behind an IOMMU are translated page by page through DMI requests, and the
    invalidations the targets send remove aliases and cached translations again.

    Locks are not modelled: an operation is one step, and operations of other threads come
    between the two halves of a grant ([dmi_request] and [dmi_install]).  The bus and the
    thread that runs jobs for SystemC are parameters; QEMU's memory regions are the lists of
    what was added to them.  The memory-region hint of [check_qemu_mr_hint] is left out:
    transactions here carry no such extension.  The local time is not modelled. *)

From stdpp Require Import base relations sets list numbers option.
From S2P Require Import Prelude Monad Tlm OrdMap QemuDmi.

(** ** Data *)

(** The two address spaces of an IOMMU region: translated, and untranslated I/O. *)
Inductive target_as : Type := AsTe | AsIo.

(** [IOMMUMemoryRegion::IOMMUTLBEntry]; the access flags have the values of [tlm_dmi]'s. *)
Record IOMMUTLBEntry : Type := mk_te {
  te_as : target_as;
  te_iova : Z;
  te_translated : Z;
  te_mask : Z;
  te_perm : dmi_access;
}.

#[global] Instance target_as_eq_dec : EqDecision target_as.
Proof. solve_decision. Defined.
#[global] Instance IOMMUTLBEntry_eq_dec : EqDecision IOMMUTLBEntry.
Proof. solve_decision. Defined.

(** [qemu::IOMMUMemoryRegion]; [im_unmapped] are the entries QEMU was told to drop. *)
Record IOMMUMemoryRegion : Type := mk_iommu {
  im_size : Z;
  im_page : Z;
  im_te : omap IOMMUTLBEntry;
  im_aliases_te : omap DmiRegion;
  im_root_te : list (Z * DmiRegion);
  im_aliases_io : omap DmiRegionAlias;
  im_root_io : list (Z * DmiRegionAlias);
  im_unmapped : list IOMMUTLBEntry;
}.

Definition new_iommu (size page : Z) : IOMMUMemoryRegion := mk_iommu size page [] [] [] [] [] [].

Definition set_te (t : omap IOMMUTLBEntry) (u : list IOMMUTLBEntry) (m : IOMMUMemoryRegion) : IOMMUMemoryRegion :=
  mk_iommu (im_size m) (im_page m) t (im_aliases_te m) (im_root_te m) (im_aliases_io m) (im_root_io m) u.

(** What is mapped below the root region: aliases of the instance's memory, IOMMU regions. *)
Inductive subregion : Type :=
| SubAlias (ptr size : Z)
| SubIommu (size : Z).

#[global] Instance subregion_eq_dec : EqDecision subregion.
Proof. solve_decision. Defined.

(** [qemu::MemoryRegionOps::MemTxResult]. *)
Inductive MemTxResult : Type := MemTxOK | MemTxError | MemTxDecodeError | MemTxOKExitTB.

(** [QemuInitiatorSocket]; [qi_jobs] counts the jobs the initiator has accepted and not run. *)
Record QemuInitiatorSocket (W : Type) : Type := mk_socket {
  qi_ranges : list (Z * Z);
  qi_finished : bool;
  qi_mmio_mrs : omap IOMMUMemoryRegion;
  qi_root : list (Z * subregion);
  qi_dmi_aliases : omap DmiRegionAlias;
  qi_reentrancy : Z;
  qi_jobs : nat;
  qi_dmi_manager : QemuInstanceDmiManager;
  qi_world : W;
}.
Arguments mk_socket {W}.
Arguments qi_ranges {W}.
Arguments qi_finished {W}.
Arguments qi_mmio_mrs {W}.
Arguments qi_root {W}.
Arguments qi_dmi_aliases {W}.
Arguments qi_reentrancy {W}.
Arguments qi_jobs {W}.
Arguments qi_dmi_manager {W}.
Arguments qi_world {W}.

Definition set_ranges {W} (r : list (Z * Z)) (j : nat) (s : QemuInitiatorSocket W) : QemuInitiatorSocket W :=
  mk_socket r (qi_finished s) (qi_mmio_mrs s) (qi_root s) (qi_dmi_aliases s) (qi_reentrancy s) j (qi_dmi_manager s) (qi_world s).
Definition set_finished {W} (b : bool) (s : QemuInitiatorSocket W) : QemuInitiatorSocket W :=
  mk_socket (qi_ranges s) b (qi_mmio_mrs s) (qi_root s) (qi_dmi_aliases s) (qi_reentrancy s) (qi_jobs s) (qi_dmi_manager s) (qi_world s).
Definition set_mmio_mrs {W} (m : omap IOMMUMemoryRegion) (s : QemuInitiatorSocket W) : QemuInitiatorSocket W :=
  mk_socket (qi_ranges s) (qi_finished s) m (qi_root s) (qi_dmi_aliases s) (qi_reentrancy s) (qi_jobs s) (qi_dmi_manager s) (qi_world s).
Definition set_aliases {W} (r : list (Z * subregion)) (a : omap DmiRegionAlias) (s : QemuInitiatorSocket W) : QemuInitiatorSocket W :=
  mk_socket (qi_ranges s) (qi_finished s) (qi_mmio_mrs s) r a (qi_reentrancy s) (qi_jobs s) (qi_dmi_manager s) (qi_world s).
Definition set_reentrancy {W} (n : Z) (s : QemuInitiatorSocket W) : QemuInitiatorSocket W :=
  mk_socket (qi_ranges s) (qi_finished s) (qi_mmio_mrs s) (qi_root s) (qi_dmi_aliases s) n (qi_jobs s) (qi_dmi_manager s) (qi_world s).
Definition set_dmi_manager {W} (g : QemuInstanceDmiManager) (s : QemuInitiatorSocket W) : QemuInitiatorSocket W :=
  mk_socket (qi_ranges s) (qi_finished s) (qi_mmio_mrs s) (qi_root s) (qi_dmi_aliases s) (qi_reentrancy s) (qi_jobs s) g (qi_world s).
Definition set_qi_world {W} (w : W) (s : QemuInitiatorSocket W) : QemuInitiatorSocket W :=
  mk_socket (qi_ranges s) (qi_finished s) (qi_mmio_mrs s) (qi_root s) (qi_dmi_aliases s) (qi_reentrancy s) (qi_jobs s) (qi_dmi_manager s) w.

(** ** Translations of an IOMMU region *)

(** [te_find_region]: the last entry at or below the address, if its page holds the address. *)
Definition te_find_region (table : omap IOMMUTLBEntry) (addr : Z) : option (Z * IOMMUTLBEntry) :=
  match list.last (om_upper addr table).1 with
  | Some (k, e) => if Z.ldiff addr (te_mask e) =? k then Some (k, e) else None
  | None => None
  end.

(** [m_mapped_te.erase] after [iommu_unmap]. *)
Definition te_unmap (k : Z) (e : IOMMUTLBEntry) (m : IOMMUMemoryRegion) : IOMMUMemoryRegion :=
  set_te (om_erase k (im_te m)) (im_unmapped m ++ [e]) m.

(** A cached entry as it is handed to QEMU for another address of its page. *)
Definition te_fast (e : IOMMUTLBEntry) (addr : Z) : IOMMUTLBEntry :=
  mk_te (te_as e) addr (u64 (Z.ldiff (te_translated e) (te_mask e) + Z.land addr (te_mask e))) (te_mask e) (te_perm e).

Definition page_mask (m : IOMMUMemoryRegion) : Z := u64 (Z.shiftl 1 (im_page m)) - 1.

Definition region_match (mr_rel_start mr_rel_end addr mask : Z) : bool :=
  (mr_rel_start <=? u64 (addr + mask + 1)) && (addr <=? mr_rel_end).

(** The forward scan of [invalidate_direct_mem_ptr]; [it] is the rest of the table. *)
Fixpoint te_scan (rs re : Z) (it : omap IOMMUTLBEntry) (m : IOMMUMemoryRegion) : IOMMUMemoryRegion :=
  match it with
  | [] => m
  | (k, e) :: it' =>
    if k <=? re then te_scan rs re it' (if region_match rs re k (te_mask e) then te_unmap k e m else m) else m
  end.

Definition te_invalidate (rs re : Z) (m : IOMMUMemoryRegion) : IOMMUMemoryRegion :=
  let '(l, r) := om_lower rs (im_te m) in
  let m' := match list.last l with
            | Some (k, e) => if region_match rs re k (te_mask e) then te_unmap k e m else m
            | None => m
            end in
  te_scan rs re r m'.

(** The last address of a region whose first is [start]. *)
Definition mr_end (start : Z) (m : IOMMUMemoryRegion) : Z := u64 (start + im_size m - 1).

(** The loops over [m_mmio_mrs]: the first region that holds an address or meets a range. *)
Fixpoint mmio_at (lo hi : Z) (l : omap IOMMUMemoryRegion) : option (Z * IOMMUMemoryRegion) :=
  match l with
  | [] => None
  | (start, m) :: l' => if (lo <=? mr_end start m) && (start <=? hi) then Some (start, m) else mmio_at lo hi l'
  end.

(** ** The operations *)

Section Socket.
  Context {W : Type}.
  Variable bus : dma_bus W.
  Variable bus_dbg : payload -> W -> res (payload * W).
  Variable sysc_runs : W -> bool.
  Variable customize : payload -> payload.
  Variable tidy : payload -> payload.
  Variable min_page_sz : Z.
  Variable async_runs : bool.

  Abbreviation SK := (SM (QemuInitiatorSocket W)).

Definition init_payload (c : tlm_command) (addr : Z) (val : list Z) (size : Z) : payload :=
  customize (mk_payload c addr val size size None 0 TLM_INCOMPLETE_RESPONSE false None None None).

Definition alias_mr (a : DmiRegionAlias) : subregion := SubAlias (al_ptr a) (al_size a).

Definition set_installed (a : DmiRegionAlias) : DmiRegionAlias := mk_alias (al_start a) (al_end a) (al_ptr a) true.

Definition add_dmi_mr_alias (a : DmiRegionAlias) : SK unit :=
  sm_modify (fun s => set_aliases (qi_root s ++ [(al_start a, alias_mr a)])
                                  (om_insert (al_start a) (set_installed a) (qi_dmi_aliases s)) s).

Definition del_dmi_mr_alias (a : DmiRegionAlias) : SK unit :=
  sm_when (al_installed a)
    (sm_modify (fun s => set_aliases (filter (fun e => e <> (al_start a, alias_mr a)) (qi_root s)) (qi_dmi_aliases s) s)).

Definition remove_alias (k : Z) (a : DmiRegionAlias) : SK unit :=
  sm_assert (al_installed a) ;;!
  del_dmi_mr_alias a ;;!
  sm_modify (fun s => set_aliases (qi_root s) (om_erase k (qi_dmi_aliases s)) s).

Fixpoint invalidate_scan (start_range end_range : Z) (it : omap DmiRegionAlias) : SK unit :=
  match it with
  | [] => sm_ret tt
  | (k, r) :: it' =>
    if end_range <? al_start r then sm_ret tt
    else if al_end r <? start_range then invalidate_scan start_range end_range it'
    else remove_alias k r ;;! invalidate_scan start_range end_range it'
  end.

Definition invalidate_single_range (start_range end_range : Z) : SK unit :=
  do! s := sm_get in
  invalidate_scan start_range end_range (om_prev (om_upper start_range (qi_dmi_aliases s))).2.

(** The loop erases each range after it has been handled. *)
Definition invalidate_ranges_safe_cb : SK unit :=
  do! s := sm_get in
  if qi_finished s then sm_ret tt
  else sm_iter (fun r => invalidate_single_range r.1 r.2 ;;!
                         sm_modify (fun s => set_ranges (tail (qi_ranges s)) (qi_jobs s) s)) (qi_ranges s).

Definition qi_invalidate_direct_mem_ptr (start_range end_range : Z) : SK unit :=
  do! s := sm_get in
  if qi_finished s then sm_ret tt
  else match mmio_at start_range end_range (qi_mmio_mrs s) with
       | Some (start, m) =>
         sm_put (set_mmio_mrs (om_insert start (te_invalidate (u64 (start_range - start)) (u64 (end_range - start)) m) (qi_mmio_mrs s)) s)
       | None => sm_put (set_ranges (qi_ranges s ++ [(start_range, end_range)]) (if async_runs then S (qi_jobs s) else qi_jobs s) s)
       end.

(** [run_on_sysc] around [get_direct_mem_ptr]: whether a grant came back, the transaction, the
    descriptor and the record of underlying regions. *)
Definition dmi_request (trans : payload) : SK (bool * payload * tlm_dmi * UnderlyingDMI) :=
  do! s := sm_get in
  let t := set_udmi (Some []) trans in
  if sysc_runs (qi_world s)
  then match bus_dmi bus t dmi_init (qi_world s) with
       | Ret (ok, t', d, w) => sm_put (set_qi_world w s) ;;! sm_ret (ok, set_udmi None t', d, default [] (ext_udmi t'))
       | Err e => sm_fail e
       end
  else sm_ret (false, set_udmi None trans, dmi_init, []).

Definition MAX_MAP : nat := 250.

(** A grant that does not go through an IOMMU becomes an alias. *)
Definition dmi_install (dmi_data : tlm_dmi) : SK unit :=
  do! s := sm_get in
  if bool_decide (MAX_MAP < length (qi_dmi_aliases s))%nat then sm_fail StopFatal
  else match om_find (dmi_start dmi_data) (qi_dmi_aliases s) with
       | None =>
         match get_new_region_alias dmi_data (qi_dmi_manager s) with
         | Ret (alias, g) =>
           sm_put (set_dmi_manager g (set_aliases (qi_root s) (om_insert (dmi_start dmi_data) alias (qi_dmi_aliases s)) s)) ;;!
           add_dmi_mr_alias alias
         | Err e => sm_fail e
         end
       | Some _ => sm_ret tt
       end.

(** The first grant behind an IOMMU creates its region; later ones drop its translations. *)
Definition dmi_add_iommu (first_map : tlm_dmi) : SK unit :=
  let start := dmi_start first_map in
  let size := u64 (dmi_end first_map - dmi_start first_map + 1) in
  do! s := sm_get in
  match om_find start (qi_mmio_mrs s) with
  | None =>
    invalidate_single_range start (u64 (start + size - 1)) ;;!
    sm_modify (fun s => set_mmio_mrs (om_insert start (new_iommu size min_page_sz) (qi_mmio_mrs s)) s) ;;!
    sm_modify (fun s => set_aliases (qi_root s ++ [(start, SubIommu size)]) (qi_dmi_aliases s) s)
  | Some m => qi_invalidate_direct_mem_ptr start (mr_end start m)
  end.

Definition lift_res {A} (r : res A) : SK A := fun s => match r with Ret a => Ret (a, s) | Err e => Err e end.

Definition check_dmi_hint_locked (trans : payload) : SK (tlm_dmi * payload) :=
  sm_assert (dmi_allowed trans) ;;!
  do! s := sm_get in
  match mmio_at (address trans) (address trans) (qi_mmio_mrs s) with
  | Some (start, m) =>
    (match te_find_region (im_te m) (u64 (address trans - start)) with
     | Some (k, e) => sm_put (set_mmio_mrs (om_insert start (te_unmap k e m) (qi_mmio_mrs s)) s)
     | None => sm_ret tt
     end) ;;!
    sm_ret (dmi_init, trans)
  | None =>
    do! (valid, trans, dmi_data, u_dmi) := dmi_request trans in
    if negb valid then
      if has_dmi u_dmi dmi_mapped then do! d := lift_res (get_first u_dmi dmi_mapped) in sm_ret (d, trans)
      else if has_dmi u_dmi dmi_nomap then do! d := lift_res (get_first u_dmi dmi_nomap) in sm_ret (d, trans)
      else sm_ret (dmi_data, trans)
    else if has_dmi u_dmi dmi_iommu then
      do! first_map := lift_res (get_first u_dmi dmi_mapped) in
      dmi_add_iommu first_map ;;! sm_ret (dmi_data, trans)
    else dmi_install dmi_data ;;! sm_ret (dmi_data, trans)
  end.

(** [dmi_translate] on the region of [base_addr]: a cached entry first, else what a DMI request
    says of the address: behind an IOMMU, direct memory, or neither. *)
Definition te_iommu (m : IOMMUMemoryRegion) (addr : Z) (ldmi lu : tlm_dmi) : IOMMUTLBEntry :=
  let mask := u64 (dmi_end ldmi - dmi_start ldmi) in
  mk_te AsTe addr (u64 (u64 (dmi_start lu + (dmi_ptr ldmi - dmi_ptr lu)) + Z.land addr mask)) mask (dmi_acc ldmi).

Definition te_direct (m : IOMMUMemoryRegion) (base_addr addr : Z) (perm : dmi_access) : IOMMUTLBEntry :=
  let mask := page_mask m in
  mk_te AsIo (Z.ldiff addr mask) (u64 (Z.ldiff addr mask + base_addr)) mask perm.

Definition te_cache (addr : Z) (te : IOMMUTLBEntry) (m : IOMMUMemoryRegion) : IOMMUMemoryRegion :=
  set_te (om_insert (Z.ldiff addr (te_mask te)) te (im_te m)) (im_unmapped m) m.

Definition te_add_region (lu : tlm_dmi) (m : IOMMUMemoryRegion) : res IOMMUMemoryRegion :=
  match om_find (dmi_start lu) (im_aliases_te m) with
  | Some _ => Ret m
  | None =>
    let? region := new_DmiRegion lu in
    Ret (mk_iommu (im_size m) (im_page m) (im_te m) (om_insert (dmi_start lu) region (im_aliases_te m))
           (im_root_te m ++ [(dmi_start lu, region)]) (im_aliases_io m) (im_root_io m) (im_unmapped m))
  end.

Definition io_add_region (ldmi : tlm_dmi) (m : IOMMUMemoryRegion) : SK IOMMUMemoryRegion :=
  match om_find (dmi_start ldmi) (im_aliases_io m) with
  | Some _ => sm_ret m
  | None =>
    do! s := sm_get in
    match get_new_region_alias ldmi (qi_dmi_manager s) with
    | Ret (alias, g) =>
      sm_put (set_dmi_manager g s) ;;!
      sm_ret (mk_iommu (im_size m) (im_page m) (im_te m) (im_aliases_te m) (im_root_te m)
                (om_insert (al_start alias) (set_installed alias) (im_aliases_io m))
                (im_root_io m ++ [(al_start alias, alias)]) (im_unmapped m))
    | Err e => sm_fail e
    end
  end.

Definition dmi_translate (m : IOMMUMemoryRegion) (base_addr addr : Z) : SK (IOMMUTLBEntry * IOMMUMemoryRegion) :=
  match te_find_region (im_te m) addr with
  | Some (_, e) => sm_ret (te_fast e addr, m)
  | None =>
    do! (valid, _, ldmi, lu_dmi) := dmi_request (init_payload TLM_IGNORE_COMMAND (u64 (base_addr + addr)) [] 0) in
    if valid then
      if has_dmi lu_dmi dmi_iommu then
        do! lu := lift_res (get_last lu_dmi dmi_iommu) in
        do! m' := lift_res (te_add_region lu m) in
        let te := te_iommu m' addr ldmi lu in
        sm_ret (te, te_cache addr te m')
      else
        do! m' := io_add_region ldmi m in
        let te := te_direct m' base_addr addr (dmi_acc ldmi) in
        sm_ret (te, te_cache addr te m')
    else
      let te := te_direct m base_addr addr DMI_ACCESS_READ_WRITE in
      match om_find (Z.ldiff addr (te_mask te)) (im_te m) with
      | Some _ => sm_fail StopFatal
      | None => sm_ret (te, te_cache addr te m)
      end
  end.

(** The translation callback of the region that was registered at [start]. *)
Definition iommu_translate_cb (start addr : Z) : SK IOMMUTLBEntry :=
  do! s := sm_get in
  match om_find start (qi_mmio_mrs s) with
  | Some m =>
    do! (te, m') := dmi_translate m start addr in
    sm_modify (fun s => set_mmio_mrs (om_insert start m' (qi_mmio_mrs s)) s) ;;! sm_ret te
  | None => sm_fail StopAssert
  end.

(** ** Accesses *)

Definition on_world {A} (f : W -> res (A * W)) : SK A :=
  do! s := sm_get in
  match f (qi_world s) with
  | Ret (a, w) => sm_put (set_qi_world w s) ;;! sm_ret a
  | Err e => sm_fail e
  end.

(** A job that [run_on_sysc] drops leaves the transaction as it is. *)
Definition on_sysc (f : payload -> W -> res (payload * W)) (trans : payload) : SK payload :=
  do! s := sm_get in
  if sysc_runs (qi_world s) then on_world (f trans) else sm_ret trans.

Definition do_regular_access (trans : payload) : SK payload :=
  do! t := on_sysc (bus_transport bus) trans in
  let t := set_address (address trans) t in
  if dmi_allowed t then do! (_, t') := check_dmi_hint_locked t in sm_ret t' else sm_ret t.

Definition do_debug_access (trans : payload) : SK payload := on_sysc bus_dbg trans.

Definition do_direct_access (trans : payload) : SK payload := on_world (bus_transport bus trans).

Definition memtx_result (r : tlm_response_status) : MemTxResult :=
  match r with
  | TLM_OK_RESPONSE => MemTxOK
  | TLM_ADDRESS_ERROR_RESPONSE => MemTxDecodeError
  | _ => MemTxError
  end.

Definition qemu_io_access (c : tlm_command) (addr : Z) (val : list Z) (size : Z) (debug : bool) : SK (MemTxResult * list Z) :=
  do! s := sm_get in
  if qi_finished s then sm_ret (MemTxError, val)
  else
    let trans := init_payload c addr val size in
    do! trans' :=
      (if bool_decide (is_Some (ext_excl trans)) then do_direct_access trans
       else
         sm_modify (fun s => set_reentrancy (qi_reentrancy s + 1) s) ;;!
         do! s := sm_get in
         do! t := (if 1 <? qi_reentrancy s then do_direct_access trans
                   else if debug then do_debug_access trans
                   else do_regular_access trans) in
         sm_modify (fun s => set_reentrancy (qi_reentrancy s - 1) s) ;;! sm_ret t) in
    sm_ret (memtx_result (response (tidy trans')), data (tidy trans')).

Definition qemu_io_read (addr : Z) (val : list Z) (size : Z) (debug : bool) : SK (MemTxResult * list Z) :=
  qemu_io_access TLM_READ_COMMAND addr val size debug.

(** The value is a copy: what the access makes of it is dropped. *)
Definition qemu_io_write (addr : Z) (val : list Z) (size : Z) (debug : bool) : SK MemTxResult :=
  do! (r, _) := qemu_io_access TLM_WRITE_COMMAND addr val size debug in sm_ret r.

(** [qemu_map]: a loop over the DMI ranges between [addr] and [addr + len]. *)
Fixpoint qemu_map_loop (fuel : nat) (limit current_addr : Z) (trans : payload) : SK bool :=
  match fuel with
  | O => sm_ret false
  | S fuel' =>
    if current_addr <? limit then
      do! (dmi_data, trans) := check_dmi_hint_locked trans in
      sm_assert (current_addr <=? dmi_end dmi_data) ;;!
      if limit <=? dmi_end dmi_data then sm_ret true
      else qemu_map_loop fuel' limit (u64 (dmi_end dmi_data + 1)) (set_address (u64 (dmi_end dmi_data + 1)) trans)
    else sm_ret true
  end.

(** The result says whether the loop came to its end within the fuel. *)
Definition qemu_map (addr len : Z) : SK bool :=
  do! s := sm_get in
  if qi_finished s then sm_ret true
  else
    let trans := set_dmi_allowed true (init_payload TLM_IGNORE_COMMAND addr [] 0) in
    qemu_map_loop (Z.to_nat len + 1) (u64 (addr + len)) addr trans.

(** [reset] forgets every translation and alias. *)
Definition qi_reset : SK unit :=
  do! s := sm_get in
  sm_put (set_mmio_mrs (prod_map id (fun m => set_te [] (im_unmapped m) m) <$> qi_mmio_mrs s) s) ;;!
  sm_iter (fun e => remove_alias e.1 e.2) (qi_dmi_aliases s).

Definition qi_end_of_simulation : SK unit := sm_modify (set_finished true).

Definition new_socket (g : QemuInstanceDmiManager) (w : W) : QemuInitiatorSocket W :=
  mk_socket [] false [] [] [] 0 0 g w.

End Socket.

(** ** Aliases *)

Section Aliases.
  Context {W : Type}.
  Implicit Types s : QemuInitiatorSocket W.

(** The alias meets the range. *)
Definition al_meets (lo hi : Z) (a : DmiRegionAlias) : Prop := al_start a <= hi /\ lo <= al_end a.

#[export] Instance al_meets_dec lo hi a : Decision (al_meets lo hi a).
Proof. unfold al_meets. apply _. Defined.

(** The table is sorted by first addresses, its aliases are installed and disjoint. *)
Record aliases_ok (t : omap DmiRegionAlias) : Prop := {
  ao_wf : om_wf t;
  ao_key : forall k a, (k, a) ∈ t -> al_start a = k /\ al_start a <= al_end a /\ al_installed a = true;
  ao_disj : forall k a k' a', (k, a) ∈ t -> (k', a') ∈ t -> k < k' -> al_end a < k';
}.

(** The aliases below QEMU's root region. *)
Definition is_alias (x : subregion) : bool := match x with SubAlias _ _ => true | SubIommu _ => false end.

Definition root_ok s : Prop :=
  forall k x, ((k, x) ∈ qi_root s /\ is_alias x = true) <-> exists a, (k, a) ∈ qi_dmi_aliases s /\ x = alias_mr a.

Lemma aliases_ok_nil : aliases_ok [].
Proof. split; [apply om_wf_nil|by intros k a ?%elem_of_nil|by intros k a k' a' ?%elem_of_nil]. Qed.

Lemma aliases_ok_sublist t t' : t' `sublist_of` t -> aliases_ok t -> aliases_ok t'.
Proof.
  intros Hsub [Hwf Hk Hd]. assert (forall e, e ∈ t' -> e ∈ t) as Hin by (intros e; by eapply sublist_subseteq).
  split; [by eapply om_wf_sublist|by auto|]. intros k a k' a' H1 H2. eapply Hd; by apply Hin.
Qed.

Lemma remove_alias_ok k a s : aliases_ok (qi_dmi_aliases s) -> root_ok s -> (k, a) ∈ qi_dmi_aliases s ->
  exists r, remove_alias k a s = Ret (tt, set_aliases r (om_erase k (qi_dmi_aliases s)) s) /\
    root_ok (set_aliases r (om_erase k (qi_dmi_aliases s)) s).
Proof.
  intros [Hwf Hk Hd] Hr Hin. destruct (Hk k a Hin) as (Hs & Hle & Hi).
  eexists. unfold remove_alias, del_dmi_mr_alias, sm_bind, sm_when. rewrite Hi. split; [reflexivity|].
  intros j x. cbn. rewrite list_elem_of_filter, Hs. split.
  - intros [[Hne Hx] Ha]. destruct (proj1 (Hr j x) (conj Hx Ha)) as (b & Hb & ->). exists b. split; [|done].
    apply om_elem_erase; [done|]. split; [done|]. cbn. intros ->. apply Hne.
    apply om_find_elem in Hb, Hin; [|done..]. congruence.
  - intros (b & Hb & ->). apply om_elem_erase in Hb as [Hb Hne]; [|done]. cbn in Hne.
    destruct (proj2 (Hr j (alias_mr b)) (ex_intro _ b (conj Hb eq_refl))) as [Hx Ha]. split; [|done].
    split; [|done]. congruence.
Qed.

(** The scan removes exactly the aliases of the rest of the table that meet the range. *)
Lemma invalidate_scan_ok lo hi it dn s :
  qi_dmi_aliases s = dn ++ it -> aliases_ok (qi_dmi_aliases s) -> root_ok s ->
  exists r, let s' := set_aliases r (dn ++ filter (fun e => ~ al_meets lo hi e.2) it) s in
    invalidate_scan lo hi it s = Ret (tt, s') /\ root_ok s'.
Proof.
  revert dn s. induction it as [|[k a] it IH]; intros dn s E Hok Hr.
  { exists (qi_root s). cbn. rewrite <- E. by destruct s. }
  assert ((k, a) ∈ qi_dmi_aliases s) as Hin by (rewrite E; set_solver). pose proof (ao_key _ Hok _ _ Hin) as (Hs & Hle & Hi).
  cbn [invalidate_scan]. destruct (Z.ltb_spec hi (al_start a)) as [Hout|Hout].
  { exists (qi_root s). cbv zeta. rewrite filter_keeps, <- E; [by destruct s|]. intros [j b] Hj [Hm _]. cbn in Hm. assert ((j, b) ∈ qi_dmi_aliases s) as Hjs by (rewrite E; set_solver).
    pose proof (ao_key _ Hok _ _ Hjs) as (Hjb & _). apply elem_of_cons in Hj as [[= -> ->]|Hj]; [lia|].
    pose proof (ao_wf _ Hok) as Hwf. rewrite E, cons_middle, app_assoc in Hwf.
    assert (k < j) by (eapply (om_wf_app_lt _ _ (k, a) (j, b) Hwf); set_solver). lia. }
  destruct (Z.ltb_spec (al_end a) lo) as [Hb|Hb].
  - destruct (IH (dn ++ [(k, a)]) s) as (r & Er & Hr'); [by rewrite <- app_assoc|done..|]. exists r.
    cbv zeta in *. rewrite filter_cons_True by (unfold al_meets; cbn; lia). by rewrite <- app_assoc in Er, Hr'.
  - destruct (remove_alias_ok k a s Hok Hr Hin) as (r & Er & Hr'). set (s1 := set_aliases r _ s) in *.
    assert (qi_dmi_aliases s1 = dn ++ it) as E1. { cbn. rewrite E. apply om_erase_app. rewrite <- E. apply Hok. }
    destruct (IH dn s1 E1) as (r' & Er' & Hr''); [|done|].
    { rewrite E1. eapply aliases_ok_sublist; [|exact Hok]. rewrite E. by apply sublist_app, sublist_cons. }
    exists r'. cbv zeta in *. rewrite filter_cons_False by (unfold al_meets; cbn; lia).
    unfold sm_bind. rewrite Er. split; [exact Er'|exact Hr''].
Qed.

(** [invalidate_single_range] on disjoint aliases: one step back is enough. *)
Lemma invalidate_single_range_ok lo hi s : aliases_ok (qi_dmi_aliases s) -> root_ok s ->
  exists r, let s' := set_aliases r (filter (fun e => ~ al_meets lo hi e.2) (qi_dmi_aliases s)) s in
    invalidate_single_range lo hi s = Ret (tt, s') /\ root_ok s' /\ aliases_ok (qi_dmi_aliases s').
Proof.
  intros Hok Hr. unfold invalidate_single_range, sm_bind, sm_get.
  pose proof (om_upper_spec lo _ (ao_wf _ Hok)) as Hup. destruct (om_upper lo (qi_dmi_aliases s)) as [l r]. destruct Hup as (E & Hl & _).
  pose proof (om_prev_spec l r) as Hp. destruct (om_prev (l, r)) as [l' r']. destruct Hp as [E' Hp]. cbn [snd].
  destruct (invalidate_scan_ok lo hi r' l' s) as (root & Er & Hr'); [by rewrite E', E|done..|].
  assert (filter (fun e => ~ al_meets lo hi e.2) l' = l') as El'.
  { apply filter_keeps. intros [k a] Hk [_ Hm]. destruct Hp as [(-> & -> & _)|([j b] & -> & ->)]; [by apply elem_of_nil in Hk|].
    pose proof (ao_wf _ Hok) as Hwf. rewrite E, <- app_assoc in Hwf. cbn in Hm.
    assert (k < j) by (eapply (om_wf_app_lt _ _ (k, a) (j, b) Hwf); set_solver).
    assert (al_end a < j) by (apply (ao_disj _ Hok k a j b); [rewrite E; set_solver..|done]).
    rewrite list.Forall_forall in Hl. assert (j <= lo) by (apply (Hl (j, b)); set_solver). lia. }
  exists root. cbv zeta in *. rewrite E, <- E', list.filter_app, El'. split; [exact Er|]. split; [exact Hr'|].
  cbn. eapply aliases_ok_sublist; [|exact Hok]. rewrite E, <- E'. apply sublist_app; [done|]. apply sublist_filter.
Qed.

(** The alias that a grant becomes. *)
Definition alias_of (d : tlm_dmi) : DmiRegionAlias := mk_alias (dmi_start d) (dmi_end d) (dmi_ptr d) true.

Lemma get_new_region_alias_Ret d g a g' : get_new_region_alias d g = Ret (a, g') -> a = new_DmiRegionAlias d.
Proof. unfold get_new_region_alias. intros (g1 & _ & H)%rbind_Ret. by injection H as <- _. Qed.

Lemma aliases_ok_insert d t : aliases_ok t -> dmi_start d <= dmi_end d ->
  (forall k a, (k, a) ∈ t -> ~ al_meets (dmi_start d) (dmi_end d) a) -> aliases_ok (om_insert (dmi_start d) (alias_of d) t).
Proof.
  intros [Hwf Hk Hd] Hle Hap. split; [by apply om_wf_insert| |].
  - intros k a [[= -> ->]|[Hin _]]%om_elem_insert; [done|by apply Hk|done].
  - intros k a k' a' H1%om_elem_insert H2%om_elem_insert Hlt; [|done..].
    destruct H1 as [[= -> ->]|[H1 _]], H2 as [[= -> ->]|[H2 _]]; cbn in *; [lia| | |by eapply Hd].
    + destruct (Hk _ _ H2) as (? & ? & _). specialize (Hap _ _ H2). unfold al_meets in Hap. lia.
    + destruct (Hk _ _ H1) as (? & ? & _). specialize (Hap _ _ H1). unfold al_meets in Hap. lia.
Qed.

(** What a grant changes when it is installed beside disjoint aliases. *)
Lemma dmi_install_ok d s s' : dmi_install d s = Ret (tt, s') ->
  aliases_ok (qi_dmi_aliases s) -> root_ok s -> dmi_start d <= dmi_end d ->
  (forall k a, (k, a) ∈ qi_dmi_aliases s -> k <> dmi_start d -> ~ al_meets (dmi_start d) (dmi_end d) a) ->
  aliases_ok (qi_dmi_aliases s') /\ root_ok s' /\ qi_ranges s' = qi_ranges s /\ qi_jobs s' = qi_jobs s /\ qi_finished s' = qi_finished s /\
  forall k a, (k, a) ∈ qi_dmi_aliases s' -> (k, a) ∈ qi_dmi_aliases s \/ a = alias_of d.
Proof.
  unfold dmi_install, sm_bind at 1, sm_get. case_bool_decide; [done|].
  destruct (om_find _ _) as [b|] eqn:Ef; [intros [= <-]; tauto|].
  destruct (get_new_region_alias _ _) as [[al g]|] eqn:Eg; [|done]. apply get_new_region_alias_Ret in Eg as ->.
  intros [= <-] Hok Hr Hle Hap. cbn. pose proof Hok as [Hwf Hk _]. rewrite om_find_None, list.Forall_forall in Ef.
  rewrite om_insert_insert by done. change (set_installed _) with (alias_of d). split; [|split; [|do 3 (split; [done|])]].
  - apply aliases_ok_insert; [done..|]. intros k a Hin. apply Hap with k; [done|]. by apply (Ef (k, a)).
  - intros k x. cbn. rewrite elem_of_app, list_elem_of_singleton. split.
    + intros [[Hx|[= -> ->]] Ha].
      * destruct (proj1 (Hr k x) (conj Hx Ha)) as (a & Hin & ->). exists a. split; [|done].
        apply om_elem_insert; [done|]. right. split; [done|]. by apply (Ef (k, a)).
      * exists (alias_of d). split; [|done]. apply om_elem_insert; [done|]. by left.
    + intros (a & [[= -> ->]|[Hin _]]%om_elem_insert & ->); [by split; [right|]| |done].
      destruct (proj2 (Hr k _) (ex_intro _ a (conj Hin eq_refl))). tauto.
  - intros k a [[= -> ->]|[Hin _]]%om_elem_insert; [by right|by left|done].
Qed.

Lemma iter_ranges_ok l s : qi_ranges s = l -> aliases_ok (qi_dmi_aliases s) -> root_ok s ->
  exists s', sm_iter (fun r => invalidate_single_range r.1 r.2 ;;!
                 sm_modify (fun s => set_ranges (tail (qi_ranges s)) (qi_jobs s) s)) l s = Ret (tt, s') /\
    aliases_ok (qi_dmi_aliases s') /\ root_ok s' /\ qi_ranges s' = [] /\ qi_jobs s' = qi_jobs s /\ qi_finished s' = qi_finished s /\
    forall k a, (k, a) ∈ qi_dmi_aliases s' <-> (k, a) ∈ qi_dmi_aliases s /\ forall r, r ∈ l -> ~ al_meets r.1 r.2 a.
Proof.
  revert s. induction l as [|r l IH]; intros s El Hok Hr.
  { exists s. split; [done|]. do 5 (split; [done|]). intros k a. split; [|tauto]. intros Hin. split; [done|]. by intros r ?%elem_of_nil. }
  destruct (invalidate_single_range_ok r.1 r.2 s Hok Hr) as (root & E & Hr' & Hok'). cbv zeta in *.
  set (s1 := set_aliases root _ s) in *. destruct (IH (set_ranges (tail (qi_ranges s1)) (qi_jobs s1) s1)) as (s' & E' & H1 & H2 & H3 & H4 & H6 & H5);
    [cbn; by rewrite El|done|done|].
  exists s'. split; [|do 5 (split; [done|])].
  - cbn [sm_iter]. unfold sm_bind at 1 2. rewrite E. exact E'.
  - intros k a. rewrite H5. cbn. rewrite list_elem_of_filter. cbn. split.
    + intros [[Hn Hin] Hl]. split; [done|]. intros r' [->|Hr0]%elem_of_cons; [done|by apply Hl].
    + intros [Hin Hl]. split; [split; [apply Hl; set_solver|done]|]. intros r' Hr0. apply Hl. set_solver.
Qed.

Lemma safe_cb_ok s : qi_finished s = false -> aliases_ok (qi_dmi_aliases s) -> root_ok s ->
  exists s', invalidate_ranges_safe_cb s = Ret (tt, s') /\
    aliases_ok (qi_dmi_aliases s') /\ root_ok s' /\ qi_ranges s' = [] /\ qi_jobs s' = qi_jobs s /\ qi_finished s' = qi_finished s /\
    forall k a, (k, a) ∈ qi_dmi_aliases s' <-> (k, a) ∈ qi_dmi_aliases s /\ forall r, r ∈ qi_ranges s -> ~ al_meets r.1 r.2 a.
Proof.
  intros Hf Hok Hr. unfold invalidate_ranges_safe_cb, sm_bind at 1, sm_get. rewrite Hf, <- Hf. by apply iter_ranges_ok.
Qed.

Lemma iter_remove_ok it s : qi_dmi_aliases s = it -> aliases_ok (qi_dmi_aliases s) -> root_ok s ->
  exists r, sm_iter (fun e => remove_alias e.1 e.2) it s = Ret (tt, set_aliases r [] s) /\ root_ok (set_aliases r [] s).
Proof.
  revert s. induction it as [|[k a] it IH]; intros s E Hok Hr.
  { exists (qi_root s). destruct s; cbn in E; subst. by split. }
  destruct (remove_alias_ok k a s Hok Hr) as (r & Er & Hr'); [rewrite E; set_solver|].
  set (s1 := set_aliases r _ s) in *. assert (qi_dmi_aliases s1 = it) as E1 by (cbn; rewrite E; cbn; by rewrite Z.eqb_refl).
  destruct (IH s1 E1) as (r' & Er' & Hr''); [|done|].
  { rewrite E1. eapply aliases_ok_sublist; [|exact Hok]. rewrite E. by apply sublist_cons. }
  exists r'. cbn [sm_iter]. unfold sm_bind. cbn [fst snd]. rewrite Er. split; [exact Er'|exact Hr''].
Qed.

Lemma reset_ok s : aliases_ok (qi_dmi_aliases s) -> root_ok s ->
  exists s', qi_reset s = Ret (tt, s') /\ qi_dmi_aliases s' = [] /\ root_ok s' /\
    qi_ranges s' = qi_ranges s /\ qi_jobs s' = qi_jobs s /\ qi_finished s' = qi_finished s.
Proof.
  intros Hok Hr. unfold qi_reset, sm_bind, sm_get, sm_put.
  destruct (iter_remove_ok (qi_dmi_aliases s) (set_mmio_mrs (prod_map id (fun m => set_te [] (im_unmapped m) m) <$> qi_mmio_mrs s) s))
    as (r & E & Hr'); [done..|]. eexists. split; [exact E|]. by split.
Qed.

(** ** The life of the aliases *)

(** The socket with the grants that the targets have not taken back and the grant that is on
    its way to the processor. *)
Record alias_machine : Type := mk_am {
  am_sock : QemuInitiatorSocket W;
  am_valid : list tlm_dmi;
  am_flight : option tlm_dmi;
}.

Definition dmi_meets (lo hi : Z) (d : tlm_dmi) : Prop := dmi_start d <= hi /\ lo <= dmi_end d.

#[export] Instance dmi_meets_dec lo hi d : Decision (dmi_meets lo hi d).
Proof. unfold dmi_meets. apply _. Defined.

(** The steps of the targets ([am_grant], [am_invalidate]) and of the processor's thread.  A
    grant is installed beside aliases it does not overlap; a job runs on the thread that waits
    for the grants, so not while one is on its way. *)
Inductive am_step : alias_machine -> alias_machine -> Prop :=
| am_grant s v d : dmi_start d <= dmi_end d -> am_step (mk_am s v None) (mk_am s (d :: v) (Some d))
| am_install s v d s' :
  (forall k a, (k, a) ∈ qi_dmi_aliases s -> k <> dmi_start d -> ~ al_meets (dmi_start d) (dmi_end d) a) ->
  dmi_install d s = Ret (tt, s') -> am_step (mk_am s v (Some d)) (mk_am s' v None)
| am_invalidate s v f lo hi s' : mmio_at lo hi (qi_mmio_mrs s) = None ->
  qi_invalidate_direct_mem_ptr true lo hi s = Ret (tt, s') ->
  am_step (mk_am s v f) (mk_am s' (filter (fun d => ~ dmi_meets lo hi d) v) f)
| am_job s v n s' : qi_jobs s = S n -> invalidate_ranges_safe_cb s = Ret (tt, s') ->
  am_step (mk_am s v None) (mk_am (set_ranges (qi_ranges s') n s') v None)
| am_reset s v f s' : qi_reset s = Ret (tt, s') -> am_step (mk_am s v f) (mk_am s' v f).

(** A grant stands, or a pending range takes it back. *)
Definition current (v : list tlm_dmi) (rs : list (Z * Z)) (d : tlm_dmi) : Prop :=
  d ∈ v \/ exists r, r ∈ rs /\ dmi_meets r.1 r.2 d.

Record am_inv (m : alias_machine) : Prop := {
  ai_open : qi_finished (am_sock m) = false;
  ai_aliases : aliases_ok (qi_dmi_aliases (am_sock m));
  ai_root : root_ok (am_sock m);
  ai_job : qi_ranges (am_sock m) <> [] -> qi_jobs (am_sock m) <> O;
  ai_current : forall k a, (k, a) ∈ qi_dmi_aliases (am_sock m) ->
    exists d, a = alias_of d /\ current (am_valid m) (qi_ranges (am_sock m)) d;
  ai_flight : forall d, am_flight m = Some d -> dmi_start d <= dmi_end d /\ current (am_valid m) (qi_ranges (am_sock m)) d;
}.

Lemma am_inv_init g w : am_inv (mk_am (new_socket g w) [] None).
Proof.
  split; cbn; try done.
  - exact aliases_ok_nil.
  - intros k x. cbn. split; [by intros [?%elem_of_nil _]|by intros (a & ?%elem_of_nil & _)].
  - by intros k a ?%elem_of_nil.
Qed.

Lemma current_invalidate v rs lo hi d :
  current v rs d -> current (filter (fun d => ~ dmi_meets lo hi d) v) (rs ++ [(lo, hi)]) d.
Proof.
  intros [Hv|(r & Hr & Hm)].
  - destruct (decide (dmi_meets lo hi d)) as [Hd|Hd]; [right; exists (lo, hi); set_solver|left]. by apply list_elem_of_filter.
  - right. exists r. set_solver.
Qed.

Lemma am_step_inv m m' : am_step m m' -> am_inv m -> am_inv m'.
Proof.
  intros Hstep [Hf Hok Hr Hj Hc Hfl]. destruct Hstep as [s v d Hd|s v d s' Hap E|s v f lo hi s' Hmm E|s v n s' En E|s v f s' E]; cbn [am_sock am_valid am_flight] in *.
  - split; cbn; try done.
    + intros k a Hin. destruct (Hc k a Hin) as (b & -> & [Hv|Hv]); exists b; (split; [done|]); [left; set_solver|by right].
    + intros b [= <-]. split; [done|]. left. set_solver.
  - destruct (Hfl d eq_refl) as [Hle Hcd]. destruct (dmi_install_ok d s s' E Hok Hr Hle Hap) as (H1 & H2 & H3 & H4 & H5 & H6).
    split; cbn; rewrite ?H3, ?H4, ?H5; try done. intros k a [Hin| ->]%H6; [by eapply Hc|by exists d].
  - unfold qi_invalidate_direct_mem_ptr, sm_bind, sm_get in E. rewrite Hf, Hmm in E. injection E as <-. split; cbn; try done.
    + intros k a Hin. destruct (Hc k a Hin) as (d & -> & Hd). exists d. split; [done|]. by apply current_invalidate.
    + intros d Hd. destruct (Hfl d Hd). split; [done|]. by apply current_invalidate.
  - destruct (safe_cb_ok s Hf Hok Hr) as (s1 & E1 & H1 & H2 & H3 & H4 & H5 & H6). rewrite E1 in E. injection E as <-.
    split; cbn; rewrite ?H3, ?H5; try done. intros k a [Hin Hn]%H6. destruct (Hc k a Hin) as (d & -> & [Hv|(r & Hr1 & Hm)]).
    + exists d. split; [done|]. by left.
    + by destruct (Hn r Hr1).
  - destruct (reset_ok s Hok Hr) as (s1 & E1 & H1 & H2 & H3 & H4 & H5). rewrite E1 in E. injection E as <-.
    split; cbn; rewrite ?H1, ?H3, ?H4, ?H5; try done; [exact aliases_ok_nil|by intros k a ?%elem_of_nil].
Qed.

Definition am_reachable (g : QemuInstanceDmiManager) (w : W) : alias_machine -> Prop :=
  rtc am_step (mk_am (new_socket g w) [] None).

(** C9: As long as no target grants a range that overlaps an alias of another address that is still
    installed, the initiator accepts the jobs it is given and invalidated ranges lie in no IOMMU
    region: QEMU's memory map never keeps a grant that was taken back.  At any time the aliases are
    exactly those below the root region, each is a grant that stands or one that a pending range
    meets, for which a job is outstanding; and when no grant is on its way, running the job leaves
    only aliases of grants that stand.  [overlapping_alias_survives], [dropped_job_keeps_alias] and
    [full_invalidation_ignored] show that each condition is needed. *)
Theorem alias_coherence g w m : am_reachable g w m ->
  root_ok (am_sock m) /\
  (qi_ranges (am_sock m) <> [] -> qi_jobs (am_sock m) <> O) /\
  (forall k a, (k, a) ∈ qi_dmi_aliases (am_sock m) -> exists d, a = alias_of d /\ current (am_valid m) (qi_ranges (am_sock m)) d) /\
  exists s', invalidate_ranges_safe_cb (am_sock m) = Ret (tt, s') /\ qi_ranges s' = [] /\
    forall k a, (k, a) ∈ qi_dmi_aliases s' -> exists d, a = alias_of d /\ d ∈ am_valid m.
Proof.
  intros Hr. assert (am_inv m) as [Hf Hok Hro Hj Hc Hfl].
  { revert Hr. generalize (am_inv_init g w). unfold am_reachable. intros Hi Hr.
    induction Hr as [|x y z Hxy _ IH]; [done|]. eauto using am_step_inv. }
  do 3 (split; [done|]). destruct (safe_cb_ok _ Hf Hok Hro) as (s' & E & _ & _ & Hn & _ & _ & H6). exists s'. split; [done|]. split; [done|].
  intros k a [Hin Ha]%H6. destruct (Hc k a Hin) as (d & -> & [Hv|(r & Hr1 & Hm)]); [by exists d|by destruct (Ha r Hr1)].
Qed.

End Aliases.

(** A run in which a range is invalidated while the grant it meets is on its way. *)
Lemma alias_coherence_witness :
  exists m k a, am_reachable new_dmi_manager tt m /\ (k, a) ∈ qi_dmi_aliases (am_sock m) /\ am_valid m = [] /\
    (exists s', invalidate_ranges_safe_cb (am_sock m) = Ret (tt, s') /\ qi_dmi_aliases s' = []).
Proof.
  set (d := mk_dmi 4096 65536 69631 DMI_ACCESS_READ_WRITE).
  assert (exists s, am_reachable new_dmi_manager tt (mk_am s [] None) /\ qi_dmi_aliases s = [(65536, alias_of d)]) as (s & Hr & Ea).
  { eexists. split.
    - eapply rtc_l; [apply (am_grant _ _ d); cbn; lia|]. eapply rtc_l; [apply (am_invalidate _ _ _ 65536 65791); reflexivity|].
      eapply rtc_l; [eapply am_install; [|vm_compute; reflexivity]; by intros k a ?%elem_of_nil|]. apply rtc_refl.
    - reflexivity. }
  pose proof (alias_coherence new_dmi_manager tt _ Hr) as (_ & _ & _ & s' & E & _ & Hv).
  exists (mk_am s [] None), 65536, (alias_of d). split; [exact Hr|]. split; [cbn; rewrite Ea; apply elem_of_cons; by left|].
  split; [reflexivity|]. exists s'. split; [exact E|].
  destruct (qi_dmi_aliases s') as [|[k a] t]; [done|]. destruct (Hv k a) as (x & _ & Hx); [apply elem_of_cons; by left|].
  by apply elem_of_nil in Hx.
Defined.

(** A grant that overlaps an alias hides it from the invalidation: after the range has been
    handled, QEMU still maps the block from 0 to 4095 that meets it. *)
Lemma overlapping_alias_survives :
  let A := mk_dmi 4096 0 4095 DMI_ACCESS_READ_WRITE in
  let B := mk_dmi 65536 1024 2047 DMI_ACCESS_READ_WRITE in
  exists s s', (dmi_install A ;;! qi_invalidate_direct_mem_ptr true 2048 2303 ;;! dmi_install B) (new_socket new_dmi_manager tt) = Ret (tt, s) /\
    invalidate_ranges_safe_cb s = Ret (tt, s') /\ qi_ranges s' = [] /\ (0, alias_of A) ∈ qi_dmi_aliases s'.
Proof.
  eexists _, _. split; [vm_compute; reflexivity|]. split; [vm_compute; reflexivity|]. split; [reflexivity|].
  cbn. apply elem_of_cons. by left.
Qed.

(** With an initiator that drops the jobs it is given, a range stays pending for ever. *)
Lemma dropped_job_keeps_alias :
  let A := mk_dmi 4096 0 4095 DMI_ACCESS_READ_WRITE in
  exists s, (dmi_install A ;;! qi_invalidate_direct_mem_ptr false 0 4095) (new_socket new_dmi_manager tt) = Ret (tt, s) /\
    qi_jobs s = O /\ qi_ranges s = [(0, 4095)] /\ (0, alias_of A) ∈ qi_dmi_aliases s.
Proof. eexists. split; [vm_compute; reflexivity|]. do 2 (split; [reflexivity|]). cbn. apply elem_of_cons. by left. Qed.

(** An invalidation of all addresses where an IOMMU region lies above address 0 neither drops
    its translations nor reaches the aliases. *)
Lemma full_invalidation_ignored :
  let m := set_te [(0, mk_te AsTe 0 0 4095 DMI_ACCESS_READ_WRITE)] [] (new_iommu 1048576 12) in
  let al := [(0, mk_alias 0 4095 4096 true)] in
  let s := mk_socket [] false [(65536, m)] [(0, SubAlias 4096 4096)] al 0 0 new_dmi_manager tt in
  exists s', qi_invalidate_direct_mem_ptr true 0 UINT64_MAX s = Ret (tt, s') /\
    om_find 65536 (qi_mmio_mrs s') = Some m /\ qi_ranges s' = [] /\ qi_dmi_aliases s' = al.
Proof. eexists. split; [vm_compute; reflexivity|]. by repeat split. Qed.

(** ** Cached translations *)

(** Pages that lie apart, below the end of the address space. *)
Record te_ok (t : omap IOMMUTLBEntry) : Prop := {
  to_wf : om_wf t;
  to_page : forall k e, (k, e) ∈ t -> 0 <= k /\ 0 <= te_mask e /\ k + te_mask e + 1 < 2 ^ 64;
  to_disj : forall k e k' e', (k, e) ∈ t -> (k', e') ∈ t -> k < k' -> k + te_mask e < k';
}.

Definition te_hit (rs re : Z) (x : Z * IOMMUTLBEntry) : Prop := region_match rs re x.1 (te_mask x.2) = true.

#[export] Instance te_hit_dec rs re x : Decision (te_hit rs re x).
Proof. unfold te_hit. apply _. Defined.

Lemma te_hit_spec rs re t k e : te_ok t -> (k, e) ∈ t -> te_hit rs re (k, e) <-> rs <= k + te_mask e + 1 /\ k <= re.
Proof.
  intros Hok Hin. destruct (to_page _ Hok _ _ Hin) as (H1 & H2 & H3). unfold te_hit, region_match. cbn [fst snd].
  rewrite u64_small by lia. rewrite andb_true_iff, !Z.leb_le. done.
Qed.

Lemma te_ok_sublist t t' : t' `sublist_of` t -> te_ok t -> te_ok t'.
Proof.
  intros Hsub [Hwf Hk Hd]. assert (forall e, e ∈ t' -> e ∈ t) as Hin by (intros e; by eapply sublist_subseteq).
  split; [by eapply om_wf_sublist|by auto|]. intros k a k' a' H1 H2. eapply Hd; by apply Hin.
Qed.

Lemma te_scan_ok rs re it dn m : im_te m = dn ++ it -> te_ok (im_te m) ->
  te_scan rs re it m =
  set_te (dn ++ filter (fun x => ~ te_hit rs re x) it) (im_unmapped m ++ (filter (te_hit rs re) it).*2) m.
Proof.
  revert dn m. induction it as [|[k e] it IH]; intros dn m E Hok.
  { cbn. rewrite app_nil_r in E. rewrite !app_nil_r, <- E. by destruct m. }
  assert ((k, e) ∈ im_te m) as Hin by (rewrite E; set_solver). cbn [te_scan]. destruct (Z.leb_spec k re) as [Hle|Hgt].
  - destruct (region_match rs re k (te_mask e)) eqn:Em.
    + rewrite filter_cons_False, filter_cons_True by (unfold te_hit; cbn; rewrite Em; intuition congruence).
      assert (im_te (te_unmap k e m) = dn ++ it) as E1. { cbn. rewrite E. apply om_erase_app. rewrite <- E. apply Hok. }
      rewrite (IH dn); [|done|]; [cbn; by rewrite <- app_assoc|]. rewrite E1. eapply te_ok_sublist; [|exact Hok]. rewrite E.
      by apply sublist_app, sublist_cons.
    + rewrite filter_cons_True, filter_cons_False by (unfold te_hit; cbn; rewrite Em; intuition congruence).
      rewrite (IH (dn ++ [(k, e)])); [by rewrite <- app_assoc|by rewrite <- app_assoc|done].
  - assert (forall x, x ∈ (k, e) :: it -> ~ te_hit rs re x) as Hn.
    { intros [j f] Hj Hh. apply (te_hit_spec _ _ (im_te m)) in Hh as [_ Hh]; [|done|rewrite E; set_solver].
      apply elem_of_cons in Hj as [[= -> ->]|Hj]; [lia|]. pose proof (to_wf _ Hok) as Hwf. rewrite E, cons_middle, app_assoc in Hwf.
      assert (k < j) by (eapply (om_wf_app_lt _ _ (k, e) (j, f) Hwf); set_solver). lia. }
    rewrite filter_keeps by done. rewrite (filter_none (te_hit rs re)) by done. rewrite app_nil_r, <- E. by destruct m.
Qed.

(** The page before the range is looked at once, the pages after it in turn: that finds every
    page that meets the range. *)
Lemma te_invalidate_ok rs re m : te_ok (im_te m) ->
  te_invalidate rs re m =
  set_te (filter (fun x => ~ te_hit rs re x) (im_te m)) (im_unmapped m ++ (filter (te_hit rs re) (im_te m)).*2) m.
Proof.
  intros Hok. unfold te_invalidate. pose proof (om_lower_spec rs _ (to_wf _ Hok)) as Hlo.
  destruct (om_lower rs (im_te m)) as [l r]. destruct Hlo as (E & Hl & _). rewrite list.Forall_forall in Hl.
  destruct (list.last l) as [[k e]|] eqn:El.
  - apply last_Some in El as [l' ->]. assert (forall x, x ∈ l' -> ~ te_hit rs re x) as Hn.
    { intros [j f] Hj Hh. apply (te_hit_spec _ _ (im_te m)) in Hh as [Hh _]; [|done|rewrite E; set_solver].
      pose proof (to_wf _ Hok) as Hwf. rewrite E, <- app_assoc in Hwf.
      assert (j < k) by (eapply (om_wf_app_lt _ _ (j, f) (k, e) Hwf); set_solver).
      assert (j + te_mask f < k) by (apply (to_disj _ Hok j f k e); [rewrite E; set_solver..|done]).
      assert (k < rs) by (apply (Hl (k, e)); set_solver). lia. }
    destruct (region_match rs re k (te_mask e)) eqn:Em.
    + assert (im_te (te_unmap k e m) = l' ++ r) as E1.
      { cbn. rewrite E, <- app_assoc. apply om_erase_app. pose proof (to_wf _ Hok) as Hwf. by rewrite E, <- app_assoc in Hwf. }
      rewrite (te_scan_ok _ _ _ l'); [|done|rewrite E1; eapply te_ok_sublist; [|exact Hok]; rewrite E, <- app_assoc; by apply sublist_app, sublist_cons].
      rewrite E, <- !app_assoc, !list.filter_app. cbn [app]. rewrite (filter_keeps _ l') by done. rewrite (filter_none (te_hit rs re) l') by done.
      rewrite filter_cons_False, filter_cons_True by (unfold te_hit; cbn; rewrite Em; intuition congruence). cbn. by rewrite <- app_assoc.
    + rewrite (te_scan_ok _ _ _ (l' ++ [(k, e)])) by done.
      rewrite E, <- !app_assoc, !list.filter_app. cbn [app]. rewrite (filter_keeps _ l') by done. rewrite (filter_none (te_hit rs re) l') by done.
      rewrite (filter_cons_True (fun x => ~ te_hit rs re x)), (filter_cons_False (te_hit rs re)) by (unfold te_hit; cbn; rewrite Em; intuition congruence). done.
  - apply last_None in El as ->. rewrite (te_scan_ok _ _ _ []) by done. by rewrite E.
Qed.

Lemma mmio_at_Some lo hi l start m : mmio_at lo hi l = Some (start, m) ->
  (start, m) ∈ l /\ lo <= mr_end start m /\ start <= hi.
Proof.
  induction l as [|[k n] l IH]; cbn; [done|]. destruct ((lo <=? mr_end k n) && (k <=? hi)) eqn:E.
  - intros [= -> ->]. apply andb_true_iff in E as [?%Z.leb_le ?%Z.leb_le]. split; [set_solver|done].
  - intros H. destruct (IH H) as (? & ? & ?). split; [set_solver|done].
Qed.

(** an invalidation that starts in an IOMMU region drops every cached translation whose
    page meets the range, tells QEMU of each, and keeps those that lie apart from it; the
    aliases and the other regions stay. *)
Theorem iommu_invalidate_exact {W} asyncr lo hi (s : QemuInitiatorSocket W) start m :
  qi_finished s = false -> om_wf (qi_mmio_mrs s) -> mmio_at lo hi (qi_mmio_mrs s) = Some (start, m) -> te_ok (im_te m) ->
  0 <= start <= lo -> lo <= hi < 2 ^ 64 ->
  exists s' m', qi_invalidate_direct_mem_ptr asyncr lo hi s = Ret (tt, s') /\
    om_find start (qi_mmio_mrs s') = Some m' /\ te_ok (im_te m') /\
    (forall k e, (k, e) ∈ im_te m' -> (k, e) ∈ im_te m /\ (start + k + te_mask e < lo \/ hi < start + k)) /\
    (forall k e, (k, e) ∈ im_te m -> (start + k + te_mask e + 1 < lo \/ hi < start + k) -> (k, e) ∈ im_te m') /\
    (forall k e, (k, e) ∈ im_te m -> (k, e) ∉ im_te m' -> e ∈ im_unmapped m') /\
    qi_dmi_aliases s' = qi_dmi_aliases s /\ (forall j, j <> start -> om_find j (qi_mmio_mrs s') = om_find j (qi_mmio_mrs s)).
Proof.
  intros Hf Hwf Hm Hok Hs Hle. unfold qi_invalidate_direct_mem_ptr, sm_bind, sm_get. rewrite Hf, Hm.
  rewrite !u64_small by lia. rewrite te_invalidate_ok by done. eexists _, _. split; [reflexivity|]. cbn. rewrite om_find_insert_eq by done.
  split; [reflexivity|]. cbn. split; [eapply te_ok_sublist; [apply sublist_filter|done]|]. split; [|split; [|split; [|split; [done|]]]].
  - intros k e [Hn Hin]%list_elem_of_filter. split; [done|]. rewrite te_hit_spec in Hn by done. lia.
  - intros k e Hin Hap. apply list_elem_of_filter. split; [|done]. rewrite te_hit_spec by done. lia.
  - intros k e Hin Hno. apply elem_of_app. right. apply list_elem_of_fmap. exists (k, e). split; [done|]. apply list_elem_of_filter.
    split; [|done]. apply dec_stable. intros Hn. apply Hno, list_elem_of_filter. done.
  - intros j Hj. by apply om_find_insert_ne.
Qed.

Lemma iommu_invalidate_exact_witness :
  let e := mk_te AsTe 0 0 4095 DMI_ACCESS_READ_WRITE in
  let f := mk_te AsTe 0 8192 4095 DMI_ACCESS_READ_WRITE in
  let s := mk_socket [] false [(65536, set_te [(0, e); (8192, f)] [] (new_iommu 1048576 12))] [] [] 0 0 new_dmi_manager tt in
  exists s' m', qi_invalidate_direct_mem_ptr true 73728 73983 s = Ret (tt, s') /\
    om_find 65536 (qi_mmio_mrs s') = Some m' /\ (0, e) ∈ im_te m' /\ (8192, f) ∉ im_te m'.
Proof.
  cbv zeta. destruct (iommu_invalidate_exact true 73728 73983
    (mk_socket [] false [(65536, set_te [(0, mk_te AsTe 0 0 4095 DMI_ACCESS_READ_WRITE); (8192, mk_te AsTe 0 8192 4095 DMI_ACCESS_READ_WRITE)] [] (new_iommu 1048576 12))]
       [] [] 0 0 new_dmi_manager tt) 65536 (set_te [(0, mk_te AsTe 0 0 4095 DMI_ACCESS_READ_WRITE); (8192, mk_te AsTe 0 8192 4095 DMI_ACCESS_READ_WRITE)] [] (new_iommu 1048576 12)))
    as (s' & m' & E & Ef & _ & H1 & H2 & _); [reflexivity| |vm_compute; reflexivity| |lia|lia|].
  - unfold om_wf. cbn. repeat constructor.
  - split; cbn.
    + unfold om_wf. cbn. repeat constructor.
    + intros k e [[= -> ->]|[[= -> ->]|?%elem_of_nil]%elem_of_cons]%elem_of_cons; cbn; [lia|lia|done].
    + intros k e k' e' [[= -> ->]|[[= -> ->]|?%elem_of_nil]%elem_of_cons]%elem_of_cons
        [[= -> ->]|[[= -> ->]|?%elem_of_nil]%elem_of_cons]%elem_of_cons; cbn; (lia || done).
  - exists s', m'. split; [exact E|]. split; [exact Ef|]. split.
    + apply H2; [cbn; apply elem_of_cons; by left|cbn; lia].
    + intros Hin. destruct (H1 _ _ Hin) as [_ Hap]. cbn in Hap. lia.
Defined.

(** ** Translation *)

(** The address QEMU derives from an entry. *)
Definition te_target (e : IOMMUTLBEntry) (a : Z) : Z := Z.ldiff (te_translated e) (te_mask e) + Z.land a (te_mask e).

Lemma land_ones_mod a k : 0 <= k -> Z.land a (2 ^ k - 1) = a mod 2 ^ k.
Proof. intros Hk. rewrite <- Z.land_ones by done. f_equal. rewrite Z.ones_equiv. lia. Qed.

Lemma ldiff_ones_mod a k : 0 <= k -> Z.ldiff a (2 ^ k - 1) = a - a mod 2 ^ k.
Proof.
  intros Hk. replace (2 ^ k - 1) with (Z.ones k) by (rewrite Z.ones_equiv; lia).
  rewrite Z.ldiff_ones_r, Z.shiftl_mul_pow2, Z.shiftr_div_pow2 by done.
  pose proof (Z.div_mod a (2 ^ k)). lia.
Qed.

(** A page is found from any of its addresses when no other page starts inside it. *)
Lemma te_find_region_insert t p e k b : om_wf t -> 0 <= k -> te_mask e = 2 ^ k - 1 -> p mod 2 ^ k = 0 -> p <= b < p + 2 ^ k ->
  (forall j f, (j, f) ∈ t -> j < p \/ p + 2 ^ k <= j) -> te_find_region (om_insert p e t) b = Some (p, e).
Proof.
  intros Hwf Hk Hm Hp Hb Hap. unfold te_find_region. pose proof (om_upper_spec b _ (om_wf_insert p e t Hwf)) as Hup.
  destruct (om_upper b (om_insert p e t)) as [l r]. destruct Hup as (E & Hl & Hr). cbn. rewrite list.Forall_forall in Hl, Hr.
  assert ((p, e) ∈ l ++ r) as Hin by (rewrite <- E; apply om_elem_insert; [done|by left]).
  assert ((p, e) ∈ l) as Hpl. { apply elem_of_app in Hin as [Hin|Hin]; [done|]. specialize (Hr _ Hin). cbn in Hr. lia. }
  destruct (list.last l) as [[j f]|] eqn:El; [|by apply last_None in El as ->; apply elem_of_nil in Hpl].
  apply last_Some in El as [l' ->]. assert ((j, f) = (p, e)) as [= -> ->].
  { assert ((j, f) ∈ om_insert p e t) as Hj by (rewrite E; set_solver). apply om_elem_insert in Hj as [Hj|[Hj Hne]]; [done| |done].
    assert (j <= b) by (apply (Hl (j, f)); set_solver). apply elem_of_app in Hpl as [Hpl|Hpl]; [|by apply list_elem_of_singleton in Hpl].
    pose proof (om_wf_insert p e t Hwf) as Hwf'. rewrite E in Hwf'. apply om_wf_app in Hwf' as [Hwf' _].
    pose proof (om_wf_app_lt _ _ (p, e) (j, f) Hwf' Hpl ltac:(set_solver)) as Hlt. cbn in Hlt. specialize (Hap _ _ Hj). lia. }
  rewrite Hm, ldiff_ones_mod by done.
  rewrite (proj2 (Z.eqb_eq _ _)); [done|]. apply Z.mod_divide in Hp as [q ->]; [|lia].
  rewrite <- (Z.mod_unique b (2 ^ k) q (b - q * 2 ^ k)); lia.
Qed.

(** A page of [2^k] bytes that a target grants behind an IOMMU: [ldmi] is the page at its guest
    address, [lu] the block of memory it lies in, at its address behind the IOMMU. *)
Record page_grant (base addr k : Z) (ldmi lu : tlm_dmi) : Prop := {
  pg_k : 0 <= k;
  pg_size : dmi_end ldmi = dmi_start ldmi + 2 ^ k - 1;
  pg_start : 0 <= dmi_start ldmi /\ dmi_end ldmi < 2 ^ 64;
  pg_aligned : dmi_start ldmi mod 2 ^ k = 0 /\ base mod 2 ^ k = 0;
  pg_covers : dmi_covers ldmi (base + addr);
  pg_lu : grant_ok lu;
  pg_phys : (dmi_start lu + (dmi_ptr ldmi - dmi_ptr lu)) mod 2 ^ k = 0;
  pg_block : dmi_ptr lu <= dmi_ptr ldmi /\ dmi_ptr ldmi + 2 ^ k <= dmi_ptr lu + (dmi_end lu - dmi_start lu + 1);
}.

Section Page.
  Context {base addr k : Z} {ldmi lu : tlm_dmi} (Hpg : page_grant base addr k ldmi lu).

Let X := dmi_start lu + (dmi_ptr ldmi - dmi_ptr lu).
Let p := dmi_start ldmi - base.

Lemma page_mod b : p <= b < p + 2 ^ k -> b mod 2 ^ k = b - p.
Proof.
  intros Hb. destruct Hpg as [Hk _ _ [H1 H2] _ _ _ _].
  apply Z.mod_divide in H1 as [q1 E1], H2 as [q2 E2]; [|lia..].
  symmetry. apply (Z.mod_unique _ _ (q1 - q2)); unfold p in *; lia.
Qed.

Lemma page_addr : p <= addr < p + 2 ^ k.
Proof. destruct Hpg as [_ Hs _ _ [H1 H2] _ _ _]. unfold p. lia. Qed.

Lemma page_X : 0 <= X /\ X + 2 ^ k <= 2 ^ 64 /\ X mod 2 ^ k = 0.
Proof. destruct Hpg as [_ _ _ _ _ (H1 & H2 & _) H3 [H4 H5]]. unfold X. split; [|split; [|done]]; lia. Qed.

Lemma page_ldiff i : 0 <= i < 2 ^ k -> Z.ldiff (X + i) (2 ^ k - 1) = X.
Proof.
  intros Hi. pose proof (pg_k _ _ _ _ _ Hpg). destruct page_X as (_ & _ & Hx). rewrite ldiff_ones_mod by done.
  apply Z.mod_divide in Hx as [q Hq]; [|lia]. rewrite Hq, Z.add_comm, Z.mod_add, Z.mod_small by lia. lia.
Qed.

Lemma page_translated m : te_translated (te_iommu m addr ldmi lu) = X + (addr - p) /\ te_mask (te_iommu m addr ldmi lu) = 2 ^ k - 1.
Proof.
  destruct page_X as (H1 & H2 & _). pose proof page_addr as Ha. pose proof (pg_k _ _ _ _ _ Hpg) as Hk.
  assert (u64 (dmi_end ldmi - dmi_start ldmi) = 2 ^ k - 1) as Em.
  { rewrite u64_small; [|]; destruct Hpg as [_ Hs [H3 H4] _ _ _ _ _]; pose proof (Z.pow_pos_nonneg 2 k); lia. }
  unfold te_iommu. cbn [te_translated te_mask]. rewrite Em. split; [|done]. fold X.
  rewrite land_ones_mod, page_mod by done. rewrite (u64_small X) by lia. apply u64_small. lia.
Qed.

(** An entry whose translated address lies in the page's block maps the page as [ldmi] does. *)
Lemma page_target e i b : te_translated e = X + i -> te_mask e = 2 ^ k - 1 -> 0 <= i < 2 ^ k -> p <= b < p + 2 ^ k ->
  te_target e b = X + (b - p).
Proof.
  intros Et Em Hi Hb. unfold te_target. pose proof (pg_k _ _ _ _ _ Hpg). rewrite Em, Et, page_ldiff, land_ones_mod, page_mod by done. lia.
Qed.

Lemma page_fast e i b : te_translated e = X + i -> te_mask e = 2 ^ k - 1 -> 0 <= i < 2 ^ k -> p <= b < p + 2 ^ k ->
  te_translated (te_fast e b) = X + (b - p).
Proof.
  intros Et Em Hi Hb. destruct page_X as (H1 & H2 & _). pose proof (pg_k _ _ _ _ _ Hpg).
  unfold te_fast. cbn. rewrite Em, Et, page_ldiff, land_ones_mod, page_mod by done. apply u64_small. lia.
Qed.
End Page.

Lemma te_add_region_ok lu m : grant_ok lu -> om_wf (im_aliases_te m) ->
  (forall r, om_find (dmi_start lu) (im_aliases_te m) = Some r -> r = mk_region (dmi_ptr lu) (dmi_end lu - dmi_start lu + 1)) ->
  exists m', te_add_region lu m = Ret m' /\ im_te m' = im_te m /\
    om_find (dmi_start lu) (im_aliases_te m') = Some (mk_region (dmi_ptr lu) (dmi_end lu - dmi_start lu + 1)).
Proof.
  intros Hg Hwf Hsame. unfold te_add_region. destruct (om_find _ _) as [r|] eqn:Ef.
  - exists m. split; [done|]. split; [done|]. by rewrite Ef, (Hsame r eq_refl).
  - rewrite new_DmiRegion_ok by done. cbn [rbind]. eexists. split; [done|]. split; [done|]. cbn. by apply om_find_insert_eq.
Qed.

(** C17: behind an IOMMU, QEMU reaches the host memory that the target granted.  When a DMI
    request grants an aligned page, the translation handed to QEMU, and the cached one handed
    to it for any other address of the page later, lead every address of the page to the host
    address that the grant gives for it. *)
Theorem translate_reaches_grant {W} (bus : dma_bus W) runs customize m base addr k ldmi lu u t s s1 :
  page_grant base addr k ldmi lu ->
  om_wf (im_te m) -> om_wf (im_aliases_te m) -> te_find_region (im_te m) addr = None ->
  (forall j f, (j, f) ∈ im_te m -> j < dmi_start ldmi - base \/ dmi_start ldmi - base + 2 ^ k <= j) ->
  (forall r, om_find (dmi_start lu) (im_aliases_te m) = Some r -> r = mk_region (dmi_ptr lu) (dmi_end lu - dmi_start lu + 1)) ->
  dmi_request bus runs (init_payload customize TLM_IGNORE_COMMAND (u64 (base + addr)) [] 0) s = Ret (true, t, ldmi, u, s1) ->
  has_dmi u dmi_iommu = true -> get_last u dmi_iommu = Ret lu ->
  exists te m' r, dmi_translate bus runs customize m base addr s = Ret (te, m', s1) /\ te_as te = AsTe /\
    om_find (dmi_start lu) (im_aliases_te m') = Some r /\
    forall b, dmi_covers ldmi (base + b) ->
      (dmi_start lu <= te_target te b < dmi_start lu + dr_size r /\
       dr_ptr r + (te_target te b - dmi_start lu) = dmi_host ldmi (base + b)) /\
      forall s2, exists te', dmi_translate bus runs customize m' base b s2 = Ret (te', m', s2) /\ te_as te' = AsTe /\
        forall c, dmi_covers ldmi (base + c) -> te_target te' c = te_target te c.
Proof.
  intros Hpg Hwf Hwa Hnone Hap Hsame Hreq Hio Hlast. destruct (te_add_region_ok lu m (pg_lu _ _ _ _ _ Hpg) Hwa Hsame) as (m' & Em & Ete & Efr).
  set (te := te_iommu m' addr ldmi lu). destruct (page_translated Hpg m') as [Et Emk]. fold te in Et, Emk.
  pose proof (page_addr Hpg) as Ha. pose proof (pg_k _ _ _ _ _ Hpg) as Hk. set (p := dmi_start ldmi - base) in *.
  assert (Z.ldiff addr (te_mask te) = p) as Ekey. { rewrite Emk, ldiff_ones_mod, (page_mod Hpg) by done. unfold p. lia. }
  exists te, (te_cache addr te m'), (mk_region (dmi_ptr lu) (dmi_end lu - dmi_start lu + 1)).
  split; [|split; [done|split; [exact Efr|]]].
  { unfold dmi_translate. rewrite Hnone. unfold sm_bind at 1. rewrite Hreq. rewrite Hio. unfold sm_bind, lift_res. rewrite Hlast, Em. done. }
  assert (forall b, dmi_covers ldmi (base + b) -> p <= b < p + 2 ^ k) as Hcov.
  { intros b [H1 H2]. pose proof (pg_size _ _ _ _ _ Hpg). unfold p. lia. }
  intros b Hb%Hcov. rewrite (page_target Hpg te (addr - p) b) by (done || lia). split.
  - destruct (pg_block _ _ _ _ _ Hpg). unfold dmi_host, p in *. cbn. lia.
  - intros s2. exists (te_fast te b). split; [|split; [done|]].
    + unfold dmi_translate, te_cache. cbn [im_te set_te]. rewrite Ekey, Ete, (te_find_region_insert _ p te k); try done.
      destruct (pg_aligned _ _ _ _ _ Hpg) as [H1 H2]. unfold p. by rewrite Zminus_mod, H1, H2, Z.mod_0_l by lia.
    + intros c Hc%Hcov. rewrite (page_target Hpg te (addr - p) c) by (done || lia).
      apply (page_target Hpg _ (b - p)); [|done|lia|done]. by apply (page_fast Hpg te (addr - p) b); (done || lia).
Qed.

(** A bus whose target is a page behind an IOMMU: the block at host address 1048576 has the
    address 2147483648 there. *)
Definition page_bus : dma_bus unit :=
  mk_bus (fun _ _ => 0) (fun w _ _ => w) (fun t w => Ret (t, w))
    (fun t _ w => Ret (true,
       set_udmi (Some [mk_dmi_ex 0 (mk_dmi 0 65536 1114111 DMI_ACCESS_READ_WRITE) dmi_mapped;
                       mk_dmi_ex 1 (mk_dmi 1048576 2147483648 2148532223 DMI_ACCESS_READ_WRITE) dmi_iommu]) t,
       mk_dmi 1056768 69632 73727 DMI_ACCESS_READ_WRITE, w)).

Lemma translate_reaches_grant_witness :
  exists te m' s', dmi_translate page_bus (fun _ => true) id (new_iommu 1048576 12) 65536 4104 (new_socket new_dmi_manager tt) = Ret (te, m', s') /\
    te_target te 4104 = 2147483648 + 8200.
Proof.
  destruct (translate_reaches_grant page_bus (fun _ => true) id (new_iommu 1048576 12) 65536 4104 12
    (mk_dmi 1056768 69632 73727 DMI_ACCESS_READ_WRITE) (mk_dmi 1048576 2147483648 2148532223 DMI_ACCESS_READ_WRITE)
    [mk_dmi_ex 0 (mk_dmi 0 65536 1114111 DMI_ACCESS_READ_WRITE) dmi_mapped;
     mk_dmi_ex 1 (mk_dmi 1048576 2147483648 2148532223 DMI_ACCESS_READ_WRITE) dmi_iommu]
    (init_payload id TLM_IGNORE_COMMAND 69640 [] 0) (new_socket new_dmi_manager tt) (new_socket new_dmi_manager tt))
    as (te & m' & r & E & _ & Ef & Hb).
  - split; cbn; try lia; try done; unfold dmi_covers, grant_ok; cbn; lia.
  - apply om_wf_nil.
  - apply om_wf_nil.
  - reflexivity.
  - by intros j f ?%elem_of_nil.
  - done.
  - vm_compute. reflexivity.
  - reflexivity.
  - reflexivity.
  - exists te, m', (new_socket new_dmi_manager tt). split; [exact E|]. destruct (Hb 4104) as [[_ Ht] _]; [unfold dmi_covers; cbn; lia|].
    vm_compute in E. injection E as <- <-. reflexivity.
Defined.

(** ** Mapping a range *)

Lemma qemu_map_loop_ends {W} (bus : dma_bus W) runs page asyncr fuel limit cur t s b s' :
  0 <= cur < 2 ^ 64 -> limit < 2 ^ 64 -> Z.max 0 (limit - cur) < Z.of_nat fuel ->
  qemu_map_loop bus runs page asyncr fuel limit cur t s = Ret (b, s') -> b = true.
Proof.
  revert cur t s. induction fuel as [|fuel IH]; intros cur t s Hc Hl Hf; cbn [qemu_map_loop].
  - lia.
  - destruct (Z.ltb_spec cur limit) as [Hlt|]; [|by intros [= <-]].
    intros ([d t'] & s1 & _ & H)%sm_bind_Ret. apply sm_bind_Ret in H as ([] & s2 & Ha & H).
    unfold sm_assert in Ha. destruct (Z.leb_spec cur (dmi_end d)); [|done].
    destruct (Z.leb_spec limit (dmi_end d)); [by injection H as <-|]. rewrite u64_small in H by lia.
    apply IH in H; [done|lia|done|lia].
Qed.

(** mapping a range comes to an end for every behaviour of the targets: each turn moves on
    by at least one address, so that the length of the range bounds the number of turns. *)
Theorem qemu_map_ends {W} (bus : dma_bus W) runs customize page asyncr addr len s :
  0 <= addr < 2 ^ 64 -> 0 <= len < 2 ^ 64 ->
  (exists s', qemu_map bus runs customize page asyncr addr len s = Ret (true, s')) \/
  (exists e, qemu_map bus runs customize page asyncr addr len s = Err e).
Proof.
  intros Ha Hl. destruct (qemu_map _ _ _ _ _ _ _ _) as [[b s']|e] eqn:E; [left|by right; exists e]. exists s'.
  unfold qemu_map, sm_bind at 1, sm_get in E. destruct (qi_finished s); [by injection E as <- <-|].
  pose proof (u64_range (addr + len)) as Hu. assert (u64 (addr + len) - addr <= len).
  { unfold wrap in *. pose proof (Z.mod_le (addr + len) (2 ^ 64)). lia. }
  apply qemu_map_loop_ends in E; [by subst|done|lia|lia].
Qed.

Lemma qemu_map_ends_witness :
  exists s', qemu_map page_bus (fun _ => true) id 12 true 69632 4096 (new_socket new_dmi_manager tt) = Ret (true, s').
Proof.
  destruct (qemu_map_ends page_bus (fun _ => true) id 12 true 69632 4096 (new_socket new_dmi_manager tt)) as [H|[e H]];
    [lia|lia|exact H|vm_compute in H; done].
Defined.
