(* ===== verification/RegRouter.v ===== *)
(** * The register router

    [reg_router.h]: a bus access to a block of registers goes to the callbacks of the
    registers that claim the address, then to the memory that holds their values, then to
    the callbacks again. *)

From stdpp Require Import base list numbers option strings gmap.
From Stdlib Require Import Ascii.
From S2P Require Import Prelude OrdMap Monad Registers Tlm AddrMapCache RegBank RegProxy Cci.

(** ** State *)

Record reg_router : Type := mk_rr {
  rr_name : string;
  rr_bound : list tref;
  rr_mem : list tref;
  rr_cb : list (Z * tref);
  rr_modules : omap (Z * string);
  rr_initialized : bool;
  rr_lazy_init : bool;
  rr_fresh : nat;
}.

(** The constructor. *)
Definition new_reg_router (nm : string) (modules : omap (Z * string)) (lazy : bool) : reg_router :=
  mk_rr nm [] [] [] modules false lazy 0.

(** [register_boundto]. *)
Definition rr_register_boundto (s : string) (r : reg_router) : reg_router :=
  let ti := mk_target (length (rr_bound r)) s 0 0 0 false false false (drop_common (rr_name r) s) 0 0 [] [] in
  mk_rr (rr_name r) (rr_bound r ++ [mk_tref (rr_fresh r) ti]) (rr_mem r) (rr_cb r) (rr_modules r)
    (rr_initialized r) (rr_lazy_init r) (S (rr_fresh r)).

(** ** Configuration *)

(** [std::multimap::insert]: behind the entries of the same key. *)
Fixpoint mm_insert (k : Z) (v : tref) (l : list (Z * tref)) : list (Z * tref) :=
  match l with
  | [] => [(k, v)]
  | (k', v') :: l' => if k <? k' then (k, v) :: l else (k', v') :: mm_insert k v l'
  end.

(** The index vectors [banks_element_overlap] goes through, the last dimension fastest; an
    empty dimension is visited once. *)
Fixpoint grid (counts : list Z) : list (list Z) :=
  match counts with
  | [] => [[]]
  | c :: counts' => flat_map (fun i => map (cons (Z.of_nat i)) (grid counts')) (seq 0 (Z.to_nat (Z.max 1 c)))
  end.

(** Whether [t] claims one of the addresses. *)
Fixpoint claims_one (t : target_info) (addrs : list Z) : res bool :=
  match addrs with
  | [] => Ret false
  | a :: addrs' => let? c := claims t a in if (c : bool) then Ret true else claims_one t addrs'
  end.

(** [banks_element_overlap]. *)
Definition banks_element_overlap (a b : target_info) : res bool :=
  let strides := match ti_dim_strides a with [] => [ti_stride a] | l => l end in
  let counts := match ti_dim_counts a with [] => [1] | l => l end in
  claims_one b
    (flat_map (fun idx => map (fun k => u64 (ti_address a + dot idx strides 0 + Z.of_nat k)) (seq 0 (Z.to_nat (ti_elem_size a))))
       (grid (take (length strides) counts))).

(** A warning: the two targets, and whether it is about their elements. *)
Definition overlap_warning (ti mem : target_info) : res (list (string * string)) :=
  let overlaps :=
    ((ti_address mem <=? ti_address ti) && (ti_address ti - ti_address mem <? ti_size mem)) ||
    ((ti_address ti <? ti_address mem) && (ti_address mem <? u64 (ti_address ti + ti_size ti))) in
  let gapped t := negb (ti_stride t =? 0) || negb (length (ti_dim_strides t) =? 0)%nat in
  if negb overlaps then Ret []
  else if negb (gapped ti) || negb (gapped mem) then Ret [(ti_name ti, ti_name mem)]
  else let? o := banks_element_overlap ti mem in Ret (if (o : bool) then [(ti_name ti, ti_name mem)] else []).

Fixpoint overlap_warnings (ti : target_info) (mems : list tref) : res (list (string * string)) :=
  match mems with
  | [] => Ret []
  | m :: mems' =>
      let? x := overlap_warning ti (t_obj m) in
      let? y := overlap_warnings ti mems' in
      Ret (x ++ y)
  end.

Section Config.
Context {B : Type} `{CciBroker B}.

(** The [target_info] of a bound target, completed from the configuration. *)
Definition rr_configure (b : B) (t : tref) : res tref :=
  let ti := t_obj t in
  let name := ti_name ti in
  let? a := cci_get (try_u64 (preset b (name +:+ ".address"))) in
  let? sz := cci_get (try_u64 (preset b (name +:+ ".size"))) in
  let uo := cci_get_d (try_bool (preset b (name +:+ ".relative_addresses"))) true in
  let cb := cci_get_d (try_bool (preset b (name +:+ ".is_callback"))) false in
  let pr := cci_get_d (try_u32 (preset b (name +:+ ".priority"))) 0 in
  let stride := cci_get_d (try_u64 (preset b (name +:+ ".stride"))) 0 in
  let elem := cci_get_d (try_u64 (preset b (name +:+ ".elem_size"))) 0 in
  let strides_str := cci_get_d (try_string (preset b (name +:+ ".dim_strides"))) EmptyString in
  let counts_str := cci_get_d (try_string (preset b (name +:+ ".dim_counts"))) EmptyString in
  let? dims :=
    match strides_str, counts_str with
    | String _ _, String _ _ =>
        let? ss := parse_u64_csv strides_str in
        let? cs := parse_u64_csv counts_str in
        if (length ss =? length cs)%nat then Ret (ss, cs) else Err StopFatal
    | _, _ => Ret (ti_dim_strides ti, ti_dim_counts ti)
    end in
  Ret (mk_tref (t_id t)
         (mk_target (ti_index ti) name a sz pr uo cb (ti_chained ti) (ti_shortname ti) stride elem dims.1 dims.2)).

(** The loop of [lazy_initialize]: configured targets, memories, callbacks and warnings. *)
Fixpoint rr_init (b : B) (ts : list tref) (mems : list tref) (cbs : list (Z * tref))
    : res (list tref * list tref * list (Z * tref) * list (string * string)) :=
  match ts with
  | [] => Ret ([], mems, cbs, [])
  | t :: ts' =>
      let? t := rr_configure b t in
      if ti_is_callback (t_obj t) then
        let? x := rr_init b ts' mems (mm_insert (ti_address (t_obj t)) t cbs) in
        let '(l, m, c, ws) := x in Ret (t :: l, m, c, ws)
      else
        let? w := overlap_warnings (t_obj t) mems in
        let? x := rr_init b ts' (mems ++ [t]) cbs in
        let '(l, m, c, ws) := x in Ret (t :: l, m, c, w ++ ws)
  end.

(** [lazy_initialize], with the warnings. *)
Definition rr_lazy_initialize (b : B) (r : reg_router) : res (reg_router * list (string * string)) :=
  if rr_initialized r then Ret (r, [])
  else
    let? x := rr_init b (rr_bound r) (rr_mem r) (rr_cb r) in
    let '(l, m, c, ws) := x in
    Ret (mk_rr (rr_name r) l m c (rr_modules r) true (rr_lazy_init r) (rr_fresh r), ws).

Definition rr_before_end_of_elaboration (b : B) (r : reg_router) : res (reg_router * list (string * string)) :=
  if rr_lazy_init r then Ret (r, []) else rr_lazy_initialize b r.

(** ** Decoding *)

(** The loop of [decode_address]. *)
Fixpoint decode_mem (addr : Z) (mems : list tref) (best : option tref) : res (option tref) :=
  match mems with
  | [] => Ret best
  | ti :: mems' =>
      let? c := claims (t_obj ti) addr in
      if negb c then decode_mem addr mems' best
      else match best with
           | None => decode_mem addr mems' (Some ti)
           | Some bt =>
               if ti_priority (t_obj ti) <? ti_priority (t_obj bt) then decode_mem addr mems' (Some ti)
               else if (ti_priority (t_obj ti) =? ti_priority (t_obj bt)) && negb (t_id ti =? t_id bt)%nat then Err StopFatal
               else decode_mem addr mems' best
           end
  end.

Definition rr_decode_address (b : B) (t : payload) (r : reg_router) : res (option tref * reg_router) :=
  let? x := rr_lazy_initialize b r in
  let? o := decode_mem (address t) (rr_mem x.1) None in
  Ret (o, x.1).

(** [get_module_name]: the address of the module, if one is found. *)
Definition get_module_name (addr : Z) (m : omap (Z * string)) : option Z :=
  let '(before, after) := om_upper addr m in
  match om_find addr m with
  | Some (size, _) => if 0 <? size then Some addr else None
  | None => match last before with
            | Some (start, (size, _)) => if addr - start <? size then Some start else None
            | None => None
            end
  end.

(** ** Transport *)

Context {W : Type}.
Context (target_b_transport : nat -> payload -> W -> res (payload * W)).
Context (target_transport_dbg : nat -> payload -> W -> res (Z * payload * W)).
Context (pre_b_transport_callback : option (bool -> Z -> W -> res W)).

(** The call of one target, with its own addresses. *)
Definition call_target (ti : target_info) (addr : Z) (t : payload) (w : W) : res (payload * W) :=
  let t := if ti_use_offset ti then set_address (u64 (addr - ti_address ti)) t else t in
  let? x := target_b_transport (ti_index ti) t w in
  let '(t, w) := x in
  Ret (if ti_use_offset ti then set_address addr t else t, w).

(** The claimants of best priority, in the order of the multimap. *)
Fixpoint collect_claimants (addr : Z) (cbs : list (Z * tref)) (cl : list tref) (best : Z) : res (list tref) :=
  match cbs with
  | [] => Ret cl
  | (_, cand) :: cbs' =>
      let? c := claims (t_obj cand) addr in
      let p := ti_priority (t_obj cand) in
      if negb c then collect_claimants addr cbs' cl best
      else if (length cl =? 0)%nat || (p <? best) then collect_claimants addr cbs' [cand] p
      else if p =? best then collect_claimants addr cbs' (cl ++ [cand]) best
      else collect_claimants addr cbs' cl best
  end.

(** The fan-out: until one of them reports an error. *)
Fixpoint fan_out (addr : Z) (cl : list tref) (t : payload) (w : W) : res (payload * W) :=
  match cl with
  | [] => Ret (t, w)
  | ti :: cl' =>
      let? x := call_target (t_obj ti) addr t w in
      let '(t, w) := x in
      if status_code (response t) <=? status_code TLM_GENERIC_ERROR_RESPONSE then Ret (t, w)
      else fan_out addr cl' t w
  end.

Definition do_callbacks (r : reg_router) (t : payload) (w : W) : res (payload * W) :=
  let? cl := collect_claimants (address t) (rr_cb r) [] 0 in
  fan_out (address t) cl t w.

Definition module_callback (addr : Z) (r : reg_router) (w : W) : res W :=
  match pre_b_transport_callback with
  | None => Ret w
  | Some cb => let found := get_module_name addr (rr_modules r) in
               cb (match found with Some _ => true | None => false end) (default 0 found) w
  end.

(** [b_transport]. *)
Definition rr_b_transport (b : B) (t : payload) (r : reg_router) (w : W) : res (payload * reg_router * W) :=
  let addr := address t in
  let? x := rr_decode_address b t r in
  let '(o, r) := x in
  match o with
  | None => Ret (set_response_status TLM_ADDRESS_ERROR_RESPONSE t, r, w)
  | Some tr =>
      let? w := module_callback addr r w in
      let? x := do_callbacks r t w in
      let '(t, w) := x in
      let? x :=
        if status_code TLM_INCOMPLETE_RESPONSE <=? status_code (response t) then call_target (t_obj tr) addr t w
        else Ret (t, w) in
      let '(t, w) := x in
      let? x := if status_code TLM_OK_RESPONSE <=? status_code (response t) then do_callbacks r t w else Ret (t, w) in
      let '(t, w) := x in
      Ret (if (0 <? length (rr_cb r))%nat then set_dmi_allowed false t else t, r, w)
  end.

(** [transport_dbg]. *)
Definition rr_transport_dbg (b : B) (t : payload) (r : reg_router) (w : W) : res (Z * payload * reg_router * W) :=
  let addr := address t in
  let? x := rr_decode_address b t r in
  let '(o, r) := x in
  match o with
  | None => Ret (0, set_response_status TLM_ADDRESS_ERROR_RESPONSE t, r, w)
  | Some tr =>
      let ti := t_obj tr in
      let? w := module_callback addr r w in
      let t := if ti_use_offset ti then set_address (u64 (addr - ti_address ti)) t else t in
      let? x := target_transport_dbg (ti_index ti) t w in
      let '(n, t, w) := x in
      Ret (n, if ti_use_offset ti then set_address addr t else t, r, w)
  end.

(** [get_direct_mem_ptr]. *)
Definition rr_get_direct_mem_ptr : bool := false.

End Config.

(** ** Claimants *)

(** The targets of a list that claim an address, and those of them that no other claimant
    precedes in priority. *)
Definition claimants (addr : Z) (l : list tref) : list tref :=
  filter (fun t => claims (t_obj t) addr = Ret true) l.
Definition strongest_of (l : list tref) : list tref :=
  filter (fun t => Forall (fun t' => ti_priority (t_obj t) <= ti_priority (t_obj t')) l) l.
Definition strongest (addr : Z) (l : list tref) : list tref := strongest_of (claimants addr l).

(** Every claim can be decided: strides are not zero and there is a count for each. *)
Definition claims_total (addr : Z) (l : list tref) : Prop := Forall (fun t => exists c, claims (t_obj t) addr = Ret c) l.

Lemma claimants_cons addr t l c : claims (t_obj t) addr = Ret c ->
  claimants addr (t :: l) = (if c then [t] else []) ++ claimants addr l.
Proof.
  intros E. unfold claimants. rewrite filter_cons. destruct c.
  - by rewrite decide_True.
  - rewrite decide_False; [done|]. by rewrite E.
Qed.

Lemma filter_all {A} (P : A -> Prop) `{!forall x, Decision (P x)} l : Forall P l -> filter P l = l.
Proof. induction 1 as [|x l Hx _ IH]; [done|]. rewrite filter_cons, decide_True by done. by rewrite IH. Qed.

(** Candidates that are weaker than another one do not matter. *)
Lemma strongest_drop l1 x l2 y :
  y ∈ l1 ++ l2 -> ti_priority (t_obj y) < ti_priority (t_obj x) -> strongest_of (l1 ++ x :: l2) = strongest_of (l1 ++ l2).
Proof.
  intros Hy Hlt. unfold strongest_of. rewrite !filter_app, filter_cons, decide_False.
  - assert (forall t, Forall (fun t' => ti_priority (t_obj t) <= ti_priority (t_obj t')) (l1 ++ x :: l2) <->
      Forall (fun t' => ti_priority (t_obj t) <= ti_priority (t_obj t')) (l1 ++ l2)) as Hiff.
    { intros t. rewrite !Forall_app, Forall_cons. split; [tauto|]. intros [H1 H2]. split_and!; try done.
      assert (Forall (fun t' => ti_priority (t_obj t) <= ti_priority (t_obj t')) (l1 ++ l2)) as H by by apply Forall_app.
      rewrite Forall_forall in H. specialize (H y Hy). lia. }
    f_equal; apply list_filter_iff; done.
  - rewrite Forall_forall. intros H. specialize (H y). rewrite elem_of_app, elem_of_cons in H. rewrite elem_of_app in Hy.
    enough (ti_priority (t_obj x) <= ti_priority (t_obj y)) by lia. apply H. tauto.
Qed.

Lemma strongest_drop_all l1 l2 y :
  y ∈ l2 -> Forall (fun x => ti_priority (t_obj y) < ti_priority (t_obj x)) l1 -> strongest_of (l1 ++ l2) = strongest_of l2.
Proof.
  intros Hy. induction 1 as [|x l1 Hx _ IH]; [done|]. rewrite <- IH. change ((x :: l1) ++ l2) with ([] ++ x :: (l1 ++ l2)).
  apply (strongest_drop [] x (l1 ++ l2) y); [|done]. cbn [app]. apply elem_of_app. by right.
Qed.

Lemma collect_ok addr cbs : claims_total addr (cbs.*2) -> forall cl best,
  Forall (fun t => ti_priority (t_obj t) = best) cl ->
  collect_claimants addr cbs cl best = Ret (strongest_of (cl ++ claimants addr (cbs.*2))).
Proof.
  induction cbs as [|[k t] cbs IH]; intros Ht cl best Hcl; cbn [collect_claimants fmap list_fmap snd].
  { unfold strongest_of. rewrite app_nil_r. f_equal. symmetry. apply filter_all. apply Forall_forall. intros x Hx.
    rewrite Forall_forall in Hcl |- *. intros y Hy. rewrite (Hcl x Hx), (Hcl y Hy). lia. }
  inversion_clear Ht as [|?? [c Hc] Htot]. rewrite Hc. cbn [rbind]. rewrite (claimants_cons _ _ _ _ Hc). destruct c; cbn [negb].
  2: { by apply IH. }
  destruct (Nat.eqb_spec (length cl) 0) as [->%nil_length_inv|Hne]; cbn [orb].
  { rewrite IH; [done|done|by constructor]. }
  assert (exists y, y ∈ cl) as [y Hy] by (destruct cl as [|y cl]; [done|exists y; by left]).
  rewrite Forall_forall in Hcl. destruct (Z.ltb_spec (ti_priority (t_obj t)) best) as [Hlt|Hge].
  - rewrite IH by (done || by constructor). f_equal. symmetry. apply (strongest_drop_all cl _ t); [by left|].
    apply Forall_forall. intros z Hz. rewrite (Hcl z Hz). lia.
  - destruct (Z.eqb_spec (ti_priority (t_obj t)) best) as [He|Hn].
    + rewrite IH; [by rewrite <- app_assoc|done|]. apply Forall_app. split; [by apply Forall_forall|by constructor].
    + rewrite IH; [|done|by apply Forall_forall]. f_equal. symmetry. apply (strongest_drop cl t _ y); [apply elem_of_app; by left|].
      rewrite (Hcl y Hy). lia.
Qed.

Lemma strongest_single t : strongest_of [t] = [t].
Proof. unfold strongest_of. apply filter_all. repeat constructor. lia. Qed.

(** A memory that is decoded is the only strongest one. *)
Lemma decode_mem_ok addr mems : claims_total addr mems -> forall best o,
  NoDup (t_id <$> option_list best ++ mems) -> decode_mem addr mems best = Ret o ->
  strongest_of (option_list best ++ claimants addr mems) = option_list o.
Proof.
  induction mems as [|t mems IH]; intros Ht best o Hnd; cbn [decode_mem].
  { intros [= <-]. rewrite app_nil_r. destruct best as [bt|]; [apply strongest_single|done]. }
  inversion_clear Ht as [|?? [c Hc] Htot]. rewrite Hc. cbn [rbind]. rewrite (claimants_cons _ _ _ _ Hc).
  destruct best as [bt|]; cbn [option_list app fmap list_fmap] in *.
  - apply NoDup_cons in Hnd as [Hni Hnd]. pose proof Hnd as [_ Hnd']%NoDup_cons. rewrite elem_of_cons in Hni.
    assert (NoDup (t_id bt :: (t_id <$> mems))) as Hbt by (apply NoDup_cons; tauto).
    destruct c; cbn [negb app]; [|by apply (IH Htot (Some bt))].
    destruct (Z.ltb_spec (ti_priority (t_obj t)) (ti_priority (t_obj bt))) as [Hlt|Hge].
    + intros E. rewrite (strongest_drop_all [bt] _ t); [|by left|by constructor]. by apply (IH Htot (Some t)).
    + destruct (Z.eqb_spec (ti_priority (t_obj t)) (ti_priority (t_obj bt))) as [He|Hn]; cbn [andb].
      * destruct (Nat.eqb_spec (t_id t) (t_id bt)); [|done]. exfalso. apply Hni. by left.
      * intros E. rewrite (strongest_drop [bt] t _ bt); [by apply (IH Htot (Some bt))|by left|lia].
  - destruct c; cbn [negb app]; [by apply (IH Htot (Some t))|]. apply (IH Htot None). by apply NoDup_cons in Hnd as [_ ?].
Qed.

(** Distinct priorities never collide. *)
Lemma decode_mem_total addr mems : claims_total addr mems -> forall best,
  NoDup ((fun t => ti_priority (t_obj t)) <$> option_list best ++ claimants addr mems) ->
  exists o, decode_mem addr mems best = Ret o.
Proof.
  induction mems as [|t mems IH]; intros Ht best Hnd; cbn [decode_mem]; [eauto|].
  inversion_clear Ht as [|?? [c Hc] Htot]. rewrite Hc. cbn [rbind]. rewrite (claimants_cons _ _ _ _ Hc) in Hnd.
  destruct c; cbn [negb app] in *; [|by apply IH]. destruct best as [bt|]; cbn [option_list app fmap list_fmap] in *; [|by apply (IH Htot (Some t))].
  apply NoDup_cons in Hnd as [Hni Hnd]. pose proof Hnd as [Hni' Hnd']%NoDup_cons. rewrite elem_of_cons in Hni.
  destruct (_ <? _); [by apply (IH Htot (Some t))|].
  destruct (Z.eqb_spec (ti_priority (t_obj t)) (ti_priority (t_obj bt))) as [He|_]; cbn [andb].
  - exfalso. apply Hni. by left.
  - apply (IH Htot (Some bt)). cbn. apply NoDup_cons. tauto.
Qed.

(** ** Registers behind the router *)

Section Registers.
Context {B : Type} `{CciBroker B} {M : Type} (bus : dma_bus M).

(** What the initiator socket is bound to: the memory at one index, registers at others. *)
Definition reg_targets (mem_index : nat) (regs : gmap nat gs_register) (i : nat) (t : payload) (w : reg_world M)
    : res (payload * reg_world M) :=
  if decide (i = mem_index) then
    match bus_transport bus t (rw_mem w) with
    | Ret (t, m) => Ret (t, mk_world m (rw_regs w))
    | Err e => Err e
    end
  else match regs !! i with Some g => port_b_transport bus g t w | None => Err StopUndef end.

Context `{!RegMemory bus} `{!RegMemoryLaws bus}.

(** Claims can be decided, and no two targets are the same object. *)
Definition rr_ok (r : reg_router) (addr : Z) : Prop :=
  rr_initialized r = true /\ claims_total addr (rr_mem r) /\ claims_total addr (rr_cb r).*2 /\
  NoDup (t_id <$> rr_mem r).

(** The write finds the memory at its own addresses and the register as the only strongest
    callback target. *)
Record write_routed (rr : reg_router) (addr : Z) (mt gt : tref) (p : proxy) : Prop := {
  wr_ok : rr_ok rr addr;
  wr_mem : decode_mem addr (rr_mem rr) None = Ret (Some mt);
  wr_mem_addr : ti_address (t_obj mt) = 0;
  wr_cb : strongest addr (rr_cb rr).*2 = [gt];
  wr_cb_addr : ti_use_offset (t_obj gt) = true /\ ti_address (t_obj gt) = px_offset p;
  wr_index : ti_index (t_obj gt) <> ti_index (t_obj mt);
  wr_relative : px_relative p = true;
}.

Lemma do_callbacks_single W tb rr (t : payload) (w : W) gt :
  rr_ok rr (address t) -> strongest (address t) (rr_cb rr).*2 = [gt] ->
  do_callbacks tb rr t w = call_target tb (t_obj gt) (address t) t w.
Proof.
  intros (_ & _ & Hc & _) Hs. unfold do_callbacks. rewrite collect_ok by done. cbn [app rbind].
  change (strongest_of (claimants (address t) (rr_cb rr).*2)) with (strongest (address t) (rr_cb rr).*2). rewrite Hs. cbn [fan_out].
  destruct (call_target _ _ _ _ _) as [[t' w']|]; [|done]. cbn [rbind]. by destruct (_ <=? _).
Qed.

(** What a bus write leaves for the post callbacks. *)
Definition post_write_state (p : proxy) (t : payload) (idx : Z) (vs : list Z) (w : reg_world M) (t3 : payload) (w3 : reg_world M) : Prop :=
  data t3 = unchunks (px_bytes p) vs /\ response t3 = TLM_OK_RESPONSE /\ command t3 = TLM_WRITE_COMMAND /\
  address t3 = px_stride p * idx /\
  contents_eq (rm_rd (rw_mem w3)) (write_at (rm_rd (rw_mem w)) (address t) (unchunks (px_bytes p) vs)).

(** The pass through the memory. *)
Lemma mem_pass mt regs t w :
  ti_address (t_obj mt) = 0 -> command t = TLM_WRITE_COMMAND -> byt t = None -> data_length t = Z.of_nat (length (data t)) ->
  Forall (fun x => 0 <= x < 256) (data t) -> 0 <= address t < 2 ^ 64 -> address t + data_length t <= rm_limit ->
  exists t' m, call_target (reg_targets (ti_index (t_obj mt)) regs) (t_obj mt) (address t) t w = Ret (t', mk_world m (rw_regs w)) /\
    t' = set_dmi_allowed (dmi_allowed t') (set_response_status TLM_OK_RESPONSE t) /\
    contents_eq (rm_rd m) (write_at (rm_rd (rw_mem w)) (address t) (data t)) /\ host_kept (rw_mem w) m.
Proof.
  intros Hma Hc Hb Hl Hby Ha Hlim. unfold call_target, reg_targets. rewrite decide_True, Hma, Z.sub_0_r, u64_small by done.
  assert ((if ti_use_offset (t_obj mt) then set_address (address t) t else t) = t) as -> by (destruct t, (ti_use_offset (t_obj mt)); done).
  destruct (rml_write (bus := bus) t (rw_mem w)) as (t' & m & -> & Ht' & Hcon & Hh); [done|done|done|done|lia|done|].
  cbn [rbind]. do 2 eexists. split; [done|]. split; [|by split]. rewrite Ht'. destruct t, (ti_use_offset (t_obj mt)); done.
Qed.

(** Where a masked write ends. *)
Lemma masked_write_end p t idx count : proxy_ok bus p -> masked_write p t idx count ->
  0 <= px_stride p * idx /\ u64 (px_stride p * idx) = px_stride p * idx /\
  px_stride p * idx + Z.of_nat (length (data t)) <= px_span p.
Proof.
  intros Hp [_ _ Hdl _ Hcnt [Hi0 Hin] Hcg]. destruct (elem_range bus p Hp idx) as (Hs0 & Hs1 & Hsu & _); [lia|].
  split; [done|]. split; [done|]. rewrite Hdl. destruct (elem_range bus p Hp (idx + Z.of_nat count - 1)) as (_ & H2 & _); [lia|].
  pose proof (po_bytes p Hp). destruct Hcg as [->|Hc]; [rewrite Nat.mul_1_r; lia|]. rewrite Hc in *. nia.
Qed.

(** The passes through the register, before and after the memory. *)
Lemma register_pass rr mt gt p regs g t w :
  write_routed rr (address t) mt gt p -> regs !! ti_index (t_obj gt) = Some g ->
  do_callbacks (reg_targets (ti_index (t_obj mt)) regs) rr t w =
  (do! t' := port_b_transport bus g (set_address (u64 (address t - px_offset p)) t) in sm_ret (set_address (address t) t')) w.
Proof.
  intros [Hok _ _ Hcb [Huse Hga] Hix _] Hreg. rewrite (do_callbacks_single _ _ _ _ _ gt) by done. unfold call_target.
  rewrite Huse, Hga. unfold reg_targets. rewrite decide_False, Hreg by done. unfold sm_bind.
  by destruct (port_b_transport _ _ _ _) as [[t' w']|].
Qed.

Lemma bus_write_masked b rr mt gt regs g t idx count w :
  let p := gr_proxy g in
  write_routed rr (address t) mt gt p -> regs !! ti_index (t_obj gt) = Some g -> px_bank p = None ->
  has_callbacks g = true -> (forall t w, run_callbacks (gr_pre_write g) t w = Ret (t, w)) ->
  proxy_ok bus p -> dmi_ok bus p w -> rs_in_callback (reg_of p w) = false -> masked_state p (reg_of p w) ->
  response t = TLM_INCOMPLETE_RESPONSE -> byt t = None -> masked_write p t idx count ->
  address t = px_offset p + px_stride p * idx ->
  exists t3 w3, post_write_state p t idx (merged p (reg_of p w) (rm_rd (rw_mem w)) t idx count) w t3 w3 /\
    rr_b_transport (reg_targets (ti_index (t_obj mt)) regs) None b t rr w =
    match run_callbacks (gr_post_write g) t3 w3 with
    | Ret (t4, w4) => Ret (set_dmi_allowed false (set_address (address t) t4), rr,
                           put_reg p (set_rs_in_callback false (reg_of p w4)) w4)
    | Err e => Err e
    end.
Proof.
  intros p Hwr Hreg Hbank Hhas Hpre Hp Hd Hin Hms Hresp Hbyt Hmw Haddr. pose proof Hwr as [(Hinit & _) Hmem Hma Hcb _ _ Hrel].
  pose proof (masked_write_end p t idx count Hp Hmw) as (Hs0 & Hsu & Hend). pose proof (po_stride p Hp). pose proof (po_bytes p Hp).
  pose proof (po_fits p Hp). pose proof (po_offset p Hp). pose proof (rml_limit (bus := bus)). pose proof Hmw as [Hcmd Hby _ Hlen _ _ _].
  assert (u64 (address t - px_offset p) = px_stride p * idx) as Hrelad by (rewrite Haddr; replace (_ - _) with (px_stride p * idx) by lia; done).
  assert (forall u, address u = px_stride p * idx -> txn_index p u = idx) as Hidx.
  { intros u Hu. unfold txn_index. rewrite Hrel, Hu, Z.mul_comm. apply Z.div_mul. lia. }
  unfold rr_b_transport, rr_decode_address, rr_lazy_initialize. rewrite Hinit. cbn [rbind fst]. rewrite Hmem. cbn [rbind module_callback].
  rewrite (register_pass rr mt gt p regs g) by done. rewrite Hrelad. unfold sm_bind at 1.
  destruct (port_pre bus p Hp g (set_address (px_stride p * idx) t) w idx count) as (w1 & -> & [Hm1 [d1 Hd1] Hk1]); try done; [by destruct Hmw|by apply Hidx|].
  cbn [rbind sm_ret]. set (t2 := set_address (address t) _). change (response t2) with (response t). rewrite Hresp.
  cbn [status_code Z.leb Z.compare]. change (call_target _ (t_obj mt) (address t)) with (call_target (reg_targets (ti_index (t_obj mt)) regs) (t_obj mt) (address t2)).
  destruct (mem_pass mt regs t2 w1) as (t4 & m & -> & Ht4 & Hc & Hh); [done..|cbn; lia|cbn; lia|]. cbn [rbind].
  assert (response t4 = TLM_OK_RESPONSE /\ address t4 = address t /\ data t4 = data t /\ masked_write p (set_address (px_stride p * idx) t4) idx count)
    as (Ht4r & Ht4a & Ht4d & Hmw4) by (rewrite Ht4; destruct Hmw; by split_and!).
  rewrite Ht4r. cbn [status_code Z.leb Z.compare Pos.compare Pos.compare_cont].
  rewrite (register_pass rr mt gt p regs g) by (done || by rewrite Ht4a). rewrite Ht4a, Hrelad.
  set (t5 := set_address (px_stride p * idx) t4) in *. set (f := rm_rd (rw_mem w)) in *.
  set (s := set_rs_captured (unchunks (px_bytes p) (old_values p f idx count)) (reg_of p w)) in *.
  assert (reg_step bus p (write_at f (px_offset p + px_stride p * idx) (data t5)) s (mk_world m (rw_regs w1))) as Hstep.
  { destruct (effect_step bus p _ _ _ (effect_mem bus p w1 m _ Hk1 Hc Hh)) as [H1' H2' H3']. split; [|by exists d1|done].
    etrans; [exact H1'|]. rewrite Hm1, <- Haddr. cbn. by rewrite Ht4d. }
  destruct (port_post bus p Hp g t5 _ f s idx count Logic.eq_refl Hhas Hstep) as (w3 & [Hm3 Hd3 Hk3] & E); try done.
  { intros. apply (rml_byte (bus := bus)). } { by destruct Hms. } { by apply Hidx. }
  assert (merged p s f t5 idx count = merged p (reg_of p w) f t idx count) as Hmg by (unfold merged; cbn; by rewrite Ht4d).
  rewrite Hmg in Hm3, E. exists (set_data (unchunks (px_bytes p) (merged p (reg_of p w) f t idx count)) t5), w3. split.
  - unfold post_write_state. rewrite Haddr. split_and!; [done|exact Ht4r|exact (mw_command _ _ _ _ Hmw4)|done|done].
  - unfold sm_bind at 1. rewrite E. unfold sm_bind. destruct (run_callbacks _ _ w3) as [[t6 w6]|]; [|done]. cbn. fold p.
    destruct (rr_cb rr) as [|e l]; [done|]. done.
Qed.

End Registers.

Lemma strongest_nonempty l : strongest_of l = [] -> l = [].
Proof.
  destruct l as [|t l]; [done|]. intros Hs. exfalso.
  assert (exists m, m ∈ t :: l /\ Forall (fun t' => ti_priority (t_obj m) <= ti_priority (t_obj t')) (t :: l)) as (m & Hm & Hall).
  { clear Hs. revert t. induction l as [|x l IH]; intros t.
    - exists t. split; [by left|]. repeat constructor. lia.
    - destruct (IH x) as (m & Hm & Hall). destruct (Z.leb_spec (ti_priority (t_obj m)) (ti_priority (t_obj t))).
      + exists m. split; [by right|]. by constructor.
      + exists t. split; [by left|]. constructor; [lia|]. eapply Forall_impl; [done|]. intros y. simpl. lia. }
  assert (m ∈ strongest_of (t :: l)) as H by (unfold strongest_of; by apply list_elem_of_filter). rewrite Hs in H.
  by apply elem_of_nil in H.
Qed.

Lemma encode_vec_nonempty v : Forall (in_width 64) v -> v <> [] -> exists c s, encode_vec v = String c s.
Proof.
  destruct v as [|z v]; [done|]. inversion_clear 1 as [|?? Hz _]. intros _.
  assert (exists s, encode_vec (z :: v) = dec_digits 20 z s) as [s ->].
  { destruct v as [|z' v]; [exists EmptyString|exists (String ","%char (encode_vec (z' :: v)))]; done. }
  destruct (dec_digits_head 20 z s (u64_digits z Hz) ltac:(lia)) as (d & s' & -> & _). eauto.
Qed.

(** ** Properties *)

(** C19: A bus write of whole elements, at the address of the first of them, to a register with
    one write mask for all its elements and with callbacks, of which those before a write change
    nothing, through the register router: when the post-write callbacks of the register run, its
    elements hold the new value in the bits of the mask and the old value in all others, no other
    byte of the register memory has changed, and the transaction carries the values that were
    stored.  Afterwards the address of the transaction is put back, DMI is denied, and the register
    takes callbacks again.  The mask of a register without callbacks is not applied:
    [mask_needs_callback], [masked_register_overwritten]. *)
Theorem masked_bus_write {B} `{CciBroker B} {M} (bus : dma_bus M) (mem : RegMemory bus) (laws : RegMemoryLaws bus)
    (b : B) rr mt gt regs g t idx count w :
  let p := gr_proxy g in
  write_routed rr (address t) mt gt p -> regs !! ti_index (t_obj gt) = Some g -> px_bank p = None ->
  has_callbacks g = true -> (forall t w, run_callbacks (gr_pre_write g) t w = Ret (t, w)) ->
  proxy_ok bus p -> dmi_ok bus p w -> rs_in_callback (reg_of p w) = false -> masked_state p (reg_of p w) ->
  response t = TLM_INCOMPLETE_RESPONSE -> byt t = None -> masked_write p t idx count ->
  address t = px_offset p + px_stride p * idx ->
  exists t3 w3, post_write_state bus p t idx (merged p (reg_of p w) (rm_rd (rw_mem w)) t idx count) w t3 w3 /\
    rr_b_transport (reg_targets bus (ti_index (t_obj mt)) regs) None b t rr w =
    match run_callbacks (gr_post_write g) t3 w3 with
    | Ret (t4, w4) => Ret (set_dmi_allowed false (set_address (address t) t4), rr,
                           put_reg p (set_rs_in_callback false (reg_of p w4)) w4)
    | Err e => Err e
    end.
Proof. exact (bus_write_masked bus b rr mt gt regs g t idx count w). Qed.

(** The registers of [ex_proxy] behind a router, with a post-write callback that does
    nothing, and the same without any callback. *)
Definition ex_mem_target : tref := mk_tref 0 (mk_target 0 "mem" 0 0x1000 0 true false false "" 0 0 [] []).
Definition ex_reg_target : tref := mk_tref 1 (mk_target 1 "regs" 0x100 0x74 0 true true false "" 0 0 [] []).
Definition ex_rr : reg_router := mk_rr "rr" [ex_mem_target; ex_reg_target] [ex_mem_target] [(0x100, ex_reg_target)] [] true false 2.
Definition ex_plain : gs_register (M := contents) := new_register ex_proxy.
Definition ex_reg : gs_register := add_post_write (fun t => sm_ret t) ex_plain.
Definition ex_bus_write : payload := plain_txn TLM_WRITE_COMMAND 0x120 [0x78; 0x56; 0x34; 0x12].

Lemma ex_rr_ok : rr_ok ex_rr 0x120.
Proof.
  split; [done|]. split_and!; [apply Forall_singleton; by exists true..|apply NoDup_singleton].
Qed.

Lemma ex_routed : write_routed ex_rr 0x120 ex_mem_target ex_reg_target ex_proxy.
Proof. split; [apply ex_rr_ok|done|done|by vm_compute|done|done|done]. Qed.

Lemma masked_bus_write_witness :
  match rr_b_transport (reg_targets ex_bus 0 {[1%nat := ex_reg]}) None (∅ : plain_broker) ex_bus_write ex_rr ex_world with
  | Ret (t, _, w) => data t = [0x78; 0; 0x34; 0] /\ elem_at ex_proxy (rm_rd (bus := ex_bus) (rw_mem w)) 2 = 0x340078
  | Err _ => False
  end.
Proof.
  destruct (masked_bus_write ex_bus _ _ (∅ : plain_broker) ex_rr ex_mem_target ex_reg_target {[1%nat := ex_reg]} ex_reg
    ex_bus_write 2 1 ex_world) as (t3 & w3 & (Hd & _ & _ & _ & Hm) & E).
  - apply ex_routed.
  - reflexivity.
  - reflexivity.
  - reflexivity.
  - reflexivity.
  - apply ex_proxy_ok.
  - exact I.
  - reflexivity.
  - split; [discriminate|reflexivity].
  - reflexivity.
  - reflexivity.
  - split; try reflexivity; [repeat constructor; lia|lia|by split|by left].
  - reflexivity.
  - change (ti_index (t_obj ex_mem_target)) with 0%nat in E. rewrite E.
    change (run_callbacks (gr_post_write ex_reg) t3 w3) with (Ret (t3, w3)). split; [exact Hd|].
    change (elem_at ex_proxy (rm_rd (bus := ex_bus) (rw_mem w3)) 2 = 0x340078). rewrite Hm. vm_compute. reflexivity.
Defined.

(** What the register router selects: a memory is decoded exactly when it is the one
    claimant of best priority, nothing is decoded when no memory claims the address, and
    decoding stops only when two claimants share a priority.  The callbacks that run are
    the claimants of best priority, in the order of their addresses and then of their
    registration. *)
Theorem reg_router_selects {B} `{CciBroker B} {W} tb (b : B) t r :
  rr_ok r (address t) ->
  match rr_decode_address b t r with
  | Ret (Some mt, r') => r' = r /\ strongest (address t) (rr_mem r) = [mt]
  | Ret (None, r') => r' = r /\ claimants (address t) (rr_mem r) = []
  | Err e => e = StopFatal /\ ~ NoDup ((fun t => ti_priority (t_obj t)) <$> claimants (address t) (rr_mem r))
  end /\
  forall w : W, do_callbacks tb r t w = fan_out tb (address t) (strongest (address t) (rr_cb r).*2) t w.
Proof.
  intros (Hi & Hm & Hc & Hnd). split.
  - unfold rr_decode_address, rr_lazy_initialize. rewrite Hi. cbn [rbind fst].
    destruct (decode_mem (address t) (rr_mem r) None) as [[mt|]|e] eqn:E; cbn [rbind].
    + split; [done|]. exact (decode_mem_ok _ _ Hm None (Some mt) Hnd E).
    + split; [done|]. apply strongest_nonempty. exact (decode_mem_ok _ _ Hm None None Hnd E).
    + split; [|intros Hp; by destruct (decode_mem_total _ _ Hm None Hp) as [o Ho]; rewrite E in Ho].
      clear -Hm E. revert E. generalize (@None tref). induction Hm as [|x l [c Hc] _ IH]; intros best; cbn [decode_mem]; [done|].
      rewrite Hc. cbn [rbind]. destruct c; cbn [negb]; [|apply IH]. destruct best as [bt|]; [|apply IH].
      destruct (_ <? _); [apply IH|]. destruct (_ && _); [by intros [= <-]|apply IH].
  - intros w. unfold do_callbacks. by rewrite collect_ok.
Qed.

Lemma reg_router_selects_witness :
  rr_decode_address (∅ : plain_broker) ex_bus_write ex_rr = Ret (Some ex_mem_target, ex_rr) /\
  strongest 0x120 (rr_mem ex_rr) = [ex_mem_target].
Proof.
  destruct (reg_router_selects (reg_targets ex_bus 0 ∅) (∅ : plain_broker) ex_bus_write ex_rr) as [H _].
  - apply ex_rr_ok.
  - split; [reflexivity|]. exact (proj2 H).
Defined.

(** A register bank that is configured through its layout strings claims exactly the
    bytes of its elements: the gaps between elements are left to others. *)
Theorem bank_target_claims {B} `{CciBroker B} (b : B) t elem counts strides bk base :
  let name := ti_name (t_obj t) in
  0 < elem -> Forall (in_width 64) counts -> Forall (in_width 64) strides ->
  new_bank elem counts strides = Ret bk -> 0 <= base -> base + span elem counts strides < 2 ^ 64 ->
  preset b (name +:+ ".address") = Some (CciNumber base) ->
  preset b (name +:+ ".size") = Some (CciNumber (bk_total_span bk)) ->
  preset b (name +:+ ".elem_size") = Some (CciNumber elem) ->
  preset b (name +:+ ".dim_strides") = Some (CciString (encode_vec strides)) ->
  preset b (name +:+ ".dim_counts") = Some (CciString (encode_vec counts)) ->
  exists t', rr_configure b t = Ret t' /\ forall a, exists c, claims (t_obj t') a = Ret c /\
    (c = true <-> exists indices k, indices_ok indices counts /\ 0 <= k < elem /\ a = base + offset indices strides + k).
Proof.
  intros name He Hc Hs Hb Hbase Hl Ha Hsz Hel Hds Hdc.
  pose proof (parse_encode _ Hc) as Pc. pose proof (parse_encode _ Hs) as Ps.
  apply new_bank_ok in Hb as (Hok & <- & <- & <-); [|done|..|lia].
  2, 3: eapply Forall_impl; [done|unfold in_width; simpl; lia].
  pose proof (bo_dims bk Hok) as Hne. pose proof (nested_lengths _ _ _ (bo_nested bk Hok)) as Hlen.
  pose proof (span_pos _ _ _ He (bo_nested bk Hok)) as Hsp. pose proof (bo_span bk Hok) as Htot.
  destruct (encode_vec_nonempty _ Hc Hne) as (c1 & s1 & Ec). destruct (encode_vec_nonempty _ Hs) as (c2 & s2 & Es).
  { intros E. rewrite E in Hlen. by destruct (bk_counts bk). }
  unfold rr_configure. fold name. rewrite Ha, Hsz, Hel, Hds, Hdc. cbn [try_u64 try_string cci_get cci_get_d default id].
  rewrite !(proj2 (Z.leb_le 0 _)), !(proj2 (Z.ltb_lt _ (2 ^ 64))) by lia. cbn [andb rbind]. rewrite Ec, Es. rewrite <- Ec, <- Es, Ps, Pc.
  cbn [rbind]. rewrite Hlen, Nat.eqb_refl. cbn [rbind fst snd]. eexists. split; [done|]. intros a. unfold claims. cbn [t_obj ti_address ti_size ti_dim_strides ti_dim_counts ti_elem_size].
  destruct ((a <? base) || (bk_total_span bk <=? a - base)) eqn:Er.
  - exists false. split; [done|]. split; [done|]. intros (indices & k & Hi & Hk & ->).
    destruct (bank_forward bk Hok indices Hi) as (_ & _ & _ & H1 & H2).
    apply orb_true_iff in Er as [?%Z.ltb_lt|?%Z.leb_le]; lia.
  - apply orb_false_iff in Er as [?%Z.ltb_ge ?%Z.leb_gt]. exists (byte_offset_is_element bk (a - base)). split.
    + rewrite claims_dims_bank by done. destruct (bk_strides bk); [|done]. by destruct (bk_counts bk).
    + rewrite byte_offset_element by (done || lia). split; intros (indices & k & Hi & Hk & E); exists indices, k; split_and!; try done; lia.
Qed.

(** Two rows of three 32-bit registers at 0x200. *)
Definition ex_broker : plain_broker :=
  {[ "bank.address" := CciNumber 0x200; "bank.size" := CciNumber 0x64; "bank.elem_size" := CciNumber 4;
     "bank.dim_strides" := CciString "64,16"; "bank.dim_counts" := CciString "2,3" ]}.
Definition ex_bank_target : tref := mk_tref 2 (mk_target 2 "bank" 0 0 0 false false false "" 0 0 [] []).

Lemma bank_target_claims_witness :
  exists t', rr_configure ex_broker ex_bank_target = Ret t' /\ claims (t_obj t') 0x251 = Ret true /\ claims (t_obj t') 0x254 = Ret false.
Proof.
  destruct (bank_target_claims ex_broker ex_bank_target 4 [2; 3] [64; 16] (mk_bank 4 [2; 3] [64; 16] [3; 1] 6 0x64) 0x200)
    as (t' & E & H); try reflexivity; try lia; [repeat constructor; lia..|]. exists t'. split; [exact E|].
  vm_compute in E. injection E as <-. split; reflexivity.
Defined.

(** A write mask is only applied by the callback machinery: the write to a masked register
    that has no callback reaches its memory in full. *)
Theorem mask_needs_callback {M} (bus : dma_bus M) g t w :
  has_callbacks g = false -> port_b_transport bus g t w = Ret (set_dmi_allowed false t, w).
Proof. intros E. unfold port_b_transport. rewrite E. done. Qed.

Example masked_register_overwritten :
  match rr_b_transport (reg_targets ex_bus 0 {[1%nat := ex_plain]}) None (∅ : plain_broker) ex_bus_write ex_rr ex_world with
  | Ret (_, _, w) => elem_at ex_proxy (rm_rd (bus := ex_bus) (rw_mem w)) 2 = 0x12345678
  | Err _ => False
  end.
Proof. vm_compute. reflexivity. Qed.
