(* ===== verification/Router.v ===== *)
(** * The router

    [router.h]: target registration and configuration ([register_boundto],
    [add_target], [lazy_initialize]), transaction routing ([b_transport],
    [transport_dbg], [stamp_txn], [unstamp_txn]) and the DMI bookkeeping
    ([get_direct_mem_ptr], [record_dmi], [invalidate_direct_mem_ptr]).  The address
    map and its caches are in AddressMap and AddrMapCache. *)

From stdpp Require Import base list numbers option sets strings gmap.
From Stdlib Require Import Ascii.
From S2P Require Import Prelude OrdMap Tlm AddrMapCache AddressMap Cci.

(** ** The DMI table *)

(** [dmi_info]: the initiators that hold a DMI region, and the region. *)
Record dmi_info : Type := mk_info {
  di_initiators : list Z;
  di_dmi : tlm_dmi;
}.

(** The loop of [invalidate_direct_mem_ptr_ts], from the iterator on: the entries
    kept and the initiators to notify. *)
Fixpoint invalidate_walk (start fin : Z) (r : omap dmi_info) (inits : list Z)
    : omap dmi_info * list Z :=
  match r with
  | [] => ([], inits)
  | (k, i) :: r' =>
      if fin <? dmi_start (di_dmi i) then (r, inits)
      else if dmi_end (di_dmi i) <? start then
        let '(kept, inits') := invalidate_walk start fin r' inits in ((k, i) :: kept, inits')
      else invalidate_walk start fin r' (foldl (fun s t => oset_insert t s) inits (di_initiators i))
  end.

(** [invalidate_direct_mem_ptr_ts]: the new table, and the target sockets whose
    [invalidate_direct_mem_ptr (start, end)] is called, in order. *)
Definition invalidate_direct_mem_ptr_ts (start fin : Z) (m : omap dmi_info)
    : omap dmi_info * list Z :=
  let '(l, r) := om_prev (om_upper start m) in
  let '(kept, inits) := invalidate_walk start fin r [] in
  (l ++ kept, inits).

(** [in_dmi_cache]: the table with an entry for [d]; a differing end address is an
    error. *)
Definition in_dmi_cache (d : tlm_dmi) (m : omap dmi_info) : res (omap dmi_info) :=
  match om_find (dmi_start d) m with
  | Some i => if dmi_end (di_dmi i) =? dmi_end d then Ret m else Err StopFatal
  | None => Ret (om_emplace (dmi_start d) (mk_info [] d) m)
  end.

(** [dinfo->initiators.insert (id)]. *)
Definition add_initiator_id (k id : Z) (m : omap dmi_info) : omap dmi_info :=
  match om_find k m with
  | Some i => om_insert k (mk_info (oset_insert id (di_initiators i)) (di_dmi i)) m
  | None => m
  end.

(** [record_dmi]: the new table, and the notifications of the invalidation it may
    have needed. *)
Definition record_dmi (id : Z) (d : tlm_dmi) (m : omap dmi_info) : res (omap dmi_info * list Z) :=
  let '(m1, notes) :=
    match om_find (dmi_start d) m with
    | Some i =>
        if dmi_end (di_dmi i) =? dmi_end d then (m, [])
        else invalidate_direct_mem_ptr_ts (dmi_start d) (dmi_end d) m
    | None => (m, [])
    end in
  let? m2 := in_dmi_cache d m1 in
  Ret (add_initiator_id (dmi_start d) id m2, notes).

(** ** State of the module *)

Section Router.
Context {C : Type} `{AddrMapCache C}.
Context {B : Type} `{CciBroker B}.

Record router : Type := mk_router {
  rt_name : string;
  rt_bound : list tref;
  rt_aliases : list tref;
  rt_map : addressMap C;
  rt_ids : list tref;
  rt_pool : list PathIDExtension;
  rt_dmi : omap dmi_info;
  rt_initialized : bool;
  rt_lazy_init : bool;
  rt_fresh : nat;
}.

(** The constructor. *)
Definition new_router (nm : string) (lazy : bool) : router :=
  mk_router nm [] [] (amap_empty C) [] [] [] false lazy 0.

Definition set_map (am : addressMap C) (r : router) : router :=
  mk_router (rt_name r) (rt_bound r) (rt_aliases r) am (rt_ids r) (rt_pool r) (rt_dmi r)
    (rt_initialized r) (rt_lazy_init r) (rt_fresh r).
Definition set_pool (p : list PathIDExtension) (r : router) : router :=
  mk_router (rt_name r) (rt_bound r) (rt_aliases r) (rt_map r) (rt_ids r) p (rt_dmi r)
    (rt_initialized r) (rt_lazy_init r) (rt_fresh r).
Definition set_dmi (m : omap dmi_info) (r : router) : router :=
  mk_router (rt_name r) (rt_bound r) (rt_aliases r) (rt_map r) (rt_ids r) (rt_pool r) m
    (rt_initialized r) (rt_lazy_init r) (rt_fresh r).

(** ** Registration and configuration *)

(** [register_boundto]: [make_shared] value-initialises the new [target_info]. *)
Definition register_boundto (s : string) (r : router) : router :=
  let ti := mk_target (length (rt_bound r)) s 0 0 0 false false false
              (drop_common (rt_name r) s) 0 0 [] [] in
  mk_router (rt_name r) (rt_bound r ++ [mk_tref (rt_fresh r) ti]) (rt_aliases r) (rt_map r)
    (rt_ids r) (rt_pool r) (rt_dmi r) (rt_initialized r) (rt_lazy_init r) (S (rt_fresh r)).

(** [if (!m_broker.has_preset_value (n)) m_broker.set_preset_cci_value (n, v)]. *)
Definition preset_if_absent (n : string) (v : cci_value) (b : B) : B :=
  match preset b n with Some _ => b | None => set_preset b n v end.

(** [add_target]; [s] is the name of the target socket's export. *)
Definition add_target (s : string) (addr size : Z) (masked : bool) (prio : Z) (b : B) (r : router)
    : B * router :=
  let b := preset_if_absent (s +:+ ".address") (CciNumber addr) b in
  let b := preset_if_absent (s +:+ ".size") (CciNumber size) b in
  let b := preset_if_absent (s +:+ ".relative_addresses") (CciBool masked) b in
  let b := preset_if_absent (s +:+ ".priority") (CciNumber prio) b in
  (b, register_boundto s r).

(** [get_matching_children]. *)
Fixpoint matching_children (prefix : string) (names : list string) : res (list string) :=
  match names with
  | [] => Ret []
  | n :: names' =>
      if String.prefix prefix n then
        let? rest := substr_from (S (String.length prefix)) n in
        let? cs := matching_children prefix names' in
        Ret (until_dot rest :: cs)
      else matching_children prefix names'
  end.

Definition get_matching_children (prefix : string) (names : list string) : res (list string) :=
  let? cs := matching_children prefix names in
  Ret (string_unique (string_sort cs)).

(** The name under which the target [nm] is configured: itself, or the target it
    is an alias of. *)
Definition config_name (b : B) (nm : string) : res string :=
  match try_string (preset b (nm +:+ ".0")) with
  | None => Ret nm
  | Some src =>
      match preset b (nm +:+ ".address") with
      | Some (CciNumber _) => Ret nm
      | _ =>
          let src :=
            match src with
            | String "&"%char src' => src' +:+ ".target_socket"
            | _ => src
            end in
          match preset b (src +:+ ".address") with
          | Some _ => Ret src
          | None => Err StopFatal
          end
      end
  end.

(** The [target_info] of a bound target, completed from the configuration. *)
Definition configure (b : B) (t : tref) : res tref :=
  let ti := t_obj t in
  let? name := config_name b (ti_name ti) in
  let? a := cci_get (try_u64 (preset b (name +:+ ".address"))) in
  let? sz := cci_get (try_u64 (preset b (name +:+ ".size"))) in
  let uo := cci_get_d (try_bool (preset b (name +:+ ".relative_addresses"))) true in
  let ch := cci_get_d (try_bool (preset b (name +:+ ".chained"))) false in
  let pr := cci_get_d (try_u32 (preset b (name +:+ ".priority"))) 0 in
  Ret (mk_tref (t_id t)
         (mk_target (ti_index ti) (ti_name ti) a sz pr uo (ti_is_callback ti) ch (ti_shortname ti)
            (ti_stride ti) (ti_elem_size ti) (ti_dim_strides ti) (ti_dim_counts ti))).

(** One alias of the configured target [t]: a copy of its [target_info] with
    another name and range. *)
Definition configure_alias (b : B) (t : tref) (fresh : nat) (n : string) : res tref :=
  let ti := t_obj t in
  let alias_name := ti_name ti +:+ ".aliases." +:+ n in
  let? a := cci_get (try_u64 (preset b (alias_name +:+ ".address"))) in
  let? sz := cci_get (try_u64 (preset b (alias_name +:+ ".size"))) in
  Ret (mk_tref fresh
         (mk_target (ti_index ti) alias_name a sz (ti_priority ti) (ti_use_offset ti)
            (ti_is_callback ti) (ti_chained ti) (ti_shortname ti)
            (ti_stride ti) (ti_elem_size ti) (ti_dim_strides ti) (ti_dim_counts ti))).

(** The inner loop of [lazy_initialize]. *)
Fixpoint init_aliases (b : B) (t : tref) (ns : list string) (am : addressMap C) (al : list tref)
    (fresh : nat) : res (addressMap C * list tref * nat) :=
  match ns with
  | [] => Ret (am, al, fresh)
  | n :: ns' =>
      let? a := configure_alias b t fresh n in
      init_aliases b t ns' (amap_add a am) (al ++ [a]) (S fresh)
  end.

(** The outer loop: the configured targets, in order, and the final map. *)
Fixpoint init_targets (b : B) (names : list string) (ts : list tref) (am : addressMap C)
    (al : list tref) (fresh : nat) : res (list tref * addressMap C * list tref * nat) :=
  match ts with
  | [] => Ret ([], am, al, fresh)
  | t :: ts' =>
      let? t' := configure b t in
      let? ns := get_matching_children (ti_name (t_obj t') +:+ ".aliases") names in
      let? x := init_aliases b t' ns (amap_add t' am) al fresh in
      let '(am1, al1, fresh1) := x in
      let? y := init_targets b names ts' am1 al1 fresh1 in
      let '(done, am2, al2, fresh2) := y in
      Ret (t' :: done, am2, al2, fresh2)
  end.

(** [lazy_initialize]. The configured objects are those [bound_targets] points to,
    and [id_targets] points to the same ones. *)
Definition lazy_initialize (b : B) (r : router) : res router :=
  if rt_initialized r then Ret r
  else
    let names := filter (fun n => contains ".aliases." n = true) (unconsumed b) in
    let? x := init_targets b names (rt_bound r) (rt_map r) (rt_aliases r) (rt_fresh r) in
    let '(ts, am, al, fresh) := x in
    Ret (mk_router (rt_name r) ts al am (rt_ids r ++ ts) (rt_pool r) (rt_dmi r) true
           (rt_lazy_init r) fresh).

(** [before_end_of_elaboration]. *)
Definition before_end_of_elaboration (b : B) (r : router) : res router :=
  if rt_lazy_init r then Ret r else lazy_initialize b r.

(** [decode_address]. *)
Definition decode_address (b : B) (t : payload) (r : router) : res (option tref * router) :=
  let? r := lazy_initialize b r in
  let '(o, am) := amap_find (address t) (data_length t) (rt_map r) in
  Ret (o, set_map am r).

(** ** Path stamping *)

(** [stamp_txn]: the extension comes from the pool when there is one there. *)
Definition stamp_txn (id : Z) (t : payload) (r : router) : payload * router :=
  match ext_path t with
  | Some p => (set_path (Some (p ++ [id])) t, r)
  | None =>
      match last (rt_pool r) with
      | None => (set_path (Some [id]) t, r)
      | Some p => (set_path (Some (p ++ [id])) t, set_pool (removelast (rt_pool r)) r)
      end
  end.

(** [unstamp_txn]. *)
Definition unstamp_txn (id : Z) (t : payload) (r : router) : res (payload * router) :=
  match ext_path t with
  | None => Err StopAssert
  | Some p =>
      let? _ := assertb (bool_decide (last p = Some id)) in
      let p' := removelast p in
      match p' with
      | [] => Ret (set_path None t, set_pool (rt_pool r ++ [p']) r)
      | _ => Ret (set_path (Some p') t, r)
      end
  end.

(** ** Transport *)

(** The modules bound to the initiator socket, by index, and their common state. *)
Context {W : Type}.
Context (target_b_transport : nat -> payload -> W -> res (payload * W)).
Context (target_transport_dbg : nat -> payload -> W -> res (Z * payload * W)).
Context (target_get_dmi : nat -> payload -> tlm_dmi -> W -> res (bool * payload * tlm_dmi * W)).

(** The address a target with [use_offset] sees. *)
Definition target_address (ti : target_info) (a : Z) : Z :=
  if ti_use_offset ti then u64 (a - ti_address ti) else a.

(** [if (ti->use_offset) trans.set_address (addr)]. *)
Definition restore_address (ti : target_info) (a : Z) (t : payload) : payload :=
  if ti_use_offset ti then set_address a t else t.

(** [b_transport]. *)
Definition b_transport (b : B) (id : Z) (t : payload) (r : router) (w : W)
    : res (payload * router * W) :=
  let a := address t in
  let? x := decode_address b t r in
  let '(o, r) := x in
  match o with
  | None => Ret (set_response_status TLM_ADDRESS_ERROR_RESPONSE t, r, w)
  | Some tr =>
      let ti := t_obj tr in
      let '(t, r) := stamp_txn id t r in
      let? x :=
        if status_code TLM_INCOMPLETE_RESPONSE <=? status_code (response t) then
          let t := if ti_use_offset ti then set_address (u64 (a - ti_address ti)) t else t in
          let? y := target_b_transport (ti_index ti) t w in
          let '(t, w) := y in
          Ret (restore_address ti a t, w)
        else Ret (t, w) in
      let '(t, w) := x in
      let? x := unstamp_txn id t r in
      let '(t, r) := x in
      Ret (t, r, w)
  end.

(** [transport_dbg]. *)
Definition transport_dbg (b : B) (t : payload) (r : router) (w : W)
    : res (Z * payload * router * W) :=
  let? r := lazy_initialize b r in
  let a := address t in
  let? x := decode_address b t r in
  let '(o, r) := x in
  match o with
  | None => Ret (0, set_response_status TLM_ADDRESS_ERROR_RESPONSE t, r, w)
  | Some tr =>
      let ti := t_obj tr in
      let t := if ti_use_offset ti then set_address (u64 (a - ti_address ti)) t else t in
      let? y := target_transport_dbg (ti_index ti) t w in
      let '(ret, t, w) := y in
      Ret (ret, restore_address ti a t, r, w)
  end.

(** The adjustment of a granted descriptor in [get_direct_mem_ptr]: back to router
    addresses, then clipped to the segment [hole]. *)
Definition rebase_dmi (ti : target_info) (d : tlm_dmi) : res tlm_dmi :=
  if ti_use_offset ti then
    let? _ := assertb (dmi_start d <? ti_size ti) in
    Ret (set_end_address (u64 (ti_address ti + dmi_end d))
           (set_start_address (u64 (ti_address ti + dmi_start d)) d))
  else Ret d.

Definition clip_dmi (hole d : tlm_dmi) : tlm_dmi :=
  let d :=
    if dmi_start d <? dmi_start hole then
      set_start_address (dmi_start hole)
        (set_dmi_ptr (dmi_ptr d + (dmi_start hole - dmi_start d)) d)
    else d in
  if dmi_end hole <? dmi_end d then set_end_address (dmi_end hole) d else d.

(** [get_direct_mem_ptr]: the status, the payload, the descriptor, and the
    notifications that recording it sent. [this] names the router in the record of
    underlying DMI regions. *)
Definition get_direct_mem_ptr (this : Z) (b : B) (id : Z) (t : payload) (d : tlm_dmi)
    (r : router) (w : W) : res (bool * payload * tlm_dmi * list Z * router * W) :=
  let? r := lazy_initialize b r in
  let a := address t in
  let '(o, hole) := find_region a (am_regions (rt_map r)) dmi_init in
  let t := match ext_udmi t with
           | Some u => set_udmi (Some (add_dmi u this hole
                         (match o with Some _ => dmi_mapped | None => dmi_nomap end))) t
           | None => t
           end in
  match o with
  | None => Ret (false, t, d, [], r, w)
  | Some tr =>
      let ti := t_obj tr in
      let t := if ti_use_offset ti then set_address (u64 (a - ti_address ti)) t else t in
      let? y := target_get_dmi (ti_index ti) t d w in
      let '(status, t, d, w) := y in
      let t := restore_address ti a t in
      if (status : bool) then
        let? d := rebase_dmi ti d in
        let d := clip_dmi hole d in
        let? z := record_dmi id d (rt_dmi r) in
        let '(m, notes) := z in
        Ret (true, t, d, notes, set_dmi m r, w)
      else Ret (false, t, d, [], r, w)
  end.

(** [invalidate_direct_mem_ptr], called through initiator socket [id]. The
    arguments of the calls to the initiators are the bounds returned. *)
Definition invalidate_direct_mem_ptr (id : nat) (start fin : Z) (r : router)
    : res (list Z * (Z * Z) * router) :=
  match rt_ids r !! id with
  | None => Err StopUndef
  | Some t =>
      let ti := t_obj t in
      let start := if ti_use_offset ti then u64 (ti_address ti + start) else start in
      let fin := if ti_use_offset ti then u64 (ti_address ti + fin) else fin in
      let '(m, notes) := invalidate_direct_mem_ptr_ts start fin (rt_dmi r) in
      Ret (notes, (start, fin), set_dmi m r)
  end.

End Router.
Arguments router : clear implicits.

(** ** Invariants of the DMI table *)

(** An entry meets the closed range [[start, fin]]. *)
Definition info_hit (start fin : Z) (i : dmi_info) : Prop :=
  dmi_start (di_dmi i) <= fin /\ start <= dmi_end (di_dmi i).

(** Entries are keyed by their start, not empty, and do not overlap. *)
Record dmi_table_wf (m : omap dmi_info) : Prop := {
  dw_sorted : om_wf m;
  dw_key : forall k i, (k, i) ∈ m -> k = dmi_start (di_dmi i);
  dw_range : forall k i, (k, i) ∈ m -> dmi_start (di_dmi i) <= dmi_end (di_dmi i);
  dw_disjoint : forall k i k' i', (k, i) ∈ m -> (k', i') ∈ m -> k < k' ->
      dmi_end (di_dmi i) < dmi_start (di_dmi i');
}.

Lemma dmi_table_wf_nil : dmi_table_wf [].
Proof. split; [apply om_wf_nil|..]; intros; by apply not_elem_of_nil in H. Qed.

Lemma dmi_table_wf_sub m m' :
  dmi_table_wf m -> om_wf m' -> (forall e, e ∈ m' -> e ∈ m) -> dmi_table_wf m'.
Proof.
  intros [Hs Hk Hr Hd] Hs' Hsub. split; [done|..].
  - intros k i Hin. by apply Hk, Hsub.
  - intros k i Hin. by apply (Hr k), Hsub.
  - intros k i k' i' Hin Hin'. by apply Hd; apply Hsub.
Qed.

Lemma invalidate_walk_spec start fin r inits :
  om_wf r -> (forall k i, (k, i) ∈ r -> k = dmi_start (di_dmi i)) ->
  let '(kept, notes) := invalidate_walk start fin r inits in
  kept `sublist_of` r /\
  (forall k i, (k, i) ∈ kept <-> (k, i) ∈ r /\ ~ info_hit start fin i) /\
  (forall j, j ∈ notes <-> j ∈ inits \/
     exists k i, (k, i) ∈ r /\ info_hit start fin i /\ j ∈ di_initiators i).
Proof.
  revert inits. induction r as [|[k i] r IH]; intros inits Hwf Hkey; simpl; [set_solver|].
  apply om_wf_cons in Hwf as [Hwf Hlt]. rewrite Forall_forall in Hlt.
  assert (Hkey' : forall k' i', (k', i') ∈ r -> k' = dmi_start (di_dmi i')) by set_solver.
  assert (Hk : k = dmi_start (di_dmi i)) by set_solver.
  unfold info_hit in *. destruct (fin <? dmi_start (di_dmi i)) eqn:E1.
  - assert (Hno : forall k' i', (k', i') ∈ (k, i) :: r -> fin < dmi_start (di_dmi i')).
    { intros k' i' [[= -> ->]|Hin]%elem_of_cons; [lia|].
      specialize (Hlt _ Hin). specialize (Hkey' _ _ Hin). simpl in Hlt. lia. }
    split; [done|]. split.
    + intros k' i'. split; [|by intros []]. intros Hin. split; [done|].
      specialize (Hno _ _ Hin). lia.
    + intros j. split; [by left|]. intros [Hj|(k' & i' & Hin & Hh & _)]; [done|].
      specialize (Hno _ _ Hin). lia.
  - destruct (dmi_end (di_dmi i) <? start) eqn:E2.
    + specialize (IH inits Hwf Hkey'). destruct (invalidate_walk start fin r inits) as [kept notes].
      destruct IH as (Hsub & Hel & Hno). split; [by apply sublist_skip|]. split.
      * intros k' i'. rewrite !elem_of_cons, Hel. split; [|naive_solver].
        intros [[= -> ->]|[]]; [|naive_solver]. split; [by left|lia].
      * intros j. rewrite Hno. setoid_rewrite elem_of_cons. split; [naive_solver|].
        intros [Hj|(k' & i' & [[= -> ->]|Hin] & Hh & Hj)]; [by left|lia|naive_solver].
    + specialize (IH (foldl (fun s t => oset_insert t s) inits (di_initiators i)) Hwf Hkey').
      destruct (invalidate_walk _ _ r _) as [kept notes]. destruct IH as (Hsub & Hel & Hno).
      split; [by apply sublist_cons|]. split.
      * intros k' i'. rewrite Hel, elem_of_cons. split; [naive_solver|].
        intros [[[= -> ->]|Hin] Hh]; [lia|done].
      * intros j. rewrite Hno, oset_elem_foldl. setoid_rewrite elem_of_cons.
        split; [|naive_solver]. intros [[Hj|Hj]|Hj]; [right|by left|naive_solver].
        exists k, i. split; [by left|]. split; [lia|done].
Qed.

(** An invalidation removes exactly the entries it meets, and notifies exactly
    their initiators. *)
Lemma invalidate_ts_spec start fin m :
  dmi_table_wf m ->
  let '(m', notes) := invalidate_direct_mem_ptr_ts start fin m in
  dmi_table_wf m' /\
  (forall k i, (k, i) ∈ m' <-> (k, i) ∈ m /\ ~ info_hit start fin i) /\
  (forall j, j ∈ notes <-> exists k i, (k, i) ∈ m /\ info_hit start fin i /\ j ∈ di_initiators i).
Proof.
  intros Hwf. unfold invalidate_direct_mem_ptr_ts.
  pose proof (om_upper_spec start m (dw_sorted _ Hwf)) as Hu.
  destruct (om_upper start m) as [l r]. destruct Hu as (Hm & Hl & _).
  pose proof (om_prev_spec l r) as Hp. destruct (om_prev (l, r)) as [l' r'].
  destruct Hp as (Happ & Hcase). rewrite <- Happ in Hm. subst m.
  pose proof (dw_sorted _ Hwf) as Hs. apply om_wf_app in Hs as (Hs1 & Hs2 & Hs3).
  assert (Hbefore : forall k i, (k, i) ∈ l' -> dmi_end (di_dmi i) < start).
  { intros k i Hin. destruct Hcase as [(_ & -> & _)|([kp p] & -> & ->)]; [set_solver|].
    rewrite Forall_forall in Hl, Hs3. specialize (Hs3 _ Hin). rewrite Forall_cons in Hs3.
    pose proof (Hl (kp, p) ltac:(set_solver)). simpl in *.
    pose proof (dw_key _ Hwf kp p ltac:(set_solver)).
    pose proof (dw_disjoint _ Hwf k i kp p ltac:(set_solver) ltac:(set_solver) (proj1 Hs3)). lia. }
  pose proof (invalidate_walk_spec start fin r' [] Hs2) as Hw.
  destruct (invalidate_walk start fin r' []) as [kept notes].
  destruct Hw as (Hsub & Hel & Hno).
  { intros k i Hin. apply (dw_key _ Hwf). set_solver. }
  assert (Hels : forall k i, (k, i) ∈ l' ++ kept <-> (k, i) ∈ l' ++ r' /\ ~ info_hit start fin i).
  { intros k i. rewrite !elem_of_app, Hel. split; [|tauto].
    intros [Hin|[]]; [|tauto]. split; [by left|]. specialize (Hbefore _ _ Hin). unfold info_hit. lia. }
  split; [|split; [done|]].
  - apply (dmi_table_wf_sub (l' ++ r')); [done| |intros [k i] Hin; by apply Hels in Hin as []].
    eapply om_wf_sublist; [|exact (dw_sorted _ Hwf)]. by apply sublist_app.
  - intros j. rewrite Hno. split.
    + intros [?|(k & i & Hin & Hh)]; [set_solver|]. exists k, i. split; [set_solver|done].
    + intros (k & i & Hin & Hh & Hj). right. exists k, i. split; [|done].
      apply elem_of_app in Hin as [Hin|Hin]; [|done]. specialize (Hbefore _ _ Hin).
      unfold info_hit in Hh. lia.
Qed.

(** Inserting the entry for a descriptor that meets no other entry. *)
Lemma add_entry_wf m i :
  dmi_table_wf m -> dmi_start (di_dmi i) <= dmi_end (di_dmi i) ->
  (forall k j, (k, j) ∈ m -> k <> dmi_start (di_dmi i) ->
     ~ info_hit (dmi_start (di_dmi i)) (dmi_end (di_dmi i)) j) ->
  dmi_table_wf (om_insert (dmi_start (di_dmi i)) i m).
Proof.
  intros Hwf Hle Hdis. pose proof (dw_sorted _ Hwf) as Hs. unfold info_hit in Hdis.
  split; [by apply om_wf_insert|..].
  - intros k j [[= -> ->]|[Hin _]]%om_elem_insert; [done| |done]. by apply (dw_key _ Hwf).
  - intros k j [[= -> ->]|[Hin _]]%om_elem_insert; [done| |done]. by apply (dw_range _ Hwf _ _ Hin).
  - intros k j k' j' [[= -> ->]|[Hin Hne]]%om_elem_insert [[= -> ->]|[Hin' Hne']]%om_elem_insert;
      simpl in *; try done; try lia; intros Hlt.
    + pose proof (dw_key _ Hwf _ _ Hin'). pose proof (dw_range _ Hwf _ _ Hin').
      specialize (Hdis _ _ Hin' ltac:(lia)). lia.
    + pose proof (dw_key _ Hwf _ _ Hin). pose proof (dw_range _ Hwf _ _ Hin).
      specialize (Hdis _ _ Hin ltac:(lia)). lia.
    + by apply (dw_disjoint _ Hwf _ _ _ _ Hin Hin').
Qed.

(** Once the table has an entry at the start of [d], adding the initiator keeps the
    table and makes the initiator a holder of that entry. *)
Lemma add_initiator_spec m k id i :
  dmi_table_wf m -> om_find k m = Some i ->
  dmi_table_wf (add_initiator_id k id m) /\
  exists i', om_find k (add_initiator_id k id m) = Some i' /\ id ∈ di_initiators i' /\
             di_dmi i' = di_dmi i.
Proof.
  intros Hwf Hf. pose proof (dw_sorted _ Hwf) as Hs.
  unfold add_initiator_id. rewrite Hf. apply om_find_elem in Hf; [|done].
  pose proof (dw_key _ Hwf _ _ Hf) as ->. pose proof (dw_range _ Hwf _ _ Hf) as Hr.
  set (i' := mk_info (oset_insert id (di_initiators i)) (di_dmi i)). split.
  - apply (add_entry_wf m i' Hwf Hr). simpl. intros k j Hin Hne [H1 H2].
    pose proof (dw_key _ Hwf _ _ Hin). subst k.
    destruct (Z.lt_total (dmi_start (di_dmi i)) (dmi_start (di_dmi j))) as [Hlt|[Heq|Hlt]]; [|done|].
    + pose proof (dw_disjoint _ Hwf _ _ _ _ Hf Hin Hlt). lia.
    + pose proof (dw_disjoint _ Hwf _ _ _ _ Hin Hf Hlt). lia.
  - exists i'. split; [by apply om_find_insert_eq|]. split; [|done].
    apply oset_elem_insert. by left.
Qed.

Section RecordDmi.
Context (m : omap dmi_info) (id : Z) (d : tlm_dmi).
Context (Hwf : dmi_table_wf m) (Hd : dmi_start d <= dmi_end d).
(** The new descriptor meets no entry that starts elsewhere. *)
Context (Hdis : forall k j, (k, j) ∈ m -> k <> dmi_start d -> ~ info_hit (dmi_start d) (dmi_end d) j).

Lemma record_dmi_spec :
  exists m' notes, record_dmi id d m = Ret (m', notes) /\ dmi_table_wf m' /\
  exists i, om_find (dmi_start d) m' = Some i /\ id ∈ di_initiators i /\
    dmi_start (di_dmi i) = dmi_start d /\ dmi_end (di_dmi i) = dmi_end d.
Proof.
  unfold record_dmi.
  assert (Hfresh : forall m1, dmi_table_wf m1 -> (forall e, e ∈ m1 -> e ∈ m) ->
    om_find (dmi_start d) m1 = None ->
    exists i, om_find (dmi_start d) (om_emplace (dmi_start d) (mk_info [] d) m1) = Some i /\
      di_dmi i = d /\ dmi_table_wf (om_emplace (dmi_start d) (mk_info [] d) m1)).
  { intros m1 Hwf1 Hsub Hn. unfold om_emplace. rewrite Hn. exists (mk_info [] d).
    split; [by apply om_find_insert_eq, dw_sorted|]. split; [done|].
    apply (add_entry_wf m1 (mk_info [] d)); [done|done|]. intros k j Hin Hne. simpl in *.
    by eapply Hdis; [apply Hsub, Hin|]. }
  destruct (om_find (dmi_start d) m) as [i|] eqn:Ef.
  - destruct (dmi_end (di_dmi i) =? dmi_end d) eqn:Ee.
    + unfold in_dmi_cache. rewrite Ef, Ee. cbn [rbind]. do 2 eexists. split; [done|].
      destruct (add_initiator_spec m _ id i Hwf Ef) as (Hw & i' & Hf' & Hid & Hdd). split; [done|].
      exists i'. rewrite Hdd. split; [done|]. split; [done|].
      apply om_find_elem in Ef; [|apply Hwf]. pose proof (dw_key _ Hwf _ _ Ef). lia.
    + pose proof (invalidate_ts_spec (dmi_start d) (dmi_end d) m Hwf) as Hi.
      destruct (invalidate_direct_mem_ptr_ts _ _ m) as [m1 notes]. destruct Hi as (Hwf1 & Hel & _).
      assert (Hn : om_find (dmi_start d) m1 = None).
      { destruct (om_find (dmi_start d) m1) as [j|] eqn:Ej; [|done]. exfalso.
        apply om_find_elem in Ej; [|apply Hwf1]. pose proof (dw_key _ Hwf1 _ _ Ej).
        pose proof (dw_range _ Hwf1 _ _ Ej). apply Hel in Ej as [_ Hno]. apply Hno. unfold info_hit. lia. }
      unfold in_dmi_cache. rewrite Hn. cbn [rbind].
      destruct (Hfresh m1 Hwf1) as (i0 & Hf0 & Hd0 & Hw0); [intros [k j]; by intros []%Hel|done|].
      do 2 eexists. split; [done|].
      destruct (add_initiator_spec _ _ id i0 Hw0 Hf0) as (Hw & i' & Hf' & Hid & Hdd). split; [done|].
      exists i'. rewrite Hdd, Hd0. done.
  - unfold in_dmi_cache. rewrite Ef. cbn [rbind].
    destruct (Hfresh m Hwf) as (i0 & Hf0 & Hd0 & Hw0); [done|done|].
    do 2 eexists. split; [done|].
    destruct (add_initiator_spec _ _ id i0 Hw0 Hf0) as (Hw & i' & Hf' & Hid & Hdd). split; [done|].
    exists i'. rewrite Hdd, Hd0. done.
Qed.

End RecordDmi.

(** ** Clipping *)

Lemma clip_dmi_spec hole d b :
  dmi_covers (clip_dmi hole d) b <->
  dmi_covers d b /\ dmi_covers hole b.
Proof.
  unfold clip_dmi, dmi_covers. destruct (dmi_start d <? dmi_start hole) eqn:E1; simpl;
    destruct (dmi_end hole <? dmi_end d) eqn:E2; simpl; lia.
Qed.

(** Clipping moves the host pointer along with the start. *)
Lemma clip_dmi_host hole d b : dmi_host (clip_dmi hole d) b = dmi_host d b.
Proof.
  unfold clip_dmi, dmi_host. destruct (dmi_start d <? dmi_start hole); simpl;
    destruct (dmi_end hole <? dmi_end d); simpl; lia.
Qed.

(** ** Transport *)

Lemma set_address_id t : set_address (address t) t = t.
Proof. by destruct t. Qed.

Lemma set_path_path p q t : set_path p (set_path q t) = set_path p t.
Proof. done. Qed.

Lemma removelast_snoc {A} (l : list A) x : removelast (l ++ [x]) = l.
Proof. apply removelast_last. Qed.

(** Extensions in the pool are empty vectors, ready for reuse. *)
Definition pool_clean (p : list PathIDExtension) : Prop := Forall (fun e => e = []) p.

Section TransportProofs.
Context {C : Type} `{AddrMapCache C} {B : Type} `{CciBroker B}.
Implicit Types (r : router C) (t : payload).

(** Stamping appends the initiator to the path, whatever extension it used. *)
Lemma stamp_txn_spec id t r t' r' :
  pool_clean (rt_pool r) -> stamp_txn id t r = (t', r') ->
  t' = set_path (Some (default [] (ext_path t) ++ [id])) t /\
  pool_clean (rt_pool r') /\ r' = set_pool (rt_pool r') r.
Proof.
  unfold stamp_txn, pool_clean. intros Hp. destruct (ext_path t) as [p|]; simpl.
  - intros [= <- <-]. by destruct r.
  - destruct (last (rt_pool r)) as [p|] eqn:El; intros [= <- <-]; [|by destruct r].
    apply last_Some in El as [l Hl]. rewrite Hl in *. apply Forall_app in Hp as [Hp Hl'].
    apply Forall_inv in Hl' as ->. rewrite removelast_snoc. by destruct r.
Qed.

(** Unstamping undoes it, and gives the extension back when the path is empty. *)
Lemma unstamp_txn_spec id p t r :
  pool_clean (rt_pool r) -> ext_path t = Some (default [] p ++ [id]) -> p <> Some [] ->
  exists r', unstamp_txn id t r = Ret (set_path p t, r') /\ pool_clean (rt_pool r') /\
             r' = set_pool (rt_pool r') r.
Proof.
  intros Hpool Ht Hp. unfold unstamp_txn. rewrite Ht.
  rewrite bool_decide_eq_true_2 by (by rewrite last_snoc). cbn [rbind assertb].
  rewrite removelast_snoc. destruct p as [[|x p]|]; [done|..]; simpl.
  - exists r. split; [done|]. by destruct r.
  - eexists. split; [done|]. split; [|by destruct r]. simpl.
    apply Forall_app. split; [done|]. by apply Forall_singleton.
Qed.

Lemma lazy_initialize_done (b : B) r : rt_initialized r = true -> lazy_initialize b r = Ret r.
Proof. intros Hi. unfold lazy_initialize. by rewrite Hi. Qed.

Lemma decode_address_initialized (b : B) t r :
  rt_initialized r = true ->
  decode_address b t r =
  let '(o, am) := amap_find (address t) (data_length t) (rt_map r) in Ret (o, set_map am r).
Proof. intros Hi. unfold decode_address. by rewrite lazy_initialize_done. Qed.

(** What a router has been configured with: the targets it decodes to, a clean
    pool, and a consistent DMI table. *)
Context {good} `{!CacheSound C good}.

Record router_ok (ts : list tref) (r : router C) : Prop := {
  ro_init : rt_initialized r = true;
  ro_map : amap_refines (good := good) ts (rt_map r);
  ro_good : good (winner ts);
  ro_pool : pool_clean (rt_pool r);
  ro_dmi : dmi_table_wf (rt_dmi r);
}.

Lemma router_ok_find ts r a size :
  router_ok ts r ->
  (amap_find a size (rt_map r)).1 = winner ts a /\
  router_ok ts (set_map (amap_find a size (rt_map r)).2 r).
Proof.
  intros [Hi Hm Hg Hp Hd]. destruct (amap_refines_find ts (rt_map r) a size Hg Hm) as [H1 H2].
  split; [done|]. by split.
Qed.

Lemma router_ok_pool ts r p : router_ok ts r -> pool_clean p -> router_ok ts (set_pool p r).
Proof. intros [Hi Hm Hg Hp Hd] Hc. by split. Qed.

Context {W : Type} (tbt : nat -> payload -> W -> res (payload * W)).

(** The payload as it reaches the target: stamped, and with the address the target
    expects. *)
Definition forwarded (id : Z) (ti : target_info) (t : payload) : payload :=
  set_address (target_address ti (address t)) (set_path (Some (default [] (ext_path t) ++ [id])) t).

Lemma b_transport_routed (b : B) ts id t r w tr t2 w2 :
  router_ok ts r -> winner ts (address t) = Some tr -> ext_path t <> Some [] ->
  0 <= status_code (response t) ->
  tbt (ti_index (t_obj tr)) (forwarded id (t_obj tr) t) w = Ret (t2, w2) ->
  ext_path t2 = ext_path (forwarded id (t_obj tr) t) ->
  exists r', b_transport tbt b id t r w =
    Ret (set_path (ext_path t) (restore_address (t_obj tr) (address t) t2), r', w2) /\
    router_ok ts r'.
Proof.
  intros Hok Hw Hpath Hresp Htbt Hkeep. unfold b_transport.
  rewrite decode_address_initialized by apply Hok.
  destruct (router_ok_find ts r (address t) (data_length t) Hok) as [Hf Hok'].
  destruct (amap_find _ _ (rt_map r)) as [o am]. simpl in Hf, Hok'. rewrite Hf, Hw. cbn [rbind].
  destruct (stamp_txn id t (set_map am r)) as [t1 r1] eqn:Es.
  destruct (stamp_txn_spec _ _ _ _ _ (ro_pool _ _ Hok') Es) as (-> & Hp1 & Hr1).
  assert (Hok1 : router_ok ts r1) by (rewrite Hr1; by apply router_ok_pool).
  assert (Hfwd : (if ti_use_offset (t_obj tr)
      then set_address (u64 (address t - ti_address (t_obj tr)))
             (set_path (Some (default [] (ext_path t) ++ [id])) t)
      else set_path (Some (default [] (ext_path t) ++ [id])) t) = forwarded id (t_obj tr) t).
  { unfold forwarded, target_address. destruct (ti_use_offset (t_obj tr)); [done|].
    symmetry. apply (set_address_id (set_path _ t)). }
  cbn [response set_path]. change (status_code TLM_INCOMPLETE_RESPONSE) with 0.
  replace (0 <=? status_code (response t)) with true by lia.
  rewrite Hfwd, Htbt. cbn [rbind].
  destruct (unstamp_txn_spec id (ext_path t) (restore_address (t_obj tr) (address t) t2) r1)
    as (r2 & Hu & Hp2 & Hr2); [done| |done|].
  { unfold restore_address. destruct (ti_use_offset (t_obj tr)); simpl; by rewrite Hkeep. }
  rewrite Hu. cbn [rbind]. exists r2. split; [done|]. rewrite Hr2. by apply router_ok_pool.
Qed.

Lemma b_transport_unmapped (b : B) ts id t r w :
  router_ok ts r -> winner ts (address t) = None ->
  exists r', b_transport tbt b id t r w =
    Ret (set_response_status TLM_ADDRESS_ERROR_RESPONSE t, r', w) /\ router_ok ts r'.
Proof.
  intros Hok Hw. unfold b_transport. rewrite decode_address_initialized by apply Hok.
  destruct (router_ok_find ts r (address t) (data_length t) Hok) as [Hf Hok'].
  destruct (amap_find _ _ (rt_map r)) as [o am]. simpl in *. rewrite Hf, Hw. cbn [rbind]. eauto.
Qed.

Context (tdmi : nat -> payload -> tlm_dmi -> W -> res (bool * payload * tlm_dmi * W)).

(** What a granted DMI request returns: the target's descriptor moved to router
    addresses and clipped to the segment around the request. *)
Lemma get_direct_mem_ptr_granted (b : B) ts this id t d r w t' d' notes r' w' :
  router_ok ts r -> 0 <= address t < UINT64_MAX ->
  get_direct_mem_ptr tdmi this b id t d r w = Ret (true, t', d', notes, r', w') ->
  exists tr t1 t2 d1 d2 hole,
    winner ts (address t) = Some tr /\
    tdmi (ti_index (t_obj tr)) t1 d w = Ret (true, t2, d1, w') /\
    address t1 = target_address (t_obj tr) (address t) /\
    rebase_dmi (t_obj tr) d1 = Ret d2 /\ d' = clip_dmi hole d2 /\
    dmi_covers hole (address t) /\ (forall a, dmi_covers hole a -> winner ts a = Some tr) /\
    record_dmi id d' (rt_dmi r) = Ret (rt_dmi r', notes).
Proof.
  intros Hok Ha. unfold get_direct_mem_ptr. rewrite lazy_initialize_done by apply Hok. cbn [rbind].
  pose proof (find_region_spec _ (address t) dmi_init (ar_wf _ _ (ro_map _ _ Hok)) Ha) as Hu.
  destruct (find_region _ _ _) as [o hole]. destruct Hu as (Hcov & Ho & Hall).
  rewrite (ar_find _ _ (ro_map _ _ Hok)) in Ho. destruct o as [tr|]; [|done].
  set (t0 := match ext_udmi t with Some u => _ | None => t end).
  assert (Ht0 : address t0 = address t) by (unfold t0; by destruct (ext_udmi t)).
  set (t1 := if ti_use_offset (t_obj tr) then _ else t0).
  assert (Ht1 : address t1 = target_address (t_obj tr) (address t)).
  { unfold t1, target_address. by destruct (ti_use_offset (t_obj tr)). }
  intros (y & Hy & Hk)%rbind_Ret. destruct y as [[[st t2] d1] w1]. destruct st; [|done].
  apply rbind_Ret in Hk as (d2 & Hd2 & Hk). apply rbind_Ret in Hk as ([m nt] & Hrec & Hk).
  injection Hk as <- <- <- <- <-. exists tr, t1, t2, d1, d2, hole.
  split; [done|]. split; [done|]. split; [done|]. split; [done|]. split; [done|]. split; [done|].
  split; [|done]. intros a Hc. rewrite <- (ar_find _ _ (ro_map _ _ Hok)). by apply Hall.
Qed.

End TransportProofs.

(** ** Configuration *)

Section InitProofs.
Context {C : Type} `{AddrMapCache C} {B : Type} `{CciBroker B}.

Definition adds (am : addressMap C) (ts : list tref) : addressMap C :=
  foldl (fun am t => amap_add t am) am ts.

Lemma init_aliases_spec (b : B) t ns am al fresh am' al' fresh' :
  init_aliases b t ns am al fresh = Ret (am', al', fresh') ->
  exists new, al' = al ++ new /\ am' = adds am new.
Proof.
  revert am al fresh. induction ns as [|n ns IH]; intros am al fresh; simpl.
  - intros [= <- <- <-]. exists []. by rewrite app_nil_r.
  - intros (a & Ha & Hk)%rbind_Ret. apply IH in Hk as (new & -> & ->).
    exists (a :: new). by rewrite <- app_assoc.
Qed.

(** The map receives the configured targets and their aliases, nothing else. *)
Lemma init_targets_spec (b : B) names ts am al fresh done am' al' fresh' :
  init_targets b names ts am al fresh = Ret (done, am', al', fresh') ->
  Forall2 (fun t t' => configure b t = Ret t') ts done /\
  exists order new, al' = al ++ new /\ am' = adds am order /\
    forall t, t ∈ order <-> t ∈ done \/ t ∈ new.
Proof.
  revert am al fresh done am' al' fresh'.
  induction ts as [|t ts IH]; intros am al fresh done am' al' fresh'; simpl.
  - intros [= <- <- <- <-]. split; [constructor|]. exists [], []. rewrite app_nil_r. set_solver.
  - intros (t' & Ht & Hk)%rbind_Ret. apply rbind_Ret in Hk as (ns & _ & Hk).
    apply rbind_Ret in Hk as ([[am1 al1] fresh1] & Hal & Hk).
    apply rbind_Ret in Hk as ([[[done2 am2] al2] fresh2] & Hts & Hk). injection Hk as <- <- <- <-.
    apply init_aliases_spec in Hal as (new1 & -> & ->).
    apply IH in Hts as (Hf & order & new & -> & -> & Hel). split; [by constructor|].
    exists (t' :: new1 ++ order), (new1 ++ new). rewrite app_assoc. split; [done|]. split.
    + unfold adds. simpl. by rewrite foldl_app.
    + set_solver.
Qed.

Lemma configure_keeps (b : B) t t' :
  configure b t = Ret t' ->
  t_id t' = t_id t /\ ti_index (t_obj t') = ti_index (t_obj t) /\ ti_name (t_obj t') = ti_name (t_obj t).
Proof.
  unfold configure. intros (n & _ & Hk)%rbind_Ret. apply rbind_Ret in Hk as (a & _ & Hk).
  apply rbind_Ret in Hk as (sz & _ & Hk). by injection Hk as <-.
Qed.

Context {good} `{!CacheSound C good}.

Lemma amap_refines_adds ts0 ts (am : addressMap C) :
  Forall placeable ts -> amap_refines (good := good) ts0 am ->
  amap_refines (good := good) (ts0 ++ ts) (adds am ts).
Proof.
  revert ts0 am. induction ts as [|t ts IH]; intros ts0 am Hpl Hr; [by rewrite app_nil_r|].
  apply Forall_cons in Hpl as [Ht Hpl]. simpl.
  rewrite cons_middle, app_assoc. apply IH; [done|]. by apply amap_refines_add.
Qed.

(** Targets bound in the order of their socket indices. *)
Definition bound_indexed (names : list string) (ts : list tref) : Prop :=
  length ts = length names /\
  forall i t, ts !! i = Some t -> ti_index (t_obj t) = i /\ names !! i = Some (ti_name (t_obj t)).

Definition bind_all (names : list string) (r : router C) : router C :=
  foldl (fun r s => register_boundto s r) r names.

Lemma bind_all_spec nm lazy names :
  let r := bind_all names (new_router nm lazy) in
  bound_indexed names (rt_bound r) /\ rt_map r = amap_empty C /\ rt_ids r = [] /\
  rt_initialized r = false /\ rt_aliases r = [] /\ rt_pool r = [] /\ rt_dmi r = [].
Proof.
  induction names as [|s names IH] using rev_ind; simpl; [by repeat split|].
  unfold bind_all. rewrite foldl_app. simpl. destruct IH as ([Hlen Hix] & Hrest).
  split; [|done]. unfold bind_all in *. set (r := foldl _ _ names) in *. split; simpl.
  - rewrite !length_app. simpl. lia.
  - intros i t Hi. apply lookup_app_Some in Hi as [Hi|[Hge Hi]].
    + destruct (Hix _ _ Hi) as [-> Hn]. split; [done|]. rewrite lookup_app_l; [done|].
      by eapply lookup_lt_Some.
    + apply list_lookup_singleton_Some in Hi as [Hz <-]. simpl.
      assert (i = length (rt_bound r)) as -> by lia. split; [done|].
      by rewrite Hlen, list_lookup_middle.
Qed.

Lemma bound_indexed_configured (b : B) names ts done :
  Forall2 (fun t t' => configure b t = Ret t') ts done ->
  bound_indexed names ts -> bound_indexed names done.
Proof.
  intros Hf [Hlen Hix]. split; [by rewrite <- (Forall2_length _ _ _ Hf)|].
  intros i t' Hi. destruct (Forall2_lookup_r _ _ _ _ _ Hf Hi) as (t & Ht & Hc).
  destruct (configure_keeps _ _ _ Hc) as (_ & -> & ->). by apply Hix.
Qed.

End InitProofs.

(** ** Properties *)

(** The target that the address map gives an address to. *)
Definition decodes {C : Type} `{AddrMapCache C} (r : router C) (a : Z) (tr : tref) : Prop := (amap_find a 1 (rt_map r)).1 = Some tr.

(** C2: an access all of whose bytes decode to one target reaches that target and no other, once,
    stamped with the initiator and with the address the target expects; on return the address and
    the path are as they were, whatever extension the router had to use for the path.  The cache in
    front of the map is none or that of single addresses. *)
Theorem router_b_transport_routes (C : Type) `{CacheSound C (fun _ => True)} (B : Type) `{CciBroker B}
    (W : Type) (tbt : nat -> payload -> W -> res (payload * W)) (b : B) ts id t r w tr t2 w2 :
  router_ok (good := fun _ => True) ts r ->
  0 < data_length t -> (forall k, 0 <= k < data_length t -> decodes r (address t + k) tr) -> ext_path t <> Some [] ->
  response t = TLM_INCOMPLETE_RESPONSE ->
  tbt (ti_index (t_obj tr)) (forwarded id (t_obj tr) t) w = Ret (t2, w2) ->
  ext_path t2 = ext_path (forwarded id (t_obj tr) t) ->
  exists r', b_transport tbt b id t r w =
    Ret (set_path (ext_path t) (restore_address (t_obj tr) (address t) t2), r', w2) /\
    router_ok (good := fun _ => True) ts r'.
Proof.
  intros Hok Hl Hc Hp Hresp Ht Hk. specialize (Hc 0 ltac:(lia)). rewrite Z.add_0_r in Hc. unfold decodes in Hc.
  rewrite (proj1 (router_ok_find ts r (address t) 1 Hok)) in Hc. eapply b_transport_routed; try done. by rewrite Hresp.
Qed.

(** A target that answers with success and records the address it saw. *)
Definition ex_target (i : nat) (t : payload) (w : list (nat * Z)) : res (payload * list (nat * Z)) :=
  Ret (set_response_status TLM_OK_RESPONSE t, w ++ [(i, address t)]).

Definition ex_router : router LRUCache :=
  mk_router "router" [ex_ram; ex_dev] [] (adds (amap_empty LRUCache) [ex_ram; ex_dev])
    [ex_ram; ex_dev] [] [] true false 2.

Lemma ex_router_ok : router_ok (good := fun _ => True) [ex_ram; ex_dev] ex_router.
Proof.
  split; [done|..|done|constructor|apply dmi_table_wf_nil].
  apply (amap_refines_adds []); [apply ex_placeable|apply amap_refines_empty].
Qed.

Lemma router_b_transport_routes_witness :
  let t := plain_txn TLM_READ_COMMAND 0x104 [0; 0; 0; 0] in
  exists r', b_transport ex_target (∅ : plain_broker) 7 t ex_router [] =
    Ret (set_path None (restore_address (t_obj ex_dev) 0x104
           (set_response_status TLM_OK_RESPONSE (forwarded 7 (t_obj ex_dev) t))), r', [(1%nat, 4)]) /\
    router_ok (good := fun _ => True) [ex_ram; ex_dev] r'.
Proof.
  apply (router_b_transport_routes LRUCache plain_broker _ ex_target ∅ [ex_ram; ex_dev] 7
           (plain_txn TLM_READ_COMMAND 0x104 [0; 0; 0; 0]) ex_router [] ex_dev);
    [apply ex_router_ok|vm_compute; done| |done|done|vm_compute; done|done].
  intros k Hk. assert (k = 0 \/ k = 1 \/ k = 2 \/ k = 3) as [->|[->|[->| ->]]] by (change (0 <= k < 4) in Hk; lia); vm_compute; done.
Defined.

(** An access that runs over the end of a target is sent to it whole, though the README says that
    it is rejected. *)
Lemma crossing_access_forwarded :
  exists r', b_transport ex_target (∅ : plain_broker) 7 (plain_txn TLM_READ_COMMAND 0x10e [0; 0; 0; 0]) ex_router [] =
    Ret (set_response_status TLM_OK_RESPONSE (plain_txn TLM_READ_COMMAND 0x10e [0; 0; 0; 0]), r', [(1%nat, 14)]) /\
    decodes ex_router 0x10e ex_dev /\ decodes ex_router 0x110 ex_ram.
Proof. eexists. split; [vm_compute; reflexivity|]. split; vm_compute; done. Qed.

(** an access to an address no target claims is answered with an address error
    and reaches no target. *)
Theorem router_b_transport_unmapped (C : Type) `{CacheSound C (fun _ => True)} (B : Type) `{CciBroker B}
    (W : Type) (tbt : nat -> payload -> W -> res (payload * W)) (b : B) ts id t r w :
  router_ok (good := fun _ => True) ts r -> (forall tr, ~ claimed ts (address t) tr) ->
  exists r', b_transport tbt b id t r w =
    Ret (set_response_status TLM_ADDRESS_ERROR_RESPONSE t, r', w) /\
    router_ok (good := fun _ => True) ts r'.
Proof.
  intros Hok Hno. apply b_transport_unmapped; [done|].
  destruct (winner ts (address t)) as [tr|] eqn:E; [|done]. apply winner_claimed in E. by destruct (Hno tr).
Qed.

Lemma router_b_transport_unmapped_witness :
  let t := plain_txn TLM_WRITE_COMMAND 0x2000 [1] in
  exists r', b_transport ex_target (∅ : plain_broker) 7 t ex_router [] =
    Ret (set_response_status TLM_ADDRESS_ERROR_RESPONSE t, r', []) /\
    router_ok (good := fun _ => True) [ex_ram; ex_dev] r'.
Proof.
  apply (router_b_transport_unmapped LRUCache plain_broker _ ex_target ∅ [ex_ram; ex_dev] 7
           (plain_txn TLM_WRITE_COMMAND 0x2000 [1]) ex_router []); [apply ex_router_ok|].
  intros tr Hc. apply winner_claimed in Hc. by vm_compute in Hc.
Defined.


(** The DMI answer of a memory whose bytes live at host address 0x7000. *)
Definition ex_dmi_target (i : nat) (t : payload) (d : tlm_dmi) (w : unit)
    : res (bool * payload * tlm_dmi * unit) :=
  Ret (true, t, mk_dmi 0x7000 0 0xfff DMI_ACCESS_READ_WRITE, w).


(** on a table of disjoint DMI regions, an invalidation leaves a table of
    disjoint regions from which exactly the regions it meets are gone, and notifies
    exactly the initiators that held one of them. *)
Theorem router_invalidate_exact start fin m m' notes :
  dmi_table_wf m -> invalidate_direct_mem_ptr_ts start fin m = (m', notes) ->
  dmi_table_wf m' /\
  (forall k i, (k, i) ∈ m' <-> (k, i) ∈ m /\ ~ info_hit start fin i) /\
  (forall j, j ∈ notes <-> exists k i, (k, i) ∈ m /\ info_hit start fin i /\ j ∈ di_initiators i).
Proof. intros Hwf Hi. pose proof (invalidate_ts_spec start fin m Hwf) as Hs. by rewrite Hi in Hs. Qed.

Definition ex_table : omap dmi_info :=
  [(0, mk_info [1; 2] (mk_dmi 0x7000 0 0xff DMI_ACCESS_READ));
   (0x200, mk_info [3] (mk_dmi 0x8000 0x200 0x2ff DMI_ACCESS_READ))].

Lemma ex_table_wf : dmi_table_wf ex_table.
Proof.
  split.
  - repeat constructor.
  - intros k i [[= -> ->]|[[= -> ->]|?%not_elem_of_nil]%elem_of_cons]%elem_of_cons; done.
  - intros k i [[= -> ->]|[[= -> ->]|?%not_elem_of_nil]%elem_of_cons]%elem_of_cons; done.
  - intros k i k' i' [[= -> ->]|[[= -> ->]|?%not_elem_of_nil]%elem_of_cons]%elem_of_cons
      [[= -> ->]|[[= -> ->]|?%not_elem_of_nil]%elem_of_cons]%elem_of_cons; simpl; done || lia.
Qed.

Lemma router_invalidate_exact_witness :
  let m' := [(0x200, mk_info [3] (mk_dmi 0x8000 0x200 0x2ff DMI_ACCESS_READ))] in
  dmi_table_wf m' /\
  (forall k i, (k, i) ∈ m' <-> (k, i) ∈ ex_table /\ ~ info_hit 0x80 0x17f i) /\
  (forall j, j ∈ [1; 2] <-> exists k i, (k, i) ∈ ex_table /\ info_hit 0x80 0x17f i /\ j ∈ di_initiators i).
Proof.
  apply (router_invalidate_exact 0x80 0x17f ex_table _ [1; 2] ex_table_wf). vm_compute. done.
Defined.

(** recording a granted DMI region never reaches the "differing end address"
    error, and from then on an invalidation that meets the region notifies the
    initiator that holds it. *)
Theorem router_recorded_dmi_notified m id d start fin m2 notes2 :
  dmi_table_wf m -> dmi_start d <= dmi_end d ->
  (forall k j, (k, j) ∈ m -> k <> dmi_start d -> ~ info_hit (dmi_start d) (dmi_end d) j) ->
  dmi_start d <= fin -> start <= dmi_end d ->
  exists m1 notes, record_dmi id d m = Ret (m1, notes) /\ dmi_table_wf m1 /\
    (invalidate_direct_mem_ptr_ts start fin m1 = (m2, notes2) -> id ∈ notes2).
Proof.
  intros Hwf Hd Hdis H1 H2.
  destruct (record_dmi_spec m id d Hwf Hd Hdis) as (m1 & notes & Hr & Hwf1 & i & Hf & Hid & Hs & He).
  exists m1, notes. split; [done|]. split; [done|]. intros Hi.
  pose proof (invalidate_ts_spec start fin m1 Hwf1) as Hspec. rewrite Hi in Hspec.
  destruct Hspec as (_ & _ & Hno). apply Hno. exists (dmi_start d), i.
  split; [apply om_find_elem; [apply Hwf1|done]|]. split; [unfold info_hit; lia|done].
Qed.

Lemma router_recorded_dmi_notified_witness :
  let d := mk_dmi 0x9000 0x400 0x4ff DMI_ACCESS_READ in
  exists m1 notes, record_dmi 5 d ex_table = Ret (m1, notes) /\ dmi_table_wf m1 /\
    (invalidate_direct_mem_ptr_ts 0x300 0x480 m1 = (ex_table, [5]) -> 5 ∈ [5]).
Proof.
  apply (router_recorded_dmi_notified ex_table 5 (mk_dmi 0x9000 0x400 0x4ff DMI_ACCESS_READ)
           0x300 0x480 ex_table [5] ex_table_wf); simpl; try lia.
  intros k j [[= -> ->]|[[= -> ->]|?%not_elem_of_nil]%elem_of_cons]%elem_of_cons _; unfold info_hit; simpl; [lia|lia|done].
Defined.

(** when the recorded regions nest, an invalidation can miss one: the walk
    starts at the entry just before the range, and a longer entry further back is
    never looked at, so the initiator that holds it keeps a stale pointer. *)
Theorem router_nested_dmi_missed :
  let outer := mk_dmi 0x7000 0 0xfff DMI_ACCESS_READ in
  let inner := mk_dmi 0x7100 0x100 0x1ff DMI_ACCESS_READ in
  exists m n1 n2, record_dmi 1 outer [] = Ret (m, n1) /\
  exists m', record_dmi 2 inner m = Ret (m', n2) /\
  (0, mk_info [1] outer) ∈ m' /\ info_hit 0x800 0x8ff (mk_info [1] outer) /\
  invalidate_direct_mem_ptr_ts 0x800 0x8ff m' = (m', []).
Proof.
  eexists _, _, _. split; [vm_compute; done|]. eexists. split; [vm_compute; done|].
  split; [by left|]. split; [vm_compute; done|]. vm_compute. done.
Qed.

(** initialising a router configures every bound target in place, gives socket
    [i] the target of index [i], fills the address map with exactly the targets and
    their aliases, and happens once. *)
Theorem router_lazy_initialize (C : Type) `{CacheSound C (fun _ => True)} (B : Type) `{CciBroker B}
    (b : B) nm lazy names (r : router C) :
  lazy_initialize b (bind_all names (new_router nm lazy)) = Ret r ->
  bound_indexed names (rt_ids r) /\ rt_bound r = rt_ids r /\ lazy_initialize b r = Ret r /\
  exists order, (forall t, t ∈ order <-> t ∈ rt_ids r \/ t ∈ rt_aliases r) /\
    (Forall placeable order -> router_ok (good := fun _ => True) order r).
Proof.
  intros Hl. destruct (bind_all_spec (C := C) nm lazy names) as (Hix & Hmap & Hids & Hinit & Hal & Hp & Hd).
  unfold lazy_initialize in Hl. rewrite Hinit, Hmap, Hids, Hal, Hp, Hd in Hl.
  apply rbind_Ret in Hl as ([[[done am] al] fresh] & Hi & Hl). injection Hl as <-. simpl.
  apply init_targets_spec in Hi as (Hf & order & new & -> & -> & Hel).
  split; [by eapply bound_indexed_configured|]. split; [done|]. split; [done|].
  exists order. split; [done|]. intros Hpl. split; simpl; [done|..|done|constructor|apply dmi_table_wf_nil].
  apply (amap_refines_adds []); [done|apply amap_refines_empty].
Qed.

(** A platform configuration: two targets, the second with an alias. *)
Definition ex_config : plain_broker :=
  list_to_map [("ram.address", CciNumber 0); ("ram.size", CciNumber 0x1000);
               ("uart.address", CciNumber 0x2000); ("uart.size", CciNumber 0x100);
               ("uart.priority", CciNumber 1);
               ("uart.aliases.0.address", CciNumber 0x3000); ("uart.aliases.0.size", CciNumber 0x100)]%string.

Definition ex_configured : router LRUCache :=
  match lazy_initialize ex_config (bind_all ["ram"; "uart"]%string (new_router "router" false)) with
  | Ret r => r
  | Err _ => new_router "" false
  end.

Lemma router_lazy_initialize_witness :
  length (rt_aliases ex_configured) = 1%nat /\
  bound_indexed ["ram"; "uart"]%string (rt_ids ex_configured) /\
  rt_bound ex_configured = rt_ids ex_configured /\ lazy_initialize ex_config ex_configured = Ret ex_configured /\
  exists order, (forall t, t ∈ order <-> t ∈ rt_ids ex_configured \/ t ∈ rt_aliases ex_configured) /\
    (Forall placeable order -> router_ok (good := fun _ => True) order ex_configured).
Proof.
  split; [vm_compute; done|].
  apply (router_lazy_initialize LRUCache plain_broker ex_config "router" false ["ram"; "uart"]%string).
  vm_compute. done.
Defined.

(** Registering a target with [add_target] makes its range the one configured,
    unless the configuration already had one. *)
Lemma add_target_configures (C : Type) `{AddrMapCache C} (B : Type) `{CciBrokerLaws B}
    s addr size masked prio (b : B) (r : router C) :
  preset b (s +:+ ".address") = None ->
  preset (add_target s addr size masked prio b r).1 (s +:+ ".address") = Some (CciNumber addr).
Proof.
  intros Hn. unfold add_target, preset_if_absent. simpl. rewrite Hn.
  assert (Hne : forall x y : string, x <> y -> s +:+ x <> s +:+ y) by (intros x y Hxy Heq; by apply (inj _) in Heq).
  repeat (match goal with |- context [match ?p with Some _ => _ | None => _ end] => destruct p end;
          rewrite ?preset_set_ne by (by apply Hne)); apply preset_set_eq.
Qed.
