(* ===== verification/ExclusiveMonitor.v ===== *)
(** * The exclusive monitor

    [exclusive-monitor.h]: an ARM-like global monitor in front of a target.  It
    keeps the set of locked regions twice, by start address and by initiator, and
    decides which exclusive stores go through, which DMI regions may be granted and
    which have to be withdrawn. *)

From stdpp Require Import base list numbers option sets gmap.
From S2P Require Import Prelude OrdMap Tlm.

(** [exclusive_monitor::InitiatorId] is [gs::PathIDExtension]. *)
Abbreviation InitiatorId := (list Z).

(** [exclusive_monitor::Region]; regions are never modified once created. *)
Record lregion : Type := mk_lregion {
  lr_start : Z;
  lr_end : Z;
  lr_id : InitiatorId;
}.

#[global] Instance lregion_eq_dec : EqDecision lregion.
Proof. solve_decision. Defined.

(** [Region::Region (txn, id)]. *)
Definition region_of (t : payload) (id : InitiatorId) : lregion :=
  mk_lregion (address t) (txn_last t) id.

(** [Region::is_exact_match]. *)
Definition is_exact_match (r : lregion) (t : payload) : bool :=
  (lr_start r =? address t) && (lr_end r =? u64 (lr_start r + data_length t - 1)).

Record monitor : Type := mk_monitor {
  em_regions : omap lregion;
  em_by_id : gmap InitiatorId lregion;
}.

Definition monitor_init : monitor := mk_monitor [] ∅.

(** [get_initiator_id] dereferences the path extension. *)
Definition get_initiator_id (t : payload) : res InitiatorId :=
  match ext_path t with Some p => Ret p | None => Err StopUndef end.

(** The loop of [find_region]. *)
Fixpoint find_walk (start fin : Z) (r : omap lregion) : option lregion :=
  match r with
  | [] => None
  | (_, x) :: r' =>
      if lr_end x <? start then find_walk start fin r'
      else if fin <? lr_start x then None
      else Some x
  end.

(** [find_region]. *)
Definition em_find_region (t : payload) (m : monitor) : option lregion :=
  let start := address t in
  let fin := txn_last t in
  find_walk start fin (om_prev (om_lower start (em_regions m))).2.

(** [lock_region]: the new state and the bounds whose DMI is withdrawn. *)
Definition lock_region (t : payload) (id : InitiatorId) (m : monitor) : res (monitor * (Z * Z)) :=
  let r := region_of t id in
  let? _ := assertb (bool_decide (em_find_region t m = None)) in
  Ret (mk_monitor (om_insert (lr_start r) r (em_regions m)) (<[lr_id r := r]> (em_by_id m)),
       (lr_start r, lr_end r)).

(** [unlock_region]. *)
Definition unlock_region (r : lregion) (m : monitor) : res monitor :=
  let? _ := assertb (bool_decide (om_find (lr_start r) (em_regions m) <> None)) in
  let? _ := assertb (bool_decide (em_by_id m !! lr_id r <> None)) in
  Ret (mk_monitor (om_erase (lr_start r) (em_regions m)) (delete (lr_id r) (em_by_id m))).

(** [unlock_region_by_id]. *)
Definition unlock_region_by_id (id : InitiatorId) (m : monitor) : res monitor :=
  match em_by_id m !! id with
  | None => Ret m
  | Some r => unlock_region r m
  end.

(** [handle_exclusive_load]. *)
Definition handle_exclusive_load (t : payload) (m : monitor) : res (monitor * list (Z * Z)) :=
  let? id := get_initiator_id t in
  match em_find_region t m with
  | Some _ => Ret (m, [])
  | None =>
      let? m := unlock_region_by_id id m in
      let? x := lock_region t id m in
      Ret (x.1, [x.2])
  end.

(** [handle_exclusive_store]: whether the store goes on, and the status written in
    the extension. *)
Definition handle_exclusive_store (t : payload) (m : monitor)
    : res (bool * ExclusiveStoreStatus * monitor) :=
  match em_find_region t m with
  | None => Ret (false, EXCLUSIVE_STORE_FAILURE, m)
  | Some r =>
      let? id := get_initiator_id t in
      if negb (bool_decide (lr_id r = id)) then Ret (false, EXCLUSIVE_STORE_FAILURE, m)
      else if negb (is_exact_match r t) then Ret (false, EXCLUSIVE_STORE_FAILURE, m)
      else let? m := unlock_region r m in Ret (true, EXCLUSIVE_STORE_SUCCESS, m)
  end.

(** [handle_regular_store]: the [while] loop unlocks one region per turn, so the
    number of regions bounds the number of turns. *)
Fixpoint regular_store_loop (fuel : nat) (t : payload) (m : monitor) : res monitor :=
  match em_find_region t m with
  | None => Ret m
  | Some r =>
      match fuel with
      | O => Err StopUndef
      | S fuel' => let? m := unlock_region r m in regular_store_loop fuel' t m
      end
  end.

Definition handle_regular_store (t : payload) (m : monitor) : res monitor :=
  regular_store_loop (length (em_regions m)) t m.

Definition is_store (t : payload) : bool := bool_decide (command t = TLM_WRITE_COMMAND).

(** [before_b_transport]: whether to go on, and the payload with the status of an
    exclusive store. *)
Definition before_b_transport (t : payload) (m : monitor) : res (bool * payload * monitor) :=
  if negb (is_store t) then Ret (true, t, m)
  else match ext_excl t with
       | Some _ =>
           let? x := handle_exclusive_store t m in
           let '(ok, st, m) := x in Ret (ok, set_excl (Some st) t, m)
       | None => let? m := handle_regular_store t m in Ret (true, t, m)
       end.

(** [after_b_transport]: whether to clear the DMI hint. *)
Definition after_b_transport (t : payload) (m : monitor) : res (bool * monitor * list (Z * Z)) :=
  if is_store t then Ret (false, m, [])
  else match ext_excl t with
       | None => Ret (bool_decide (em_find_region t m <> None), m, [])
       | Some _ =>
           let? x := handle_exclusive_load t m in
           Ret (true, x.1, x.2)
       end.

(** The loop of [get_direct_mem_ptr]; [None] when the request is refused. *)
Fixpoint dmi_walk (a fixed_start fixed_end : Z) (r : omap lregion) : option (Z * Z) :=
  match r with
  | [] => Some (fixed_start, fixed_end)
  | (_, x) :: r' =>
      if lr_end x <? fixed_start then dmi_walk a fixed_start fixed_end r'
      else if fixed_end <? lr_start x then Some (fixed_start, fixed_end)
      else if (lr_start x <=? a) && (a <=? lr_end x) then None
      else
        let fixed_start := if lr_end x <? a then u64 (lr_end x + 1) else fixed_start in
        if a <? lr_start x then Some (fixed_start, u64 (lr_start x - 1))
        else dmi_walk a fixed_start fixed_end r'
  end.

Section Monitor.
(** The target behind the monitor. *)
Context {W : Type}.
Context (back_b_transport : payload -> W -> res (payload * W)).
Context (back_get_dmi : payload -> tlm_dmi -> W -> res (bool * payload * tlm_dmi * W)).

(** [b_transport]: the payload, the new state, and the DMI ranges withdrawn. *)
Definition em_b_transport (t : payload) (m : monitor) (w : W)
    : res (payload * monitor * list (Z * Z) * W) :=
  let? x := before_b_transport t m in
  let '(go, t, m) := x in
  if negb go then Ret (set_response_status TLM_GENERIC_ERROR_RESPONSE t, m, [], w)
  else
    let txn_copy := t in
    let? y := back_b_transport t w in
    let '(t, w) := y in
    if negb (bool_decide (response t = TLM_OK_RESPONSE)) then Ret (t, m, [], w)
    else
      let? z := after_b_transport txn_copy m in
      let '(clear, m, inv) := z in
      Ret (if (clear : bool) then set_dmi_allowed false t else t, m, inv, w).

(** [get_direct_mem_ptr]. *)
Definition em_get_direct_mem_ptr (t : payload) (d : tlm_dmi) (m : monitor) (w : W)
    : res (bool * payload * tlm_dmi * W) :=
  let? x := back_get_dmi t d w in
  let '(ret, t, d, w) := x in
  if negb ret then Ret (false, t, d, w)
  else
    match dmi_walk (address t) (dmi_start d) (dmi_end d)
            (om_prev (om_upper (address t) (em_regions m))).2 with
    | None => Ret (false, t, d, w)
    | Some (s, e) =>
        Ret (true, t,
             set_end_address e (set_start_address s (set_dmi_ptr (dmi_ptr d + (s - dmi_start d)) d)), w)
    end.

End Monitor.

(** ** Invariant *)

(** Regions are keyed by start, not empty, do not overlap; and the two tables hold
    the same regions, so an initiator has at most one. *)
Record em_wf (m : monitor) : Prop := {
  ew_sorted : om_wf (em_regions m);
  ew_key : forall k r, (k, r) ∈ em_regions m -> k = lr_start r;
  ew_range : forall k r, (k, r) ∈ em_regions m ->
      0 <= lr_start r <= lr_end r /\ lr_end r < 2 ^ 64;
  ew_disjoint : forall k r k' r', (k, r) ∈ em_regions m -> (k', r') ∈ em_regions m -> k < k' ->
      lr_end r < lr_start r';
  ew_id : forall id r, em_by_id m !! id = Some r <->
      (lr_start r, r) ∈ em_regions m /\ lr_id r = id;
}.

(** An access of at least one byte that does not wrap around the address space. *)
Definition txn_fits (t : payload) : Prop :=
  0 <= address t /\ 0 < data_length t /\ address t + data_length t <= 2 ^ 64.

Lemma txn_fits_last t : txn_fits t -> txn_last t = address t + data_length t - 1.
Proof. intros (? & ? & ?). unfold txn_last. apply u64_small. lia. Qed.

(** The region meets the access. *)
Definition meets (r : lregion) (t : payload) : Prop :=
  lr_start r <= txn_last t /\ address t <= lr_end r.

#[global] Instance meets_dec r t : Decision (meets r t).
Proof. unfold meets. apply _. Defined.

Lemma monitor_init_wf : em_wf monitor_init.
Proof.
  split; simpl; [apply om_wf_nil|set_solver|set_solver|set_solver|].
  intros id r. rewrite lookup_empty. split; [done|]. by intros [?%not_elem_of_nil _].
Qed.

(** ** find_region *)

Lemma find_walk_spec start fin (r : omap lregion) :
  om_wf r -> (forall k x, (k, x) ∈ r -> k = lr_start x) ->
  match find_walk start fin r with
  | Some x => (lr_start x, x) ∈ r /\ lr_start x <= fin /\ start <= lr_end x
  | None => forall k x, (k, x) ∈ r -> ~ (lr_start x <= fin /\ start <= lr_end x)
  end.
Proof.
  induction r as [|[k x] r IH]; intros Hwf Hkey; simpl; [set_solver|].
  apply om_wf_cons in Hwf as [Hwf Hlt]. rewrite Forall_forall in Hlt.
  assert (Hk : k = lr_start x) by (apply Hkey; by left). subst k.
  specialize (IH Hwf ltac:(set_solver)). destruct (lr_end x <? start) eqn:E1.
  - destruct (find_walk start fin r) as [y|]; [set_solver|].
    intros k y [[= -> ->]|Hin]%elem_of_cons; [lia|]. by apply (IH _ _ Hin).
  - destruct (fin <? lr_start x) eqn:E2.
    + intros k y [[= -> ->]|Hin]%elem_of_cons; [lia|]. specialize (Hlt _ Hin). simpl in Hlt.
      assert (k = lr_start y) by (apply Hkey; by right). lia.
    + split; [by left|lia].
Qed.

(** Stepping back to the region before an address skips only regions that end
    before it. *)
Lemma prev_skips m a l r l' r' :
  em_wf m -> em_regions m = l ++ r -> Forall (fun e => e.1 <= a) l ->
  om_prev (l, r) = (l', r') ->
  om_wf r' /\ (forall e, e ∈ r' -> e ∈ em_regions m) /\
  forall k x, (k, x) ∈ em_regions m ->
    (k, x) ∈ r' \/ exists kp p, (kp, p) ∈ r' /\ lr_end x < lr_start p <= a.
Proof.
  intros Hwf Hm Hl Hp. pose proof (om_prev_spec l r) as Hs. rewrite Hp in Hs.
  destruct Hs as [Happ Hcase]. rewrite <- Happ in Hm. rewrite Hm.
  pose proof (ew_sorted _ Hwf) as Hs. rewrite Hm in Hs.
  apply om_wf_app in Hs as (Hs1 & Hs2 & Hs3). split; [done|]. split; [set_solver|].
  intros k x [Hin|Hin]%elem_of_app; [right|by left].
  destruct Hcase as [(_ & -> & _)|([kp p] & -> & ->)]; [set_solver|].
  rewrite Forall_forall in Hs3, Hl. specialize (Hs3 _ Hin). apply Forall_cons in Hs3 as [Hs3 _].
  simpl in Hs3. pose proof (Hl (kp, p) ltac:(set_solver)) as Hle. simpl in Hle.
  pose proof (ew_key _ Hwf kp p ltac:(rewrite Hm; set_solver)).
  pose proof (ew_disjoint _ Hwf k x kp p ltac:(rewrite Hm; set_solver) ltac:(rewrite Hm; set_solver) Hs3).
  exists kp, p. split; [by left|lia].
Qed.

Lemma em_find_region_spec t m :
  em_wf m ->
  match em_find_region t m with
  | Some r => (lr_start r, r) ∈ em_regions m /\ meets r t
  | None => forall k r, (k, r) ∈ em_regions m -> ~ meets r t
  end.
Proof.
  intros Hwf. unfold em_find_region, meets.
  pose proof (om_lower_spec (address t) (em_regions m) (ew_sorted _ Hwf)) as Hu.
  destruct (om_lower (address t) (em_regions m)) as [l r]. destruct Hu as (Hm & Hl & _).
  destruct (om_prev (l, r)) as [l' r'] eqn:Hp.
  destruct (prev_skips m (address t) l r l' r') as (Hs & Hsub & Hall); [done|done| |done|].
  { eapply Forall_impl; [exact Hl|]. simpl. lia. }
  pose proof (find_walk_spec (address t) (txn_last t) r' Hs) as Hw. simpl.
  destruct (find_walk _ _ r') as [x|].
  - destruct Hw as (Hin & H1 & H2); [intros k x' Hin; by apply (ew_key _ Hwf), Hsub|]. auto.
  - intros k x Hin [H1 H2]. destruct (Hall _ _ Hin) as [Hin'|(kp & p & _ & ?)]; [|lia].
    apply (Hw ltac:(intros k' x' Hin0; by apply (ew_key _ Hwf), Hsub) _ _ Hin'). lia.
Qed.

(** ** Locking and unlocking *)

(** The region an initiator holds. *)
Definition held (m : monitor) (id : InitiatorId) : option lregion := em_by_id m !! id.

Lemma held_elem m id r : em_wf m -> held m id = Some r -> (lr_start r, r) ∈ em_regions m /\ lr_id r = id.
Proof. intros Hwf. apply (ew_id _ Hwf). Qed.

Lemma unlock_region_spec r m :
  em_wf m -> (lr_start r, r) ∈ em_regions m ->
  exists m', unlock_region r m = Ret m' /\ em_wf m' /\
    em_regions m' = om_erase (lr_start r) (em_regions m) /\
    (forall k x, (k, x) ∈ em_regions m' <-> (k, x) ∈ em_regions m /\ x <> r) /\
    (forall id, held m' id = if decide (id = lr_id r) then None else held m id).
Proof.
  intros Hwf Hin. pose proof (ew_sorted _ Hwf) as Hs. unfold unlock_region.
  assert (Hf : om_find (lr_start r) (em_regions m) = Some r) by (by apply om_find_elem).
  assert (Hi : em_by_id m !! lr_id r = Some r) by (by apply (ew_id _ Hwf)).
  rewrite Hf, Hi. rewrite !bool_decide_eq_true_2 by done. cbn [rbind assertb].
  assert (Hel : forall k x, (k, x) ∈ om_erase (lr_start r) (em_regions m) <->
    (k, x) ∈ em_regions m /\ x <> r).
  { intros k x. rewrite om_elem_erase by done. simpl. split; intros [Hx Hne]; (split; [done|]).
    - intros ->. by pose proof (ew_key _ Hwf _ _ Hx).
    - intros ->. apply Hne. apply om_find_elem in Hx; [|done]. congruence. }
  eexists. split; [done|]. split; [|split; [done|split; [done|]]].
  - split; simpl.
    + by apply om_wf_erase.
    + intros k x [Hx _]%Hel. by apply (ew_key _ Hwf).
    + intros k x [Hx _]%Hel. by apply (ew_range _ Hwf _ _ Hx).
    + intros k x k' x' [Hx _]%Hel [Hx' _]%Hel. by apply (ew_disjoint _ Hwf).
    + intros id x. rewrite lookup_delete_Some, Hel, (ew_id _ Hwf). split.
      * intros (Hne & Hx & Hid). split; [split; [done|]|done]. congruence.
      * intros [[Hx Hne] Hid]. split; [|done]. intros Heq. apply Hne.
        assert (em_by_id m !! lr_id r = Some x) by (apply (ew_id _ Hwf); split; congruence). congruence.
  - intros id. unfold held. simpl. case_decide as Hd; [subst; apply lookup_delete_eq|].
    by apply lookup_delete_ne.
Qed.

Lemma lock_region_spec t id m :
  em_wf m -> txn_fits t -> (forall k r, (k, r) ∈ em_regions m -> ~ meets r t) -> held m id = None ->
  exists m', lock_region t id m = Ret (m', (address t, txn_last t)) /\ em_wf m' /\
    (forall k x, (k, x) ∈ em_regions m' <->
       (k, x) ∈ em_regions m \/ (k, x) = (address t, region_of t id)) /\
    (forall A, held m' A = if decide (A = id) then Some (region_of t id) else held m A).
Proof.
  intros Hwf Hfit Hno Hid. pose proof (txn_fits_last t Hfit) as Hlast. destruct Hfit as (Ha & Hl & He).
  pose proof (ew_sorted _ Hwf) as Hs. unfold lock_region.
  assert (Hf : em_find_region t m = None).
  { pose proof (em_find_region_spec t m Hwf) as Hf. destruct (em_find_region t m) as [r|]; [|done].
    destruct Hf as [Hin Hm]. by destruct (Hno _ _ Hin). }
  rewrite bool_decide_eq_true_2 by done. cbn [rbind assertb].
  assert (Hel : forall k x, (k, x) ∈ om_insert (address t) (region_of t id) (em_regions m) <->
    (k, x) ∈ em_regions m \/ (k, x) = (address t, region_of t id)).
  { intros k x. rewrite om_elem_insert by done. split; [tauto|]. intros [Hx|Hx]; [right|by left].
    split; [done|]. simpl. intros ->. pose proof (ew_key _ Hwf _ _ Hx). pose proof (ew_range _ Hwf _ _ Hx).
    apply (Hno _ _ Hx). unfold meets. lia. }
  eexists. split; [done|]. split; [|split; [done|]].
  - unfold meets in Hno. split; simpl.
    + by apply om_wf_insert.
    + intros k x [Hx|[= -> ->]]%Hel; [|done]. by apply (ew_key _ Hwf).
    + intros k x [Hx|[= -> ->]]%Hel; [by apply (ew_range _ Hwf _ _ Hx)|]. simpl. lia.
    + intros k x k' x' [Hx|[= -> ->]]%Hel [Hx'|[= -> ->]]%Hel Hlt; simpl in *; [..|lia].
      * by apply (ew_disjoint _ Hwf _ _ _ _ Hx Hx').
      * pose proof (ew_key _ Hwf _ _ Hx). specialize (Hno _ _ Hx). lia.
      * pose proof (ew_key _ Hwf _ _ Hx'). pose proof (ew_range _ Hwf _ _ Hx'). specialize (Hno _ _ Hx'). lia.
    + intros A x. rewrite lookup_insert_Some, Hel, (ew_id _ Hwf). split.
      * intros [[<- <-]|(Hne & Hx & HA)]; [split; [by right|done]|]. split; [by left|done].
      * intros [[Hx|Hx] HA].
        -- right. split; [|done]. intros Heq. subst.
           assert (held m (lr_id x) = Some x) by (by apply (ew_id _ Hwf)). congruence.
        -- left. injection Hx as Hx1 ->. by simpl in HA.
  - intros A. unfold held. simpl. case_decide as Hd; [subst; apply lookup_insert_eq|].
    by apply lookup_insert_ne.
Qed.

Lemma regular_store_loop_spec fuel t m :
  em_wf m -> (length (em_regions m) <= fuel)%nat ->
  exists m', regular_store_loop fuel t m = Ret m' /\ em_wf m' /\
    (forall k x, (k, x) ∈ em_regions m' <-> (k, x) ∈ em_regions m /\ ~ meets x t) /\
    (forall id, held m' id = match held m id with
                             | Some r => if decide (meets r t) then None else Some r
                             | None => None end).
Proof.
  revert m. induction fuel as [|fuel IH]; intros m Hwf Hlen;
    pose proof (em_find_region_spec t m Hwf) as Hf; simpl;
    destruct (em_find_region t m) as [r|] eqn:Ef.
  1: { destruct Hf as [Hin _]. destruct (em_regions m); [set_solver|simpl in Hlen; lia]. }
  2: { destruct Hf as [Hin Hm]. destruct (unlock_region_spec r m Hwf Hin) as (m1 & -> & Hwf1 & Hreg & Hel & Hheld).
    cbn [rbind]. destruct (IH m1 Hwf1) as (m' & -> & Hwf' & Hel' & Hheld').
    { pose proof (om_length_erase (lr_start r) r (em_regions m)) as Hle. rewrite Hreg.
      rewrite <- Hle in Hlen by (by apply om_find_elem; [apply Hwf|]). lia. }
    exists m'. split; [done|]. split; [done|]. split.
    - intros k x. rewrite Hel', Hel. split; [tauto|]. intros [Hx Hno]. split; [|done].
      split; [done|]. by intros ->.
    - intros id. rewrite Hheld', Hheld. case_decide as Hd; [|done]. subst.
      assert (held m (lr_id r) = Some r) as -> by (by apply (ew_id _ Hwf)).
      by rewrite decide_True. }
  all: exists m; split; [done|]; split; [done|]; split;
    [intros k x; split; [intros Hx; split; [done|by eapply Hf]|by intros []]|];
    intros id; destruct (held m id) as [x|] eqn:Eh; [|done];
    apply held_elem in Eh as [Hx _]; [|done]; rewrite decide_False; [done|by eapply Hf].
Qed.

Lemma unlock_by_id_spec id m :
  em_wf m ->
  exists m', unlock_region_by_id id m = Ret m' /\ em_wf m' /\
    (forall k x, (k, x) ∈ em_regions m' -> (k, x) ∈ em_regions m) /\
    (forall A, held m' A = if decide (A = id) then None else held m A).
Proof.
  intros Hwf. unfold unlock_region_by_id. destruct (em_by_id m !! id) as [r|] eqn:E.
  - apply (ew_id _ Hwf) in E as [Hin <-].
    destruct (unlock_region_spec r m Hwf Hin) as (m' & -> & Hwf' & _ & Hel & Hheld).
    exists m'. split; [done|]. split; [done|]. split; [|done]. by intros k x []%Hel.
  - exists m. split; [done|]. split; [done|]. split; [done|]. intros A. case_decide; [by subst|done].
Qed.

(** An exclusive load either finds the range (partly) locked and changes nothing,
    or leaves its initiator holding exactly the range and withdraws DMI from it. *)
Lemma exclusive_load_spec t id m :
  em_wf m -> txn_fits t -> ext_path t = Some id ->
  exists m' inv, handle_exclusive_load t m = Ret (m', inv) /\ em_wf m' /\
    ((exists k r, (k, r) ∈ em_regions m /\ meets r t) /\ m' = m /\ inv = [] \/
     (forall k r, (k, r) ∈ em_regions m -> ~ meets r t) /\ inv = [(address t, txn_last t)] /\
     (forall A, held m' A = if decide (A = id) then Some (region_of t id) else held m A)).
Proof.
  intros Hwf Hfit Hp. unfold handle_exclusive_load, get_initiator_id. rewrite Hp. cbn [rbind].
  pose proof (em_find_region_spec t m Hwf) as Hf. destruct (em_find_region t m) as [r|].
  - exists m, []. split; [done|]. split; [done|]. left. split; [|done]. destruct Hf. eauto.
  - destruct (unlock_by_id_spec id m Hwf) as (m1 & -> & Hwf1 & Hsub & Hh1). cbn [rbind].
    destruct (lock_region_spec t id m1 Hwf1 Hfit) as (m2 & -> & Hwf2 & _ & Hh2).
    { intros k r Hin. by eapply Hf, Hsub. }
    { rewrite Hh1. by rewrite decide_True. }
    cbn [rbind]. do 2 eexists. split; [done|]. split; [done|]. right. split; [done|].
    split; [done|]. intros A. simpl. rewrite Hh2, Hh1. by case_decide.
Qed.

Lemma em_apart m k r k' r' :
  em_wf m -> (k, r) ∈ em_regions m -> (k', r') ∈ em_regions m ->
  r = r' \/ lr_end r < lr_start r' \/ lr_end r' < lr_start r.
Proof.
  intros Hwf Hr Hr'. destruct (Z.lt_total k k') as [Hlt|[->|Hlt]].
  - right. left. by apply (ew_disjoint _ Hwf _ _ _ _ Hr Hr').
  - left. apply om_find_elem in Hr, Hr'; try apply Hwf. congruence.
  - right. right. by apply (ew_disjoint _ Hwf _ _ _ _ Hr' Hr).
Qed.

(** An exclusive store goes through exactly when its initiator holds exactly its
    range; it then gives the range up.  A failed one changes nothing. *)
Lemma exclusive_store_spec t id m :
  em_wf m -> txn_fits t -> ext_path t = Some id ->
  exists ok st m', handle_exclusive_store t m = Ret (ok, st, m') /\ em_wf m' /\
    (ok = true /\ st = EXCLUSIVE_STORE_SUCCESS /\ held m id = Some (region_of t id) /\
       (forall A, held m' A = if decide (A = id) then None else held m A) /\
       (forall k r, (k, r) ∈ em_regions m' -> ~ meets r t) \/
     ok = false /\ st = EXCLUSIVE_STORE_FAILURE /\ held m id <> Some (region_of t id) /\ m' = m).
Proof.
  intros Hwf Hfit Hp. pose proof (txn_fits_last t Hfit) as Hlast. destruct Hfit as (Ha & Hl & He).
  unfold handle_exclusive_store, get_initiator_id. rewrite Hp.
  pose proof (em_find_region_spec t m Hwf) as Hf. destruct (em_find_region t m) as [r|] eqn:Ef.
  - destruct Hf as [Hin Hm]. cbn [rbind].
    assert (Hheld : held m id = Some (region_of t id) -> r = region_of t id).
    { intros [Hin' _]%held_elem; [|done]. destruct (em_apart m _ _ _ _ Hwf Hin Hin') as [|Hd]; [done|].
      unfold meets in Hm. simpl in Hd. lia. }
    destruct (decide (lr_id r = id)) as [Hid|Hid].
    + rewrite bool_decide_eq_true_2 by done. simpl. destruct (is_exact_match r t) eqn:Hx; simpl.
      * destruct (unlock_region_spec r m Hwf Hin) as (m' & -> & Hwf' & _ & Hel & Hh). cbn [rbind].
        do 3 eexists. split; [done|]. split; [done|]. left. split; [done|]. split; [done|].
        unfold is_exact_match in Hx. apply andb_prop in Hx as [Hx1%Z.eqb_eq Hx2%Z.eqb_eq].
        split; [|split; [by subst|]].
        -- apply (ew_id _ Hwf). unfold region_of, txn_last. rewrite <- Hx1, <- Hx2, <- Hid. simpl. by destruct r.
        -- intros k x [Hx Hne]%Hel Hmx. rewrite Hx1, u64_small in Hx2 by lia.
           destruct (em_apart m _ _ _ _ Hwf Hin Hx) as [->|Hd]; [done|]. unfold meets in Hmx. lia.
      * do 3 eexists. split; [done|]. split; [done|]. right. split; [done|]. split; [done|].
        split; [|done]. intros ->%Hheld. unfold is_exact_match, region_of, txn_last in Hx. simpl in Hx. lia.
    + rewrite bool_decide_eq_false_2 by done. simpl. do 3 eexists. split; [done|]. split; [done|].
      right. split; [done|]. split; [done|]. split; [|done]. by intros ->%Hheld.
  - do 3 eexists. split; [done|]. split; [done|]. right. split; [done|]. split; [done|].
    split; [|done]. intros [Hin _]%held_elem; [|done]. apply (Hf _ _ Hin).
    unfold meets. simpl. lia.
Qed.

(** ** Transactions *)

(** What a transaction must be for the monitor: a range within the address space,
    and a path when it is exclusive. *)
Definition em_txn_ok (t : payload) : Prop :=
  txn_fits t /\ (ext_excl t <> None -> exists id, ext_path t = Some id).

Definition excl_load_by (A : InitiatorId) (t : payload) : Prop :=
  is_store t = false /\ ext_excl t <> None /\ ext_path t = Some A.
Definition excl_store_by (A : InitiatorId) (t : payload) : Prop :=
  is_store t = true /\ ext_excl t <> None /\ ext_path t = Some A.
Definition plain_store (t : payload) : Prop := is_store t = true /\ ext_excl t = None.

(** The access [t] is a store that the monitor lets through in state [m]. *)
Definition performs (t : payload) (m : monitor) : Prop :=
  is_store t = true /\ exists t1 m1, before_b_transport t m = Ret (true, t1, m1).

(** The effect of [before_b_transport] on the holders. *)
Lemma before_spec t m :
  em_wf m -> em_txn_ok t ->
  exists go t1 m1, before_b_transport t m = Ret (go, t1, m1) /\ em_wf m1 /\
    address t1 = address t /\ data_length t1 = data_length t /\ command t1 = command t /\
    ext_path t1 = ext_path t /\ (ext_excl t1 = None <-> ext_excl t = None) /\
    (is_store t = false -> m1 = m /\ go = true) /\
    (forall A, held m1 A = held m A \/ held m1 A = None) /\
    (forall A, ~ excl_store_by A t -> ~ plain_store t -> held m1 A = held m A) /\
    (forall A r, ~ excl_store_by A t -> held m A = Some r -> ~ meets r t -> held m1 A = Some r) /\
    (is_store t = true -> go = true -> forall A r, held m1 A = Some r -> ~ meets r t).
Proof.
  intros Hwf [Hfit Hpath]. unfold before_b_transport. destruct (is_store t) eqn:Est; simpl.
  2: { exists true, t, m. split; [done|]. naive_solver. }
  destruct (ext_excl t) as [s|] eqn:Ex.
  - destruct (Hpath ltac:(done)) as [id Hid].
    destruct (exclusive_store_spec t id m Hwf Hfit Hid) as (ok & st & m' & -> & Hwf' & Hcase).
    cbn [rbind]. exists ok, (set_excl (Some st) t), m'. split; [done|]. split; [done|].
    do 4 (split; [done|]). split; [done|]. split; [done|].
    destruct Hcase as [(-> & -> & _ & Hh & Hno)|(-> & -> & _ & ->)].
    + split; [intros A; rewrite Hh; case_decide; auto|].
      assert (HA : forall A, ~ excl_store_by A t -> A <> id).
      { intros A HA ->. apply HA. unfold excl_store_by. rewrite Ex. done. }
      split; [intros A Hne _; rewrite Hh; by rewrite decide_False by auto|].
      split; [intros A r Hne Hr _; rewrite Hh; by rewrite decide_False by auto|].
      intros _ _ A r Hr. apply held_elem in Hr as [Hin _]; [|done]. by eapply Hno.
    + naive_solver.
  - destruct (regular_store_loop_spec _ t m Hwf (Nat.le_refl _)) as (m' & Hm' & Hwf' & Hel & Hh).
    unfold handle_regular_store. rewrite Hm'. cbn [rbind]. exists true, t, m'.
    split; [done|]. split; [done|]. do 4 (split; [done|]). split; [done|]. split; [done|].
    split; [intros A; rewrite Hh; destruct (held m A) as [r|]; [case_decide|]; auto|].
    split; [intros A _ Hps; exfalso; by apply Hps|].
    split; [intros A r _ Hr Hno; rewrite Hh, Hr; by rewrite decide_False|].
    intros _ _ A r Hr. rewrite Hh in Hr. destruct (held m A) as [x|]; [|done].
    case_decide; [done|]. by simplify_eq.
Qed.

Section Trace.
Context {W : Type} (back : payload -> W -> res (payload * W)).

(** One transaction through the monitor. *)
Lemma em_step t m w t' m' inv w' :
  em_wf m -> em_txn_ok t -> em_b_transport back t m w = Ret (t', m', inv, w') ->
  em_wf m' /\
  (forall A, ~ excl_load_by A t -> held m' A = held m A \/ held m' A = None) /\
  (forall A r, ~ excl_store_by A t -> ~ excl_load_by A t -> held m A = Some r ->
     (plain_store t -> ~ meets r t) -> held m' A = Some r) /\
  (performs t m -> forall A r, held m' A = Some r -> ~ meets r t).
Proof.
  intros Hwf Hok. pose proof (before_spec t m Hwf Hok) as
    (go & t1 & m1 & Hb & Hwf1 & Ha & Hdl & Hc & Hp & Hx & Hld & Hdrop & Hsame & Hkeep & Hclear).
  unfold em_b_transport. rewrite Hb. cbn [rbind].
  assert (Hst : is_store t1 = is_store t) by (unfold is_store; by rewrite Hc).
  assert (Hkeep' : forall A r, ~ excl_store_by A t -> held m A = Some r ->
    (plain_store t -> ~ meets r t) -> held m1 A = Some r).
  { intros A r HA Hr Hno. destruct (decide (is_store t = true /\ ext_excl t = None)) as [Hps|Hps].
    - by apply Hkeep; [..|by apply Hno].
    - rewrite <- Hr. by apply Hsame. }
  assert (Hperf : performs t m -> forall A r, held m1 A = Some r -> ~ meets r t).
  { intros (Hs & t2 & m2 & Hb'). rewrite Hb in Hb'. simplify_eq. by apply Hclear. }
  destruct go; simpl; [|intros [= <- <- <- <-]; split; [done|]; split; [auto|]; split; [auto|done]].
  intros (y & _ & Hk)%rbind_Ret. destruct y as [t2 w2].
  destruct (bool_decide (response t2 = TLM_OK_RESPONSE)); simpl in Hk;
    [|injection Hk as <- <- <- <-; split; [done|]; split; [auto|]; split; [auto|done]].
  apply rbind_Ret in Hk as ([[cl m2] inv2] & Haft & Hk). injection Hk as <- <- <- <-.
  unfold after_b_transport in Haft. rewrite Hst in Haft. destruct (is_store t) eqn:Es.
  { injection Haft as <- <- <-. split; [done|]. split; [auto|]. split; [auto|done]. }
  destruct (Hld eq_refl) as [-> _]. destruct (ext_excl t1) as [s|] eqn:Ex.
  - destruct Hok as [Hfit Hpath]. destruct Hpath as [id Hid]; [naive_solver|].
    assert (Hfit1 : txn_fits t1) by (unfold txn_fits; by rewrite Ha, Hdl).
    destruct (exclusive_load_spec t1 id m Hwf Hfit1) as (m3 & inv3 & Hl & Hwf3 & Hcase); [congruence|].
    rewrite Hl in Haft. cbn [rbind] in Haft. injection Haft as <- <- <-. simpl.
    assert (HA : forall A, ~ excl_load_by A t -> A <> id).
    { intros A HA ->. apply HA. split; [done|]. split; [naive_solver|done]. }
    assert (Hh : forall A, ~ excl_load_by A t -> held m3 A = held m A).
    { intros A HnA. destruct Hcase as [(_ & -> & _)|(_ & _ & Hh)]; [done|].
      rewrite Hh. by rewrite decide_False by auto. }
    split; [done|]. split; [intros A HnA; left; auto|].
    split; [intros A r _ HnA Hr _; by rewrite Hh|]. intros [Hs _]; congruence.
  - injection Haft as <- <- <-. split; [done|]. split; [auto|]. split; [auto|]. intros [Hs _]; congruence.
Qed.

(** A sequence of transactions, from any initiators. *)
Fixpoint em_run (ts : list payload) (m : monitor) (w : W) : res (monitor * W) :=
  match ts with
  | [] => Ret (m, w)
  | t :: ts' =>
      let? x := em_b_transport back t m w in
      let '(_, m, _, w) := x in em_run ts' m w
  end.

Lemma em_run_held ts m w m' w' A :
  em_wf m -> Forall em_txn_ok ts -> em_run ts m w = Ret (m', w') ->
  em_wf m' /\
  (Forall (fun t => ~ excl_load_by A t) ts -> held m' A = held m A \/ held m' A = None) /\
  (forall r, Forall (fun t => ~ excl_store_by A t /\ ~ excl_load_by A t /\
                              (plain_store t -> ~ meets r t)) ts ->
     held m A = Some r -> held m' A = Some r).
Proof.
  revert m w. induction ts as [|t ts IH]; intros m w Hwf Hok; simpl.
  { intros [= <- <-]. auto. }
  apply Forall_cons in Hok as [Ht Hok]. intros ([[[t1 m1] inv] w1] & Hb & Hr)%rbind_Ret.
  destruct (em_step _ _ _ _ _ _ _ Hwf Ht Hb) as (Hwf1 & Hdrop & Hkeep & _).
  destruct (IH _ _ Hwf1 Hok Hr) as (Hwf' & Hd' & Hk'). split; [done|]. split.
  - intros [HA Hall]%Forall_cons. destruct (Hd' Hall) as [->|]; [|by right]. by apply Hdrop.
  - intros r [(H1 & H2 & H3) Hall]%Forall_cons Hh. apply Hk'; [done|]. by apply Hkeep.
Qed.

End Trace.

(** ** DMI *)

(** Walking the regions in address order from the one before [a] on: the bounds
    returned hold [a] and no region. *)
Lemma dmi_walk_spec a fs fe (r : omap lregion) :
  om_wf r -> (forall k x, (k, x) ∈ r -> k = lr_start x /\ 0 <= lr_start x <= lr_end x /\ lr_end x < 2 ^ 64) ->
  (forall k x k' x', (k, x) ∈ r -> (k', x') ∈ r -> k < k' -> lr_end x < lr_start x') ->
  0 <= fs <= a -> a <= fe < 2 ^ 64 ->
  match dmi_walk a fs fe r with
  | Some (s, e) => fs <= s <= a /\ a <= e <= fe /\
      forall k x, (k, x) ∈ r -> ~ (lr_start x <= e /\ s <= lr_end x)
  | None => exists k x, (k, x) ∈ r /\ lr_start x <= a <= lr_end x
  end.
Proof.
  revert fs. induction r as [|[k x] r IH]; intros fs Hwf Hx Hdis Hfs Hfe; simpl; [set_solver|].
  apply om_wf_cons in Hwf as [Hwf Hlt]. rewrite Forall_forall in Hlt.
  destruct (Hx k x ltac:(by left)) as (Hk & Hxr & Hx64).
  assert (Hnext : forall k' x', (k', x') ∈ r -> lr_end x < lr_start x').
  { intros k' x' Hin. eapply (Hdis k x k' x'); [by left|by right|]. by specialize (Hlt _ Hin). }
  assert (IH' : forall fs', 0 <= fs' <= a -> lr_end x < fs' -> match dmi_walk a fs' fe r with
    | Some (s, e) => fs' <= s <= a /\ a <= e <= fe /\
        forall k0 x0, (k0, x0) ∈ (k, x) :: r -> ~ (lr_start x0 <= e /\ s <= lr_end x0)
    | None => exists k0 x0, (k0, x0) ∈ (k, x) :: r /\ lr_start x0 <= a <= lr_end x0 end).
  { intros fs' Hfs' Hend. specialize (IH fs' Hwf ltac:(set_solver) ltac:(set_solver) Hfs' Hfe).
    destruct (dmi_walk a fs' fe r) as [[s e]|]; [|set_solver]. destruct IH as (? & ? & Hno).
    split; [done|]. split; [done|]. intros k0 x0 [[= -> ->]|Hin]%elem_of_cons; [lia|]. by eapply Hno. }
  destruct (lr_end x <? fs) eqn:E1; [apply IH'; lia|].
  destruct (fe <? lr_start x) eqn:E2.
  { split; [lia|]. split; [lia|]. intros k0 x0 [[= -> ->]|Hin]%elem_of_cons; [lia|].
    specialize (Hnext _ _ Hin). lia. }
  destruct ((lr_start x <=? a) && (a <=? lr_end x)) eqn:E3.
  { exists k, x. split; [by left|lia]. }
  destruct (lr_end x <? a) eqn:E4.
  - rewrite u64_small by lia. destruct (a <? lr_start x) eqn:E5; [lia|].
    specialize (IH' (lr_end x + 1) ltac:(lia) ltac:(lia)).
    destruct (dmi_walk a (lr_end x + 1) fe r) as [[s e]|]; [|done].
    destruct IH' as (? & ? & ?). split; [lia|done].
  - destruct (a <? lr_start x) eqn:E5; [|lia]. rewrite u64_small by lia.
    split; [lia|]. split; [lia|]. intros k0 x0 [[= -> ->]|Hin]%elem_of_cons; [lia|].
    specialize (Hnext _ _ Hin). lia.
Qed.

(** ** Properties *)

(** C28: no transaction of at least one byte that stays within the address space and, if it is
    exclusive, carries the path of its initiator breaks the consistency of the two region tables or
    makes an assertion of the monitor fail, whoever it is from, as long as the target behind the
    monitor returns.  [empty_loads_assert] shows what transactions without data do. *)
Theorem em_invariant (W : Type) (back : payload -> W -> res (payload * W)) t m w :
  em_wf m -> em_txn_ok t -> (forall u v, exists y, back u v = Ret y) ->
  exists t' m' inv w', em_b_transport back t m w = Ret (t', m', inv, w') /\ em_wf m'.
Proof.
  intros Hwf Hok Hback.
  assert (Htot : exists x, em_b_transport back t m w = Ret x).
  { pose proof (before_spec t m Hwf Hok) as
      (go & t1 & m1 & Hb & Hwf1 & Ha & Hdl & Hc & Hp & Hx & Hld & _).
    unfold em_b_transport. rewrite Hb. cbn [rbind]. destruct go; simpl; [|eauto].
    destruct (Hback t1 w) as [[t2 w2] ->]. cbn [rbind].
    destruct (bool_decide _); simpl; [|eauto]. unfold after_b_transport.
    destruct (is_store t1) eqn:Es; [by eauto|]. destruct (ext_excl t1) as [s|] eqn:Ex; [|by eauto].
    assert (Es' : is_store t = false) by (unfold is_store in *; by rewrite <- Hc).
    destruct (Hld Es') as [-> _]. destruct Hok as [Hfit Hpath]. destruct Hpath as [id Hid]; [naive_solver|].
    destruct (exclusive_load_spec t1 id m Hwf) as (m3 & inv3 & -> & _);
      [unfold txn_fits; by rewrite Ha, Hdl|congruence|]. cbn [rbind]. eauto. }
  destruct Htot as [[[[t' m'] inv] w'] Hr]. exists t', m', inv, w'. split; [done|].
  by eapply em_step.
Qed.

(** A memory of one cell that accepts everything. *)
Definition ex_back (t : payload) (w : list Z) : res (payload * list Z) :=
  Ret (set_response_status TLM_OK_RESPONSE t, if is_store t then data t else w).

(** An exclusive access by the initiator [p]. *)
Definition ex_excl (c : tlm_command) (a : Z) (d : list Z) (p : list Z) : payload :=
  set_path (Some p) (set_excl (Some EXCLUSIVE_STORE_NA) (plain_txn c a d)).

Definition ex_load : payload := ex_excl TLM_READ_COMMAND 0x100 [0; 0; 0; 0] [1].
Definition ex_store : payload := ex_excl TLM_WRITE_COMMAND 0x100 [9; 9; 9; 9] [1].
Definition ex_other : payload := set_path (Some [2]) (plain_txn TLM_WRITE_COMMAND 0x102 [5]).

Definition ex_locked : monitor :=
  mk_monitor [(0x100, region_of ex_load [1])] {[ [1] := region_of ex_load [1] ]}.

Lemma ex_txn_ok : Forall em_txn_ok [ex_load; ex_store; ex_other].
Proof.
  repeat constructor; try (vm_compute; congruence); intros _; eexists; reflexivity.
Qed.

Lemma ex_locked_wf : em_wf ex_locked.
Proof.
  split; simpl.
  - repeat constructor.
  - intros k r [= -> ->]%list_elem_of_singleton. done.
  - intros k r [= -> ->]%list_elem_of_singleton. vm_compute. split; [split|]; congruence.
  - intros k r k' r' [= -> ->]%list_elem_of_singleton [= -> ->]%list_elem_of_singleton. lia.
  - intros id r. rewrite lookup_singleton_Some, list_elem_of_singleton. split.
    + intros [<- <-]. done.
    + intros [[= Hs ->] <-]. done.
Qed.

Lemma em_invariant_witness :
  exists t' m' inv w', em_b_transport ex_back ex_load monitor_init [] = Ret (t', m', inv, w') /\ em_wf m'.
Proof.
  apply (em_invariant _ ex_back ex_load monitor_init []); [apply monitor_init_wf| |].
  - apply (proj1 (Forall_cons _ _ _) ex_txn_ok).
  - intros u v. eexists. reflexivity.
Defined.

(** Exclusive loads of no bytes by two initiators at one address share a key of the first table:
    when both have moved on to other addresses, the second one fails an assertion. *)
Lemma empty_loads_assert :
  let load a d id := ex_excl TLM_READ_COMMAND a d id in
  exists m1 m2 m3 t1 t2 t3 i1 i2 i3 w1 w2 w3,
    em_b_transport ex_back (load 0x100 [] [1]) monitor_init [] = Ret (t1, m1, i1, w1) /\
    em_b_transport ex_back (load 0x100 [] [2]) m1 w1 = Ret (t2, m2, i2, w2) /\
    em_b_transport ex_back (load 0x200 [0; 0; 0; 0] [1]) m2 w2 = Ret (t3, m3, i3, w3) /\
    em_b_transport ex_back (load 0x300 [0; 0; 0; 0] [2]) m3 w3 = Err StopAssert.
Proof. cbv zeta. do 12 eexists. repeat (split; [reflexivity|]). reflexivity. Qed.

(** C5: load-link/store-conditional atomicity. If any store that meets the range of
    an exclusive store was let through after the last exclusive load of the same
    initiator, whatever else happened since, then that exclusive store fails: it
    is not forwarded, and it is reported in the response and in the extension. *)
Theorem em_lost_reservation (W : Type) (back : payload -> W -> res (payload * W))
    A s x ts m0 w0 t1 m1 inv1 w1 m2 w2 :
  em_wf m0 -> em_txn_ok s -> Forall em_txn_ok ts -> em_txn_ok x ->
  performs s m0 -> em_b_transport back s m0 w0 = Ret (t1, m1, inv1, w1) ->
  em_run back ts m1 w1 = Ret (m2, w2) -> Forall (fun t => ~ excl_load_by A t) ts ->
  excl_store_by A x -> address x <= txn_last s -> address s <= txn_last x ->
  em_b_transport back x m2 w2 =
    Ret (set_response_status TLM_GENERIC_ERROR_RESPONSE (set_excl (Some EXCLUSIVE_STORE_FAILURE) x), m2, [], w2).
Proof.
  intros Hwf Hs Hts Hx Hperf Hb Hrun Hall (Hst & Hexcl & Hpath) Ho1 Ho2.
  destruct (em_step back _ _ _ _ _ _ _ Hwf Hs Hb) as (Hwf1 & _ & _ & Hclear).
  destruct (em_run_held back _ _ _ _ _ A Hwf1 Hts Hrun) as (Hwf2 & Hd & _).
  unfold em_b_transport, before_b_transport. rewrite Hst. simpl.
  destruct (ext_excl x) as [e|]; [|done]. destruct Hx as [Hfit _].
  destruct (exclusive_store_spec x A m2 Hwf2 Hfit Hpath) as (ok & st & m' & -> & _ & Hcase). cbn [rbind].
  destruct Hcase as [(_ & _ & Hheld & _)|(-> & -> & _ & ->)]; [|done]. exfalso.
  destruct (Hd Hall) as [Heq|Heq]; rewrite Heq in Hheld; [|done].
  by apply (Hclear Hperf _ _ Hheld).
Qed.

Lemma em_lost_reservation_witness :
  let m1 := monitor_init in
  performs ex_other ex_locked /\
  em_b_transport ex_back ex_store m1 [5] =
    Ret (set_response_status TLM_GENERIC_ERROR_RESPONSE (set_excl (Some EXCLUSIVE_STORE_FAILURE) ex_store), m1, [], [5]).
Proof.
  assert (Hp : performs ex_other ex_locked) by (split; [done|]; do 2 eexists; vm_compute; reflexivity).
  pose proof ex_txn_ok as Hok. apply Forall_cons in Hok as [_ Hok]. apply Forall_cons in Hok as [Hst Hok].
  apply Forall_inv in Hok.
  split; [done|].
  apply (em_lost_reservation (list Z) ex_back [1] ex_other ex_store [] ex_locked []
    (set_response_status TLM_OK_RESPONSE ex_other) monitor_init [] [5] monitor_init [5]);
    [apply ex_locked_wf|done|constructor|done|done|vm_compute; done|done|constructor|done|vm_compute; done|vm_compute; done].
Defined.

(** the reservation of an exclusive load is kept through any traffic that
    neither stores to the range nor comes as an exclusive access of the same
    initiator, and the exclusive store that follows is forwarded and succeeds. *)
Theorem em_reservation_kept (W : Type) (back : payload -> W -> res (payload * W)) A x ts m0 w0 m1 w1 :
  em_wf m0 -> Forall em_txn_ok ts -> em_txn_ok x -> excl_store_by A x ->
  held m0 A = Some (region_of x A) ->
  Forall (fun t => ~ excl_store_by A t /\ ~ excl_load_by A t /\
                   (plain_store t -> ~ meets (region_of x A) t)) ts ->
  em_run back ts m0 w0 = Ret (m1, w1) ->
  exists m2, before_b_transport x m1 = Ret (true, set_excl (Some EXCLUSIVE_STORE_SUCCESS) x, m2) /\
    held m2 A = None.
Proof.
  intros Hwf Hts Hx (Hst & Hexcl & Hpath) Hheld Hall Hrun.
  destruct (em_run_held back _ _ _ _ _ A Hwf Hts Hrun) as (Hwf1 & _ & Hk).
  specialize (Hk _ Hall Hheld). unfold before_b_transport. rewrite Hst. simpl.
  destruct (ext_excl x) as [e|]; [|done]. destruct Hx as [Hfit _].
  destruct (exclusive_store_spec x A m1 Hwf1 Hfit Hpath) as (ok & st & m' & -> & _ & Hcase). cbn [rbind].
  destruct Hcase as [(-> & -> & _ & Hh & _)|(_ & _ & Hno & _)]; [|done].
  exists m'. split; [done|]. rewrite Hh. by rewrite decide_True.
Qed.

Lemma em_reservation_kept_witness :
  exists m2, before_b_transport ex_store ex_locked =
    Ret (true, set_excl (Some EXCLUSIVE_STORE_SUCCESS) ex_store, m2) /\ held m2 [1] = None.
Proof.
  pose proof ex_txn_ok as Hok. apply Forall_cons in Hok as [_ Hok]. apply Forall_cons in Hok as [Hst _].
  apply (em_reservation_kept (list Z) ex_back [1] ex_store [set_path (Some [2]) (plain_txn TLM_WRITE_COMMAND 0x104 [5])]
    ex_locked [] ex_locked [5]);
    [apply ex_locked_wf| |done|done|vm_compute; done| |vm_compute; done].
  - repeat constructor; vm_compute; congruence.
  - constructor; [|constructor]. split; [intros (_ & Hn & _); by apply Hn|].
    split; [by intros [? _]|]. intros _ [H1 H2]. vm_compute in H1. by destruct H1.
Defined.

(** an exclusive load of a range no one has locked, that the target accepts,
    leaves its initiator holding exactly the range, withdraws DMI from it and clears
    the DMI hint. *)
Theorem em_exclusive_load_locks (W : Type) (back : payload -> W -> res (payload * W)) A t m w t2 w2 :
  em_wf m -> em_txn_ok t -> excl_load_by A t ->
  (forall k r, (k, r) ∈ em_regions m -> ~ meets r t) ->
  back t w = Ret (t2, w2) -> response t2 = TLM_OK_RESPONSE ->
  exists m', em_b_transport back t m w =
    Ret (set_dmi_allowed false t2, m', [(address t, txn_last t)], w2) /\ em_wf m' /\
    held m' A = Some (region_of t A) /\ forall A', A' <> A -> held m' A' = held m A'.
Proof.
  intros Hwf [Hfit _] (Hst & Hexcl & Hpath) Hno Hb Hr.
  unfold em_b_transport, before_b_transport. rewrite Hst. cbn [negb rbind]. rewrite Hb. cbn [rbind].
  rewrite bool_decide_eq_true_2 by done. cbn [negb]. unfold after_b_transport. rewrite Hst.
  destruct (ext_excl t) as [e|]; [|done].
  destruct (exclusive_load_spec t A m Hwf Hfit Hpath) as (m' & inv & -> & Hwf' & Hcase). cbn [rbind].
  destruct Hcase as [((k & r & Hin & Hm) & _)|(_ & -> & Hh)]; [by destruct (Hno _ _ Hin)|].
  exists m'. split; [done|]. split; [done|]. split; [rewrite Hh; by rewrite decide_True|].
  intros A' HA. rewrite Hh. by rewrite decide_False.
Qed.

Lemma em_exclusive_load_locks_witness :
  exists m', em_b_transport ex_back ex_load monitor_init [] =
    Ret (set_dmi_allowed false (set_response_status TLM_OK_RESPONSE ex_load), m', [(0x100, 0x103)], []) /\ em_wf m' /\
    held m' [1] = Some (region_of ex_load [1]) /\ forall A', A' <> [1] -> held m' A' = held monitor_init A'.
Proof.
  apply (em_exclusive_load_locks (list Z) ex_back [1] ex_load monitor_init [] (set_response_status TLM_OK_RESPONSE ex_load) []);
    [apply monitor_init_wf|apply (proj1 (Forall_cons _ _ _) ex_txn_ok)|done| |done|done].
  intros k r Hin. by apply not_elem_of_nil in Hin.
Defined.

(** a DMI region granted through the monitor holds the requested address, holds
    no locked byte, stays within the grant of the target, and maps each address to
    the host byte the target granted; it is refused only when the requested address
    is locked. *)
Theorem em_dmi_excludes_locked (W : Type)
    (back_dmi : payload -> tlm_dmi -> W -> res (bool * payload * tlm_dmi * W)) t d m w t1 d1 w1 :
  em_wf m -> back_dmi t d w = Ret (true, t1, d1, w1) ->
  0 <= dmi_start d1 <= address t1 -> address t1 <= dmi_end d1 < 2 ^ 64 ->
  (exists d', em_get_direct_mem_ptr back_dmi t d m w = Ret (true, t1, d', w1) /\
     dmi_covers d' (address t1) /\
     (forall k r, (k, r) ∈ em_regions m -> ~ (lr_start r <= dmi_end d' /\ dmi_start d' <= lr_end r)) /\
     (forall a, dmi_covers d' a -> dmi_covers d1 a /\ dmi_host d' a = dmi_host d1 a)) \/
  (em_get_direct_mem_ptr back_dmi t d m w = Ret (false, t1, d1, w1) /\
   exists k r, (k, r) ∈ em_regions m /\ lr_start r <= address t1 <= lr_end r).
Proof.
  intros Hwf Hb Hs He. unfold em_get_direct_mem_ptr. rewrite Hb. cbn [rbind negb].
  pose proof (om_upper_spec (address t1) (em_regions m) (ew_sorted _ Hwf)) as Hu.
  destruct (om_upper (address t1) (em_regions m)) as [l r]. destruct Hu as (Hm & Hl & _).
  destruct (om_prev (l, r)) as [l' r'] eqn:Hp. cbn [snd].
  destruct (prev_skips m (address t1) l r l' r' Hwf Hm Hl Hp) as (Hsr & Hsub & Hall).
  pose proof (dmi_walk_spec (address t1) (dmi_start d1) (dmi_end d1) r' Hsr) as Hw.
  assert (Hspec : match dmi_walk (address t1) (dmi_start d1) (dmi_end d1) r' with
    | Some (s, e) => dmi_start d1 <= s <= address t1 /\ address t1 <= e <= dmi_end d1 /\
        forall k x, (k, x) ∈ r' -> ~ (lr_start x <= e /\ s <= lr_end x)
    | None => exists k x, (k, x) ∈ r' /\ lr_start x <= address t1 <= lr_end x end).
  { apply Hw; [| |done|done].
    - intros k x Hin. apply Hsub in Hin. split; [by apply (ew_key _ Hwf)|by apply (ew_range _ Hwf _ _ Hin)].
    - intros k x k' x' Hin Hin'. apply (ew_disjoint _ Hwf); by apply Hsub. }
  clear Hw. destruct (dmi_walk _ _ _ r') as [[s e]|].
  - left. destruct Hspec as (H1 & H2 & Hno). eexists. split; [done|].
    unfold dmi_covers, dmi_host. simpl. split; [lia|]. split.
    + intros k x Hin [Hx1 Hx2]. destruct (Hall _ _ Hin) as [Hin'|(kp & p & Hp' & Hend)];
        [by apply (Hno _ _ Hin')|].
      apply (Hno _ _ Hp'). pose proof (ew_range _ Hwf _ _ (Hsub _ Hp')). lia.
    + intros a Ha. split; lia.
  - right. split; [done|]. destruct Hspec as (k & x & Hin & Hx). exists k, x. split; [by apply Hsub|done].
Qed.

Definition ex_back_dmi (t : payload) (d : tlm_dmi) (w : unit) : res (bool * payload * tlm_dmi * unit) :=
  Ret (true, t, mk_dmi 0x5000 0 0xfff DMI_ACCESS_READ_WRITE, w).

Lemma em_dmi_excludes_locked_witness :
  let t := plain_txn TLM_READ_COMMAND 0x200 [0] in
  let d1 := mk_dmi 0x5000 0 0xfff DMI_ACCESS_READ_WRITE in
  em_get_direct_mem_ptr ex_back_dmi t dmi_init ex_locked tt =
    Ret (true, t, mk_dmi 0x5104 0x104 0xfff DMI_ACCESS_READ_WRITE, tt) /\
  ((exists d', em_get_direct_mem_ptr ex_back_dmi t dmi_init ex_locked tt = Ret (true, t, d', tt) /\
     dmi_covers d' 0x200 /\
     (forall k r, (k, r) ∈ em_regions ex_locked -> ~ (lr_start r <= dmi_end d' /\ dmi_start d' <= lr_end r)) /\
     (forall a, dmi_covers d' a -> dmi_covers d1 a /\ dmi_host d' a = dmi_host d1 a)) \/
   (em_get_direct_mem_ptr ex_back_dmi t dmi_init ex_locked tt = Ret (false, t, d1, tt) /\
    exists k r, (k, r) ∈ em_regions ex_locked /\ lr_start r <= 0x200 <= lr_end r)).
Proof.
  split; [vm_compute; done|].
  apply (em_dmi_excludes_locked unit ex_back_dmi (plain_txn TLM_READ_COMMAND 0x200 [0]) dmi_init ex_locked tt
           (plain_txn TLM_READ_COMMAND 0x200 [0]) (mk_dmi 0x5000 0 0xfff DMI_ACCESS_READ_WRITE) tt);
    [apply ex_locked_wf|done|simpl; lia|simpl; lia].
Defined.

(** An initiator that owns a region and issues an exclusive load of an overlapping
    range keeps the old region: the new range is not locked, and the exclusive
    store to it fails. *)
Theorem em_overlapping_load_not_relocked :
  let t := ex_excl TLM_READ_COMMAND 0x102 [0; 0; 0; 0] [1] in
  let x := ex_excl TLM_WRITE_COMMAND 0x102 [7; 7; 7; 7] [1] in
  exists t', em_b_transport ex_back t ex_locked [] = Ret (t', ex_locked, [], []) /\
  em_b_transport ex_back x ex_locked [] =
    Ret (set_response_status TLM_GENERIC_ERROR_RESPONSE (set_excl (Some EXCLUSIVE_STORE_FAILURE) x), ex_locked, [], []).
Proof. eexists. split; vm_compute; done. Qed.
