(* ===== verification/GsMemory.v ===== *)
(** * The memory

    [gs_memory.h]: a memory of any size, kept as a tree of sub-blocks that are
    allocated when they are first touched, and its TLM interface. *)

From stdpp Require Import base list numbers option strings gmap.
From Stdlib Require Import Ascii.
From S2P Require Import Prelude Tlm Cci.

(** The CCI parameters the operations read; [p_mapfile] says whether a file name is
    configured. *)
Record mem_config : Type := mk_mem_config {
  p_rom : bool;
  p_dmi : bool;
  p_latency : Z;
  p_mapfile : bool;
  p_max_block_size : Z;
  p_min_block_size : Z;
  p_shmem : bool;
  p_init_mem : bool;
  p_init_mem_val : Z;
}.

(** [SubBlock<2>]: length, first address, host memory (its host address and its
    bytes), the four sub-blocks, and whether they are in use. *)
Inductive SubBlock : Type :=
| Block (len addr : Z) (mem : option (Z * list Z))
        (s0 s1 s2 s3 : option SubBlock) (use_sub : bool).

Definition new_block (addr len : Z) : SubBlock := Block len addr None None None None None false.

Definition b_len (b : SubBlock) : Z := match b with Block len _ _ _ _ _ _ _ => len end.
Definition b_addr (b : SubBlock) : Z := match b with Block _ addr _ _ _ _ _ _ => addr end.
Definition b_mem (b : SubBlock) : option (Z * list Z) := match b with Block _ _ m _ _ _ _ _ => m end.

(** [m_sub_blocks[i]]. *)
Definition sub_get (i : Z) (s0 s1 s2 s3 : option SubBlock) : option SubBlock :=
  if i =? 0 then s0 else if i =? 1 then s1 else if i =? 2 then s2 else s3.

Definition sub_set (i : Z) (c : SubBlock) (b : SubBlock) : SubBlock :=
  match b with
  | Block len addr m s0 s1 s2 s3 u =>
      if i =? 0 then Block len addr m (Some c) s1 s2 s3 u
      else if i =? 1 then Block len addr m s0 (Some c) s2 s3 u
      else if i =? 2 then Block len addr m s0 s1 (Some c) s3 u
      else Block len addr m s0 s1 s2 (Some c) u
  end.

(** What the host gives for a block: [MemoryServices]' [map_file], [map_mem_create]
    and [alloc], each the address and bytes of the memory or nothing. *)
Record host_services : Type := mk_host {
  host_map_file : Z -> Z -> option (Z * list Z);
  host_map_mem : Z -> Z -> option (Z * list Z);
  host_alloc : Z -> Z -> option (Z * list Z);
}.

(** What memory services promise: as many bytes as were asked for. *)
Class HostLaws (h : host_services) : Prop := {
  map_file_length : forall a n p l, host_map_file h a n = Some (p, l) -> Z.of_nat (length l) = n;
  map_mem_length : forall a n p l, host_map_mem h a n = Some (p, l) -> Z.of_nat (length l) = n;
  alloc_length : forall a n p l, host_alloc h a n = Some (p, l) -> Z.of_nat (length l) = n;
}.

Section Memory.
Context (h : host_services) (cfg : mem_config).

(** The three ways [access] gets memory for a block, in order. *)
Definition acquire (addr len : Z) : option (Z * list Z) :=
  match (if p_mapfile cfg then host_map_file h addr len else None) with
  | Some pl => Some pl
  | None =>
      match (if p_shmem cfg then host_map_mem h addr len else None) with
      | Some pl => Some pl
      | None =>
          match host_alloc h addr len with
          | Some (p, l) =>
              Some (p, if p_init_mem cfg then replicate (length l) (u8 (p_init_mem_val cfg)) else l)
          | None => None
          end
      end
  end.

(** The last part of [SubBlock::access]: the block is split and the sub-block with the
    address, made when it is missing, is handed to [next]. *)
Definition descend {A : Type} (next : SubBlock -> res (SubBlock * A)) (a : Z) (b : SubBlock)
    : res (SubBlock * A) :=
  match b with
  | Block len addr m s0 s1 s2 s3 _ =>
      if len <? p_min_block_size cfg then Err StopFatal
      else
        let? _ := assertb (Z.land len 3 =? 0) in
        let sub_size := Z.shiftr len 2 in
        if sub_size =? 0 then Err StopUndef
        else
          let i := u32 (u64 (a - addr) / sub_size) in
          if 4 <=? i then Err StopUndef
          else
            let c := match sub_get i s0 s1 s2 s3 with
                     | Some c => c
                     | None => new_block (u64 (i * sub_size + addr)) sub_size
                     end in
            let? x := next c in
            Ret (sub_set i x.1 (Block len addr m s0 s1 s2 s3 true), x.2)
  end.

(** [SubBlock::access (address)] followed by a use of the block it returns: [f] is
    given the block's first address, length, host address and bytes, and returns
    the bytes it leaves there.  [fuel] bounds the depth of the tree. *)
Fixpoint access {A : Type} (f : Z -> Z -> Z -> list Z -> res (list Z * A)) (fuel : nat) (a : Z)
    (b : SubBlock) : res (SubBlock * A) :=
  let next : SubBlock -> res (SubBlock * A) :=
    match fuel with O => fun _ => Err StopUndef | S fuel' => access f fuel' a end in
  match b with
  | Block len addr m s0 s1 s2 s3 u =>
      match m, u with
      | Some (p, l), false =>
          let? _ := assertb (addr <=? a) in
          let? x := f addr len p l in Ret (Block len addr (Some (p, x.1)) s0 s1 s2 s3 u, x.2)
      | _, _ =>
          if u || (p_max_block_size cfg <? len) then descend next a b
          else match acquire addr len with
               | Some (p, l) =>
                   let? x := f addr len p l in
                   Ret (Block len addr (Some (p, x.1)) s0 s1 s2 s3 false, x.2)
               | None => descend next a b
               end
      end
  end.

(** 64-bit lengths are divided by four at each level. *)
Definition max_depth : nat := 33.

(** The bytes of a block at hand for a request of [len] bytes at [off]: the offset in
    the block and how many are taken.  [memcpy] outside the block is undefined. *)
Definition clip_block (off len addr blen : Z) : res (nat * nat) :=
  let block_offset := u64 (off - addr) in
  let block_len := u64 (blen - block_offset) in
  let remain := if len <? block_len then len else block_len in
  if blen <? block_offset + remain then Err StopUndef
  else Ret (Z.to_nat block_offset, Z.to_nat remain).

(** [read_sub_blocks] and [write_sub_blocks]: as much of the request as lies in the
    block. *)
Definition read_sub_blocks (off len : Z) (addr blen p : Z) (l : list Z) : res (list Z * list Z) :=
  let? x := clip_block off len addr blen in
  Ret (l, take x.2 (drop x.1 l)).

Definition write_sub_blocks (data : list Z) (off : Z) (addr blen p : Z) (l : list Z)
    : res (list Z * nat) :=
  let? x := clip_block off (Z.of_nat (length data)) addr blen in
  Ret (splice x.1 (take x.2 data) l, x.2).

(** The loop of [read]; every turn reads at least one byte. *)
Fixpoint read_loop (fuel : nat) (off len : Z) (b : SubBlock) : res (SubBlock * list Z) :=
  if len <=? 0 then Ret (b, [])
  else match fuel with
       | O => Err StopUndef
       | S fuel' =>
           let? x := access (read_sub_blocks off len) max_depth off b in
           let n := Z.of_nat (length x.2) in
           let? y := read_loop fuel' (u64 (off + n)) (len - n) x.1 in
           Ret (y.1, x.2 ++ y.2)
       end.

(** The loop of [write]. *)
Fixpoint write_loop (fuel : nat) (data : list Z) (off : Z) (b : SubBlock) : res SubBlock :=
  match data with
  | [] => Ret b
  | _ =>
      match fuel with
      | O => Err StopUndef
      | S fuel' =>
          let? x := access (write_sub_blocks data off) max_depth off b in
          write_loop fuel' (drop x.2 data) (u64 (off + Z.of_nat x.2)) x.1
      end
  end.

(** The module after elaboration. *)
Record memory : Type := mk_memory {
  m_size : Z;
  m_address : Z;
  m_relative : bool;
  m_block : SubBlock;
}.

Definition set_block (b : SubBlock) (m : memory) : memory :=
  mk_memory (m_size m) (m_address m) (m_relative m) b.

(** [read]: [None] is a [false] result. *)
Definition mem_read (off len : Z) (m : memory) : res (option (list Z) * memory) :=
  if m_size m <? u64 (off + len) then Ret (None, m)
  else let? x := read_loop (Z.to_nat len) off len (m_block m) in
       Ret (Some x.2, set_block x.1 m).

(** [write]. *)
Definition mem_write (data : list Z) (off : Z) (m : memory) : res (bool * memory) :=
  if m_size m <? u64 (off + Z.of_nat (length data)) then Ret (false, m)
  else let? b := write_loop (length data) data off (m_block m) in
       Ret (true, set_block b m).

(** [byt[i % bel]]; a zero length divides by zero, and the pointer must reach. *)
Definition byte_enabled (bs : list Z) (bel i : Z) : res bool :=
  if bel =? 0 then Err StopUndef
  else match bs !! Z.to_nat (i mod bel) with
       | Some e => Ret (e =? 0xff)
       | None => Err StopUndef
       end.

(** The byte-enabled loops of [b_transport]. *)
Fixpoint read_bytes (n : nat) (i : Z) (bs : list Z) (bel addr : Z) (d : list Z) (m : memory)
    : res (list Z * memory) :=
  match n with
  | O => Ret (d, m)
  | S n' =>
      let? en := byte_enabled bs bel i in
      if (en : bool) then
        let? x := mem_read (u64 (addr + i)) 1 m in
        match x with
        | (Some [v], m) => read_bytes n' (i + 1) bs bel addr (<[Z.to_nat i := v]> d) m
        | _ => Err StopFatal
        end
      else read_bytes n' (i + 1) bs bel addr d m
  end.

Fixpoint write_bytes (n : nat) (i : Z) (bs : list Z) (bel addr : Z) (d : list Z) (m : memory)
    : res memory :=
  match n with
  | O => Ret m
  | S n' =>
      let? en := byte_enabled bs bel i in
      if (en : bool) then
        match d !! Z.to_nat i with
        | None => Err StopUndef
        | Some v =>
            let? x := mem_write [v] (u64 (addr + i)) m in
            if x.1 : bool then write_bytes n' (i + 1) bs bel addr d x.2 else Err StopFatal
        end
      else write_bytes n' (i + 1) bs bel addr d m
  end.

(** The memory offset of a transaction: [None] below the base address. *)
Definition mem_offset (m : memory) (a : Z) : option Z :=
  if m_relative m then Some a
  else if a <? m_address m then None else Some (a - m_address m).

(** [b_transport]; the delay is returned beside the payload. *)
Definition mem_b_transport (t : payload) (delay : Z) (m : memory) : res (payload * Z * memory) :=
  let len := data_length t in
  if streaming_width t <? len then Err StopFatal
  else
    match mem_offset m (address t) with
    | None => Ret (set_response_status TLM_ADDRESS_ERROR_RESPONSE t, delay, m)
    | Some addr =>
        if m_size m <? u64 (addr + len) then
          Ret (set_response_status TLM_ADDRESS_ERROR_RESPONSE t, delay, m)
        else
          let finish (x : list Z * memory) :=
            let t := set_response_status TLM_OK_RESPONSE (set_data x.1 t) in
            Ret (if p_dmi cfg then set_dmi_allowed true t else t, delay + p_latency cfg, x.2) in
          match command t with
          | TLM_READ_COMMAND =>
              match byt t with
              | Some bs =>
                  let? x := read_bytes (Z.to_nat len) 0 bs (byte_enable_length t) addr (data t) m in finish x
              | None =>
                  let? x := mem_read addr len m in
                  match x with
                  | (Some d, m) => finish (splice 0 d (data t), m)
                  | _ => Err StopFatal
                  end
              end
          | TLM_WRITE_COMMAND =>
              if p_rom cfg then Ret (set_response_status TLM_COMMAND_ERROR_RESPONSE t, delay, m)
              else
                match byt t with
                | Some bs =>
                    let? m := write_bytes (Z.to_nat len) 0 bs (byte_enable_length t) addr (data t) m in
                    finish (data t, m)
                | None =>
                    let? x := mem_write (take (Z.to_nat len) (data t)) addr m in
                    if x.1 : bool then finish (data t, x.2) else Err StopFatal
                end
          | TLM_IGNORE_COMMAND => Err StopFatal
          end
    end.

(** [transport_dbg]. *)
Definition mem_transport_dbg (t : payload) (m : memory) : res (Z * payload * memory) :=
  let? x := mem_b_transport t 0 m in
  let '(t', _, m') := x in
  Ret (if bool_decide (response t' = TLM_OK_RESPONSE) then data_length t else 0, t', m').

(** [get_direct_mem_ptr]. *)
Definition mem_get_direct_mem_ptr (t : payload) (d : tlm_dmi) (m : memory)
    : res (bool * payload * tlm_dmi * memory) :=
  if negb (p_dmi cfg) then Ret (false, t, d, m)
  else
    match mem_offset m (address t) with
    | None => Ret (false, set_response_status TLM_ADDRESS_ERROR_RESPONSE t, d, m)
    | Some addr =>
        if m_size m <=? addr then
          Ret (false, set_response_status TLM_ADDRESS_ERROR_RESPONSE t, d, m)
        else
          let? x := access (fun ba bl p l => Ret (l, (ba, bl, p))) max_depth addr (m_block m) in
          let '(b, (ba, bl, p)) := x in
          let base := if m_relative m then 0 else m_address m in
          let acc := if p_rom cfg then DMI_ACCESS_READ else DMI_ACCESS_READ_WRITE in
          Ret (true, t, mk_dmi p (u64 (ba + base)) (u64 (ba + base + bl - 1)) acc, set_block b m)
    end.

(** [SubBlock::doreset]: the loop runs to [N], the base-2 logarithm of the number of
    sub-blocks. *)
Fixpoint doreset (b : SubBlock) : SubBlock :=
  match b with
  | Block len addr m s0 s1 s2 s3 u =>
      let m' := match m with
                | Some (p, l) => if p_init_mem cfg
                                 then Some (p, replicate (length l) (u8 (p_init_mem_val cfg)))
                                 else Some (p, l)
                | None => None
                end in
      Block len addr m'
        (match s0 with Some c => Some (doreset c) | None => None end)
        (match s1 with Some c => Some (doreset c) | None => None end)
        s2 s3 u
  end.

(** What [before_end_of_elaboration] leaves, given the base address, size and
    addressing mode it finds in the configuration. *)
Definition elaborate (addr size : Z) (relative : bool) : memory :=
  mk_memory size addr relative (new_block 0 size).

(** ** Well-formed trees and their contents *)

(** Every block lies in the address space, holds as many bytes as its length, and
    its sub-blocks are its quarters; a block that is split is larger than the
    configured maximum or could not be allocated. *)
Fixpoint wf_block (b : SubBlock) : Prop :=
  match b with
  | Block len addr m s0 s1 s2 s3 u =>
      let sub (i : Z) (s : option SubBlock) : Prop :=
        match s with
        | Some c => b_addr c = addr + i * (len / 4) /\ b_len c = len / 4 /\ wf_block c
        | None => True
        end in
      (0 < len /\ 0 <= addr /\ addr + len < 2 ^ 64) /\
      (u = true -> p_max_block_size cfg < len \/ acquire addr len = None) /\
      (u = false -> s0 = None /\ s1 = None /\ s2 = None /\ s3 = None) /\
      (forall p l, m = Some (p, l) -> Z.of_nat (length l) = len /\ u = false) /\
      sub 0 s0 /\ sub 1 s1 /\ sub 2 s2 /\ sub 3 s3
  end.

(** The allocated block that holds an absolute address: its first address, length,
    host address and bytes. *)
Fixpoint leaf (b : SubBlock) (a : Z) : option (Z * Z * Z * list Z) :=
  match b with
  | Block len addr m s0 s1 s2 s3 u =>
      match m, u with
      | Some (p, l), false => if (addr <=? a) && (a <? addr + len) then Some (addr, len, p, l) else None
      | _, _ =>
          let look (s : option SubBlock) := match s with Some c => leaf c a | None => None end in
          let i := (a - addr) / (len / 4) in
          if i =? 0 then look s0 else if i =? 1 then look s1 else if i =? 2 then look s2
          else if i =? 3 then look s3 else None
      end
  end.

(** The byte at an absolute address, when it is allocated. *)
Definition peek (b : SubBlock) (a : Z) : option Z :=
  match leaf b a with Some (ba, _, _, l) => l !! Z.to_nat (a - ba) | None => None end.

Definition in_block (addr len x : Z) : Prop := addr <= x < addr + len.

#[global] Instance in_block_dec addr len x : Decision (in_block addr len x).
Proof. unfold in_block. apply _. Defined.

Lemma wf_new_block addr len :
  0 < len -> 0 <= addr -> addr + len < 2 ^ 64 -> wf_block (new_block addr len).
Proof. intros. unfold new_block. cbn [wf_block]. split_and!; intros; done. Qed.

Lemma wf_sub_get i len addr m s0 s1 s2 s3 u c :
  wf_block (Block len addr m s0 s1 s2 s3 u) -> 0 <= i < 4 -> sub_get i s0 s1 s2 s3 = Some c ->
  b_addr c = addr + i * (len / 4) /\ b_len c = len / 4 /\ wf_block c.
Proof.
  intros (_ & _ & _ & _ & H0 & H1 & H2 & H3) Hi. unfold sub_get.
  destruct (Z.eqb_spec i 0) as [->|]; [by intros ->|].
  destruct (Z.eqb_spec i 1) as [->|]; [by intros ->|].
  destruct (Z.eqb_spec i 2) as [->|]; [by intros ->|].
  replace i with 3 by lia. by intros ->.
Qed.

Lemma wf_sub_set i len addr s0 s1 s2 s3 c :
  wf_block (Block len addr None s0 s1 s2 s3 true) -> 0 <= i < 4 ->
  b_addr c = addr + i * (len / 4) -> b_len c = len / 4 -> wf_block c ->
  wf_block (sub_set i c (Block len addr None s0 s1 s2 s3 true)).
Proof.
  intros (Hr & Hu & Hn & Hm & H0 & H1 & H2 & H3) Hi Ha Hl Hc. unfold sub_set.
  destruct (Z.eqb_spec i 0) as [->|]; [cbn [wf_block]; intuition congruence|].
  destruct (Z.eqb_spec i 1) as [->|]; [cbn [wf_block]; intuition congruence|].
  destruct (Z.eqb_spec i 2) as [->|]; [cbn [wf_block]; intuition congruence|].
  replace i with 3 in * by lia. cbn [wf_block]. intuition congruence.
Qed.

Lemma b_addr_sub_set i c b : b_addr (sub_set i c b) = b_addr b.
Proof. destruct b. simpl. by repeat case_match. Qed.

Lemma b_len_sub_set i c b : b_len (sub_set i c b) = b_len b.
Proof. destruct b. simpl. by repeat case_match. Qed.

(** Contents of a split block, before and after one of its sub-blocks is replaced. *)
Lemma leaf_split len addr s0 s1 s2 s3 a :
  in_block addr (4 * (len / 4)) a ->
  leaf (Block len addr None s0 s1 s2 s3 true) a =
  match sub_get ((a - addr) / (len / 4)) s0 s1 s2 s3 with Some c => leaf c a | None => None end.
Proof.
  intros Ha. unfold in_block in Ha. simpl.
  assert (0 <= (a - addr) / (len / 4) < 4) as Hi.
  { split; [apply Z.div_pos|apply Z.div_lt_upper_bound]; lia. }
  unfold sub_get. repeat case_match; try done; lia.
Qed.

Lemma leaf_outside_split len addr s0 s1 s2 s3 a :
  0 < len / 4 -> ~ in_block addr (4 * (len / 4)) a ->
  leaf (Block len addr None s0 s1 s2 s3 true) a = None.
Proof.
  intros Hl Ha. unfold in_block in Ha. simpl.
  assert ((a - addr) / (len / 4) < 0 \/ 4 <= (a - addr) / (len / 4)) as Hi.
  { destruct (decide (a < addr)); [left|right; apply Z.div_le_lower_bound; lia].
    apply Z.div_lt_upper_bound; lia. }
  repeat case_match; try done; lia.
Qed.

Lemma sub_get_set i j c len addr m s0 s1 s2 s3 u :
  0 <= i < 4 -> 0 <= j < 4 ->
  match sub_set i c (Block len addr m s0 s1 s2 s3 u) with
  | Block _ _ _ t0 t1 t2 t3 _ =>
      sub_get j t0 t1 t2 t3 = if i =? j then Some c else sub_get j s0 s1 s2 s3
  end.
Proof.
  intros Hi Hj. unfold sub_set, sub_get.
  destruct (Z.eqb_spec i 0), (Z.eqb_spec i 1), (Z.eqb_spec i 2), (Z.eqb_spec i j);
    repeat case_match; try done; try lia.
Qed.

(** The index of the sub-block an address of the block falls in. *)
Lemma sub_index len addr a :
  0 <= addr -> addr + len < 2 ^ 64 -> in_block addr len a -> len mod 4 = 0 -> 0 < len / 4 ->
  let i := (a - addr) / (len / 4) in
  u32 (u64 (a - addr) / (len / 4)) = i /\ 0 <= i < 4 /\
  in_block (addr + i * (len / 4)) (len / 4) a.
Proof.
  intros Ha Hl Hin Hd Hs i. unfold in_block in *.
  assert (4 * (len / 4) = len) by (pose proof (Z.div_mod len 4); lia).
  assert (0 <= i < 4) as Hi.
  { subst i. split; [apply Z.div_pos|apply Z.div_lt_upper_bound]; lia. }
  rewrite u64_small by lia. fold i. split_and!; [apply Z.mod_small; lia|lia|lia| |].
  - pose proof (Z.mul_div_le (a - addr) (len / 4)). fold i in H0. lia.
  - pose proof (Z.mul_succ_div_gt (a - addr) (len / 4)). fold i in H0. lia.
Qed.

(** What [access] does: [f] is run on one block that holds the address; that block is
    left with the bytes [f] returns and nothing else in the tree changes. *)
Definition accessed {A} (f : Z -> Z -> Z -> list Z -> res (list Z * A)) (a : Z) (b b' : SubBlock)
    (r : A) : Prop :=
  exists ba bl p l l', f ba bl p l = Ret (l', r) /\ in_block ba bl a /\
    b_addr b <= ba /\ ba + bl <= b_addr b + b_len b /\ Z.of_nat (length l) = bl /\
    (forall x, in_block ba bl x -> leaf b x = None \/ leaf b x = Some (ba, bl, p, l)) /\
    (length l' = length l ->
     wf_block b' /\ b_addr b' = b_addr b /\ b_len b' = b_len b /\
     (forall x, leaf b' x = if decide (in_block ba bl x) then Some (ba, bl, p, l') else leaf b x)).

Context `{!HostLaws h}.

Lemma acquire_length addr len p l : acquire addr len = Some (p, l) -> Z.of_nat (length l) = len.
Proof.
  unfold acquire. intros H.
  destruct (if p_mapfile cfg then _ else _) as [[q k]|] eqn:E1; simplify_eq.
  { destruct (p_mapfile cfg); [by eapply map_file_length|done]. }
  destruct (if p_shmem cfg then _ else _) as [[q k]|] eqn:E2; simplify_eq.
  { destruct (p_shmem cfg); [by eapply map_mem_length|done]. }
  destruct (host_alloc h addr len) as [[q k]|] eqn:E3; simplify_eq.
  apply alloc_length in E3. by destruct (p_init_mem cfg); rewrite ?length_replicate.
Qed.

(** A block that becomes allocated, or whose bytes change. *)
Lemma leaf_whole len addr p l s0 s1 s2 s3 x :
  leaf (Block len addr (Some (p, l)) s0 s1 s2 s3 false) x =
  if decide (in_block addr len x) then Some (addr, len, p, l) else None.
Proof.
  cbn [leaf]. unfold in_block.
  destruct (Z.leb_spec addr x), (Z.ltb_spec x (addr + len)); case_decide; try done; lia.
Qed.

Lemma leaf_unsplit_none len addr x : leaf (Block len addr None None None None None false) x = None.
Proof. cbn [leaf]. by repeat case_match. Qed.

(** Replacing a sub-block changes the contents of that quarter only. *)
Lemma leaf_sub_set i c len addr s0 s1 s2 s3 x :
  0 < len / 4 -> 0 <= i < 4 ->
  leaf (sub_set i c (Block len addr None s0 s1 s2 s3 true)) x =
  if decide (in_block (addr + i * (len / 4)) (len / 4) x) then leaf c x
  else leaf (Block len addr None s0 s1 s2 s3 true) x.
Proof.
  intros Hl Hi.
  assert (forall t0 t1 t2 t3 (b := Block len addr None t0 t1 t2 t3 true),
    ~ in_block addr (4 * (len / 4)) x -> leaf b x = None) as Hout
    by (intros; by apply leaf_outside_split).
  assert (in_block (addr + i * (len / 4)) (len / 4) x <->
          in_block addr (4 * (len / 4)) x /\ (x - addr) / (len / 4) = i) as Hq.
  { unfold in_block. split.
    - intros Hx. split; [nia|]. symmetry. apply Z.div_unique with (x - addr - i * (len / 4)); lia.
    - intros [Hx <-]. pose proof (Z.mul_div_le (x - addr) (len / 4)).
      pose proof (Z.mul_succ_div_gt (x - addr) (len / 4)). lia. }
  destruct (decide (in_block addr (4 * (len / 4)) x)) as [Hin|Hnin].
  - assert (0 <= (x - addr) / (len / 4) < 4) as Hj.
    { unfold in_block in Hin. split; [apply Z.div_pos|apply Z.div_lt_upper_bound]; lia. }
    pose proof (sub_get_set i _ c len addr None s0 s1 s2 s3 true Hi Hj) as Hg.
    rewrite (leaf_split _ _ s0) by done.
    assert (exists t0 t1 t2 t3, sub_set i c (Block len addr None s0 s1 s2 s3 true) =
      Block len addr None t0 t1 t2 t3 true) as (t0 & t1 & t2 & t3 & Ht)
      by (unfold sub_set; repeat case_match; eauto).
    rewrite Ht in *. rewrite leaf_split, Hg by done.
    destruct (Z.eqb_spec i ((x - addr) / (len / 4))) as [e|e].
    + by rewrite decide_True by (apply Hq; auto).
    + by rewrite decide_False by (rewrite Hq; intros [_ ?]; congruence).
  - rewrite decide_False by tauto. rewrite (Hout s0) by done.
    unfold sub_set. repeat case_match; by apply Hout.
Qed.

Lemma accessed_ext {A} (f : Z -> Z -> Z -> list Z -> res (list Z * A)) a b1 b b' r :
  b_addr b1 = b_addr b -> b_len b1 = b_len b -> (forall x, leaf b1 x = leaf b x) ->
  accessed f a b1 b' r -> accessed f a b b' r.
Proof.
  intros Ha Hl Hx (ba & bl & p & l & l' & H). exists ba, bl, p, l, l'.
  rewrite Ha, Hl in H. destruct H as (Hf & Hin & H1 & H2 & H3 & H4 & H5). split_and!; try done.
  - intros x. rewrite <- Hx. auto.
  - intros Hl'. destruct (H5 Hl') as (Hw & ? & ? & Hy). split_and!; try done.
    intros x. rewrite <- Hx. apply Hy.
Qed.

(** The block itself is used. *)
Lemma accessed_here {A} (f : Z -> Z -> Z -> list Z -> res (list Z * A)) a len addr m p l l' r :
  let b := Block len addr m None None None None false in
  wf_block b -> in_block addr len a -> Z.of_nat (length l) = len ->
  (m = None \/ m = Some (p, l)) -> f addr len p l = Ret (l', r) ->
  accessed f a b (Block len addr (Some (p, l')) None None None None false) r.
Proof.
  intros b Hwf Ha Hl Hm Hf. exists addr, len, p, l, l'. split_and!; try done.
  - intros x Hx. destruct Hm as [-> | ->]; [left; apply leaf_unsplit_none|right].
    unfold b. rewrite leaf_whole. by rewrite decide_True.
  - intros Hl'. destruct Hwf as (Hr & Hu & Hn & _). split_and!; try done.
    + cbn [wf_block]. split_and!; try done; try apply Hr. intros; simplify_eq. by rewrite Hl'.
    + intros x. rewrite leaf_whole. case_decide; [done|]. unfold b.
      destruct Hm as [-> | ->]; [by rewrite leaf_unsplit_none|]. rewrite leaf_whole.
      by rewrite decide_False.
Qed.

(** A sub-block is used. *)
Lemma accessed_sub {A} (f : Z -> Z -> Z -> list Z -> res (list Z * A)) a len addr s0 s1 s2 s3 i c c' r :
  let b := Block len addr None s0 s1 s2 s3 true in
  wf_block b -> 0 < len / 4 -> 4 * (len / 4) = len -> 0 <= i < 4 ->
  b_addr c = addr + i * (len / 4) -> b_len c = len / 4 ->
  (forall x, in_block (addr + i * (len / 4)) (len / 4) x -> leaf c x = leaf b x) ->
  accessed f a c c' r -> accessed f a b (sub_set i c' b) r.
Proof.
  intros b Hwf Hq H4 Hi Hca Hcl Hleaf (ba & bl & p & l & l' & Hf & Hin & H1 & H2 & Hl & Hb & H).
  assert (forall x, in_block ba bl x -> in_block (addr + i * (len / 4)) (len / 4) x) as Hsub
    by (unfold in_block; lia).
  exists ba, bl, p, l, l'. split_and!; try done; cbn [b b_addr b_len]; [nia|nia| |].
  - intros x Hx. rewrite <- Hleaf by auto. auto.
  - intros Hl'. destruct (H Hl') as (Hw & Ha' & Hl2 & Hx). split_and!.
    + apply wf_sub_set; [done..|congruence|congruence|done].
    + by rewrite b_addr_sub_set.
    + by rewrite b_len_sub_set.
    + intros x. unfold b. rewrite leaf_sub_set by done. case_decide as Hd.
      * rewrite Hx. case_decide; [done|]. by apply Hleaf.
      * rewrite decide_False; [done|]. intros ?. by apply Hd, Hsub.
Qed.

Lemma land_3_mod n : Z.land n 3 = n mod 4.
Proof. change 3 with (Z.ones 2). by rewrite Z.land_ones by lia. Qed.

(** A block without memory of its own passes the access on. *)
Lemma descend_spec {A} (f : Z -> Z -> Z -> list Z -> res (list Z * A)) next a len addr s0 s1 s2 s3 u b' r :
  let b := Block len addr None s0 s1 s2 s3 u in
  wf_block b -> in_block addr len a ->
  (p_max_block_size cfg < len \/ acquire addr len = None) ->
  (forall c c', wf_block c -> in_block (b_addr c) (b_len c) a -> next c = Ret (c', r) ->
     accessed f a c c' r) ->
  descend next a b = Ret (b', r) -> accessed f a b b' r.
Proof.
  intros b Hwf Ha Hsplit Hnext Hd. unfold descend, b in Hd.
  destruct (len <? _); [done|]. apply rbind_Ret in Hd as (uu & H4%assertb_Ret & Hd).
  rewrite Z.shiftr_div_pow2 in Hd by lia. change (2 ^ 2) with 4 in Hd.
  destruct (Z.eqb_spec (len / 4) 0); [done|]. rewrite land_3_mod in H4. apply Z.eqb_eq in H4.
  pose proof Hwf as (Hr & _ & Hn & _ & Hs).
  assert (0 < len / 4) by (pose proof (Z.div_pos len 4); lia).
  assert (4 * (len / 4) = len) by (pose proof (Z.div_mod len 4); lia).
  destruct (sub_index len addr a) as (Hi & Hi4 & Hq); try done; try lia.
  rewrite Hi in Hd. set (i := (a - addr) / (len / 4)) in *.
  destruct (Z.leb_spec 4 i); [lia|]. apply rbind_Ret in Hd as ([c' r'] & Hc & Hd).
  rewrite u64_small in Hc by nia. injection Hd as <- <-. cbn [fst snd] in *.
  set (b1 := Block len addr None s0 s1 s2 s3 true).
  assert (wf_block b1) as Hwf1 by (cbn [b1 wf_block]; split_and!; try done; apply Hr || apply Hs).
  apply (accessed_ext f a b1); [done..| |].
  { intros x. destruct u; [done|]. destruct (Hn eq_refl) as (-> & -> & -> & ->).
    unfold b, b1. cbn [leaf]. by repeat case_match. }
  destruct (sub_get i s0 s1 s2 s3) as [c|] eqn:Hg.
  - destruct (wf_sub_get _ _ _ _ _ _ _ _ _ _ Hwf Hi4 Hg) as (Hca & Hcl & Hcw).
    eapply accessed_sub; eauto.
    + intros x Hx. unfold b1. rewrite leaf_split by (unfold in_block in *; nia).
      replace ((x - addr) / (len / 4)) with i; [by rewrite Hg|].
      unfold in_block in Hx. apply Z.div_unique with (x - addr - i * (len / 4)); lia.
    + apply Hnext; [done| |done]. by rewrite Hca, Hcl.
  - eapply accessed_sub with (c := new_block (i * (len / 4) + addr) (len / 4));
      try done; [cbn; lia| |].
    + intros x Hx. unfold b1. rewrite leaf_split by (unfold in_block in *; nia).
      replace ((x - addr) / (len / 4)) with i; [rewrite Hg; apply leaf_unsplit_none|].
      unfold in_block in Hx. apply Z.div_unique with (x - addr - i * (len / 4)); lia.
    + apply Hnext; [|cbn; by rewrite Z.add_comm|done]. apply wf_new_block; nia.
Qed.

(** [access] on an address of the block. *)
Lemma access_spec {A} (f : Z -> Z -> Z -> list Z -> res (list Z * A)) fuel a b b' r :
  wf_block b -> in_block (b_addr b) (b_len b) a ->
  access f fuel a b = Ret (b', r) -> accessed f a b b' r.
Proof.
  revert b b'. induction fuel as [|fuel IH]; intros [len addr m s0 s1 s2 s3 u] b' Hwf Ha Hacc;
    cbn [b_addr b_len] in Ha; pose proof Hwf as (Hr & Hu & Hn & Hm & _).
  all: destruct m as [[p l]|]; [destruct (Hm p l eq_refl) as [Hl ->]|].
  1,3: destruct (Hn eq_refl) as (-> & -> & -> & ->); cbn [access] in Hacc;
    apply rbind_Ret in Hacc as (? & _ & Hacc); apply rbind_Ret in Hacc as ([l' r'] & Hf & Hacc);
    simplify_eq/=; by eapply accessed_here; eauto.
  all: cbn [access] in Hacc; destruct (u || (p_max_block_size cfg <? len)) eqn:Hsplit.
  1,3: eapply descend_spec; [done..| | |exact Hacc]; [|by auto];
    apply orb_true_iff in Hsplit as [->|?%Z.ltb_lt]; auto.
  1,2: apply orb_false_iff in Hsplit as [-> _]; destruct (Hn eq_refl) as (-> & -> & -> & ->);
    destruct (acquire addr len) as [[p l]|] eqn:Hacq.
  1,3: apply rbind_Ret in Hacc as ([l' r'] & Hf & Hacc); simplify_eq/=;
    eapply accessed_here; eauto using acquire_length.
  all: eapply descend_spec; [done..| | |exact Hacc]; [by right|by auto].
Qed.

(** ** Reading and writing *)

(** [b'] is [b] after some accesses: same extent, and blocks stay where they were
    allocated. *)
Definition extends (b b' : SubBlock) : Prop :=
  wf_block b' /\ b_addr b' = b_addr b /\ b_len b' = b_len b /\
  forall x ba bl p l, leaf b x = Some (ba, bl, p, l) -> exists l', leaf b' x = Some (ba, bl, p, l').

Lemma extends_refl b : wf_block b -> extends b b.
Proof. intros. split_and!; eauto. Qed.

Lemma extends_trans b1 b2 b3 : extends b1 b2 -> extends b2 b3 -> extends b1 b3.
Proof.
  intros (? & ? & ? & Hab) (? & ? & ? & Hbc). split_and!; [done|congruence..|].
  intros x ba bl p l Hl. destruct (Hab _ _ _ _ _ Hl) as [l' Hl']. eauto.
Qed.

Lemma accessed_extends {A} (f : Z -> Z -> Z -> list Z -> res (list Z * A)) a b b' r :
  (forall ba bl p l l', f ba bl p l = Ret (l', r) -> in_block ba bl a -> 
     Z.of_nat (length l) = bl -> b_addr b <= ba -> ba + bl <= b_addr b + b_len b -> length l' = length l) ->
  accessed f a b b' r -> extends b b'.
Proof.
  intros Hlen (ba & bl & p & l & l' & Hf & Hin & H1 & H2 & Hl & Hb & H).
  destruct H as (Hw & Ha & Hl' & Hx); [by eapply Hlen|]. split_and!; try done.
  intros x ba0 bl0 p0 l0 Hx0. rewrite Hx. case_decide as Hd; [|eauto].
  destruct (Hb x Hd); naive_solver.
Qed.

Lemma clip_block_ok off len addr blen :
  0 <= addr -> addr + blen < 2 ^ 64 -> in_block addr blen off -> 0 < len < 2 ^ 64 ->
  clip_block off len addr blen = Ret (Z.to_nat (off - addr), Z.to_nat (Z.min len (addr + blen - off))).
Proof.
  unfold in_block, clip_block. intros Ha Hb Hin Hl. rewrite (u64_small (off - addr)) by lia.
  rewrite u64_small by lia.
  destruct (Z.ltb_spec len (blen - (off - addr))); case_match eqn:E;
    rewrite ?Z.ltb_lt, ?Z.ltb_ge in E; try lia; do 3 f_equal; lia.
Qed.

(** One turn of the read loop. *)
Lemma access_read fuel off len b b' d :
  wf_block b -> in_block (b_addr b) (b_len b) off -> 0 < len < 2 ^ 64 ->
  access (read_sub_blocks off len) fuel off b = Ret (b', d) ->
  extends b b' /\ (forall x q, leaf b x = Some q -> leaf b' x = Some q) /\
  0 < Z.of_nat (length d) <= len /\
  (off + Z.of_nat (length d) <= b_addr b + b_len b) /\
  forall i, (i < length d)%nat -> d !! i = peek b' (off + Z.of_nat i).
Proof.
  intros Hwf Hin Hlen Hacc. apply access_spec in Hacc; [|done..].
  assert (0 <= b_addr b /\ b_addr b + b_len b < 2 ^ 64) as [Hb0 Hb1]
    by (destruct b; destruct Hwf; cbn; lia).
  split.
  { eapply accessed_extends; [|done]. intros ba bl p l l' Hf ????. unfold read_sub_blocks in Hf.
    apply rbind_Ret in Hf as (? & _ & ?). by simplify_eq. }
  destruct Hacc as (ba & bl & p & l & l' & Hf & Hin' & H1 & H2 & Hl & Hb & H).
  unfold read_sub_blocks in Hf. rewrite clip_block_ok in Hf by (try done; lia). cbn in Hf.
  injection Hf as <- <-. destruct H as (_ & _ & _ & Hx); [done|]. unfold in_block in Hin'.
  assert (length (take (Z.to_nat (Z.min len (ba + bl - off))) (drop (Z.to_nat (off - ba)) l)) =
          Z.to_nat (Z.min len (ba + bl - off))) as Hld by (rewrite length_take, length_drop; lia).
  split_and!; try lia.
  - intros x q Hq. rewrite Hx. case_decide as Hd; [|done]. destruct (Hb x Hd); congruence.
  - intros i Hi. rewrite lookup_take_lt by lia. rewrite lookup_drop. unfold peek. rewrite Hx.
    rewrite decide_True by (unfold in_block; lia). f_equal. lia.
Qed.

(** One turn of the write loop. *)
Lemma access_write fuel data off b b' n :
  wf_block b -> in_block (b_addr b) (b_len b) off -> 0 < Z.of_nat (length data) < 2 ^ 64 ->
  access (write_sub_blocks data off) fuel off b = Ret (b', n) ->
  extends b b' /\ (0 < n <= length data)%nat /\ off + Z.of_nat n <= b_addr b + b_len b /\
  (forall i, (i < n)%nat -> peek b' (off + Z.of_nat i) = data !! i) /\
  (forall x v, ~ in_block off (Z.of_nat n) x -> peek b x = Some v -> peek b' x = Some v).
Proof.
  intros Hwf Hin Hlen Hacc. apply access_spec in Hacc; [|done..].
  assert (0 <= b_addr b /\ b_addr b + b_len b < 2 ^ 64) as [Hb0 Hb1]
    by (destruct b; destruct Hwf; cbn; lia).
  assert (forall ba bl p l l' n, write_sub_blocks data off ba bl p l = Ret (l', n) ->
    in_block ba bl off -> Z.of_nat (length l) = bl -> b_addr b <= ba -> ba + bl <= b_addr b + b_len b ->
    n = Z.to_nat (Z.min (Z.of_nat (length data)) (ba + bl - off)) /\
    l' = splice (Z.to_nat (off - ba)) (take n data) l /\
    (Z.to_nat (off - ba) + length (take n data) <= length l)%nat) as Hw.
  { intros ba bl p l l' n0 Hf ????. unfold write_sub_blocks in Hf.
    rewrite clip_block_ok in Hf by (try done; lia). cbn in Hf. injection Hf as <- <-.
    split_and!; try done. rewrite length_take. unfold in_block in *. lia. }
  split.
  { eapply accessed_extends; [|done]. intros ba bl p l l' Hf ????.
    destruct (Hw _ _ _ _ _ _ Hf) as (-> & -> & ?); try done. by apply length_splice. }
  destruct Hacc as (ba & bl & p & l & l' & Hf & Hin' & H1 & H2 & Hl & Hb & H).
  destruct (Hw _ _ _ _ _ _ Hf) as (Hn & -> & Hfit); try done. clear Hw Hf.
  destruct H as (_ & _ & _ & Hx); [by apply length_splice|]. unfold in_block in Hin'.
  assert (length (take n data) = n) as Htk by (rewrite length_take; lia).
  split_and!; try lia.
  - intros i Hi. unfold peek. rewrite Hx, decide_True by (unfold in_block; lia).
    rewrite lookup_splice by lia. rewrite decide_True by lia. rewrite lookup_take_lt by lia.
    f_equal. lia.
  - intros x v Hnx. unfold peek. rewrite Hx. case_decide as Hd; [|done].
    destruct (Hb x Hd) as [->| ->]; [done|]. rewrite lookup_splice by lia.
    rewrite decide_False; [done|]. unfold in_block in *. lia.
Qed.

(** The block of an elaborated memory of [size] bytes. *)
Definition root_block (size : Z) (b : SubBlock) : Prop :=
  wf_block b /\ b_addr b = 0 /\ b_len b = size.

Lemma root_block_bound size b : root_block size b -> 0 < size < 2 ^ 64.
Proof. destruct b. intros ((Hr & _) & Ha & Hl). cbn in *. lia. Qed.

Lemma root_block_extends size b b' : root_block size b -> extends b b' -> root_block size b'.
Proof. intros (? & ? & ?) (? & ? & ? & _). split_and!; [done|congruence..]. Qed.

Lemma read_loop_spec size fuel off len b b' d :
  root_block size b -> 0 <= off -> 0 <= len -> off + len <= size ->
  read_loop fuel off len b = Ret (b', d) ->
  extends b b' /\ (forall x q, leaf b x = Some q -> leaf b' x = Some q) /\
  Z.of_nat (length d) = len /\
  forall i, (i < length d)%nat -> d !! i = peek b' (off + Z.of_nat i).
Proof.
  revert off len b d. induction fuel as [|fuel IH]; intros off len b d Hb Ho Hl Hs Hr; cbn [read_loop] in Hr;
    (destruct (Z.leb_spec len 0); [injection Hr as <- <-; split_and!;
      [by apply extends_refl, Hb|done|simpl; lia|simpl; lia]|]); [done|].
  apply rbind_Ret in Hr as ([b1 d1] & Hacc & Hr). apply rbind_Ret in Hr as ([b2 d2] & Hr & Heq).
  injection Heq as <- <-. cbn [fst snd] in *. pose proof (root_block_bound _ _ Hb) as Hsz.
  apply access_read in Hacc as (He & Hkeep & Hd1 & Hfit & Hbytes); [|apply Hb| |lia].
  2: { destruct Hb as (_ & -> & ->). unfold in_block. lia. }
  assert (off + Z.of_nat (length d1) <= size) by (destruct Hb as (_ & Hz & Hz2); lia).
  rewrite u64_small in Hr by lia.
  apply IH in Hr as (He2 & Hkeep2 & Hd2 & Hbytes2); [|by eapply root_block_extends|lia..].
  split_and!; [by eapply extends_trans|by auto|rewrite length_app; lia|].
  intros i Hi. destruct (decide (i < length d1)%nat).
  - rewrite lookup_app_l, Hbytes by done. unfold peek.
    specialize (Hbytes i ltac:(done)). unfold peek in Hbytes.
    destruct (leaf b1 (off + Z.of_nat i)) as [q|] eqn:E; [by rewrite (Hkeep2 _ _ E)|].
    apply lookup_ge_None in Hbytes. lia.
  - rewrite length_app in Hi. rewrite lookup_app_r by lia. rewrite Hbytes2 by lia. f_equal. lia.
Qed.

Lemma write_loop_spec size fuel data off b b' :
  root_block size b -> 0 <= off -> off + Z.of_nat (length data) <= size ->
  write_loop fuel data off b = Ret b' ->
  extends b b' /\
  (forall i, (i < length data)%nat -> peek b' (off + Z.of_nat i) = data !! i) /\
  (forall x v, ~ in_block off (Z.of_nat (length data)) x -> peek b x = Some v -> peek b' x = Some v).
Proof.
  revert data off b. induction fuel as [|fuel IH]; intros data off b Hb Ho Hs Hw; cbn [write_loop] in Hw;
    (destruct data as [|v0 data0]; [injection Hw as <-; split_and!;
      [by apply extends_refl, Hb|simpl; lia|by auto]|]); [done|].
  set (data := v0 :: data0) in *.
  apply rbind_Ret in Hw as ([b1 n] & Hacc & Hw). cbn [fst snd] in *.
  assert (0 < length data)%nat as Hpos by (subst data; simpl; lia). clearbody data.
  pose proof (root_block_bound _ _ Hb) as Hsz.
  apply access_write in Hacc as (He & Hn & Hfit & Hbytes & Hkeep); [|apply Hb| |lia].
  2: { destruct Hb as (_ & -> & ->). unfold in_block. lia. }
  assert (off + Z.of_nat n <= size) by (destruct Hb as (_ & Hz & Hz2); lia).
  rewrite u64_small in Hw by lia.
  apply IH in Hw as (He2 & Hbytes2 & Hkeep2); [|by eapply root_block_extends|lia|rewrite length_drop; lia].
  rewrite length_drop in Hbytes2, Hkeep2.
  split_and!; [by eapply extends_trans| |].
  - intros i Hi. destruct (decide (i < n)%nat).
    + destruct (lookup_lt_is_Some_2 data i Hi) as [v Hv]. rewrite Hv. apply Hkeep2.
      * unfold in_block. lia.
      * rewrite <- Hv. by apply Hbytes.
    + specialize (Hbytes2 (i - n)%nat ltac:(lia)). rewrite lookup_drop in Hbytes2.
      replace (n + (i - n))%nat with i in Hbytes2 by lia. rewrite <- Hbytes2. f_equal. lia.
  - intros x v Hx Hv. apply Hkeep2; [unfold in_block in *; lia|]. apply Hkeep; [|done].
    unfold in_block in *. lia.
Qed.

(** ** Termination *)

(** A block of [len] bytes can be allocated after at most [fuel] splits. *)
Fixpoint fits (fuel : nat) (len : Z) : bool :=
  (len <=? p_max_block_size cfg) ||
  match fuel with
  | O => false
  | S fuel' => (p_min_block_size cfg <=? len) && (len mod 4 =? 0) && (0 <? len / 4) && fits fuel' (len / 4)
  end.

(** The host has memory for every block that may be asked for in one piece. *)
Definition host_has_memory : Prop :=
  forall addr len, 0 < len <= p_max_block_size cfg -> acquire addr len <> None.

Lemma access_total {A} (f : Z -> Z -> Z -> list Z -> res (list Z * A)) fuel a b :
  host_has_memory -> fits fuel (b_len b) = true -> wf_block b -> in_block (b_addr b) (b_len b) a ->
  (forall ba bl p l, in_block ba bl a -> Z.of_nat (length l) = bl -> b_addr b <= ba ->
     ba + bl <= b_addr b + b_len b -> exists x, f ba bl p l = Ret x) ->
  exists x, access f fuel a b = Ret x.
Proof.
  intros Hmem. revert b. induction fuel as [|fuel IH]; intros [len addr m s0 s1 s2 s3 u] Hfit Hwf Ha Hf;
    cbn [b_addr b_len] in *; pose proof Hwf as (Hr & Hu & Hn & Hm & _); cbn [access].
  all: destruct m as [[p l]|]; [destruct (Hm p l eq_refl) as [Hl ->]|].
  1,3: destruct (Hf addr len p l) as [x ->]; try done; try lia;
    destruct (Z.leb_spec addr a); [cbn; eauto|unfold in_block in Ha; lia].
  all: cbn [fits] in Hfit; destruct (Z.leb_spec len (p_max_block_size cfg)) as [Hle|Hgt].
  1,3: assert (u = false) as -> by (destruct u; [|done]; destruct (Hu eq_refl);
         [lia|by destruct (Hmem addr len ltac:(lia))]);
    destruct (Z.ltb_spec (p_max_block_size cfg) len); [lia|]; cbn [orb];
    destruct (acquire addr len) as [[p l]|] eqn:E; [|by destruct (Hmem addr len ltac:(lia))];
    destruct (Hf addr len p l) as [x ->]; try done; try lia; [by eapply acquire_length|cbn; eauto].
  - done.
  - apply orb_true_iff in Hfit as [Hfit|Hfit]; [done|]. rewrite !andb_true_iff in Hfit.
    destruct Hfit as (((Hmin & H4) & Hq) & Hfit). apply Z.leb_le in Hmin. apply Z.eqb_eq in H4. apply Z.ltb_lt in Hq.
    destruct (Z.ltb_spec (p_max_block_size cfg) len); [|lia]. rewrite orb_true_r. unfold descend.
    destruct (Z.ltb_spec len (p_min_block_size cfg)); [lia|].
    rewrite land_3_mod, H4. cbn [rbind assertb Z.eqb]. rewrite Z.shiftr_div_pow2 by lia.
    change (2 ^ 2) with 4. destruct (Z.eqb_spec (len / 4) 0); [lia|].
    destruct (sub_index len addr a) as (Hi & Hi4 & Hq4); try done; try lia.
    rewrite Hi. set (i := (a - addr) / (len / 4)) in *. destruct (Z.leb_spec 4 i); [lia|].
    assert (4 * (len / 4) = len) by (pose proof (Z.div_mod len 4); lia).
    rewrite u64_small by nia.
    set (c := match sub_get i s0 s1 s2 s3 with Some _ => _ | None => _ end).
    assert (b_addr c = addr + i * (len / 4) /\ b_len c = len / 4 /\ wf_block c) as (Hca & Hcl & Hcw).
    { subst c. destruct (sub_get i s0 s1 s2 s3) as [c|] eqn:Hg; [by eapply wf_sub_get|].
      split_and!; [cbn; lia|done|]. apply wf_new_block; nia. }
    destruct (IH c) as [x ->]; [by rewrite Hcl|done|by rewrite Hca, Hcl| |by eauto].
    rewrite Hca, Hcl. intros ba bl p l ?? Hlo Hhi. apply Hf; try done; nia.
Qed.

Lemma read_loop_total size fuel off len b :
  host_has_memory -> fits max_depth size = true ->
  root_block size b -> 0 <= off -> 0 <= len <= Z.of_nat fuel -> off + len <= size ->
  exists x, read_loop fuel off len b = Ret x.
Proof.
  intros Hmem Hfit. revert off len b. induction fuel as [|fuel IH]; intros off len b Hb Ho Hl Hs;
    cbn [read_loop]; (destruct (Z.leb_spec len 0); [by eauto|]); [lia|].
  pose proof (root_block_bound _ _ Hb) as Hsz.
  assert (in_block (b_addr b) (b_len b) off) as Hin by (destruct Hb as (_ & -> & ->); unfold in_block; lia).
  destruct (access_total (read_sub_blocks off len) max_depth off b) as [[b1 d1] Hacc]; try done;
    [by destruct Hb as (_ & _ & ->)|apply Hb| |].
  { intros ba bl p l Hba Hbl H1 H2. unfold read_sub_blocks. destruct Hb as (_ & Hz & Hz2).
    rewrite clip_block_ok by (try done; lia). cbn. eauto. }
  rewrite Hacc. cbn [rbind fst snd].
  apply access_read in Hacc as (He & _ & Hd1 & Hfit1 & _); [|apply Hb|done|lia].
  rewrite u64_small by (destruct Hb as (_ & Hz & Hz2); lia).
  destruct (IH (off + Z.of_nat (length d1)) (len - Z.of_nat (length d1)) b1) as [[b2 d2] ->];
    [by eapply root_block_extends|lia..|]. cbn. eauto.
Qed.

Lemma write_loop_total size fuel data off b :
  host_has_memory -> fits max_depth size = true ->
  root_block size b -> 0 <= off -> (length data <= fuel)%nat -> off + Z.of_nat (length data) <= size ->
  exists b', write_loop fuel data off b = Ret b'.
Proof.
  intros Hmem Hfit. revert data off b. induction fuel as [|fuel IH]; intros data off b Hb Ho Hl Hs;
    cbn [write_loop]; (destruct data as [|v0 data0]; [by eauto|]); [by inversion Hl|].
  set (data := v0 :: data0) in *.
  assert (0 < length data)%nat as Hpos by (subst data; simpl; lia). clearbody data.
  pose proof (root_block_bound _ _ Hb) as Hsz.
  assert (in_block (b_addr b) (b_len b) off) as Hin by (destruct Hb as (_ & -> & ->); unfold in_block; lia).
  destruct (access_total (write_sub_blocks data off) max_depth off b) as [[b1 n] Hacc]; try done;
    [by destruct Hb as (_ & _ & ->)|apply Hb| |].
  { intros ba bl p l Hba Hbl H1 H2. unfold write_sub_blocks. destruct Hb as (_ & Hz & Hz2).
    rewrite clip_block_ok by (try done; lia). cbn. eauto. }
  rewrite Hacc. cbn [rbind fst snd].
  apply access_write in Hacc as (He & Hn & Hfit1 & _ & _); [|apply Hb|done|lia].
  rewrite u64_small by (destruct Hb as (_ & Hz & Hz2); lia).
  apply IH; [by eapply root_block_extends|lia|rewrite length_drop; lia..].
Qed.

(** ** The module *)

Definition wf_memory (m : memory) : Prop :=
  root_block (m_size m) (m_block m) /\ in_width 64 (m_address m).

(** The byte at an offset of the memory, once it is allocated. *)
Definition mem_peek (m : memory) (off : Z) : option Z := peek (m_block m) off.

(** [m'] is [m] after some accesses. *)
Definition mem_extends (m m' : memory) : Prop :=
  m_size m' = m_size m /\ m_address m' = m_address m /\ m_relative m' = m_relative m /\
  extends (m_block m) (m_block m').

Lemma set_block_extends m b : extends (m_block m) b -> mem_extends m (set_block b m).
Proof. done. Qed.

Lemma mem_extends_refl m : wf_memory m -> mem_extends m m.
Proof. intros [Hb _]. split_and!; [done..|]. by apply extends_refl, Hb. Qed.

Lemma mem_extends_trans m1 m2 m3 : mem_extends m1 m2 -> mem_extends m2 m3 -> mem_extends m1 m3.
Proof.
  intros (? & ? & ? & Hab) (? & ? & ? & Hbc). split_and!; [congruence..|]. by eapply extends_trans.
Qed.

Lemma mem_extends_wf m m' : mem_extends m m' -> wf_memory m -> wf_memory m'.
Proof.
  intros (Hs & Ha & _ & He) [Hb Hw]. split; [rewrite Hs|by rewrite Ha]. by eapply root_block_extends.
Qed.

Lemma elaborate_wf addr size rel :
  0 < size < 2 ^ 64 -> in_width 64 addr -> wf_memory (elaborate addr size rel).
Proof. intros. split; [|done]. split_and!; [apply wf_new_block|..]; try done; lia. Qed.

Context (Hmem : host_has_memory).

Lemma mem_read_ok off len m :
  wf_memory m -> fits max_depth (m_size m) = true -> 0 <= off -> 0 <= len -> off + len <= m_size m ->
  exists d m', mem_read off len m = Ret (Some d, m') /\ mem_extends m m' /\ Z.of_nat (length d) = len /\
    (forall i, (i < length d)%nat -> d !! i = mem_peek m' (off + Z.of_nat i)) /\
    (forall x v, mem_peek m x = Some v -> mem_peek m' x = Some v).
Proof.
  intros [Hb _] Hfit Ho Hl Hs. pose proof (root_block_bound _ _ Hb). unfold mem_read.
  rewrite u64_small by lia. destruct (Z.ltb_spec (m_size m) (off + len)); [lia|].
  destruct (read_loop_total (m_size m) (Z.to_nat len) off len (m_block m)) as [[b' d] Hr]; try done; [lia|].
  pose proof Hr as (He & Hkeep & Hd & Hbytes)%(read_loop_spec (m_size m)); try done.
  exists d, (set_block b' m). rewrite Hr. split_and!; try done.
  intros x v. unfold mem_peek, peek. cbn [set_block m_block].
  destruct (leaf (m_block m) x) as [q|] eqn:E; [|done]. by rewrite (Hkeep _ _ E).
Qed.

Lemma mem_write_ok data off m :
  wf_memory m -> fits max_depth (m_size m) = true -> 0 <= off ->
  off + Z.of_nat (length data) <= m_size m ->
  exists m', mem_write data off m = Ret (true, m') /\ mem_extends m m' /\
    (forall i, (i < length data)%nat -> mem_peek m' (off + Z.of_nat i) = data !! i) /\
    (forall x v, ~ in_block off (Z.of_nat (length data)) x -> mem_peek m x = Some v -> mem_peek m' x = Some v).
Proof.
  intros [Hb _] Hfit Ho Hs. pose proof (root_block_bound _ _ Hb). unfold mem_write.
  rewrite u64_small by lia. destruct (Z.ltb_spec (m_size m) (off + Z.of_nat (length data))); [lia|].
  destruct (write_loop_total (m_size m) (length data) data off (m_block m)) as [b' Hr]; try done.
  pose proof Hr as (He & Hbytes & Hkeep)%(write_loop_spec (m_size m)); try done.
  exists (set_block b' m). by rewrite Hr.
Qed.

(** *** Histories of reads and writes *)

Inductive mem_op : Type :=
| MRead (off len : Z)
| MWrite (bytes : list Z) (off : Z).

Definition op_in_width (o : mem_op) : Prop :=
  match o with
  | MRead off len => 0 <= off /\ 0 <= len /\ off + len < 2 ^ 64
  | MWrite d off => 0 <= off /\ off + Z.of_nat (length d) < 2 ^ 64
  end.

(** The outcome of one operation: the bytes read, nothing when out of range. *)
Definition mem_step (o : mem_op) (m : memory) : res (option (list Z) * memory) :=
  match o with
  | MRead off len => mem_read off len m
  | MWrite d off => let? x := mem_write d off m in Ret (if x.1 : bool then Some [] else None, x.2)
  end.

Fixpoint mem_run (ops : list mem_op) (m : memory) : res (list (option (list Z)) * memory) :=
  match ops with
  | [] => Ret ([], m)
  | o :: ops =>
      let? x := mem_step o m in
      let? y := mem_run ops x.2 in
      Ret (x.1 :: y.1, y.2)
  end.

(** The flat memory it implements: the bytes known so far, an unknown byte being fixed
    by the first read of it. *)
Definition flat_store (off : Z) (d : list Z) (s : Z -> option Z) : Z -> option Z :=
  fun x => if decide (in_block off (Z.of_nat (length d)) x) then d !! Z.to_nat (x - off) else s x.

Fixpoint flat_run (size : Z) (ops : list mem_op) (outs : list (option (list Z))) (s : Z -> option Z) : Prop :=
  match ops, outs with
  | [], [] => True
  | MRead off len :: ops, out :: outs =>
      if size <? off + len then out = None /\ flat_run size ops outs s
      else exists d, out = Some d /\ Z.of_nat (length d) = len /\
           (forall i v, (i < length d)%nat -> s (off + Z.of_nat i) = Some v -> d !! i = Some v) /\
           flat_run size ops outs (flat_store off d s)
  | MWrite d off :: ops, out :: outs =>
      if size <? off + Z.of_nat (length d) then out = None /\ flat_run size ops outs s
      else out = Some [] /\ flat_run size ops outs (flat_store off d s)
  | _, _ => False
  end.

(** The bytes the flat memory knows are those of the tree. *)
Definition agrees (s : Z -> option Z) (m : memory) : Prop :=
  forall x v, s x = Some v -> mem_peek m x = Some v.

Lemma agrees_store off d s m m' :
  agrees s m -> (forall i, (i < length d)%nat -> mem_peek m' (off + Z.of_nat i) = d !! i) ->
  (forall x v, ~ in_block off (Z.of_nat (length d)) x -> mem_peek m x = Some v -> mem_peek m' x = Some v) ->
  agrees (flat_store off d s) m'.
Proof.
  intros Ha Hd Hk x v. unfold flat_store. case_decide as Hx; [|by auto].
  intros <-. unfold in_block in Hx. rewrite <- Hd by lia. f_equal. lia.
Qed.

Lemma mem_step_refines o m s :
  wf_memory m -> fits max_depth (m_size m) = true -> op_in_width o -> agrees s m ->
  exists out m' s', mem_step o m = Ret (out, m') /\ mem_extends m m' /\ agrees s' m' /\
    forall ops outs, flat_run (m_size m) ops outs s' -> flat_run (m_size m) (o :: ops) (out :: outs) s.
Proof.
  intros Hw Hfit Ho Ha. pose proof (mem_extends_refl m Hw) as Hrefl.
  destruct o as [off len|d off]; cbn [op_in_width flat_run] in *; [destruct Ho as (Ho & Hl & Hw64)|destruct Ho as [Ho Hw64]].
  - destruct (Z.ltb_spec (m_size m) (off + len)).
    + exists None, m, s. split_and!; try done. unfold mem_step, mem_read. rewrite u64_small by lia.
      by rewrite (proj2 (Z.ltb_lt _ _)).
    + destruct (mem_read_ok off len m) as (d & m' & Hr & He & Hd & Hb & Hk); try done.
      exists (Some d), m', (flat_store off d s). split_and!; try done.
      * eapply agrees_store; [done| |by auto]. intros i Hi. by rewrite Hb.
      * intros ops outs Hf. exists d. split_and!; try done. intros i v Hi Hv. rewrite Hb by done. by apply Hk, Ha.
  - destruct (Z.ltb_spec (m_size m) (off + Z.of_nat (length d))).
    + exists None, m, s. split_and!; try done. unfold mem_step, mem_write. rewrite u64_small by lia.
      by rewrite (proj2 (Z.ltb_lt _ _)).
    + destruct (mem_write_ok d off m) as (m' & Hr & He & Hb & Hk); try done.
      exists (Some []), m', (flat_store off d s). split_and!; try done; [|by eapply agrees_store].
      unfold mem_step. by rewrite Hr.
Qed.

Lemma mem_run_refines ops m s :
  wf_memory m -> fits max_depth (m_size m) = true -> Forall op_in_width ops -> agrees s m ->
  exists outs m', mem_run ops m = Ret (outs, m') /\ mem_extends m m' /\ flat_run (m_size m) ops outs s.
Proof.
  revert m s. induction ops as [|o ops IH]; intros m s Hw Hfit Hops Ha.
  { exists [], m. split_and!; try done. by apply mem_extends_refl. }
  apply Forall_cons_1 in Hops as [Ho Hops].
  destruct (mem_step_refines o m s) as (out & m1 & s1 & Hst & He & Ha1 & Hf); try done.
  pose proof He as (Hsz & _).
  destruct (IH m1 s1) as (outs & m' & Hrun & He' & Hf'); [by eapply mem_extends_wf|by rewrite Hsz|done..|].
  exists (out :: outs), m'. cbn [mem_run]. rewrite Hst. cbn [rbind fst snd]. rewrite Hrun.
  split_and!; [done|by eapply mem_extends_trans|]. apply Hf. by rewrite <- Hsz.
Qed.

(** *** Transactions *)

(** Byte [j] of the transaction takes part in it. *)
Definition enabled (t : payload) (j : Z) : Prop :=
  match byt t with
  | Some bs => bs !! Z.to_nat (j mod byte_enable_length t) = Some 0xff
  | None => True
  end.

#[global] Instance enabled_dec t j : Decision (enabled t j).
Proof. unfold enabled. destruct (byt t); apply _. Defined.

(** The data pointer reaches [data_length] bytes and the byte enable pointer
    [byte_enable_length]. *)
Definition pointers_ok (t : payload) : Prop :=
  Z.of_nat (length (data t)) = data_length t /\
  match byt t with
  | Some bs => 0 < byte_enable_length t <= Z.of_nat (length bs)
  | None => True
  end.

Lemma byte_enabled_spec t bs j :
  byt t = Some bs -> pointers_ok t -> 0 <= j ->
  byte_enabled bs (byte_enable_length t) j = Ret (bool_decide (enabled t j)).
Proof.
  intros Hb [_ Hp] Hj. rewrite Hb in Hp. unfold byte_enabled.
  destruct (Z.eqb_spec (byte_enable_length t) 0); [lia|].
  pose proof (Z.mod_pos_bound j (byte_enable_length t)).
  destruct (bs !! Z.to_nat (j mod byte_enable_length t)) as [e|] eqn:E.
  - f_equal. case_bool_decide as He; unfold enabled in He; rewrite Hb, E in He;
      destruct (Z.eqb_spec e 255); congruence.
  - apply lookup_ge_None in E. lia.
Qed.

(** The bytes a transaction at offset [off] writes. *)
Definition writes_to (t : payload) (off lo hi x : Z) : Prop :=
  exists j, lo <= j < hi /\ enabled t j /\ x = off + j.

Lemma write_bytes_ok t bs off n i m :
  byt t = Some bs -> pointers_ok t -> 0 <= off -> 0 <= i -> i + Z.of_nat n = data_length t ->
  wf_memory m -> fits max_depth (m_size m) = true -> off + data_length t <= m_size m ->
  exists m', write_bytes n i bs (byte_enable_length t) off (data t) m = Ret m' /\ mem_extends m m' /\
    (forall j, i <= j < data_length t -> enabled t j -> mem_peek m' (off + j) = data t !! Z.to_nat j) /\
    (forall x v, ~ writes_to t off i (data_length t) x -> mem_peek m x = Some v -> mem_peek m' x = Some v).
Proof.
  intros Hbs Hp Ho. pose proof Hp as [Hdl _]. revert i m. induction n as [|n IH]; intros i m Hi Hn Hw Hfit Hs; cbn [write_bytes].
  { exists m. split_and!; [done|by apply mem_extends_refl|lia|done]. }
  pose proof (root_block_bound _ _ (proj1 Hw)) as Hsz.
  rewrite (byte_enabled_spec t) by (try done; lia). cbn [rbind]. case_bool_decide as Hen.
  - destruct (lookup_lt_is_Some_2 (data t) (Z.to_nat i)) as [v0 Hv0]; [lia|]. rewrite Hv0.
    rewrite u64_small by lia.
    destruct (mem_write_ok [v0] (off + i) m) as (m1 & -> & He & Hb & Hk); try done; [lia|simpl; lia|].
    cbn [rbind fst snd]. pose proof He as (Hsz1 & _).
    destruct (IH (i + 1) m1) as (m2 & Hrun & He2 & Hb2 & Hk2);
      [lia|lia|by eapply mem_extends_wf|by rewrite Hsz1|by rewrite Hsz1|].
    exists m2. split_and!; [done|by eapply mem_extends_trans| |].
    + intros j Hj Hej. destruct (decide (j = i)) as [->|]; [|by apply Hb2; [lia|]].
      rewrite Hv0. apply Hk2; [intros (j & ? & _ & ?); lia|].
      specialize (Hb 0%nat ltac:(simpl; lia)). by rewrite Z.add_0_r in Hb.
    + intros x v Hx Hv. apply Hk2.
      * intros (j & ? & ? & ->). apply Hx. exists j. split_and!; [lia|lia|done|done].
      * apply Hk; [|done]. unfold in_block. simpl. intros ?. apply Hx. exists i. split_and!; [lia|lia|done|lia].
  - destruct (IH (i + 1) m) as (m2 & Hrun & He2 & Hb2 & Hk2); [lia|lia|done..|].
    exists m2. split_and!; [done|done| |].
    + intros j Hj Hej. destruct (decide (j = i)) as [->|]; [done|]. apply Hb2; [lia|done].
    + intros x v Hx Hv. apply Hk2; [|done]. intros (j & ? & ? & ->). apply Hx.
      exists j. split_and!; [lia|lia|done|done].
Qed.

Lemma read_bytes_ok t bs off n i d m :
  byt t = Some bs -> pointers_ok t -> 0 <= off -> 0 <= i -> i + Z.of_nat n = data_length t ->
  wf_memory m -> fits max_depth (m_size m) = true -> off + data_length t <= m_size m ->
  length d = length (data t) ->
  exists d' m', read_bytes n i bs (byte_enable_length t) off d m = Ret (d', m') /\ mem_extends m m' /\
    length d' = length d /\
    (forall j, i <= j < data_length t -> enabled t j ->
       exists v, d' !! Z.to_nat j = Some v /\ mem_peek m' (off + j) = Some v) /\
    (forall j, (j < i \/ ~ enabled t j) -> 0 <= j -> d' !! Z.to_nat j = d !! Z.to_nat j) /\
    (forall x v, mem_peek m x = Some v -> mem_peek m' x = Some v).
Proof.
  intros Hbs Hp Ho. pose proof Hp as [Hdl _]. revert i d m. induction n as [|n IH]; intros i d m Hi Hn Hw Hfit Hs Hd; cbn [read_bytes].
  { exists d, m. split_and!; try done; [by apply mem_extends_refl|lia]. }
  pose proof (root_block_bound _ _ (proj1 Hw)) as Hsz.
  rewrite (byte_enabled_spec t) by (try done; lia). cbn [rbind]. case_bool_decide as Hen.
  - rewrite u64_small by lia.
    destruct (mem_read_ok (off + i) 1 m) as (l & m1 & -> & He & Hl & Hb & Hk); try done; [lia|lia|].
    destruct l as [|v0 [|]]; cbn [length] in Hl; try lia. cbn [rbind fst snd]. pose proof He as (Hsz1 & _).
    destruct (IH (i + 1) (<[Z.to_nat i:=v0]> d) m1) as (d2 & m2 & Hrun & He2 & Hl2 & Hb2 & Ho2 & Hk2);
      [lia|lia|by eapply mem_extends_wf|by rewrite Hsz1|by rewrite Hsz1|by rewrite length_insert|].
    rewrite length_insert in Hl2.
    exists d2, m2. split_and!; [done|by eapply mem_extends_trans|done| | |by auto].
    + intros j Hj Hej. destruct (decide (j = i)) as [->|]; [|by apply Hb2; [lia|]].
      exists v0. split.
      * rewrite Ho2 by lia. rewrite list_lookup_insert_eq by lia. done.
      * apply Hk2. specialize (Hb 0%nat ltac:(simpl; lia)). by rewrite Z.add_0_r in Hb.
    + intros j Hj Hj0. assert (j <> i) by (intros ->; destruct Hj; [lia|done]).
      rewrite Ho2; [|destruct Hj; [left; lia|by right]|done]. by rewrite list_lookup_insert_ne by lia.
  - destruct (IH (i + 1) d m) as (d2 & m2 & Hrun & He2 & Hl2 & Hb2 & Ho2 & Hk2); [lia|lia|done..|].
    exists d2, m2. split_and!; try done.
    + intros j Hj Hej. destruct (decide (j = i)) as [->|]; [done|]. apply Hb2; [lia|done].
    + intros j Hj Hj0. apply Ho2; [|done]. destruct Hj; [left; lia|by right].
Qed.

(** The payload and delay of a completed transaction. *)
Definition completed (t : payload) (d : list Z) : payload :=
  let t := set_response_status TLM_OK_RESPONSE (set_data d t) in
  if p_dmi cfg then set_dmi_allowed true t else t.

Lemma completed_fields t d :
  response (completed t d) = TLM_OK_RESPONSE /\ data (completed t d) = d /\
  address (completed t d) = address t /\ (p_dmi cfg = true -> dmi_allowed (completed t d) = true).
Proof. unfold completed. by destruct (p_dmi cfg). Qed.

(** The transaction is one that the memory serves, at offset [off]. *)
Definition serves (t : payload) (off : Z) (m : memory) : Prop :=
  txn_ok t /\ pointers_ok t /\ data_length t <= streaming_width t /\
  mem_offset m (address t) = Some off /\ off + data_length t <= m_size m /\
  fits max_depth (m_size m) = true.

Lemma mem_offset_range m a off : wf_memory m -> in_width 64 a -> mem_offset m a = Some off -> 0 <= off <= a.
Proof.
  intros [_ Hw] Ha. unfold mem_offset, in_width in *. destruct (m_relative m); [intros; simplify_eq; lia|].
  destruct (Z.ltb_spec a (m_address m)); [done|]. intros; simplify_eq. lia.
Qed.

Lemma mem_b_transport_reads t delay off m :
  wf_memory m -> serves t off m -> command t = TLM_READ_COMMAND ->
  exists d m', mem_b_transport t delay m = Ret (completed t d, delay + p_latency cfg, m') /\
    mem_extends m m' /\ length d = length (data t) /\
    (forall j, 0 <= j < data_length t -> enabled t j ->
       exists v, d !! Z.to_nat j = Some v /\ mem_peek m' (off + j) = Some v) /\
    (forall j, 0 <= j < data_length t -> ~ enabled t j -> d !! Z.to_nat j = data t !! Z.to_nat j) /\
    (forall x v, mem_peek m x = Some v -> mem_peek m' x = Some v).
Proof.
  intros Hw ((Ha & Hl) & Hp & Hsw & Hoff & Hs & Hfit) Hc. unfold mem_b_transport, in_width in *.
  pose proof (mem_offset_range _ _ _ Hw Ha Hoff) as Ho. pose proof (root_block_bound _ _ (proj1 Hw)) as Hsz.
  destruct (Z.ltb_spec (streaming_width t) (data_length t)); [lia|]. rewrite Hoff, u64_small by lia.
  destruct (Z.ltb_spec (m_size m) (off + data_length t)); [lia|]. rewrite Hc.
  destruct (byt t) as [bs|] eqn:Hb.
  - destruct (read_bytes_ok t bs off (Z.to_nat (data_length t)) 0 (data t) m)
      as (d & m' & -> & He & Hld & Hen & Hdis & Hk); try done; try lia.
    exists d, m'. split_and!; try done. intros j Hj Hne. apply Hdis; [by right|lia].
  - destruct (mem_read_ok off (data_length t) m) as (d & m' & -> & He & Hld & Hbytes & Hk); try done; try lia.
    destruct Hp as [Hp _]. assert (splice 0 d (data t) = d) as Hsp.
    { unfold splice. rewrite drop_ge by lia. simpl. by rewrite app_nil_r. }
    cbn [rbind]. rewrite Hsp. exists d, m'. split_and!; try done; [lia| |].
    + intros j Hj _. destruct (lookup_lt_is_Some_2 d (Z.to_nat j)) as [v Hv]; [lia|]. exists v. split; [done|].
      rewrite <- Hv, Hbytes by lia. f_equal. lia.
    + intros j _ Hne. destruct Hne. unfold enabled. by rewrite Hb.
Qed.

Lemma mem_b_transport_writes t delay off m :
  wf_memory m -> serves t off m -> command t = TLM_WRITE_COMMAND -> p_rom cfg = false ->
  exists m', mem_b_transport t delay m = Ret (completed t (data t), delay + p_latency cfg, m') /\
    mem_extends m m' /\
    (forall j, 0 <= j < data_length t -> enabled t j -> mem_peek m' (off + j) = data t !! Z.to_nat j) /\
    (forall x v, ~ writes_to t off 0 (data_length t) x -> mem_peek m x = Some v -> mem_peek m' x = Some v).
Proof.
  intros Hw ((Ha & Hl) & Hp & Hsw & Hoff & Hs & Hfit) Hc Hrom. unfold mem_b_transport, in_width in *.
  pose proof (mem_offset_range _ _ _ Hw Ha Hoff) as Ho. pose proof (root_block_bound _ _ (proj1 Hw)) as Hsz.
  destruct (Z.ltb_spec (streaming_width t) (data_length t)); [lia|]. rewrite Hoff, u64_small by lia.
  destruct (Z.ltb_spec (m_size m) (off + data_length t)); [lia|]. rewrite Hc, Hrom.
  destruct (byt t) as [bs|] eqn:Hb.
  - destruct (write_bytes_ok t bs off (Z.to_nat (data_length t)) 0 m) as (m' & -> & He & Hen & Hk); try done; try lia.
    exists m'. by split_and!.
  - destruct Hp as [Hp _]. rewrite (take_ge (data t)) by lia.
    destruct (mem_write_ok (data t) off m) as (m' & -> & He & Hbytes & Hk); try done; try lia.
    exists m'. split_and!; try done.
    + intros j Hj _. rewrite <- Hbytes by lia. f_equal. lia.
    + intros x v Hx. apply Hk. unfold in_block. intros ?. apply Hx. exists (x - off). unfold enabled. rewrite Hb.
      split_and!; try done; lia.
Qed.

End Memory.

(** ** Configuration *)

Section Configuration.
Context {B : Type} `{CciBroker B}.
#[local] Open Scope string_scope.

Definition socket_name (name : string) : string := name ++ ".target_socket".

(** The parameter prefix an alias stands for: the name itself, or the target socket of
    the module after an ampersand. *)
Definition alias_prefix (alias : string) : string :=
  match alias with
  | String c s => if Ascii.eqb c "&"%char then socket_name s else alias
  | EmptyString => alias
  end.

Definition is_number (v : option cci_value) : bool :=
  match v with Some (CciNumber _) => true | _ => false end.

(** [size ()], [m_size] being the current value. *)
Definition mem_size (broker : B) (name : string) (m_size : Z) : res Z :=
  if negb (m_size =? 0)%Z then Ret m_size
  else
    let ts_name := socket_name name in
    let ts_name :=
      match try_string (preset broker (ts_name ++ ".0")) with
      | Some alias => if is_number (preset broker (ts_name ++ ".size")) then ts_name else alias_prefix alias
      | None => ts_name
      end in
    cci_get (try_u64 (preset broker (ts_name ++ ".size"))).

(** [base ()], called once. *)
Definition mem_base (broker : B) (name : string) : res Z :=
  let ts_name := socket_name name in
  let ts_name :=
    match try_string (preset broker (ts_name ++ ".0")) with
    | Some alias =>
        match try_u64 (preset broker (ts_name ++ ".address")) with
        | Some _ => ts_name
        | None => alias_prefix alias
        end
    | None => ts_name
    end in
  match preset broker (ts_name ++ ".address") with
  | None => Ret 0%Z
  | Some v => cci_get (try_u64 (Some v))
  end.

(** The constructor's [_size] only sets a preset that is missing. *)
Definition preset_size (broker : B) (name : string) (_size : Z) : B :=
  if (_size =? 0)%Z then broker
  else match preset broker (socket_name name ++ ".size") with
       | Some _ => broker
       | None => set_preset broker (socket_name name ++ ".size") (CciNumber _size)
       end.

(** [before_end_of_elaboration] of a memory that has not been elaborated. *)
Definition before_end_of_elaboration (broker : B) (name : string) : res memory :=
  let? addr := mem_base broker name in
  let? size := mem_size broker name 0 in
  let relative := cci_get_d (try_bool (preset broker (socket_name name ++ ".relative_addresses"))) true in
  Ret (elaborate addr size relative).

End Configuration.

(** ** Properties *)

(** C6: A memory built with any base address, size and addressing mode behaves as a flat
    array of bytes: any sequence of reads and writes runs to completion, an access that
    does not fit is refused and changes nothing, and every other read returns, for each
    byte, the value last written or read there, however the tree of sub-blocks is split
    on the way.  The size has to be divisible into blocks the host can allocate. *)
Theorem mem_refines_flat h cfg `{!HostLaws h} addr size rel ops :
  host_has_memory h cfg -> fits cfg max_depth size = true ->
  0 < size < 2 ^ 64 -> in_width 64 addr -> Forall op_in_width ops ->
  exists outs m', mem_run h cfg ops (elaborate addr size rel) = Ret (outs, m') /\
    flat_run size ops outs (fun _ => None).
Proof.
  intros Hmem Hfit Hs Ha Hops.
  destruct (mem_run_refines h cfg Hmem ops (elaborate addr size rel) (fun _ => None))
    as (outs & m' & Hrun & _ & Hf); [by apply elaborate_wf|done..|]. by exists outs, m'.
Qed.

(** A transaction within the memory completes with an OK response and the configured
    latency.  A read returns the contents of the memory in the enabled bytes and leaves
    the others of the buffer alone; a write changes exactly the enabled bytes.  Bytes
    already in the memory that are not written keep their value. *)
Theorem mem_b_transport_served h cfg `{!HostLaws h} t delay off m :
  host_has_memory h cfg -> wf_memory h cfg m -> serves cfg t off m ->
  (command t = TLM_READ_COMMAND \/ command t = TLM_WRITE_COMMAND /\ p_rom cfg = false) ->
  exists t' m', mem_b_transport h cfg t delay m = Ret (t', delay + p_latency cfg, m') /\
    wf_memory h cfg m' /\ response t' = TLM_OK_RESPONSE /\ address t' = address t /\
    (p_dmi cfg = true -> dmi_allowed t' = true) /\
    (command t = TLM_READ_COMMAND ->
       (forall j, 0 <= j < data_length t -> data t' !! Z.to_nat j =
          if decide (enabled t j) then mem_peek m' (off + j) else data t !! Z.to_nat j) /\
       (forall x v, mem_peek m x = Some v -> mem_peek m' x = Some v)) /\
    (command t = TLM_WRITE_COMMAND ->
       (forall j, 0 <= j < data_length t -> enabled t j -> mem_peek m' (off + j) = data t !! Z.to_nat j) /\
       (forall x v, ~ writes_to t off 0 (data_length t) x -> mem_peek m x = Some v -> mem_peek m' x = Some v)).
Proof.
  intros Hmem Hw Hs [Hc|[Hc Hrom]].
  - destruct (mem_b_transport_reads h cfg Hmem t delay off m) as (d & m' & -> & He & Hl & Hen & Hdis & Hk); try done.
    exists (completed cfg t d), m'. destruct (completed_fields cfg t d) as (-> & Hdd & -> & ?).
    split_and!; try done; [by eapply mem_extends_wf| |by rewrite Hc].
    intros _. split; [|done]. intros j Hj. rewrite Hdd.
    case_decide as Hej; [|by apply Hdis]. destruct (Hen j Hj Hej) as (v & -> & ->). done.
  - destruct (mem_b_transport_writes h cfg Hmem t delay off m) as (m' & -> & He & Hen & Hk); try done.
    exists (completed cfg t (data t)), m'. destruct (completed_fields cfg t (data t)) as (-> & Hdd & -> & ?).
    split_and!; try done; [by eapply mem_extends_wf|by rewrite Hc].
Qed.

(** The error paths: an address below the base, a range that ends beyond the memory,
    and a write to a read-only memory are answered with the address or command error
    response; the delay and the memory stay as they were. *)
Theorem mem_b_transport_refused h cfg t delay m :
  data_length t <= streaming_width t ->
  (mem_offset m (address t) = None ->
     mem_b_transport h cfg t delay m = Ret (set_response_status TLM_ADDRESS_ERROR_RESPONSE t, delay, m)) /\
  (forall off, mem_offset m (address t) = Some off -> m_size m < off + data_length t < 2 ^ 64 -> 0 <= off + data_length t ->
     mem_b_transport h cfg t delay m = Ret (set_response_status TLM_ADDRESS_ERROR_RESPONSE t, delay, m)) /\
  (forall off, mem_offset m (address t) = Some off -> 0 <= off + data_length t < 2 ^ 64 -> off + data_length t <= m_size m ->
     command t = TLM_WRITE_COMMAND -> p_rom cfg = true ->
     mem_b_transport h cfg t delay m = Ret (set_response_status TLM_COMMAND_ERROR_RESPONSE t, delay, m)).
Proof.
  intros Hsw. unfold mem_b_transport. destruct (Z.ltb_spec (streaming_width t) (data_length t)); [lia|].
  split_and!.
  - by intros ->.
  - intros off -> Ho H0. rewrite u64_small by lia. by rewrite (proj2 (Z.ltb_lt _ _)) by lia.
  - intros off -> Ho Hs Hc Hrom. rewrite u64_small by lia.
    destruct (Z.ltb_spec (m_size m) (off + data_length t)); [lia|]. by rewrite Hc, Hrom.
Qed.

(** C40: A granted DMI region contains the address asked for and lies within the memory's
    addresses, is read-only for a read-only memory, and the host memory behind it is the
    storage the transactions use: for every address of the region, the allocated block is
    at the host address the descriptor gives, and stays there over any later reads and
    writes. *)
Theorem mem_dmi_sound h cfg `{!HostLaws h} t d m off ops :
  host_has_memory h cfg -> wf_memory h cfg m -> fits cfg max_depth (m_size m) = true ->
  in_width 64 (address t) -> m_address m + m_size m < 2 ^ 64 -> p_dmi cfg = true ->
  mem_offset m (address t) = Some off -> off < m_size m -> Forall op_in_width ops ->
  exists d' m', mem_get_direct_mem_ptr h cfg t d m = Ret (true, t, d', m') /\ wf_memory h cfg m' /\
    dmi_covers d' (address t) /\ (is_write_allowed d' = true -> p_rom cfg = false) /\
    exists outs m'', mem_run h cfg ops m' = Ret (outs, m'') /\
      forall a, dmi_covers d' a ->
        exists o ba bl p l, mem_offset m a = Some o /\ 0 <= o < m_size m /\
          leaf (m_block m'') o = Some (ba, bl, p, l) /\ dmi_host d' a = p + (o - ba).
Proof.
  intros Hmem Hw Hfit Ha Hfits Hdmi Hoff Ho Hops. unfold mem_get_direct_mem_ptr.
  rewrite Hdmi, Hoff. cbn [negb]. pose proof (mem_offset_range h cfg _ _ _ Hw Ha Hoff) as Hor.
  destruct (Z.leb_spec (m_size m) off); [lia|]. pose proof Hw as [(Hwb & Hba & Hbl) Hma].
  pose proof (root_block_bound h cfg _ _ (proj1 Hw)) as Hsz. unfold in_width in Hma.
  assert (in_block (b_addr (m_block m)) (b_len (m_block m)) off) as Hin by (rewrite Hba, Hbl; unfold in_block; lia).
  set (f := fun ba bl p l => Ret (l, (ba, bl, p))).
  destruct (access_total h cfg f max_depth off (m_block m)) as [[b [[ba bl] p]] Hacc]; try done; [by rewrite Hbl|by eauto|].
  rewrite Hacc. cbn [rbind]. apply access_spec in Hacc; try done.
  assert (extends h cfg (m_block m) b) as He by (eapply accessed_extends; [|done]; unfold f; intros; by simplify_eq).
  destruct Hacc as (ba' & bl' & p' & l & l' & Hf & Hin' & H1 & H2 & Hl & _ & Hx).
  unfold f in Hf. injection Hf as <- -> -> ->. destruct (Hx eq_refl) as (_ & _ & _ & Hleaf). clear Hx f.
  assert (wf_memory h cfg (set_block b m)) as Hw' by (eapply mem_extends_wf; [by apply set_block_extends|done]).
  rewrite Hba, Hbl in *. unfold in_block in Hin'.
  destruct (mem_run_refines h cfg Hmem ops (set_block b m) (fun _ => None))
    as (outs & m'' & Hrun & (_ & _ & _ & _ & _ & _ & Hst) & _); try done.
  eexists _, (set_block b m). split_and!; [done|done| | |].
  - unfold dmi_covers, mem_offset in *. cbn. destruct (m_relative m); simplify_eq.
    + rewrite !u64_small by lia. lia.
    + destruct (Z.ltb_spec (address t) (m_address m)); simplify_eq. rewrite !u64_small by lia. lia.
  - unfold is_write_allowed. cbn. by destruct (p_rom cfg).
  - exists outs, m''. split; [done|]. intros a Hcov. unfold dmi_covers, dmi_host, mem_offset in *. cbn in *.
    set (o := if m_relative m then a else a - m_address m).
    destruct (Hst o ba bl p l) as [l'' Hl''].
    { rewrite Hleaf, decide_True; [done|]. unfold in_block, o. destruct (m_relative m); rewrite !u64_small in Hcov by lia; lia. }
    exists o, ba, bl, p, l''. unfold o in *. destruct (m_relative m); rewrite !u64_small in * by lia.
    + split_and!; try done; lia.
    + destruct (Z.ltb_spec a (m_address m)); [lia|]. split_and!; try done; lia.
Qed.

(** A reset does not reach the upper half of a memory that is split into sub-blocks:
    the loop over the four sub-blocks stops after two, so every byte of the other two
    keeps its value. *)
Theorem doreset_skips_upper_half cfg len addr s0 s1 s2 s3 x :
  0 < len / 4 -> addr + 2 * (len / 4) <= x ->
  let b := Block len addr None s0 s1 s2 s3 true in
  peek (doreset cfg b) x = peek b x.
Proof.
  intros Hl Hx b. unfold b, peek. cbn [doreset leaf].
  assert (2 <= (x - addr) / (len / 4)) by (apply Z.div_le_lower_bound; lia).
  destruct (Z.eqb_spec ((x - addr) / (len / 4)) 0); [lia|].
  destruct (Z.eqb_spec ((x - addr) / (len / 4)) 1); [lia|]. done.
Qed.

(** The range check adds address and length modulo [2^64]: a read that runs over the
    end of the address space passes it, and the copy then leaves the host memory of the
    block. *)
Theorem mem_range_check_wraps h cfg t delay m p l :
  m_relative m = true ->
  m_block m = Block (m_size m) 0 (Some (p, l)) None None None None false ->
  command t = TLM_READ_COMMAND -> byt t = None -> data_length t <= streaming_width t ->
  txn_ok t -> 0 < m_size m < address t -> 2 ^ 64 <= address t + data_length t <= 2 ^ 64 + m_size m ->
  mem_b_transport h cfg t delay m = Err StopUndef.
Proof.
  intros Hrel Hb Hc Hbyt Hsw [Ha Hl] Hs Hwrap. unfold in_width in *.
  assert (u64 (address t + data_length t) = address t + data_length t - 2 ^ 64) as Hu.
  { unfold wrap. symmetry. apply Z.mod_unique with 1; lia. }
  unfold mem_b_transport, mem_offset. rewrite Hrel, Hu.
  destruct (Z.ltb_spec (streaming_width t) (data_length t)); [lia|].
  destruct (Z.ltb_spec (m_size m) (address t + data_length t - 2 ^ 64)); [lia|].
  rewrite Hc, Hbyt. unfold mem_read. rewrite Hu.
  destruct (Z.ltb_spec (m_size m) (address t + data_length t - 2 ^ 64)); [lia|].
  destruct (Z.to_nat (data_length t)) as [|n] eqn:En; [lia|]. cbn [read_loop].
  destruct (Z.leb_spec (data_length t) 0); [lia|]. rewrite Hb. change max_depth with (S 32). cbn [access].
  destruct (Z.leb_spec 0 (address t)); [|lia]. cbn [assertb rbind]. unfold read_sub_blocks, clip_block.
  rewrite Z.sub_0_r, (u64_small (address t)) by lia.
  assert (u64 (m_size m - address t) = m_size m - address t + 2 ^ 64) as ->.
  { unfold wrap. symmetry. apply Z.mod_unique with (-1); lia. }
  destruct (Z.ltb_spec (data_length t) (m_size m - address t + 2 ^ 64)).
  - by rewrite (proj2 (Z.ltb_lt _ _)) by lia.
  - by rewrite (proj2 (Z.ltb_lt _ _)) by lia.
Qed.

(** ** Examples *)

(** A host that always has zeroed memory, and a memory of 64 bytes in blocks of at most
    16. *)
Definition ex_host : host_services :=
  mk_host (fun _ _ => None) (fun _ _ => None)
    (fun a n => if 0 <=? n then Some (0x10000 + a, replicate (Z.to_nat n) 0) else None).
Definition ex_mem_config (rom : bool) : mem_config := mk_mem_config rom true 10 false 16 4 false false 0.
Definition ex_memory : memory := elaborate 0x1000 64 false.

#[local] Instance ex_host_laws : HostLaws ex_host.
Proof.
  split; simpl; [done|done|]. intros a n p l. destruct (Z.leb_spec 0 n); [|done].
  intros [= <- <-]. rewrite length_replicate. lia.
Qed.

Lemma ex_host_memory rom : host_has_memory ex_host (ex_mem_config rom).
Proof.
  intros a n Hn. unfold acquire. simpl. destruct (Z.leb_spec 0 n); [done|lia].
Qed.

Lemma ex_memory_wf rom : wf_memory ex_host (ex_mem_config rom) ex_memory.
Proof. apply elaborate_wf; unfold in_width; lia. Qed.

Example before_end_of_elaboration_alias :
  before_end_of_elaboration (<["ram.target_socket.0" := CciString "&shared"]>
    (<["shared.target_socket.size" := CciNumber 64]>
    (<["shared.target_socket.address" := CciNumber 0x1000]>
    (<["ram.target_socket.relative_addresses" := CciBool false]> (∅ : plain_broker)))))%string "ram"
  = Ret ex_memory.
Proof. reflexivity. Qed.

(** A write across the boundary of two sub-blocks is read back; bytes 12, 13, 18 and 19
    were never written and hold what the host gave. *)
Example ex_mem_run :
  exists m', mem_run ex_host (ex_mem_config false) [MWrite [1; 2; 3; 4] 14; MRead 12 8; MRead 60 5] ex_memory
    = Ret ([Some []; Some [0; 0; 1; 2; 3; 4; 0; 0]; None], m').
Proof. eexists. vm_compute. reflexivity. Qed.

Lemma mem_refines_flat_witness :
  exists outs m', mem_run ex_host (ex_mem_config false) [MWrite [1; 2; 3; 4] 14; MRead 12 8; MRead 60 5]
      (elaborate 0x1000 64 false) = Ret (outs, m') /\
    flat_run 64 [MWrite [1; 2; 3; 4] 14; MRead 12 8; MRead 60 5] outs (fun _ => None).
Proof.
  apply (mem_refines_flat ex_host (ex_mem_config false) 0x1000 64 false).
  - apply ex_host_memory.
  - reflexivity.
  - lia.
  - unfold in_width. lia.
  - repeat constructor; simpl; lia.
Defined.

(** A write of four bytes with every other byte enabled. *)
Definition ex_mem_txn : payload :=
  mk_payload TLM_WRITE_COMMAND 0x100e [1; 2; 3; 4] 4 4 (Some [0xff; 0]) 2 TLM_INCOMPLETE_RESPONSE false
    None None None.

Lemma mem_b_transport_served_witness :
  exists t' m', mem_b_transport ex_host (ex_mem_config false) ex_mem_txn 5 ex_memory = Ret (t', 15, m') /\
    response t' = TLM_OK_RESPONSE /\ mem_peek m' 14 = Some 1 /\ mem_peek m' 16 = Some 3.
Proof.
  destruct (mem_b_transport_served ex_host (ex_mem_config false) ex_mem_txn 5 14 ex_memory)
    as (t' & m' & Hr & _ & Hok & _ & _ & _ & Hw).
  - apply ex_host_memory.
  - apply ex_memory_wf.
  - unfold serves, txn_ok, pointers_ok, in_width. simpl. repeat split; lia.
  - by right.
  - exists t', m'. split; [exact Hr|]. split; [exact Hok|]. destruct (Hw eq_refl) as [He _].
    split; [apply (He 0); [simpl; lia|reflexivity]|apply (He 2); [simpl; lia|reflexivity]].
Defined.

Lemma mem_b_transport_refused_witness :
  mem_b_transport ex_host (ex_mem_config true) ex_mem_txn 5 ex_memory
    = Ret (set_response_status TLM_COMMAND_ERROR_RESPONSE ex_mem_txn, 5, ex_memory).
Proof.
  apply (mem_b_transport_refused ex_host (ex_mem_config true) ex_mem_txn 5 ex_memory) with 14;
    simpl; (reflexivity || lia).
Defined.

Lemma mem_dmi_sound_witness :
  exists d' m', mem_get_direct_mem_ptr ex_host (ex_mem_config false) ex_mem_txn dmi_init ex_memory
      = Ret (true, ex_mem_txn, d', m') /\ dmi_covers d' 0x100e.
Proof.
  destruct (mem_dmi_sound ex_host (ex_mem_config false) ex_mem_txn dmi_init ex_memory 14 [])
    as (d' & m' & Hr & _ & Hc & _).
  - apply ex_host_memory.
  - apply ex_memory_wf.
  - reflexivity.
  - unfold in_width. simpl. lia.
  - simpl. lia.
  - reflexivity.
  - reflexivity.
  - simpl. lia.
  - constructor.
  - exists d', m'. split; [exact Hr|exact Hc].
Defined.

Definition ex_quarter : SubBlock := Block 16 32 (Some (0, replicate 16 7)) None None None None false.

Lemma doreset_skips_upper_half_witness :
  let b := Block 64 0 None None None (Some ex_quarter) None true in
  let cfg := mk_mem_config false true 10 false 16 4 false true 0 in
  peek (doreset cfg b) 32 = peek b 32 /\ peek b 32 = Some 7.
Proof. split; [apply doreset_skips_upper_half; vm_compute; congruence|reflexivity]. Defined.

Lemma mem_range_check_wraps_witness :
  mem_b_transport ex_host (ex_mem_config false) (plain_txn TLM_READ_COMMAND (2 ^ 64 - 1) [0; 0]) 0
    (set_block (Block 16 0 (Some (0, replicate 16 7)) None None None None false) (elaborate 0 16 true))
    = Err StopUndef.
Proof.
  apply (mem_range_check_wraps ex_host (ex_mem_config false) _ 0 _ 0 (replicate 16 7)); try reflexivity;
    repeat split; vm_compute; congruence.
Defined.
