(* ===== verification/Addrtr.v ===== *)
(** * The address translator

    [addrtr.h]: a window of target addresses that is forwarded at another base
    address. DMI regions and invalidations come back through the same window. *)

From stdpp Require Import base list numbers option strings.
From S2P Require Import Prelude Tlm Cci.

(** The module: the window it is mapped at and the base address it maps to. *)
Record addrtr : Type := mk_addrtr {
  m_base_addr : Z;
  m_mapping_size : Z;
  p_mapped_base_addr : Z;
}.

(** The constructor, which reads the window from the configuration. *)
Definition new_addrtr {B} `{CciBroker B} (broker : B) (name : string) (mapped : Z) : res addrtr :=
  let? base := cci_get (try_u64 (preset broker (name ++ ".target_socket.address")%string)) in
  let? size := cci_get (try_u64 (preset broker (name ++ ".target_socket.size")%string)) in
  Ret (mk_addrtr base size mapped).

(** [range_end]: the last address of a range that does not wrap. *)
Definition range_end (start size : Z) : option Z :=
  if (size =? 0) || (UINT64_MAX - (size - 1) <? start) then None
  else Some (u64 (start + size - 1)).

Section Translator.
Context (x : addrtr).

(** [map_window]: the part of a range of mapped addresses that is in the window, in
    target addresses, and the host pointer moved along when there is one. *)
Definition map_window (start_addr end_addr dmi_ptr : Z) : option (Z * Z * Z) :=
  let mapped_start := p_mapped_base_addr x in
  let target_start := m_base_addr x in
  match range_end mapped_start (m_mapping_size x), range_end target_start (m_mapping_size x) with
  | Some mapped_end, Some target_end =>
      if (end_addr <? start_addr) || (end_addr <? mapped_start) || (mapped_end <? start_addr) then None
      else
        let clipped_start := Z.max start_addr mapped_start in
        let clipped_end := Z.min end_addr mapped_end in
        Some (u64 (target_start + (clipped_start - mapped_start)),
              u64 (target_start + (clipped_end - mapped_start)),
              if dmi_ptr =? 0 then 0 else dmi_ptr + (clipped_start - start_addr))
  | _, _ => None
  end.

Definition addr_fw (addr : Z) : Z := u64 (p_mapped_base_addr x + u64 (addr - m_base_addr x)).

Definition addr_bw (addr : Z) : Z := u64 (m_base_addr x + u64 (addr - p_mapped_base_addr x)).

(** [map_txn_addr]: the mapped address, with which the payload is left. *)
Definition map_txn_addr (t : payload) : res (Z * payload) :=
  let addr := address t in
  let len := data_length t in
  let txn_end := if len =? 0 then Some addr else range_end addr len in
  match range_end (m_base_addr x) (m_mapping_size x),
        range_end (p_mapped_base_addr x) (m_mapping_size x), txn_end with
  | Some target_end, Some _, Some txn_end =>
      if (m_base_addr x <=? addr) && (txn_end <=? target_end) then
        let mapped_addr := addr_fw addr in Ret (mapped_addr, set_address mapped_addr t)
      else Err StopFatal
  | _, _, _ => Err StopFatal
  end.

(** The module bound to the initiator socket. *)
Context {W : Type}.
Context (back : payload -> W -> res (payload * W)).
Context (back_dbg : payload -> W -> res (Z * payload * W)).
Context (back_dmi : payload -> tlm_dmi -> W -> res (bool * payload * tlm_dmi * W)).

Definition tr_b_transport (t : payload) (w : W) : res (payload * W) :=
  let? m := map_txn_addr t in
  let? y := back m.2 w in
  Ret (set_address (address t) y.1, y.2).

Definition tr_transport_dbg (t : payload) (w : W) : res (Z * payload * W) :=
  let? m := map_txn_addr t in
  let? y := back_dbg m.2 w in
  let '(n, t', w') := y in
  Ret (n, set_address (address t) t', w').

Definition tr_get_direct_mem_ptr (t : payload) (d : tlm_dmi) (w : W) : res (bool * payload * tlm_dmi * W) :=
  let? m := map_txn_addr t in
  let? y := back_dmi m.2 d w in
  let '(ret, t', d', w') := y in
  let t' := set_address (address t) t' in
  if (ret : bool) then
    if (m.1 <? dmi_start d') || (dmi_end d' <? m.1) then Ret (false, t', d', w')
    else match map_window (dmi_start d') (dmi_end d') (dmi_ptr d') with
         | None => Ret (false, t', d', w')
         | Some (s, e, p) => Ret (true, t', mk_dmi p s e (dmi_acc d'), w')
         end
  else Ret (false, t', d', w').

(** The range that is invalidated at the target socket, if any. *)
Definition tr_invalidate (start fin : Z) : option (Z * Z) :=
  match map_window start fin 0 with
  | Some (s, e, _) => Some (s, e)
  | None => None
  end.

(** ** Lemmas *)

(** Neither the window nor its image wraps. *)
Definition window_ok : Prop :=
  0 <= m_base_addr x /\ 0 <= p_mapped_base_addr x /\ 0 < m_mapping_size x /\
  m_base_addr x + m_mapping_size x <= 2 ^ 64 /\ p_mapped_base_addr x + m_mapping_size x <= 2 ^ 64.

Definition in_window (a : Z) : Prop := m_base_addr x <= a < m_base_addr x + m_mapping_size x.

Lemma range_end_ok start size :
  0 <= start -> 0 < size -> start + size <= 2 ^ 64 -> range_end start size = Some (start + size - 1).
Proof.
  intros. unfold range_end, UINT64_MAX. destruct (Z.eqb_spec size 0); [lia|].
  destruct (Z.ltb_spec (2 ^ 64 - 1 - (size - 1)) start); [lia|]. simpl. by rewrite u64_small by lia.
Qed.

Lemma addr_fw_in_window a : window_ok -> in_window a -> addr_fw a = p_mapped_base_addr x + (a - m_base_addr x).
Proof. unfold window_ok, in_window, addr_fw. intros. by rewrite !u64_small by (rewrite ?u64_small; lia). Qed.

Lemma map_txn_addr_ok t :
  window_ok -> 0 <= data_length t -> in_window (address t) ->
  address t + data_length t <= m_base_addr x + m_mapping_size x ->
  map_txn_addr t = Ret (addr_fw (address t), set_address (addr_fw (address t)) t).
Proof.
  intros Hok Hl Hin Hend. unfold map_txn_addr. pose proof Hok as (? & ? & ? & ? & ?). unfold in_window in Hin.
  rewrite !range_end_ok by lia.
  assert (exists e, (if data_length t =? 0 then Some (address t) else range_end (address t) (data_length t)) = Some e /\
    e <= m_base_addr x + m_mapping_size x - 1) as (e & -> & He).
  { destruct (Z.eqb_spec (data_length t) 0); [exists (address t); split; [done|lia]|].
    exists (address t + data_length t - 1). split; [apply range_end_ok; lia|lia]. }
  destruct (Z.leb_spec (m_base_addr x) (address t)); [|lia].
  destruct (Z.leb_spec e (m_base_addr x + m_mapping_size x - 1)); [done|lia].
Qed.

Lemma map_window_spec s e p :
  window_ok -> 0 <= s -> e < 2 ^ 64 ->
  match map_window s e p with
  | Some (s', e', p') =>
      s <= e /\ (forall a, s' <= a <= e' <-> in_window a /\ s <= addr_fw a <= e) /\
      m_base_addr x <= s' /\ s' <= e' /\ (p <> 0 -> p' = p + (addr_fw s' - s))
  | None => forall a, in_window a -> ~ s <= addr_fw a <= e
  end.
Proof.
  intros Hok Hs He. pose proof Hok as (? & ? & ? & ? & ?). unfold map_window.
  rewrite !range_end_ok by lia.
  assert (forall a, in_window a -> addr_fw a = p_mapped_base_addr x + (a - m_base_addr x)) as Hfw
    by auto using addr_fw_in_window.
  unfold in_window in *.
  destruct (Z.ltb_spec e s), (Z.ltb_spec e (p_mapped_base_addr x)),
    (Z.ltb_spec (p_mapped_base_addr x + m_mapping_size x - 1) s); simpl;
    try (intros a Ha; rewrite Hfw by lia; lia).
  rewrite !u64_small by lia. split_and!; [lia| |lia|lia|].
  - intros a. split; [intros; split; [|rewrite Hfw]; lia|]. intros [Ha Hr]. rewrite Hfw in Hr by lia. lia.
  - intros Hp. destruct (Z.eqb_spec p 0); [done|]. rewrite Hfw by lia. lia.
Qed.

End Translator.

(** ** Properties *)

(** A transaction that lies in the window reaches the bound module at the same
    distance from the mapped base, and comes back with its own address; one that does not
    lie in it is a fatal error and reaches nothing. *)
Theorem addrtr_b_transport_maps (W : Type) (back : payload -> W -> res (payload * W)) x t w :
  window_ok x -> txn_ok t ->
  (in_window x (address t) /\ address t + data_length t <= m_base_addr x + m_mapping_size x ->
     tr_b_transport x back t w =
       let? y := back (set_address (p_mapped_base_addr x + (address t - m_base_addr x)) t) w in
       Ret (set_address (address t) y.1, y.2)) /\
  (0 < data_length t ->
     ~ (in_window x (address t) /\ address t + data_length t <= m_base_addr x + m_mapping_size x) ->
     tr_b_transport x back t w = Err StopFatal).
Proof.
  intros Hok [Ha Hl]. pose proof Hok as (? & ? & ? & ? & ?). unfold in_width in *. split.
  - intros [Hin Hend]. unfold tr_b_transport. rewrite map_txn_addr_ok by (try done; lia).
    by rewrite addr_fw_in_window.
  - intros Hpos Hout. unfold tr_b_transport, map_txn_addr. rewrite !range_end_ok by lia.
    destruct (Z.eqb_spec (data_length t) 0); [lia|].
    destruct (decide (address t + data_length t <= 2 ^ 64)).
    + rewrite range_end_ok by lia. unfold in_window in Hout.
      destruct (Z.leb_spec (m_base_addr x) (address t)); [|done].
      by destruct (Z.leb_spec (address t + data_length t - 1) (m_base_addr x + m_mapping_size x - 1)); [lia|].
    + unfold range_end, UINT64_MAX. rewrite (proj2 (Z.eqb_neq _ 0)) by lia.
      by rewrite (proj2 (Z.ltb_lt _ _)) by lia.
Qed.

(** A DMI region granted through the window contains the address asked for and only
    addresses of the window; each of them is at the host address that the bound module
    granted for its translation, with the same access rights. *)
Theorem addrtr_dmi_maps (W : Type) (back_dmi : payload -> tlm_dmi -> W -> res (bool * payload * tlm_dmi * W))
    x t d w t1 d1 w1 t' d' w' :
  window_ok x -> txn_ok t ->
  back_dmi (set_address (addr_fw x (address t)) t) d w = Ret (true, t1, d1, w1) ->
  0 <= dmi_start d1 -> dmi_end d1 < 2 ^ 64 -> dmi_ptr d1 <> 0 ->
  tr_get_direct_mem_ptr x back_dmi t d w = Ret (true, t', d', w') ->
  dmi_covers d' (address t) /\ address t' = address t /\ dmi_acc d' = dmi_acc d1 /\
  forall a, dmi_covers d' a ->
    in_window x a /\ dmi_covers d1 (addr_fw x a) /\ dmi_host d' a = dmi_host d1 (addr_fw x a).
Proof.
  intros Hok [Ha Hl] Hb Hs He Hp Hg. unfold tr_get_direct_mem_ptr in Hg.
  apply rbind_Ret in Hg as ([ma tm] & Hm & Hg).
  assert (ma = addr_fw x (address t) /\ tm = set_address ma t /\ in_window x (address t)) as (-> & -> & Hin).
  { pose proof Hok as (? & ? & ? & ? & ?). unfold map_txn_addr in Hm. rewrite !range_end_ok in Hm by lia.
    destruct (if data_length t =? 0 then _ else _) as [e|] eqn:Ee; [|done].
    destruct (Z.leb_spec (m_base_addr x) (address t)); [|done].
    destruct (Z.leb_spec e (m_base_addr x + m_mapping_size x - 1)); [|done]. simplify_eq/=. split_and!; try done.
    unfold in_window, in_width in *. split; [done|]. destruct (Z.eqb_spec (data_length t) 0); simplify_eq; [lia|].
    unfold range_end, UINT64_MAX in Ee. destruct (Z.eqb_spec (data_length t) 0); [done|].
    destruct (Z.ltb_spec (2 ^ 64 - 1 - (data_length t - 1)) (address t)); [done|]. simpl in Ee. simplify_eq.
    rewrite u64_small in * by lia. lia. }
  cbn [fst snd] in Hg. rewrite Hb in Hg. cbn [rbind] in Hg.
  destruct (Z.ltb_spec (addr_fw x (address t)) (dmi_start d1)); [done|].
  destruct (Z.ltb_spec (dmi_end d1) (addr_fw x (address t))); [done|]. cbn [orb] in Hg.
  pose proof (map_window_spec x (dmi_start d1) (dmi_end d1) (dmi_ptr d1) Hok Hs He) as Hw.
  destruct (map_window x _ _ _) as [[[s e] p]|]; [|done]. destruct Hw as (Hse & Hcov & Hbs & Hle & Hptr).
  injection Hg as <- <- <-. unfold dmi_covers, dmi_host in *. cbn in *. split_and!; try done.
  - apply Hcov. split; [done|lia].
  - apply Hcov. split; [done|lia].
  - intros a Hca. pose proof (proj1 (Hcov a) Hca) as [Hina Hfa]. rewrite Hptr by done.
    assert (in_window x s) as Hins by (apply (Hcov s); lia).
    rewrite !addr_fw_in_window in * by done. split_and!; try done; lia.
Qed.

(** An invalidation that arrives from the bound module is passed on for exactly the
    addresses of the window whose translations it covers, and not at all when there are
    none. *)
Theorem addrtr_invalidate_exact x start fin :
  window_ok x -> 0 <= start -> fin < 2 ^ 64 ->
  (forall s e, tr_invalidate x start fin = Some (s, e) ->
     s <= e /\ forall a, s <= a <= e <-> in_window x a /\ start <= addr_fw x a <= fin) /\
  (tr_invalidate x start fin = None -> forall a, in_window x a -> ~ start <= addr_fw x a <= fin).
Proof.
  intros Hok Hs He. pose proof (map_window_spec x start fin 0 Hok Hs He) as Hw. unfold tr_invalidate.
  destruct (map_window x start fin 0) as [[[s e] p]|]; split; try done.
  intros s' e' [= <- <-]. destruct Hw as (? & ? & ? & ? & _). by split.
Qed.

(** Translating forwards and back is the identity on every 64-bit address, also where
    the arithmetic wraps. *)
Theorem addr_fw_bw x a :
  in_width 64 a -> addr_bw x (addr_fw x a) = a /\ addr_fw x (addr_bw x a) = a.
Proof.
  intros Ha. unfold in_width in Ha.
  assert (forall b c, u64 (c + u64 (u64 (b + u64 (a - c)) - b)) = a) as Hid.
  { intros b c. unfold wrap. rewrite <- (Zminus_mod_idemp_l (_ mod _)), Z.mod_mod, Zminus_mod_idemp_l by lia.
    replace (b + (a - c) mod 2 ^ 64 - b) with ((a - c) mod 2 ^ 64) by lia. rewrite Z.mod_mod by lia.
    rewrite Zplus_mod_idemp_r. replace (c + (a - c)) with a by lia. by apply Z.mod_small. }
  split; apply Hid.
Qed.

(** ** Examples *)

Definition ex_tr : addrtr := mk_addrtr 0x1000 0x100 0x80000.

Definition ex_tr_back (t : payload) (w : list Z) : res (payload * list Z) :=
  Ret (set_response_status TLM_OK_RESPONSE t, address t :: w).

Definition ex_tr_dmi (t : payload) (d : tlm_dmi) (w : unit) : res (bool * payload * tlm_dmi * unit) :=
  Ret (true, t, mk_dmi 0x5000 0x7ff00 0x8007f DMI_ACCESS_READ, w).

Definition ex_tr_txn : payload := plain_txn TLM_READ_COMMAND 0x1010 [0; 0; 0; 0].

Lemma addrtr_b_transport_maps_witness :
  tr_b_transport ex_tr ex_tr_back ex_tr_txn [] = Ret (set_response_status TLM_OK_RESPONSE ex_tr_txn, [0x80010]).
Proof.
  destruct (addrtr_b_transport_maps (list Z) ex_tr_back ex_tr ex_tr_txn []) as [H _].
  - unfold window_ok. simpl. lia.
  - unfold txn_ok, in_width. simpl. lia.
  - rewrite H; [reflexivity|]. unfold in_window. simpl. lia.
Defined.

Lemma addrtr_dmi_maps_witness :
  let d' := mk_dmi 0x5100 0x1000 0x107f DMI_ACCESS_READ in
  tr_get_direct_mem_ptr ex_tr ex_tr_dmi ex_tr_txn dmi_init tt = Ret (true, ex_tr_txn, d', tt) /\
  dmi_covers d' 0x1010.
Proof.
  split; [reflexivity|].
  destruct (addrtr_dmi_maps unit ex_tr_dmi ex_tr ex_tr_txn dmi_init tt
    (set_address 0x80010 ex_tr_txn) (mk_dmi 0x5000 0x7ff00 0x8007f DMI_ACCESS_READ) tt ex_tr_txn
    (mk_dmi 0x5100 0x1000 0x107f DMI_ACCESS_READ) tt) as [H _];
    [unfold window_ok; simpl; lia|unfold txn_ok, in_width; simpl; lia|reflexivity|simpl; lia..|reflexivity|exact H].
Defined.

Lemma addrtr_invalidate_exact_witness :
  tr_invalidate ex_tr 0x7f000 0x8000f = Some (0x1000, 0x100f) /\
  forall a, 0x1000 <= a <= 0x100f <-> in_window ex_tr a /\ 0x7f000 <= addr_fw ex_tr a <= 0x8000f.
Proof.
  split; [reflexivity|]. apply (addrtr_invalidate_exact ex_tr 0x7f000 0x8000f); try lia; try reflexivity.
  unfold window_ok. simpl. lia.
Defined.

Lemma addr_fw_bw_witness : addr_bw ex_tr (addr_fw ex_tr 0) = 0.
Proof. apply (addr_fw_bw ex_tr 0). unfold in_width. lia. Defined.
