(* ===== verification/DmiConverter.v ===== *)
(** * The DMI converter

    [dmi_converter.h]: transactions are served from a cache of DMI regions, one
    region after the other, and forwarded when DMI is refused. *)

From stdpp Require Import base list numbers option sets.
From S2P Require Import Prelude OrdMap Tlm.

(** [m_dmi_cache]. *)
Abbreviation dmi_cache := (omap tlm_dmi).

Definition is_dmi_access_type_granted (d : tlm_dmi) (cmd : tlm_command) : bool :=
  match cmd with
  | TLM_WRITE_COMMAND => is_write_allowed d
  | TLM_READ_COMMAND => is_read_allowed d
  | TLM_IGNORE_COMMAND => false
  end.

Definition in_cache (address : Z) (c : dmi_cache) : option tlm_dmi :=
  match list.last (om_upper address c).1 with
  | Some (_, d) => if (dmi_start d <=? address) && (address <=? dmi_end d) then Some d else None
  | None => None
  end.

(** The loop of [cache_clean] from the iterator on. *)
Fixpoint clean_walk (start fin : Z) (r : dmi_cache) : dmi_cache :=
  match r with
  | [] => []
  | (k, d) :: r' =>
      if fin <? dmi_start d then r
      else if dmi_end d <? start then (k, d) :: clean_walk start fin r'
      else clean_walk start fin r'
  end.

Definition cache_clean (start fin : Z) (c : dmi_cache) : dmi_cache :=
  let '(l, r) := om_prev (om_upper start c) in l ++ clean_walk start fin r.

(** [std::rotate (b, b + n, b + k)]. *)
Definition rotate (n k : nat) (b : list Z) : list Z :=
  take (k - n) (drop n (take k b)) ++ take n b ++ drop k b.

(** [update_byte_enable]: the copied byte enables and the remaining length.  When
    there are as many enables as bytes the advanced pointer is the caller's local
    variable, which nothing reads again. *)
Definition update_byte_enable (t : payload) (byt : option (list Z)) (bel_remaining iter_len : Z)
    : option (list Z) * Z :=
  match byt with
  | None => (None, bel_remaining)
  | Some b =>
      let bel := byte_enable_length t in
      if data_length t <=? bel then (Some b, u32 (bel - iter_len))
      else if iter_len mod bel =? 0 then (Some b, bel_remaining)
      else (Some (rotate (Z.to_nat (iter_len mod bel)) (Z.to_nat bel) b), bel)
  end.

Section Converter.

(** The rest of the platform: host memory, and the module bound to the initiator
    socket. *)
Context {W : Type}.
Context (hread : W -> Z -> Z) (hwrite : W -> Z -> Z -> W).
Context (back : payload -> W -> res (payload * W)).
Context (back_dmi : payload -> tlm_dmi -> W -> res (bool * payload * tlm_dmi * W)).

(** [byt[i % bel] == TLM_BYTE_ENABLED], true without byte enables. *)
Definition conv_enabled (byt : option (list Z)) (bel i : Z) : res bool :=
  match byt with
  | None => Ret true
  | Some b =>
      match b !! Z.to_nat (i mod bel) with
      | Some e => Ret (e =? 0xff)
      | None => Err StopUndef
      end
  end.

(** The copy loops: [n] bytes from index [i] on, the data pointer being at [pos] of the
    transaction's data and host memory at [p]. *)
Fixpoint copy_to_host (n : nat) (i : Z) (byt : option (list Z)) (bel : Z) (d : list Z) (pos p : Z) (w : W)
    : res W :=
  match n with
  | O => Ret w
  | S n' =>
      let? en := conv_enabled byt bel i in
      if (en : bool) then
        match d !! Z.to_nat (pos + i) with
        | Some v => copy_to_host n' (i + 1) byt bel d pos p (hwrite w (p + i) v)
        | None => Err StopUndef
        end
      else copy_to_host n' (i + 1) byt bel d pos p w
  end.

Fixpoint copy_from_host (n : nat) (i : Z) (byt : option (list Z)) (bel : Z) (d : list Z) (pos p : Z) (w : W)
    : res (list Z) :=
  match n with
  | O => Ret d
  | S n' =>
      let? en := conv_enabled byt bel i in
      if (en : bool) then
        if pos + i <? Z.of_nat (length d)
        then copy_from_host n' (i + 1) byt bel (<[Z.to_nat (pos + i) := hread w (p + i)]> d) pos p w
        else Err StopUndef
      else copy_from_host n' (i + 1) byt bel d pos p w
  end.

(** The local variables of [b_transport]: [pos] is how far the data pointer has
    moved. *)
Record conv_state : Type := mk_conv {
  cv_addr : Z;
  cv_pos : Z;
  cv_remaining : Z;
  cv_byt : option (list Z);
  cv_bel_remaining : Z;
  cv_used : bool;
  cv_txn : payload;
  cv_cache : dmi_cache;
  cv_w : W;
}.

(** The rest of the transaction, as it is forwarded once the cache has been used. *)
Definition rest_txn (s : conv_state) : payload :=
  let t := cv_txn s in
  mk_payload (command t) (cv_addr s) (drop (Z.to_nat (cv_pos s)) (data t)) (cv_remaining s)
    (streaming_width t) (cv_byt s) (cv_bel_remaining s) (response t) (dmi_allowed t)
    (ext_path t) (ext_excl t) (ext_udmi t).

(** One turn of the loop when the address is in the cache. *)
Definition cached_step (d : tlm_dmi) (s : conv_state) : res conv_state :=
  let t := cv_txn s in
  let block_len := u64 (dmi_end d - cv_addr s + 1) in
  let iter_len := if block_len <? cv_remaining s then block_len else cv_remaining s in
  let p := dmi_host d (cv_addr s) in
  let bel := byte_enable_length t in
  let? tw :=
    match command t with
    | TLM_WRITE_COMMAND =>
        let? w := copy_to_host (Z.to_nat iter_len) 0 (cv_byt s) bel (data t) (cv_pos s) p (cv_w s) in Ret (t, w)
    | _ =>
        let? l := copy_from_host (Z.to_nat iter_len) 0 (cv_byt s) bel (data t) (cv_pos s) p (cv_w s) in
        Ret (set_data l t, cv_w s)
    end in
  let '(byt, rem_bel) := update_byte_enable t (cv_byt s) (cv_bel_remaining s) iter_len in
  let remaining := cv_remaining s - iter_len in
  let t := if remaining =? 0
           then set_response_status TLM_OK_RESPONSE (set_dmi_allowed true tw.1) else tw.1 in
  Ret (mk_conv (u64 (cv_addr s + iter_len)) (cv_pos s + iter_len) remaining byt rem_bel true t
         (cv_cache s) tw.2).

(** One turn when it is not: the region DMI was granted for is cached, or the rest of
    the transaction is forwarded and the loop ends ([true]). *)
Definition miss_step (s : conv_state) : res (bool * conv_state) :=
  let t := cv_txn s in
  let u := if cv_used s then rest_txn s else t in
  let? y := back_dmi u dmi_init (cv_w s) in
  let '(ok, u, d, w) := y in
  let t := if cv_used s then t else u in
  if ok && is_dmi_access_type_granted d (command (cv_txn s)) then
    Ret (false, mk_conv (cv_addr s) (cv_pos s) (cv_remaining s) (cv_byt s) (cv_bel_remaining s) (cv_used s) t
                  (om_insert (dmi_start d) d (cv_cache s)) w)
  else
    let? z := back u w in
    let '(u, w) := z in
    let t := if cv_used s
             then set_response_status (response u)
                    (set_dmi_allowed false (set_data (splice (Z.to_nat (cv_pos s)) (data u) (data t)) t))
             else set_dmi_allowed false u in
    Ret (true, mk_conv (cv_addr s) (cv_pos s) (cv_remaining s) (cv_byt s) (cv_bel_remaining s) (cv_used s) t
                 (cv_cache s) w).

(** [while (remaining_len)]; [None] when the loop has not ended after [fuel] turns. *)
Fixpoint conv_loop (fuel : nat) (s : conv_state) : res (option conv_state) :=
  if cv_remaining s =? 0 then Ret (Some s)
  else match fuel with
       | O => Ret None
       | S fuel' =>
           match in_cache (cv_addr s) (cv_cache s) with
           | Some d =>
               if is_dmi_access_type_granted d (command (cv_txn s)) then
                 let? s := cached_step d s in conv_loop fuel' s
               else
                 let? x := miss_step s in if x.1 : bool then Ret (Some x.2) else conv_loop fuel' x.2
           | None =>
               let? x := miss_step s in if x.1 : bool then Ret (Some x.2) else conv_loop fuel' x.2
           end
       end.

(** [b_transport]. *)
Definition conv_b_transport (fuel : nat) (t : payload) (c : dmi_cache) (w : W)
    : res (option (payload * dmi_cache * W)) :=
  let? _ :=
    match byt t with
    | Some _ => if byte_enable_length t <=? 0 then Err StopFatal else Ret tt
    | None => Ret tt
    end in
  let? o := conv_loop fuel (mk_conv (address t) 0 (data_length t)
              (match byt t with Some b => Some (take (Z.to_nat (byte_enable_length t)) b) | None => None end)
              (byte_enable_length t) false t c w) in
  Ret (match o with Some s => Some (cv_txn s, cv_cache s, cv_w s) | None => None end).

(** [get_direct_mem_ptr]. *)
Definition conv_get_direct_mem_ptr (t : payload) (d : tlm_dmi) (c : dmi_cache) (w : W)
    : res (bool * payload * tlm_dmi * dmi_cache * W) :=
  match in_cache (address t) c with
  | Some d => Ret (negb (is_none_allowed d), t, d, c, w)
  | None =>
      let? y := back_dmi t d w in
      let '(ok, t, d, w) := y in
      Ret (ok, t, d, if (ok : bool) then om_insert (dmi_start d) d c else c, w)
  end.

(** [invalidate_direct_mem_ptr]: the cache, and the range each of the [n] target sockets
    is told to invalidate. *)
Definition conv_invalidate (n : nat) (start fin : Z) (c : dmi_cache) : dmi_cache * list (nat * Z * Z) :=
  (cache_clean start fin c, map (fun i => (i, start, fin)) (seq 0 n)).

End Converter.

(** ** The cache *)

(** Regions are kept under their start address and do not meet. *)
Record cache_ok (granted : tlm_dmi -> Prop) (c : dmi_cache) : Prop := {
  cache_wf : om_wf c;
  cache_key : forall k d, (k, d) ∈ c -> k = dmi_start d;
  cache_granted : forall k d, (k, d) ∈ c -> granted d;
}.

(** The regions that may be granted are those of a partition of some addresses; none
    reaches the last 64-bit address. *)
Record grants_ok (granted : tlm_dmi -> Prop) : Prop := {
  grant_range : forall d, granted d -> 0 <= dmi_start d <= dmi_end d /\ dmi_end d < UINT64_MAX;
  grant_disjoint : forall d d' a, granted d -> granted d' -> dmi_covers d a -> dmi_covers d' a -> d = d';
}.

Lemma last_app_one {A} (l : list A) x : list.last (l ++ [x]) = Some x.
Proof. by rewrite last_snoc. Qed.

Lemma in_cache_sound granted a c d :
  cache_ok granted c -> in_cache a c = Some d -> granted d /\ dmi_covers d a.
Proof.
  intros Hc. unfold in_cache. pose proof (om_upper_spec a c (cache_wf _ _ Hc)) as Hu.
  destruct (om_upper a c) as [l r]. destruct Hu as (-> & _ & _). cbn [fst].
  destruct (list.last l) as [[k e]|] eqn:El; [|done]. apply last_Some in El as [l' ->].
  destruct (Z.leb_spec (dmi_start e) a), (Z.leb_spec a (dmi_end e)); try done. cbn. intros [= <-].
  split; [|unfold dmi_covers; lia]. apply (cache_granted _ _ Hc k). set_solver.
Qed.

Lemma in_cache_complete granted a c k d :
  grants_ok granted -> cache_ok granted c -> (k, d) ∈ c -> dmi_covers d a -> in_cache a c = Some d.
Proof.
  intros Hg Hc Hin Hcov. unfold in_cache. pose proof (om_upper_spec a c (cache_wf _ _ Hc)) as Hu.
  destruct (om_upper a c) as [l r]. destruct Hu as (-> & Hl & Hr). cbn [fst].
  pose proof (cache_key _ _ Hc _ _ Hin) as ->. unfold dmi_covers in Hcov.
  assert ((dmi_start d, d) ∈ l) as Hdl.
  { apply elem_of_app in Hin as [|Hin]; [done|]. rewrite Forall_forall in Hr. specialize (Hr _ Hin). simpl in Hr. lia. }
  destruct (list.last l) as [[k e]|] eqn:El; [|by apply last_None in El as ->; apply not_elem_of_nil in Hdl].
  apply last_Some in El as [l' ->].
  pose proof (cache_key _ _ Hc k e ltac:(set_solver)) as ->.
  assert (e = d) as ->.
  { apply elem_of_app in Hdl as [Hdl|Hdl%list_elem_of_singleton]; [|congruence].
    pose proof (cache_wf _ _ Hc) as Hwf. apply om_wf_app in Hwf as (Hwf & _ & _).
    apply om_wf_app in Hwf as (_ & _ & Hlt). rewrite Forall_forall in Hlt. specialize (Hlt _ Hdl).
    rewrite Forall_singleton in Hlt. simpl in Hlt.
    rewrite Forall_app, Forall_singleton in Hl. destruct Hl as [_ Hle]. simpl in Hle.
    assert (granted e) as Hge by (apply (cache_granted _ _ Hc (dmi_start e)); set_solver).
    assert (granted d) as Hgd by (apply (cache_granted _ _ Hc (dmi_start d)); set_solver).
    pose proof (grant_range _ Hg _ Hge). symmetry.
    apply (grant_disjoint _ Hg d e (dmi_start e)); try done; unfold dmi_covers; lia. }
  by rewrite (proj2 (Z.leb_le _ _)), (proj2 (Z.leb_le _ _)) by lia.
Qed.

Lemma cache_ok_insert granted d c :
  cache_ok granted c -> granted d -> cache_ok granted (om_insert (dmi_start d) d c).
Proof.
  intros [Hwf Hk Hg] Hd. split; [by apply om_wf_insert|..]; intros k e He; apply om_elem_insert in He; try done;
    destruct He as [[= -> ->]|[He _]]; eauto.
Qed.

Definition region_hit (start fin : Z) (d : tlm_dmi) : Prop := dmi_start d <= fin /\ start <= dmi_end d.

Lemma clean_walk_spec start fin r :
  om_wf r -> (forall k d, (k, d) ∈ r -> k = dmi_start d) ->
  forall k d, (k, d) ∈ clean_walk start fin r <-> (k, d) ∈ r /\ ~ region_hit start fin d.
Proof.
  unfold region_hit. induction r as [|[j e] r IH]; intros Hwf Hkey k d; simpl; [set_solver|].
  apply om_wf_cons in Hwf as [Hwf Hlt]. rewrite Forall_forall in Hlt.
  assert (forall k d, (k, d) ∈ r -> k = dmi_start d) as Hkey' by set_solver.
  assert (j = dmi_start e) by set_solver. specialize (IH Hwf Hkey' k d).
  destruct (Z.ltb_spec fin (dmi_start e)).
  - rewrite elem_of_cons. split; [|tauto]. intros [[= -> ->]|Hin]; split; try (by auto); [lia|].
    specialize (Hlt _ Hin). specialize (Hkey' _ _ Hin). simpl in Hlt. lia.
  - destruct (Z.ltb_spec (dmi_end e) start); rewrite !elem_of_cons, IH.
    + split; [intros [[= -> ->]|[]]; (split; [by auto|lia || tauto])|tauto].
    + split; [intros []; auto|]. intros [[[= -> ->]|Hin] Hh]; [lia|auto].
Qed.

(** The regions before the iterator cannot meet the range when regions are disjoint. *)
Lemma cache_clean_spec granted start fin c k d :
  grants_ok granted -> cache_ok granted c ->
  (k, d) ∈ cache_clean start fin c <-> (k, d) ∈ c /\ ~ region_hit start fin d.
Proof.
  intros Hg Hc. unfold cache_clean. pose proof (om_upper_spec start c (cache_wf _ _ Hc)) as Hu.
  destruct (om_upper start c) as [l r]. destruct Hu as (Hcc & Hl & _).
  pose proof (om_prev_spec l r) as Hp. destruct (om_prev (l, r)) as [l' r']. destruct Hp as [Happ Hp].
  rewrite <- Hcc in Happ. pose proof (cache_wf _ _ Hc) as Hwf. rewrite <- Happ in Hwf.
  apply om_wf_app in Hwf as (_ & Hwr & Hlr).
  assert (forall k d, (k, d) ∈ l' \/ (k, d) ∈ r' -> k = dmi_start d /\ granted d) as Hkey.
  { intros k' d' Hin. rewrite <- elem_of_app, Happ in Hin. split; [by apply (cache_key _ _ Hc)|by apply (cache_granted _ _ Hc k')]. }
  rewrite <- Happ, !elem_of_app, clean_walk_spec; [|done|intros; apply Hkey; by auto].
  split; [|tauto]. intros [Hin|[]]; [|tauto]. split; [by auto|]. unfold region_hit. intros [_ Hh].
  destruct Hp as [(-> & -> & _)|([j e] & -> & ->)]; [by apply not_elem_of_nil in Hin|].
  rewrite Forall_forall in Hlr. specialize (Hlr _ Hin). rewrite Forall_cons in Hlr. destruct Hlr as [Hlt _]. simpl in Hlt.
  rewrite Forall_app, Forall_singleton in Hl. destruct Hl as [_ Hle]. simpl in Hle.
  destruct (Hkey _ _ (or_introl Hin)) as [-> Hgd]. destruct (Hkey j e) as [-> Hge]; [right; set_solver|].
  pose proof (grant_range _ Hg _ Hge).
  assert (d = e) as ->; [|lia]. apply (grant_disjoint _ Hg d e (dmi_start e)); try done; unfold dmi_covers; lia.
Qed.

(** ** Transparency *)

(** The bytes [t] transfers, as a function of what they were: what a completed
    transaction leaves in its buffer and in the memory seen by the guest. *)
Definition window_update (a : Z) (d : list Z) (g : Z -> Z) (x : Z) : Z :=
  if (a <=? x) && (x <? a + Z.of_nat (length d)) then default 0 (d !! Z.to_nat (x - a)) else g x.

Definition completes (t : payload) (g : Z -> Z) (t' : payload) (g' : Z -> Z) : Prop :=
  response t' = TLM_OK_RESPONSE /\ length (data t') = length (data t) /\
  match command t with
  | TLM_WRITE_COMMAND => data t' = data t /\ forall x, g' x = window_update (address t) (data t) g x
  | _ => (forall i, (i < length (data t))%nat -> data t' !! i = Some (g (address t + Z.of_nat i))) /\
         forall x, g' x = g x
  end.

Lemma completes_ext t g1 g2 t' g' :
  (forall x, g1 x = g2 x) -> completes t g1 t' g' -> completes t g2 t' g'.
Proof.
  intros Hg (Hr & Hl & Hd). split_and!; [done..|].
  assert (forall a d x, window_update a d g1 x = window_update a d g2 x) as Hw
    by (intros a d x; unfold window_update; by destruct (_ && _)).
  destruct (command t); destruct Hd as [Hd1 Hd2]; split; intros; rewrite <- ?Hg, <- ?Hw; auto.
Qed.

(** A transaction without byte enables whose data pointer reaches its length. *)
Definition conv_txn (t : payload) : Prop :=
  byt t = None /\ command t <> TLM_IGNORE_COMMAND /\ Z.of_nat (length (data t)) = data_length t /\
  0 <= address t /\ address t + data_length t < 2 ^ 64.

Section Transparency.
Context {W : Type}.
Context (hread : W -> Z -> Z) (hwrite : W -> Z -> Z -> W).
Context (back : payload -> W -> res (payload * W)).
Context (back_dmi : payload -> tlm_dmi -> W -> res (bool * payload * tlm_dmi * W)).
(** The memory as the guest sees it, and the regions DMI may be granted for. *)
Context (guest : W -> Z -> Z) (granted : tlm_dmi -> Prop).

(** What the bound module promises: granted regions do not meet, their host memory is
    the guest's memory as far as they allow reading and writing it, DMI requests change nothing
    and answer with the region of the address, and a forwarded transaction returns, carried out if
    its response is OK. *)
Record platform : Prop := {
  pl_grants : grants_ok granted;
  pl_read : forall d a w, granted d -> is_dmi_access_type_granted d TLM_READ_COMMAND = true -> dmi_covers d a -> hread w (dmi_host d a) = guest w a;
  pl_write : forall d a w v x, granted d -> is_dmi_access_type_granted d TLM_WRITE_COMMAND = true -> dmi_covers d a ->
    guest (hwrite w (dmi_host d a) v) x = if x =? a then v else guest w x;
  pl_dmi : forall t d0 w, exists ok d w', back_dmi t d0 w = Ret (ok, t, d, w') /\
    (forall x, guest w' x = guest w x) /\ (ok = true -> granted d /\ dmi_covers d (address t));
  pl_back : forall t w, conv_txn t -> exists t' w', back t w = Ret (t', w') /\
    (response t' = TLM_OK_RESPONSE -> completes t (guest w) t' (guest w'));
}.

(** A transaction that was forwarded, the original one or the rest of it, came back with another
    response than OK, which [t'] carries. *)
Definition forward_failed (t' : payload) (w' : W) : Prop :=
  exists u w u', conv_txn u /\ back u w = Ret (u', w') /\ response u' <> TLM_OK_RESPONSE /\ response t' = response u'.

Definition served (t : payload) (w : W) (t' : payload) (w' : W) : Prop :=
  completes t (guest w) t' (guest w') \/ forward_failed t' w'.

Context (Hpl : platform).

Lemma copy_to_host_ok d A n i bel l pos w :
  granted d -> is_dmi_access_type_granted d TLM_WRITE_COMMAND = true -> dmi_start d <= A -> 0 <= i -> A + i + Z.of_nat n - 1 <= dmi_end d -> 0 <= pos ->
  pos + i + Z.of_nat n <= Z.of_nat (length l) ->
  exists w', copy_to_host hwrite n i None bel l pos (dmi_host d A) w = Ret w' /\
    forall x, guest w' x = if (A + i <=? x) && (x <? A + i + Z.of_nat n)
                           then default 0 (l !! Z.to_nat (pos + (x - A))) else guest w x.
Proof.
  intros Hd Hacc HA. revert i w. induction n as [|n IH]; intros i w Hi Hend Hpos Hlen; cbn [copy_to_host].
  { exists w. split; [done|]. intros x. destruct (Z.leb_spec (A + i) x), (Z.ltb_spec x (A + i + Z.of_nat 0)); done || lia. }
  cbn [conv_enabled rbind]. destruct (lookup_lt_is_Some_2 l (Z.to_nat (pos + i))) as [v Hv]; [lia|]. rewrite Hv.
  replace (dmi_host d A + i) with (dmi_host d (A + i)) by (unfold dmi_host; lia).
  destruct (IH (i + 1) (hwrite w (dmi_host d (A + i)) v)) as (w' & Hr & Hg); [lia..|].
  exists w'. split; [done|]. intros x. rewrite Hg, (pl_write Hpl) by (try done; unfold dmi_covers; lia).
  destruct (Z.eqb_spec x (A + i)) as [->|].
  - replace (A + i - A) with i by lia. rewrite Hv.
    destruct (Z.leb_spec (A + (i + 1)) (A + i)); [lia|]. simpl.
    destruct (Z.leb_spec (A + i) (A + i)), (Z.ltb_spec (A + i) (A + i + Z.of_nat (S n))); done || lia.
  - destruct (Z.leb_spec (A + (i + 1)) x), (Z.ltb_spec x (A + (i + 1) + Z.of_nat n)),
      (Z.leb_spec (A + i) x), (Z.ltb_spec x (A + i + Z.of_nat (S n))); done || lia.
Qed.

Lemma copy_from_host_ok d A n i bel l pos w :
  granted d -> is_dmi_access_type_granted d TLM_READ_COMMAND = true -> dmi_start d <= A -> 0 <= i -> A + i + Z.of_nat n - 1 <= dmi_end d -> 0 <= pos ->
  pos + i + Z.of_nat n <= Z.of_nat (length l) ->
  exists l', copy_from_host hread n i None bel l pos (dmi_host d A) w = Ret l' /\ length l' = length l /\
    forall k, l' !! k = if (pos + i <=? Z.of_nat k) && (Z.of_nat k <? pos + i + Z.of_nat n)
                        then Some (guest w (A + (Z.of_nat k - pos))) else l !! k.
Proof.
  intros Hd Hacc HA. revert i l. induction n as [|n IH]; intros i l Hi Hend Hpos Hlen; cbn [copy_from_host].
  { exists l. split_and!; try done. intros k.
    destruct (Z.leb_spec (pos + i) (Z.of_nat k)), (Z.ltb_spec (Z.of_nat k) (pos + i + Z.of_nat 0)); done || lia. }
  cbn [conv_enabled rbind]. destruct (Z.ltb_spec (pos + i) (Z.of_nat (length l))); [|lia].
  replace (dmi_host d A + i) with (dmi_host d (A + i)) by (unfold dmi_host; lia).
  rewrite (pl_read Hpl) by (try done; unfold dmi_covers; lia).
  destruct (IH (i + 1) (<[Z.to_nat (pos + i):=guest w (A + i)]> l)) as (l' & Hr & Hl' & Hg);
    [lia..|rewrite length_insert; lia|]. rewrite length_insert in Hl'.
  exists l'. split_and!; try done. intros k. rewrite Hg.
  destruct (decide (Z.of_nat k = pos + i)) as [e|].
  - replace (Z.to_nat (pos + i)) with k by lia. rewrite list_lookup_insert_eq by lia.
    destruct (Z.leb_spec (pos + (i + 1)) (Z.of_nat k)); [lia|]. simpl.
    destruct (Z.leb_spec (pos + i) (Z.of_nat k)), (Z.ltb_spec (Z.of_nat k) (pos + i + Z.of_nat (S n))); try lia.
    simpl. do 2 f_equal. lia.
  - rewrite list_lookup_insert_ne by lia.
    destruct (Z.leb_spec (pos + (i + 1)) (Z.of_nat k)), (Z.ltb_spec (Z.of_nat k) (pos + (i + 1) + Z.of_nat n)),
      (Z.leb_spec (pos + i) (Z.of_nat k)), (Z.ltb_spec (Z.of_nat k) (pos + i + Z.of_nat (S n))); done || lia.
Qed.

(** The loop has carried out the first [cv_pos] bytes of [t0]. *)
Record conv_inv (t0 : payload) (w0 : W) (s : conv_state (W := W)) : Prop := {
  iv_byt : cv_byt s = None;
  iv_cmd : command (cv_txn s) = command t0;
  iv_bytp : byt (cv_txn s) = None;
  iv_len : length (data (cv_txn s)) = length (data t0);
  iv_pos : 0 <= cv_pos s /\ 0 <= cv_remaining s /\ cv_pos s + cv_remaining s = data_length t0;
  iv_addr : cv_addr s = address t0 + cv_pos s;
  iv_cache : cache_ok granted (cv_cache s);
  iv_fresh : cv_used s = false -> cv_txn s = t0 /\ cv_pos s = 0;
  iv_data :
    match command t0 with
    | TLM_WRITE_COMMAND =>
        data (cv_txn s) = data t0 /\
        forall x, guest (cv_w s) x = window_update (address t0) (take (Z.to_nat (cv_pos s)) (data t0)) (guest w0) x
    | _ => (forall k, Z.of_nat k < cv_pos s ->
              data (cv_txn s) !! k = Some (guest w0 (address t0 + Z.of_nat k))) /\
           forall x, guest (cv_w s) x = guest w0 x
    end;
  iv_done : cv_remaining s = 0 -> 0 < data_length t0 -> response (cv_txn s) = TLM_OK_RESPONSE;
}.

Lemma window_update_extend t0 pos n w g :
  Z.of_nat (length (data t0)) = data_length t0 -> 0 <= pos -> 0 <= n -> pos + n <= data_length t0 ->
  (forall x, guest w x = if (address t0 + pos <=? x) && (x <? address t0 + pos + n)
                         then default 0 (data t0 !! Z.to_nat (pos + (x - (address t0 + pos))))
                         else window_update (address t0) (take (Z.to_nat pos) (data t0)) g x) ->
  forall x, guest w x = window_update (address t0) (take (Z.to_nat (pos + n)) (data t0)) g x.
Proof.
  intros Hl Hp Hn Hs Hg x. rewrite Hg. unfold window_update. rewrite !length_take.
  destruct (Z.leb_spec (address t0) x), (Z.leb_spec (address t0 + pos) x),
    (Z.ltb_spec x (address t0 + pos + n)), (Z.ltb_spec x (address t0 + Z.of_nat (Z.to_nat pos `min` length (data t0)))),
    (Z.ltb_spec x (address t0 + Z.of_nat (Z.to_nat (pos + n) `min` length (data t0)))); simpl; try done; try lia.
  - rewrite lookup_take_lt by lia. do 2 f_equal. lia.
  - rewrite !lookup_take_lt by lia. done.
Qed.

Lemma cached_step_inv t0 w0 s d :
  conv_txn t0 -> conv_inv t0 w0 s -> cv_remaining s <> 0 ->
  in_cache (cv_addr s) (cv_cache s) = Some d -> is_dmi_access_type_granted d (command t0) = true ->
  exists s', cached_step hread hwrite d s = Ret s' /\ conv_inv t0 w0 s' /\
    0 <= cv_remaining s' < cv_remaining s.
Proof.
  intros (Hb & Hi & Hl & Ha & Hend) [Ibyt Icmd Ibp Ilen Ipos Iaddr Ic Ifr Idata Idone] Hrem Hin Hacc.
  destruct (in_cache_sound _ _ _ _ Ic Hin) as [Hd Hcov]. unfold dmi_covers in Hcov.
  pose proof (grant_range _ (pl_grants Hpl) _ Hd) as [Hr He]. unfold UINT64_MAX in He. unfold cached_step.
  rewrite (u64_small (dmi_end d - cv_addr s + 1)) by lia.
  set (n := if dmi_end d - cv_addr s + 1 <? cv_remaining s then dmi_end d - cv_addr s + 1 else cv_remaining s).
  assert (0 < n <= cv_remaining s /\ cv_addr s + n - 1 <= dmi_end d) as [Hn Hn'].
  { subst n. destruct (Z.ltb_spec (dmi_end d - cv_addr s + 1) (cv_remaining s)); lia. }
  clearbody n. rewrite Ibyt, Icmd. cbn [update_byte_enable].
  assert (u64 (cv_addr s + n) = address t0 + (cv_pos s + n)) as Hu by (rewrite u64_small; lia).
  destruct (command t0) eqn:Ec; [| |done].
  - destruct (copy_from_host_ok d (cv_addr s) (Z.to_nat n) 0 (byte_enable_length (cv_txn s)) (data (cv_txn s))
      (cv_pos s) (cv_w s)) as (l' & -> & Hl' & Hg); try done; try lia.
    cbn [rbind fst snd]. eexists. split; [done|]. split; [|cbn; lia].
    destruct (Z.eqb_spec (cv_remaining s - n) 0); split; cbn; try done; try lia; try congruence;
      rewrite ?Ec; (split; [|apply Idata]); intros k Hk; rewrite Hg;
      (destruct (Z.leb_spec (cv_pos s + 0) (Z.of_nat k)); cbn [andb];
        [rewrite (proj2 (Z.ltb_lt _ _)) by lia; f_equal; rewrite (proj2 Idata), Iaddr; f_equal; lia|apply Idata; lia]).
  - destruct Idata as [Id Ig].
    destruct (copy_to_host_ok d (cv_addr s) (Z.to_nat n) 0 (byte_enable_length (cv_txn s)) (data (cv_txn s))
      (cv_pos s) (cv_w s)) as (w' & -> & Hg); try done; try lia.
    cbn [rbind fst snd]. eexists. split; [done|]. split; [|cbn; lia].
    assert (forall x, guest w' x = window_update (address t0) (take (Z.to_nat (cv_pos s + n)) (data t0)) (guest w0) x) as Hg'.
    { apply window_update_extend; try done; try lia. intros x. rewrite Hg, Id, Ig, Iaddr, Z.add_0_r.
      by rewrite Z2Nat.id by lia. }
    destruct (Z.eqb_spec (cv_remaining s - n) 0); split; cbn; try done; try lia; try congruence; by rewrite Ec.
Qed.

Lemma inv_completes t0 w0 s :
  conv_txn t0 -> 0 < data_length t0 -> conv_inv t0 w0 s -> cv_remaining s = 0 ->
  completes t0 (guest w0) (cv_txn s) (guest (cv_w s)).
Proof.
  intros (_ & _ & Hl & _) Hpos [Ibyt Icmd Ibp Ilen Ipos Iaddr Ic Ifr Idata Idone] Hrem.
  split_and!; [by apply Idone|done|]. destruct (command t0).
  - split; [|apply Idata]. intros i Hi. apply Idata. lia.
  - split; [apply Idata|]. intros x. rewrite (proj2 Idata). by rewrite take_ge by lia.
  - split; [|apply Idata]. intros i Hi. apply Idata. lia.
Qed.

(** What forwarding the rest of the transaction adds to what was done before. *)
Lemma rest_completes t0 w0 s u w :
  conv_txn t0 -> conv_inv t0 w0 s -> cv_remaining s <> 0 ->
  completes (rest_txn s) (guest (cv_w s)) u (guest w) ->
  completes t0 (guest w0)
    (set_response_status (response u)
      (set_dmi_allowed false (set_data (splice (Z.to_nat (cv_pos s)) (data u) (data (cv_txn s))) (cv_txn s))))
    (guest w).
Proof.
  intros (_ & Hi & Hl & Ha & Hend) [Ibyt Icmd Ibp Ilen Ipos Iaddr Ic Ifr Idata Idone] Hrem (Hr & Hlu & Hd).
  cbn [rest_txn data command address] in Hlu, Hd. rewrite length_drop in Hlu.
  assert (Z.to_nat (cv_pos s) + length (data u) <= length (data (cv_txn s)))%nat as Hfit by lia.
  split_and!; [done|cbn; by rewrite length_splice|]. rewrite Icmd in Hd. cbn [data set_data set_dmi_allowed set_response_status].
  destruct (command t0); [| |done].
  - destruct Hd as [Hd Hg]. destruct Idata as [Id Ig]. split; [|intros x; by rewrite Hg, Ig].
    intros i Hlt. rewrite lookup_splice by done. case_decide as Hw.
    + rewrite length_drop in Hd. rewrite Hd by lia. rewrite Ig, Iaddr. do 2 f_equal. lia.
    + apply Id. lia.
  - destruct Hd as [Hd Hg]. destruct Idata as [Id Ig]. split.
    + rewrite Hd, Id. unfold splice. rewrite length_drop. rewrite (drop_ge (data t0) (_ + _)) by lia. rewrite app_nil_r. apply take_drop.
    + intros x. rewrite Hg. unfold window_update. rewrite Ig. unfold window_update.
      rewrite Id, Iaddr, length_drop, length_take, lookup_drop.
      destruct (Z.leb_spec (address t0) x), (Z.leb_spec (address t0 + cv_pos s) x),
        (Z.ltb_spec x (address t0 + cv_pos s + Z.of_nat (length (data t0) - Z.to_nat (cv_pos s)))),
        (Z.ltb_spec x (address t0 + Z.of_nat (Z.to_nat (cv_pos s) `min` length (data t0)))),
        (Z.ltb_spec x (address t0 + Z.of_nat (length (data t0)))); simpl; try done; try lia.
      * do 2 f_equal. lia.
      * by rewrite lookup_take_lt by lia.
Qed.

Lemma rest_txn_ok t0 w0 s : conv_txn t0 -> conv_inv t0 w0 s -> conv_txn (rest_txn s).
Proof.
  intros (_ & Hi & Hl & Ha & Hend) [Ibyt Icmd Ibp Ilen Ipos Iaddr Ic Ifr Idata Idone].
  unfold conv_txn. cbn. rewrite Ibyt, Icmd, length_drop. split_and!; try done; lia.
Qed.

(** A turn that misses: either the region of the address is now cached and usable, or
    the transaction is complete. *)
Lemma miss_step_ok t0 w0 s :
  conv_txn t0 -> conv_inv t0 w0 s -> cv_remaining s <> 0 ->
  exists fin s', miss_step back back_dmi s = Ret (fin, s') /\ cache_ok granted (cv_cache s') /\
    if (fin : bool) then served t0 w0 (cv_txn s') (cv_w s')
    else conv_inv t0 w0 s' /\ cv_remaining s' = cv_remaining s /\
         exists d, in_cache (cv_addr s') (cv_cache s') = Some d /\
                   is_dmi_access_type_granted d (command (cv_txn s')) = true.
Proof.
  intros Ht Hinv Hrem. pose proof Hinv as [Ibyt Icmd Ibp Ilen Ipos Iaddr Ic Ifr Idata Idone]. unfold miss_step.
  set (u := if cv_used s then rest_txn s else cv_txn s).
  assert (address u = cv_addr s) as Hau.
  { subst u. destruct (cv_used s) eqn:Eu; [done|]. destruct (Ifr eq_refl) as [-> ?]. lia. }
  destruct (pl_dmi Hpl u dmi_init (cv_w s)) as (ok & d & w' & -> & Hg & Hok). cbn [rbind].
  replace (if cv_used s then cv_txn s else u) with (cv_txn s) by (subst u; by destruct (cv_used s)).
  destruct (ok && is_dmi_access_type_granted d (command (cv_txn s))) eqn:Eok.
  - apply andb_true_iff in Eok as [-> Hacc]. destruct (Hok eq_refl) as [Hd Hcov]. rewrite Hau in Hcov.
    eexists false, _. split; [done|]. cbn. assert (cache_ok granted (om_insert (dmi_start d) d (cv_cache s))) as Hc'
      by by apply cache_ok_insert. split_and!; try done.
    + split; cbn; try done. destruct (command t0); (split; [apply Idata|]); intros x; rewrite Hg; apply Idata.
    + exists d. split; [|done]. eapply in_cache_complete; [apply Hpl|done| |done].
      apply om_elem_insert; [apply Ic|]. by left.
  - subst u. destruct (cv_used s) eqn:Eu.
    + destruct (pl_back Hpl (rest_txn s) w') as (u & w2 & Eb & Hc); [by eapply rest_txn_ok|]. rewrite Eb. cbn [rbind].
      eexists true, _. split; [done|]. split; [done|]. cbn.
      destruct (decide (response u = TLM_OK_RESPONSE)) as [Er|Er]; [left|right; exists (rest_txn s), w', u; split_and!; try done; by eapply rest_txn_ok].
      eapply rest_completes; try done. eapply completes_ext; [done|by apply Hc].
    + destruct (Ifr eq_refl) as [Et Ep]. rewrite Et in *.
      destruct (pl_back Hpl t0 w') as (u & w2 & Eb & Hc); [done|]. rewrite Eb. cbn [rbind].
      eexists true, _. split; [done|]. split; [done|]. cbn.
      destruct (decide (response u = TLM_OK_RESPONSE)) as [Er|Er]; [left|right; by exists t0, w', u].
      assert (forall x, guest w' x = guest w0 x) as Hgw.
      { intros x. rewrite Hg. rewrite Ep in Idata. destruct (command t0); [apply Idata| |apply Idata].
        rewrite (proj2 Idata). unfold window_update. rewrite take_0. cbn [length].
        destruct (Z.leb_spec (address t0) x), (Z.ltb_spec x (address t0 + Z.of_nat 0)); done || lia. }
      by apply (completes_ext t0 (guest w') (guest w0) u), Hc.
Qed.

Lemma conv_loop_ok t0 w0 fuel s :
  conv_txn t0 -> 0 < data_length t0 -> conv_inv t0 w0 s ->
  2 * cv_remaining s + (match in_cache (cv_addr s) (cv_cache s) with
                        | Some d => if is_dmi_access_type_granted d (command (cv_txn s)) then 0 else 1
                        | None => 1
                        end) <= Z.of_nat fuel + 1 ->
  exists s', conv_loop hread hwrite back back_dmi fuel s = Ret (Some s') /\ cache_ok granted (cv_cache s') /\
    served t0 w0 (cv_txn s') (cv_w s').
Proof.
  intros Ht Hpos. revert s. induction fuel as [|fuel IH]; intros s Hinv Hf; cbn [conv_loop];
    (destruct (Z.eqb_spec (cv_remaining s) 0) as [Hz|Hz];
      [exists s; split_and!; [done|apply Hinv|left; by apply inv_completes]|]); pose proof (iv_pos _ _ _ Hinv) as Hp.
  { destruct (in_cache _ _) as [d|]; [case_match|]; lia. }
  assert (Hmiss : 2 * cv_remaining s <= Z.of_nat (S fuel) -> exists s',
    (let? x := miss_step back back_dmi s in
     if x.1 : bool then Ret (Some x.2) else conv_loop hread hwrite back back_dmi fuel x.2) = Ret (Some s') /\
    cache_ok granted (cv_cache s') /\ served t0 w0 (cv_txn s') (cv_w s')).
  { intros Hle. destruct (miss_step_ok t0 w0 s) as (fin & s1 & -> & Hc & Hs); try done. cbn [rbind fst snd].
    destruct fin; [by exists s1|]. destruct Hs as (Hinv1 & Hrem & d & Hin & Hacc). apply IH; [done|].
    rewrite Hin, Hacc, Hrem. lia. }
  destruct (in_cache (cv_addr s) (cv_cache s)) as [d|] eqn:Ein; [|apply Hmiss; lia].
  destruct (is_dmi_access_type_granted d (command (cv_txn s))) eqn:Eacc; [|apply Hmiss; lia]. rewrite (iv_cmd _ _ _ Hinv) in Eacc.
  destruct (cached_step_inv t0 w0 s d) as (s1 & -> & Hinv1 & Hrem); try done. cbn [rbind]. apply IH; [done|].
  repeat case_match; lia.
Qed.

End Transparency.

(** ** Properties *)

(** C16: The converter is transparent for transactions without byte enables, over a platform
    whose grants are true to memory, do not meet each other and end below the last address: a read
    returns the guest's memory and a write updates exactly the bytes of its range, whatever
    mixture of cached regions, new grants and forwarding serves it, unless a forwarded transaction
    fails, and then its response is reported.  The loop ends within two turns per byte, and the
    cache only ever holds granted regions.  [conv_byte_enables_restart], [conv_nested_stalls] and
    [conv_whole_space_stalls] show that the conditions are needed. *)
Theorem conv_transparent (W : Type) hread hwrite back back_dmi guest granted t c (w : W) :
  platform hread hwrite back back_dmi guest granted -> cache_ok granted c ->
  conv_txn t -> 0 < data_length t ->
  exists t' c' w', conv_b_transport hread hwrite back back_dmi (2 * length (data t)) t c w = Ret (Some (t', c', w')) /\
    cache_ok granted c' /\ served back guest t w t' w'.
Proof.
  intros Hpl Hc Ht Hpos. pose proof Ht as (Hb & Hcmd & Hl & Ha & Hend). unfold conv_b_transport. rewrite Hb. cbn [rbind].
  set (s0 := mk_conv _ _ _ _ _ _ _ _ _).
  assert (conv_inv guest granted t w s0) as Hinv.
  { split; cbn; try done; try lia. destruct (command t); [split; [lia|done]| |split; [lia|done]].
    split; [done|]. intros x. unfold window_update. rewrite take_0. cbn [length]. destruct (Z.leb_spec (address t) x), (Z.ltb_spec x (address t + Z.of_nat 0)); done || lia. }
  destruct (conv_loop_ok hread hwrite back back_dmi guest granted Hpl t w (2 * length (data t)) s0)
    as (s' & -> & Hc' & Hs'); try done; [|by eexists _, _, _].
  cbn. repeat case_match; lia.
Qed.

(** After an invalidation no cached region meets the invalidated range, every other
    region is kept, and each target socket is told the same range. *)
Theorem conv_invalidate_exact granted n start fin c :
  grants_ok granted -> cache_ok granted c ->
  let '(c', notes) := conv_invalidate n start fin c in
  (forall k d, (k, d) ∈ c' <-> (k, d) ∈ c /\ ~ region_hit start fin d) /\
  forall i s e, (i, s, e) ∈ notes <-> (i < n)%nat /\ s = start /\ e = fin.
Proof.
  intros Hg Hc. unfold conv_invalidate. split; [by intros; apply (cache_clean_spec granted)|].
  intros i s e. rewrite list_elem_of_fmap. setoid_rewrite elem_of_seq. naive_solver lia.
Qed.

(** A grant of the whole 64-bit address space stalls the converter: the length of the
    region counted from address 0 is [2^64], which is 0 in 64 bits, so no turn of the loop
    makes progress and a transaction at address 0 never returns. *)
Theorem conv_whole_space_stalls (W : Type) hread hwrite back back_dmi fuel t d (w : W) :
  dmi_start d = 0 -> dmi_end d = UINT64_MAX -> is_dmi_access_type_granted d (command t) = true ->
  byt t = None -> address t = 0 -> 0 < data_length t ->
  conv_b_transport hread hwrite back back_dmi fuel t [(0, d)] w = Ret None.
Proof.
  intros Hs He Hg Hb Ha Hl. unfold conv_b_transport. rewrite Hb. cbn [rbind].
  set (cond := fun s : conv_state (W := W) => cv_addr s = 0 /\ cv_remaining s = data_length t /\
    command (cv_txn s) = command t /\ cv_cache s = [(0, d)] /\ cv_byt s = None).
  enough (forall s, cond s -> conv_loop hread hwrite back back_dmi fuel s = Ret None) as Hloop
    by (rewrite Hloop; [done|]; by repeat split).
  induction fuel as [|fuel IH]; intros s (Haddr & Hrem & Hcmd & Hcache & Hbyt); cbn [conv_loop];
    rewrite Hrem; (destruct (Z.eqb_spec (data_length t) 0); [lia|]); [done|].
  assert (in_cache 0 [(0, d)] = Some d) as Hin by (unfold in_cache; cbn; by rewrite Hs, He).
  rewrite Haddr, Hcache, Hcmd, Hin, Hg. unfold cached_step. rewrite Haddr, He, Hrem, Hcmd.
  replace (u64 (UINT64_MAX - 0 + 1)) with 0 by reflexivity.
  destruct (Z.ltb_spec 0 (data_length t)); [|lia]. rewrite Hbyt.
  change (Z.to_nat 0) with 0%nat.
  destruct (command t) eqn:Ec; [| |done];
    cbn [copy_to_host copy_from_host rbind update_byte_enable fst snd]; apply IH; unfold cond;
    destruct (Z.eqb_spec (data_length t - 0) 0); try lia; split_and!; cbn [cv_addr cv_remaining cv_txn cv_cache cv_byt];
    rewrite ?Z.sub_0_r; done.
Qed.

(** When a cached region lies inside another, an address behind the inner one is not
    found in the cache although the outer region holds it; DMI is then requested and
    granted again without end, and the transaction never returns. *)
Theorem conv_nested_stalls (W : Type) hread hwrite back back_dmi fuel t d e (w : W) :
  (forall u v, back_dmi u dmi_init v = Ret (true, u, d, v)) ->
  is_dmi_access_type_granted d (command t) = true ->
  dmi_start d < dmi_start e <= address t -> dmi_end e < address t -> byt t = None -> 0 < data_length t ->
  conv_b_transport hread hwrite back back_dmi fuel t [(dmi_start d, d); (dmi_start e, e)] w = Ret None.
Proof.
  intros Hdmi Hg He Hout Hb Hl. unfold conv_b_transport. rewrite Hb. cbn [rbind].
  set (c := [(dmi_start d, d); (dmi_start e, e)]).
  assert (in_cache (address t) c = None) as Hmiss.
  { unfold in_cache, c. cbn [om_upper]. destruct (Z.ltb_spec (address t) (dmi_start d)); [lia|].
    destruct (Z.ltb_spec (address t) (dmi_start e)); [lia|]. cbn.
    by rewrite (proj2 (Z.leb_gt _ _) Hout), andb_false_r. }
  assert (om_insert (dmi_start d) d c = c) as Hins.
  { unfold c. cbn [om_insert]. by rewrite Z.ltb_irrefl, Z.eqb_refl. }
  set (s0 := mk_conv _ _ _ _ _ _ _ _ _).
  enough (conv_loop hread hwrite back back_dmi fuel s0 = Ret None) as -> by done.
  induction fuel as [|fuel IH]; cbn [conv_loop s0 cv_remaining cv_addr cv_cache];
    (destruct (Z.eqb_spec (data_length t) 0); [lia|]); [done|].
  rewrite Hmiss. unfold miss_step. cbn [s0 cv_used cv_w cv_txn]. rewrite Hdmi. cbn [rbind andb].
  rewrite Hg. cbn [s0 fst snd cv_cache cv_addr cv_pos cv_remaining cv_byt cv_bel_remaining rbind].
  rewrite Hins. exact IH.
Qed.

(** ** Examples *)

(** A platform whose host memory is the guest's, with DMI in regions of 16 bytes below
    1024 and plain transactions above. *)
Definition ex_region (k : Z) : tlm_dmi := mk_dmi (16 * k) (16 * k) (16 * k + 15) DMI_ACCESS_READ_WRITE.
Definition ex_granted (d : tlm_dmi) : Prop := exists k, 0 <= k < 64 /\ d = ex_region k.
Definition ex_hread (w : Z -> Z) (p : Z) : Z := w p.
Definition ex_hwrite (w : Z -> Z) (p v : Z) : Z -> Z := fun x => if x =? p then v else w x.
Definition ex_conv_dmi (t : payload) (d : tlm_dmi) (w : Z -> Z) : res (bool * payload * tlm_dmi * (Z -> Z)) :=
  if (0 <=? address t) && (address t <? 1024) then Ret (true, t, ex_region (address t / 16), w)
  else Ret (false, t, d, w).
Definition ex_conv_back (t : payload) (w : Z -> Z) : res (payload * (Z -> Z)) :=
  match command t with
  | TLM_WRITE_COMMAND =>
      Ret (set_response_status TLM_OK_RESPONSE t, window_update (address t) (data t) w)
  | _ => Ret (set_response_status TLM_OK_RESPONSE
               (set_data (map (fun i => w (address t + Z.of_nat i)) (seq 0 (length (data t)))) t), w)
  end.

Lemma ex_platform : platform ex_hread ex_hwrite ex_conv_back ex_conv_dmi (fun w => w) ex_granted.
Proof.
  split.
  - split.
    + intros d (k & Hk & ->). unfold UINT64_MAX. simpl. lia.
    + intros d d' a (k & Hk & ->) (k' & Hk' & ->). unfold dmi_covers. simpl. intros. f_equal. lia.
  - intros d a w (k & Hk & ->) _ _. unfold ex_hread, dmi_host. simpl. f_equal. lia.
  - intros d a w v x (k & Hk & ->) _ _. unfold ex_hwrite, dmi_host. cbn [dmi_ptr dmi_start ex_region].
    replace (16 * k + (a - 16 * k)) with a by lia. done.
  - intros t d0 w. unfold ex_conv_dmi.
    destruct (Z.leb_spec 0 (address t)), (Z.ltb_spec (address t) 1024); simpl; eexists _, _, _;
      (split; [done|]); (split; [done|]); try done. intros _.
    pose proof (Z.div_mod (address t) 16). pose proof (Z.mod_pos_bound (address t) 16).
    split; [exists (address t / 16); split; [lia|done]|]. unfold dmi_covers. simpl. lia.
  - intros t w (_ & Hi & _). unfold ex_conv_back, completes. destruct (command t); [..|done]; eexists _, _; (split; [done|]); intros _; simpl.
    + rewrite length_map, length_seq. split_and!; try done. intros i Hlt.
      rewrite list_lookup_fmap, lookup_seq_lt by done. done.
    + done.
Qed.

Definition ex_conv_read : payload := plain_txn TLM_READ_COMMAND 1018 (replicate 12 0).

Lemma conv_transparent_witness :
  exists t' c' w', conv_b_transport ex_hread ex_hwrite ex_conv_back ex_conv_dmi 24 ex_conv_read [] (fun x => x mod 256)
      = Ret (Some (t', c', w')) /\ completes ex_conv_read (fun x => x mod 256) t' w'.
Proof.
  destruct (conv_transparent (Z -> Z) ex_hread ex_hwrite ex_conv_back ex_conv_dmi (fun w => w) ex_granted
    ex_conv_read [] (fun x => x mod 256)) as (t' & c' & w' & Hr & _ & Hc).
  - apply ex_platform.
  - split; [constructor|..]; intros k d H; by apply not_elem_of_nil in H.
  - unfold conv_txn. simpl. split_and!; try done.
  - simpl. lia.
  - exists t', c', w'. split; [exact Hr|]. destruct Hc as [Hc|(u & w & u' & (_ & Hi & _) & Hb & Hn & _)]; [exact Hc|]. exfalso.
    unfold ex_conv_back in Hb. destruct (command u); [..|done]; injection Hb as <- _; by apply Hn.
Defined.

Lemma conv_invalidate_exact_witness :
  (0, ex_region 0) ∈ (conv_invalidate 2 20 24 [(0, ex_region 0); (16, ex_region 1)]).1 /\
  (16, ex_region 1) ∉ (conv_invalidate 2 20 24 [(0, ex_region 0); (16, ex_region 1)]).1.
Proof.
  destruct (conv_invalidate_exact ex_granted 2 20 24 [(0, ex_region 0); (16, ex_region 1)]) as [H _].
  - apply (pl_grants _ _ _ _ _ _ ex_platform).
  - split.
    + repeat constructor.
    + intros k d. rewrite !elem_of_cons, elem_of_nil. naive_solver.
    + intros k d. rewrite !elem_of_cons, elem_of_nil. intros [[= _ ->]|[[= _ ->]|[]]]; eexists; (split; [|reflexivity]); lia.
  - split.
    + apply H. split; [by left|]. unfold region_hit. cbn. lia.
    + intros Hin. apply H in Hin as [_ Hin]. apply Hin. unfold region_hit. cbn. lia.
Defined.

Lemma conv_whole_space_stalls_witness :
  conv_b_transport ex_hread ex_hwrite ex_conv_back ex_conv_dmi 100 (plain_txn TLM_READ_COMMAND 0 [0; 0; 0; 0])
    [(0, mk_dmi 0 0 UINT64_MAX DMI_ACCESS_READ)] (fun _ => 0) = Ret None.
Proof. by apply (conv_whole_space_stalls (Z -> Z)). Defined.

Lemma conv_nested_stalls_witness :
  conv_b_transport ex_hread ex_hwrite ex_conv_back
    (fun t d w => Ret (true, t, mk_dmi 0 0 0xff DMI_ACCESS_READ, w)) 100
    (plain_txn TLM_READ_COMMAND 0x20 [0; 0; 0; 0])
    [(0, mk_dmi 0 0 0xff DMI_ACCESS_READ); (0x10, mk_dmi 0x10 0x10 0x1f DMI_ACCESS_READ)] (fun _ => 0) = Ret None.
Proof.
  apply (conv_nested_stalls (Z -> Z) _ _ _ _ 100 (plain_txn TLM_READ_COMMAND 0x20 [0; 0; 0; 0])
    (mk_dmi 0 0 0xff DMI_ACCESS_READ) (mk_dmi 0x10 0x10 0x1f DMI_ACCESS_READ)); simpl; (done || lia).
Defined.

(** Byte enables restart at each cached region: of a write whose last four bytes are
    disabled, the part in the second region is written with the enables of the first. *)
Theorem conv_byte_enables_restart :
  let t := mk_payload TLM_WRITE_COMMAND 12 [1; 2; 3; 4; 5; 6; 7; 8] 8 8
             (Some [0xff; 0xff; 0xff; 0xff; 0; 0; 0; 0]) 8 TLM_INCOMPLETE_RESPONSE false None None None in
  exists t' c' w',
    conv_b_transport ex_hread ex_hwrite ex_conv_back ex_conv_dmi 16 t [] (fun _ => 0) = Ret (Some (t', c', w')) /\
    map w' [12; 13; 14; 15] = [1; 2; 3; 4] /\ map w' [16; 17; 18; 19] = [5; 6; 7; 8].
Proof. cbv zeta. eexists _, _, _. split; [vm_compute; reflexivity|]. split; reflexivity. Qed.
