(* ===== verification/SmmuRegs.v ===== *)
(** * SMMUv3: registers

    [smmuv3_gen.h]: the register file of the SMMU.  A register is named by its
    offset and holds 32 bits; a field is a register with its first bit and its
    length. *)

From stdpp Require Import base list numbers option gmap.
From S2P Require Import Prelude Monad Registers.

(** The registers, by offset. *)
Definition IDR0 : Z := 0x0.
Definition IDR1 : Z := 0x4.
Definition IDR2 : Z := 0x8.
Definition IDR3 : Z := 0xC.
Definition IDR4 : Z := 0x10.
Definition IDR5 : Z := 0x14.
Definition IIDR : Z := 0x18.
Definition AIDR : Z := 0x1C.
Definition CR0 : Z := 0x20.
Definition CR0ACK : Z := 0x24.
Definition CR1 : Z := 0x28.
Definition CR2 : Z := 0x2C.
Definition STATUSR : Z := 0x40.
Definition GBPA : Z := 0x44.
Definition AGBPA : Z := 0x48.
Definition IRQ_CTRL : Z := 0x50.
Definition IRQ_CTRL_ACK : Z := 0x54.
Definition GERROR : Z := 0x60.
Definition GERRORN : Z := 0x64.
Definition GERROR_IRQ_CFG0_LO : Z := 0x68.
Definition GERROR_IRQ_CFG0_HI : Z := 0x6C.
Definition GERROR_IRQ_CFG1 : Z := 0x70.
Definition GERROR_IRQ_CFG2 : Z := 0x74.
Definition STRTAB_BASE_LO : Z := 0x80.
Definition STRTAB_BASE_HI : Z := 0x84.
Definition STRTAB_BASE_CFG : Z := 0x88.
Definition CMDQ_BASE_LO : Z := 0x90.
Definition CMDQ_BASE_HI : Z := 0x94.
Definition CMDQ_PROD : Z := 0x98.
Definition CMDQ_CONS : Z := 0x9C.
Definition EVENTQ_BASE_LO : Z := 0xA0.
Definition EVENTQ_BASE_HI : Z := 0xA4.
Definition EVENTQ_PROD : Z := 0xA8.
Definition EVENTQ_CONS : Z := 0xAC.
Definition EVENTQ_IRQ_CFG0_LO : Z := 0xB0.
Definition EVENTQ_IRQ_CFG0_HI : Z := 0xB4.
Definition EVENTQ_IRQ_CFG1 : Z := 0xB8.
Definition EVENTQ_IRQ_CFG2 : Z := 0xBC.
Definition PRIQ_BASE_LO : Z := 0xC0.
Definition PRIQ_BASE_HI : Z := 0xC4.
Definition PRIQ_PROD : Z := 0xC8.
Definition PRIQ_CONS : Z := 0xCC.
Definition PRIQ_IRQ_CFG0_LO : Z := 0xD0.
Definition PRIQ_IRQ_CFG0_HI : Z := 0xD4.
Definition PRIQ_IRQ_CFG1 : Z := 0xD8.
Definition PRIQ_IRQ_CFG2 : Z := 0xDC.
Definition GATOS_CTRL : Z := 0x100.
Definition GATOS_SID : Z := 0x108.
Definition GATOS_ADDR_LO : Z := 0x110.
Definition GATOS_ADDR_HI : Z := 0x114.
Definition GATOS_PAR_LO : Z := 0x118.
Definition GATOS_PAR_HI : Z := 0x11C.
Definition CMDQ_PROD_P1 : Z := 0x10098.
Definition CMDQ_CONS_P1 : Z := 0x1009C.
Definition S_IDR0 : Z := 0x8000.
Definition S_IDR1 : Z := 0x8004.
Definition S_IDR2 : Z := 0x8008.
Definition S_IDR3 : Z := 0x800C.
Definition S_IDR4 : Z := 0x8010.
Definition S_CR0 : Z := 0x8020.
Definition S_CR0ACK : Z := 0x8024.
Definition S_CR1 : Z := 0x8028.
Definition S_CR2 : Z := 0x802C.
Definition S_INIT : Z := 0x803C.
Definition S_GBPA : Z := 0x8044.
Definition S_AGBPA : Z := 0x8048.
Definition S_IRQ_CTRL : Z := 0x8050.
Definition S_IRQ_CTRL_ACK : Z := 0x8054.
Definition S_GERROR : Z := 0x8060.
Definition S_GERRORN : Z := 0x8064.
Definition S_GERROR_IRQ_CFG0_LO : Z := 0x8068.
Definition S_GERROR_IRQ_CFG0_HI : Z := 0x806C.
Definition S_GERROR_IRQ_CFG1 : Z := 0x8070.
Definition S_GERROR_IRQ_CFG2 : Z := 0x8074.
Definition S_STRTAB_BASE_LO : Z := 0x8080.
Definition S_STRTAB_BASE_HI : Z := 0x8084.
Definition S_STRTAB_BASE_CFG : Z := 0x8088.
Definition S_CMDQ_BASE_LO : Z := 0x8090.
Definition S_CMDQ_BASE_HI : Z := 0x8094.
Definition S_CMDQ_PROD : Z := 0x8098.
Definition S_CMDQ_CONS : Z := 0x809C.
Definition S_EVENTQ_BASE_LO : Z := 0x80A0.
Definition S_EVENTQ_BASE_HI : Z := 0x80A4.
Definition S_EVENTQ_PROD : Z := 0x80A8.
Definition S_EVENTQ_CONS : Z := 0x80AC.
Definition S_EVENTQ_IRQ_CFG0_LO : Z := 0x80B0.
Definition S_EVENTQ_IRQ_CFG0_HI : Z := 0x80B4.
Definition S_EVENTQ_IRQ_CFG1 : Z := 0x80B8.
Definition S_EVENTQ_IRQ_CFG2 : Z := 0x80BC.
Definition EVENTQ_PROD_P1 : Z := 0x100A8.
Definition EVENTQ_CONS_P1 : Z := 0x100AC.
Definition PRIQ_PROD_P1 : Z := 0x100C8.
Definition PRIQ_CONS_P1 : Z := 0x100CC.
(** [IDREGS[i]]. *)
Definition IDREG (i : Z) : Z := 0xFD0 + i * 4.

(** The fields the model reads or writes. *)
Definition reg_field : Type := Z * Z * Z.
Definition IDR0_S2P : reg_field := (IDR0, 0, 1).
Definition IDR0_S1P : reg_field := (IDR0, 1, 1).
Definition IDR0_TTF : reg_field := (IDR0, 2, 2).
Definition IDR0_COHACC : reg_field := (IDR0, 4, 1).
Definition IDR0_ASID16 : reg_field := (IDR0, 12, 1).
Definition IDR0_VMID16 : reg_field := (IDR0, 18, 1).
Definition IDR0_PRI : reg_field := (IDR0, 16, 1).
Definition IDR0_ATOS : reg_field := (IDR0, 15, 1).
Definition IDR0_HTTU : reg_field := (IDR0, 6, 2).
Definition IDR0_STLEVEL : reg_field := (IDR0, 27, 2).
Definition IDR0_MSI : reg_field := (IDR0, 13, 1).
Definition IDR0_ATS : reg_field := (IDR0, 10, 1).
Definition IDR1_SIDSIZE : reg_field := (IDR1, 0, 6).
Definition IDR1_EVENTQS : reg_field := (IDR1, 16, 5).
Definition IDR1_CMDQS : reg_field := (IDR1, 21, 5).
Definition IDR5_OAS : reg_field := (IDR5, 0, 3).
Definition IDR5_GRAN4K : reg_field := (IDR5, 4, 1).
Definition IDR5_GRAN16K : reg_field := (IDR5, 5, 1).
Definition IDR5_GRAN64K : reg_field := (IDR5, 6, 1).
Definition CR0_SMMUEN : reg_field := (CR0, 0, 1).
Definition CR0_PRIQEN : reg_field := (CR0, 1, 1).
Definition CR0_EVENTQEN : reg_field := (CR0, 2, 1).
Definition CR0_CMDQEN : reg_field := (CR0, 3, 1).
Definition CR2_E2H : reg_field := (CR2, 0, 1).
Definition GBPA_UPDATE : reg_field := (GBPA, 31, 1).
Definition GBPA_ABORT : reg_field := (GBPA, 20, 1).
Definition IRQ_CTRL_GERROR_IRQEN : reg_field := (IRQ_CTRL, 0, 1).
Definition IRQ_CTRL_PRI_IRQEN : reg_field := (IRQ_CTRL, 1, 1).
Definition IRQ_CTRL_EVENTQ_IRQEN : reg_field := (IRQ_CTRL, 2, 1).
Definition STRTAB_BASE_CFG_FMT : reg_field := (STRTAB_BASE_CFG, 16, 2).
Definition STRTAB_BASE_CFG_SPLIT : reg_field := (STRTAB_BASE_CFG, 6, 5).
Definition STRTAB_BASE_CFG_LOG2SIZE : reg_field := (STRTAB_BASE_CFG, 0, 6).
Definition CMDQ_BASE_LOG2SIZE : reg_field := (CMDQ_BASE_LO, 0, 5).
Definition CMDQ_CONS_ERR : reg_field := (CMDQ_CONS, 23, 7).
Definition EVENTQ_BASE_LOG2SIZE : reg_field := (EVENTQ_BASE_LO, 0, 5).
Definition PRIQ_BASE_LOG2SIZE : reg_field := (PRIQ_BASE_LO, 0, 5).
Definition GATOS_CTRL_RUN : reg_field := (GATOS_CTRL, 0, 1).
Definition GATOS_CTRL_INPRG : reg_field := (GATOS_CTRL, 1, 1).
Definition GATOS_CTRL_READ_NWRITE : reg_field := (GATOS_CTRL, 8, 1).
Definition GATOS_PAR_F : reg_field := (GATOS_PAR_LO, 0, 1).
Definition GATOS_PAR_FST : reg_field := (GATOS_PAR_LO, 1, 7).
Definition S_CR0_EVENTQEN : reg_field := (S_CR0, 2, 1).
Definition S_CR0_CMDQEN : reg_field := (S_CR0, 3, 1).
Definition S_INIT_INV_ALL : reg_field := (S_INIT, 0, 1).
Definition S_GBPA_UPDATE : reg_field := (S_GBPA, 31, 1).
Definition S_IRQ_CTRL_GERROR_IRQEN : reg_field := (S_IRQ_CTRL, 0, 1).
Definition S_IRQ_CTRL_EVENTQ_IRQEN : reg_field := (S_IRQ_CTRL, 2, 1).
Definition S_CMDQ_BASE_LOG2SIZE : reg_field := (S_CMDQ_BASE_LO, 0, 5).
Definition S_CMDQ_CONS_ERR : reg_field := (S_CMDQ_CONS, 23, 7).
Definition S_EVENTQ_BASE_LOG2SIZE : reg_field := (S_EVENTQ_BASE_LO, 0, 5).

(** The register file. *)
Abbreviation reg_file := (gmap Z Z).

Definition reg_get (r : Z) (f : reg_file) : Z := default 0 (f !! r).
Definition reg_set (r v : Z) (f : reg_file) : reg_file := <[r := u32 v]> f.

(** [REG[FIELD]] read and assigned. *)
Definition field_get (fd : reg_field) (f : reg_file) : Z :=
  let '(r, s, l) := fd in extract (reg_get r f) s l.
Definition field_set (fd : reg_field) (v : Z) (f : reg_file) : res reg_file :=
  let '(r, s, l) := fd in
  let? x := bitfield_set 32 s l v (reg_get r f) in Ret (reg_set r x f).

Lemma reg_get_set_eq r v f : reg_get r (reg_set r v f) = u32 v.
Proof. unfold reg_get, reg_set. by rewrite lookup_insert_eq. Qed.

Lemma reg_get_set_ne r r' v f : r <> r' -> reg_get r' (reg_set r v f) = reg_get r' f.
Proof. intros H. unfold reg_get, reg_set. by rewrite lookup_insert_ne. Qed.

(** Every register holds 32 bits. *)
Definition regs_ok (f : reg_file) : Prop := forall r v, f !! r = Some v -> in_width 32 v.

Lemma regs_ok_get f r : regs_ok f -> in_width 32 (reg_get r f).
Proof. intros H. unfold reg_get. destruct (f !! r) eqn:E; simpl; [by eapply H|unfold in_width; lia]. Qed.

Lemma regs_ok_set f r v : regs_ok f -> regs_ok (reg_set r v f).
Proof.
  intros H r' v'. unfold reg_set. destruct (decide (r = r')) as [->|].
  - rewrite lookup_insert_eq. intros [= <-]. apply wrap_in_width. lia.
  - rewrite lookup_insert_ne by done. apply H.
Qed.
