(* ===== verification/Smmu.v ===== *)
(** * SMMUv3: state, interrupts and memory accesses

    [smmuv3.h]: the data of the SMMU, its global error and interrupt logic, and the
    accesses it makes to memory for its tables and queues. *)

From stdpp Require Import base list numbers option gmap.
From S2P Require Import Prelude Monad Registers Tlm SmmuRegs.

(** ** Constants *)

Definition SMMUV3_STE_SIZE : Z := 64.
Definition SMMUV3_CD_SIZE : Z := 64.
Definition SMMUV3_CMD_SIZE : Z := 16.
Definition SMMUV3_EVENT_SIZE : Z := 32.
Definition SMMUV3_PRI_SIZE : Z := 16.
Definition SMMUV3_PAGEMASK : Z := 4095.

Definition EVT_F_STE_FETCH : Z := 0x03.
Definition EVT_C_BAD_STE : Z := 0x04.
Definition EVT_C_BAD_SUBSTREAMID : Z := 0x08.
Definition EVT_F_CD_FETCH : Z := 0x09.
Definition EVT_F_WALK_EABT : Z := 0x0B.
Definition EVT_F_TRANSLATION : Z := 0x10.
Definition EVT_F_ADDR_SIZE : Z := 0x11.
Definition EVT_F_ACCESS : Z := 0x12.
Definition EVT_F_PERMISSION : Z := 0x13.

Definition CERROR_ILL : Z := 1.
Definition CERROR_ABT : Z := 2.

Definition GERROR_BIT_CMDQ_ERR : Z := 0.
Definition GERROR_BIT_EVENTQ_ABT : Z := 2.
Definition GERROR_BIT_PRIQ_ABT : Z := 3.
Definition GERROR_BIT_MSI_CMDQ_ABT : Z := 4.
Definition GERROR_BIT_MSI_EVENTQ_ABT : Z := 5.
Definition GERROR_BIT_MSI_PRIQ_ABT : Z := 6.
Definition GERROR_BIT_MSI_GERROR_ABT : Z := 7.
Definition GERROR_BIT_SFM_ERR : Z := 8.

Definition STE_CONFIG_ABORT : Z := 0.
Definition STE_CONFIG_BYPASS : Z := 4.
Definition STE_CONFIG_S1 : Z := 5.
Definition STE_CONFIG_S2 : Z := 6.
Definition STE_CONFIG_NESTED : Z := 7.

Definition CD_TG_4K : Z := 0.
Definition CD_TG_64K : Z := 1.
Definition CD_TG_16K : Z := 2.

Definition STE_BASE_ADDR_MASK : Z := 0x000FFFFFFFFFFFC0.
Definition S2TTB_ADDR_MASK : Z := 0x000FFFFFFFFFFFF0.
Definition IPA_ADDR_MASK : Z := 0x000FFFFFFFFFF000.
Definition CMDQ_BASE_HI_MASK : Z := 0x000FFFFF.

Definition PA_BITS : Z := 48.

(** [OUTPUT_SIZE_MAP]. *)
Definition OUTPUT_SIZE_MAP (ips : Z) : option Z :=
  [32; 36; 40; 42; 44; 48; 48; 48] !! Z.to_nat ips.

Definition PRIMECELL_IDS : list Z :=
  [0x04; 0x00; 0x00; 0x00; 0x34; 0xB0; 0x0B; 0x00; 0x0D; 0xF0; 0x05; 0xB1].

Definition clamp_queue_log2size (log2size : Z) : Z := if 19 <? log2size then 19 else log2size.
Definition clamp_shift_u64 (shift : Z) : Z := if 63 <? shift then 63 else shift.
Definition safe_shl1_u64 (shift : Z) : Z := Z.shiftl 1 (clamp_shift_u64 shift).

(** ** Data *)

(** [IOMMUAccessFlags]: bit 0 allows reads, bit 1 writes. *)
Inductive access_flags : Type := ACC_NONE | ACC_RO | ACC_WO | ACC_RW.

#[global] Instance access_flags_eq_dec : EqDecision access_flags.
Proof. solve_decision. Defined.

Definition acc_code (a : access_flags) : Z :=
  match a with ACC_NONE => 0 | ACC_RO => 1 | ACC_WO => 2 | ACC_RW => 3 end.
Definition acc_of (z : Z) : access_flags :=
  if z =? 0 then ACC_NONE else if z =? 1 then ACC_RO else if z =? 2 then ACC_WO else ACC_RW.
Definition acc_and (a b : access_flags) : access_flags := acc_of (Z.land (acc_code a) (acc_code b)).
Definition acc_not (a : access_flags) : access_flags := acc_of (Z.land (Z.lnot (acc_code a)) 3).

Definition acc_reads (a : access_flags) : bool := match a with ACC_RO | ACC_RW => true | _ => false end.
Definition acc_writes (a : access_flags) : bool := match a with ACC_WO | ACC_RW => true | _ => false end.

(** A stream table entry. *)
Record STE : Type := mk_ste {
  ste_valid : bool;
  ste_config : Z;
  ste_s1contextptr : Z;
  ste_s2ttb : Z;
  ste_s2t0sz : Z;
  ste_s2sl0 : Z;
  ste_s2tg : Z;
  ste_s2ps : Z;
  ste_s1fmt : Z;
  ste_s1stalld : bool;
  ste_s1cdmax : Z;
  ste_vmid : Z;
  ste_s2affd : bool;
  ste_s2hd : bool;
  ste_eats : bool;
  ste_strw : Z;
}.

(** A context descriptor; arrays of two are two fields. *)
Record CD : Type := mk_cd {
  cd_valid : bool;
  cd_aarch64 : bool;
  cd_ttb0 : Z; cd_ttb1 : Z;
  cd_tsz0 : Z; cd_tsz1 : Z;
  cd_tg0 : Z; cd_tg1 : Z;
  cd_ips : Z;
  cd_asid : Z;
  cd_epd0 : bool; cd_epd1 : bool;
  cd_affd : bool;
  cd_ha : bool;
  cd_hd : bool;
}.

(** [IOMMUTLBEntry]. *)
Record tlb_entry : Type := mk_entry {
  te_iova : Z;
  te_translated_addr : Z;
  te_addr_mask : Z;
  te_perm : access_flags;
  te_descriptor : Z;
  te_table_attrs : Z;
  te_fault_type : Z;
  te_fault_level : Z;
  te_stallable_fault : bool;
}.

Record IOTLBKey : Type := mk_key {
  k_vmid : Z;
  k_asid : Z;
  k_iova : Z;
  k_tg : Z;
  k_level : Z;
  k_secure : bool;
  k_regime : Z;
}.

#[global] Instance IOTLBKey_eq_dec : EqDecision IOTLBKey.
Proof. solve_decision. Defined.

Record DmaDmiRegion : Type := mk_dma_dmi {
  dr_start : Z;
  dr_end : Z;
  dr_ptr : Z;
  dr_read : bool;
  dr_write : bool;
}.

(** [StalledTxn]: the stream and substream, and the driver's verdict. *)
Record StalledTxn : Type := mk_stalled {
  st_sid : Z;
  st_ssid : Z;
  st_aborted : bool;
}.

(** The interrupt lines, and what the SMMU does towards the outside: levels and pulses
    on lines, DMI invalidations at the upstream socket of a TBU, and notifications of
    stalled transactions. *)
Inductive irq_line : Type :=
| irq_eventq | irq_priq | irq_cmd_sync | irq_gerror | irq_s_gerror | irq_s_eventq.

#[global] Instance irq_line_eq_dec : EqDecision irq_line.
Proof. solve_decision. Defined.

Inductive out_event : Type :=
| OIrq (line : irq_line) (level : bool)
| OInvalidate (tbu : nat) (start fin : Z)
| OResume (stag : Z).

(** The [m_prev_*] and [m_last_*] flags. *)
Record irq_flags : Type := mk_irq_flags {
  prev_gerror : bool; prev_eventq : bool; prev_priq : bool;
  prev_s_gerror : bool; prev_s_eventq : bool;
  last_gerror : bool; last_eventq : bool; last_priq : bool;
  last_s_gerror : bool; last_s_eventq : bool;
}.

Record smmu : Type := mk_smmu {
  s_regs : reg_file;
  s_iotlb : list (IOTLBKey * tlb_entry);
  s_iotlb_lru : list IOTLBKey;
  s_ste_cache : gmap Z STE;
  s_ste_lru : list Z;
  s_cd_cache : gmap Z CD;
  s_cd_lru : list Z;
  s_ste_secure : gmap Z STE;
  s_cd_secure : gmap Z CD;
  s_stalled : gmap Z StalledTxn;
  s_next_stag : Z;
  s_dma_dmi : list DmaDmiRegion;
  s_irq : irq_flags;
  s_out : list out_event;
}.

(** The configuration parameters, the number of TBUs and the interrupt lines that are
    bound. *)
Record smmu_config : Type := mk_smmu_config {
  p_pamax : Z;
  p_sidsize : Z;
  p_ato : bool;
  p_iotlb_size : Z;
  p_iidr : Z;
  num_tbus : nat;
  irq_bound : irq_line -> bool;
}.

Definition set_regs (f : reg_file) (s : smmu) : smmu :=
  mk_smmu f (s_iotlb s) (s_iotlb_lru s) (s_ste_cache s) (s_ste_lru s) (s_cd_cache s) (s_cd_lru s)
    (s_ste_secure s) (s_cd_secure s) (s_stalled s) (s_next_stag s) (s_dma_dmi s) (s_irq s) (s_out s).
Definition set_iotlb (l : list (IOTLBKey * tlb_entry)) (lru : list IOTLBKey) (s : smmu) : smmu :=
  mk_smmu (s_regs s) l lru (s_ste_cache s) (s_ste_lru s) (s_cd_cache s) (s_cd_lru s)
    (s_ste_secure s) (s_cd_secure s) (s_stalled s) (s_next_stag s) (s_dma_dmi s) (s_irq s) (s_out s).
Definition set_ste_cache (c : gmap Z STE) (lru : list Z) (s : smmu) : smmu :=
  mk_smmu (s_regs s) (s_iotlb s) (s_iotlb_lru s) c lru (s_cd_cache s) (s_cd_lru s)
    (s_ste_secure s) (s_cd_secure s) (s_stalled s) (s_next_stag s) (s_dma_dmi s) (s_irq s) (s_out s).
Definition set_cd_cache (c : gmap Z CD) (lru : list Z) (s : smmu) : smmu :=
  mk_smmu (s_regs s) (s_iotlb s) (s_iotlb_lru s) (s_ste_cache s) (s_ste_lru s) c lru
    (s_ste_secure s) (s_cd_secure s) (s_stalled s) (s_next_stag s) (s_dma_dmi s) (s_irq s) (s_out s).
Definition set_secure (st : gmap Z STE) (cd : gmap Z CD) (s : smmu) : smmu :=
  mk_smmu (s_regs s) (s_iotlb s) (s_iotlb_lru s) (s_ste_cache s) (s_ste_lru s) (s_cd_cache s) (s_cd_lru s)
    st cd (s_stalled s) (s_next_stag s) (s_dma_dmi s) (s_irq s) (s_out s).
Definition set_stalled (st : gmap Z StalledTxn) (next : Z) (s : smmu) : smmu :=
  mk_smmu (s_regs s) (s_iotlb s) (s_iotlb_lru s) (s_ste_cache s) (s_ste_lru s) (s_cd_cache s) (s_cd_lru s)
    (s_ste_secure s) (s_cd_secure s) st next (s_dma_dmi s) (s_irq s) (s_out s).
Definition set_dma_dmi (d : list DmaDmiRegion) (s : smmu) : smmu :=
  mk_smmu (s_regs s) (s_iotlb s) (s_iotlb_lru s) (s_ste_cache s) (s_ste_lru s) (s_cd_cache s) (s_cd_lru s)
    (s_ste_secure s) (s_cd_secure s) (s_stalled s) (s_next_stag s) d (s_irq s) (s_out s).
Definition set_irq (i : irq_flags) (s : smmu) : smmu :=
  mk_smmu (s_regs s) (s_iotlb s) (s_iotlb_lru s) (s_ste_cache s) (s_ste_lru s) (s_cd_cache s) (s_cd_lru s)
    (s_ste_secure s) (s_cd_secure s) (s_stalled s) (s_next_stag s) (s_dma_dmi s) i (s_out s).
Definition add_out (o : out_event) (s : smmu) : smmu :=
  mk_smmu (s_regs s) (s_iotlb s) (s_iotlb_lru s) (s_ste_cache s) (s_ste_lru s) (s_cd_cache s) (s_cd_lru s)
    (s_ste_secure s) (s_cd_secure s) (s_stalled s) (s_next_stag s) (s_dma_dmi s) (s_irq s) (s_out s ++ [o]).

(** ** Memory accesses *)

Section Core.
Context {W : Type} (bus : dma_bus W) (cfg : smmu_config).

Abbreviation M := (SM (smmu * W)).

Definition s_get : M smmu := fun s => Ret (s.1, s).
Definition s_mod (f : smmu -> smmu) : M unit := fun s => Ret (tt, (f s.1, s.2)).
Definition rget (r : Z) : M Z := fun s => Ret (reg_get r (s_regs s.1), s).
Definition rset (r v : Z) : M unit := s_mod (fun s => set_regs (reg_set r v (s_regs s)) s).
Definition fget (f : reg_field) : M Z := fun s => Ret (field_get f (s_regs s.1), s).
Definition fset (f : reg_field) (v : Z) : M unit :=
  fun s => match field_set f v (s_regs s.1) with
           | Ret x => Ret (tt, (set_regs x s.1, s.2))
           | Err e => Err e
           end.
Definition output (o : out_event) : M unit := s_mod (add_out o).

(** [find_dma_dmi]. *)
Fixpoint find_dma_dmi (addr len : Z) (write : bool) (l : list DmaDmiRegion) : option DmaDmiRegion :=
  match l with
  | [] => None
  | r :: l' =>
      if negb (len =? 0) && (dr_start r <=? addr) && (u64 (addr + len - 1) <=? dr_end r) &&
         (if write then dr_write r else dr_read r)
      then Some r else find_dma_dmi addr len write l'
  end.

Definition DMA_DMI_CACHE_MAX : nat := 64.

(** [grant_dma_dmi]. *)
Definition grant_dma_dmi (addr : Z) (cmd : tlm_command) : M bool :=
  fun s =>
    let probe := set_dmi_allowed true (plain_txn cmd addr [0]) in
    match bus_dmi bus probe dmi_init s.2 with
    | Err e => Err e
    | Ret (ok, _, d, w) =>
        if negb ok then Ret (false, (s.1, w))
        else if negb (is_read_allowed d) && negb (is_write_allowed d) then Ret (false, (s.1, w))
        else
          let r := mk_dma_dmi (dmi_start d) (dmi_end d) (dmi_ptr d) (is_read_allowed d) (is_write_allowed d) in
          let l := s_dma_dmi s.1 in
          let l := if (DMA_DMI_CACHE_MAX <=? length l)%nat then drop 1 l else l in
          Ret (true, (set_dma_dmi (l ++ [r]) s.1, w))
    end.

(** [dma_dmi_invalidate]. *)
Definition dma_dmi_invalidate (start fin : Z) : M unit :=
  s_mod (fun s => set_dma_dmi
    (filter (fun r => Is_true ((dr_end r <? start) || (fin <? dr_start r))) (s_dma_dmi s)) s).

(** The cached region for an access, requested when there is none. *)
Definition dma_region (addr len : Z) (write : bool) : M (option DmaDmiRegion) :=
  do! s := s_get in
  match find_dma_dmi addr len write (s_dma_dmi s) with
  | Some r => sm_ret (Some r)
  | None =>
      do! ok := grant_dma_dmi addr (if write then TLM_WRITE_COMMAND else TLM_READ_COMMAND) in
      if (ok : bool) then do! s := s_get in sm_ret (find_dma_dmi addr len write (s_dma_dmi s))
      else sm_ret None
  end.

Definition bus_access (t : payload) : M payload :=
  fun s => match bus_transport bus t s.2 with
           | Ret (t', w) => Ret (t', (s.1, w))
           | Err e => Err e
           end.

(** [dma_read]: the bytes, or nothing when it fails. *)
Definition dma_read (addr : Z) (len : nat) : M (option (list Z)) :=
  do! r := dma_region addr (Z.of_nat len) false in
  match r with
  | Some r =>
      fun s => Ret (Some (map (fun i => bus_hread bus s.2 (dr_ptr r + (addr - dr_start r) + Z.of_nat i)) (seq 0 len)), s)
  | None =>
      do! t := bus_access (plain_txn TLM_READ_COMMAND addr (replicate len 0)) in
      sm_ret (if decide (response t = TLM_OK_RESPONSE) then Some (data t) else None)
  end.

(** Copy to host memory. *)
Fixpoint host_copy (p : Z) (l : list Z) (w : W) : W :=
  match l with
  | [] => w
  | v :: l' => host_copy (p + 1) l' (bus_hwrite bus w p v)
  end.

(** [dma_write]. *)
Definition dma_write (addr : Z) (bytes : list Z) : M bool :=
  do! r := dma_region addr (Z.of_nat (length bytes)) true in
  match r with
  | Some r => fun s => Ret (true, (s.1, host_copy (dr_ptr r + (addr - dr_start r)) bytes s.2))
  | None =>
      do! t := bus_access (plain_txn TLM_WRITE_COMMAND addr bytes) in
      sm_ret (bool_decide (response t = TLM_OK_RESPONSE))
  end.

(** ** Global errors and interrupts *)

(** [set_gerror]; [update] is [update_irq_levels]. *)
Definition set_gerror_with (update : M unit) (b : Z) : M unit :=
  do! err := rget GERROR in
  do! ack := rget GERRORN in
  if bit (Z.lxor err ack) b then sm_ret tt
  else rset GERROR (Z.lxor err (Z.shiftl 1 b)) ;;! update.

(** [emit_msi]. *)
Definition emit_msi_with (update : M unit) (cfg0_lo cfg0_hi data abort_bit : Z) : M unit :=
  let addr := Z.lor (Z.shiftl cfg0_hi 32) cfg0_lo in
  if addr =? 0 then sm_ret tt
  else
    do! ok := dma_write addr (store_le 4 data) in
    sm_when (negb ok) (set_gerror_with update abort_bit).

(** [drive_irq_level]: the line changes only with the level. *)
Definition drive_irq_level (line : irq_line) (last new_level : bool) : M unit :=
  if Bool.eqb last new_level then sm_ret tt
  else sm_when (irq_bound cfg line) (output (OIrq line new_level)).

Definition trigger_irq (line : irq_line) : M unit :=
  sm_when (irq_bound cfg line) (output (OIrq line true) ;;! output (OIrq line false)).

(** A line's message is sent when its condition becomes true while it is enabled. *)
Definition msi_if (cond : bool) (update : M unit) (lo hi dat abort_bit : Z) : M unit :=
  if cond then
    do! l := rget lo in do! h := rget hi in do! d := rget dat in emit_msi_with update l h d abort_bit
  else sm_ret tt.

(** [update_irq_levels].  A message that cannot be delivered sets a global error, which
    updates the levels again; each such turn sets a bit that was clear, so the
    recursion is at most as deep as there are bits. *)
Fixpoint update_irq_levels (fuel : nat) : M unit :=
  match fuel with
  | O => sm_fail StopUndef
  | S fuel' =>
      let update := update_irq_levels fuel' in
      do! ge := rget GERROR in do! gn := rget GERRORN in
      do! ep := rget EVENTQ_PROD in do! ec := rget EVENTQ_CONS in
      do! pp := rget PRIQ_PROD in do! pc := rget PRIQ_CONS in
      do! gen := fget IRQ_CTRL_GERROR_IRQEN in
      do! een := fget IRQ_CTRL_EVENTQ_IRQEN in
      do! pen := fget IRQ_CTRL_PRI_IRQEN in
      let gerror_pending := negb (Z.lxor ge gn =? 0) in
      let eventq_pending := negb (ep =? ec) in
      let priq_pending := negb (pp =? pc) in
      do! s := s_get in
      msi_if (gerror_pending && negb (prev_gerror (s_irq s)) && negb (gen =? 0)) update
        GERROR_IRQ_CFG0_LO GERROR_IRQ_CFG0_HI GERROR_IRQ_CFG2 GERROR_BIT_MSI_GERROR_ABT ;;!
      do! s := s_get in
      do! een2 := fget IRQ_CTRL_EVENTQ_IRQEN in
      msi_if (eventq_pending && negb (prev_eventq (s_irq s)) && negb (een2 =? 0)) update
        EVENTQ_IRQ_CFG0_LO EVENTQ_IRQ_CFG0_HI EVENTQ_IRQ_CFG2 GERROR_BIT_MSI_EVENTQ_ABT ;;!
      do! s := s_get in
      do! pen2 := fget IRQ_CTRL_PRI_IRQEN in
      msi_if (priq_pending && negb (prev_priq (s_irq s)) && negb (pen2 =? 0)) update
        PRIQ_IRQ_CFG0_LO PRIQ_IRQ_CFG0_HI PRIQ_IRQ_CFG2 GERROR_BIT_MSI_PRIQ_ABT ;;!
      do! s := s_get in
      let i := s_irq s in
      let gerror_irq_ := gerror_pending && negb (gen =? 0) in
      let eventq_irq_ := eventq_pending && negb (een =? 0) in
      let priq_irq_ := priq_pending && negb (pen =? 0) in
      s_mod (set_irq (mk_irq_flags gerror_pending eventq_pending priq_pending (prev_s_gerror i) (prev_s_eventq i)
        gerror_irq_ eventq_irq_ priq_irq_ (last_s_gerror i) (last_s_eventq i))) ;;!
      drive_irq_level irq_gerror (last_gerror i) gerror_irq_ ;;!
      drive_irq_level irq_eventq (last_eventq i) eventq_irq_ ;;!
      drive_irq_level irq_priq (last_priq i) priq_irq_
  end.

(** 32 bits of GERROR. *)
Definition irq_fuel : nat := 33.

Definition update_irqs : M unit := update_irq_levels irq_fuel.
Definition set_gerror (b : Z) : M unit := set_gerror_with update_irqs b.
Definition emit_msi (lo hi data abort_bit : Z) : M unit := emit_msi_with update_irqs lo hi data abort_bit.

(** [set_cmdq_err]. *)
Definition set_cmdq_err (cerror : Z) : M unit :=
  fset CMDQ_CONS_ERR cerror ;;! set_gerror GERROR_BIT_CMDQ_ERR.

(** [update_secure_irq_levels]: an undeliverable message is a non-secure global error. *)
Definition update_secure_irq_levels : M unit :=
  do! ge := rget S_GERROR in do! gn := rget S_GERRORN in
  do! ep := rget S_EVENTQ_PROD in do! ec := rget S_EVENTQ_CONS in
  do! gen := fget S_IRQ_CTRL_GERROR_IRQEN in
  do! een := fget S_IRQ_CTRL_EVENTQ_IRQEN in
  let gerror_pending := negb (Z.lxor ge gn =? 0) in
  let eventq_pending := negb (ep =? ec) in
  do! s := s_get in
  msi_if (gerror_pending && negb (prev_s_gerror (s_irq s)) && negb (gen =? 0)) update_irqs
    S_GERROR_IRQ_CFG0_LO S_GERROR_IRQ_CFG0_HI S_GERROR_IRQ_CFG2 GERROR_BIT_MSI_GERROR_ABT ;;!
  do! s := s_get in
  msi_if (eventq_pending && negb (prev_s_eventq (s_irq s)) && negb (een =? 0)) update_irqs
    S_EVENTQ_IRQ_CFG0_LO S_EVENTQ_IRQ_CFG0_HI S_EVENTQ_IRQ_CFG2 GERROR_BIT_MSI_EVENTQ_ABT ;;!
  do! s := s_get in
  let i := s_irq s in
  let gerror_irq_ := gerror_pending && negb (gen =? 0) in
  let eventq_irq_ := eventq_pending && negb (een =? 0) in
  s_mod (set_irq (mk_irq_flags (prev_gerror i) (prev_eventq i) (prev_priq i) gerror_pending eventq_pending
    (last_gerror i) (last_eventq i) (last_priq i) gerror_irq_ eventq_irq_)) ;;!
  drive_irq_level irq_s_gerror (last_s_gerror i) gerror_irq_ ;;!
  drive_irq_level irq_s_eventq (last_s_eventq i) eventq_irq_.

(** [set_secure_gerror], [set_secure_cmdq_err]. *)
Definition set_secure_gerror (b : Z) : M unit :=
  do! err := rget S_GERROR in
  do! ack := rget S_GERRORN in
  if bit (Z.lxor err ack) b then sm_ret tt
  else rset S_GERROR (Z.lxor err (Z.shiftl 1 b)) ;;! update_secure_irq_levels.

Definition set_secure_cmdq_err (cerror : Z) : M unit :=
  fset S_CMDQ_CONS_ERR cerror ;;! set_secure_gerror GERROR_BIT_CMDQ_ERR.

End Core.

(** ** Global errors and interrupts: properties *)

(** The errors that are reported and not yet acknowledged. *)
Definition active (s : smmu) : Z := Z.lxor (reg_get GERROR (s_regs s)) (reg_get GERRORN (s_regs s)).

(** What an operation on errors and interrupts leaves alone: every register but GERROR,
    the caches and the stalled transactions; no reported error is withdrawn, and only the
    errors in [may] are added. *)
Record irq_frame (may : Z -> Prop) (s s' : smmu) : Prop := {
  fr_regs : forall r, r <> GERROR -> reg_get r (s_regs s') = reg_get r (s_regs s);
  fr_ok : regs_ok (s_regs s');
  fr_kept : forall i, bit (active s) i = true -> bit (active s') i = true;
  fr_new : forall i, bit (active s') i = true -> bit (active s) i = true \/ may i;
  fr_iotlb : s_iotlb s' = s_iotlb s /\ s_iotlb_lru s' = s_iotlb_lru s;
  fr_ste : s_ste_cache s' = s_ste_cache s /\ s_ste_lru s' = s_ste_lru s;
  fr_cd : s_cd_cache s' = s_cd_cache s /\ s_cd_lru s' = s_cd_lru s;
  fr_secure : s_ste_secure s' = s_ste_secure s /\ s_cd_secure s' = s_cd_secure s;
  fr_stalled : s_stalled s' = s_stalled s /\ s_next_stag s' = s_next_stag s;
}.

(** What recording an event leaves alone: the caches and the stalled transactions. *)
Record same_caches (s s' : smmu) : Prop := {
  sc_ok : regs_ok (s_regs s');
  sc_iotlb : s_iotlb s' = s_iotlb s /\ s_iotlb_lru s' = s_iotlb_lru s;
  sc_ste : s_ste_cache s' = s_ste_cache s /\ s_ste_lru s' = s_ste_lru s;
  sc_cd : s_cd_cache s' = s_cd_cache s /\ s_cd_lru s' = s_cd_lru s;
  sc_stalled : s_stalled s' = s_stalled s /\ s_next_stag s' = s_next_stag s;
}.

Lemma irq_frame_caches may s s' : irq_frame may s s' -> same_caches s s'.
Proof. intros []. by split. Qed.

Lemma same_caches_refl s : regs_ok (s_regs s) -> same_caches s s.
Proof. intros. by split. Qed.

Lemma same_caches_trans s1 s2 s3 : same_caches s1 s2 -> same_caches s2 s3 -> same_caches s1 s3.
Proof. intros [] []. split; dest; try (split; congruence). done. Qed.

Lemma same_caches_reg r v s : regs_ok (s_regs s) -> same_caches s (set_regs (reg_set r v (s_regs s)) s).
Proof. intros. split; try done. by apply regs_ok_set. Qed.

(** The errors of messages that could not be delivered. *)
Definition msi_bit (i : Z) : Prop := i = 5 \/ i = 6 \/ i = 7.

Lemma irq_frame_refl may s : regs_ok (s_regs s) -> irq_frame may s s.
Proof. intros. by split; auto. Qed.

Lemma irq_frame_trans (may may' : Z -> Prop) s1 s2 s3 :
  irq_frame may s1 s2 -> irq_frame may' s2 s3 -> irq_frame (fun i => may i \/ may' i) s1 s3.
Proof.
  intros [] []. split; dest; try (split; congruence).
  - intros r Hr. rewrite fr_regs1 by done. auto.
  - done.
  - auto.
  - intros i Hi. apply fr_new1 in Hi as [Hi|]; [apply fr_new0 in Hi as [|]|]; auto.
Qed.

Lemma irq_frame_mono (may may' : Z -> Prop) s1 s2 :
  (forall i, may i -> may' i) -> irq_frame may s1 s2 -> irq_frame may' s1 s2.
Proof. intros H []. split; try done. intros i Hi. apply fr_new0 in Hi as [|]; auto. Qed.

(** Changes of the DMI cache, the flags and the output do not count. *)
Lemma irq_frame_regs s s' :
  regs_ok (s_regs s) -> s_regs s' = s_regs s ->
  s_iotlb s' = s_iotlb s /\ s_iotlb_lru s' = s_iotlb_lru s -> s_ste_cache s' = s_ste_cache s /\ s_ste_lru s' = s_ste_lru s ->
  s_cd_cache s' = s_cd_cache s /\ s_cd_lru s' = s_cd_lru s ->
  s_ste_secure s' = s_ste_secure s /\ s_cd_secure s' = s_cd_secure s ->
  s_stalled s' = s_stalled s /\ s_next_stag s' = s_next_stag s -> irq_frame (fun _ => False) s s'.
Proof. intros Hok E. intros. split; try done; unfold active; rewrite E; auto. Qed.

Lemma irq_frame_trans_same may s1 s2 s3 : irq_frame may s1 s2 -> irq_frame may s2 s3 -> irq_frame may s1 s3.
Proof. intros H1 H2. eapply irq_frame_mono; [|by eapply irq_frame_trans]. cbn. tauto. Qed.

(** A bus whose targets always answer. *)
Class BusTotal {W} (bus : dma_bus W) : Prop := {
  bt_transport : forall t w, exists x, bus_transport bus t w = Ret x;
  bt_dmi : forall t d w, exists x, bus_dmi bus t d w = Ret x;
}.

(** Reads of the state. *)
Lemma bind_s_get {W A} (k : smmu -> SM (smmu * W) A) s : sm_bind s_get k s = k s.1 s.
Proof. done. Qed.
Lemma bind_rget {W A} r (k : Z -> SM (smmu * W) A) s : sm_bind (rget r) k s = k (reg_get r (s_regs s.1)) s.
Proof. done. Qed.
Lemma bind_fget {W A} f (k : Z -> SM (smmu * W) A) s : sm_bind (fget f) k s = k (field_get f (s_regs s.1)) s.
Proof. done. Qed.

Ltac sm_reads := repeat (rewrite ?bind_s_get, ?bind_rget, ?bind_fget; cbv beta).

Section IrqProps.
Context {W : Type} (bus : dma_bus W) (cfg : smmu_config) `{!BusTotal bus}.

(** A memory access touches the cache of DMI regions only. *)
Definition dma_only (s s' : smmu) : Prop := exists d, s' = set_dma_dmi d s.

Lemma dma_only_refl s : dma_only s s.
Proof. exists (s_dma_dmi s). by destruct s. Qed.

Lemma dma_only_frame s s' : regs_ok (s_regs s) -> dma_only s s' -> irq_frame (fun _ => False) s s'.
Proof. intros H [d ->]. by apply irq_frame_regs. Qed.

Lemma dma_region_total a l wr s : exists r s', dma_region bus a l wr s = Ret (r, s') /\ dma_only s.1 s'.1.
Proof.
  unfold dma_region, sm_bind, s_get. cbn [fst].
  destruct (find_dma_dmi a l wr (s_dma_dmi s.1)) eqn:E; [do 2 eexists; split; [done|apply dma_only_refl]|].
  unfold grant_dma_dmi.
  destruct (bt_dmi (bus:=bus) (set_dmi_allowed true (plain_txn (if wr then TLM_WRITE_COMMAND else TLM_READ_COMMAND) a [0]))
              dmi_init s.2) as [[[[ok p] d] w] ->].
  destruct ok; cbn [negb]; [|do 2 eexists; split; [done|apply dma_only_refl]].
  destruct (negb (is_read_allowed d) && negb (is_write_allowed d)); [do 2 eexists; split; [done|apply dma_only_refl]|].
  do 2 eexists. split; [done|]. by eexists.
Qed.

Lemma dma_write_total a l s : exists ok s', dma_write bus a l s = Ret (ok, s') /\ dma_only s.1 s'.1.
Proof.
  unfold dma_write, sm_bind. destruct (dma_region_total a (Z.of_nat (length l)) true s) as (r & s1 & -> & H).
  destruct r as [r|]; [by do 2 eexists|]. unfold bus_access.
  destruct (bt_transport (bus:=bus) (plain_txn TLM_WRITE_COMMAND a l) s1.2) as [[t w] ->]. by do 2 eexists.
Qed.

Lemma dma_read_total a n s : exists b s', dma_read bus a n s = Ret (b, s') /\ dma_only s.1 s'.1.
Proof.
  unfold dma_read, sm_bind. destruct (dma_region_total a (Z.of_nat n) false s) as (r & s1 & -> & H).
  destruct r as [r|]; [by do 2 eexists|]. unfold bus_access.
  destruct (bt_transport (bus:=bus) (plain_txn TLM_READ_COMMAND a (replicate n 0)) s1.2) as [[t w] ->]. by do 2 eexists.
Qed.

(** Setting a bit of GERROR that is not active makes it active and nothing else. *)
Lemma active_set b s :
  regs_ok (s_regs s) -> 0 <= b < 32 -> bit (active s) b = false ->
  irq_frame (fun i => i = b) s (set_regs (reg_set GERROR (Z.lxor (reg_get GERROR (s_regs s)) (Z.shiftl 1 b)) (s_regs s)) s) /\
  bit (active (set_regs (reg_set GERROR (Z.lxor (reg_get GERROR (s_regs s)) (Z.shiftl 1 b)) (s_regs s)) s)) b = true.
Proof.
  intros Hok Hb Hi. set (s' := set_regs _ s).
  assert (forall i, bit (active s') i = if i =? b then true else bit (active s) i) as Hact.
  { intros i. unfold active, bit, s' in *. cbn [set_regs s_regs]. rewrite reg_get_set_eq, reg_get_set_ne by done.
    rewrite Z.lxor_spec in Hi |- *. rewrite (Z.lxor_spec _ _ i). pose proof (regs_ok_get _ GERROR Hok) as He.
    destruct (Z.ltb_spec i 0); [rewrite !Z.testbit_neg_r by done; destruct (Z.eqb_spec i b); [lia|done]|].
    unfold wrap. rewrite <- Z.land_ones, Z.land_spec, Z.lxor_spec, Z.shiftl_spec, Z.testbit_ones by lia.
    destruct (Z.eqb_spec i b) as [->|].
    - rewrite Z.sub_diag, (proj2 (Z.leb_le 0 b)), (proj2 (Z.ltb_lt b 32)) by lia. cbn.
      destruct (Z.testbit _ b), (Z.testbit _ b); done.
    - assert (Z.testbit 1 (i - b) = false) as ->.
      { destruct (Z.ltb_spec (i - b) 0); [by apply Z.testbit_neg_r|]. apply (testbit_above 1); lia. }
      rewrite xorb_false_r. destruct (Z.leb_spec 0 i); [|lia]. destruct (Z.ltb_spec i 32); cbn [andb]; [by rewrite andb_true_r|].
      by rewrite (testbit_above 32 (reg_get GERROR (s_regs s))) by (unfold in_width in He; lia). }
  split; [|by rewrite Hact, Z.eqb_refl]. split; try done.
  - intros r Hr. unfold s'. cbn [set_regs s_regs]. by rewrite reg_get_set_ne.
  - by apply regs_ok_set.
  - intros i H. rewrite Hact. by destruct (i =? b).
  - intros i. rewrite Hact. destruct (Z.eqb_spec i b); auto.
Qed.

(** The messages whose failure has not been reported. *)
Definition idle (s : smmu) : nat :=
  length (filter (fun i => Is_true (negb (bit (active s) i))) [5; 6; 7]).

Lemma idle_frame may s s' : irq_frame may s s' -> (idle s' <= idle s)%nat.
Proof.
  intros H. unfold idle. assert (forall i, Is_true (negb (bit (active s') i)) -> Is_true (negb (bit (active s) i))) as Hi.
  { intros i. pose proof (fr_kept _ _ _ H i). destruct (bit (active s) i), (bit (active s') i); cbn; try tauto. intros _. by specialize (H0 eq_refl). }
  pose proof (Hi 5). pose proof (Hi 6). pose proof (Hi 7). cbn [filter list_filter].
  repeat case_decide; cbn [length]; try lia; tauto.
Qed.

Lemma idle_set may b s s' :
  irq_frame may s s' -> msi_bit b -> bit (active s) b = false -> bit (active s') b = true -> (idle s' < idle s)%nat.
Proof.
  intros H Hb H1 H2. unfold idle. assert (forall i, Is_true (negb (bit (active s') i)) -> Is_true (negb (bit (active s) i))) as Hi.
  { intros i. pose proof (fr_kept _ _ _ H i). destruct (bit (active s) i), (bit (active s') i); cbn; try tauto. intros _. by specialize (H0 eq_refl). }
  pose proof (Hi 5). pose proof (Hi 6). pose proof (Hi 7). cbn [filter list_filter].
  destruct Hb as [-> | [-> | ->]]; rewrite H1, H2; cbn [negb];
    repeat case_decide; cbn [length]; try lia; naive_solver.
Qed.

(** [update] ends within [irq_frame] when fewer than [n] failures are unreported. *)
Definition updates (n : nat) (update : SM (smmu * W) unit) : Prop :=
  forall s, regs_ok (s_regs s.1) -> (idle s.1 < n)%nat ->
  exists s', update s = Ret (tt, s') /\ irq_frame msi_bit s.1 s'.1.

Lemma set_gerror_with_ok n update b s :
  updates n update -> regs_ok (s_regs s.1) -> 0 <= b < 32 ->
  ((idle s.1 < n)%nat \/ msi_bit b /\ (idle s.1 < S n)%nat) ->
  exists s', set_gerror_with update b s = Ret (tt, s') /\ irq_frame (fun i => i = b \/ msi_bit i) s.1 s'.1 /\
    bit (active s'.1) b = true /\ (bit (active s.1) b = true -> s' = s).
Proof.
  intros Hu Hok Hb Hn. unfold set_gerror_with, sm_bind, rget. fold (active s.1).
  destruct (bit (active s.1) b) eqn:E.
  - exists s. split_and!; try done. by apply irq_frame_refl.
  - destruct (active_set b s.1 Hok Hb E) as [H1 H2]. unfold rset, s_mod.
    set (s1 := set_regs _ s.1) in *. destruct (Hu (s1, s.2)) as (s' & He & Hf).
    + exact (fr_ok _ _ _ H1).
    + cbn [fst]. destruct Hn as [Hn|[Hm Hn]]; [pose proof (idle_frame _ _ _ H1); lia|].
      pose proof (idle_set _ b _ _ H1 Hm E H2). lia.
    + exists s'. split_and!; try done; [by eapply irq_frame_trans|]. by apply (fr_kept _ _ _ Hf).
Qed.

Lemma msi_if_ok n update c lo hi d b s :
  updates n update -> regs_ok (s_regs s.1) -> msi_bit b -> (idle s.1 < S n)%nat ->
  exists s', msi_if bus c update lo hi d b s = Ret (tt, s') /\ irq_frame msi_bit s.1 s'.1.
Proof.
  intros Hu Hok Hb Hn. unfold msi_if. destruct c; [|by exists s; split; [|apply irq_frame_refl]].
  unfold sm_bind, rget, emit_msi_with. destruct (_ =? 0); [by exists s; split; [|apply irq_frame_refl]|].
  unfold sm_bind. edestruct (dma_write_total) as (ok & s1 & -> & H1). apply dma_only_frame in H1; [|done].
  assert (irq_frame msi_bit s.1 s1.1) as H1' by (by eapply irq_frame_mono; [|exact H1]).
  destruct ok; cbn [negb sm_when]; [by exists s1|].
  destruct (set_gerror_with_ok n update b s1 Hu) as (s2 & -> & H2 & _).
  - exact (fr_ok _ _ _ H1).
  - unfold msi_bit in Hb. lia.
  - right. pose proof (idle_frame _ _ _ H1). split; [done|lia].
  - exists s2. split; [done|]. eapply irq_frame_trans_same; [exact H1'|]. eapply irq_frame_mono; [|exact H2].
    cbn. intros i [-> | ?]; done.
Qed.

Lemma drive_irq_level_ok line l n s :
  regs_ok (s_regs s.1) -> exists s', drive_irq_level (W:=W) cfg line l n s = Ret (tt, s') /\ irq_frame msi_bit s.1 s'.1.
Proof.
  intros Hok. unfold drive_irq_level, sm_when, sm_ret, output, s_mod.
  destruct (Bool.eqb l n), (irq_bound cfg line);
    (eexists; split; [done|]; eapply irq_frame_mono; [|by apply irq_frame_regs]; done).
Qed.

(** One step of a sequence of operations, each within the frame. *)
Lemma frame_seq {A} (m : SM (smmu * W) unit) (k : SM (smmu * W) A) s0 s (P : A * (smmu * W) -> Prop) :
  irq_frame msi_bit s0 s.1 ->
  (regs_ok (s_regs s.1) -> exists s', m s = Ret (tt, s') /\ irq_frame msi_bit s.1 s'.1) ->
  (forall s', irq_frame msi_bit s0 s'.1 -> exists x, k s' = Ret x /\ P x) ->
  exists x, sm_bind m (fun _ => k) s = Ret x /\ P x.
Proof.
  intros H0 Hm Hk. destruct (Hm (fr_ok _ _ _ H0)) as (s' & E & H). unfold sm_bind. rewrite E.
  apply Hk. by eapply irq_frame_trans_same.
Qed.


Lemma update_irq_levels_ok n : updates n (update_irq_levels bus cfg n).
Proof.
  induction n as [|n IH]; intros s Hok Hn; [lia|]. cbn [update_irq_levels].
  assert (irq_frame msi_bit s.1 s.1) as H0 by by apply irq_frame_refl.
  assert (forall s' : smmu * W, irq_frame msi_bit s.1 s'.1 -> (idle s'.1 < S n)%nat) as Hidle.
  { intros s' H. pose proof (idle_frame _ _ _ H). lia. }
  enough (exists x, update_irq_levels bus cfg (S n) s = Ret x /\ irq_frame msi_bit s.1 x.2.1) as ([[] s'] & ? & ?)
    by by exists s'.
  cbn [update_irq_levels].
  sm_reads.
  eapply frame_seq; [done|intros; apply (msi_if_ok n); auto; by right; right|]. intros s1 H1.
  sm_reads.
  eapply frame_seq; [done|intros; apply (msi_if_ok n); auto; by left|]. intros s2 H2.
  sm_reads.
  eapply frame_seq; [done|intros; apply (msi_if_ok n); auto; by right; left|]. intros s3 H3.
  sm_reads.
  eapply frame_seq; [done| |].
  { intros Hok3. eexists. split; [done|]. eapply irq_frame_mono; [|by apply irq_frame_regs]. done. }
  intros s4 H4. eapply frame_seq; [done|by apply drive_irq_level_ok|].
  intros s5 H5. eapply frame_seq; [done|by apply drive_irq_level_ok|].
  intros s6 H6. destruct (drive_irq_level_ok irq_priq (last_priq (s_irq s3.1))
    (negb (reg_get PRIQ_PROD (s_regs s.1) =? reg_get PRIQ_CONS (s_regs s.1)) &&
     negb (field_get IRQ_CTRL_PRI_IRQEN (s_regs s.1) =? 0)) s6 (fr_ok _ _ _ H6)) as (s7 & E & H7).
  exists (tt, s7). split; [exact E|]. by eapply irq_frame_trans_same.
Qed.

Lemma idle_bound s : (idle s <= 3)%nat.
Proof. unfold idle. etransitivity; [apply length_filter|]. done. Qed.

Lemma update_irqs_ok s :
  regs_ok (s_regs s.1) -> exists s', update_irqs bus cfg s = Ret (tt, s') /\ irq_frame msi_bit s.1 s'.1.
Proof.
  intros Hok. apply (update_irq_levels_ok irq_fuel); [done|]. pose proof (idle_bound s.1). unfold irq_fuel. lia.
Qed.

Lemma set_gerror_ok b s :
  regs_ok (s_regs s.1) -> 0 <= b < 32 ->
  exists s', set_gerror bus cfg b s = Ret (tt, s') /\ irq_frame (fun i => i = b \/ msi_bit i) s.1 s'.1 /\
    bit (active s'.1) b = true /\ (bit (active s.1) b = true -> s' = s).
Proof.
  intros Hok Hb. apply (set_gerror_with_ok irq_fuel); [apply update_irq_levels_ok|done|done|].
  left. pose proof (idle_bound s.1). unfold irq_fuel. lia.
Qed.

End IrqProps.

(** ** A memory behind the bus *)

(** Bytes by address, zero where nothing was written; no DMI. *)
Abbreviation memory := (gmap Z Z).

Definition mem_read (m : memory) (a : Z) (n : nat) : list Z := map (fun i => default 0 (m !! (a + Z.of_nat i))) (seq 0 n).

Fixpoint mem_write (m : memory) (a : Z) (l : list Z) : memory :=
  match l with
  | [] => m
  | v :: l' => mem_write (<[a := v]> m) (a + 1) l'
  end.

(** Addresses from [limit] on answer with an address error. *)
Definition mem_transport (limit : Z) (t : payload) (m : memory) : res (payload * memory) :=
  Ret (if limit <=? address t then (set_response_status TLM_ADDRESS_ERROR_RESPONSE t, m)
       else match command t with
            | TLM_READ_COMMAND =>
                (set_response_status TLM_OK_RESPONSE (set_data (mem_read m (address t) (length (data t))) t), m)
            | TLM_WRITE_COMMAND => (set_response_status TLM_OK_RESPONSE t, mem_write m (address t) (data t))
            | TLM_IGNORE_COMMAND => (set_response_status TLM_OK_RESPONSE t, m)
            end).

Definition mem_bus (limit : Z) : dma_bus memory :=
  mk_bus (fun _ _ => 0) (fun m _ _ => m) (mem_transport limit) (fun t d m => Ret (false, t, d, m)).

#[global] Instance mem_bus_total limit : BusTotal (mem_bus limit).
Proof. split; intros; by eexists. Qed.

Definition smmu_init : smmu :=
  mk_smmu ∅ [] [] ∅ [] ∅ [] ∅ ∅ ∅ 1 [] (mk_irq_flags false false false false false false false false false false) [].

Definition ex_cfg : smmu_config := mk_smmu_config 48 16 true 256 0 1 (fun _ => true).

(** ** Properties *)

(** The global error protocol: reporting an error ends, leaves the error active until
    the driver acknowledges it, withdraws no other error and adds none but those of
    interrupt messages that could not be delivered; it changes no other register, no
    cached translation or configuration and no stalled transaction.  An error that is
    active already changes nothing. *)
Theorem set_gerror_protocol {W} (bus : dma_bus W) cfg (Hbus : BusTotal bus) b s :
  regs_ok (s_regs s.1) -> 0 <= b < 32 ->
  exists s', set_gerror bus cfg b s = Ret (tt, s') /\ bit (active s'.1) b = true /\
    irq_frame (fun i => i = b \/ msi_bit i) s.1 s'.1 /\ (bit (active s.1) b = true -> s' = s).
Proof. intros Hok Hb. destruct (set_gerror_ok bus cfg b s Hok Hb) as (s' & ? & ? & ? & ?). by exists s'. Qed.

(** A command queue error while the message of the error cannot be delivered. *)
Definition ex_irq_state : smmu * memory :=
  (set_regs (reg_set IRQ_CTRL 1 (reg_set GERROR_IRQ_CFG0_LO 0x9000 ∅)) smmu_init, ∅).

Lemma set_gerror_protocol_witness :
  exists s', set_gerror (mem_bus 0x8000) ex_cfg GERROR_BIT_CMDQ_ERR ex_irq_state = Ret (tt, s') /\
    bit (active s'.1) GERROR_BIT_CMDQ_ERR = true.
Proof.
  destruct (set_gerror_protocol (mem_bus 0x8000) ex_cfg (mem_bus_total 0x8000) GERROR_BIT_CMDQ_ERR ex_irq_state)
    as (s' & H1 & H2 & _).
  - intros r v. cbn -[reg_set]. intros H. eapply regs_ok_set in H; [exact H|]. apply regs_ok_set. by intros ?? ?.
  - unfold GERROR_BIT_CMDQ_ERR. lia.
  - exists s'. split; [exact H1|exact H2].
Defined.

(** Both the error and the undelivered message are reported, and the line is raised. *)
Example gerror_undelivered :
  match set_gerror (mem_bus 0x8000) ex_cfg GERROR_BIT_CMDQ_ERR ex_irq_state with
  | Ret (_, (s, _)) => active s = 0x81 /\ s_out s = [OIrq irq_gerror true]
  | Err _ => False
  end.
Proof. vm_compute. auto. Qed.

