(* ===== verification/SmmuWalk.v ===== *)
(** * SMMUv3: table lookups and page table walks

    [find_ste], [read_cd] and [smmuv3_ptw64] of [smmuv3.h]. *)

From stdpp Require Import base list numbers option gmap.
From S2P Require Import Prelude Monad Registers Tlm SmmuRegs Smmu.

(** [~m] for a 64-bit mask. *)
Definition andnot (x m : Z) : Z := Z.ldiff x m.

(** [extract64 (addr, outputsize, PA_BITS - outputsize) == 0]. *)
Definition check_out_addr (addr outputsize : Z) : bool :=
  if PA_BITS <=? outputsize then true
  else extract addr outputsize (PA_BITS - outputsize) =? 0.

Definition check_s2_startlevel (pamax_val level inputsize stride : Z) : bool :=
  if level <? 0 then false
  else if stride =? 13 then negb ((level =? 0) || ((level =? 1) && (pamax_val <=? 42)))
  else if stride =? 11 then negb ((level =? 0) || ((level =? 1) && (pamax_val <=? 40)))
  else if stride =? 9 then negb ((level =? 0) && (pamax_val <=? 42))
  else false.

(** [PtwCtx]. *)
Record PtwCtx : Type := mk_ctx {
  px_ttb0 : Z; px_ttb1 : Z;
  px_tsz0 : Z; px_tsz1 : Z;
  px_tg0 : Z; px_tg1 : Z;
  px_ips : Z;
  px_sl0 : Z;
  px_epd0 : bool; px_epd1 : bool;
  px_stage : Z;
  px_iova : Z;
  px_access : access_flags;
  px_s2_enabled : bool;
  px_ste : option STE;
  px_affd : bool;
  px_ha : bool;
  px_hd : bool;
}.

(** What a walk leaves in [TransReq]: the event and level of a fault, or the result. *)
Record walk : Type := mk_walk {
  wk_pa : Z;
  wk_prot : access_flags;
  wk_page_size : Z;
  wk_tableattrs : Z;
  wk_descriptor : Z;
}.

Inductive walk_result : Type :=
| WFault (event level : Z)
| WOk (w : walk).

(** ** Decoding *)

(** The fields of a stream table entry from its first four doublewords. *)
Definition decode_ste (b : list Z) : STE :=
  let dw i := load_le (take 8 (drop (8 * i) b)) in
  let dw0 := dw 0%nat in let dw1 := dw 1%nat in let dw2 := dw 2%nat in let dw3 := dw 3%nat in
  {| ste_valid := bit dw0 0;
     ste_config := extract dw0 1 3;
     ste_s1contextptr := Z.land dw0 STE_BASE_ADDR_MASK;
     ste_s2ttb := Z.land dw3 S2TTB_ADDR_MASK;
     ste_s2t0sz := extract dw2 32 6;
     ste_s2sl0 := extract dw2 38 2;
     ste_s2tg := extract dw2 46 2;
     ste_s2ps := extract dw2 48 3;
     ste_s1fmt := extract dw0 4 2;
     ste_s1stalld := bit dw1 27;
     ste_s1cdmax := extract dw0 59 5;
     ste_vmid := extract dw2 0 16;
     ste_s2affd := bit dw2 60;
     ste_s2hd := bit dw2 56;
     ste_eats := negb (extract dw1 28 2 =? 0);
     ste_strw := extract dw1 30 2 |}.

(** The fields of a context descriptor from its first six words. *)
Definition decode_cd (b : list Z) : CD :=
  let w i := load_le (take 4 (drop (4 * i) b)) in
  let w0 := w 0%nat in let w1 := w 1%nat in
  let ttb lo hi := Z.lor (Z.shiftl (Z.land hi 0xFFFFF) 32) (Z.land lo 0xFFFFFFF0) in
  {| cd_valid := bit w0 31;
     cd_aarch64 := bit w1 9;
     cd_ttb0 := ttb (w 2%nat) (w 3%nat); cd_ttb1 := ttb (w 4%nat) (w 5%nat);
     cd_tsz0 := Z.land w0 0x3F; cd_tsz1 := extract w0 16 6;
     cd_tg0 := extract w0 6 2; cd_tg1 := extract w0 22 2;
     cd_ips := Z.land w1 0x7;
     cd_asid := extract w1 16 16;
     cd_epd0 := bit w0 14; cd_epd1 := bit w0 30;
     cd_affd := bit w1 3;
     cd_ha := bit w1 11;
     cd_hd := bit w1 10 |}.

(** The cached decoded entries: at most [n], the oldest leaves first. *)
Definition cache_put {V} (n : nat) (key : Z) (v : V) (c : gmap Z V) (lru : list Z) : gmap Z V * list Z :=
  let '(c, lru) :=
    if (n <=? size c)%nat then
      match list.last lru with
      | Some victim => (delete victim c, removelast lru)
      | None => (c, lru)
      end
    else (c, lru) in
  (<[key := v]> c, key :: lru).

Definition CACHE_MAX : nat := 1024.

Section Walk.
Context {W : Type} (bus : dma_bus W) (cfg : smmu_config).
Abbreviation M := (SM (smmu * W)).

(** Read a table entry; a bus error is a stream fault. *)
Definition table_read (addr : Z) (len : nat) : M (option (list Z)) :=
  do! b := dma_read bus addr len in
  match b with
  | Some l => sm_ret (Some l)
  | None => set_gerror bus cfg GERROR_BIT_SFM_ERR ;;! sm_ret None
  end.

(** The address of the entry for a stream, [None] when the tables have none. *)
Definition ste_addr (sid : Z) : M (option Z) :=
  do! hi := rget STRTAB_BASE_HI in
  do! lo := rget STRTAB_BASE_LO in
  let strtab_base := Z.land (Z.lor (Z.shiftl hi 32) lo) STE_BASE_ADDR_MASK in
  do! fmt := fget STRTAB_BASE_CFG_FMT in
  do! l2 := fget STRTAB_BASE_CFG_LOG2SIZE in
  let log2size := if 31 <? l2 then 31 else l2 in
  if fmt =? 0 then
    if Z.shiftl 1 log2size <=? sid then sm_ret None
    else sm_ret (Some (u64 (strtab_base + sid * SMMUV3_STE_SIZE)))
  else
    do! split := fget STRTAB_BASE_CFG_SPLIT in
    let l1_idx := Z.shiftr sid split in
    let l2_idx := Z.land sid (Z.ones split) in
    if Z.shiftl 1 log2size <=? l1_idx then sm_ret None
    else
      do! b := table_read (u64 (strtab_base + l1_idx * 8)) 8 in
      match b with
      | None => sm_ret None
      | Some b =>
          let l1std := load_le b in
          if negb (bit l1std 0) then sm_ret None
          else sm_ret (Some (u64 (andnot l1std 63 + l2_idx * SMMUV3_STE_SIZE)))
      end.

(** [find_ste]: the entry when it is valid. *)
Definition find_ste (sid : Z) : M (option STE) :=
  do! s := s_get in
  match s_ste_cache s !! sid with
  | Some ste => sm_ret (if ste_valid ste then Some ste else None)
  | None =>
      do! a := ste_addr sid in
      match a with
      | None => sm_ret None
      | Some a =>
          do! b := table_read a 64 in
          match b with
          | None => sm_ret None
          | Some b =>
              let ste := decode_ste b in
              s_mod (fun s => let '(c, l) := cache_put CACHE_MAX sid ste (s_ste_cache s) (s_ste_lru s) in
                              set_ste_cache c l s) ;;!
              sm_ret (if ste_valid ste then Some ste else None)
          end
      end
  end.

(** The address of a context descriptor. *)
Definition cd_addr (ste : STE) (ssid : Z) : M (option Z) :=
  if (ste_s1fmt ste =? 0) || (ste_s1cdmax ste =? 0) then
    sm_ret (Some (u64 (ste_s1contextptr ste + ssid * SMMUV3_CD_SIZE)))
  else
    let split := if ste_s1fmt ste =? 1 then 4 else 8 in
    let l1_idx := Z.shiftr ssid split in
    let l2_idx := Z.land ssid (Z.ones split) in
    do! b := table_read (u64 (ste_s1contextptr ste + l1_idx * 8)) 8 in
    match b with
    | None => sm_ret None
    | Some b =>
        let l1cd := load_le b in
        if negb (bit l1cd 0) then sm_ret None
        else sm_ret (Some (u64 (andnot l1cd 0xFFF + l2_idx * SMMUV3_CD_SIZE)))
    end.

(** [read_cd]. *)
Definition read_cd (sid : Z) (ste : STE) (ssid : Z) : M (option CD) :=
  let key := Z.lor (Z.shiftl sid 32) ssid in
  do! s := s_get in
  match s_cd_cache s !! key with
  | Some cd => sm_ret (if cd_valid cd then Some cd else None)
  | None =>
      do! a := cd_addr ste ssid in
      match a with
      | None => sm_ret None
      | Some a =>
          do! b := table_read a 64 in
          match b with
          | None => sm_ret None
          | Some b =>
              let cd := decode_cd b in
              s_mod (fun s => let '(c, l) := cache_put CACHE_MAX key cd (s_cd_cache s) (s_cd_lru s) in
                              set_cd_cache c l s) ;;!
              sm_ret (if cd_valid cd then Some cd else None)
          end
      end
  end.

(** ** The walk *)

(** The table base, size, granule and disable bit for the address. *)
Definition select_ttb (x : PtwCtx) : Z * Z * Z * bool :=
  if (px_stage x =? 1) && bit (px_iova x) 63 then
    let tg := if px_tg1 x =? 1 then CD_TG_16K else if px_tg1 x =? 2 then CD_TG_4K
              else if px_tg1 x =? 3 then CD_TG_64K else 0xFF in
    (px_ttb1 x, px_tsz1 x, tg, px_epd1 x)
  else (px_ttb0 x, px_tsz0 x, px_tg0 x, px_epd0 x).

(** Grain size, initial level and first level that may hold blocks of a granule. *)
Definition granule (tg : Z) : option (Z * Z * Z) :=
  if tg =? CD_TG_64K then Some (16, 3, 2)
  else if tg =? CD_TG_16K then Some (14, 3, 2)
  else if tg =? CD_TG_4K then Some (12, 2, 1)
  else None.

Definition start_level_s1 (level grainsize stride inputsize : Z) : Z :=
  if (grainsize <? 16) && (grainsize + 3 * stride <? inputsize) then 0
  else if grainsize + 2 * stride <? inputsize then 1
  else if grainsize + stride <? inputsize then 2
  else level.

(** The table walk from [level] at table [ttbr].  [s2] translates the address of a
    descriptor when stage 2 is in use. The result is the leaf: its level, its output
    address, its descriptor and where it was read, with the table attributes. *)
Inductive loop_result : Type :=
| LFault (event level : Z)
| LLeaf (level ttbr desc descaddr tableattrs : Z).

Definition descriptor_addr (iova level ttbr grainsize stride : Z) : Z :=
  let addrselectbottom := (3 - level) * stride + grainsize in
  let index := Z.land (Z.shiftr iova (addrselectbottom - 3)) (Z.ones grainsize) in
  Z.lor ttbr (andnot index 7).

Fixpoint walk_loop (s2 : Z -> M (option Z)) (fuel : nat) (iova level ttbr grainsize stride firstblock outputsize
    tableattrs : Z) : M loop_result :=
  match fuel with
  | O => sm_fail StopUndef
  | S fuel' =>
      do! a := s2 (descriptor_addr iova level ttbr grainsize stride) in
      match a with
      | None => sm_ret (LFault EVT_F_TRANSLATION level)
      | Some descaddr =>
          do! b := dma_read bus descaddr 8 in
          match b with
          | None => sm_ret (LFault EVT_F_WALK_EABT level)
          | Some b =>
              let desc := load_le b in
              let type := Z.land desc 3 in
              let ttbr := andnot (extract desc 0 PA_BITS) (Z.ones grainsize) in
              if level =? 3 then
                if type =? 3 then sm_ret (LLeaf level ttbr desc descaddr tableattrs)
                else sm_ret (LFault EVT_F_TRANSLATION level)
              else if (type =? 0) || (type =? 2) then sm_ret (LFault EVT_F_TRANSLATION level)
              else if type =? 1 then
                if level <? firstblock then sm_ret (LFault EVT_F_TRANSLATION level)
                else sm_ret (LLeaf level ttbr desc descaddr tableattrs)
              else
                let tableattrs := Z.lor tableattrs (extract desc 59 5) in
                if negb (check_out_addr ttbr outputsize) then sm_ret (LFault EVT_F_ADDR_SIZE level)
                else walk_loop s2 fuel' iova (level + 1) ttbr grainsize stride firstblock outputsize tableattrs
          end
      end
  end.

Definition AP1 : Z := 4.
Definition AP2 : Z := 5.
Definition AF : Z := 8.

(** The attribute bits of a leaf descriptor. *)
Definition leaf_attrs (desc : Z) : Z := Z.lor (extract desc 2 10) (Z.shiftl (extract desc 52 12) 10).

(** The access flag: set already, set by hardware, or ignored; otherwise a fault.  The
    descriptor as it is now. *)
Definition check_access_flag (x : PtwCtx) (desc descaddr : Z) : M (option Z) :=
  if bit (leaf_attrs desc) AF then sm_ret (Some desc)
  else
    let affd := if px_stage x =? 1 then px_affd x
                else match px_ste x with Some ste => ste_s2affd ste | None => false end in
    let httu_af := if px_stage x =? 1 then px_ha x
                   else (px_stage x =? 2) && match px_ste x with Some ste => ste_s2hd ste | None => false end in
    if httu_af then
      let new_desc := Z.lor desc (Z.shiftl 1 10) in
      do! ok := dma_write bus descaddr (store_le 8 new_desc) in
      if (ok : bool) then sm_ret (Some new_desc)
      else sm_ret (if affd then Some desc else None)
    else sm_ret (if affd then Some desc else None).

(** Stage 1 permissions, [attrs] with the table attributes added: [None] is a fault. *)
Definition check_s1_perm (x : PtwCtx) (attrs desc descaddr : Z) : M (option access_flags) :=
  if negb (bit attrs AP1) then sm_ret None
  else if bit attrs AP2 then
    if decide (px_access x = ACC_WO) then
      if px_hd x && bit desc 51 then
        do! ok := dma_write bus descaddr (store_le 8 (Z.clearbit desc 7)) in
        sm_ret (if (ok : bool) then Some ACC_RW else None)
      else sm_ret None
    else sm_ret (Some (acc_and ACC_RW (acc_not ACC_WO)))
  else sm_ret (Some ACC_RW).

(** Stage 2 permissions. *)
Definition check_s2_perm (x : PtwCtx) (s2attrs : Z) : option access_flags :=
  let ap := extract s2attrs AP1 2 in
  if ap =? 0 then None
  else if ap =? 1 then
    if decide (px_access x = ACC_WO) then None else Some (acc_and ACC_RW (acc_not ACC_WO))
  else if ap =? 2 then
    if decide (px_access x = ACC_RO) then None else Some (acc_and ACC_RW (acc_not ACC_RO))
  else Some ACC_RW.

(** From the leaf to the result. *)
Definition finish_walk (x : PtwCtx) (level ttbr desc descaddr tableattrs stride outputsize : Z) : M walk_result :=
  if negb (check_out_addr ttbr outputsize) then sm_ret (WFault EVT_F_ADDR_SIZE level)
  else
    let page_bits := stride * (4 - level) + 3 in
    let pa := Z.lor ttbr (Z.land (px_iova x) (Z.ones page_bits)) in
    let s2attrs := leaf_attrs desc in
    let attrs := if px_stage x =? 1
                 then Z.lor (Z.lor s2attrs (Z.shiftl (extract tableattrs 0 2) 11))
                            (Z.shiftl (extract tableattrs 3 1) AP2)
                 else s2attrs in
    do! d := check_access_flag x desc descaddr in
    match d with
    | None => sm_ret (WFault EVT_F_ACCESS level)
    | Some desc' =>
        do! p := (if px_stage x =? 1 then check_s1_perm x attrs desc' descaddr
                  else sm_ret (check_s2_perm x s2attrs)) in
        match p with
        | None => sm_ret (WFault EVT_F_PERMISSION level)
        | Some prot => sm_ret (WOk (mk_walk pa prot page_bits tableattrs desc))
        end
    end.

(** [smmuv3_ptw64], with the translation of descriptor addresses. *)
Definition ptw64_with (s2 : Z -> M (option Z)) (x : PtwCtx) : M walk_result :=
  let '(ttbr, tsz, tg, epd) := select_ttb x in
  if (epd : bool) then sm_ret (WFault EVT_F_TRANSLATION 0)
  else
    let inputsize := 64 - tsz in
    match granule tg with
    | None => sm_ret (WFault EVT_F_ADDR_SIZE 0)
    | Some (grainsize, level, firstblock) =>
        match OUTPUT_SIZE_MAP (px_ips x) with
        | None => sm_fail StopUndef
        | Some o =>
            let outputsize := if p_pamax cfg <? o then p_pamax cfg else o in
            let stride := grainsize - 3 in
            let level_ok :=
              if px_stage x =? 1 then
                if (inputsize <? 25) || (48 <? inputsize) then None
                else if negb (extract (px_iova x) inputsize (64 - inputsize) =? 0) then None
                else Some (start_level_s1 level grainsize stride inputsize)
              else
                let level := if grainsize =? 12 then 2 - px_sl0 x else 3 - px_sl0 x in
                if check_s2_startlevel outputsize level inputsize stride then Some level else None in
            match level_ok with
            | None => sm_ret (WFault EVT_F_ADDR_SIZE 0)
            | Some level =>
                let level_coverage := grainsize + (3 - level + 1) * stride in
                let concat_bits := if (px_stage x =? 2) && (level_coverage <? inputsize)
                                   then inputsize - level_coverage else 0 in
                if 4 <? concat_bits then sm_ret (WFault EVT_F_ADDR_SIZE 0)
                else
                  let baselowerbound := 3 + inputsize - ((3 - level) * stride + grainsize) in
                  if (baselowerbound <? 0) || (64 <=? baselowerbound) then sm_fail StopUndef
                  else
                    let ttbr := andnot (extract ttbr 0 PA_BITS) (Z.ones baselowerbound) in
                    let ttbr := if 0 <? concat_bits
                                then Z.lor ttbr (u64 (extract (px_iova x) level_coverage concat_bits
                                                      * Z.shiftl 1 (grainsize + stride)))
                                else ttbr in
                    if negb (check_out_addr ttbr outputsize) then sm_ret (WFault EVT_F_ADDR_SIZE 0)
                    else
                      do! r := walk_loop s2 4 (px_iova x) level ttbr grainsize stride firstblock outputsize 0 in
                      match r with
                      | LFault e l => sm_ret (WFault e l)
                      | LLeaf level ttbr desc descaddr tableattrs =>
                          finish_walk x level ttbr desc descaddr tableattrs stride outputsize
                      end
            end
        end
    end.

(** The stage 2 context for an intermediate address. *)
Definition s2_ctx (ste : STE) (ipa : Z) (access : access_flags) : PtwCtx :=
  {| px_ttb0 := ste_s2ttb ste; px_ttb1 := 0;
     px_tsz0 := ste_s2t0sz ste; px_tsz1 := 0;
     px_tg0 := ste_s2tg ste; px_tg1 := 0;
     px_ips := ste_s2ps ste; px_sl0 := ste_s2sl0 ste;
     px_epd0 := false; px_epd1 := false;
     px_stage := 2; px_iova := ipa; px_access := access; px_s2_enabled := false;
     px_ste := Some ste; px_affd := ste_s2affd ste; px_ha := false; px_hd := ste_s2hd ste |}.

(** The stage 1 context of a context descriptor. *)
Definition s1_ctx (cd : CD) (iova : Z) (access : access_flags) (s2 : option STE) : PtwCtx :=
  {| px_ttb0 := cd_ttb0 cd; px_ttb1 := cd_ttb1 cd;
     px_tsz0 := cd_tsz0 cd; px_tsz1 := cd_tsz1 cd;
     px_tg0 := cd_tg0 cd; px_tg1 := cd_tg1 cd;
     px_ips := cd_ips cd; px_sl0 := 0;
     px_epd0 := cd_epd0 cd; px_epd1 := cd_epd1 cd;
     px_stage := 1; px_iova := iova; px_access := access;
     px_s2_enabled := match s2 with Some _ => true | None => false end;
     px_ste := s2; px_affd := cd_affd cd; px_ha := cd_ha cd; px_hd := cd_hd cd |}.

(** Descriptors at untranslated addresses. *)
Definition s2_none (a : Z) : M (option Z) := sm_ret (Some a).

(** Descriptors of stage 1 tables read through stage 2. *)
Definition s2_translate (ste : STE) (a : Z) : M (option Z) :=
  do! r := ptw64_with s2_none (s2_ctx ste a ACC_RO) in
  match r with
  | WOk w => sm_ret (Some (wk_pa w))
  | WFault _ _ => sm_ret None
  end.

Definition smmuv3_ptw64 (x : PtwCtx) : M walk_result :=
  if (px_stage x =? 1) && px_s2_enabled x then
    match px_ste x with
    | Some ste => ptw64_with (s2_translate ste) x
    | None => sm_fail StopUndef
    end
  else ptw64_with s2_none x.

End Walk.

(** ** Reference translation

    The stage 1 tables as the architecture defines them: a table of level [level] holds
    [2^(g-3)] descriptors of 8 bytes, indexed by the address bits from
    [g + (3 - level) (g - 3)] on. *)

(** The first address bit that level [level] resolves. *)
Definition level_shift (g level : Z) : Z := g + (3 - level) * (g - 3).

(** The output address of a descriptor, for granule [2^g]. *)
Definition frame (g d : Z) : Z := d mod 2 ^ PA_BITS / 2 ^ g * 2 ^ g.

(** From a table to the leaf it gives for [iova]; [ro] tells whether a table descriptor on
    the way makes everything below read-only.  Output addresses have [out] bits. *)
Inductive table_walk (desc : Z -> Z) (out iova g first : Z) : Z -> Z -> Z -> Z -> bool -> Prop :=
| tw_page table d :
    d = desc (table + 8 * (iova / 2 ^ level_shift g 3 mod 2 ^ (g - 3))) -> d mod 4 = 3 -> frame g d < 2 ^ out ->
    table_walk desc out iova g first 3 table 3 d false
| tw_block level table d :
    level < 3 -> first <= level ->
    d = desc (table + 8 * (iova / 2 ^ level_shift g level mod 2 ^ (g - 3))) -> d mod 4 = 1 -> frame g d < 2 ^ out ->
    table_walk desc out iova g first level table level d false
| tw_table level table d leaf d' ro :
    level < 3 ->
    d = desc (table + 8 * (iova / 2 ^ level_shift g level mod 2 ^ (g - 3))) -> d mod 4 = 3 -> frame g d < 2 ^ out ->
    table_walk desc out iova g first (level + 1) (frame g d) leaf d' ro ->
    table_walk desc out iova g first level table leaf d' (bit d 62 || ro).

(** ** Arithmetic of the walk *)

Lemma andnot_ones x k : 0 <= k -> andnot x (Z.ones k) = x / 2 ^ k * 2 ^ k.
Proof.
  intros Hk. unfold andnot. rewrite Z.ldiff_ones_r by done. rewrite Z.shiftl_mul_pow2, Z.shiftr_div_pow2 by done. done.
Qed.

Lemma frame_spec g d : 0 <= g -> andnot (extract d 0 PA_BITS) (Z.ones g) = frame g d.
Proof.
  intros Hg. rewrite andnot_ones, extract_div by (unfold PA_BITS; lia). by rewrite Z.pow_0_r, Z.div_1_r.
Qed.

Lemma frame_range g d : 0 <= g -> 0 <= frame g d < 2 ^ PA_BITS.
Proof.
  intros Hg. unfold frame. pose proof (Z.mod_pos_bound d (2 ^ PA_BITS)) as H. unfold PA_BITS in *.
  pose proof (Z.mul_div_le (d mod 2 ^ 48) (2 ^ g)). pose proof (Z.div_pos (d mod 2 ^ 48) (2 ^ g)). lia.
Qed.

(** The check of an output address compares it with the size. *)
Lemma check_out_addr_spec a out : 0 <= a < 2 ^ PA_BITS -> 0 <= out -> check_out_addr a out = true <-> a < 2 ^ out.
Proof.
  unfold PA_BITS, check_out_addr. intros Ha Ho. destruct (Z.leb_spec PA_BITS out) as [H|H]; unfold PA_BITS in H.
  - split; [intros _|done]. assert (2 ^ 48 <= 2 ^ out) by (apply Z.pow_le_mono_r; lia). lia.
  - rewrite Z.eqb_eq, extract_div by (unfold PA_BITS; lia). rewrite Z.mod_small.
    + rewrite Z.div_small_iff by lia. lia.
    + split; [apply Z.div_pos; lia|]. apply Z.div_lt_upper_bound; [lia|]. rewrite <- Z.pow_add_r by (unfold PA_BITS; lia).
      unfold PA_BITS. replace (out + (48 - out)) with 48 by lia. lia.
Qed.

(** The index of a descriptor times its size. *)
Lemma descriptor_index iova b g :
  3 <= b -> 3 <= g ->
  andnot (Z.land (Z.shiftr iova (b - 3)) (Z.ones g)) 7 = 8 * (iova / 2 ^ b mod 2 ^ (g - 3)).
Proof.
  intros Hb Hg. change 7 with (Z.ones 3). change 8 with (2 ^ 3).
  rewrite Z.mul_comm, <- Z.shiftl_mul_pow2, <- Z.land_ones, <- Z.shiftr_div_pow2 by lia.
  unfold andnot. apply Z.bits_inj'. intros i Hi.
  rewrite Z.ldiff_spec, Z.land_spec, Z.shiftr_spec, !Z.testbit_ones, Z.shiftl_spec by lia.
  destruct (Z.leb_spec 0 i); [|lia]. destruct (Z.ltb_spec i 3).
  - rewrite (Z.testbit_neg_r _ (i - 3)) by lia. cbn. by rewrite andb_false_r.
  - rewrite Z.land_spec, Z.shiftr_spec, Z.testbit_ones by lia. cbn [negb andb]. rewrite andb_true_r.
    rewrite (proj2 (Z.leb_le 0 (i - 3))) by lia. f_equal; [f_equal; lia|]. cbn [andb].
    destruct (Z.ltb_spec i g), (Z.ltb_spec (i - 3) (g - 3)); lia || done.
Qed.

Lemma descriptor_addr_spec iova level table g k :
  3 <= g -> level <= 3 -> 3 <= k -> table mod 2 ^ k = 0 ->
  iova / 2 ^ level_shift g level mod 2 ^ (g - 3) < 2 ^ (k - 3) ->
  descriptor_addr iova level table g (g - 3) = table + 8 * (iova / 2 ^ level_shift g level mod 2 ^ (g - 3)).
Proof.
  intros Hg Hl Hk Ht Hi. unfold descriptor_addr. assert (0 <= (3 - level) * (g - 3)) by (apply Z.mul_nonneg_nonneg; lia).
  unfold level_shift in *.
  replace ((3 - level) * (g - 3) + g - 3) with (g + (3 - level) * (g - 3) - 3) by lia.
  rewrite descriptor_index by lia. apply (lor_add_aligned _ _ k); [lia|done|].
  pose proof (Z.mod_pos_bound (iova / 2 ^ (g + (3 - level) * (g - 3))) (2 ^ (g - 3))).
  replace (2 ^ k) with (8 * 2 ^ (k - 3)); [lia|]. change 8 with (2 ^ 3). rewrite <- Z.pow_add_r by lia. f_equal. lia.
Qed.

(** ** Memory behind the bus *)

(** What the walk needs of memory: a read that succeeds returns the bytes [rd] and changes
    nothing it depends on.  [inv] is the bus's own invariant. *)
Class MemBus {W} (bus : dma_bus W) (rd : W -> Z -> Z) (inv : smmu * W -> Prop) : Prop := {
  mb_read : forall a n s b s', inv s -> dma_read bus a n s = Ret (Some b, s') ->
    b = map (fun i => rd s.2 (a + Z.of_nat i)) (seq 0 n) /\ s'.2 = s.2 /\ inv s';
  mb_read_none : forall a n s s', inv s -> dma_read bus a n s = Ret (None, s') -> s'.2 = s.2 /\ inv s';
}.

Definition desc_at {W} (rd : W -> Z -> Z) (w : W) (a : Z) : Z := load_le (map (fun i => rd w (a + Z.of_nat i)) (seq 0 8)).

(** Granule exponents with the level the code starts from. *)
Definition granule_of (g level : Z) : Prop :=
  g = 16 /\ level = 3 \/ g = 14 /\ level = 3 \/ g = 12 /\ level = 2.

Section WalkProps.
Context {W : Type} (bus : dma_bus W) (cfg : smmu_config) (rd : W -> Z -> Z) (inv : smmu * W -> Prop).
Context `{!MemBus bus rd inv}.

(** A read of a table of memory [m] that the bus refuses. *)
Definition table_read_failed (m : W) : Prop :=
  exists a s s', inv s /\ s.2 = m /\ dma_read bus a 8 s = Ret (None, s').

(** Case analysis of one level: the descriptor that is read is that of the tables. *)
Lemma read_descriptor a s r s' :
  inv s -> dma_read bus a 8 s = Ret (r, s') ->
  s'.2 = s.2 /\ inv s' /\ match r with Some b => load_le b = desc_at rd s.2 a | None => table_read_failed s.2 end.
Proof.
  intros Hinv E. destruct r as [b|].
  - apply mb_read in E as (-> & ? & ?); done.
  - pose proof E as E'. apply mb_read_none in E' as [??]; [|done]. split_and!; try done. by exists a, s, s'.
Qed.

Lemma walk_loop_sound iova g first out fuel : 0 <= out -> forall level table ta s leaf tb d da ta' s' k,
  inv s -> 3 <= k <= g -> 12 <= g -> level <= 3 -> table mod 2 ^ k = 0 ->
  iova / 2 ^ level_shift g level mod 2 ^ (g - 3) < 2 ^ (k - 3) ->
  walk_loop bus s2_none fuel iova level table g (g - 3) first out ta s = Ret (LLeaf leaf tb d da ta', s') ->
  frame g d < 2 ^ out ->
  exists ro, table_walk (desc_at rd s.2) out iova g first level table leaf d ro /\ level <= leaf <= 3 /\
    s'.2 = s.2 /\ bit ta' 3 = bit ta 3 || ro.
Proof.
  intros Hout. induction fuel as [|fuel IH]; intros level table ta s leaf tb d da ta' s' k Hinv Hk Hg Hl Ht Hi; cbn [walk_loop]; [done|].
  unfold sm_bind at 1, s2_none at 1, sm_ret at 1. rewrite (descriptor_addr_spec _ _ _ _ k) by lia || done.
  set (a := table + _). unfold sm_bind at 1.
  destruct (dma_read bus a 8 s) as [[[b|] s1]|] eqn:Er; [|done..].
  apply read_descriptor in Er as (Hs1 & Hinv1 & Hd); [|done].
  set (dd := load_le b) in *. assert (Z.land dd 3 = dd mod 4) as -> by (apply (Z.land_ones dd 2); lia).
  rewrite !frame_spec by lia. cbv zeta.
  destruct (Z.eqb_spec level 3) as [->|Hl3].
  { destruct (Z.eqb_spec (dd mod 4) 3); [|done]. intros [= <- <- <- <- <- <-] ?. exists false. rewrite orb_false_r.
    split_and!; try done. by apply tw_page. }
  destruct ((dd mod 4 =? 0) || (dd mod 4 =? 2)) eqn:E02; [done|]. apply orb_false_iff in E02 as [?%Z.eqb_neq ?%Z.eqb_neq].
  destruct (Z.eqb_spec (dd mod 4) 1).
  { destruct (Z.ltb_spec level first); [done|]. intros [= <- <- <- <- <- <-] ?. exists false. rewrite orb_false_r.
    split_and!; try done; try lia. apply tw_block; try done; lia. }
  destruct (negb (check_out_addr (frame g dd) out)) eqn:Ec; [done|]. intros Hrec Hfit.
  apply negb_false_iff, check_out_addr_spec in Ec; [|apply frame_range; lia|done].
  eapply (IH _ _ _ _ _ _ _ _ _ _ g) in Hrec; try done; try lia; cycle 1.
  - unfold frame. apply Z.mod_mul. lia.
  - apply Z.mod_pos_bound. lia.
  - destruct Hrec as (ro & Hw & Hle & Hs & Hta). exists (bit dd 62 || ro). rewrite Hs1 in Hw, Hs. split_and!; try done; try lia.
    + apply (tw_table _ _ _ _ _ level table dd); try done; [lia|]. pose proof (Z.mod_pos_bound dd 4). lia.
    + rewrite Hta. unfold bit, extract. rewrite Z.lor_spec, Z.land_spec, Z.shiftr_spec, Z.testbit_ones by lia. cbn.
      by rewrite andb_true_r, orb_assoc.
Qed.

Lemma table_walk_fits desc out iova g first level table leaf d ro :
  table_walk desc out iova g first level table leaf d ro -> frame g d < 2 ^ out.
Proof. by induction 1. Qed.

(** The leaf the loop returns carries its own output address. *)
Lemma walk_loop_frame s2 iova g st first out fuel : 0 <= g -> forall level table ta s leaf tb d da ta' s',
  walk_loop bus s2 fuel iova level table g st first out ta s = Ret (LLeaf leaf tb d da ta', s') -> tb = frame g d.
Proof.
  intros Hg. induction fuel as [|fuel IH]; intros level table ta s leaf tb d da ta' s'; cbn [walk_loop]; [done|].
  intros H. apply sm_bind_Ret in H as (a & s1 & _ & H). destruct a as [a|]; [|done].
  apply sm_bind_Ret in H as (b & s3 & _ & H). destruct b as [b|]; [|done]. cbv zeta in H. rewrite !frame_spec in H by done.
  destruct (level =? 3); [destruct (_ =? 3); [by injection H as <- <- <- <- <- <-|done]|]. destruct (_ || _); [done|].
  destruct (_ =? 1); [destruct (_ <? _); [done|by injection H as <- <- <- <- <- <-]|]. destruct (negb _); [done|]. by eapply IH.
Qed.

(** Conversely the loop follows the tables, unless a read fails. *)
Lemma walk_loop_complete iova g first out level table leaf d ro mem :
  0 <= out -> 12 <= g -> table_walk (desc_at rd mem) out iova g first level table leaf d ro ->
  forall fuel ta s r s' k, s.2 = mem -> inv s -> 3 <= k <= g -> table mod 2 ^ k = 0 ->
  iova / 2 ^ level_shift g level mod 2 ^ (g - 3) < 2 ^ (k - 3) ->
  walk_loop bus s2_none fuel iova level table g (g - 3) first out ta s = Ret (r, s') ->
  (exists l, r = LFault EVT_F_WALK_EABT l) /\ table_read_failed mem \/
  exists da ta', r = LLeaf leaf (frame g d) d da ta' /\ bit ta' 3 = bit ta 3 || ro /\ s'.2 = mem.
Proof.
  intros Hout Hg Hw. assert (level <= 3) as Hl by (destruct Hw; lia).
  induction Hw as [table d Hd Hty Hfit|level table d Hlt Hfb Hd Hty Hfit|level table d leaf d' ro Hlt Hd Hty Hfit Hw IH];
    intros [|fuel] ta s r s' k Hs Hinv Hk Ht Hi; cbn [walk_loop]; try done;
    unfold sm_bind at 1, s2_none at 1, sm_ret at 1; rewrite (descriptor_addr_spec _ _ _ _ k) by lia || done;
    unfold sm_bind at 1; rewrite <- Hs in Hd;
    (destruct (dma_read bus _ 8 s) as [[b s1]|] eqn:Er; [|done]);
    apply read_descriptor in Er as (Hs1 & Hinv1 & Hb); try done;
    (destruct b as [b|]; [|intros [= <- <-]; left; split; [by eexists|by rewrite <- Hs]]);
    rewrite Hb, <- Hd; rewrite !frame_spec by lia; cbv zeta;
    assert (Z.land d 3 = d mod 4) as -> by (apply (Z.land_ones d 2); lia); rewrite Hty.
  - cbn [Z.eqb Pos.eqb]. intros [= <- <-]. right. do 2 eexists. split_and!; [done|by rewrite orb_false_r|congruence].
  - rewrite (proj2 (Z.eqb_neq level 3)), (proj2 (Z.ltb_ge level first)) by lia. cbn [Z.eqb Pos.eqb orb].
    intros [= <- <-]. right. do 2 eexists. split_and!; [done|by rewrite orb_false_r|congruence].
  - rewrite (proj2 (Z.eqb_neq level 3)) by lia. cbn [Z.eqb Pos.eqb orb].
    rewrite (proj2 (check_out_addr_spec (frame g d) out (frame_range g d ltac:(lia)) Hout)) by done. cbn [negb]. intros Hrec.
    eapply (IH ltac:(lia) fuel _ _ _ _ g) in Hrec; try done; try lia; try congruence.
    + destruct Hrec as [?|(da & ta' & -> & Hta & ?)]; [by left|]. right. exists da, ta'. split_and!; [done| |done].
      rewrite Hta. unfold bit, extract. rewrite Z.lor_spec, Z.land_spec, Z.shiftr_spec, Z.testbit_ones by lia. cbn.
      by rewrite andb_true_r, orb_assoc.
    + unfold frame. apply Z.mod_mul. lia.
    + apply Z.mod_pos_bound. lia.
Qed.

(** ** The leaf *)

Lemma leaf_attrs_bit d i : 0 <= i < 10 -> bit (leaf_attrs d) i = bit d (i + 2).
Proof.
  intros Hi. unfold bit, leaf_attrs, extract. rewrite Z.lor_spec, Z.land_spec, Z.shiftr_spec, Z.shiftl_spec, Z.testbit_ones by lia.
  rewrite (Z.testbit_neg_r _ (i - 10)), orb_false_r by lia.
  by rewrite (proj2 (Z.leb_le 0 i)), (proj2 (Z.ltb_lt i 10)), andb_true_r by lia.
Qed.

(** Attributes of a stage 1 leaf with those of the tables above it. *)
Definition s1_attrs (d ta : Z) : Z :=
  Z.lor (Z.lor (leaf_attrs d) (Z.shiftl (extract ta 0 2) 11)) (Z.shiftl (extract ta 3 1) AP2).

Lemma s1_attrs_ap1 d ta : bit (s1_attrs d ta) AP1 = bit d 6.
Proof.
  unfold s1_attrs, AP1, AP2. unfold bit at 1. rewrite !Z.lor_spec, !Z.shiftl_spec by lia. cbn [Z.sub Z.add Z.opp Z.pos_sub].
  change (Z.testbit (extract ta 0 2) (-7)) with false. change (Z.testbit (extract ta 3 1) (-1)) with false.
  rewrite !orb_false_r. by apply (leaf_attrs_bit d 4).
Qed.

Lemma s1_attrs_ap2 d ta : bit (s1_attrs d ta) AP2 = bit d 7 || bit ta 3.
Proof.
  unfold s1_attrs, AP2. unfold bit at 1. rewrite !Z.lor_spec, !Z.shiftl_spec by lia. cbn [Z.sub Z.add Z.opp Z.pos_sub].
  change (Z.testbit (extract ta 0 2) (-6)) with false. rewrite orb_false_r. f_equal.
  - by apply (leaf_attrs_bit d 5).
  - unfold extract, bit. rewrite Z.land_spec, Z.shiftr_spec by lia. by rewrite andb_true_r.
Qed.

(** What a stage 1 leaf [d] must allow for a walk to end with the permission [prot]. *)
Definition s1_granted (x : PtwCtx) (d : Z) (ro : bool) (prot : access_flags) : Prop :=
  bit d 6 = true /\ (bit d 10 = true \/ px_affd x = true \/ px_ha x = true) /\
  (px_access x = ACC_WO -> acc_writes prot = true) /\ (px_access x = ACC_RO -> acc_reads prot = true) /\
  (acc_writes prot = true ->
   bit d 7 || ro = false \/ px_access x = ACC_WO /\ px_hd x = true /\ bit d 51 = true).

Lemma check_access_flag_s1 x d da s d' s' :
  px_stage x = 1 -> check_access_flag bus x d da s = Ret (Some d', s') ->
  (bit d 10 = true \/ px_affd x = true \/ px_ha x = true) /\ bit d' 51 = bit d 51.
Proof.
  intros Hst. unfold check_access_flag, AF. rewrite Hst. rewrite (leaf_attrs_bit d 8) by lia. cbn [Z.eqb Pos.eqb].
  change (8 + 2) with 10. destruct (bit d 10) eqn:E; [intros [= <- <-]; auto|].
  destruct (px_ha x) eqn:Eh.
  - unfold sm_bind. destruct (dma_write _ _ _ s) as [[[] s1]|]; [| |done].
    + intros [= <- <-]. split; [auto|]. unfold bit. by rewrite Z.lor_spec, orb_false_r.
    + destruct (px_affd x) eqn:Ea; [|done]. intros [= <- <-]. auto.
  - destruct (px_affd x) eqn:Ea; [|done]. intros [= <- <-]. auto.
Qed.

Lemma check_s1_perm_sound x d ta d' da s prot s' :
  bit d' 51 = bit d 51 -> check_s1_perm bus x (s1_attrs d ta) d' da s = Ret (Some prot, s') ->
  bit d 6 = true /\ (px_access x = ACC_WO -> acc_writes prot = true) /\ (px_access x = ACC_RO -> acc_reads prot = true) /\
  (acc_writes prot = true ->
   bit d 7 || bit ta 3 = false \/ px_access x = ACC_WO /\ px_hd x = true /\ bit d 51 = true).
Proof.
  intros Hd. unfold check_s1_perm. rewrite s1_attrs_ap1, s1_attrs_ap2. destruct (bit d 6); cbn [negb]; [|done].
  destruct (bit d 7 || bit ta 3).
  - case_decide as Ha.
    + rewrite Hd. destruct (px_hd x && bit d 51) eqn:E; [|done]. apply andb_true_iff in E as [??].
      unfold sm_bind. destruct (dma_write _ _ _ s) as [[[] s1]|]; [|done..]. intros [= <- <-]. auto 10.
    + intros [= <- <-]. cbn. split_and!; done.
  - intros [= <- <-]. cbn. auto.
Qed.

Lemma finish_walk_sound x g level tb d da ta out s w s' :
  px_stage x = 1 -> 12 <= g -> level <= 3 ->
  finish_walk bus x level tb d da ta (g - 3) out s = Ret (WOk w, s') ->
  check_out_addr tb out = true /\
  wk_pa w = Z.lor tb (px_iova x mod 2 ^ wk_page_size w) /\ wk_page_size w = level_shift g level /\
  wk_descriptor w = d /\ s1_granted x d (bit ta 3) (wk_prot w).
Proof.
  intros Hst Hg Hl. unfold finish_walk. destruct (check_out_addr tb out); cbn [negb]; [|done].
  rewrite Hst. cbn [Z.eqb Pos.eqb]. fold (s1_attrs d ta). unfold sm_bind at 1.
  destruct (check_access_flag bus x d da s) as [[[d'|] s1]|] eqn:Eaf; [|done..].
  apply check_access_flag_s1 in Eaf as [Haf Hdbm]; [|done]. unfold sm_bind.
  destruct (check_s1_perm bus x _ d' da s1) as [[[prot|] s2]|] eqn:Ep; [|done..].
  apply check_s1_perm_sound in Ep as (H1 & H2 & H3 & H4); [|done]. intros [= <- <-].
  assert ((g - 3) * (4 - level) + 3 = level_shift g level) as Hpb by (unfold level_shift; lia). cbn [wk_pa wk_page_size wk_descriptor wk_prot].
  assert (0 <= level_shift g level) by (unfold level_shift; pose proof (Z.mul_nonneg_nonneg (3 - level) (g - 3)); lia).
  rewrite Hpb, Z.land_ones by done. by repeat split.
Qed.

(** Conversely, a leaf that allows the access is accepted, if the descriptor can be updated
    where the context asks the hardware to do so. *)
Lemma finish_walk_complete x level tb d da ta st out s r s' prot :
  px_stage x = 1 -> check_out_addr tb out = true -> s1_granted x d (bit ta 3) prot ->
  (px_ha x || px_hd x = true -> forall a l s r s', dma_write bus a l s = Ret (r, s') -> r = true) ->
  finish_walk bus x level tb d da ta st out s = Ret (r, s') -> exists w, r = WOk w.
Proof.
  intros Hst Hout (H6 & Haf & Hwo & Hro & Hrw) Hwr. unfold finish_walk. rewrite Hout, Hst. cbn [negb Z.eqb Pos.eqb].
  fold (s1_attrs d ta). intros H. apply sm_bind_Ret in H as (d' & s1 & Ed & H).
  assert (exists dd, d' = Some dd /\ bit dd 51 = bit d 51) as (dd & -> & Hdd).
  { revert Ed. unfold check_access_flag, AF. rewrite Hst, (leaf_attrs_bit d 8) by lia. cbn [Z.eqb Pos.eqb].
    change (8 + 2) with 10. destruct (bit d 10); [intros [= <- <-]; eauto|]. destruct (px_ha x).
    - intros E. apply sm_bind_Ret in E as (ok & s2 & Ew & E). apply Hwr in Ew as ->; [|done]. injection E as <- <-.
      eexists. split; [done|]. unfold bit. by rewrite Z.lor_spec, orb_false_r.
    - destruct (px_affd x); [|naive_solver]. intros [= <- <-]. eauto. }
  apply sm_bind_Ret in H as (p & s2 & Ep & H). assert (exists pr, p = Some pr) as [pr ->].
  { revert Ep. unfold check_s1_perm. rewrite s1_attrs_ap1, s1_attrs_ap2, H6. cbn [negb].
    destruct (bit d 7 || bit ta 3); [|intros [= <- <-]; eauto]. case_decide as Ha; [|intros [= <- <-]; eauto].
    destruct (Hrw (Hwo Ha)) as [?|(_ & Hhd & Hb)]; [done|]. rewrite Hhd, Hdd, Hb. cbn [andb]. intros E.
    apply sm_bind_Ret in E as (ok & s3 & Ew & E). apply Hwr in Ew as ->; [|by rewrite Hhd, orb_true_r].
    injection E as <- <-. eauto. }
  injection H as <- <-. eauto.
Qed.

Lemma select_ttb_tsz x ttb tsz tg epd :
  select_ttb x = (ttb, tsz, tg, epd) -> 0 <= px_tsz0 x -> 0 <= px_tsz1 x -> 0 <= tsz.
Proof. unfold select_ttb. destruct (_ && _); congruence. Qed.

(** The start of a stage 1 walk. *)
Lemma s1_start x tsz g level0 start :
  px_stage x = 1 -> 0 <= tsz -> granule_of g level0 -> 25 <= 64 - tsz <= 48 ->
  start_level_s1 level0 g (g - 3) (64 - tsz) = start ->
  0 <= start <= 3 /\ level_shift g start < 64 - tsz <= level_shift g (start - 1).
Proof.
  intros Hst Htsz Hg Hr <-. unfold start_level_s1, level_shift.
  destruct Hg as [[-> ->]|[[-> ->]|[-> ->]]]; cbn [Z.ltb Z.compare Pos.compare Pos.compare_cont andb];
    repeat match goal with |- context [?a <? ?b] => destruct (Z.ltb_spec a b) end; lia.
Qed.

(** Bits of an output address: what the context and the implementation allow. *)
Definition output_size (x : PtwCtx) : Z := Z.min (p_pamax cfg) (default 0 (OUTPUT_SIZE_MAP (px_ips x))).

(** [w] is a translation of [x] through the tables in memory [mem] that start at [ttb], for a space
    of [2 ^ (64 - tsz)] bytes: the space is enabled and has a legal size, and the tables lead from its
    base to a leaf that allows the access. *)
Definition translation_from (mem : Z -> Z) (x : PtwCtx) (w : walk) (ttb tsz tg : Z) (epd : bool) : Prop :=
  let iova := px_iova x in
  epd = false /\ 25 <= 64 - tsz <= 48 /\ iova < 2 ^ (64 - tsz) /\
  exists g start leaf ro,
    (tg = CD_TG_4K /\ g = 12 \/ tg = CD_TG_16K /\ g = 14 \/ tg = CD_TG_64K /\ g = 16) /\
    0 <= start <= 3 /\ level_shift g start < 64 - tsz <= level_shift g (start - 1) /\
    let k := 3 + (64 - tsz) - level_shift g start in
    let base := ttb mod 2 ^ PA_BITS / 2 ^ k * 2 ^ k in
    base < 2 ^ output_size x /\
    table_walk mem (output_size x) iova g (if g =? 12 then 1 else 2) start base leaf (wk_descriptor w) ro /\
    wk_page_size w = level_shift g leaf /\
    wk_pa w = Z.lor (frame g (wk_descriptor w)) (iova mod 2 ^ wk_page_size w) /\
    s1_granted x (wk_descriptor w) ro (wk_prot w).

(** An address of the lower half of the address space is translated by TTB0, T0SZ, TG0 and EPD0 of
    the context descriptor. *)
Definition s1_translation (mem : Z -> Z) (x : PtwCtx) (w : walk) : Prop :=
  translation_from mem x w (px_ttb0 x) (px_tsz0 x) (px_tg0 x) (px_epd0 x).

Lemma select_ttb_low x : 0 <= px_iova x < 2 ^ 63 -> select_ttb x = (px_ttb0 x, px_tsz0 x, px_tg0 x, px_epd0 x).
Proof.
  intros Hi. unfold select_ttb, bit. rewrite Z.testbit_eqb, Z.div_small by lia. cbn. by rewrite andb_false_r.
Qed.

Lemma extract_zero_lt iova n : 0 <= iova < 2 ^ 64 -> 0 <= n <= 64 -> extract iova n (64 - n) = 0 -> iova < 2 ^ n.
Proof.
  intros Hi Hn. rewrite extract_div by lia. intros H.
  assert (0 <= iova / 2 ^ n) by (apply Z.div_pos; lia).
  assert (iova / 2 ^ n < 2 ^ (64 - n)).
  { apply Z.div_lt_upper_bound; [lia|]. rewrite <- Z.pow_add_r by lia. replace (n + (64 - n)) with 64 by lia. lia. }
  rewrite Z.mod_small in H by lia. apply Z.div_small_iff in H; lia.
Qed.

Lemma extract_small iova n : 0 <= iova < 2 ^ n -> 0 <= n <= 64 -> extract iova n (64 - n) = 0.
Proof. intros Hi Hn. rewrite extract_div, Z.div_small by lia. done. Qed.

(** The first index lies in the table the base was aligned to. *)
Lemma first_index iova b n g :
  0 <= iova < 2 ^ n -> 0 <= b <= n -> 0 <= g -> iova / 2 ^ b mod 2 ^ g < 2 ^ (3 + n - b - 3).
Proof.
  intros Hi Hb Hg. assert (0 <= iova / 2 ^ b) by (apply Z.div_pos; lia). apply Z.le_lt_trans with (iova / 2 ^ b).
  - apply Z.mod_le; lia.
  - apply Z.div_lt_upper_bound; [lia|]. rewrite <- Z.pow_add_r by lia. replace (b + (3 + n - b - 3)) with n by lia. lia.
Qed.

(** The walk of a space that is enabled and of legal size, from its base. *)
Lemma ptw_s1_unfold x s ttb tsz tg g :
  px_stage x = 1 -> px_s2_enabled x = false -> 0 <= px_iova x -> 0 <= px_ips x < 8 -> 0 <= p_pamax cfg ->
  select_ttb x = (ttb, tsz, tg, false) -> 0 <= tsz -> 25 <= 64 - tsz <= 48 -> px_iova x < 2 ^ (64 - tsz) ->
  (tg = CD_TG_4K /\ g = 12 \/ tg = CD_TG_16K /\ g = 14 \/ tg = CD_TG_64K /\ g = 16) ->
  exists start, let k := 3 + (64 - tsz) - level_shift g start in
    let base := ttb mod 2 ^ PA_BITS / 2 ^ k * 2 ^ k in
    0 <= start <= 3 /\ level_shift g start < 64 - tsz <= level_shift g (start - 1) /\ 3 <= k <= g /\
    base mod 2 ^ k = 0 /\ px_iova x / 2 ^ level_shift g start mod 2 ^ (g - 3) < 2 ^ (k - 3) /\
    smmuv3_ptw64 bus cfg x s =
    if bool_decide (base < 2 ^ output_size x) then
      sm_bind (walk_loop bus s2_none 4 (px_iova x) start base g (g - 3) (if g =? 12 then 1 else 2) (output_size x) 0)
        (fun r => match r with
                  | LFault e l => sm_ret (WFault e l)
                  | LLeaf level tb d da ta => finish_walk bus x level tb d da ta (g - 3) (output_size x)
                  end) s
    else Ret (WFault EVT_F_ADDR_SIZE 0, s).
Proof.
  intros Hst Hs2 Hi0 Hips Hpam Et Htsz Hr Hi Htg.
  assert (exists level0, granule tg = Some (g, level0, if g =? 12 then 1 else 2) /\ granule_of g level0) as (level0 & Eg & Hgo).
  { unfold granule_of. destruct Htg as [[-> ->]|[[-> ->]|[-> ->]]]; eexists; (split; [reflexivity|lia]). }
  assert (12 <= g) as Hg12 by lia.
  destruct (s1_start x tsz g level0 (start_level_s1 level0 g (g - 3) (64 - tsz))) as [Hsr Hs]; [done..|].
  set (start := start_level_s1 level0 g (g - 3) (64 - tsz)) in *.
  assert (0 <= level_shift g start) by (unfold level_shift; pose proof (Z.mul_nonneg_nonneg (3 - start) (g - 3)); lia).
  exists start. cbv zeta. set (k := 3 + (64 - tsz) - level_shift g start).
  assert (3 <= k <= g) as Hk by (unfold k, level_shift in *; lia).
  split; [done|]. split; [done|]. split; [done|]. split; [apply Z.mod_mul; lia|]. split; [apply first_index; lia|].
  unfold smmuv3_ptw64, ptw64_with. rewrite Hst, Hs2, Et, Eg. cbn [Z.eqb Pos.eqb andb].
  assert (exists o, OUTPUT_SIZE_MAP (px_ips x) = Some o /\ output_size x = if p_pamax cfg <? o then p_pamax cfg else o)
    as (o & -> & <-).
  { destruct (lookup_lt_is_Some_2 [32; 36; 40; 42; 44; 48; 48; 48] (Z.to_nat (px_ips x))) as [o Ho]; [cbn; lia|].
    exists o. unfold output_size, OUTPUT_SIZE_MAP. rewrite Ho. cbn. split; [done|].
    destruct (Z.ltb_spec (p_pamax cfg) o); lia. }
  rewrite (proj2 (Z.ltb_ge (64 - tsz) 25)), (proj2 (Z.ltb_ge 48 (64 - tsz))) by lia. cbn [orb].
  rewrite extract_small by lia. cbn [Z.eqb negb]. fold start. cbn [Z.ltb Z.compare].
  replace (3 + (64 - tsz) - ((3 - start) * (g - 3) + g)) with k by (unfold k, level_shift; lia).
  rewrite (proj2 (Z.ltb_ge k 0)), (proj2 (Z.leb_gt 64 k)) by lia. cbn [orb].
  rewrite andnot_ones, extract_div, Z.pow_0_r, Z.div_1_r by (unfold PA_BITS; lia).
  assert (0 <= output_size x) as Ho by (unfold output_size, OUTPUT_SIZE_MAP; destruct (_ !! _) eqn:El; cbn; [|lia];
    apply list_elem_of_lookup_2 in El; set_unfold in El; lia).
  set (base := _ / _ * _). pose proof (check_out_addr_spec base (output_size x) (frame_range k ttb ltac:(lia)) Ho) as Hc.
  destruct (check_out_addr base (output_size x)), (bool_decide_reflect (base < 2 ^ output_size x)); naive_solver.
Qed.

(** A space that is disabled, of a size the code refuses, or too small for the address. *)
Lemma ptw_s1_illegal x s :
  px_stage x = 1 -> px_s2_enabled x = false -> 0 <= px_iova x < 2 ^ 64 -> 0 <= px_tsz0 x -> 0 <= px_tsz1 x ->
  0 <= px_ips x < 8 ->
  let '(ttb, tsz, tg, epd) := select_ttb x in
  0 <= tsz /\
  (epd = false /\ 25 <= 64 - tsz <= 48 /\ px_iova x < 2 ^ (64 - tsz) /\
   (exists g, tg = CD_TG_4K /\ g = 12 \/ tg = CD_TG_16K /\ g = 14 \/ tg = CD_TG_64K /\ g = 16) \/
   exists e, smmuv3_ptw64 bus cfg x s = Ret (WFault e 0, s) /\ (e = EVT_F_TRANSLATION \/ e = EVT_F_ADDR_SIZE)).
Proof.
  intros Hst Hs2 Hi H0 H1 Hips. unfold smmuv3_ptw64, ptw64_with. rewrite Hst, Hs2. cbn [Z.eqb Pos.eqb andb].
  destruct (select_ttb x) as [[[ttb tsz] tg] epd] eqn:Et.
  assert (0 <= tsz) as Htsz by by eapply select_ttb_tsz. split; [done|].
  destruct epd; [right; eauto|]. destruct (granule tg) as [[[g l0] f]|] eqn:Eg; [|right; eauto].
  assert (exists o, OUTPUT_SIZE_MAP (px_ips x) = Some o) as [o ->].
  { unfold OUTPUT_SIZE_MAP. apply lookup_lt_is_Some_2. cbn [length]. lia. }
  cbv zeta. destruct ((64 - tsz <? 25) || (48 <? 64 - tsz)) eqn:Er; [right; eauto|].
  apply orb_false_iff in Er as [?%Z.ltb_ge ?%Z.ltb_ge].
  destruct (negb (_ =? 0)) eqn:Ex; [right; eauto|]. apply negb_false_iff, Z.eqb_eq, extract_zero_lt in Ex; [|lia..].
  left. split_and!; try done. unfold granule in Eg.
  destruct (Z.eqb_spec tg CD_TG_64K); [by eexists; right; right|]. destruct (Z.eqb_spec tg CD_TG_16K); [by eexists; right; left|].
  destruct (Z.eqb_spec tg CD_TG_4K); [by eexists; left|done].
Qed.

Lemma output_size_nonneg x : 0 <= p_pamax cfg -> 0 <= output_size x.
Proof.
  intros Hp. unfold output_size, OUTPUT_SIZE_MAP. destruct (_ !! _) eqn:El; cbn; [|lia].
  apply list_elem_of_lookup_2 in El. set_unfold in El. lia.
Qed.

(** The hypotheses of a single-stage walk of an address of the lower half. *)
Record s1_walk (x : PtwCtx) : Prop := {
  sw_stage : px_stage x = 1;
  sw_single : px_s2_enabled x = false;
  sw_iova : 0 <= px_iova x < 2 ^ 63;
  sw_tsz : 0 <= px_tsz0 x /\ 0 <= px_tsz1 x;
  sw_ips : 0 <= px_ips x < 8;
  sw_pamax : 0 <= p_pamax cfg;
}.

Lemma ptw_s1_ok x s w s' :
  inv s -> s1_walk x -> smmuv3_ptw64 bus cfg x s = Ret (WOk w, s') -> s1_translation (desc_at rd s.2) x w.
Proof.
  intros Hinv [Hst Hs2 Hi [H0 H1] Hips Hpm] E. pose proof (ptw_s1_illegal x s Hst Hs2 ltac:(lia) H0 H1 Hips) as Hleg.
  pose proof (select_ttb_low x Hi) as Et. rewrite Et in Hleg. unfold s1_translation, translation_from. revert Et Hleg.
  generalize (px_ttb0 x), (px_tsz0 x), (px_tg0 x), (px_epd0 x). intros ttb tsz tg epd Et Hleg.
  destruct Hleg as [Htsz [(-> & Hr & Hlt & g & Hg)|(e & E' & _)]]; [|by rewrite E' in E]. split_and!; try done; try lia.
  destruct (ptw_s1_unfold x s ttb tsz tg g) as (start & Hsr & Hs & Hk & Hal & Hix & Eq); try done; try lia.
  rewrite Eq in E. case_bool_decide as Hb; [|done]. apply sm_bind_Ret in E as (r & s1 & Ew & Ef).
  destruct r as [e l|leaf tb d da ta]; [done|]. pose proof (walk_loop_frame _ _ g _ _ _ _ ltac:(lia) _ _ _ _ _ _ _ _ _ _ Ew) as ->.
  pose proof Ew as Hlf. apply (walk_loop_sound (px_iova x) g) with (k := 3 + (64 - tsz) - level_shift g start) in Ew;
    try done; try lia; try by apply output_size_nonneg.
  - destruct Ew as (ro & Hw & Hle & Hs1 & Hta). apply (finish_walk_sound _ g) in Ef as (_ & Hpa & Hps & Hd & Hgr); [|done|lia|lia].
    exists g, start, leaf, ro. rewrite Hta in Hgr. change (bit 0 3 || ro) with ro in Hgr. subst d. cbv zeta. split_and!; try done; lia.
  - revert Ef. unfold finish_walk. destruct (check_out_addr (frame g d) (output_size x)) eqn:Ec; [|done]. intros _.
    apply check_out_addr_spec in Ec; [done|apply frame_range; lia|by apply output_size_nonneg].
Qed.

(** The level a walk starts from is determined by the size of the space. *)
Lemma start_unique g n s1 s2 :
  g = 12 \/ g = 14 \/ g = 16 -> level_shift g s1 < n <= level_shift g (s1 - 1) ->
  level_shift g s2 < n <= level_shift g (s2 - 1) -> s1 = s2.
Proof. unfold level_shift. intros [->|[->| ->]]; lia. Qed.

Lemma ptw_s1_complete x s w r s' :
  inv s -> s1_walk x ->
  (px_ha x || px_hd x = true -> forall a l s r s', dma_write bus a l s = Ret (r, s') -> r = true) ->
  s1_translation (desc_at rd s.2) x w -> smmuv3_ptw64 bus cfg x s = Ret (r, s') ->
  (exists l, r = WFault EVT_F_WALK_EABT l) /\ table_read_failed s.2 \/ exists w', r = WOk w'.
Proof.
  intros Hinv [Hst Hs2 Hi [H0 H1] Hips Hpm] Hwr. pose proof (select_ttb_low x Hi) as Et. unfold s1_translation, translation_from.
  revert Et H0. generalize (px_ttb0 x), (px_tsz0 x), (px_tg0 x), (px_epd0 x). intros ttb tsz tg epd Et H0. intros (-> & Hr & Hlt & g & start & leaf & ro & Hg & Hsr & Hs & Hb & Hw & _ & _ & Hgr).
  pose proof H0 as Htsz.
  destruct (ptw_s1_unfold x s ttb tsz tg g) as (start' & Hsr' & Hs' & Hk & Hal & Hix & ->); try done; try lia.
  assert (start' = start) as -> by (eapply start_unique; [|done..]; lia).
  rewrite bool_decide_true by done. intros E. apply sm_bind_Ret in E as (lr & s1 & El & Ef).
  eapply walk_loop_complete in El as [[[l Hlr] Hf]|(da & ta & Hlr & Hta & Hm)]; try done; try lia;
    try by apply output_size_nonneg.
  - rewrite Hlr in Ef. injection Ef as <- <-. left. eauto.
  - rewrite Hlr in Ef. right. eapply finish_walk_complete; [done| |rewrite Hta; exact Hgr|done|exact Ef].
    apply check_out_addr_spec; [apply frame_range; lia|by apply output_size_nonneg|].
    by eapply table_walk_fits.
Qed.

End WalkProps.

(** ** Termination *)

Section WalkTotal.
Context {W : Type} (bus : dma_bus W) (cfg : smmu_config) `{!BusTotal bus}.

Lemma dma_only_trans s1 s2 s3 : dma_only s1 s2 -> dma_only s2 s3 -> dma_only s1 s3.
Proof. intros [d ->] [d' ->]. by exists d'. Qed.

(** The computation ends and touches the cache of DMI regions only. *)
Definition reads_only {A} (m : SM (smmu * W) A) : Prop := forall s, exists a s', m s = Ret (a, s') /\ dma_only s.1 s'.1.

Lemma reads_only_ret {A} (a : A) : reads_only (sm_ret a).
Proof. intros s. exists a, s. split; [done|apply dma_only_refl]. Qed.

Lemma reads_only_bind {A B} (m : SM (smmu * W) A) (k : A -> SM (smmu * W) B) :
  reads_only m -> (forall a, reads_only (k a)) -> reads_only (sm_bind m k).
Proof.
  intros Hm Hk s. destruct (Hm s) as (a & s1 & E1 & H1). destruct (Hk a s1) as (b & s2 & E2 & H2).
  exists b, s2. unfold sm_bind. rewrite E1. split; [done|]. by eapply dma_only_trans.
Qed.

Lemma reads_only_read a n : reads_only (dma_read bus a n).
Proof. intros s. apply (dma_read_total bus a n s). Qed.

Lemma reads_only_write a l : reads_only (dma_write bus a l).
Proof. intros s. apply (dma_write_total bus a l s). Qed.

(** Split on the conditions of a computation. *)
Ltac reads := repeat (cbv zeta; match goal with
  | |- reads_only (sm_ret _) => apply reads_only_ret
  | |- reads_only (sm_bind _ _) => apply reads_only_bind; [|intros ?]
  | |- reads_only (if ?b then _ else _) => destruct b
  | |- reads_only (match ?x with _ => _ end) => destruct x
  | |- reads_only (dma_read _ _ _) => apply reads_only_read
  | |- reads_only (dma_write _ _ _) => apply reads_only_write
  end).

Lemma check_access_flag_ends x d da : reads_only (check_access_flag bus x d da).
Proof. unfold check_access_flag. reads. Qed.

Lemma check_s1_perm_ends x a d da : reads_only (check_s1_perm bus x a d da).
Proof. unfold check_s1_perm. reads. Qed.

Lemma finish_walk_ends x l tb d da ta st out : reads_only (finish_walk bus x l tb d da ta st out).
Proof.
  unfold finish_walk. destruct (negb _); [reads|]. cbv zeta. apply reads_only_bind; [apply check_access_flag_ends|].
  intros [d'|]; [|reads]. apply reads_only_bind; [|intros [p|]; reads].
  destruct (px_stage x =? 1); [apply check_s1_perm_ends|reads].
Qed.

(** Four levels are enough. *)
Lemma walk_loop_ends s2 iova g st first out : (forall a, reads_only (s2 a)) -> forall fuel level table ta,
  level <= 3 -> 4 <= level + Z.of_nat fuel -> reads_only (walk_loop bus s2 fuel iova level table g st first out ta).
Proof.
  intros Hs2. induction fuel as [|fuel IH]; intros level table ta Hl Hf; [lia|]. cbn [walk_loop].
  apply reads_only_bind; [apply Hs2|]. intros [a|]; [|reads]. apply reads_only_bind; [apply reads_only_read|].
  intros [b|]; [|reads]. cbv zeta. destruct (Z.eqb_spec level 3); [reads|].
  destruct (_ || _); [reads|]. destruct (_ =? 1); [reads|]. destruct (negb _); [reads|]. apply IH; lia.
Qed.

Lemma ptw_s1_ends x :
  px_stage x = 1 -> px_s2_enabled x = false -> 0 <= px_tsz0 x -> 0 <= px_tsz1 x -> 0 <= px_ips x < 8 ->
  reads_only (smmuv3_ptw64 bus cfg x).
Proof.
  intros Hst Hs2 H0 H1 Hips. unfold smmuv3_ptw64, ptw64_with. rewrite Hst, Hs2. cbn [Z.eqb Pos.eqb andb].
  destruct (select_ttb x) as [[[ttb tsz] tg] epd] eqn:Et. destruct epd; [reads|].
  assert (0 <= tsz) as Htsz by by eapply select_ttb_tsz.
  destruct (granule tg) as [[[g level0] first]|] eqn:Eg; [|reads].
  assert (granule_of g level0) as Hgo by (unfold granule_of, granule in *; cases; injection Eg as <- <- <-; auto 10).
  assert (exists o, OUTPUT_SIZE_MAP (px_ips x) = Some o) as [o ->].
  { unfold OUTPUT_SIZE_MAP. apply lookup_lt_is_Some_2. cbn [length]. lia. }
  cbv zeta. destruct ((64 - tsz <? 25) || (48 <? 64 - tsz)) eqn:Er; [reads|].
  apply orb_false_iff in Er as [?%Z.ltb_ge ?%Z.ltb_ge]. destruct (negb (_ =? 0)); [reads|].
  set (start := start_level_s1 level0 g (g - 3) (64 - tsz)).
  destruct (s1_start x tsz g level0 start) as [Hsr Hs]; [done..|]. cbn [Z.ltb Z.compare].
  assert (3 <= 3 + (64 - tsz) - ((3 - start) * (g - 3) + g) < 64) as Hk.
  { unfold level_shift in Hs. destruct Hgo as [[-> _]|[[-> _]|[-> _]]]; lia. }
  rewrite (proj2 (Z.ltb_ge _ 0)), (proj2 (Z.leb_gt 64 _)) by lia. cbn [orb].
  destruct (negb (check_out_addr _ _)); [reads|]. apply reads_only_bind.
  - apply walk_loop_ends; [intros; apply reads_only_ret|lia|lia].
  - intros [e l|l tb d da ta]; [reads|]. apply finish_walk_ends.
Qed.

End WalkTotal.

(** The events of a walk that fails. *)
Definition walk_event (e : Z) : Prop :=
  e = EVT_F_TRANSLATION \/ e = EVT_F_ADDR_SIZE \/ e = EVT_F_ACCESS \/ e = EVT_F_PERMISSION \/ e = EVT_F_WALK_EABT.

Section WalkEvents.
Context {W : Type} (bus : dma_bus W) (cfg : smmu_config).

(** Every fault the computation returns satisfies [P]. *)
Definition faults {A} (P : A -> Prop) (m : SM (smmu * W) A) : Prop := forall s a s', m s = Ret (a, s') -> P a.

Lemma faults_ret {A} (P : A -> Prop) a : P a -> faults P (sm_ret a).
Proof. intros H s b s' [= -> _]. done. Qed.

Lemma faults_fail {A} (P : A -> Prop) e : faults P (sm_fail e).
Proof. by intros s b s' ?. Qed.

Lemma faults_bind {A B} (P : B -> Prop) (m : SM (smmu * W) A) k : (forall a, faults P (k a)) -> faults P (sm_bind m k).
Proof. intros Hk s b s' H. unfold sm_bind in H. destruct (m s) as [[a s1]|]; [|done]. by eapply Hk. Qed.

Definition loop_event (r : loop_result) : Prop := match r with LFault e _ => walk_event e | LLeaf _ _ _ _ _ => True end.
Definition result_event (r : walk_result) : Prop := match r with WFault e _ => walk_event e | WOk _ => True end.

Ltac events := repeat (cbv zeta; match goal with
  | |- faults _ (sm_ret _) => apply faults_ret; unfold loop_event, result_event, walk_event; auto 10
  | |- faults _ (sm_fail _) => apply faults_fail
  | |- faults _ (sm_bind _ _) => apply faults_bind; intros ?
  | |- faults _ (if ?b then _ else _) => destruct b
  | |- faults _ (match ?x with _ => _ end) => destruct x
  end).

Lemma walk_loop_events s2 iova g st first out fuel : forall level table ta,
  faults loop_event (walk_loop bus s2 fuel iova level table g st first out ta).
Proof. induction fuel as [|fuel IH]; intros level table ta; cbn [walk_loop]; events. apply IH. Qed.

Lemma finish_walk_events x l tb d da ta st out : faults result_event (finish_walk bus x l tb d da ta st out).
Proof. unfold finish_walk. events. Qed.

Lemma ptw_faults x : faults result_event (smmuv3_ptw64 bus cfg x).
Proof.
  assert (forall s2, faults result_event (ptw64_with bus cfg s2 x)) as H.
  { intros s2. unfold ptw64_with. destruct (select_ttb x) as [[[ttb tsz] tg] epd]. destruct epd; [events|].
    destruct (granule tg) as [[[g level0] first]|]; [|events]. destruct (OUTPUT_SIZE_MAP _); [|events]. cbv zeta.
    match goal with |- faults _ (match ?o with _ => _ end) => destruct o end; [|events].
    destruct (4 <? _); [events|]. destruct (_ || _); [events|]. destruct (negb _); [events|].
    intros s a s' Hr. apply sm_bind_Ret in Hr as (r & s1 & H1 & H2). apply walk_loop_events in H1.
    destruct r as [e l|]; [by injection H2 as <- _|]. by apply finish_walk_events in H2. }
  unfold smmuv3_ptw64. destruct (_ && _); [|apply H]. destruct (px_ste x); [apply H|apply faults_fail].
Qed.

End WalkEvents.

(** A failed read is what the external abort reports. *)
Lemma walk_loop_abort {W} (bus : dma_bus W) rd inv `{!MemBus bus rd inv} iova g st first out fuel : forall level table ta s l s',
  inv s -> walk_loop bus s2_none fuel iova level table g st first out ta s = Ret (LFault EVT_F_WALK_EABT l, s') ->
  table_read_failed bus inv s.2.
Proof.
  induction fuel as [|fuel IH]; intros level table ta s l s' Hinv; cbn [walk_loop]; [done|].
  unfold sm_bind at 1, s2_none at 1, sm_ret at 1. intros H. apply sm_bind_Ret in H as (b & s1 & Er & H).
  apply (read_descriptor bus rd inv) in Er as (Hm & Hinv1 & Hb); [|done]. destruct b as [b|]; [|done]. cbv zeta in H.
  destruct (level =? 3); [by destruct (_ =? 3)|]. destruct (_ || _); [done|]. destruct (_ =? 1); [by destruct (_ <? _)|].
  destruct (negb _); [done|]. apply IH in H; [|done]. by rewrite Hm in H.
Qed.

Lemma finish_walk_no_abort {W} (bus : dma_bus W) x l tb d da ta st out s l' s' :
  finish_walk bus x l tb d da ta st out s <> Ret (WFault EVT_F_WALK_EABT l', s').
Proof.
  unfold finish_walk. destruct (negb _); [done|]. cbv zeta. intros H. apply sm_bind_Ret in H as ([d'|] & s1 & _ & H); [|done].
  by apply sm_bind_Ret in H as ([p|] & s2 & _ & H).
Qed.

Lemma ptw_s1_exact {W} (bus : dma_bus W) cfg rd inv (Htot : BusTotal bus) (Hmem : MemBus bus rd inv) x s :
  inv s -> s1_walk cfg x ->
  (px_ha x || px_hd x = true -> forall a l s r s', dma_write bus a l s = Ret (r, s') -> r = true) ->
  exists r s', smmuv3_ptw64 bus cfg x s = Ret (r, s') /\ dma_only s.1 s'.1 /\
    match r with
    | WOk w => s1_translation cfg (desc_at rd s.2) x w
    | WFault e _ =>
        e = EVT_F_WALK_EABT /\ table_read_failed bus inv s.2 \/
        (e = EVT_F_TRANSLATION \/ e = EVT_F_ADDR_SIZE \/ e = EVT_F_ACCESS \/ e = EVT_F_PERMISSION) /\
        forall w, ~ s1_translation cfg (desc_at rd s.2) x w
    end.
Proof.
  intros Hinv Hx Hwr. pose proof Hx as [Hst Hs2 Hi [H0 H1] Hips Hpm].
  destruct (ptw_s1_ends bus cfg x Hst Hs2 H0 H1 Hips s) as (r & s' & E & Hd). exists r, s'. split_and!; try done.
  destruct r as [e l|w]; [|by eapply ptw_s1_ok]. pose proof E as He. apply ptw_faults in He. cbn in He.
  destruct (decide (e = EVT_F_WALK_EABT)) as [->|Hne].
  - left. split; [done|]. pose proof (ptw_s1_illegal bus cfg x s Hst Hs2 ltac:(lia) H0 H1 Hips) as Hleg.
    destruct (select_ttb x) as [[[ttb tsz] tg] epd] eqn:Et.
    destruct Hleg as [Htsz [(-> & Hr & Hlt & g & Hg)|(e & E' & [-> | ->])]]; [|by rewrite E' in E..].
    destruct (ptw_s1_unfold bus cfg x s ttb tsz tg g) as (start & _ & _ & _ & _ & _ & Eq); try done; try lia.
    rewrite Eq in E. case_bool_decide; [|done]. apply sm_bind_Ret in E as (lr & s1 & El & Ef).
    destruct lr as [e' l'|]; [|by apply finish_walk_no_abort in Ef]. injection Ef as -> -> _.
    by eapply walk_loop_abort.
  - right. split; [unfold walk_event in He; naive_solver|]. intros w Hw.
    by destruct (ptw_s1_complete bus cfg rd inv x s w (WFault e l) s') as [[[l' [= ? ?]] _]|[w' ?]].
Qed.

(** ** Two memories *)

(** Memory without DMI. *)
#[global] Instance mem_bus_memory limit :
  MemBus (mem_bus limit) (fun m a => default 0 (m !! a)) (fun s => s_dma_dmi s.1 = []).
Proof.
  assert (forall a n s, s_dma_dmi s.1 = [] -> dma_read (mem_bus limit) a n s =
    Ret (if limit <=? a then None else Some (mem_read s.2 a n), s)) as Hrd.
  { intros a n [s m] Hs. cbn in Hs. unfold dma_read, dma_region, sm_bind, s_get, grant_dma_dmi, bus_access.
    cbn [fst snd]. rewrite Hs. cbn. unfold mem_transport. cbn [address plain_txn command data].
    destruct (limit <=? a); cbn; [done|]. by rewrite length_replicate. }
  split; intros a n s.
  - intros b s' Hs. rewrite Hrd by done. destruct (limit <=? a); [done|]. by intros [= <- <-].
  - intros s' Hs. rewrite Hrd by done. destruct (limit <=? a); [|done]. by intros [= <-].
Qed.

(** Memory that grants DMI to all of it: guest address [a] is host address [host + a]. *)
Definition mem_dmi_bus (host limit : Z) : dma_bus memory :=
  mk_bus (fun m p => default 0 (m !! (p - host))) (fun m p v => <[p - host := v]> m) (mem_transport limit)
    (fun t d m => Ret (if address t <? limit then (true, t, mk_dmi host 0 (limit - 1) DMI_ACCESS_READ_WRITE, m)
                       else (false, t, d, m))).

(** Its cached regions are parts of that mapping. *)
Definition regions_linear (host : Z) (s : smmu) : Prop := Forall (fun r => dr_ptr r = host + dr_start r) (s_dma_dmi s).

Lemma find_dma_dmi_in a n wr l r : find_dma_dmi a n wr l = Some r -> r ∈ l.
Proof.
  induction l as [|x l IH]; cbn [find_dma_dmi]; [done|]. destruct (_ && _ : bool); [intros [= ->]; by left|].
  intros H. right. auto.
Qed.

Lemma linear_region_read host limit a n wr s r s' :
  regions_linear host s.1 -> dma_region (mem_dmi_bus host limit) a n wr s = Ret (r, s') ->
  s'.2 = s.2 /\ regions_linear host s'.1 /\ match r with Some r => dr_ptr r = host + dr_start r | None => True end.
Proof.
  intros Hlin. assert (forall l r, Forall (fun r => dr_ptr r = host + dr_start r) l -> find_dma_dmi a n wr l = Some r ->
    dr_ptr r = host + dr_start r) as Hfind.
  { intros l x Hl Hx. apply find_dma_dmi_in in Hx. rewrite Forall_forall in Hl. auto. }
  unfold dma_region, sm_bind, s_get. destruct (find_dma_dmi a n wr (s_dma_dmi s.1)) eqn:E.
  { intros [= <- <-]. eauto. }
  unfold grant_dma_dmi. cbn -[find_dma_dmi Nat.leb DMA_DMI_CACHE_MAX]. destruct (a <? limit); cbn -[find_dma_dmi Nat.leb DMA_DMI_CACHE_MAX]; [|by intros [= <- <-]].
  intros [= <- <-]. assert (Forall (fun r => dr_ptr r = host + dr_start r)
    ((if (DMA_DMI_CACHE_MAX <=? length (s_dma_dmi s.1))%nat then drop 1 (s_dma_dmi s.1) else s_dma_dmi s.1) ++
     [mk_dma_dmi 0 (limit - 1) host true true])) as Hall.
  { apply Forall_app. split; [|constructor; [cbn; lia|constructor]]. destruct (_ <=? _)%nat; [by apply Forall_drop|done]. }
  split_and!; [done|exact Hall|]. clear E.
  match goal with |- match ?o with _ => _ end => destruct o as [x|] eqn:Ex; [|done] end. exact (Hfind _ _ Hall Ex).
Qed.

#[global] Instance mem_dmi_bus_memory host limit :
  MemBus (mem_dmi_bus host limit) (fun m a => default 0 (m !! a)) (fun s => regions_linear host s.1).
Proof.
  assert (forall a n s b s', regions_linear host s.1 -> dma_read (mem_dmi_bus host limit) a n s = Ret (b, s') ->
    s'.2 = s.2 /\ regions_linear host s'.1 /\ (b = Some (mem_read s.2 a n) \/ b = None)) as Hrd.
  { intros a n s b s' Hs. unfold dma_read, sm_bind.
    destruct (dma_region (mem_dmi_bus host limit) a (Z.of_nat n) false s) as [[r s1]|] eqn:E; [|done].
    apply linear_region_read in E as (E2 & E1 & Hr); [|done]. destruct r as [r|].
    - intros [= <- <-]. split_and!; try done. left. f_equal. unfold mem_read. apply map_ext. intros i. cbn. rewrite Hr, E2.
      do 2 f_equal. lia.
    - unfold bus_access. cbn. unfold mem_transport. cbn [address plain_txn command data].
      destruct (limit <=? a); cbn; intros [= <- <-]; rewrite ?length_replicate, ?E2; auto. }
  split; intros a n s.
  - intros b s' Hs H. apply Hrd in H as (? & ? & [[= ->]|?]); done.
  - intros s' Hs H. by apply Hrd in H as (? & ? & _).
Qed.

(** ** Properties *)


(** Three levels of tables: a page at 0x1000 that is mapped to 0x80000, and a block of two
    megabytes at 0x200000, read-only, mapped to 0x40000000. *)
Definition ex_tables : memory :=
  mem_write (mem_write (mem_write (mem_write ∅ 0x10000 (store_le 8 0x11003)) 0x11000 (store_le 8 0x12003))
    0x12008 (store_le 8 0x80443)) 0x11008 (store_le 8 0x400004C1).

Definition ex_cd : CD := mk_cd true true 0x10000 0 25 25 0 0 5 7 false false false false false.

Definition ex_walk_state : smmu * memory := (smmu_init, ex_tables).

Example walk_page :
  smmuv3_ptw64 (mem_bus 0x100000) ex_cfg (s1_ctx ex_cd 0x1234 ACC_WO None) ex_walk_state =
  Ret (WOk (mk_walk 0x80234 ACC_RW 12 0 0x80443), ex_walk_state).
Proof. vm_compute. reflexivity. Qed.

Example walk_block :
  smmuv3_ptw64 (mem_bus 0x100000) ex_cfg (s1_ctx ex_cd 0x234567 ACC_RO None) ex_walk_state =
  Ret (WOk (mk_walk 0x40034567 ACC_RO 21 0 0x400004C1), ex_walk_state).
Proof. vm_compute. reflexivity. Qed.

Example walk_block_write :
  smmuv3_ptw64 (mem_bus 0x100000) ex_cfg (s1_ctx ex_cd 0x234567 ACC_WO None) ex_walk_state =
  Ret (WFault EVT_F_PERMISSION 2, ex_walk_state).
Proof. vm_compute. reflexivity. Qed.


(** The upper half of the address space cannot be translated: an address with bit 63
    set selects TTB1, but is then refused because its upper bits are not zero, whatever
    TTB1, its size and the tables are. *)
Theorem ttb1_refused {W} (bus : dma_bus W) cfg x s :
  px_stage x = 1 -> px_s2_enabled x = false -> 0 <= px_iova x < 2 ^ 64 -> bit (px_iova x) 63 = true ->
  0 <= px_tsz1 x -> 0 <= px_ips x < 8 ->
  smmuv3_ptw64 bus cfg x s = Ret (WFault (if px_epd1 x then EVT_F_TRANSLATION else EVT_F_ADDR_SIZE) 0, s).
Proof.
  intros Hst Hs2 Hi Hb Ht Hips. unfold smmuv3_ptw64, ptw64_with, select_ttb. rewrite Hst, Hs2, Hb. cbn [Z.eqb Pos.eqb andb].
  destruct (px_epd1 x); [done|]. destruct (granule _) as [[[g l] f]|]; [|done].
  assert (exists o, OUTPUT_SIZE_MAP (px_ips x) = Some o) as [o ->].
  { unfold OUTPUT_SIZE_MAP. apply lookup_lt_is_Some_2. cbn [length]. lia. }
  destruct ((64 - px_tsz1 x <? 25) || (48 <? 64 - px_tsz1 x)) eqn:Er; [done|].
  apply orb_false_iff in Er as [?%Z.ltb_ge ?%Z.ltb_ge].
  rewrite (proj2 (Z.eqb_neq (extract _ _ _) 0)); [done|]. intros Hz. apply extract_zero_lt in Hz; [|lia..].
  unfold bit in Hb. rewrite (testbit_above (64 - px_tsz1 x)) in Hb by lia. done.
Qed.

Lemma ttb1_refused_witness :
  smmuv3_ptw64 (mem_bus 0x100000) ex_cfg (s1_ctx ex_cd 0xFFFFFF8000001000 ACC_RO None) ex_walk_state =
  Ret (WFault EVT_F_ADDR_SIZE 0, ex_walk_state).
Proof.
  apply (ttb1_refused (mem_bus 0x100000) ex_cfg (s1_ctx ex_cd 0xFFFFFF8000001000 ACC_RO None) ex_walk_state);
    try reflexivity; cbn; lia.
Defined.
