(* ===== verification/SmmuTlb.v ===== *)
(** * SMMUv3: the translation cache

    The IOTLB of [smmuv3.h]: entries by key with a list of keys from the most to the
    least recently inserted.  The hash map is a list of entries with distinct keys. *)

From stdpp Require Import base list numbers option gmap sets.
From S2P Require Import Prelude Monad Registers Tlm SmmuRegs Smmu SmmuWalk.

Abbreviation iotlb := (list (IOTLBKey * tlb_entry)).

(** [m_iotlb.find (key)]. *)
Fixpoint tlb_find (key : IOTLBKey) (l : iotlb) : option tlb_entry :=
  match l with
  | [] => None
  | (k, e) :: l' => if decide (k = key) then Some e else tlb_find key l'
  end.

(** [m_iotlb.erase (key)]. *)
Fixpoint tlb_erase (key : IOTLBKey) (l : iotlb) : iotlb :=
  match l with
  | [] => []
  | (k, e) :: l' => if decide (k = key) then l' else (k, e) :: tlb_erase key l'
  end.

(** [m_iotlb[key] = entry]. *)
Fixpoint tlb_assign (key : IOTLBKey) (entry : tlb_entry) (l : iotlb) : iotlb :=
  match l with
  | [] => [(key, entry)]
  | (k, e) :: l' => if decide (k = key) then (key, entry) :: l' else (k, e) :: tlb_assign key entry l'
  end.

(** [m_iotlb_lru.remove (key)]. *)
Fixpoint lru_remove (key : IOTLBKey) (l : list IOTLBKey) : list IOTLBKey :=
  match l with
  | [] => []
  | k :: l' => if decide (k = key) then lru_remove key l' else k :: lru_remove key l'
  end.

(** [iotlb_insert]; [back] of an empty list is undefined. *)
Definition iotlb_insert (capacity : Z) (key : IOTLBKey) (entry : tlb_entry) (s : smmu) : res smmu :=
  let? x :=
    match tlb_find key (s_iotlb s) with
    | Some _ => Ret (s_iotlb s, lru_remove key (s_iotlb_lru s))
    | None =>
        if capacity <=? Z.of_nat (length (s_iotlb s)) then
          match list.last (s_iotlb_lru s) with
          | Some k => Ret (tlb_erase k (s_iotlb s), removelast (s_iotlb_lru s))
          | None => Err StopUndef
          end
        else Ret (s_iotlb s, s_iotlb_lru s)
    end in
  Ret (set_iotlb (tlb_assign key entry x.1) (key :: x.2) s).

(** [iotlb_lookup]. *)
Definition iotlb_lookup (key : IOTLBKey) (s : smmu) : option tlb_entry := tlb_find key (s_iotlb s).

(** The invalidation loops: every entry whose key satisfies [hit] goes, and its key
    leaves the list. *)
Fixpoint inv_where (hit : IOTLBKey -> bool) (l : iotlb) (lru : list IOTLBKey) : iotlb * list IOTLBKey :=
  match l with
  | [] => ([], lru)
  | (k, e) :: l' =>
      if hit k then inv_where hit l' (lru_remove k lru)
      else let '(l', lru) := inv_where hit l' lru in ((k, e) :: l', lru)
  end.

Definition iotlb_inv_where (hit : IOTLBKey -> bool) (s : smmu) : smmu :=
  let '(l, lru) := inv_where hit (s_iotlb s) (s_iotlb_lru s) in set_iotlb l lru s.

Definition iotlb_inv_all (s : smmu) : smmu := set_iotlb [] [] s.
Definition iotlb_inv_asid (asid : Z) : smmu -> smmu := iotlb_inv_where (fun k => k_asid k =? asid).
Definition iotlb_inv_vmid (vmid : Z) : smmu -> smmu := iotlb_inv_where (fun k => k_vmid k =? vmid).
Definition iotlb_inv_iova (vmid asid iova tg addr_mask : Z) : smmu -> smmu :=
  iotlb_inv_where (fun k => (k_vmid k =? vmid) && (k_asid k =? asid) &&
                            (andnot (k_iova k) addr_mask =? andnot iova addr_mask) && (k_tg k =? tg)).

(** [compute_iotlb_regime]. *)
Definition compute_iotlb_regime (strw : Z) (e2h is_secure : bool) : Z :=
  if is_secure then 3
  else if Z.land strw 3 =? 2 then (if e2h then 2 else 1)
  else 0.

(** ** Invariant *)

(** Distinct keys, the same keys in the list, and no more entries than the capacity. *)
Record tlb_ok (capacity : Z) (s : smmu) : Prop := {
  tlb_nodup : NoDup (s_iotlb s).*1;
  tlb_lru : s_iotlb_lru s ≡ₚ (s_iotlb s).*1;
  tlb_size : Z.of_nat (length (s_iotlb s)) <= capacity;
}.

Lemma tlb_find_Some key e l : NoDup l.*1 -> tlb_find key l = Some e <-> (key, e) ∈ l.
Proof.
  induction l as [|[k x] l IH]; intros Hnd; simpl; [set_solver|].
  apply NoDup_cons in Hnd as [Hk Hnd]. specialize (IH Hnd). case_decide as Hd.
  - subst k. rewrite elem_of_cons. split; [naive_solver|]. intros [[= ->]|Hin]; [done|].
    destruct Hk. apply list_elem_of_fmap. by exists (key, e).
  - rewrite IH, elem_of_cons. naive_solver.
Qed.

Lemma tlb_find_None key l : tlb_find key l = None <-> key ∉ l.*1.
Proof.
  induction l as [|[k x] l IH]; simpl; [set_solver|]. case_decide; [set_solver|]. rewrite IH. set_solver.
Qed.

Lemma tlb_erase_keys key l : NoDup l.*1 -> key ∈ l.*1 -> l.*1 ≡ₚ key :: (tlb_erase key l).*1.
Proof.
  induction l as [|[k x] l IH]; intros Hnd Hin; simpl; [set_solver|].
  apply NoDup_cons in Hnd as [Hk Hnd]. case_decide as Hd; [by subst|].
  simpl. rewrite IH at 1 by set_solver. by rewrite Permutation_swap.
Qed.

Lemma tlb_erase_elem key l : NoDup l.*1 -> forall k e, (k, e) ∈ tlb_erase key l <-> (k, e) ∈ l /\ k <> key.
Proof.
  induction l as [|[j x] l IH]; intros Hnd k e; simpl; [set_solver|].
  apply NoDup_cons in Hnd as [Hk Hnd]. specialize (IH Hnd k e). case_decide as Hd.
  - subst j. rewrite elem_of_cons. split; [|naive_solver]. intros Hin. split; [by auto|]. intros ->.
    destruct Hk. apply list_elem_of_fmap. by exists (key, e).
  - rewrite !elem_of_cons, IH. naive_solver.
Qed.

Lemma tlb_assign_elem key entry l :
  NoDup l.*1 -> forall k e, (k, e) ∈ tlb_assign key entry l <-> (k, e) = (key, entry) \/ (k, e) ∈ l /\ k <> key.
Proof.
  induction l as [|[j x] l IH]; intros Hnd k e; simpl; [set_solver|].
  apply NoDup_cons in Hnd as [Hk Hnd]. specialize (IH Hnd k e). case_decide as Hd.
  - subst j. rewrite !elem_of_cons. split; [|naive_solver]. intros [?|Hin]; [by left|]. right. split; [by auto|].
    intros ->. destruct Hk. apply list_elem_of_fmap. by exists (key, e).
  - rewrite !elem_of_cons, IH. naive_solver.
Qed.

Lemma tlb_assign_keys_old key entry l : key ∈ l.*1 -> (tlb_assign key entry l).*1 = l.*1.
Proof.
  induction l as [|[j x] l IH]; simpl; [set_solver|]. intros Hin. case_decide; [by subst|]. simpl. f_equal. set_solver.
Qed.

Lemma tlb_assign_keys_new key entry l : key ∉ l.*1 -> (tlb_assign key entry l).*1 = l.*1 ++ [key].
Proof.
  induction l as [|[j x] l IH]; simpl; [done|]. intros Hin. case_decide; [set_solver|]. simpl. f_equal. set_solver.
Qed.

Lemma lru_remove_elem key l k : k ∈ lru_remove key l <-> k ∈ l /\ k <> key.
Proof. induction l as [|j l IH]; simpl; [set_solver|]. case_decide; set_solver. Qed.

Lemma lru_remove_perm key l : NoDup l -> key ∈ l -> l ≡ₚ key :: lru_remove key l.
Proof.
  induction l as [|j l IH]; intros Hnd Hin; simpl; [set_solver|]. apply NoDup_cons in Hnd as [Hj Hnd].
  case_decide as Hd.
  - subst j. f_equiv. clear IH Hin. induction l as [|i l IH]; simpl; [done|].
    apply NoDup_cons in Hnd as [? Hnd]. rewrite decide_False by set_solver. f_equiv. apply IH; set_solver.
  - rewrite IH at 1 by set_solver. by rewrite Permutation_swap.
Qed.

(** ** Insertion *)

Lemma iotlb_insert_ok capacity key entry s :
  tlb_ok capacity s -> 0 < capacity ->
  exists s', iotlb_insert capacity key entry s = Ret s' /\ tlb_ok capacity s' /\
    iotlb_lookup key s' = Some entry /\
    (forall k e, k <> key -> iotlb_lookup k s' = Some e -> iotlb_lookup k s = Some e).
Proof.
  intros [Hnd Hlru Hsz] Hcap. unfold iotlb_insert, iotlb_lookup.
  destruct (tlb_find key (s_iotlb s)) as [e0|] eqn:Ef.
  - cbn [rbind fst snd]. eexists. split; [done|].
    assert (key ∈ (s_iotlb s).*1) as Hin.
    { apply tlb_find_Some in Ef; [|done]. apply list_elem_of_fmap. by exists (key, e0). }
    assert (NoDup (tlb_assign key entry (s_iotlb s)).*1) as Hnd' by by rewrite tlb_assign_keys_old.
    split; [split; cbn|split; cbn].
    + done.
    + rewrite tlb_assign_keys_old by done. rewrite <- Hlru. symmetry. apply lru_remove_perm; by rewrite Hlru.
    + rewrite <- (length_fmap fst), tlb_assign_keys_old, length_fmap by done. done.
    + apply tlb_find_Some; [done|]. apply tlb_assign_elem; auto.
    + intros k e Hk He. apply tlb_find_Some in He; [|done]. apply tlb_assign_elem in He; [|done].
      destruct He as [[= -> ->]|[He _]]; [done|]. by apply tlb_find_Some.
  - assert (key ∉ (s_iotlb s).*1) as Hnin by by apply tlb_find_None.
    assert (forall l lru, NoDup l.*1 -> lru ≡ₚ l.*1 -> Z.of_nat (length l) < capacity ->
      (forall k e, (k, e) ∈ l -> (k, e) ∈ s_iotlb s) ->
      exists s', Ret (set_iotlb (tlb_assign key entry l) (key :: lru) s) = Ret s' /\ tlb_ok capacity s' /\
        tlb_find key (s_iotlb s') = Some entry /\
        forall k e, k <> key -> tlb_find k (s_iotlb s') = Some e -> tlb_find k (s_iotlb s) = Some e) as Hgo.
    { intros l lru Hl Hp Hlt Hsub. eexists. split; [done|].
      assert (key ∉ l.*1) as Hn.
      { intros Hin. apply Hnin. apply list_elem_of_fmap in Hin as ([k e] & -> & Hin).
        apply list_elem_of_fmap. exists (k, e). auto. }
      pose proof (tlb_assign_keys_new key entry l Hn) as Hkeys.
      assert (NoDup (tlb_assign key entry l).*1) as Hnd'.
      { rewrite Hkeys. apply NoDup_app. split_and!; [done|set_solver|apply NoDup_singleton]. }
      split; [split; cbn|split; cbn].
      - done.
      - by rewrite Hkeys, Hp, Permutation_app_comm.
      - rewrite <- (length_fmap fst), Hkeys, length_app, length_fmap. simpl. lia.
      - apply tlb_find_Some; [done|]. apply tlb_assign_elem; auto.
      - intros k e Hk He. apply tlb_find_Some in He; [|done]. apply tlb_assign_elem in He; [|done].
        destruct He as [[= -> ->]|[He _]]; [done|]. apply tlb_find_Some; auto. }
    destruct (Z.leb_spec capacity (Z.of_nat (length (s_iotlb s)))); [|cbn [rbind fst snd]; by apply Hgo].
    destruct (list.last (s_iotlb_lru s)) as [k|] eqn:El.
    + apply last_Some in El as [l' El]. rewrite El in *. cbn [rbind fst snd]. rewrite removelast_last.
      assert (k ∈ (s_iotlb s).*1) as Hk by (rewrite <- Hlru; set_solver).
      pose proof (tlb_erase_keys k _ Hnd Hk) as Hp. apply Hgo.
      * rewrite Hp in Hnd. by apply NoDup_cons in Hnd as [_ Hnd].
      * rewrite Hp, Permutation_app_comm in Hlru. simpl in Hlru. by apply Permutation_cons_inv in Hlru.
      * apply Permutation_length in Hp. simpl in Hp. rewrite !length_fmap in Hp. lia.
      * intros k0 e0 He. by apply tlb_erase_elem in He as [? _].
    + apply last_None in El. rewrite El in Hlru. apply Permutation_length in Hlru. rewrite length_fmap in Hlru. simpl in Hlru. lia.
Qed.

(** ** Invalidation *)

Lemma inv_where_spec hit l lru :
  NoDup l.*1 ->
  let '(l', lru') := inv_where hit l lru in
  (forall k e, (k, e) ∈ l' <-> (k, e) ∈ l /\ hit k = false) /\ NoDup l'.*1 /\ (length l' <= length l)%nat /\
  forall k, k ∈ lru' <-> k ∈ lru /\ ~ (k ∈ l.*1 /\ hit k = true).
Proof.
  revert lru. induction l as [|[k e] l IH]; intros lru Hnd; cbn [inv_where]; [set_solver|].
  apply NoDup_cons in Hnd as [Hk Hnd]. destruct (hit k) eqn:Eh.
  - specialize (IH (lru_remove k lru) Hnd). destruct (inv_where hit l (lru_remove k lru)) as [l' lru'].
    destruct IH as (H1 & H2 & H3 & H4). split_and!; try done; [|simpl; lia|].
    + intros j x. rewrite H1, elem_of_cons. split; [tauto|]. intros [[[= -> ->]|Hin] Hh]; [congruence|done].
    + intros j. rewrite H4, lru_remove_elem. set_solver.
  - specialize (IH lru Hnd). destruct (inv_where hit l lru) as [l' lru']. destruct IH as (H1 & H2 & H3 & H4).
    split_and!; [| |simpl; lia|].
    + intros j x. rewrite !elem_of_cons, H1. split; [|tauto]. intros [[= -> ->]|[Hin Hh]]; auto.
    + simpl. apply NoDup_cons. split; [|done]. intros Hin. apply Hk.
      apply list_elem_of_fmap in Hin as ([j x] & -> & Hin). apply H1 in Hin as [Hin _].
      apply list_elem_of_fmap. by exists (j, x).
    + intros j. rewrite H4. cbn [fmap list_fmap fst]. rewrite elem_of_cons.
      split; intros [Ha Hb]; (split; [done|]); [|tauto]. intros [[->|Hj] Hh]; [congruence|tauto].
Qed.

Lemma lru_remove_nodup key l : NoDup l -> NoDup (lru_remove key l).
Proof.
  induction 1 as [|j l Hj Hl IH]; simpl; [constructor|]. case_decide; [done|]. constructor; [|done].
  rewrite lru_remove_elem. tauto.
Qed.

Lemma inv_where_nodup hit l lru : NoDup lru -> NoDup (inv_where hit l lru).2.
Proof.
  revert lru. induction l as [|[k e] l IH]; intros lru Hl; cbn [inv_where]; [done|].
  destruct (hit k); [by apply IH, lru_remove_nodup|]. specialize (IH lru Hl). by destruct (inv_where hit l lru).
Qed.

Lemma iotlb_inv_where_ok capacity hit s :
  tlb_ok capacity s ->
  tlb_ok capacity (iotlb_inv_where hit s) /\
  forall k, iotlb_lookup k (iotlb_inv_where hit s) = if hit k then None else iotlb_lookup k s.
Proof.
  intros [Hnd Hlru Hsz]. unfold iotlb_inv_where, iotlb_lookup.
  pose proof (inv_where_spec hit (s_iotlb s) (s_iotlb_lru s) Hnd) as Hspec.
  assert (NoDup (s_iotlb_lru s)) as Hndl by by rewrite Hlru.
  pose proof (inv_where_nodup hit (s_iotlb s) (s_iotlb_lru s) Hndl) as Hnd2.
  destruct (inv_where hit (s_iotlb s) (s_iotlb_lru s)) as [l lru]. destruct Hspec as (H1 & H2 & H3 & H4). cbn in *.
  split; [split; cbn; [done| |lia]|].
  - apply NoDup_Permutation; [done..|]. intros k. rewrite H4, Hlru, !list_elem_of_fmap. split.
    + intros [([j e] & -> & Hin) Hh]. exists (j, e). split; [done|]. apply H1. split; [done|].
      destruct (hit j) eqn:Eh; [|done]. destruct Hh. split; [by exists (j, e)|done].
    + intros ([j e] & -> & Hin). apply H1 in Hin as [Hin Hh]. split; [by exists (j, e)|]. cbn. intros [_ ?]. congruence.
  - intros k. destruct (hit k) eqn:Eh.
    + apply tlb_find_None. intros Hin. apply list_elem_of_fmap in Hin as ([j e] & -> & Hin).
      apply H1 in Hin as [_ ?]. cbn in *. congruence.
    + apply option_eq. intros e. rewrite !tlb_find_Some by done. rewrite H1. tauto.
Qed.

(** ** The cache as a list *)

Lemma filter_in_iff {A} (P Q : A -> Prop) `{!forall x, Decision (P x), !forall x, Decision (Q x)} (l : list A) :
  (forall x, x ∈ l -> P x <-> Q x) -> filter P l = filter Q l.
Proof. induction l as [|x l IH]; intros Hiff; [done|]. rewrite !filter_cons, IH by set_solver. pose proof (Hiff x ltac:(by left)). repeat case_decide; tauto. Qed.

Lemma filter_every {A} (P : A -> Prop) `{!forall x, Decision (P x)} (l : list A) : (forall x, x ∈ l -> P x) -> filter P l = l.
Proof. induction l as [|x l IH]; intros Hall; [done|]. rewrite filter_cons_True, IH by set_solver. done. Qed.

(** What the cache holds, from the most to the least recently inserted. *)
Definition recency (l : iotlb) (lru : list IOTLBKey) : iotlb := omap (fun k => pair k <$> tlb_find k l) lru.
Definition recent (s : smmu) : iotlb := recency (s_iotlb s) (s_iotlb_lru s).

Lemma recency_cons l k lru : recency l (k :: lru) = (match tlb_find k l with Some e => [(k, e)] | None => [] end) ++ recency l lru.
Proof. unfold recency. cbn. by destruct (tlb_find k l). Qed.

Lemma recency_app l lru lru' : recency l (lru ++ lru') = recency l lru ++ recency l lru'.
Proof. apply omap_app. Qed.

(** Keys that are left out, with the entries of the others unchanged. *)
Lemma recency_filter (P : IOTLBKey -> Prop) `{!forall k, Decision (P k)} l l' lru :
  (forall k, k ∈ lru -> P k -> tlb_find k l' = tlb_find k l) -> recency l' (filter P lru) = filter (fun p => P p.1) (recency l lru).
Proof.
  induction lru as [|k lru IH]; intros Hs; [done|]. rewrite filter_cons, (recency_cons l k lru), filter_app, <- IH by set_solver. destruct (decide (P k)) as [Hp|Hp].
  - rewrite recency_cons, (Hs k) by (done || set_solver). f_equal. destruct (tlb_find k l); [|done]. by rewrite filter_cons_True.
  - destruct (tlb_find k l); [|done]. by rewrite filter_cons_False.
Qed.

Lemma recency_same l l' lru : (forall k, k ∈ lru -> tlb_find k l' = tlb_find k l) -> recency l' lru = recency l lru.
Proof. induction lru as [|k lru IH]; intros H; [done|]. by rewrite !recency_cons, (H k), IH by set_solver. Qed.

Lemma recency_length l lru : (forall k, k ∈ lru -> k ∈ l.*1) -> length (recency l lru) = length lru.
Proof.
  induction lru as [|k lru IH]; intros H; [done|]. rewrite recency_cons, length_app, IH by set_solver.
  destruct (tlb_find k l) eqn:E; [done|]. apply tlb_find_None in E. destruct E. apply H. by left.
Qed.

Lemma recency_elem l lru k e : (k, e) ∈ recency l lru <-> k ∈ lru /\ tlb_find k l = Some e.
Proof. unfold recency. rewrite list_elem_of_omap. split; [intros (j & Hj & E); destruct (tlb_find j l) eqn:Ef; naive_solver|]. intros [Hk E]. exists k. by rewrite E. Qed.

Lemma lru_remove_filter key l : lru_remove key l = filter (fun k => k <> key) l.
Proof. induction l as [|k l IH]; cbn [lru_remove]; [done|]. rewrite filter_cons, IH. repeat case_decide; done. Qed.

Lemma inv_where_lru hit l lru : (inv_where hit l lru).2 = filter (fun k => ~ (k ∈ l.*1 /\ hit k = true)) lru.
Proof.
  revert lru. induction l as [|[k e] l IH]; intros lru; cbn [inv_where].
  - cbn. symmetry. apply filter_every. set_solver.
  - destruct (hit k) eqn:Eh.
    + rewrite IH, lru_remove_filter, list_filter_filter. apply list_filter_iff. intros j. cbn. rewrite elem_of_cons. split.
      * intros [Hn Hj] [[->|Hin] Hh]; [done|]. by apply Hn.
      * intros Hn. split; [intros [? ?]; apply Hn; by auto|]. intros ->. apply Hn. by auto.
    + specialize (IH lru). destruct (inv_where hit l lru) as [l' lru']. cbn in *. rewrite IH. apply list_filter_iff. intros j. rewrite elem_of_cons.
      split; [intros Hn [[->|Hin] Hh]; [congruence|by apply Hn]|intros Hn [? ?]; apply Hn; by auto].
Qed.

Lemma recent_inv_where capacity hit s : tlb_ok capacity s -> recent (iotlb_inv_where hit s) = filter (fun p => hit p.1 = false) (recent s).
Proof.
  intros Hok. pose proof (proj2 (iotlb_inv_where_ok capacity hit s Hok)) as Hf. destruct Hok as [Hnd Hlru _]. unfold recent.
  assert (s_iotlb_lru (iotlb_inv_where hit s) = filter (fun k => hit k = false) (s_iotlb_lru s)) as ->.
  { unfold iotlb_inv_where. pose proof (inv_where_lru hit (s_iotlb s) (s_iotlb_lru s)) as H. destruct (inv_where _ _ _) as [l lru]. cbn in *. rewrite H.
    apply filter_in_iff. intros k Hk. rewrite Hlru in Hk. destruct (hit k); naive_solver. }
  rewrite (recency_filter (fun k => hit k = false) (s_iotlb s)); [done|]. intros k _ Hk. specialize (Hf k). rewrite Hk in Hf. exact Hf.
Qed.

(** ** Properties *)

Lemma tlb_assign_other key entry l k : k <> key -> tlb_find k (tlb_assign key entry l) = tlb_find k l.
Proof. intros Hk. induction l as [|[j x] l IH]; cbn; repeat (case_decide; cbn); congruence || done. Qed.

Lemma tlb_assign_new key entry l : tlb_find key (tlb_assign key entry l) = Some entry.
Proof. induction l as [|[j x] l IH]; cbn; repeat (case_decide; cbn); congruence || done. Qed.

Lemma tlb_erase_other key l k : k <> key -> tlb_find k (tlb_erase key l) = tlb_find k l.
Proof. intros Hk. induction l as [|[j x] l IH]; cbn; repeat (case_decide; cbn); congruence || done. Qed.

Lemma recent_insert capacity key entry s s' : tlb_ok capacity s -> 0 < capacity -> iotlb_insert capacity key entry s = Ret s' ->
  recent s' = take (Z.to_nat capacity) ((key, entry) :: filter (fun p => p.1 <> key) (recent s)).
Proof.
  intros [Hnd Hlru Hsz] Hcap. assert (forall k, k ∈ s_iotlb_lru s -> k ∈ (s_iotlb s).*1) as Hall by (intros k; by rewrite Hlru).
  assert (length (s_iotlb_lru s) = length (s_iotlb s)) as Hlen by by rewrite Hlru, length_fmap.
  pose proof (tlb_assign_other key entry) as Hother. pose proof (tlb_assign_new key entry) as Hnew.
  unfold iotlb_insert, recent. destruct (tlb_find key (s_iotlb s)) as [e0|] eqn:Ef; cbn [rbind].
  - cbn [fst snd]. intros [= <-]. cbn [s_iotlb s_iotlb_lru set_iotlb]. rewrite recency_cons, Hnew, lru_remove_filter. cbn [app].
    rewrite (recency_filter (fun k => k <> key) (s_iotlb s)) by (intros; by apply Hother). symmetry. apply take_ge. cbn [length].
    assert (key ∈ s_iotlb_lru s) as Hin by (rewrite Hlru; apply tlb_find_Some in Ef; [|done]; apply list_elem_of_fmap; by exists (key, e0)).
    assert (recency (s_iotlb s) (lru_remove key (s_iotlb_lru s)) = filter (fun p => p.1 <> key) (recency (s_iotlb s) (s_iotlb_lru s))) as <-
      by (rewrite lru_remove_filter; by rewrite (recency_filter (fun k => k <> key) (s_iotlb s))).
    rewrite recency_length by (intros k [? _]%lru_remove_elem; auto).
    assert (NoDup (s_iotlb_lru s)) as Hndl by by rewrite Hlru. pose proof (Permutation_length (lru_remove_perm key _ Hndl Hin)) as Hl. cbn in Hl. lia.
  - apply tlb_find_None in Ef. assert (key ∉ s_iotlb_lru s) as Hnin by by rewrite Hlru.
    assert (filter (fun p => p.1 <> key) (recency (s_iotlb s) (s_iotlb_lru s)) = recency (s_iotlb s) (s_iotlb_lru s)) as ->.
    { apply filter_every. intros [k e] [Hk _]%recency_elem. cbn. by intros ->. }
    pose proof (recency_length _ _ Hall) as Hrl. destruct (Z.leb_spec capacity (Z.of_nat (length (s_iotlb s)))) as [Hfull|Hfull].
    + destruct (list.last (s_iotlb_lru s)) as [v|] eqn:El; [|done]. apply last_Some in El as [l' El]. cbn [rbind fst snd]. intros [= <-]. cbn [s_iotlb s_iotlb_lru set_iotlb].
      rewrite El, removelast_last in *. rewrite recency_cons, Hnew. cbn [app]. rewrite recency_app in *.
      assert (NoDup (l' ++ [v])) as (_ & Hd & _)%NoDup_app by by rewrite Hlru.
      rewrite (recency_same (s_iotlb s)).
      2: { intros k Hk. rewrite Hother by (intros ->; apply Hnin; apply elem_of_app; by left). apply tlb_erase_other. intros ->. apply (Hd v Hk). by left. }
      rewrite length_app in Hlen. cbn in Hlen. assert (length (recency (s_iotlb s) l') = length l') by (apply recency_length; intros k Hk; apply Hall, elem_of_app; by left).
      replace (Z.to_nat capacity) with (S (length (recency (s_iotlb s) l'))) by lia. cbn [take]. by rewrite take_app_length.
    + cbn [rbind fst snd]. intros [= <-]. cbn [s_iotlb s_iotlb_lru set_iotlb]. rewrite recency_cons, Hnew. cbn [app].
      rewrite (recency_same (s_iotlb s)) by (intros k Hk; apply Hother; by intros ->). symmetry. apply take_ge. cbn. lia.
Qed.


(** ** Examples *)

Definition ex_key (iova : Z) : IOTLBKey := mk_key 0 1 iova 0 3 false 0.
Definition ex_entry (pa : Z) : tlb_entry := mk_entry 0 pa 0xfff ACC_RW 0 0 0 0 false.

(** Two entries in a cache of two: a third one drops the first. *)
Definition ex_tlb : smmu := set_iotlb [(ex_key 0x1000, ex_entry 0x8000); (ex_key 0x2000, ex_entry 0x9000)] [ex_key 0x2000; ex_key 0x1000] smmu_init.

