(* ===== verification/SmmuQueue.v ===== *)
(** * SMMUv3: queues

    The event, page request and command queues of [smmuv3.h], and the commands. *)

From stdpp Require Import base list numbers option gmap.
From S2P Require Import Prelude Monad Registers Tlm SmmuRegs Smmu SmmuWalk SmmuTlb.

(** [queue_full]: [prod] and [cns] carry a wrap bit above the index. *)
Definition queue_full (prod cns size : Z) : bool :=
  let size := clamp_queue_log2size size in
  let mask := Z.ones size in
  (Z.lxor prod cns =? Z.shiftl 1 size) && (Z.land prod mask =? Z.land cns mask).

Section Queues.
Context {W : Type} (bus : dma_bus W) (cfg : smmu_config).
Abbreviation M := (SM (smmu * W)).

(** The steps that [record_event], [record_event_full], [record_secure_event] and
    [record_pri] share: refuse when full, write the record in the slot of the producer,
    move the producer on.  [abort] and [done] are the error and completion actions. *)
Definition queue_push (base_hi base_lo prod_reg cons_reg : Z) (log2_field : reg_field) (entry_size : Z)
    (abort done : M unit) (entry : list Z) : M unit :=
  do! hi := rget base_hi in
  do! lo := rget base_lo in
  let base := Z.lor (Z.shiftl hi 32) (andnot lo 31) in
  do! l2 := fget log2_field in
  let log2size := clamp_queue_log2size l2 in
  do! prod := rget prod_reg in
  do! cns := rget cons_reg in
  if queue_full prod cns log2size then abort
  else
    let idx := Z.land prod (Z.ones log2size) in
    do! ok := dma_write bus (u64 (base + idx * entry_size)) entry in
    if negb ok then abort
    else rset prod_reg (Z.land (u32 (prod + 1)) (Z.ones (log2size + 1))) ;;! done.

(** The simple records: type, stream, address and information word. *)
Definition simple_event (type sid iova info : Z) : list Z :=
  store_le 1 type ++ replicate 3 0 ++ store_le 4 sid ++ store_le 8 iova ++ store_le 4 info ++ replicate 12 0.

Definition record_event (type sid iova info : Z) : M unit :=
  do! en := fget CR0_EVENTQEN in
  if en =? 0 then sm_ret tt
  else queue_push EVENTQ_BASE_HI EVENTQ_BASE_LO EVENTQ_PROD EVENTQ_CONS EVENTQ_BASE_LOG2SIZE SMMUV3_EVENT_SIZE
         (set_gerror bus cfg GERROR_BIT_EVENTQ_ABT) (update_irqs bus cfg) (simple_event type sid iova info).

Definition record_secure_event (type sid iova info : Z) : M unit :=
  do! en := fget S_CR0_EVENTQEN in
  if en =? 0 then sm_ret tt
  else queue_push S_EVENTQ_BASE_HI S_EVENTQ_BASE_LO S_EVENTQ_PROD S_EVENTQ_CONS S_EVENTQ_BASE_LOG2SIZE
         SMMUV3_EVENT_SIZE (set_secure_gerror bus cfg GERROR_BIT_EVENTQ_ABT) (update_secure_irq_levels bus cfg)
         (simple_event type sid iova info).

(** The four doublewords of [record_event_full]. *)
Definition full_event (type sid ssid iova class_ fault_level stag : Z) (rnw stall : bool) : list Z :=
  let w0 := Z.lor (Z.lor (Z.lor (Z.land type 0xFF) (if ssid =? 0 then 0 else Z.shiftl 1 12))
                         (Z.shiftl (Z.land ssid 0xFFFFF) 13)) (Z.shiftl sid 32) in
  let w1 := Z.lor (Z.lor (Z.lor (Z.lor (Z.land stag 0xFFFF) (if rnw then Z.shiftl 1 17 else 0))
                                (Z.shiftl (Z.land class_ 3) 20)) (if stall then Z.shiftl 1 23 else 0))
                  (Z.shiftl (Z.land fault_level 7) 24) in
  store_le 8 w0 ++ store_le 8 w1 ++ store_le 8 iova ++ store_le 8 0.

Definition record_event_full (type sid ssid iova : Z) (cmd : tlm_command) (class_ fault_level stag : Z)
    (stall : bool) : M unit :=
  do! en := fget CR0_EVENTQEN in
  if en =? 0 then sm_ret tt
  else queue_push EVENTQ_BASE_HI EVENTQ_BASE_LO EVENTQ_PROD EVENTQ_CONS EVENTQ_BASE_LOG2SIZE SMMUV3_EVENT_SIZE
         (set_gerror bus cfg GERROR_BIT_EVENTQ_ABT) (update_irqs bus cfg)
         (full_event type sid ssid iova class_ fault_level stag (bool_decide (cmd = TLM_READ_COMMAND)) stall).

Definition record_pri (sid iova flags : Z) : M unit :=
  do! en := fget CR0_PRIQEN in
  if en =? 0 then sm_ret tt
  else queue_push PRIQ_BASE_HI PRIQ_BASE_LO PRIQ_PROD PRIQ_CONS PRIQ_BASE_LOG2SIZE SMMUV3_PRI_SIZE
         (set_gerror bus cfg GERROR_BIT_PRIQ_ABT) (update_irqs bus cfg)
         (store_le 4 sid ++ store_le 4 flags ++ store_le 8 iova).

(** [stall_and_wait] up to the wait, and after it. *)
Definition stall_begin (sid ssid iova fault_type fault_level class_ : Z) (cmd : tlm_command) : M Z :=
  do! s := s_get in
  let stag := s_next_stag s in
  s_mod (set_stalled (<[stag := mk_stalled sid ssid false]> (s_stalled s)) (u32 (stag + 1))) ;;!
  record_event_full fault_type sid ssid iova cmd class_ fault_level stag true ;;!
  sm_ret stag.

Definition stall_finish (stag : Z) : M bool :=
  do! s := s_get in
  match s_stalled s !! stag with
  | None => sm_fail StopUndef
  | Some t => s_mod (set_stalled (delete stag (s_stalled s)) (s_next_stag s)) ;;! sm_ret (st_aborted t)
  end.

(** ** Commands *)

Definition cmd_word (cmd : list Z) (off n : nat) : Z := load_le (take n (drop off cmd)).
Definition cmd_word0 (cmd : list Z) : Z := cmd_word cmd 0 8.
Definition cmd_word1 (cmd : list Z) : Z := cmd_word cmd 8 8.

(** [decode_tlbi_tg]: the page shift and the granule of the keys. *)
Definition decode_tlbi_tg (tg : Z) : Z * Z :=
  if tg =? 2 then (14, CD_TG_16K) else if tg =? 3 then (16, CD_TG_64K) else (12, CD_TG_4K).

(** The address mask and granule of a TLB invalidation. *)
Definition tlbi_mask (cmd : list Z) : Z * Z :=
  let word0 := cmd_word0 cmd in
  let '(shift, key_tg) := decode_tlbi_tg (extract word0 10 2) in
  (safe_shl1_u64 (shift + extract word0 20 4) - 1, key_tg).

Definition handle_cmd_cfgi_ste (cmd : list Z) : M unit :=
  let sid := cmd_word cmd 4 4 in
  s_mod (fun s => set_ste_cache (delete sid (s_ste_cache s)) (filter (fun k => k <> sid) (s_ste_lru s)) s).
Definition handle_cmd_cfgi_ste_range : M unit := s_mod (set_ste_cache ∅ []).
Definition handle_cmd_cfgi_cd : M unit := s_mod (set_cd_cache ∅ []).
Definition handle_cmd_cfgi_all : M unit := s_mod (fun s => set_cd_cache ∅ [] (set_ste_cache ∅ [] s)).

Definition handle_cmd_tlbi_nh_all : M unit := s_mod iotlb_inv_all.
Definition handle_cmd_tlbi_nh_asid (cmd : list Z) : M unit := s_mod (iotlb_inv_asid (cmd_word cmd 6 2)).
Definition handle_cmd_tlbi_nh_va (cmd : list Z) : M unit :=
  let asid := extract (cmd_word0 cmd) 48 16 in
  let va := andnot (cmd_word1 cmd) 0xFFF in
  let '(mask, key_tg) := tlbi_mask cmd in
  s_mod (iotlb_inv_iova 0 asid va key_tg mask).
Definition handle_cmd_tlbi_nh_vaa (cmd : list Z) : M unit :=
  let va := andnot (cmd_word1 cmd) 0xFFF in
  let '(mask, key_tg) := tlbi_mask cmd in
  s_mod (iotlb_inv_where (fun k => (andnot (k_iova k) mask =? andnot va mask) && (k_tg k =? key_tg))).
Definition handle_cmd_tlbi_s12_vmall (cmd : list Z) : M unit :=
  s_mod (iotlb_inv_vmid (extract (cmd_word0 cmd) 32 16)).
Definition handle_cmd_tlbi_s2_ipa (cmd : list Z) : M unit :=
  let vmid := extract (cmd_word0 cmd) 32 16 in
  let ipa := Z.land (cmd_word1 cmd) IPA_ADDR_MASK in
  let '(mask, key_tg) := tlbi_mask cmd in
  s_mod (iotlb_inv_where (fun k => (k_vmid k =? vmid) && (andnot (k_iova k) mask =? andnot ipa mask) && (k_tg k =? key_tg))).

(** Every TBU's upstream socket is told to drop the range. *)
Definition handle_cmd_atc_inv (cmd : list Z) : M unit :=
  let size := Z.land (cmd_word1 cmd) 0x3F in
  let addr_lo := andnot (cmd_word1 cmd) 0xFFF in
  let range := safe_shl1_u64 (size + 12) in
  let fin := u64 (addr_lo + range - 1) in
  sm_iter (fun i => output (OInvalidate i addr_lo fin)) (seq 0 (num_tbus cfg)).

(** The message of a SYNC with an interrupt completion signal. *)
Definition sync_msi (cmd : list Z) (failed : M unit) : M unit :=
  let msiaddr := Z.land (cmd_word1 cmd) 0x000FFFFFFFFFFFFC in
  let msidata := extract (cmd_word0 cmd) 32 32 in
  if msiaddr =? 0 then sm_ret tt
  else do! ok := dma_write bus msiaddr (store_le 4 msidata) in sm_when (negb ok) failed.

Definition sync_cs (cmd : list Z) : Z := extract (cmd_word0 cmd) 12 2.

Definition handle_cmd_sync (cmd : list Z) : M unit :=
  if sync_cs cmd =? 1 then
    sync_msi cmd (set_gerror bus cfg GERROR_BIT_MSI_CMDQ_ABT) ;;! trigger_irq cfg irq_cmd_sync
  else sm_ret tt.

Definition handle_cmd_resume (cmd : list Z) : M unit :=
  let stag := cmd_word cmd 4 4 in
  let resp := cmd_word cmd 11 1 in
  do! s := s_get in
  match s_stalled s !! stag with
  | None => sm_ret tt
  | Some t =>
      s_mod (fun s => if resp =? 0 then s
                      else set_stalled (<[stag := mk_stalled (st_sid t) (st_ssid t) true]> (s_stalled s))
                             (s_next_stag s) s) ;;!
      output (OResume stag)
  end.

(** The [switch] of [consume_cmdq]; [None] is the default case. *)
Definition dispatch (cmd : list Z) : option (M unit) :=
  match cmd_word cmd 0 1 with
  | 0x01 | 0x02 => Some (sm_ret tt)
  | 0x03 => Some (handle_cmd_cfgi_ste cmd)
  | 0x04 => Some handle_cmd_cfgi_ste_range
  | 0x05 | 0x06 => Some handle_cmd_cfgi_cd
  | 0x07 => Some handle_cmd_cfgi_all
  | 0x10 | 0x18 | 0x20 | 0x30 => Some handle_cmd_tlbi_nh_all
  | 0x11 | 0x21 => Some (handle_cmd_tlbi_nh_asid cmd)
  | 0x12 | 0x1A | 0x22 => Some (handle_cmd_tlbi_nh_va cmd)
  | 0x13 | 0x23 => Some (handle_cmd_tlbi_nh_vaa cmd)
  | 0x28 => Some (handle_cmd_tlbi_s12_vmall cmd)
  | 0x2A => Some (handle_cmd_tlbi_s2_ipa cmd)
  | 0x40 => Some (handle_cmd_atc_inv cmd)
  | 0x41 => Some (sm_ret tt)
  | 0x44 => Some (handle_cmd_resume cmd)
  | 0x45 => Some (sm_ret tt)
  | 0x46 => Some (handle_cmd_sync cmd)
  | _ => None
  end.

(** The [switch] of [consume_secure_cmdq]. *)
Definition dispatch_secure (cmd : list Z) : option (M unit) :=
  match cmd_word cmd 0 1 with
  | 0x01 | 0x02 => Some (sm_ret tt)
  | 0x03 => Some (s_mod (fun s => set_secure (delete (cmd_word cmd 4 4) (s_ste_secure s)) (s_cd_secure s) s))
  | 0x04 => Some (s_mod (fun s => set_secure ∅ (s_cd_secure s) s))
  | 0x05 | 0x06 => Some (s_mod (fun s => set_secure (s_ste_secure s) ∅ s))
  | 0x07 => Some (s_mod (set_secure ∅ ∅))
  | 0x30 | 0x10 | 0x11 | 0x12 | 0x13 | 0x28 | 0x2A => Some (s_mod iotlb_inv_all)
  | 0x46 => Some (if sync_cs cmd =? 1 then sync_msi cmd (set_secure_gerror bus cfg GERROR_BIT_MSI_CMDQ_ABT)
                  else sm_ret tt)
  | _ => None
  end.

(** The loop of both queues: commands are fetched and run until the consumer meets the
    producer, or stops at a command that cannot be fetched or is not known. *)
Fixpoint cmdq_loop (disp : list Z -> option (M unit)) (cons_reg : Z) (err : Z -> M unit) (base log2size prod : Z)
    (fuel : nat) (cns : Z) : M unit :=
  let wrap_mask := Z.ones (log2size + 1) in
  if Z.land prod wrap_mask =? Z.land cns wrap_mask then rset cons_reg cns
  else
    match fuel with
    | O => sm_fail StopUndef
    | S fuel' =>
        let idx := Z.land cns (Z.ones log2size) in
        do! b := dma_read bus (u64 (base + idx * SMMUV3_CMD_SIZE)) 16 in
        match b with
        | None => rset cons_reg cns ;;! err CERROR_ABT
        | Some cmd =>
            match disp cmd with
            | None => rset cons_reg cns ;;! err CERROR_ILL
            | Some m => m ;;! cmdq_loop disp cons_reg err base log2size prod fuel' (Z.land (u32 (cns + 1)) wrap_mask)
            end
        end
    end.

Definition consume_with (disp : list Z -> option (M unit)) (base_hi base_lo prod_reg cons_reg : Z)
    (log2_field : reg_field) (err : Z -> M unit) : M unit :=
  do! hi := rget base_hi in
  do! lo := rget base_lo in
  let base := Z.lor (Z.shiftl (Z.land hi CMDQ_BASE_HI_MASK) 32) (andnot lo 31) in
  do! l2 := fget log2_field in
  let log2size := clamp_queue_log2size l2 in
  if log2size =? 0 then sm_ret tt
  else
    do! prod := rget prod_reg in
    do! cns := rget cons_reg in
    cmdq_loop disp cons_reg err base log2size prod (Z.to_nat (2 ^ (log2size + 1))) cns.

Definition consume_cmdq : M unit :=
  consume_with dispatch CMDQ_BASE_HI CMDQ_BASE_LO CMDQ_PROD CMDQ_CONS CMDQ_BASE_LOG2SIZE (set_cmdq_err bus cfg).

Definition consume_secure_cmdq : M unit :=
  consume_with dispatch_secure S_CMDQ_BASE_HI S_CMDQ_BASE_LO S_CMDQ_PROD S_CMDQ_CONS S_CMDQ_BASE_LOG2SIZE
    (set_secure_cmdq_err bus cfg).

End Queues.

(** ** Ring arithmetic *)

Lemma queue_log2_range l : 0 <= l -> 0 <= clamp_queue_log2size l <= 19.
Proof. intros. unfold clamp_queue_log2size. destruct (Z.ltb_spec 19 l); lia. Qed.

Lemma clamp_clamp l : clamp_queue_log2size (clamp_queue_log2size l) = clamp_queue_log2size l.
Proof. unfold clamp_queue_log2size. destruct (Z.ltb_spec 19 l); [done|]. destruct (Z.ltb_spec 19 l); [lia|done]. Qed.

(** The value after [c] of a pointer with a wrap bit. *)
Lemma ring_next c l : 0 <= l <= 19 -> Z.land (u32 (c + 1)) (Z.ones (l + 1)) = (c + 1) mod 2 ^ (l + 1).
Proof.
  intros Hl. rewrite Z.land_ones by lia. unfold wrap. replace (2 ^ 32) with (2 ^ (l + 1) * 2 ^ (31 - l)).
  - rewrite Z.rem_mul_r by lia. rewrite (Z.mul_comm (2 ^ (l + 1))), Z_mod_plus_full. apply Z.mod_mod. lia.
  - rewrite <- Z.pow_add_r by lia. f_equal. lia.
Qed.

(** How far [c] is behind [p]. *)
Definition ring_dist (l p c : Z) : Z := (p - c) mod 2 ^ (l + 1).

Lemma ring_dist_range l p c : 0 <= l -> 0 <= ring_dist l p c < 2 ^ (l + 1).
Proof. intros. apply Z.mod_pos_bound. lia. Qed.

Lemma ring_dist_zero l p c :
  0 <= l -> (Z.land p (Z.ones (l + 1)) =? Z.land c (Z.ones (l + 1))) = (ring_dist l p c =? 0).
Proof.
  intros Hl. rewrite !Z.land_ones by lia. unfold ring_dist. assert (2 ^ (l + 1) <> 0) as Hn by lia.
  apply eq_true_iff_eq. rewrite !Z.eqb_eq. split.
  - intros H. rewrite Zminus_mod, H, Z.sub_diag. by apply Z.mod_0_l.
  - intros H. apply Z.mod_divide in H as [k H]; [|done]. replace p with (c + k * 2 ^ (l + 1)) by lia. apply Z_mod_plus_full.
Qed.

Lemma ring_dist_next l p c :
  0 <= l <= 19 -> ring_dist l p c <> 0 -> ring_dist l p ((c + 1) mod 2 ^ (l + 1)) = ring_dist l p c - 1.
Proof.
  intros Hl Hd. pose proof (ring_dist_range l p c). unfold ring_dist in *.
  rewrite Zminus_mod_idemp_r. replace (p - (c + 1)) with ((p - c) - 1) by lia.
  rewrite <- Zminus_mod_idemp_l. apply Z.mod_small. lia.
Qed.

(** Pointers within the ring, the producer at most one lap ahead. *)
Record ring_ok (l p c : Z) : Prop := {
  ring_size : 0 <= l <= 19;
  ring_prod : 0 <= p < 2 ^ (l + 1);
  ring_cons : 0 <= c < 2 ^ (l + 1);
  ring_lap : ring_dist l p c <= 2 ^ l;
}.

Lemma lxor_half x l : 0 <= l -> 0 <= x < 2 ^ l -> Z.lxor x (x + 2 ^ l) = 2 ^ l.
Proof.
  intros Hl Hx. rewrite (Z.add_nocarry_lxor x (2 ^ l)); [by rewrite <- Z.lxor_assoc, Z.lxor_nilpotent, Z.lxor_0_l|].
  apply Z.bits_inj'. intros i Hi. rewrite Z.land_spec, Z.bits_0, Z.pow2_bits_eqb by lia.
  destruct (Z.eqb_spec l i); [|apply andb_false_r]. by rewrite (testbit_above l) by lia.
Qed.

Lemma ring_split l x : 0 <= l -> 0 <= x < 2 ^ (l + 1) -> x = x mod 2 ^ l \/ x = x mod 2 ^ l + 2 ^ l.
Proof.
  intros Hl Hx. rewrite Z.pow_add_r in Hx by lia. pose proof (Z.div_mod x (2 ^ l)). pose proof (Z.mod_pos_bound x (2 ^ l)).
  assert (x / 2 ^ l < 2) by (apply Z.div_lt_upper_bound; lia). assert (0 <= x / 2 ^ l) by (apply Z.div_pos; lia).
  assert (x / 2 ^ l = 0 \/ x / 2 ^ l = 1) as [E|E] by lia; rewrite E in *; lia.
Qed.

(** [queue_full] holds exactly one lap ahead. *)
Lemma queue_full_spec l p c : ring_ok l p c -> queue_full p c l = (ring_dist l p c =? 2 ^ l).
Proof.
  intros [Hl Hp Hc Hlap]. unfold queue_full. replace (clamp_queue_log2size l) with l
    by (unfold clamp_queue_log2size; destruct (Z.ltb_spec 19 l); lia).
  rewrite !Z.land_ones, Z.shiftl_1_l by lia. pose proof (Z.pow_pos_nonneg 2 l) as Hpos.
  assert (2 ^ (l + 1) = 2 * 2 ^ l) as Hpow by (rewrite Z.pow_add_r by lia; lia).
  pose proof (Z.mod_pos_bound p (2 ^ l)). pose proof (Z.mod_pos_bound c (2 ^ l)). unfold ring_dist in *.
  destruct (Z.eqb_spec (p mod 2 ^ l) (c mod 2 ^ l)) as [E|E].
  - rewrite andb_true_r. destruct (ring_split l p ltac:(lia) Hp) as [Ep|Ep], (ring_split l c ltac:(lia) Hc) as [Ec|Ec].
    + replace p with c by lia. rewrite Z.lxor_nilpotent, Z.sub_diag, Z.mod_0_l by lia. done.
    + rewrite Ec, <- E, <- Ep, lxor_half, Z.eqb_refl by lia. symmetry. apply Z.eqb_eq.
      replace (p - (p + 2 ^ l)) with (2 ^ l + (-1) * 2 ^ (l + 1)) by lia. rewrite Z_mod_plus_full. apply Z.mod_small. lia.
    + rewrite Ep, E, <- Ec, Z.lxor_comm, lxor_half, Z.eqb_refl by lia. symmetry. apply Z.eqb_eq.
      replace (c + 2 ^ l - c) with (2 ^ l) by lia. apply Z.mod_small. lia.
    + replace p with c by lia. rewrite Z.lxor_nilpotent, Z.sub_diag, Z.mod_0_l by lia. done.
  - rewrite andb_false_r. symmetry. apply Z.eqb_neq. intros Hd. apply E.
    assert ((p - c) mod 2 ^ l = 0) as Hz.
    { pose proof (Z.div_mod (p - c) (2 ^ (l + 1))). replace (p - c) with (0 + (2 * ((p - c) / 2 ^ (l + 1)) + 1) * 2 ^ l) by lia.
      rewrite Z_mod_plus_full. apply Z.mod_0_l. lia. }
    apply Z.mod_divide in Hz as [k Hk]; [|lia]. replace p with (c + k * 2 ^ l) by lia. apply Z_mod_plus_full.
Qed.

(** The slot of a new entry is none of the unread ones. *)
Lemma ring_slot_free l p c k :
  ring_ok l p c -> 0 <= k < ring_dist l p c -> ring_dist l p c < 2 ^ l -> (c + k) mod 2 ^ l <> p mod 2 ^ l.
Proof.
  intros [Hl Hp Hc Hlap] Hk Hd E. unfold ring_dist in *.
  assert (2 ^ (l + 1) = 2 * 2 ^ l) as Hpow by (rewrite Z.pow_add_r by lia; lia).
  assert ((p - c - k) mod 2 ^ l = 0) as Hz.
  { replace (p - c - k) with (p - (c + k)) by lia. rewrite Zminus_mod, E, Z.sub_diag. apply Z.mod_0_l. lia. }
  pose proof (Z.div_mod (p - c) (2 ^ (l + 1))). set (d := (p - c) mod 2 ^ (l + 1)) in *.
  replace (p - c - k) with (d - k + 2 * ((p - c) / 2 ^ (l + 1)) * 2 ^ l) in Hz by lia.
  rewrite Z_mod_plus_full, Z.mod_small in Hz; lia.
Qed.

(** ** Messages *)

(** Interrupts can be messages: writes to memory, of 4 bytes, at an address that the registers of a
    line give.  [messages] relates memory before and after any number of them. *)
Definition msi_lines : list (Z * Z) :=
  [(GERROR_IRQ_CFG0_LO, GERROR_IRQ_CFG0_HI); (EVENTQ_IRQ_CFG0_LO, EVENTQ_IRQ_CFG0_HI); (PRIQ_IRQ_CFG0_LO, PRIQ_IRQ_CFG0_HI)].

Definition msi_addr (f : reg_file) (a : Z) : Prop :=
  exists lo hi, (lo, hi) ∈ msi_lines /\
    a = Z.lor (Z.shiftl (reg_get hi f) 32) (reg_get lo f) /\ a <> 0.

Inductive messages {W} (bus : dma_bus W) (f : reg_file) : W -> W -> Prop :=
| ms_none w : messages bus f w w
| ms_send a v s ok s' w : msi_addr f a -> dma_write bus a (store_le 4 v) s = Ret (ok, s') -> messages bus f s'.2 w -> messages bus f s.2 w.

(** The registers that give the addresses. *)
Definition msi_same (f f' : reg_file) : Prop := forall lo hi, (lo, hi) ∈ msi_lines -> reg_get lo f' = reg_get lo f /\ reg_get hi f' = reg_get hi f.

(** They stay, and messages are all that is written. *)
Definition reports {W A} (bus : dma_bus W) (m : SM (smmu * W) A) : Prop :=
  forall s a s', m s = Ret (a, s') -> msi_same (s_regs s.1) (s_regs s'.1) /\ messages bus (s_regs s.1) s.2 s'.2.

Section Reports.
Context {W : Type} (bus : dma_bus W) (cfg : smmu_config) `{!BusTotal bus}.

Lemma messages_regs f f' w w' : msi_same f f' -> messages bus f' w w' -> messages bus f w w'.
Proof.
  intros Hf. induction 1 as [|a v s ok s' w (lo & hi & Hin & -> & Hne) Hw _ IH]; [constructor|]. eapply ms_send; [|exact Hw|exact IH].
  destruct (Hf lo hi Hin) as [Hlo Hhi]. exists lo, hi. by rewrite Hlo, Hhi in *.
Qed.

Lemma messages_trans f w1 w2 w3 : messages bus f w1 w2 -> messages bus f w2 w3 -> messages bus f w1 w3.
Proof. induction 1; [done|]. intros. eapply ms_send; eauto. Qed.

Lemma reports_bind {A B} (m : SM (smmu * W) A) (k : A -> SM (smmu * W) B) : reports bus m -> (forall a, reports bus (k a)) -> reports bus (sm_bind m k).
Proof.
  intros Hm Hk s b s' H. apply sm_bind_Ret in H as (a & s1 & H1 & H2). apply Hm in H1 as [E1 M1]. apply Hk in H2 as [E2 M2].
  split; [intros lo hi Hin; destruct (E1 lo hi Hin), (E2 lo hi Hin); split; congruence|]. eapply messages_trans; [exact M1|]. by eapply messages_regs.
Qed.

(** An operation that leaves registers and memory. *)
Lemma reports_pure {A} (m : SM (smmu * W) A) : (forall s a s', m s = Ret (a, s') -> s_regs s'.1 = s_regs s.1 /\ s'.2 = s.2) -> reports bus m.
Proof. intros H s a s' E. destruct (H s a s' E) as [-> ->]. split; [done|constructor]. Qed.

Lemma reports_ret {A} (a : A) : reports bus (sm_ret a).
Proof. apply reports_pure. by intros s b s' [= _ <-]. Qed.

Lemma reports_read {A} (m : SM (smmu * W) A) : (exists f, m = fun s => Ret (f s, s)) -> reports bus m.
Proof. intros [f ->]. apply reports_pure. by intros s b s' [= _ <-]. Qed.

Lemma msi_same_set f r v : r <> GERROR_IRQ_CFG0_LO -> r <> GERROR_IRQ_CFG0_HI -> r <> EVENTQ_IRQ_CFG0_LO -> r <> EVENTQ_IRQ_CFG0_HI ->
  r <> PRIQ_IRQ_CFG0_LO -> r <> PRIQ_IRQ_CFG0_HI -> msi_same f (reg_set r v f).
Proof.
  intros ? ? ? ? ? ? lo hi Hin. unfold msi_lines in Hin. rewrite !elem_of_cons, elem_of_nil in Hin.
  destruct Hin as [E|[E|[E|[]]]]; injection E as -> ->; by rewrite !reg_get_set_ne.
Qed.

Lemma reports_gerror v : reports bus (rset GERROR v).
Proof. intros s a s' [= _ <-]. split; [by apply msi_same_set|constructor]. Qed.

Lemma reports_drive line l n : reports bus (drive_irq_level (W := W) cfg line l n).
Proof. apply reports_pure. intros s a s'. unfold drive_irq_level, sm_when, sm_ret, output, s_mod. destruct (Bool.eqb l n), (irq_bound cfg line); by intros [= _ <-]. Qed.

Lemma reports_irq f : reports bus (s_mod (W := W) (set_irq f)).
Proof. apply reports_pure. by intros s a s' [= _ <-]. Qed.

Lemma reports_set_gerror update b : reports bus update -> reports bus (set_gerror_with update b).
Proof.
  intros Hu. unfold set_gerror_with. apply reports_bind; [apply reports_read; by eexists|]. intros e. apply reports_bind; [apply reports_read; by eexists|]. intros k.
  destruct (bit _ b); [apply reports_ret|]. apply reports_bind; [apply reports_gerror|done].
Qed.

Lemma reports_msi c update lo hi d b : reports bus update ->
  (lo, hi) ∈ msi_lines ->
  reports bus (msi_if bus c update lo hi d b).
Proof.
  intros Hu Hin. unfold msi_if. destruct c; [|apply reports_ret]. intros s a s'. sm_reads. unfold emit_msi_with. cbv zeta.
  destruct (Z.eqb_spec (Z.lor (Z.shiftl (reg_get hi (s_regs s.1)) 32) (reg_get lo (s_regs s.1))) 0) as [|Hne]; [apply reports_ret|].
  intros H. apply sm_bind_Ret in H as (ok & s1 & Hw & H). pose proof Hw as Hw'.
  edestruct (dma_write_total bus) as (ok' & s1' & E & Hd). rewrite E in Hw. injection Hw as <- <-. destruct Hd as [dd Hd].
  assert (reports bus (sm_when (negb ok') (set_gerror_with update b))) as Hr by (unfold sm_when; destruct (negb ok'); [by apply reports_set_gerror|apply reports_ret]).
  apply Hr in H as [Hreg Hmsg]. rewrite Hd in Hreg, Hmsg. split; [exact Hreg|]. eapply ms_send; [|exact Hw'|exact Hmsg]. by exists lo, hi.
Qed.

Lemma reports_update n : reports bus (update_irq_levels bus cfg n).
Proof.
  induction n as [|n IH]; cbn [update_irq_levels]; [by intros s a s'|].
  repeat (apply reports_bind; [first [apply reports_irq|apply reports_drive|apply reports_msi; [exact IH|unfold msi_lines; set_solver]|apply reports_read; by eexists]|intros ?]). apply reports_drive.
Qed.

Lemma reports_update_irqs : reports bus (update_irqs bus cfg).
Proof. apply (reports_update irq_fuel). Qed.

Lemma reports_gerror_bit b : reports bus (set_gerror bus cfg b).
Proof. apply reports_set_gerror, reports_update_irqs. Qed.
End Reports.

Section QueueProps.
Context {W : Type} (bus : dma_bus W) (cfg : smmu_config) `{!BusTotal bus}.
Abbreviation M := (SM (smmu * W)).

(** ** Producing *)

(** The pointers and size of the event queue. *)
Definition eventq_l (s : smmu) : Z := clamp_queue_log2size (field_get EVENTQ_BASE_LOG2SIZE (s_regs s)).
Definition eventq_p (s : smmu) : Z := reg_get EVENTQ_PROD (s_regs s).
Definition eventq_c (s : smmu) : Z := reg_get EVENTQ_CONS (s_regs s).
Definition eventq_slot (s : smmu) (i : Z) : Z :=
  u64 (Z.lor (Z.shiftl (reg_get EVENTQ_BASE_HI (s_regs s)) 32) (andnot (reg_get EVENTQ_BASE_LO (s_regs s)) 31)
       + i mod 2 ^ eventq_l s * SMMUV3_EVENT_SIZE).

(** An entry is recorded: the bytes in the producer's slot, the producer moved on. *)
Lemma eventq_push_ok entry s :
  regs_ok (s_regs s.1) -> ring_ok (eventq_l s.1) (eventq_p s.1) (eventq_c s.1) ->
  exists s', queue_push bus EVENTQ_BASE_HI EVENTQ_BASE_LO EVENTQ_PROD EVENTQ_CONS EVENTQ_BASE_LOG2SIZE SMMUV3_EVENT_SIZE
      (set_gerror bus cfg GERROR_BIT_EVENTQ_ABT) (update_irqs bus cfg) entry s = Ret (tt, s') /\
    if ring_dist (eventq_l s.1) (eventq_p s.1) (eventq_c s.1) =? 2 ^ eventq_l s.1
    then eventq_p s'.1 = eventq_p s.1 /\ bit (active s'.1) GERROR_BIT_EVENTQ_ABT = true /\
         set_gerror bus cfg GERROR_BIT_EVENTQ_ABT s = Ret (tt, s')
    else exists ok s1, dma_write bus (eventq_slot s.1 (eventq_p s.1)) entry s = Ret (ok, s1) /\ messages bus (s_regs s.1) s1.2 s'.2 /\
         if (ok : bool) then eventq_p s'.1 = (eventq_p s.1 + 1) mod 2 ^ (eventq_l s.1 + 1)
         else eventq_p s'.1 = eventq_p s.1 /\ bit (active s'.1) GERROR_BIT_EVENTQ_ABT = true.
Proof.
  intros Hok Hr. unfold queue_push. sm_reads. fold (eventq_l s.1) (eventq_p s.1) (eventq_c s.1).
  pose proof (ring_size _ _ _ Hr) as Hl. rewrite queue_full_spec by done.
  destruct (_ =? 2 ^ eventq_l s.1).
  - destruct (set_gerror_ok bus cfg GERROR_BIT_EVENTQ_ABT s Hok) as (s' & E & Hf & Hb & _); [by cbv|].
    exists s'. split; [done|]. split_and!; try done. by apply (fr_regs _ _ _ Hf).
  - rewrite Z.land_ones by lia. fold (eventq_slot s.1 (eventq_p s.1)). unfold sm_bind at 1.
    destruct (dma_write_total bus (eventq_slot s.1 (eventq_p s.1)) entry s) as (ok & s1 & E & [d Hd]). rewrite E.
    assert (s_regs s1.1 = s_regs s.1) as Er by by rewrite Hd. destruct ok; cbn [negb].
    + unfold sm_bind, rset, s_mod. rewrite ring_next by done. set (s2 := set_regs _ s1.1).
      destruct (update_irqs_ok bus cfg (s2, s1.2)) as (s' & E2 & Hf).
      { apply regs_ok_set. by rewrite Er. }
      exists s'. split; [done|]. exists true, s1. split; [done|]. split.
      { destruct (reports_update_irqs bus cfg (s2, s1.2) tt s' E2) as [_ Hm]. eapply messages_regs; [|exact Hm]. cbn [fst s2 set_regs s_regs]. rewrite Er. by apply msi_same_set. }
      unfold eventq_p. rewrite (fr_regs _ _ _ Hf) by done. cbn [fst s2 set_regs s_regs]. rewrite reg_get_set_eq.
      apply wrap_small. unfold in_width. assert (2 ^ (eventq_l s.1 + 1) <= 2 ^ 20) by (apply Z.pow_le_mono_r; lia).
      pose proof (Z.mod_pos_bound (reg_get EVENTQ_PROD (s_regs s.1) + 1) (2 ^ (eventq_l s.1 + 1))). lia.
    + destruct (set_gerror_ok bus cfg GERROR_BIT_EVENTQ_ABT s1) as (s' & E2 & Hf & Hb & _); [by rewrite Er|by cbv|].
      exists s'. split; [done|]. exists false, s1. split_and!; try done.
      { destruct (reports_gerror_bit bus cfg GERROR_BIT_EVENTQ_ABT s1 tt s' E2) as [_ Hm]. by rewrite Er in Hm. }
      unfold eventq_p. rewrite (fr_regs _ _ _ Hf) by done. by rewrite Er.
Qed.

(** Recording ends, and leaves the caches alone. *)
Definition ends (m : M unit) : Prop :=
  forall s, regs_ok (s_regs s.1) -> exists s', m s = Ret (tt, s') /\ same_caches s.1 s'.1.

Lemma queue_push_ends hi lo pr cr f n abort done entry :
  ends abort -> ends done -> ends (queue_push bus hi lo pr cr f n abort done entry).
Proof.
  intros Ha Hd s Hok. unfold queue_push. sm_reads. destruct (queue_full _ _ _); [by apply Ha|]. unfold sm_bind at 1.
  edestruct (dma_write_total bus) as (ok & s1 & -> & Hw). apply dma_only_frame, irq_frame_caches in Hw; [|done].
  destruct ok; cbn [negb].
  - unfold sm_bind, rset, s_mod. match goal with |- context [done ?x] => destruct (Hd x) as (s' & -> & H); [by apply regs_ok_set, Hw|] end.
    exists s'. split; [done|]. eapply same_caches_trans; [exact Hw|]. eapply same_caches_trans; [|exact H].
    apply same_caches_reg, Hw.
  - destruct (Ha s1) as (s' & E & H); [apply Hw|]. exists s'. split; [done|]. by eapply same_caches_trans.
Qed.

Lemma set_gerror_ends b : 0 <= b < 32 -> ends (set_gerror bus cfg b).
Proof.
  intros Hb s Hok. destruct (set_gerror_ok bus cfg b s Hok Hb) as (s' & E & H & _). exists s'. split; [done|].
  by eapply irq_frame_caches.
Qed.

Lemma update_irqs_ends : ends (update_irqs bus cfg).
Proof.
  intros s Hok. destruct (update_irqs_ok bus cfg s Hok) as (s' & E & H). exists s'. split; [done|].
  by eapply irq_frame_caches.
Qed.

Lemma record_event_full_ends type sid ssid iova cmd class_ level stag stall :
  ends (record_event_full bus cfg type sid ssid iova cmd class_ level stag stall).
Proof.
  intros s Hok. unfold record_event_full. sm_reads. destruct (_ =? 0); [exists s; split; [done|by apply same_caches_refl]|].
  apply queue_push_ends; [by apply set_gerror_ends|apply update_irqs_ends|done].
Qed.

Lemma record_pri_ends sid iova flags : ends (record_pri bus cfg sid iova flags).
Proof.
  intros s Hok. unfold record_pri. sm_reads. destruct (_ =? 0); [exists s; split; [done|by apply same_caches_refl]|].
  apply queue_push_ends; [by apply set_gerror_ends|apply update_irqs_ends|done].
Qed.

(** ** Consuming *)

(** The commands run from the pointer [c] on, in ring order, and where they end. *)
Inductive ran (disp : list Z -> option (M unit)) (base l : Z) : Z -> smmu * W -> list (list Z) -> Z -> smmu * W -> Prop :=
| ran_nil c s : ran disp base l c s [] c s
| ran_cons c s cmd s1 m s2 cmds c' s' :
    dma_read bus (u64 (base + c mod 2 ^ l * SMMUV3_CMD_SIZE)) 16 s = Ret (Some cmd, s1) ->
    disp cmd = Some m -> m s1 = Ret (tt, s2) ->
    ran disp base l ((c + 1) mod 2 ^ (l + 1)) s2 cmds c' s' ->
    ran disp base l c s (cmd :: cmds) c' s'.

(** Why consumption stopped at [c]. *)
Inductive stopped (disp : list Z -> option (M unit)) (base l p : Z) (c : Z) (s : smmu * W) : option Z -> smmu * W -> Prop :=
| stopped_empty : ring_dist l p c = 0 -> stopped disp base l p c s None s
| stopped_abort s1 :
    dma_read bus (u64 (base + c mod 2 ^ l * SMMUV3_CMD_SIZE)) 16 s = Ret (None, s1) ->
    stopped disp base l p c s (Some CERROR_ABT) s1
| stopped_illegal cmd s1 :
    dma_read bus (u64 (base + c mod 2 ^ l * SMMUV3_CMD_SIZE)) 16 s = Ret (Some cmd, s1) -> disp cmd = None ->
    stopped disp base l p c s (Some CERROR_ILL) s1.

(** The handlers of a queue end and keep the registers well formed. *)
Definition handlers_total (disp : list Z -> option (M unit)) : Prop :=
  forall cmd m, disp cmd = Some m -> forall s, regs_ok (s_regs s.1) -> exists s', m s = Ret (tt, s') /\ regs_ok (s_regs s'.1).

Lemma cmdq_loop_drains disp cons_reg err base l p :
  handlers_total disp -> 0 <= l <= 19 ->
  (forall e s, regs_ok (s_regs s.1) -> e = CERROR_ABT \/ e = CERROR_ILL -> exists s', err e s = Ret (tt, s')) ->
  forall fuel c s, regs_ok (s_regs s.1) -> ring_dist l p c <= Z.of_nat fuel ->
  exists cmds c' s1 stop s2 s',
    cmdq_loop bus disp cons_reg err base l p fuel c s = Ret (tt, s') /\
    ran disp base l c s cmds c' s1 /\ stopped disp base l p c' s1 stop s2 /\ regs_ok (s_regs s2.1) /\
    ring_dist l p c' = ring_dist l p c - Z.of_nat (length cmds) /\
    (rset cons_reg c' ;;! match stop with Some e => err e | None => sm_ret tt end) s2 = Ret (tt, s').
Proof.
  intros Hdisp Hl Herr. induction fuel as [|fuel IH]; intros c s Hok Hf; cbn [cmdq_loop]; rewrite ring_dist_zero by lia.
  { pose proof (ring_dist_range l p c). rewrite (proj2 (Z.eqb_eq _ 0)) by lia.
    eexists [], c, s, None, s, _. split_and!; try done; [constructor|constructor; lia|cbn; lia]. }
  destruct (Z.eqb_spec (ring_dist l p c) 0) as [E|E].
  { eexists [], c, s, None, s, _. split_and!; try done; [constructor|by constructor|cbn; lia]. }
  rewrite Z.land_ones by lia. unfold sm_bind at 1.
  destruct (dma_read_total bus (u64 (base + c mod 2 ^ l * SMMUV3_CMD_SIZE)) 16 s) as (b & s1 & Er & [d Hd]).
  rewrite Er. assert (regs_ok (s_regs s1.1)) as Hok1 by by rewrite Hd.
  assert (forall e, e = CERROR_ABT \/ e = CERROR_ILL -> exists s', (rset cons_reg c ;;! err e) s1 = Ret (tt, s')) as Hstop.
  { intros e He. unfold sm_bind, rset, s_mod. apply Herr; [|done]. by apply regs_ok_set. }
  destruct b as [cmd|].
  - destruct (disp cmd) as [m|] eqn:Ed.
    + destruct (Hdisp _ _ Ed s1 Hok1) as (s2 & Em & Hok2). unfold sm_bind at 1. rewrite Em, ring_next by done.
      destruct (IH ((c + 1) mod 2 ^ (l + 1)) s2 Hok2) as (cmds & c' & s3 & st & s4 & s' & H1 & H2 & H3 & H4 & H5 & H6).
      { rewrite ring_dist_next by done. lia. }
      exists (cmd :: cmds), c', s3, st, s4, s'. split_and!; try done; [by econstructor|].
      rewrite H5, ring_dist_next by done. cbn [length]. lia.
    + destruct (Hstop CERROR_ILL) as (s' & Es); [by right|].
      exists [], c, s, (Some CERROR_ILL), s1, s'. split_and!; try done; [constructor|by econstructor|cbn; lia].
  - destruct (Hstop CERROR_ABT) as (s' & Es); [by left|].
    exists [], c, s, (Some CERROR_ABT), s1, s'. split_and!; try done; [constructor|by constructor|cbn; lia].
Qed.

(** ** The non-secure queue *)

Lemma outputs_ok (f : nat -> out_event) l (s : smmu * W) :
  regs_ok (s_regs s.1) ->
  exists s', sm_iter (fun i => output (f i)) l s = Ret (tt, s') /\ regs_ok (s_regs s'.1).
Proof.
  revert s. induction l as [|x l IH]; intros s Hok; cbn [sm_iter]; [by exists s|]. apply IH. done.
Qed.

Lemma trigger_irq_ok line (s : smmu * W) :
  regs_ok (s_regs s.1) -> exists s', trigger_irq cfg line s = Ret (tt, s') /\ regs_ok (s_regs s'.1).
Proof. intros. unfold trigger_irq. destruct (irq_bound cfg line); by eexists. Qed.

Lemma sync_msi_ok cmd failed s :
  regs_ok (s_regs s.1) -> (forall s1, regs_ok (s_regs s1.1) -> exists s', failed s1 = Ret (tt, s') /\ regs_ok (s_regs s'.1)) ->
  exists s', sync_msi bus cmd failed s = Ret (tt, s') /\ regs_ok (s_regs s'.1).
Proof.
  intros Hok Hf. unfold sync_msi. destruct (_ =? 0); [by exists s|]. unfold sm_bind.
  edestruct (dma_write_total bus) as (ok & s1 & -> & [d Hd]).
  assert (regs_ok (s_regs s1.1)) by by rewrite Hd. destruct ok; cbn [negb sm_when]; [by exists s1|]. by apply Hf.
Qed.

Lemma gerror_regs_ok b s :
  0 <= b < 32 -> regs_ok (s_regs s.1) -> exists s', set_gerror bus cfg b s = Ret (tt, s') /\ regs_ok (s_regs s'.1).
Proof. intros Hb Hok. destruct (set_gerror_ok bus cfg b s Hok Hb) as (s' & E & Hf & _). exists s'. split; [done|apply (fr_ok _ _ _ Hf)]. Qed.

Lemma handle_cmd_sync_ok cmd s :
  regs_ok (s_regs s.1) -> exists s', handle_cmd_sync bus cfg cmd s = Ret (tt, s') /\ regs_ok (s_regs s'.1).
Proof.
  intros Hok. unfold handle_cmd_sync. destruct (_ =? 1); [|by exists s]. unfold sm_bind.
  destruct (sync_msi_ok cmd (set_gerror bus cfg GERROR_BIT_MSI_CMDQ_ABT) s Hok) as (s1 & -> & Hok1).
  - intros. by apply gerror_regs_ok.
  - by apply trigger_irq_ok.
Qed.

Lemma handle_cmd_resume_ok cmd (s : smmu * W) :
  regs_ok (s_regs s.1) -> exists s', handle_cmd_resume cmd s = Ret (tt, s') /\ regs_ok (s_regs s'.1).
Proof.
  intros Hok. unfold handle_cmd_resume. sm_reads. destruct (s_stalled s.1 !! _); [|by exists s].
  eexists. split; [done|]. cbn. by destruct (_ =? 0).
Qed.

Lemma inv_where_regs hit s : s_regs (iotlb_inv_where hit s) = s_regs s.
Proof. unfold iotlb_inv_where. by destruct (inv_where hit (s_iotlb s) (s_iotlb_lru s)). Qed.

(** A change of the state that keeps the registers. *)
Lemma s_mod_ok f (s : smmu * W) :
  regs_ok (s_regs s.1) -> s_regs (f s.1) = s_regs s.1 -> exists s', s_mod f s = Ret (tt, s') /\ regs_ok (s_regs s'.1).
Proof. intros Hok E. eexists. split; [done|]. cbn. by rewrite E. Qed.

Lemma dispatch_total : handlers_total (dispatch bus cfg).
Proof.
  intros cmd m Hd s Hok. unfold dispatch in Hd.
  repeat (match type of Hd with context [match ?z with _ => _ end] => destruct z end; try discriminate Hd);
    injection Hd as <-;
    first [ by exists s
          | by apply handle_cmd_sync_ok | by apply handle_cmd_resume_ok
          | by apply (outputs_ok (fun i => OInvalidate i _ _))
          | apply s_mod_ok; [done|]; first [done | apply inv_where_regs]
          | unfold handle_cmd_tlbi_nh_va, handle_cmd_tlbi_nh_vaa, handle_cmd_tlbi_s2_ipa;
            destruct (tlbi_mask cmd); apply s_mod_ok; [done|apply inv_where_regs] ].
Qed.

(** The error code is stored above the pointer, and reported. *)
Lemma set_cmdq_err_ok e s :
  regs_ok (s_regs s.1) -> 0 <= e < 2 ^ 7 ->
  exists s', set_cmdq_err bus cfg e s = Ret (tt, s') /\ field_get CMDQ_CONS_ERR (s_regs s'.1) = e /\
    (forall l, 0 <= l <= 20 -> reg_get CMDQ_CONS (s_regs s'.1) mod 2 ^ l = reg_get CMDQ_CONS (s_regs s.1) mod 2 ^ l) /\
    bit (active s'.1) GERROR_BIT_CMDQ_ERR = true.
Proof.
  intros Hok He. unfold set_cmdq_err, sm_bind, fset, field_set, CMDQ_CONS_ERR.
  destruct (bitfield_set_ok 32 23 7 e (reg_get CMDQ_CONS (s_regs s.1))) as (r & -> & Hr & Hg & Hk).
  { by cbv. } { apply regs_ok_get, Hok. } { done. }
  cbn [rbind]. edestruct (set_gerror_ok bus cfg GERROR_BIT_CMDQ_ERR) as (s' & -> & Hf & Hb & _); [by apply regs_ok_set|by cbv|].
  exists s'. split; [done|]. unfold field_get. rewrite (fr_regs _ _ _ Hf) by done. cbn [fst set_regs s_regs].
  rewrite reg_get_set_eq, wrap_small by done. split_and!; try done.
  - unfold bitfield_get in Hg. rewrite mask_for_field_ok in Hg by by cbv. by injection Hg.
  - intros l Hl. rewrite <- !Z.land_ones by lia. apply Z.bits_inj'. intros i Hi. rewrite !Z.land_spec, !Z.testbit_ones by lia.
    destruct (Z.ltb_spec i l); [|by rewrite !andb_false_r]. by rewrite Hk by lia.
Qed.

Definition cmdq_l (s : smmu) : Z := clamp_queue_log2size (field_get CMDQ_BASE_LOG2SIZE (s_regs s)).
Definition cmdq_base (s : smmu) : Z :=
  Z.lor (Z.shiftl (Z.land (reg_get CMDQ_BASE_HI (s_regs s)) CMDQ_BASE_HI_MASK) 32) (andnot (reg_get CMDQ_BASE_LO (s_regs s)) 31).
Definition cmdq_p (s : smmu) : Z := reg_get CMDQ_PROD (s_regs s).
Definition cmdq_c (s : smmu) : Z := reg_get CMDQ_CONS (s_regs s).

Lemma consume_cmdq_drains s :
  regs_ok (s_regs s.1) -> cmdq_l s.1 <> 0 ->
  let l := cmdq_l s.1 in
  exists cmds c s1 stop s2 s',
    consume_cmdq bus cfg s = Ret (tt, s') /\
    ran (dispatch bus cfg) (cmdq_base s.1) l (cmdq_c s.1) s cmds c s1 /\
    stopped (dispatch bus cfg) (cmdq_base s.1) l (cmdq_p s.1) c s1 stop s2 /\
    ring_dist l (cmdq_p s.1) c = ring_dist l (cmdq_p s.1) (cmdq_c s.1) - Z.of_nat (length cmds) /\
    cmdq_c s'.1 mod 2 ^ (l + 1) = c mod 2 ^ (l + 1) /\
    match stop with
    | None => True
    | Some e => field_get CMDQ_CONS_ERR (s_regs s'.1) = e /\ bit (active s'.1) GERROR_BIT_CMDQ_ERR = true
    end.
Proof.
  intros Hok Hl l. assert (0 <= l <= 19) as Hlr.
  { apply queue_log2_range. unfold field_get. apply extract_range. lia. }
  destruct (cmdq_loop_drains (dispatch bus cfg) CMDQ_CONS (set_cmdq_err bus cfg) (cmdq_base s.1) l (cmdq_p s.1)
    dispatch_total Hlr) with (fuel := Z.to_nat (2 ^ (l + 1))) (c := cmdq_c s.1) (s := s)
    as (cmds & c & s1 & st & s2 & s' & H1 & H2 & H3 & H4 & H5 & H6).
  { intros e x Hx He. destruct (set_cmdq_err_ok e x Hx) as (x' & E & _); [destruct He as [->| ->]; by cbv|by exists x']. }
  { done. } { pose proof (ring_dist_range l (cmdq_p s.1) (cmdq_c s.1)). lia. }
  exists cmds, c, s1, st, s2, s'. split; [|split_and!; try done].
  - unfold consume_cmdq, consume_with. sm_reads. fold (cmdq_l s.1). fold l. rewrite (proj2 (Z.eqb_neq l 0)) by done.
    sm_reads. exact H1.
  - unfold sm_bind, rset, s_mod in H6. assert (forall x : Z, u32 x mod 2 ^ (l + 1) = x mod 2 ^ (l + 1)) as Hu.
    { intros x. pose proof (ring_next (x - 1) l Hlr) as E. replace (x - 1 + 1) with x in E by lia.
      by rewrite <- E, Z.land_ones by lia. }
    destruct st as [e|].
    + edestruct (set_cmdq_err_ok e (set_regs (reg_set CMDQ_CONS c (s_regs s2.1)) s2.1, s2.2)) as (x & E & Hx & Hm & _).
      { by apply regs_ok_set. } { inversion H3; subst; by cbv. }
      rewrite E in H6. injection H6 as <-. unfold cmdq_c. rewrite Hm by lia. cbn [fst set_regs s_regs].
      by rewrite reg_get_set_eq, Hu.
    + injection H6 as <-. unfold cmdq_c. cbn [fst set_regs s_regs]. by rewrite reg_get_set_eq, Hu.
  - destruct st as [e|]; [|done]. unfold sm_bind, rset, s_mod in H6.
    edestruct (set_cmdq_err_ok e (set_regs (reg_set CMDQ_CONS c (s_regs s2.1)) s2.1, s2.2)) as (x & E & Hx & Hm & Hb).
    { by apply regs_ok_set. } { inversion H3; subst; by cbv. }
    rewrite E in H6. injection H6 as <-. done.
Qed.

End QueueProps.

(** ** Properties *)

(** C12: The command queue: when the driver has moved the producer, every command from the
    consumer on is fetched and run, in the order of the ring and once each; consumption
    ends, either at the producer, or at the first command that cannot be fetched or is not
    known.  The consumer is left at that place, and in the error case the error code and
    the global error tell the driver. *)
Theorem cmdq_in_order {W} (bus : dma_bus W) cfg (Hbus : BusTotal bus) s :
  regs_ok (s_regs s.1) -> cmdq_l s.1 <> 0 ->
  let l := cmdq_l s.1 in
  exists cmds c s1 stop s2 s',
    consume_cmdq bus cfg s = Ret (tt, s') /\
    ran bus (dispatch bus cfg) (cmdq_base s.1) l (cmdq_c s.1) s cmds c s1 /\
    stopped bus (dispatch bus cfg) (cmdq_base s.1) l (cmdq_p s.1) c s1 stop s2 /\
    ring_dist l (cmdq_p s.1) c = ring_dist l (cmdq_p s.1) (cmdq_c s.1) - Z.of_nat (length cmds) /\
    cmdq_c s'.1 mod 2 ^ (l + 1) = c mod 2 ^ (l + 1) /\
    match stop with
    | None => True
    | Some e => field_get CMDQ_CONS_ERR (s_regs s'.1) = e /\ bit (active s'.1) GERROR_BIT_CMDQ_ERR = true
    end.
Proof. intros Hok Hl. by apply consume_cmdq_drains. Qed.

(** Two commands, the second unknown, at 0x1000. *)
Definition ex_cmdq_state : smmu * memory :=
  (set_regs (reg_set CMDQ_BASE_LO 0x1003 (reg_set CMDQ_PROD 2 ∅)) smmu_init,
   mem_write ∅ 0x1000 (store_le 16 0x30 ++ store_le 16 0xEE)).

Lemma ex_cmdq_regs : regs_ok (s_regs ex_cmdq_state.1).
Proof. cbn -[reg_set]. apply regs_ok_set, regs_ok_set. by intros ???. Qed.

Lemma cmdq_in_order_witness :
  exists s', consume_cmdq (mem_bus 0x8000) ex_cfg ex_cmdq_state = Ret (tt, s').
Proof.
  destruct (cmdq_in_order (mem_bus 0x8000) ex_cfg (mem_bus_total 0x8000) ex_cmdq_state)
    as (cmds & c & s1 & st & s2 & s' & H & _).
  - apply ex_cmdq_regs.
  - by vm_compute.
  - exists s'. exact H.
Defined.

Example cmdq_stops_at_unknown :
  match consume_cmdq (mem_bus 0x8000) ex_cfg ex_cmdq_state with
  | Ret (_, (s, _)) => cmdq_c s = 1 + CERROR_ILL * 2 ^ 23 /\ active s = 1
  | Err _ => False
  end.
Proof. vm_compute. auto. Qed.

(** C35: The event queue never overwrites an unread record: a fault record goes to the slot
    of the producer, which holds none of the records between consumer and producer, and
    the producer moves on by one; when the queue is full, no record is written, the
    producer stays and the queue abort error is reported, as it is when the write fails.
    Nothing else is written to memory but the messages of interrupts, if they are configured.
    The number of unread records never exceeds the size of the queue. *)
Theorem eventq_never_overwrites {W} (bus : dma_bus W) cfg (Hbus : BusTotal bus) type sid ssid iova cmd class_ level stag stall s :
  let l := eventq_l s.1 in let p := eventq_p s.1 in let c := eventq_c s.1 in
  let entry := full_event type sid ssid iova class_ level stag (bool_decide (cmd = TLM_READ_COMMAND)) stall in
  regs_ok (s_regs s.1) -> field_get CR0_EVENTQEN (s_regs s.1) <> 0 -> ring_ok l p c ->
  exists s', record_event_full bus cfg type sid ssid iova cmd class_ level stag stall s = Ret (tt, s') /\
    (ring_dist l p c = 2 ^ l /\ messages bus (s_regs s.1) s.2 s'.2 /\
       eventq_p s'.1 = p /\ bit (active s'.1) GERROR_BIT_EVENTQ_ABT = true \/
     ring_dist l p c < 2 ^ l /\ (forall k, 0 <= k < ring_dist l p c -> (c + k) mod 2 ^ l <> p mod 2 ^ l) /\
     exists ok s1, dma_write bus (eventq_slot s.1 p) entry s = Ret (ok, s1) /\ messages bus (s_regs s.1) s1.2 s'.2 /\
       if (ok : bool) then ring_dist l (eventq_p s'.1) c = ring_dist l p c + 1 /\ ring_ok l (eventq_p s'.1) c
       else eventq_p s'.1 = p /\ bit (active s'.1) GERROR_BIT_EVENTQ_ABT = true).
Proof.
  intros l p c entry Hok Hen Hr. unfold record_event_full. sm_reads. rewrite (proj2 (Z.eqb_neq _ 0)) by done.
  destruct (eventq_push_ok bus cfg entry s Hok Hr) as (s' & E & H). exists s'. split; [exact E|]. fold l p c in H.
  pose proof (ring_lap _ _ _ Hr) as Hlap. pose proof (ring_size _ _ _ Hr) as Hl.
  destruct (Z.eqb_spec (ring_dist l p c) (2 ^ l)) as [Ed|Ed].
  { left. destruct H as (? & ? & Hg). split_and!; try done. by apply (reports_gerror_bit bus cfg GERROR_BIT_EVENTQ_ABT s tt s'). }
  right. split_and!; [lia|intros; apply ring_slot_free; auto; lia|].
  destruct H as (ok & s1 & Ew & Hms & H). exists ok, s1. split_and!; [done|done|]. destruct ok; [|done].
  assert (2 ^ (l + 1) = 2 * 2 ^ l) as Hpow by (rewrite Z.pow_add_r by lia; lia).
  assert (ring_dist l (eventq_p s'.1) c = ring_dist l p c + 1) as Hd.
  { rewrite H. pose proof (ring_dist_range l p c). unfold ring_dist in *. rewrite Zminus_mod_idemp_l.
    replace (p + 1 - c) with (p - c + 1) by lia. rewrite <- Zplus_mod_idemp_l. apply Z.mod_small. lia. }
  split; [done|]. destruct Hr. split; try done; [rewrite H; apply Z.mod_pos_bound; lia|lia].
Qed.

Definition ex_eventq_state : smmu * memory :=
  (set_regs (reg_set CR0 4 (reg_set EVENTQ_BASE_LO 0x2001 (reg_set EVENTQ_PROD 1 ∅))) smmu_init, ∅).

Definition ex_eventq_full : smmu * memory :=
  (set_regs (reg_set CR0 4 (reg_set EVENTQ_BASE_LO 0x2001 (reg_set EVENTQ_PROD 2 ∅))) smmu_init, mem_write ∅ 0x2000 [1]).

Lemma ex_no_message w w' : messages (mem_bus 0x8000) (s_regs ex_eventq_full.1) w w' -> w' = w.
Proof.
  inversion 1 as [|a v s ok s' w0 (lo & hi & Hin & Ha & Hne) _ _]; [done|]. destruct Hne. rewrite Ha. unfold msi_lines in Hin. rewrite !elem_of_cons, elem_of_nil in Hin.
  destruct Hin as [E|[E|[E|[]]]]; injection E as -> ->; reflexivity.
Qed.

(** A queue of two records, both unread: memory stays as it is. *)
Lemma eventq_never_overwrites_witness :
  exists s', record_event_full (mem_bus 0x8000) ex_cfg EVT_F_TRANSLATION 7 0 0x4000 TLM_READ_COMMAND 0 3 0 false
    ex_eventq_full = Ret (tt, s') /\ s'.2 = ex_eventq_full.2 /\ bit (active s'.1) GERROR_BIT_EVENTQ_ABT = true.
Proof.
  destruct (eventq_never_overwrites (mem_bus 0x8000) ex_cfg (mem_bus_total 0x8000) EVT_F_TRANSLATION 7 0 0x4000
    TLM_READ_COMMAND 0 3 0 false ex_eventq_full) as (s' & H & [(_ & Hm & _ & Hb)|(Hlt & _)]).
  - cbn -[reg_set]. apply regs_ok_set, regs_ok_set, regs_ok_set. by intros ???.
  - by vm_compute.
  - split; vm_compute; repeat split; discriminate.
  - exists s'. split; [exact H|]. split; [apply ex_no_message; exact Hm|exact Hb].
  - exfalso. vm_compute in Hlt. discriminate.
Defined.

Example eventq_record :
  match record_event_full (mem_bus 0x8000) ex_cfg EVT_F_TRANSLATION 7 0 0x4000 TLM_READ_COMMAND 0 3 0 false
          ex_eventq_state with
  | Ret (_, (s, m)) => eventq_p s = 2 /\ load_le (mem_read m 0x2030 8) = 0x4000 /\ load_le (mem_read m 0x2020 8) = 0x700000010
  | Err _ => False
  end.
Proof. vm_compute. auto. Qed.
