(* ===== verification/SmmuTbu.v ===== *)
(** * SMMUv3: translation and the translation buffer units

    [smmuv3_translate], the four transport methods of [smmuv3_tbu], the address
    translation channel [do_gatos] and the reset of [smmuv3.h], with the payload
    extensions of [smmuv3_extensions.h] and [smmuv3_memory_attrs.h]. *)

From stdpp Require Import base list numbers option gmap.
From S2P Require Import Prelude Monad Registers Tlm SmmuRegs Smmu SmmuWalk SmmuTlb SmmuQueue.

(** ** Payload extensions *)

(** [smmuv3_ats_extension]. *)
Record ats_ext : Type := mk_ats {
  is_translation_request : bool;
  is_translated : bool;
  prg_index : Z;
  ats_pa : Z;
  granule_log2 : Z;
  ats_prot : Z;
  ats_fault_type : Z;
  faulted : bool;
}.

(** [smmuv3_memory_attrs_extension]; the memory type is always write-back. *)
Record mem_attrs : Type := mk_attrs {
  m_shareability : Z;
  m_access_perm : Z;
  m_attr_indx : Z;
  m_non_secure : bool;
  m_privileged_execute_never : bool;
  m_unprivileged_execute_never : bool;
  m_contiguous : bool;
  m_dirty_bit_modifier : bool;
}.

Definition set_from_descriptor (desc table_attrs : Z) : mem_attrs :=
  {| m_attr_indx := extract desc 2 4;
     m_shareability := extract desc 8 2;
     m_access_perm := extract desc 6 2;
     m_non_secure := bit desc 5;
     m_privileged_execute_never := bit desc 53 || bit table_attrs 3;
     m_unprivileged_execute_never := bit desc 54 || bit table_attrs 4;
     m_contiguous := bit desc 52;
     m_dirty_bit_modifier := bit desc 51 |}.

(** A payload with its extensions: the substream with its valid flag, the secure tag
    and the address translation service. *)
Record tbu_txn : Type := mk_tx {
  tx : payload;
  tx_ss : option (Z * bool);
  tx_secure : option bool;
  tx_ats : option ats_ext;
}.

Definition extract_substream_id (t : tbu_txn) : Z :=
  match tx_ss t with Some (id, true) => id | _ => 0 end.
Definition extract_secure (t : tbu_txn) : bool :=
  match tx_secure t with Some b => b | None => false end.

Definition with_tx (p : payload) (t : tbu_txn) : tbu_txn := mk_tx p (tx_ss t) (tx_secure t) (tx_ats t).
Definition with_ats (a : ats_ext) (t : tbu_txn) : tbu_txn := mk_tx (tx t) (tx_ss t) (tx_secure t) (Some a).

(** The target behind a TBU. *)
Record downstream (W : Type) : Type := mk_down {
  down_transport : payload -> option mem_attrs -> W -> res (payload * W);
  down_dbg : payload -> W -> res (Z * payload * W);
  down_dmi : payload -> tlm_dmi -> W -> res (bool * payload * tlm_dmi * W);
}.
Arguments mk_down {W}.
Arguments down_transport {W}.
Arguments down_dbg {W}.
Arguments down_dmi {W}.

(** How a transaction leaves [b_transport]: it is answered, or waits for a RESUME. *)
Inductive tbu_outcome : Type :=
| TDone (t : tbu_txn)
| TStalled (stag : Z).

Section Tbu.
Context {W : Type} (bus : dma_bus W) (cfg : smmu_config).
Abbreviation M := (SM (smmu * W)).

(** ** Translation *)

(** The entry before anything is known. *)
Definition entry_identity (iova : Z) : tlb_entry := mk_entry iova iova 0xFFF ACC_RW 0 0 0 0 false.
Definition entry_bypass (iova : Z) : tlb_entry := mk_entry iova iova UINT64_MAX ACC_RW 0 0 0 0 false.
Definition entry_fault (iova type level : Z) (stallable : bool) : tlb_entry :=
  mk_entry iova iova 0xFFF ACC_NONE 0 0 type level stallable.

(** A fault that is reported at once. *)
Definition translate_fault (type sid ssid : Z) (t : payload) (class_ : Z) : M tlb_entry :=
  record_event_full bus cfg type sid ssid (address t) (command t) class_ 0 0 false ;;!
  sm_ret (entry_fault (address t) type 0 false).

(** The walk of a stream: stage 1, stage 2, or stage 1 and then stage 2 on its result. *)
Definition stream_walk (ste : STE) (cd : option CD) (iova : Z) (access : access_flags) : M walk_result :=
  match cd with
  | None => smmuv3_ptw64 bus cfg (s2_ctx ste iova access)
  | Some cd =>
      if ste_config ste =? STE_CONFIG_NESTED then
        do! r := smmuv3_ptw64 bus cfg (s1_ctx cd iova access (Some ste)) in
        match r with
        | WFault e l => sm_ret (WFault e l)
        | WOk w => smmuv3_ptw64 bus cfg (s2_ctx ste (wk_pa w) access)
        end
      else smmuv3_ptw64 bus cfg (s1_ctx cd iova access None)
  end.

(** Address space and granule of the keys of a stream. *)
Definition key_asid (cd : option CD) : Z := match cd with Some cd => cd_asid cd | None => 0 end.
Definition key_tg (ste : STE) (cd : option CD) : Z := match cd with Some cd => cd_tg0 cd | None => ste_s2tg ste end.
Definition stream_key (ste : STE) (cd : option CD) (page : Z) (secure : bool) (regime : Z) : IOTLBKey :=
  mk_key (ste_vmid ste) (key_asid cd) page (key_tg ste cd) 3 secure regime.

Definition stallable_event (e : Z) : bool :=
  (e =? EVT_F_TRANSLATION) || (e =? EVT_F_PERMISSION) || (e =? EVT_F_ACCESS) || (e =? EVT_F_ADDR_SIZE).

Definition tlb_insert (key : IOTLBKey) (e : tlb_entry) : M unit :=
  fun s => match iotlb_insert (p_iotlb_size cfg) key e s.1 with
           | Ret s' => Ret (tt, (s', s.2))
           | Err x => Err x
           end.

(** Lookup, walk and insertion for a stream that translates. *)
Definition translate_stream (ste : STE) (cd : option CD) (sid ssid : Z) (secure : bool) (regime : Z) (t : payload)
    : M tlb_entry :=
  let iova := address t in
  let access := if decide (command t = TLM_WRITE_COMMAND) then ACC_WO else ACC_RO in
  do! s := s_get in
  match iotlb_lookup (stream_key ste cd (andnot iova 0xFFF) secure regime) s with
  | Some e => sm_ret e
  | None =>
      do! r := stream_walk ste cd iova access in
      match r with
      | WFault event level =>
          let stall := stallable_event event && ((ste_config ste =? STE_CONFIG_S1) || (ste_config ste =? STE_CONFIG_NESTED))
                       && negb (ste_s1stalld ste) in
          let class_ := if ste_config ste =? STE_CONFIG_S2 then 1 else 0 in
          sm_when (negb stall) (record_event_full bus cfg event sid ssid iova (command t) class_ level 0 false) ;;!
          sm_ret (entry_fault iova event level stall)
      | WOk w =>
          let mask := Z.ones (wk_page_size w) in
          let e := mk_entry iova (wk_pa w) mask (wk_prot w) (wk_descriptor w) (wk_tableattrs w) 0 0 false in
          tlb_insert (stream_key ste cd (andnot iova mask) secure regime) e ;;!
          sm_ret e
      end
  end.

Definition smmuv3_translate (t : payload) (sid ssid : Z) (secure : bool) : M tlb_entry :=
  let iova := address t in
  do! en := fget CR0_SMMUEN in
  if en =? 0 then sm_ret (entry_bypass iova)
  else
    do! ste := find_ste bus cfg sid in
    match ste with
    | None =>
        do! abort := fget GBPA_ABORT in
        if negb (abort =? 0) then translate_fault EVT_F_STE_FETCH sid ssid t 0
        else sm_ret (entry_bypass iova)
    | Some ste =>
        if (0 <? ste_s1cdmax ste) && (Z.shiftl 1 (ste_s1cdmax ste) <=? ssid)
        then translate_fault EVT_C_BAD_SUBSTREAMID sid ssid t 0
        else
          do! e2h := fget CR2_E2H in
          let regime := compute_iotlb_regime (ste_strw ste) (negb (e2h =? 0)) secure in
          if ste_config ste =? STE_CONFIG_BYPASS then sm_ret (entry_bypass iova)
          else if (ste_config ste =? STE_CONFIG_S1) || (ste_config ste =? STE_CONFIG_NESTED) then
            do! cd := read_cd bus cfg sid ste ssid in
            match cd with
            | None => translate_fault EVT_F_CD_FETCH sid ssid t 2
            | Some cd => translate_stream ste (Some cd) sid ssid secure regime t
            end
          else if ste_config ste =? STE_CONFIG_S2 then translate_stream ste None sid ssid secure regime t
          else translate_fault EVT_C_BAD_STE sid ssid t 0
    end.

(** ** The units *)

Context (down : downstream W) (p_topology_id : Z).

Definition SMMU_OFFSET (addr : Z) : Z := Z.land addr SMMUV3_PAGEMASK.

(** The permission does not allow the command. *)
Definition perm_refuses (perm : access_flags) (cmd : tlm_command) : bool :=
  match perm with
  | ACC_NONE => true
  | ACC_RO => bool_decide (cmd = TLM_WRITE_COMMAND)
  | ACC_WO => bool_decide (cmd = TLM_READ_COMMAND)
  | ACC_RW => false
  end.

(** The answer to a translation request. *)
Definition answer_ats (t : tbu_txn) (a : ats_ext) (te : tlb_entry) : M tbu_txn :=
  let addr := address (tx t) in
  if decide (te_perm te = ACC_NONE) then
    do! priqen := fget CR0_PRIQEN in
    do! pri := fget IDR0_PRI in
    sm_when (negb (priqen =? 0) && negb (pri =? 0))
      (record_pri bus cfg p_topology_id addr
         (Z.lor (if decide (command (tx t) = TLM_WRITE_COMMAND) then 2 else 0) (u32 (Z.shiftl (prg_index a) 16)))) ;;!
    sm_ret (with_ats (mk_ats (is_translation_request a) (is_translated a) (prg_index a) 0 0 0
                             (u8 (te_fault_type te)) true) t)
  else
    sm_ret (with_ats (mk_ats (is_translation_request a) (is_translated a) (prg_index a)
                             (Z.lor (te_translated_addr te) (Z.land addr (te_addr_mask te)))
                             (let m := u64 (te_addr_mask te + 1) in if m =? 0 then 0 else Z.log2 m)
                             (acc_code (te_perm te)) (ats_fault_type a) false) t).

(** A translated access goes on with the new address, which is taken back afterwards. *)
Definition forward (t : tbu_txn) (te : tlb_entry) : M tbu_txn :=
  fun s =>
    let addr := address (tx t) in
    let p := set_address (Z.lor (te_translated_addr te) (SMMU_OFFSET addr)) (tx t) in
    match down_transport down p (Some (set_from_descriptor (te_descriptor te) (te_table_attrs te))) s.2 with
    | Ret (p', w) => Ret (with_tx (set_address addr p') t, (s.1, w))
    | Err e => Err e
    end.

Definition refuse (t : tbu_txn) : tbu_txn := with_tx (set_response_status TLM_ADDRESS_ERROR_RESPONSE (tx t)) t.

Definition translate_txn (t : tbu_txn) : M tlb_entry :=
  smmuv3_translate (tx t) p_topology_id (extract_substream_id t) (extract_secure t).

(** [b_transport] from a translation on: stall, answer or forward. *)
Definition after_translate (t : tbu_txn) (te : tlb_entry) : M tbu_outcome :=
  if te_stallable_fault te then
    do! stag := stall_begin bus cfg p_topology_id (extract_substream_id t) (address (tx t)) (te_fault_type te)
                  (te_fault_level te) 0 (command (tx t)) in
    sm_ret (TStalled stag)
  else
    match tx_ats t with
    | Some a =>
        if is_translation_request a then
          do! t' := answer_ats t a te in
          sm_ret (TDone (with_tx (set_response_status TLM_OK_RESPONSE (tx t')) t'))
        else if perm_refuses (te_perm te) (command (tx t)) then sm_ret (TDone (refuse t))
        else do! t' := forward t te in sm_ret (TDone t')
    | None =>
        if perm_refuses (te_perm te) (command (tx t)) then sm_ret (TDone (refuse t))
        else do! t' := forward t te in sm_ret (TDone t')
    end.

(** [b_transport]; a device's own translated address goes through as it is. *)
Definition b_transport (t : tbu_txn) : M tbu_outcome :=
  match tx_ats t with
  | Some a =>
      if is_translated a then
        fun s => match down_transport down (tx t) None s.2 with
                 | Ret (p', w) => Ret (TDone (with_tx p' t), (s.1, w))
                 | Err e => Err e
                 end
      else do! te := translate_txn t in after_translate t te
  | None => do! te := translate_txn t in after_translate t te
  end.

(** The rest of [b_transport] once the stalled transaction is notified. *)
Definition b_transport_resume (stag : Z) (t : tbu_txn) : M tbu_outcome :=
  do! aborted := stall_finish stag in
  if (aborted : bool) then sm_ret (TDone (refuse t))
  else do! te := translate_txn t in after_translate t te.

Definition transport_dbg (t : tbu_txn) : M (Z * tbu_txn) :=
  do! te := translate_txn t in
  fun s =>
    let addr := address (tx t) in
    let p := set_address (Z.lor (te_translated_addr te) (SMMU_OFFSET addr)) (tx t) in
    match down_dbg down p s.2 with
    | Ret (n, p', w) => Ret ((n, with_tx (set_address addr p') t), (s.1, w))
    | Err e => Err e
    end.

(** [get_direct_mem_ptr]: the descriptor of the target cut to the page and moved. *)
Definition clamp_dmi (te : tlb_entry) (iova : Z) (d : tlm_dmi) : bool * tlm_dmi :=
  let pa_page_start := te_translated_addr te in
  let pa_page_end := Z.lor (te_translated_addr te) (te_addr_mask te) in
  let clamp_start := if dmi_start d <? pa_page_start then pa_page_start else dmi_start d in
  let clamp_end := if pa_page_end <? dmi_end d then pa_page_end else dmi_end d in
  if clamp_end <? clamp_start then (false, d)
  else
    let iova_page_start := andnot iova (te_addr_mask te) in
    let d' := mk_dmi (dmi_ptr d + (clamp_start - dmi_start d))
                (u64 (iova_page_start + (clamp_start - pa_page_start)))
                (u64 (iova_page_start + (clamp_end - pa_page_start))) (dmi_acc d) in
    (true, match te_perm te with
           | ACC_RO => set_access DMI_ACCESS_READ d'
           | ACC_WO => set_access DMI_ACCESS_WRITE d'
           | _ => d'
           end).

Definition get_direct_mem_ptr (t : tbu_txn) (d : tlm_dmi) : M (bool * tbu_txn * tlm_dmi) :=
  do! te := translate_txn t in
  fun s =>
    let iova := address (tx t) in
    if perm_refuses (te_perm te) (command (tx t)) then
      Ret ((false, t, mk_dmi (dmi_ptr d) iova iova DMI_ACCESS_NONE), s)
    else
      let p := set_address (Z.lor (te_translated_addr te) (Z.land iova (te_addr_mask te))) (tx t) in
      match down_dmi down p d s.2 with
      | Err e => Err e
      | Ret (ok, p', d, w) =>
          let t' := with_tx (set_address iova p') t in
          if negb ok then Ret ((false, t', d), (s.1, w))
          else let '(r, d) := clamp_dmi te iova d in Ret ((r, t', d), (s.1, w))
      end.

(** [invalidate_direct_mem_ptr] from below: the pages that map into the range. *)
Definition invalidate_direct_mem_ptr (tbu : nat) (start fin : Z) : M unit :=
  do! s := s_get in
  sm_iter (fun x : IOTLBKey * tlb_entry =>
    let e := x.2 in
    if (fin <? te_translated_addr e) || (Z.lor (te_translated_addr e) (te_addr_mask e) <? start) then sm_ret tt
    else output (OInvalidate tbu (te_iova e) (Z.lor (te_iova e) (te_addr_mask e)))) (s_iotlb s).

End Tbu.

(** ** The address translation channel and reset *)

Section Control.
Context {W : Type} (bus : dma_bus W) (cfg : smmu_config).
Abbreviation M := (SM (smmu * W)).

Definition GATOS_PAR_FAULT_TRANSLATION : Z := 0x10.

Definition do_gatos : M unit :=
  fset GATOS_CTRL_INPRG 1 ;;!
  do! sid := rget GATOS_SID in
  do! hi := rget GATOS_ADDR_HI in
  do! lo := rget GATOS_ADDR_LO in
  do! rnw := fget GATOS_CTRL_READ_NWRITE in
  let iova := Z.lor (Z.shiftl hi 32) lo in
  let t := plain_txn (if rnw =? 0 then TLM_WRITE_COMMAND else TLM_READ_COMMAND) iova [] in
  do! te := smmuv3_translate bus cfg t sid 0 false in
  (if decide (te_perm te = ACC_NONE) then
     fset GATOS_PAR_F 1 ;;! fset GATOS_PAR_FST GATOS_PAR_FAULT_TRANSLATION
   else
     rset GATOS_PAR_LO (te_translated_addr te) ;;!
     rset GATOS_PAR_HI (Z.shiftr (te_translated_addr te) 32) ;;!
     fset GATOS_PAR_F 0) ;;!
  fset GATOS_CTRL_RUN 0 ;;!
  fset GATOS_CTRL_INPRG 0.

(** The first half of the reset: caches and stalled transactions are dropped. *)
Definition reset_assert : M unit :=
  s_mod (fun s => mk_smmu (s_regs s) [] [] ∅ [] ∅ [] (s_ste_secure s) (s_cd_secure s) ∅ (s_next_stag s) []
                    (s_irq s) (s_out s)).

Definition OAS (pamax : Z) : Z :=
  if pamax =? 32 then 0 else if pamax =? 36 then 1 else if pamax =? 40 then 2
  else if pamax =? 42 then 3 else if pamax =? 44 then 4 else 5.

Definition fset_all (l : list (reg_field * Z)) : M unit := sm_iter (fun x => fset x.1 x.2) l.
Definition rset_all (l : list (Z * Z)) : M unit := sm_iter (fun x => rset x.1 x.2) l.

Definition runtime_registers : list Z :=
  [CR0; CR0ACK; CR1; CR2; STATUSR; AGBPA; IRQ_CTRL; IRQ_CTRL_ACK; GERROR; GERRORN; GERROR_IRQ_CFG0_LO;
   GERROR_IRQ_CFG0_HI; GERROR_IRQ_CFG1; GERROR_IRQ_CFG2; STRTAB_BASE_LO; STRTAB_BASE_HI; STRTAB_BASE_CFG;
   CMDQ_BASE_LO; CMDQ_BASE_HI; CMDQ_PROD; CMDQ_CONS; EVENTQ_BASE_LO; EVENTQ_BASE_HI; EVENTQ_PROD; EVENTQ_CONS;
   EVENTQ_IRQ_CFG0_LO; EVENTQ_IRQ_CFG0_HI; EVENTQ_IRQ_CFG1; EVENTQ_IRQ_CFG2; PRIQ_BASE_LO; PRIQ_BASE_HI; PRIQ_PROD;
   PRIQ_CONS; PRIQ_IRQ_CFG0_LO; PRIQ_IRQ_CFG0_HI; PRIQ_IRQ_CFG1; PRIQ_IRQ_CFG2; GATOS_CTRL; GATOS_SID;
   GATOS_ADDR_LO; GATOS_ADDR_HI; GATOS_PAR_LO; GATOS_PAR_HI;
   S_IDR0; S_IDR1; S_IDR2; S_IDR3; S_IDR4; S_CR0; S_CR0ACK; S_CR1; S_CR2; S_INIT; S_GBPA; S_AGBPA; S_IRQ_CTRL;
   S_IRQ_CTRL_ACK; S_GERROR; S_GERRORN; S_GERROR_IRQ_CFG0_LO; S_GERROR_IRQ_CFG0_HI; S_GERROR_IRQ_CFG1;
   S_GERROR_IRQ_CFG2; S_STRTAB_BASE_LO; S_STRTAB_BASE_HI; S_STRTAB_BASE_CFG; S_CMDQ_BASE_LO; S_CMDQ_BASE_HI;
   S_CMDQ_PROD; S_CMDQ_CONS; S_EVENTQ_BASE_LO; S_EVENTQ_BASE_HI; S_EVENTQ_PROD; S_EVENTQ_CONS; S_EVENTQ_IRQ_CFG0_LO;
   S_EVENTQ_IRQ_CFG0_HI; S_EVENTQ_IRQ_CFG1; S_EVENTQ_IRQ_CFG2;
   CMDQ_PROD_P1; CMDQ_CONS_P1; EVENTQ_PROD_P1; EVENTQ_CONS_P1; PRIQ_PROD_P1; PRIQ_CONS_P1].

Definition start_of_simulation : M unit :=
  rset IDR0 0 ;;!
  fset_all [(IDR0_S2P, 1); (IDR0_S1P, 1); (IDR0_TTF, 2); (IDR0_COHACC, 1); (IDR0_ASID16, 1); (IDR0_VMID16, 1);
            (IDR0_PRI, 1); (IDR0_ATOS, Z.b2z (p_ato cfg)); (IDR0_HTTU, 3); (IDR0_STLEVEL, 2); (IDR0_MSI, 1);
            (IDR0_ATS, 1)] ;;!
  rset IDR1 0 ;;!
  fset_all [(IDR1_SIDSIZE, p_sidsize cfg); (IDR1_EVENTQS, 19); (IDR1_CMDQS, 19)] ;;!
  rset IDR5 0 ;;!
  fset_all [(IDR5_OAS, OAS (p_pamax cfg)); (IDR5_GRAN4K, 1); (IDR5_GRAN16K, 1); (IDR5_GRAN64K, 1)] ;;!
  rset_all (imap (fun i v => (IDREG (Z.of_nat i), v)) PRIMECELL_IDS) ;;!
  rset IIDR (p_iidr cfg) ;;!
  fset GBPA_ABORT 1 ;;!
  rset_all (map (fun r => (r, 0)) runtime_registers).

(** The reset line. *)
Definition reset_changed (v : bool) : M unit := if v then reset_assert else start_of_simulation.

End Control.

(** ** A stream that uses stage 1 *)

(** The SMMU is on, and the entry and the context of the stream are known, valid and say
    stage 1 only. *)
Record s1_stream (sid ssid : Z) (ste : STE) (cd : CD) (s : smmu) : Prop := {
  st_enabled : field_get CR0_SMMUEN (s_regs s) <> 0;
  st_ste : s_ste_cache s !! sid = Some ste;
  st_ste_valid : ste_valid ste = true;
  st_config : ste_config ste = STE_CONFIG_S1;
  st_substream : ste_s1cdmax ste = 0 \/ ssid < 2 ^ ste_s1cdmax ste;
  st_cd : s_cd_cache s !! Z.lor (Z.shiftl sid 32) ssid = Some cd;
  st_cd_valid : cd_valid cd = true;
  st_cd_ips : 0 <= cd_ips cd < 8;
  st_cd_tsz : 0 <= cd_tsz0 cd /\ 0 <= cd_tsz1 cd;
}.

Definition regime_of (ste : STE) (secure : bool) (s : smmu) : Z :=
  compute_iotlb_regime (ste_strw ste) (negb (field_get CR2_E2H (s_regs s) =? 0)) secure.

Definition access_of (cmd : tlm_command) : access_flags := if decide (cmd = TLM_WRITE_COMMAND) then ACC_WO else ACC_RO.

(** The key under which an address of the stream is looked up. *)
Definition lookup_key (ste : STE) (cd : CD) (addr : Z) (secure : bool) (s : smmu) : IOTLBKey :=
  stream_key ste (Some cd) (andnot addr 0xFFF) secure (regime_of ste secure s).

Section TbuProps.
Context {W : Type} (bus : dma_bus W) (cfg : smmu_config) (down : downstream W) (sid : Z).

Lemma translate_s1 t ssid secure ste cd s :
  s1_stream sid ssid ste cd s.1 ->
  smmuv3_translate bus cfg t sid ssid secure s =
  translate_stream bus cfg ste (Some cd) sid ssid secure (regime_of ste secure s.1) t s.
Proof.
  intros []. unfold smmuv3_translate, find_ste. sm_reads. rewrite (proj2 (Z.eqb_neq _ 0)) by done.
  unfold sm_bind at 1 2. unfold s_get at 1. rewrite st_ste0, st_ste_valid0. unfold sm_ret at 1. cbv beta iota.
  assert ((0 <? ste_s1cdmax ste) && (Z.shiftl 1 (ste_s1cdmax ste) <=? ssid) = false) as ->.
  { destruct (Z.ltb_spec 0 (ste_s1cdmax ste)); [|done]. cbn [andb]. apply Z.leb_gt. rewrite Z.shiftl_1_l. lia. }
  sm_reads. rewrite st_config0. cbn [Z.eqb STE_CONFIG_S1 STE_CONFIG_BYPASS STE_CONFIG_NESTED Pos.eqb orb].
  unfold read_cd, sm_bind at 1 2, s_get at 1. by rewrite st_cd0, st_cd_valid0.
Qed.

(** A hit: the cached entry is used as it is. *)
Lemma translate_hit t ste cd e s :
  s1_stream sid (extract_substream_id t) ste cd s.1 ->
  iotlb_lookup (lookup_key ste cd (address (tx t)) (extract_secure t) s.1) s.1 = Some e ->
  translate_txn bus cfg sid t s = Ret (e, s).
Proof.
  intros Hst He. unfold translate_txn. erewrite translate_s1 by exact Hst. unfold translate_stream. sm_reads.
  unfold lookup_key in He. by rewrite He.
Qed.

(** The physical address of a walk ends in the page offset of the input. *)
Lemma walk_offset mem x w :
  0 <= px_iova x -> s1_translation cfg mem x w -> Z.lor (wk_pa w) (SMMU_OFFSET (px_iova x)) = wk_pa w.
Proof.
  intros Hi. unfold s1_translation, translation_from.
  intros (_ & _ & _ & g & start & leaf & ro & Hg & _ & _ & _ & Hw & Hps & Hpa & _).
  assert (leaf <= 3) as Hleaf by (clear -Hw; induction Hw; lia).
  assert (12 <= wk_page_size w) as H12.
  { rewrite Hps. unfold level_shift. pose proof (Z.mul_nonneg_nonneg (3 - leaf) (g - 3)). lia. }
  rewrite Hpa. unfold SMMU_OFFSET. change SMMUV3_PAGEMASK with (Z.ones 12). apply Z.bits_inj'. intros i Hi0.
  rewrite !Z.lor_spec, Z.land_spec, Z.testbit_ones by lia. rewrite <- Z.land_ones, Z.land_spec, Z.testbit_ones by lia.
  destruct (Z.leb_spec 0 i); [|lia]. destruct (Z.ltb_spec i 12); [|by rewrite andb_false_r, orb_false_r].
  rewrite (proj2 (Z.ltb_lt i (wk_page_size w))) by lia. cbn [andb]. rewrite !andb_true_r.
  by destruct (Z.testbit (frame g (wk_descriptor w)) i), (Z.testbit (px_iova x) i).
Qed.

Context `{!BusTotal bus} (rd : W -> Z -> Z) (inv : smmu * W -> Prop) `{!MemBus bus rd inv}.
Context (Hdown : forall p a w, exists x, down_transport down p a w = Ret x).

(** The outcome of a transaction that misses in the cache. *)
Definition miss_outcome (t : tbu_txn) (cd : CD) (s : smmu * W) (o : tbu_outcome) (s' : smmu * W) : Prop :=
  let addr := address (tx t) in
  let translation := s1_translation cfg (desc_at rd s.2) (s1_ctx cd addr (access_of (command (tx t))) None) in
  match o with
  | TStalled stag =>
      s_stalled s'.1 !! stag = Some (mk_stalled sid (extract_substream_id t) false) /\ forall w, ~ translation w
  | TDone t' =>
      t' = refuse t /\ (table_read_failed bus inv s.2 \/ forall w, ~ translation w) \/
      exists w wd p, translation w /\
        down_transport down (set_address (wk_pa w) (tx t))
          (Some (set_from_descriptor (wk_descriptor w) (wk_tableattrs w))) wd = Ret (p, s'.2) /\
        t' = with_tx (set_address addr p) t
  end.

(** A leaf that allows the access also passes the check of the transport method. *)
Lemma granted_not_refused x d ro prot cmd :
  px_access x = access_of cmd -> s1_granted x d ro prot -> perm_refuses prot cmd = false.
Proof.
  unfold access_of. intros Ha (_ & _ & Hwo & Hro & _). rewrite Ha in Hwo, Hro.
  destruct cmd; cbn in *; destruct prot; cbn in *; try done; naive_solver.
Qed.

Lemma stall_begin_ok ssid iova ft fl cmd s :
  regs_ok (s_regs s.1) ->
  exists stag s', stall_begin bus cfg sid ssid iova ft fl 0 cmd s = Ret (stag, s') /\ stag = s_next_stag s.1 /\
    s_stalled s'.1 = <[stag := mk_stalled sid ssid false]> (s_stalled s.1).
Proof.
  intros Hok. unfold stall_begin. sm_reads. unfold sm_bind, s_mod.
  match goal with |- context [record_event_full _ _ _ _ _ _ _ _ _ _ _ ?x] => set (s1 := x) end.
  destruct (record_event_full_ends bus cfg ft sid ssid iova cmd 0 fl (s_next_stag s.1) true s1 Hok) as (s' & -> & H).
  exists (s_next_stag s.1), s'. split_and!; try done. by rewrite (proj1 (sc_stalled _ _ H)).
Qed.

Lemma b_transport_miss t ste cd s :
  inv s -> regs_ok (s_regs s.1) -> tlb_ok (p_iotlb_size cfg) s.1 -> 0 < p_iotlb_size cfg -> 0 <= p_pamax cfg ->
  (cd_ha cd || cd_hd cd = true -> forall a l s r s', dma_write bus a l s = Ret (r, s') -> r = true) ->
  s1_stream sid (extract_substream_id t) ste cd s.1 -> tx_ats t = None -> 0 <= address (tx t) < 2 ^ 63 ->
  iotlb_lookup (lookup_key ste cd (address (tx t)) (extract_secure t) s.1) s.1 = None ->
  exists o s', b_transport bus cfg down sid t s = Ret (o, s') /\ miss_outcome t cd s o s'.
Proof.
  intros Hinv Hok Htlb Hcap Hpam Hwr Hst Hats Haddr Hmiss. pose proof Hst as []. unfold b_transport. rewrite Hats.
  unfold sm_bind, translate_txn. erewrite translate_s1 by exact Hst. unfold translate_stream. sm_reads.
  unfold lookup_key in Hmiss. rewrite Hmiss. fold (access_of (command (tx t))). unfold stream_walk, sm_bind at 1.
  rewrite st_config0. cbn [Z.eqb STE_CONFIG_S1 STE_CONFIG_NESTED Pos.eqb].
  set (x := s1_ctx cd (address (tx t)) (access_of (command (tx t))) None).
  destruct (ptw_s1_exact bus cfg rd inv _ _ x s) as (r & s1 & E & [d Hd] & Hr); [done|by split|done|].
  rewrite E. assert (s_regs s1.1 = s_regs s.1) as Er by by rewrite Hd. destruct r as [e l|w].
  - destruct (stallable_event e && _ && _) eqn:Est; cbn [negb].
    + unfold sm_bind, sm_when, sm_ret, after_translate. cbn [te_stallable_fault entry_fault].
      destruct (stall_begin_ok (extract_substream_id t) (address (tx t)) e l (command (tx t)) s1) as (stag & s' & Es & _ & Hs);
        [by rewrite Er|]. unfold sm_bind. cbn [entry_fault te_fault_type te_fault_level]. rewrite Es. do 2 eexists. split; [done|].
      unfold miss_outcome. cbn [fst]. rewrite Hs. split; [apply lookup_insert_eq|]. by destruct Hr as [[-> _]|[_ ?]].
    + unfold sm_bind, sm_when. edestruct (record_event_full_ends bus cfg) as (s' & -> & _); [by rewrite Er|].
      unfold sm_ret, after_translate. cbn [te_stallable_fault entry_fault]. rewrite Hats. cbn. do 2 eexists. split; [done|].
      left. split; [done|]. destruct Hr as [[_ ?]|[_ ?]]; auto.
  - unfold sm_bind, tlb_insert. destruct (iotlb_insert_ok (p_iotlb_size cfg)
      (stream_key ste (Some cd) (andnot (address (tx t)) (Z.ones (wk_page_size w))) (extract_secure t)
        (regime_of ste (extract_secure t) s.1))
      (mk_entry (address (tx t)) (wk_pa w) (Z.ones (wk_page_size w)) (wk_prot w) (wk_descriptor w) (wk_tableattrs w) 0 0 false)
      s1.1) as (s2 & -> & _); [by rewrite Hd; destruct Htlb|done|].
    unfold sm_ret, after_translate. cbn [te_stallable_fault]. rewrite Hats. cbn [te_perm].
    assert (exists ro, s1_granted x (wk_descriptor w) ro (wk_prot w)) as [ro Hgr].
    { clear -Hr. unfold s1_translation, translation_from in Hr. naive_solver. }
    rewrite (granted_not_refused x _ ro _ _ eq_refl Hgr).
    unfold forward, sm_bind. cbn [te_translated_addr te_descriptor te_table_attrs fst snd].
    assert (Z.lor (wk_pa w) (SMMU_OFFSET (address (tx t))) = wk_pa w) as ->.
    { apply (walk_offset (desc_at rd s.2) x w); [cbn; lia|exact Hr]. }
    destruct (Hdown (set_address (wk_pa w) (tx t)) (Some (set_from_descriptor (wk_descriptor w) (wk_tableattrs w))) s1.2)
      as [[p wd] Edn]. rewrite Edn. do 2 eexists. split; [done|]. right. exists w, s1.2, p. split_and!; [exact Hr|exact Edn|done].
Qed.

End TbuProps.

(** ** Properties *)

(** C3: A transaction without ATS, to an address of the lower half of the address space, of a stream
    with stage 1 only, whose stream table entry and context descriptor are in the configuration
    caches and whose page is not in the translation cache: [b_transport] ends; the transaction goes
    on with exactly the physical address that the page tables in memory give for it, with the
    attributes of the leaf, and its address is put back before it returns; it is refused with an
    address error only when the tables hold no translation that allows the command or the bus refuses
    to read them, and stalled, under a tag that is registered, only when they hold none.  Where the
    hardware is to update flags in the tables, the bus accepts the writes. *)
Theorem tbu_miss_correct {W} (bus : dma_bus W) cfg (down : downstream W) sid (Htot : BusTotal bus) rd inv
    (Hmem : MemBus bus rd inv) (Hdown : forall p a w, exists x, down_transport down p a w = Ret x) t ste cd s :
  inv s -> regs_ok (s_regs s.1) -> tlb_ok (p_iotlb_size cfg) s.1 -> 0 < p_iotlb_size cfg -> 0 <= p_pamax cfg ->
  (cd_ha cd || cd_hd cd = true -> forall a l s r s', dma_write bus a l s = Ret (r, s') -> r = true) ->
  s1_stream sid (extract_substream_id t) ste cd s.1 -> tx_ats t = None -> 0 <= address (tx t) < 2 ^ 63 ->
  iotlb_lookup (lookup_key ste cd (address (tx t)) (extract_secure t) s.1) s.1 = None ->
  exists o s', b_transport bus cfg down sid t s = Ret (o, s') /\ miss_outcome bus cfg down sid rd inv t cd s o s'.
Proof. intros. by eapply b_transport_miss. Qed.

(** Device 7 with the tables of [ex_tables], behind which there is memory. *)
Definition ex_ste : STE := mk_ste true STE_CONFIG_S1 0 0 0 0 0 0 0 true 0 0 false false false 0.
Definition ex_down : downstream memory :=
  mk_down (fun p _ m => mem_transport 0x100000 p m) (fun p m => Ret (0, p, m)) (fun p d m => Ret (false, p, d, m)).
Definition ex_tbu_state : smmu * memory :=
  (set_cd_cache {[ Z.lor (Z.shiftl 7 32) 0 := ex_cd ]} [] (set_ste_cache {[ 7 := ex_ste ]} [7]
     (set_regs (reg_set CR0 1 ∅) smmu_init)),
   mem_write (mem_write (mem_write ex_tables 0x80010 [0xAA]) 0x80020 [0xBB]) 0x80030 [0xCC]).
Definition ex_read (a : Z) : tbu_txn := mk_tx (plain_txn TLM_READ_COMMAND a [0]) None None None.

Lemma tbu_miss_correct_witness :
  exists t' s' w, b_transport (mem_bus 0x100000) ex_cfg ex_down 7 (ex_read 0x1010) ex_tbu_state = Ret (TDone t', s') /\
    address (tx t') = 0x1010 /\ response (tx t') = TLM_OK_RESPONSE /\
    s1_translation ex_cfg (desc_at (fun m a => default 0 (m !! a)) ex_tbu_state.2) (s1_ctx ex_cd 0x1010 (access_of TLM_READ_COMMAND) None) w.
Proof.
  destruct (tbu_miss_correct (mem_bus 0x100000) ex_cfg ex_down 7 (mem_bus_total 0x100000)
    (fun m a => default 0 (m !! a)) (fun s => s_dma_dmi s.1 = []) (mem_bus_memory 0x100000)
    (fun p a w => ex_intro _ _ eq_refl) (ex_read 0x1010) ex_ste ex_cd ex_tbu_state) as (o & s' & H & Ho).
  - reflexivity.
  - cbn -[reg_set]. apply regs_ok_set. by intros ???.
  - split; cbn; [constructor|done|lia].
  - cbn. lia.
  - cbn. lia.
  - discriminate.
  - split; try reflexivity; [by vm_compute|by left|cbn; lia|cbn; lia].
  - reflexivity.
  - cbn. lia.
  - reflexivity.
  - assert (match b_transport (mem_bus 0x100000) ex_cfg ex_down 7 (ex_read 0x1010) ex_tbu_state with
      | Ret (TDone t', _) => (address (tx t'), response (tx t')) = (0x1010, TLM_OK_RESPONSE) | _ => False end) as E by (vm_compute; reflexivity).
    rewrite H in E. destruct o as [t'|stag]; [|destruct E]. pose proof (f_equal fst E) as Ha. pose proof (f_equal snd E) as Hr. cbn [fst snd] in Ha, Hr. destruct Ho as [[-> _]|(w & _ & _ & Hw & _)]; [discriminate Hr|].
    exists t', s', w. exact (conj H (conj Ha (conj Hr Hw))).
Defined.

(** Run two reads, and give the bytes they return. *)
Definition two_reads (a b : Z) : option (list Z * list Z) :=
  match b_transport (mem_bus 0x100000) ex_cfg ex_down 7 (ex_read a) ex_tbu_state with
  | Ret (TDone t1, s1) =>
      match b_transport (mem_bus 0x100000) ex_cfg ex_down 7 (ex_read b) s1 with
      | Ret (TDone t2, _) => Some (data (tx t1), data (tx t2))
      | _ => None
      end
  | _ => None
  end.

(** A second access to a cached page goes to a wrong address: the cached entry holds
    the physical address of the first access with its page offset, and the offset of the
    second access is or-ed into it.  With a page mapped to 0x80000, a read of offset 0x20
    alone returns the byte of 0x80020; after a read of offset 0x10 it returns the byte of
    0x80030. *)
Theorem tbu_hit_wrong_address :
  two_reads 0x1020 0x1020 = Some ([0xBB], [0xBB]) /\ two_reads 0x1010 0x1020 = Some ([0xAA], [0xCC]).
Proof. split; vm_compute; reflexivity. Qed.

(** DMI through a TBU: the granted range lies in the page of the request, and an
    address in it is given the host memory of its physical address moved by the page
    offset of the request (of the access that filled the cache, on a hit).  So the grant
    is right when that access was at the start of its page, and otherwise every pointer
    taken from it is off by that offset. *)
Theorem tbu_dmi_offset te iova d d' n fr off a :
  clamp_dmi te iova d = (true, d') ->
  0 < n < 64 -> te_addr_mask te = 2 ^ n - 1 -> te_translated_addr te = fr + off -> fr mod 2 ^ n = 0 -> 0 <= off < 2 ^ n ->
  0 <= iova < 2 ^ 64 -> 0 <= fr -> dmi_covers d' a ->
  iova / 2 ^ n * 2 ^ n <= a < iova / 2 ^ n * 2 ^ n + 2 ^ n /\
  dmi_host d' a = dmi_host d (fr + off + (a - iova / 2 ^ n * 2 ^ n)).
Proof.
  intros Hc Hn Hm Ht Hf Hoff Hi Hfr Ha. unfold clamp_dmi in Hc. rewrite Hm, Ht in Hc.
  assert (2 ^ n - 1 = Z.ones n) as Hones by (rewrite Z.ones_equiv; lia). rewrite Hones in Hc.
  assert (Z.lor (fr + off) (Z.ones n) = fr + (2 ^ n - 1)) as Hend.
  { rewrite <- (lor_add_aligned fr off n) by (done || lia). rewrite <- Z.lor_assoc, Z.lor_ones_low.
    - rewrite Z.ones_equiv. rewrite (lor_add_aligned fr _ n) by (done || lia). lia.
    - lia.
    - destruct (decide (off = 0)) as [->|]; [cbn; lia|]. apply Z.log2_lt_pow2; lia. }
  rewrite Hend in Hc. rewrite andnot_ones in Hc by lia. set (page := iova / 2 ^ n * 2 ^ n) in *.
  set (cs := if dmi_start d <? fr + off then fr + off else dmi_start d) in *.
  set (ce := if fr + (2 ^ n - 1) <? dmi_end d then fr + (2 ^ n - 1) else dmi_end d) in *.
  assert (fr + off <= cs) by (unfold cs; destruct (Z.ltb_spec (dmi_start d) (fr + off)); lia).
  assert (ce <= fr + (2 ^ n - 1)) by (unfold ce; destruct (Z.ltb_spec (fr + (2 ^ n - 1)) (dmi_end d)); lia).
  destruct (Z.ltb_spec ce cs); [done|].
  assert (0 <= page /\ page + 2 ^ n <= 2 ^ 64) as [Hp0 Hp1].
  { unfold page. split; [pose proof (Z.div_pos iova (2 ^ n)); nia|].
    assert (2 ^ 64 = 2 ^ (64 - n) * 2 ^ n) as -> by (rewrite <- Z.pow_add_r by lia; f_equal; lia).
    assert (iova / 2 ^ n < 2 ^ (64 - n)); [|nia]. apply Z.div_lt_upper_bound; [lia|]. rewrite <- Z.pow_add_r by lia.
    replace (n + (64 - n)) with 64 by lia. lia. }
  rewrite (u64_small (page + (cs - (fr + off)))), (u64_small (page + (ce - (fr + off)))) in Hc by lia.
  assert (dmi_start d' = page + (cs - (fr + off)) /\ dmi_end d' = page + (ce - (fr + off)) /\
    dmi_ptr d' = dmi_ptr d + (cs - dmi_start d)) as (Es & Ee & Ep) by (destruct (te_perm te); by injection Hc as <-).
  unfold dmi_covers in Ha. rewrite Es, Ee in Ha. unfold dmi_host. rewrite Es, Ep. lia.
Qed.

(** A DMI request at offset 0x10 of a page mapped to 0x80000, granted the whole memory from
    host address 0x1000000: host memory of 0x80010 is handed out for the start of the
    page. *)
Definition ex_dmi_entry : tlb_entry := mk_entry 0x1010 0x80010 0xFFF ACC_RW 0 0 0 0 false.

Lemma tbu_dmi_offset_witness :
  clamp_dmi ex_dmi_entry 0x1010 (mk_dmi 0x1000000 0 0xFFFFF DMI_ACCESS_READ_WRITE) =
    (true, mk_dmi 0x1080010 0x1000 0x1FEF DMI_ACCESS_READ_WRITE) /\
  dmi_host (mk_dmi 0x1080010 0x1000 0x1FEF DMI_ACCESS_READ_WRITE) 0x1000 =
  dmi_host (mk_dmi 0x1000000 0 0xFFFFF DMI_ACCESS_READ_WRITE) 0x80010.
Proof.
  split; [reflexivity|].
  apply (tbu_dmi_offset ex_dmi_entry 0x1010 (mk_dmi 0x1000000 0 0xFFFFF DMI_ACCESS_READ_WRITE)
    (mk_dmi 0x1080010 0x1000 0x1FEF DMI_ACCESS_READ_WRITE) 12 0x80000 0x10 0x1000); try reflexivity; try lia.
  unfold dmi_covers. cbn. lia.
Defined.

(** Stalled transactions: a RESUME command for a stalled transaction notifies it;
    when the driver's response is an abort, the transaction then ends with an address
    error, and otherwise it is translated again from the start.  In both cases its tag is
    free again. *)
Theorem stall_resume {W} (bus : dma_bus W) cfg (down : downstream W) sid cmd stag st t s :
  s_stalled s.1 !! stag = Some st -> st_aborted st = false -> cmd_word cmd 4 4 = stag -> tx_ats t = None ->
  exists s1, handle_cmd_resume cmd s = Ret (tt, s1) /\ s_out s1.1 = s_out s.1 ++ [OResume stag] /\
    let s2 := (set_stalled (delete stag (s_stalled s.1)) (s_next_stag s.1) s1.1, s1.2) in
    b_transport_resume bus cfg down sid stag t s1 =
      if cmd_word cmd 11 1 =? 0 then b_transport bus cfg down sid t s2 else Ret (TDone (refuse t), s2).
Proof.
  intros Hst Hab Hc Hats. unfold handle_cmd_resume. sm_reads. rewrite Hc, Hst. unfold sm_bind, s_mod, output, s_mod.
  eexists. split; [done|]. cbn [fst snd]. unfold b_transport_resume, stall_finish, b_transport. rewrite Hats.
  unfold sm_bind, s_get. destruct (cmd_word cmd 11 1 =? 0).
  - split; [done|]. cbn [fst snd add_out s_stalled s_next_stag]. rewrite Hst. unfold s_mod, sm_ret. rewrite Hab. done.
  - split; [done|]. cbn [fst snd add_out s_stalled s_next_stag set_stalled]. rewrite lookup_insert_eq.
    unfold s_mod, sm_ret. cbn [st_aborted]. do 3 f_equal. unfold set_stalled, add_out. cbn. by rewrite delete_insert_eq.
Qed.

Definition ex_stalled_state : smmu * memory :=
  (set_stalled {[ 5 := mk_stalled 7 0 false ]} 6 ex_tbu_state.1, ex_tbu_state.2).

Lemma stall_resume_witness :
  exists s1, handle_cmd_resume (W:=memory) (store_le 4 0x44 ++ store_le 4 5 ++ store_le 3 0 ++ [1] ++ store_le 4 0)
    ex_stalled_state = Ret (tt, s1) /\ s_out s1.1 = [OResume 5].
Proof.
  destruct (stall_resume (mem_bus 0x100000) ex_cfg ex_down 7
    (store_le 4 0x44 ++ store_le 4 5 ++ store_le 3 0 ++ [1] ++ store_le 4 0) 5 (mk_stalled 7 0 false) (ex_read 0x1010)
    ex_stalled_state) as (s1 & H1 & H2 & _); [reflexivity..|]. exists s1. split; [exact H1|exact H2].
Defined.

(** The tag in a stall record is cut to 16 bits, but a RESUME command is matched with
    all 32 bits of the tag: once tags pass 65535, the command that quotes the tag of the
    record finds no stalled transaction, and the one it was meant for waits on. *)
Theorem stall_tag_truncated {W} type sid ssid iova class_ level stag rnw cmd (s : smmu * W) :
  0 <= stag ->
  cmd_word cmd 4 4 = cmd_word (full_event type sid ssid iova class_ level stag rnw true) 8 2 ->
  cmd_word cmd 4 4 = stag mod 65536 /\
  (s_stalled s.1 !! (stag mod 65536) = None -> handle_cmd_resume cmd s = Ret (tt, s)).
Proof.
  intros Hs Hc. assert (cmd_word cmd 4 4 = stag mod 65536) as Hc'.
  { rewrite Hc. unfold cmd_word, full_event. cbv zeta. cbn [store_le app drop take load_le].
    set (w1 := Z.lor _ _). assert (w1 mod 65536 = stag mod 65536) as Hw.
    { change 65536 with (2 ^ 16). rewrite <- !Z.land_ones by lia. apply Z.bits_inj'. intros i Hi.
      rewrite !Z.land_spec, !Z.testbit_ones by lia. destruct (Z.ltb_spec i 16); [|by rewrite !andb_false_r].
      unfold w1. rewrite !Z.lor_spec, Z.land_spec, !Z.shiftl_spec by lia.
      rewrite (Z.testbit_neg_r _ (i - 20)), (Z.testbit_neg_r _ (i - 23)), (Z.testbit_neg_r _ (i - 24)) by lia. change 0xFFFF with (Z.ones 16).
      rewrite Z.testbit_ones, (proj2 (Z.leb_le 0 i)), (proj2 (Z.ltb_lt i 16)) by lia.
      replace (Z.testbit (if rnw then Z.shiftl 1 17 else 0) i) with false; [cbn; by rewrite !orb_false_r, !andb_true_r|].
      destruct rnw; [rewrite Z.shiftl_spec, Z.testbit_neg_r by lia; done|by rewrite Z.bits_0]. }
    rewrite <- Hw. rewrite Z.mul_0_r, Z.add_0_r. change 65536 with (256 * 256). rewrite Z.rem_mul_r by lia. lia. }
  split; [done|]. intros Hn. unfold handle_cmd_resume. sm_reads. by rewrite Hc', Hn.
Qed.

(** The first tag past 65535. *)
Definition ex_late_stall : smmu * memory := (set_stalled {[ 65536 := mk_stalled 7 0 false ]} 65537 smmu_init, ∅).

Lemma stall_tag_truncated_witness :
  handle_cmd_resume (store_le 4 0x44 ++ store_le 4 0 ++ store_le 8 0) ex_late_stall = Ret (tt, ex_late_stall).
Proof.
  apply (stall_tag_truncated EVT_F_TRANSLATION 7 0 0x1000 0 3 65536 true
    (store_le 4 0x44 ++ store_le 4 0 ++ store_le 8 0) ex_late_stall); [lia|reflexivity|reflexivity].
Defined.

(** Two stages: the tables of [ex_tables] with a read-only page at 0, and a stage 2
    table that maps the first gigabyte to itself, readable and writable. *)
Definition ex_nested_ste : STE := mk_ste true STE_CONFIG_NESTED 0 0x20000 25 1 0 5 0 true 0 0 false false false 0.
Definition ex_nested_state : smmu * memory :=
  (set_ste_cache {[ 7 := ex_nested_ste ]} [7] ex_tbu_state.1,
   mem_write (mem_write ex_tables 0x12000 (store_le 8 0x904C3)) 0x20000 (store_le 8 0x4C1)).
Definition ex_write (a v : Z) : tbu_txn := mk_tx (plain_txn TLM_WRITE_COMMAND a [v]) None None None.

(** The responses of a sequence of transactions, and the memory after it. *)
Fixpoint responses (l : list tbu_txn) (s : smmu * memory) : option (list tlm_response_status * memory) :=
  match l with
  | [] => Some ([], s.2)
  | t :: l' =>
      match b_transport (mem_bus 0x100000) ex_cfg ex_down 7 t s with
      | Ret (TDone t', s') =>
          match responses l' s' with Some (r, m) => Some (response (tx t') :: r, m) | None => None end
      | _ => None
      end
  end.

(** The responses and the byte at [a] afterwards. *)
Definition run_and_look (l : list tbu_txn) (a : Z) (s : smmu * memory) : option (list tlm_response_status * option Z) :=
  match responses l s with Some (r, m) => Some (r, m !! a) | None => None end.

(** With two stages, the cache forgets the permissions of stage 1: the result of the
    stage 2 walk replaces them.  A write to a page that stage 1 makes read-only is
    refused, but after a read of that page it is let through and changes memory. *)
Theorem nested_write_after_read :
  run_and_look [ex_write 0 0x5A] 0x90000 ex_nested_state = Some ([TLM_ADDRESS_ERROR_RESPONSE], None) /\
  run_and_look [ex_read 0; ex_write 0 0x5A] 0x90000 ex_nested_state =
    Some ([TLM_OK_RESPONSE; TLM_OK_RESPONSE], Some 0x5A).
Proof. split; vm_compute; reflexivity. Qed.
