(* ===== verification/SmmuMmio.v ===== *)
(** * SMMUv3: the driver's view of the registers

    The callbacks that [before_end_of_elaboration] of [smmuv3.h] attaches to registers,
    and the accesses of the driver that run them.  Assignments inside the SMMU go to the
    register memory directly and run no callbacks. *)

From stdpp Require Import base list numbers option gmap.
From S2P Require Import Prelude Monad Registers Tlm SmmuRegs Smmu SmmuWalk SmmuTlb SmmuQueue SmmuTbu.

Section Mmio.
Context {W : Type} (bus : dma_bus W) (cfg : smmu_config).
Abbreviation M := (SM (smmu * W)).

(** [dst = src]. *)
Definition copy_reg (src dst : Z) : M unit := do! v := rget src in rset dst v.

(** [if (REG[FIELD]) m]. *)
Definition if_field (f : reg_field) (m : M unit) : M unit := do! v := fget f in sm_when (negb (v =? 0)) m.

(** [S_INIT]: everything cached is dropped. *)
Definition invalidate_all : M unit :=
  s_mod (fun s => mk_smmu (s_regs s) [] [] ∅ [] ∅ [] ∅ ∅ (s_stalled s) (s_next_stag s) (s_dma_dmi s) (s_irq s) (s_out s)) ;;!
  fset S_INIT_INV_ALL 0.

(** The [post_write] callbacks of a register. *)
Definition post_write (r : Z) : M unit :=
  if r =? CR0 then copy_reg CR0 CR0ACK
  else if r =? IRQ_CTRL then copy_reg IRQ_CTRL IRQ_CTRL_ACK ;;! update_irqs bus cfg
  else if (r =? GERRORN) || (r =? EVENTQ_CONS) || (r =? PRIQ_CONS) then update_irqs bus cfg
  else if r =? S_CR0 then copy_reg S_CR0 S_CR0ACK ;;! update_secure_irq_levels bus cfg
  else if r =? S_IRQ_CTRL then copy_reg S_IRQ_CTRL S_IRQ_CTRL_ACK ;;! update_secure_irq_levels bus cfg
  else if (r =? S_GERRORN) || (r =? S_EVENTQ_CONS) then update_secure_irq_levels bus cfg
  else if r =? S_CMDQ_PROD then if_field S_CR0_CMDQEN (consume_secure_cmdq bus cfg)
  else if r =? CMDQ_PROD then if_field CR0_CMDQEN (consume_cmdq bus cfg)
  else if r =? STRTAB_BASE_CFG then s_mod (set_ste_cache ∅ [])
  else if r =? GBPA then fset GBPA_UPDATE 0
  else if r =? S_GBPA then fset S_GBPA_UPDATE 0
  else if r =? S_INIT then if_field S_INIT_INV_ALL invalidate_all
  else if r =? GATOS_CTRL then if_field GATOS_CTRL_RUN (do_gatos bus cfg)
  else if r =? CMDQ_PROD_P1 then copy_reg CMDQ_PROD_P1 CMDQ_PROD ;;! if_field CR0_CMDQEN (consume_cmdq bus cfg)
  else if r =? EVENTQ_CONS_P1 then copy_reg EVENTQ_CONS_P1 EVENTQ_CONS
  else if r =? PRIQ_CONS_P1 then copy_reg PRIQ_CONS_P1 PRIQ_CONS
  else sm_ret tt.

(** The [pre_read] callbacks of a register. *)
Definition pre_read (r : Z) : M unit :=
  if r =? S_CMDQ_CONS then if_field S_CR0_CMDQEN (consume_secure_cmdq bus cfg)
  else if r =? CMDQ_CONS then if_field CR0_CMDQEN (consume_cmdq bus cfg)
  else if r =? CMDQ_PROD_P1 then copy_reg CMDQ_PROD CMDQ_PROD_P1
  else if r =? CMDQ_CONS_P1 then if_field CR0_CMDQEN (consume_cmdq bus cfg) ;;! copy_reg CMDQ_CONS CMDQ_CONS_P1
  else if r =? EVENTQ_PROD_P1 then copy_reg EVENTQ_PROD EVENTQ_PROD_P1
  else if r =? EVENTQ_CONS_P1 then copy_reg EVENTQ_CONS EVENTQ_CONS_P1
  else if r =? PRIQ_PROD_P1 then copy_reg PRIQ_PROD PRIQ_PROD_P1
  else if r =? PRIQ_CONS_P1 then copy_reg PRIQ_CONS PRIQ_CONS_P1
  else sm_ret tt.

(** The driver writes and reads a register. *)
Definition mmio_write (r v : Z) : M unit := rset r v ;;! post_write r.
Definition mmio_read (r : Z) : M Z := pre_read r ;;! rget r.

End Mmio.

(** ** Interrupt levels *)

(** The level of the event queue line as the SMMU last drove it. *)
Definition eventq_level (s : smmu) : bool := last_eventq (s_irq s).

(** Events are pending and enabled. *)
Definition eventq_wants (s : smmu) : bool :=
  negb (reg_get EVENTQ_PROD (s_regs s) =? reg_get EVENTQ_CONS (s_regs s)) &&
  negb (field_get IRQ_CTRL_EVENTQ_IRQEN (s_regs s) =? 0).

Section MmioProps.
Context {W : Type} (bus : dma_bus W) (cfg : smmu_config) `{!BusTotal bus}.

(** After an update the line of the event queue has the level it should have. *)
Lemma update_level n s s' :
  update_irq_levels bus cfg n s = Ret (tt, s') -> regs_ok (s_regs s.1) -> (idle s.1 < n)%nat ->
  eventq_level s'.1 = eventq_wants s.1 /\ prev_eventq (s_irq s'.1) = negb (eventq_p s.1 =? eventq_c s.1).
Proof.
  destruct n as [|n]; intros H Hok Hn; [lia|]. cbn [update_irq_levels] in H.
  repeat (rewrite ?bind_s_get, ?bind_rget, ?bind_fget in H; cbv beta in H).
  apply sm_bind_Ret in H as ([] & s1 & _ & H). repeat (rewrite ?bind_s_get, ?bind_rget, ?bind_fget in H; cbv beta in H).
  apply sm_bind_Ret in H as ([] & s2 & _ & H). repeat (rewrite ?bind_s_get, ?bind_rget, ?bind_fget in H; cbv beta in H).
  apply sm_bind_Ret in H as ([] & s3 & _ & H). repeat (rewrite ?bind_s_get, ?bind_rget, ?bind_fget in H; cbv beta in H).
  apply sm_bind_Ret in H as ([] & s4 & H4 & H). injection H4 as <-.
  assert (forall line a b s0 s5, drive_irq_level (W:=W) cfg line a b s0 = Ret (tt, s5) -> s_irq s5.1 = s_irq s0.1) as Hdrv.
  { intros line a b s0 s5. unfold drive_irq_level, sm_when, output. destruct (Bool.eqb a b), (irq_bound cfg line);
      intros Hx; injection Hx as <-; done. }
  apply sm_bind_Ret in H as ([] & s5 & H5 & H). apply sm_bind_Ret in H as ([] & s6 & H6 & H).
  apply Hdrv in H, H5, H6. unfold eventq_level. rewrite H, H6, H5. cbn. done.
Qed.

Lemma post_write_eventq_cons : post_write bus cfg EVENTQ_CONS = update_irqs bus cfg.
Proof. reflexivity. Qed.

Lemma update_irqs_eq : update_irqs bus cfg = update_irq_levels bus cfg irq_fuel.
Proof. reflexivity. Qed.

Lemma write_eventq_cons v s :
  regs_ok (s_regs s.1) ->
  exists s', mmio_write bus cfg EVENTQ_CONS v s = Ret (tt, s') /\ eventq_c s'.1 = u32 v /\
    eventq_level s'.1 = eventq_wants s'.1 /\ prev_eventq (s_irq s'.1) = negb (eventq_p s'.1 =? eventq_c s'.1).
Proof.
  intros Hok. unfold mmio_write, sm_bind, rset, s_mod. rewrite post_write_eventq_cons.
  set (s1 := set_regs _ s.1). assert (regs_ok (s_regs s1)) as Hok1 by by apply regs_ok_set.
  destruct (update_irqs_ok bus cfg (s1, s.2) Hok1) as (s' & E & Hf). exists s'. split; [exact E|].
  rewrite update_irqs_eq in E. apply update_level in E as [H1 H2]; [|exact Hok1|pose proof (idle_bound s1); unfold irq_fuel; cbn [fst]; lia].
  pose proof (fr_regs _ _ _ Hf EVENTQ_PROD ltac:(discriminate)) as Hp.
  pose proof (fr_regs _ _ _ Hf EVENTQ_CONS ltac:(discriminate)) as Hc.
  pose proof (fr_regs _ _ _ Hf IRQ_CTRL ltac:(discriminate)) as Hi. cbn [fst] in *.
  rewrite H1, H2. unfold eventq_wants, eventq_c, eventq_p, field_get, IRQ_CTRL_EVENTQ_IRQEN. rewrite Hp, Hc, Hi.
  split; [apply reg_get_set_eq|]. split; reflexivity.
Qed.

End MmioProps.

(** ** Properties *)

(** The driver's acknowledgements: when it moves the consumer of the event queue, the
    interrupt line of the queue and the memory of what was pending are brought up to date,
    so that the line is high exactly while enabled events are unread. *)
Theorem eventq_cons_updates_line {W} (bus : dma_bus W) cfg (Hbus : BusTotal bus) v s :
  regs_ok (s_regs s.1) ->
  exists s', mmio_write bus cfg EVENTQ_CONS v s = Ret (tt, s') /\ eventq_c s'.1 = u32 v /\
    eventq_level s'.1 = eventq_wants s'.1 /\ prev_eventq (s_irq s'.1) = negb (eventq_p s'.1 =? eventq_c s'.1).
Proof. by apply write_eventq_cons. Qed.

(** An event queue with message interrupts enabled. *)
Definition ex_mmio_state : smmu * memory :=
  (set_regs (reg_set CR0 4 (reg_set EVENTQ_BASE_LO 0x2003 (reg_set IRQ_CTRL 4 (reg_set EVENTQ_IRQ_CFG0_LO 0x3000
     (reg_set EVENTQ_IRQ_CFG2 0x77 ∅))))) smmu_init, ∅).

Lemma ex_mmio_regs : regs_ok (s_regs ex_mmio_state.1).
Proof. cbn -[reg_set]. do 5 apply regs_ok_set. by intros ???. Qed.

Lemma eventq_cons_updates_line_witness :
  exists s', mmio_write (mem_bus 0x8000) ex_cfg EVENTQ_CONS 1 ex_mmio_state = Ret (tt, s') /\ eventq_level s'.1 = eventq_wants s'.1.
Proof.
  destruct (eventq_cons_updates_line (mem_bus 0x8000) ex_cfg (mem_bus_total 0x8000) 1 ex_mmio_state) as (s' & H1 & _ & H2 & _).
  - apply ex_mmio_regs.
  - exists s'. split; [exact H1|exact H2].
Defined.

(** Record an event, let the driver consume it through register [r], forget the message that
    was sent, and record another: the line changes, and the message word in memory. *)
Definition two_events (r : Z) : option (list out_event * list Z) :=
  let rec := record_event_full (mem_bus 0x8000) ex_cfg EVT_F_TRANSLATION 7 0 0x4000 TLM_READ_COMMAND 0 3 0 false in
  match (rec ;;! mmio_write (mem_bus 0x8000) ex_cfg r 1) ex_mmio_state with
  | Ret (_, (s, m)) =>
      match rec (s, mem_write m 0x3000 [0; 0; 0; 0]) with
      | Ret (_, (s', m')) => Some (s_out s', mem_read m' 0x3000 4)
      | Err _ => None
      end
  | Err _ => None
  end.

(** The alias of the event queue consumer in page 1, which drivers use, is only copied:
    neither the line nor the memory of what was pending is updated.  Consumed through the
    register of page 0, the line goes down and a new event raises it and sends its message
    again; consumed through the alias, the line stays up and the new event sends no
    message. *)
Theorem eventq_cons_alias_silent :
  two_events EVENTQ_CONS =
    Some ([OIrq irq_eventq true; OIrq irq_eventq false; OIrq irq_eventq true], [0x77; 0; 0; 0]) /\
  two_events EVENTQ_CONS_P1 = Some ([OIrq irq_eventq true], [0; 0; 0; 0]).
Proof. split; vm_compute; reflexivity. Qed.

(** The command queue through its alias: moving the producer through page 1 has the
    same effect as moving it in page 0, but for the alias register itself. *)
Theorem cmdq_prod_alias {W} (bus : dma_bus W) cfg v s s' :
  mmio_write bus cfg CMDQ_PROD v (set_regs (reg_set CMDQ_PROD_P1 v (s_regs s.1)) s.1, s.2) = Ret (tt, s') <->
  mmio_write bus cfg CMDQ_PROD_P1 v s = Ret (tt, s').
Proof.
  unfold mmio_write, sm_bind, rset, s_mod. cbn [fst snd].
  change (post_write bus cfg CMDQ_PROD) with (if_field CR0_CMDQEN (consume_cmdq (W:=W) bus cfg)).
  change (post_write bus cfg CMDQ_PROD_P1) with
    (copy_reg CMDQ_PROD_P1 CMDQ_PROD ;;! if_field CR0_CMDQEN (consume_cmdq (W:=W) bus cfg)).
  unfold copy_reg, rget, rset, s_mod, sm_bind at 1 2. cbn [fst snd set_regs s_regs]. rewrite reg_get_set_eq.
  replace (reg_set CMDQ_PROD (u32 v) (reg_set CMDQ_PROD_P1 v (s_regs s.1)))
    with (reg_set CMDQ_PROD v (reg_set CMDQ_PROD_P1 v (s_regs s.1))); [done|].
  unfold reg_set. f_equal. unfold wrap. by rewrite Z.mod_mod.
Qed.
