(* ===== verification/SmmuInv.v ===== *)
(** * SMMUv3: the invariant of reachable states

    The operations of the SMMU as a step relation, and what holds of every state they
    reach: registers hold 32 bits, the caches of translations, stream table entries and
    context descriptors agree with their lists of recent keys and stay within their
    sizes, and no more DMI regions are kept than allowed. *)

From stdpp Require Import base list numbers option gmap sets relations.
From S2P Require Import Prelude Monad Registers Tlm SmmuRegs Smmu SmmuWalk SmmuTlb SmmuQueue SmmuTbu SmmuMmio.

(** A cache of decoded entries and its list of keys. *)
Record cache_ok {V} (n : nat) (c : gmap Z V) (lru : list Z) : Prop := {
  ca_nodup : NoDup lru;
  ca_keys : forall k, k ∈ lru <-> k ∈ dom c;
  ca_size : (size c <= n)%nat;
}.

Record smmu_inv (cfg : smmu_config) (s : smmu) : Prop := {
  si_regs : regs_ok (s_regs s);
  si_tlb : tlb_ok (p_iotlb_size cfg) s;
  si_ste : cache_ok CACHE_MAX (s_ste_cache s) (s_ste_lru s);
  si_cd : cache_ok CACHE_MAX (s_cd_cache s) (s_cd_lru s);
  si_dmi : (length (s_dma_dmi s) <= DMA_DMI_CACHE_MAX)%nat;
}.

(** ** Caches *)

Lemma cache_ok_empty {V} n : cache_ok n (∅ : gmap Z V) [].
Proof. split; [constructor|set_solver|rewrite map_size_empty; lia]. Qed.

Lemma cache_ok_delete {V} n k (c : gmap Z V) lru :
  cache_ok n c lru -> cache_ok n (delete k c) (filter (fun x => x <> k) lru).
Proof.
  intros [Hn Hk Hs]. split.
  - by apply NoDup_filter.
  - intros x. rewrite list_elem_of_filter, dom_delete, elem_of_difference, Hk, elem_of_singleton. tauto.
  - etransitivity; [|exact Hs]. rewrite <- !size_dom, dom_delete. apply subseteq_size. set_solver.
Qed.

Lemma cache_put_ok {V} n k (v : V) c lru :
  (0 < n)%nat -> cache_ok n c lru -> c !! k = None -> cache_ok n (cache_put n k v c lru).1 (cache_put n k v c lru).2.
Proof.
  intros Hpos [Hn Hk Hs] Hc. unfold cache_put.
  assert (forall (c : gmap Z V) l, NoDup l -> (forall k, k ∈ l <-> k ∈ dom c) -> c !! k = None -> (size c < n)%nat ->
    cache_ok n (<[k := v]> c) (k :: l)) as Hput.
  { intros c' l Hl Hd Hc' Hlt. apply not_elem_of_dom in Hc'. split.
    - constructor; [|done]. by rewrite Hd.
    - intros x. rewrite elem_of_cons, Hd, dom_insert. set_solver.
    - rewrite map_size_insert_None; [lia|]. by apply not_elem_of_dom. }
  destruct (Nat.leb_spec n (size c)); cbn [fst snd]; [|by apply Hput].
  destruct (list.last lru) as [victim|] eqn:El.
  - apply last_Some in El as [l ->]. rewrite removelast_last. apply NoDup_app in Hn as (Hl & Hd & _).
    assert (victim ∈ dom c) as Hv by (rewrite <- Hk; set_solver).
    assert (victim ∉ l) as Hvl by (intros Hin; apply (Hd _ Hin); set_solver). cbn [fst snd]. apply Hput; [done| | |].
    + intros x. rewrite dom_delete. specialize (Hk x). set_solver.
    + rewrite lookup_delete_None. auto.
    + apply elem_of_dom in Hv. pose proof (map_size_delete_Some victim c Hv). lia.
  - apply last_None in El. subst lru. assert (dom c = ∅) as Hd0 by (apply set_eq; intros x; rewrite <- Hk; set_solver).
    apply dom_empty_inv_L in Hd0. subst c. rewrite map_size_empty in *. lia.
Qed.

(** ** Computations that keep the caches *)

Record quiet_rel (s s' : smmu) : Prop := {
  q_caches : same_caches s s';
  q_dmi : (length (s_dma_dmi s) <= DMA_DMI_CACHE_MAX)%nat -> (length (s_dma_dmi s') <= DMA_DMI_CACHE_MAX)%nat;
}.

Lemma quiet_trans s1 s2 s3 : quiet_rel s1 s2 -> quiet_rel s2 s3 -> quiet_rel s1 s3.
Proof. intros [] []. split; [by eapply same_caches_trans|auto]. Qed.

Create HintDb smmu.

Section Inv.
Context {W : Type} (bus : dma_bus W) (cfg : smmu_config).
Abbreviation M := (SM (smmu * W)).

Definition quiet {A} (m : M A) : Prop :=
  forall s a s', m s = Ret (a, s') -> regs_ok (s_regs s.1) -> quiet_rel s.1 s'.1.

Lemma quiet_read {A} (m : M A) : (forall s a s', m s = Ret (a, s') -> s'.1 = s.1) -> quiet m.
Proof. intros H s a s' E Hok. rewrite (H _ _ _ E). split; [by apply same_caches_refl|done]. Qed.

Lemma quiet_ret {A} (a : A) : quiet (sm_ret a).
Proof. apply quiet_read. by intros s b s' [= _ <-]. Qed.

Lemma quiet_fail {A} e : quiet (A:=A) (sm_fail e).
Proof. by intros s a s' ?. Qed.

Lemma quiet_bind {A B} (m : M A) (k : A -> M B) : quiet m -> (forall a, quiet (k a)) -> quiet (sm_bind m k).
Proof.
  intros Hm Hk s b s' H Hok. apply sm_bind_Ret in H as (a & s1 & H1 & H2). pose proof (Hm _ _ _ H1 Hok) as Q1.
  pose proof (Hk _ _ _ _ H2 (sc_ok _ _ (q_caches _ _ Q1))) as Q2. by eapply quiet_trans.
Qed.

Lemma quiet_s_get : quiet s_get.
Proof. apply quiet_read. by intros s a s' [= _ <-]. Qed.
Lemma quiet_rget r : quiet (rget r).
Proof. apply quiet_read. by intros s a s' [= _ <-]. Qed.
Lemma quiet_fget f : quiet (fget f).
Proof. apply quiet_read. by intros s a s' [= _ <-]. Qed.

Lemma quiet_rset r v : quiet (rset r v).
Proof. intros s a s' [= _ <-] Hok. split; [by apply same_caches_reg|done]. Qed.

Lemma quiet_fset f v : quiet (fset f v).
Proof.
  intros s a s' H Hok. unfold fset, field_set in H. destruct f as [[r st] l].
  destruct (bitfield_set 32 st l v (reg_get r (s_regs s.1))); [|done]. injection H as _ <-.
  split; [by apply same_caches_reg|done].
Qed.

Lemma quiet_output o : quiet (output o).
Proof. intros s a s' [= _ <-] Hok. by split; [split|]. Qed.

Lemma quiet_set_irq i : quiet (s_mod (set_irq i)).
Proof. intros s a s' [= _ <-] Hok. by split; [split|]. Qed.

Lemma quiet_grant a c : quiet (grant_dma_dmi bus a c).
Proof.
  intros s b s' H Hok. unfold grant_dma_dmi in H.
  destruct (bus_dmi bus _ _ _) as [[[[ok p] d] w]|]; [|done].
  destruct (negb ok); [injection H as _ <-; by split; [apply same_caches_refl|]|].
  destruct (_ && _); [injection H as _ <-; by split; [apply same_caches_refl|]|].
  cbv zeta in H. destruct (Nat.leb_spec DMA_DMI_CACHE_MAX (length (s_dma_dmi s.1))); injection H as _ <-;
    (split; [by split|]); cbn [fst set_dma_dmi s_dma_dmi]; intros Hl; rewrite length_app; cbn [length]; [|lia].
  rewrite length_drop. unfold DMA_DMI_CACHE_MAX in *. lia.
Qed.

Lemma quiet_access t : quiet (bus_access bus t).
Proof.
  apply quiet_read. intros s a s' H. unfold bus_access in H. destruct (bus_transport bus t s.2) as [[t' w]|]; [|done].
  by injection H as _ <-.
Qed.

#[local] Hint Resolve quiet_ret quiet_fail quiet_s_get quiet_rget quiet_fget quiet_rset quiet_fset quiet_output quiet_set_irq
  quiet_grant quiet_access : smmu.

(** Follow the structure of a computation. *)
Ltac quiet := repeat (cbv zeta; match goal with
  | |- quiet (sm_bind _ _) => apply quiet_bind; [|intros ?]
  | |- quiet (if ?b then _ else _) => destruct b
  | |- quiet (match ?x with _ => _ end) => destruct x
  | |- quiet (sm_when ?b _) => destruct b; cbn [sm_when]
  | |- quiet _ => solve [eauto 4 with smmu]
  end).

Lemma quiet_iter {A} (f : A -> M unit) l : (forall x, quiet (f x)) -> quiet (sm_iter f l).
Proof. intros Hf. induction l as [|x l IH]; cbn [sm_iter]; [quiet|]. apply quiet_bind; auto. Qed.

Lemma quiet_region a n wr : quiet (dma_region bus a n wr).
Proof. unfold dma_region. quiet. Qed.
#[local] Hint Resolve quiet_region : smmu.

Lemma quiet_dma_read a n : quiet (dma_read bus a n).
Proof. unfold dma_read. quiet. apply quiet_read. by intros s x s' [= _ <-]. Qed.

Lemma quiet_dma_write a l : quiet (dma_write bus a l).
Proof. unfold dma_write. quiet. apply quiet_read. by intros s x s' [= _ <-]. Qed.
#[local] Hint Resolve quiet_dma_read quiet_dma_write : smmu.

Lemma quiet_gerror_with u b : quiet u -> quiet (set_gerror_with u b).
Proof. intros. unfold set_gerror_with. quiet. Qed.
#[local] Hint Resolve quiet_gerror_with : smmu.

Lemma quiet_msi c u lo hi d b : quiet u -> quiet (msi_if bus c u lo hi d b).
Proof. intros. unfold msi_if, emit_msi_with. quiet. Qed.
#[local] Hint Resolve quiet_msi : smmu.

Lemma quiet_drive line l n : quiet (drive_irq_level (W:=W) cfg line l n).
Proof. unfold drive_irq_level. quiet. Qed.
#[local] Hint Resolve quiet_drive : smmu.

Lemma quiet_update n : quiet (update_irq_levels bus cfg n).
Proof. induction n as [|n IH]; cbn [update_irq_levels]; quiet. Qed.

Lemma quiet_update_irqs : quiet (update_irqs bus cfg).
Proof. apply quiet_update. Qed.
#[local] Hint Resolve quiet_update_irqs : smmu.

Lemma quiet_gerror b : quiet (set_gerror bus cfg b).
Proof. apply quiet_gerror_with, quiet_update. Qed.

Lemma quiet_update_secure : quiet (update_secure_irq_levels bus cfg).
Proof. unfold update_secure_irq_levels. quiet. Qed.
#[local] Hint Resolve quiet_gerror quiet_update_secure : smmu.

Lemma quiet_secure_gerror b : quiet (set_secure_gerror bus cfg b).
Proof. unfold set_secure_gerror. quiet. Qed.
#[local] Hint Resolve quiet_secure_gerror : smmu.

Lemma quiet_push hi lo pr cr f n abort done e : quiet abort -> quiet done -> quiet (queue_push bus hi lo pr cr f n abort done e).
Proof. intros. unfold queue_push. quiet; done. Qed.

Lemma quiet_record t sid ssid iova cmd c l st b : quiet (record_event_full bus cfg t sid ssid iova cmd c l st b).
Proof. unfold record_event_full. quiet. apply quiet_push; quiet. Qed.

Lemma quiet_record_pri sid iova f : quiet (record_pri bus cfg sid iova f).
Proof. unfold record_pri. quiet. apply quiet_push; quiet. Qed.
#[local] Hint Resolve quiet_record quiet_record_pri : smmu.

Lemma quiet_table_read a n : quiet (table_read bus cfg a n).
Proof. unfold table_read. quiet. Qed.
#[local] Hint Resolve quiet_table_read : smmu.

Lemma quiet_ste_addr sid : quiet (ste_addr bus cfg sid).
Proof. unfold ste_addr. quiet. Qed.

Lemma quiet_cd_addr ste ssid : quiet (cd_addr bus cfg ste ssid).
Proof. unfold cd_addr. quiet. Qed.
#[local] Hint Resolve quiet_ste_addr quiet_cd_addr : smmu.

Lemma quiet_walk_loop s2 iova g st first out fuel : (forall a, quiet (s2 a)) -> forall level table ta,
  quiet (walk_loop bus s2 fuel iova level table g st first out ta).
Proof.
  intros Hs2. induction fuel as [|fuel IH]; intros level table ta; cbn [walk_loop]; [quiet|].
  apply quiet_bind; [apply Hs2|intros a]. quiet; auto.
Qed.

Lemma quiet_finish x l tb d da ta st out : quiet (finish_walk bus x l tb d da ta st out).
Proof. unfold finish_walk, check_access_flag, check_s1_perm. quiet. Qed.
#[local] Hint Resolve quiet_finish : smmu.

Lemma quiet_ptw_with s2 x : (forall a, quiet (s2 a)) -> quiet (ptw64_with bus cfg s2 x).
Proof.
  intros Hs2. unfold ptw64_with. destruct (select_ttb x) as [[[ttb tsz] tg] epd].
  pose proof (quiet_walk_loop s2) as Hw. quiet; auto.
Qed.

Lemma quiet_ptw x : quiet (smmuv3_ptw64 bus cfg x).
Proof.
  unfold smmuv3_ptw64. quiet; apply quiet_ptw_with; intros a; unfold s2_none; [|quiet].
  unfold s2_translate. apply quiet_bind; [apply quiet_ptw_with; intros b; unfold s2_none; quiet|intros r; quiet].
Qed.
#[local] Hint Resolve quiet_ptw : smmu.

Lemma quiet_stream_walk ste cd iova a : quiet (stream_walk bus cfg ste cd iova a).
Proof. unfold stream_walk. quiet. Qed.

#[local] Hint Resolve quiet_stream_walk : smmu.

(** ** Computations that keep the invariant *)

Lemma inv_quiet s s' : quiet_rel s s' -> smmu_inv cfg s -> smmu_inv cfg s'.
Proof.
  intros [[Hr [H1 H2] [H3 H4] [H5 H6] _] Hd] [? [] ? ? ?].
  split; [done|split; by rewrite ?H1, ?H2|by rewrite H3, H4|by rewrite H5, H6|auto].
Qed.

Definition keeps {A} (m : M A) : Prop :=
  forall s a s', m s = Ret (a, s') -> smmu_inv cfg s.1 -> smmu_inv cfg s'.1.

Lemma quiet_keeps {A} (m : M A) : quiet m -> keeps m.
Proof. intros Hm s a s' E Hi. apply (inv_quiet s.1); [|done]. apply (Hm _ _ _ E), Hi. Qed.

Lemma keeps_bind {A B} (m : M A) (k : A -> M B) : keeps m -> (forall a, keeps (k a)) -> keeps (sm_bind m k).
Proof. intros Hm Hk s b s' H Hi. apply sm_bind_Ret in H as (a & s1 & H1 & H2). eapply Hk; [done|]. by eapply Hm. Qed.

Lemma keeps_mod f : (forall s, smmu_inv cfg s -> smmu_inv cfg (f s)) -> keeps (s_mod f).
Proof. intros Hf s a s' [= _ <-] Hi. by apply Hf. Qed.

Lemma keeps_find_ste sid : keeps (find_ste bus cfg sid).
Proof.
  intros s a s' H Hi. unfold find_ste in H. rewrite bind_s_get in H.
  destruct (s_ste_cache s.1 !! sid) as [ste|] eqn:E; [by injection H as _ <-|].
  apply sm_bind_Ret in H as (x & s1 & H1 & H2). pose proof (quiet_ste_addr _ _ _ _ H1 (si_regs _ _ Hi)) as Q1.
  pose proof (inv_quiet _ _ Q1 Hi) as Hi1. destruct x as [a1|]; [|by injection H2 as _ <-].
  apply sm_bind_Ret in H2 as (y & s2 & H2 & H3). pose proof (quiet_table_read _ _ _ _ _ H2 (si_regs _ _ Hi1)) as Q2.
  pose proof (inv_quiet _ _ Q2 Hi1) as Hi2. destruct y as [b|]; [|by injection H3 as _ <-].
  injection H3 as _ <-. cbn [fst].
  assert (s_ste_cache s2.1 !! sid = None) as En.
  { by rewrite (proj1 (sc_ste _ _ (q_caches _ _ Q2))), (proj1 (sc_ste _ _ (q_caches _ _ Q1))). }
  pose proof (cache_put_ok CACHE_MAX sid (decode_ste b) _ _ ltac:(unfold CACHE_MAX; lia) (si_ste _ _ Hi2) En) as Hc.
  destruct (cache_put CACHE_MAX sid (decode_ste b) (s_ste_cache s2.1) (s_ste_lru s2.1)). destruct Hi2 as [? [] ? ? ?]. by split.
Qed.

Lemma keeps_read_cd sid ste ssid : keeps (read_cd bus cfg sid ste ssid).
Proof.
  intros s a s' H Hi. unfold read_cd in H. cbv zeta in H. rewrite bind_s_get in H.
  set (key := Z.lor (Z.shiftl sid 32) ssid) in *.
  destruct (s_cd_cache s.1 !! key) as [cd|] eqn:E; [by injection H as _ <-|].
  apply sm_bind_Ret in H as (x & s1 & H1 & H2). pose proof (quiet_cd_addr _ _ _ _ _ H1 (si_regs _ _ Hi)) as Q1.
  pose proof (inv_quiet _ _ Q1 Hi) as Hi1. destruct x as [a1|]; [|by injection H2 as _ <-].
  apply sm_bind_Ret in H2 as (y & s2 & H2 & H3). pose proof (quiet_table_read _ _ _ _ _ H2 (si_regs _ _ Hi1)) as Q2.
  pose proof (inv_quiet _ _ Q2 Hi1) as Hi2. destruct y as [b|]; [|by injection H3 as _ <-].
  injection H3 as _ <-. cbn [fst].
  assert (s_cd_cache s2.1 !! key = None) as En.
  { by rewrite (proj1 (sc_cd _ _ (q_caches _ _ Q2))), (proj1 (sc_cd _ _ (q_caches _ _ Q1))). }
  pose proof (cache_put_ok CACHE_MAX key (decode_cd b) _ _ ltac:(unfold CACHE_MAX; lia) (si_cd _ _ Hi2) En) as Hc.
  destruct (cache_put CACHE_MAX key (decode_cd b) (s_cd_cache s2.1) (s_cd_lru s2.1)). destruct Hi2 as [? [] ? ? ?]. by split.
Qed.

Context (Hcap : 0 < p_iotlb_size cfg).

Lemma keeps_insert key e : keeps (tlb_insert cfg key e).
Proof.
  intros s a s' H [Hr Ht Hs Hc Hd]. unfold tlb_insert in H.
  destruct (iotlb_insert_ok (p_iotlb_size cfg) key e s.1 Ht Hcap) as (s1 & E & Ht1 & _). rewrite E in H. injection H as _ <-.
  assert (exists l lru, s1 = set_iotlb l lru s.1) as (l & lru & ->).
  { unfold iotlb_insert in E. apply rbind_Ret in E as ([l lru] & _ & E). injection E as <-. by do 2 eexists. }
  by split.
Qed.
#[local] Hint Resolve quiet_keeps keeps_find_ste keeps_read_cd keeps_insert : smmu.

Ltac keep := repeat (cbv zeta; match goal with
  | |- keeps (sm_bind _ _) => apply keeps_bind; [|intros ?]
  | |- keeps (if ?b then _ else _) => destruct b
  | |- keeps (match ?x with _ => _ end) => destruct x
  | |- keeps (sm_when ?b _) => destruct b; cbn [sm_when]
  | |- keeps _ => solve [eauto 4 with smmu]
  end).

Lemma keeps_translate t sid ssid sec : keeps (smmuv3_translate bus cfg t sid ssid sec).
Proof. unfold smmuv3_translate, translate_stream, translate_fault. keep. Qed.
#[local] Hint Resolve keeps_translate : smmu.

Lemma keeps_inv_all : keeps (s_mod iotlb_inv_all).
Proof. apply keeps_mod. intros s [? [] ? ? ?]. split; try done. split; cbn; [constructor|done|lia]. Qed.

Lemma keeps_inv_where hit : keeps (s_mod (iotlb_inv_where hit)).
Proof.
  apply keeps_mod. intros s [Hr Ht Hs Hc Hd]. apply (iotlb_inv_where_ok _ hit) in Ht as [Ht _].
  unfold iotlb_inv_where in *. destruct (inv_where hit (s_iotlb s) (s_iotlb_lru s)). by split.
Qed.

Lemma keeps_ste c l : cache_ok CACHE_MAX c l -> keeps (s_mod (set_ste_cache c l)).
Proof. intros Hc. apply keeps_mod. intros s [? [] ? ? ?]. by split. Qed.

Lemma keeps_cd c l : cache_ok CACHE_MAX c l -> keeps (s_mod (set_cd_cache c l)).
Proof. intros Hc. apply keeps_mod. intros s [? [] ? ? ?]. by split. Qed.

Lemma keeps_cfgi_all : keeps handle_cmd_cfgi_all.
Proof. apply keeps_mod. intros s [? [] ? ? ?]. split; try done; apply cache_ok_empty. Qed.

Lemma keeps_cfgi_ste cmd : keeps (handle_cmd_cfgi_ste cmd).
Proof. apply keeps_mod. intros s [? [] ? ? ?]. split; try done. by apply cache_ok_delete. Qed.

Lemma keeps_secure f g : keeps (s_mod (fun s => set_secure (f s) (g s) s)).
Proof. apply keeps_mod. intros s [? [] ? ? ?]. by split. Qed.

Lemma keeps_resume cmd : keeps (handle_cmd_resume cmd).
Proof.
  unfold handle_cmd_resume. keep. apply keeps_mod. intros x [? [] ? ? ?]. by destruct (_ =? 0).
Qed.

Lemma keeps_sync cmd : keeps (handle_cmd_sync bus cfg cmd).
Proof. unfold handle_cmd_sync, sync_msi, trigger_irq. keep. Qed.

Lemma keeps_atc cmd : keeps (handle_cmd_atc_inv cfg cmd).
Proof. apply quiet_keeps, quiet_iter. intros. apply quiet_output. Qed.

#[local] Hint Resolve keeps_inv_all keeps_inv_where keeps_ste keeps_cd keeps_cfgi_all keeps_cfgi_ste keeps_secure keeps_resume
  keeps_sync keeps_atc cache_ok_empty : smmu.

(** Every handler of a queue keeps the invariant. *)
Definition handlers_keep (disp : list Z -> option (M unit)) : Prop := forall cmd m, disp cmd = Some m -> keeps m.

Lemma dispatch_keeps : handlers_keep (dispatch bus cfg).
Proof.
  intros cmd m Hd. unfold dispatch in Hd.
  repeat (match type of Hd with context [match ?z with _ => _ end] => destruct z end; try discriminate Hd);
    injection Hd as <-; unfold handle_cmd_cfgi_ste_range, handle_cmd_cfgi_cd, handle_cmd_tlbi_nh_all, handle_cmd_tlbi_nh_asid,
    handle_cmd_tlbi_nh_va, handle_cmd_tlbi_nh_vaa, handle_cmd_tlbi_s12_vmall, handle_cmd_tlbi_s2_ipa,
    iotlb_inv_asid, iotlb_inv_vmid, iotlb_inv_iova; keep.
Qed.

Lemma dispatch_secure_keeps : handlers_keep (dispatch_secure bus cfg).
Proof.
  intros cmd m Hd. unfold dispatch_secure in Hd.
  repeat (match type of Hd with context [match ?z with _ => _ end] => destruct z end; try discriminate Hd);
    injection Hd as <-; unfold sync_msi; keep;
    first [ apply (keeps_secure (fun s => delete _ (s_ste_secure s)) s_cd_secure)
          | apply (keeps_secure (fun _ => ∅) s_cd_secure) | apply (keeps_secure s_ste_secure (fun _ => ∅))
          | apply (keeps_secure (fun _ => ∅) (fun _ => ∅)) ].
Qed.

Lemma keeps_cmdq_loop disp cr err base l p fuel :
  handlers_keep disp -> (forall e, quiet (err e)) -> forall c, keeps (cmdq_loop bus disp cr err base l p fuel c).
Proof.
  intros Hd He. induction fuel as [|fuel IH]; intros c; cbn [cmdq_loop]; cbv zeta; (destruct (_ =? _); [keep|]); [keep|].
  apply keeps_bind; [keep|]. intros [cmd|]; [|keep]. destruct (disp cmd) as [m|] eqn:E; [|keep].
  apply keeps_bind; [by eapply Hd|]. intros _. apply IH.
Qed.

Lemma keeps_consume disp bh bl pr cr f err :
  handlers_keep disp -> (forall e, quiet (err e)) -> keeps (consume_with bus disp bh bl pr cr f err).
Proof. intros Hd He. unfold consume_with. keep. by apply keeps_cmdq_loop. Qed.

Lemma keeps_cmdq : keeps (consume_cmdq bus cfg).
Proof. apply keeps_consume; [apply dispatch_keeps|]. intros e. unfold set_cmdq_err. quiet. Qed.

Lemma keeps_secure_cmdq : keeps (consume_secure_cmdq bus cfg).
Proof. apply keeps_consume; [apply dispatch_secure_keeps|]. intros e. unfold set_secure_cmdq_err. quiet. Qed.

Lemma keeps_gatos : keeps (do_gatos bus cfg).
Proof. unfold do_gatos. keep. Qed.

Lemma quiet_rset_all l : quiet (rset_all l).
Proof. apply quiet_iter. intros. apply quiet_rset. Qed.
Lemma quiet_fset_all l : quiet (fset_all l).
Proof. apply quiet_iter. intros. apply quiet_fset. Qed.
#[local] Hint Resolve quiet_rset_all quiet_fset_all : smmu.

Lemma keeps_reset v : keeps (reset_changed cfg v).
Proof.
  unfold reset_changed. destruct v.
  - apply keeps_mod. intros s [? [] ? ? ?]. split; cbn; try done; [split; cbn; [constructor|done|lia]|apply cache_ok_empty..|].
    unfold DMA_DMI_CACHE_MAX. lia.
  - unfold start_of_simulation. keep.
Qed.

Lemma keeps_dmi_invalidate a b : keeps (dma_dmi_invalidate a b).
Proof.
  apply keeps_mod. intros s [? [] ? ? Hd]. split; try done. cbn. etransitivity; [apply length_filter|done].
Qed.

(** Register accesses of the driver. *)

Lemma quiet_copy a b : quiet (copy_reg a b).
Proof. unfold copy_reg. quiet. Qed.

Lemma keeps_if_field f m : keeps m -> keeps (if_field f m).
Proof. intros Hm. unfold if_field. keep. Qed.

Lemma keeps_invalidate_all : keeps invalidate_all.
Proof.
  unfold invalidate_all. keep. apply keeps_mod. intros s [? [] ? ? ?].
  split; cbn; try done; [split; cbn; [constructor|done|lia]|apply cache_ok_empty..].
Qed.
#[local] Hint Resolve quiet_copy keeps_if_field keeps_invalidate_all keeps_cmdq keeps_secure_cmdq keeps_gatos : smmu.

Lemma keeps_write r v : keeps (mmio_write bus cfg r v).
Proof. unfold mmio_write, post_write. keep. Qed.

Lemma keeps_read r : keeps (mmio_read bus cfg r).
Proof. unfold mmio_read, pre_read. keep. Qed.

(** ** The units *)

Context (down : downstream W) (sid : Z).

(** Computations on the world only. *)
Lemma keeps_same {A} (m : M A) : (forall s a s', m s = Ret (a, s') -> s'.1 = s.1) -> keeps m.
Proof. intros H s a s' E Hi. by rewrite (H _ _ _ E). Qed.

Lemma keeps_forward t te : keeps (forward down t te).
Proof.
  apply keeps_same. intros s a s' H. unfold forward in H. destruct (down_transport _ _ _ _) as [[p w]|]; [|done].
  by injection H as _ <-.
Qed.

Lemma keeps_stall_begin ssid iova ft fl c cmd : keeps (stall_begin bus cfg sid ssid iova ft fl c cmd).
Proof. unfold stall_begin. keep. apply keeps_mod. intros x [? [] ? ? ?]. by split. Qed.

Lemma keeps_stall_finish stag : keeps (stall_finish (W:=W) stag).
Proof. unfold stall_finish. keep. apply keeps_mod. intros x [? [] ? ? ?]. by split. Qed.
#[local] Hint Resolve keeps_forward keeps_stall_begin keeps_stall_finish : smmu.

Lemma keeps_after t te : keeps (after_translate bus cfg down sid t te).
Proof. unfold after_translate, answer_ats. keep. Qed.

Lemma keeps_translate_txn t : keeps (translate_txn bus cfg sid t).
Proof. apply keeps_translate. Qed.
#[local] Hint Resolve keeps_after keeps_translate_txn : smmu.

Lemma keeps_b_transport t : keeps (b_transport bus cfg down sid t).
Proof.
  unfold b_transport. keep. apply keeps_same. intros s x s' H. destruct (down_transport _ _ _ _) as [[p w]|]; [|done].
  by injection H as _ <-.
Qed.

Lemma keeps_b_resume stag t : keeps (b_transport_resume bus cfg down sid stag t).
Proof. unfold b_transport_resume. keep. Qed.

Lemma keeps_dbg t : keeps (transport_dbg bus cfg down sid t).
Proof.
  unfold transport_dbg. keep. apply keeps_same. intros s x s' H. destruct (down_dbg _ _ _) as [[[n p] w]|]; [|done].
  by injection H as _ <-.
Qed.

Lemma keeps_dmi t d : keeps (get_direct_mem_ptr bus cfg down sid t d).
Proof.
  unfold get_direct_mem_ptr. keep. apply keeps_same. intros s x s' H. destruct (perm_refuses _ _); [by injection H as _ <-|].
  destruct (down_dmi _ _ _ _) as [[[[ok p] e] w]|]; [|done]. destruct (negb ok); [by injection H as _ <-|].
  destruct (clamp_dmi _ _ _). by injection H as _ <-.
Qed.

Lemma keeps_tbu_invalidate n a b : keeps (invalidate_direct_mem_ptr (W:=W) n a b).
Proof. unfold invalidate_direct_mem_ptr. keep. apply quiet_keeps, quiet_iter. intros x. quiet. Qed.

End Inv.

(** ** Steps *)

Section Steps.
Context {W : Type} (bus : dma_bus W) (cfg : smmu_config) (down : downstream W).

(** What may happen to an SMMU: a transaction arrives at the unit of a stream or is
    resumed, is a debug access or a DMI request; the driver writes or reads a register,
    which may drain a command queue or translate an address; the bus or a target takes
    DMI back; the reset line changes; anything happens to the world. *)
Inductive smmu_step : smmu * W -> smmu * W -> Prop :=
| step_transport sid t o s s' : b_transport bus cfg down sid t s = Ret (o, s') -> smmu_step s s'
| step_resume sid stag t o s s' : b_transport_resume bus cfg down sid stag t s = Ret (o, s') -> smmu_step s s'
| step_debug sid t o s s' : transport_dbg bus cfg down sid t s = Ret (o, s') -> smmu_step s s'
| step_dmi sid t d o s s' : get_direct_mem_ptr bus cfg down sid t d s = Ret (o, s') -> smmu_step s s'
| step_write r v s s' : mmio_write bus cfg r v s = Ret (tt, s') -> smmu_step s s'
| step_read r v s s' : mmio_read bus cfg r s = Ret (v, s') -> smmu_step s s'
| step_dma_invalidate a b s s' : dma_dmi_invalidate a b s = Ret (tt, s') -> smmu_step s s'
| step_tbu_invalidate n a b s s' : invalidate_direct_mem_ptr n a b s = Ret (tt, s') -> smmu_step s s'
| step_reset v s s' : reset_changed cfg v s = Ret (tt, s') -> smmu_step s s'
| step_world s w : smmu_step s (s.1, w).

Lemma step_keeps s s' : 0 < p_iotlb_size cfg -> smmu_step s s' -> smmu_inv cfg s.1 -> smmu_inv cfg s'.1.
Proof.
  intros Hcap [].
  - by eapply keeps_b_transport.
  - by eapply keeps_b_resume.
  - by eapply keeps_dbg.
  - by eapply keeps_dmi.
  - by eapply keeps_write.
  - by eapply keeps_read.
  - by eapply keeps_dmi_invalidate.
  - by eapply keeps_tbu_invalidate.
  - by eapply keeps_reset.
  - done.
Qed.

End Steps.

Lemma smmu_inv_init cfg : 0 < p_iotlb_size cfg -> smmu_inv cfg smmu_init.
Proof.
  intros Hcap. split; cbn.
  - by intros ???.
  - split; cbn; [constructor|done|lia].
  - apply cache_ok_empty.
  - apply cache_ok_empty.
  - unfold DMA_DMI_CACHE_MAX. lia.
Qed.

(** ** Properties *)

(** C8: Whatever transactions, register writes, commands, invalidations and resets an SMMU
    sees, in whatever order, its registers hold 32 bits, its three caches agree with their
    lists of recent keys and never exceed their sizes (the configured one for
    translations, 1024 for configuration), and it keeps at most 64 DMI regions. *)
Theorem smmu_reachable_inv {W} (bus : dma_bus W) cfg (down : downstream W) w s :
  0 < p_iotlb_size cfg -> rtc (smmu_step bus cfg down) (smmu_init, w) s -> smmu_inv cfg s.1.
Proof.
  intros Hcap H. remember (smmu_init, w) as s0 eqn:E0. assert (smmu_inv cfg s0.1) as Hi.
  { rewrite E0. by apply smmu_inv_init. }
  clear E0. induction H as [|s0 s1 s2 Hs _ IH]; [done|]. apply IH. by eapply step_keeps.
Qed.

Lemma smmu_reachable_inv_witness :
  smmu_inv ex_cfg (set_regs (reg_set AGBPA 1 ∅) smmu_init).
Proof.
  apply (smmu_reachable_inv (mem_bus 0x100000) ex_cfg ex_down ∅ (set_regs (reg_set AGBPA 1 ∅) smmu_init, ∅)).
  - cbn. lia.
  - apply rtc_once. apply (step_write _ _ _ AGBPA 1). reflexivity.
Defined.
