(* ===== verification/Smmu500.v ===== *)
(** * SMMU-500

    [smmu500.h], [smmu500.cc]: the second SMMU model.  Streams select a context bank,
    whose registers give the tables of a stage 1, stage 2 or nested translation; TBUs
    translate transactions and DMI grants and remember the range they granted for each
    context bank.

    The registers are one array of 32-bit words, named by offset ([smmu500_gen.h]): the
    elements of a register array are 4 bytes apart and are not checked, those of a context
    bank are a page apart and are. *)

From stdpp Require Import base list numbers option gmap.
From S2P Require Import Prelude Monad Registers Tlm SmmuRegs SmmuWalk.


(** ** Registers *)

Definition SMMU_SCR0 : Z := 0x0.
Definition SMMU_SCR1 : Z := 0x4.
Definition SMMU_SIDR0 : Z := 0x20.
Definition SMMU_SIDR1 : Z := 0x24.
Definition SMMU_SIDR7 : Z := 0x3c.
Definition SMMU_GATS1PR : Z := 0x110.
Definition SMMU_GATS1PR_H : Z := 0x114.
Definition SMMU_GATS1PW : Z := 0x118.
Definition SMMU_GATS1PW_H : Z := 0x11C.
Definition SMMU_GATS12PR : Z := 0x130.
Definition SMMU_GATS12PR_H : Z := 0x134.
Definition SMMU_GATS12PW : Z := 0x138.
Definition SMMU_GATS12PW_H : Z := 0x13C.
Definition SMMU_GPAR : Z := 0x180.
Definition SMMU_GPAR_H : Z := 0x184.
Definition SMMU_NSCR0 : Z := 0x400.
Definition SMMU_TBU_PWR_STATUS : Z := 0x2204.

(** Elements of the register arrays. *)
Definition SMMU_SMR (i : Z) : Z := 0x800 + 4 * i.
Definition SMMU_S2CR (i : Z) : Z := 0xc00 + 4 * i.
Definition SMMU_CBAR (i : Z) : Z := 0x1000 + 4 * i.
Definition SMMU_CBA2R (i : Z) : Z := 0x1800 + 4 * i.

(** Registers of a context bank, by offset in its page. *)
Definition CB_SCTLR : Z := 0x000.
Definition CB_TCR2 : Z := 0x010.
Definition CB_TTBR0_LOW : Z := 0x020.
Definition CB_TTBR0_HIGH : Z := 0x024.
Definition CB_TTBR1_LOW : Z := 0x028.
Definition CB_TTBR1_HIGH : Z := 0x02C.
Definition CB_TCR_LPAE : Z := 0x030.
Definition CB_FSR : Z := 0x058.
Definition CB_FAR_LOW : Z := 0x060.
Definition CB_FAR_HIGH : Z := 0x064.
Definition CB_IPAFAR_LOW : Z := 0x070.
Definition CB_IPAFAR_HIGH : Z := 0x074.
Definition CB_TLBIASID : Z := 0x610.
Definition CB_TLBIALL : Z := 0x618.

Definition CB_BANK_COUNT : Z := 128.

(** Fields: first bit and length. *)
Definition SCR0_CLIENTPD : reg_field := (SMMU_SCR0, 0, 1).
Definition SCR1_NSNUMCBO : reg_field := (SMMU_SCR1, 0, 8).
Definition SCR1_NSNUMSMRGO : reg_field := (SMMU_SCR1, 8, 8).
Definition SIDR0_NUMSMRG : reg_field := (SMMU_SIDR0, 0, 8).
Definition SIDR0_ATOSNS : reg_field := (SMMU_SIDR0, 26, 1).
Definition SIDR1_NUMCB : reg_field := (SMMU_SIDR1, 0, 8).
Definition SIDR1_NUMPAGENDXB : reg_field := (SMMU_SIDR1, 28, 3).
Definition SMR_ID (v : Z) : Z := extract v 0 15.
Definition SMR_MASK (v : Z) : Z := extract v 16 15.
Definition SMR_VALID (v : Z) : bool := bit v 31.
Definition S2CR_CBNDX_VMID (v : Z) : Z := extract v 0 8.
Definition CBAR_TYPE (v : Z) : Z := extract v 16 2.
Definition CBA2R_VA64 (v : Z) : bool := bit v 0.
Definition CB_SCTLR_M (v : Z) : bool := bit v 0.
Definition CB_SCTLR_CFIE (v : Z) : bool := bit v 6.
Definition CB_FSR_TF (v : Z) : bool := bit v 1.

(** ** State *)

Record config : Type := mk_config {
  p_pamax : Z;
  p_num_smr : Z;
  p_num_cb : Z;
  p_num_pages : Z;
  p_ato : bool;
  p_version : Z;
  p_num_tbu : Z;
}.

Definition SMMU_MAX_CB : Z := 128.

(** [smmu500_tbu]: the range granted for each context bank; a bank without an entry has
    [dmi_range_valid] false. *)
Record tbu : Type := mk_tbu {
  p_topology_id : Z;
  dmi_range : gmap Z (Z * Z);
}.

(** The registers, the interrupt lines as last driven, the TBUs and the invalidations sent
    upstream (by which TBU, first and last address), the latest first. *)
Record smmu500 : Type := mk_smmu {
  regs : reg_file;
  irq_context : gmap Z bool;
  tbus : list tbu;
  sent : list (nat * Z * Z);
}.

Definition set_regs (f : reg_file) (s : smmu500) := mk_smmu f (irq_context s) (tbus s) (sent s).
Definition set_irq (m : gmap Z bool) (s : smmu500) := mk_smmu (regs s) m (tbus s) (sent s).
Definition set_tbus (l : list tbu) (s : smmu500) := mk_smmu (regs s) (irq_context s) l (sent s).
Definition set_sent (l : list (nat * Z * Z)) (s : smmu500) := mk_smmu (regs s) (irq_context s) (tbus s) l.

(** What the sockets are bound to: the DMA port and the TBUs' downstream sockets. *)
Record bound (W : Type) : Type := mk_bound {
  dma : payload -> W -> res (payload * W);
  down : nat -> payload -> W -> res (payload * W);
  down_dbg : nat -> payload -> W -> res (Z * payload * W);
  down_dmi : nat -> payload -> tlm_dmi -> W -> res (bool * payload * tlm_dmi * W);
}.
Arguments dma {W}.
Arguments down {W}.
Arguments down_dbg {W}.
Arguments down_dmi {W}.

(** [TransReq].  [prot], [page_size] and [err] start out undefined: a copy of an undefined
    value does no harm, a branch on it stops. *)
Record TransReq : Type := mk_req {
  va : Z;
  tcr1 : Z; tcr2 : Z;
  ttbr10 : Z; ttbr11 : Z; ttbr20 : Z;
  access : Z;
  stage : Z;
  s2_enabled : bool;
  s2_cb : Z;
  pa : Z;
  prot : option Z;
  page_size : option Z;
  err : option bool;
}.

Definition with_stage (st v : Z) (r : TransReq) : TransReq :=
  mk_req v (tcr1 r) (tcr2 r) (ttbr10 r) (ttbr11 r) (ttbr20 r) (access r) st (s2_enabled r) (s2_cb r)
    (pa r) (prot r) (page_size r) (err r).
Definition with_result (a : Z) (p ps : option Z) (e : bool) (r : TransReq) : TransReq :=
  mk_req (va r) (tcr1 r) (tcr2 r) (ttbr10 r) (ttbr11 r) (ttbr20 r) (access r) (stage r) (s2_enabled r) (s2_cb r)
    a p ps (Some e).

Definition IOMMU_NONE : Z := 0.
Definition IOMMU_RO : Z := 1.
Definition IOMMU_WO : Z := 2.
Definition IOMMU_RW : Z := 3.

Definition SMMU_PAGESIZE : Z := 4096.
Definition SMMU_PAGEMASK : Z := SMMU_PAGESIZE - 1.
Definition SMMU_VA_WIDTH : Z := 32.
Definition SMMU_ADDRMASK : Z := 2 ^ 12 - 1.

Definition extract32 (val start length : Z) : Z := extract (u32 val) start length.

Section Model.
Context {W : Type} (env : bound W) (cfg : config).

Abbreviation M := (SM (smmu500 * W)).

(** ** Register access *)

Definition rd (r : Z) : M Z := fun s => Ret (reg_get r (regs s.1), s).
Definition wr (r v : Z) : M unit := sm_modify (fun s => (set_regs (reg_set r v (regs s.1)) s.1, s.2)).
Definition wr_field (fd : reg_field) (v : Z) : M unit := fun s =>
  match field_set fd v (regs s.1) with Ret f => Ret (tt, (set_regs f s.1, s.2)) | Err e => Err e end.

(** [SMMU_CB_X[cb]]: the index is checked. *)
Definition cb_reg (r cb : Z) : Z := p_num_pages cfg * SMMU_PAGESIZE + r + 0x1000 * cb.
Definition cb_ok (cb : Z) : bool := (0 <=? cb) && (cb <? CB_BANK_COUNT).
Definition cb_rd (r cb : Z) : M Z := if cb_ok cb then rd (cb_reg r cb) else sm_fail StopFatal.
Definition cb_wr (r cb v : Z) : M unit := if cb_ok cb then wr (cb_reg r cb) v else sm_fail StopFatal.

(** ** Faults *)

Definition smmu500_update_ctx_irq (cb : Z) : M unit :=
  do! f := cb_rd CB_FSR cb in
  do! c := cb_rd CB_SCTLR cb in
  if (0 <=? cb) && (cb <? p_num_cb cfg) then
    sm_modify (fun s => (set_irq (<[cb := CB_FSR_TF f && CB_SCTLR_CFIE c]> (irq_context s.1)) s.1, s.2))
  else sm_fail StopUndef.

(** The registers that a fault leaves behind; the request is marked by the caller. *)
Definition smmu500_fault (cb st v : Z) : M unit :=
  do! f := cb_rd CB_FSR cb in
  cb_wr CB_FSR cb (Z.lor f 2) ;;!
  cb_wr CB_IPAFAR_LOW cb (u32 v) ;;!
  cb_wr CB_IPAFAR_HIGH cb (u32 (Z.shiftr v 32)) ;;!
  (if st =? 2 then cb_wr CB_FAR_LOW cb (u32 v) ;;! cb_wr CB_FAR_HIGH cb (u32 (Z.shiftr v 32)) else sm_ret tt) ;;!
  smmu500_update_ctx_irq cb.

(** ** The page table walk *)

(** [stride] is passed as an [int]. *)
Definition check_s2_startlevel (is_aa64 : bool) (pamax_val level inputsize stride : Z) : res bool :=
  if level <? 0 then Ret false
  else if is_aa64 then
    if stride =? 13 then Ret (negb ((level =? 0) || (level =? 1) && (pamax_val <=? 42)))
    else if stride =? 11 then Ret (negb ((level =? 0) || (level =? 1) && (pamax_val <=? 40)))
    else if stride =? 9 then Ret (negb ((level =? 0) && (pamax_val <=? 42)))
    else Err StopAssert
  else
    let grainsize := stride + 3 in
    let? _ := assertb (stride =? 9) in
    if level =? 0 then Ret false
    else
      let startsizecheck := inputsize - ((3 - level) * stride + grainsize) in
      Ret (negb ((startsizecheck <? 1) || (stride + 4 <? startsizecheck))).

Definition check_out_addr (addr outputsize : Z) : bool :=
  negb (negb (outputsize =? 48) && negb (extract addr outputsize (48 - outputsize) =? 0)).

Definition outsize_map (ps : Z) : Z := nth (Z.to_nat ps) [32; 36; 40; 42; 44; 48; 48; 48] 0.

Definition tg1map (tg : Z) : Z := nth (Z.to_nat tg) [3; 2; 0; 1] 0.

(** [1ULL << n]. *)
Definition shl1 (n : Z) : M Z := if (0 <=? n) && (n <? 64) then sm_ret (2 ^ n) else sm_fail StopUndef.

Definition lift {A} (r : res A) : M A := fun s => match r with Ret a => Ret (a, s) | Err e => Err e end.

(** Table base, size, granule and disable bit. *)
Definition select_table (cb : Z) (r : TransReq) : M (Z * Z * Z * bool) :=
  let tcr := if stage r =? 1 then tcr1 r else tcr2 r in
  let tg := extract32 tcr 14 2 in
  let t0sz := extract32 tcr 0 6 in
  do! c := rd (SMMU_CBA2R cb) in
  let va64 := CBA2R_VA64 c in
  if stage r =? 1 then
    let type64 := va64 || bit (tcr1 r) 31 in
    sm_assert type64 ;;!
    let epd := bit (tcr1 r) 7 in
    if negb (bit (va r) 63) then sm_ret (ttbr10 r, t0sz, tg, epd)
    else if negb va64 && type64 then
      sm_ret (ttbr11 r, extract32 tcr 16 6, tg1map (extract32 tcr 30 2), epd)
    else sm_ret (ttbr11 r, extract32 tcr 16 3, 0, epd)
  else sm_ret (ttbr20 r, t0sz, tg, false).

(** Grain size, level and first level with blocks; a wrong page size is reported and the
    walk goes on. *)
Definition granule (tg : Z) : Z * Z * Z :=
  if tg =? 1 then (16, 3, 2)
  else if tg =? 2 then (14, 3, 2)
  else if tg =? 0 then (12, 2, 1)
  else (u32 (-1), 0, 0).

(** The level a stage 1 walk starts from, in [unsigned] arithmetic. *)
Definition s1_level (level grainsize stride inputsize : Z) : Z :=
  if (grainsize <? 16) && (u32 (grainsize + 3 * stride) <? inputsize) then 0
  else if u32 (grainsize + 2 * stride) <? inputsize then 1
  else if u32 (grainsize + stride) <? inputsize then 2
  else level.

(** A leaf: its level, output address, descriptor and the attributes of the tables. *)
Record leaf : Type := mk_leaf { lf_level : Z; lf_ttbr : Z; lf_desc : Z; lf_tableattrs : Z }.

Definition desc_txn (a : Z) : payload := plain_txn TLM_READ_COMMAND a (replicate 8 0).

(** A descriptor read on the DMA port. *)
Definition read_desc (a : Z) : M (option Z) := fun s =>
  match dma env (desc_txn a) s.2 with
  | Err e => Err e
  | Ret (t, w) => Ret (if decide (response t = TLM_OK_RESPONSE) then Some (load_le (data t)) else None, (s.1, w))
  end.

Definition descriptor_addr (v level ttbr grainsize stride : Z) : Z :=
  let addrselectbottom := (3 - level) * stride + grainsize in
  let index := Z.land (Z.shiftr v (addrselectbottom - 3)) (Z.ones grainsize) in
  Z.lor ttbr (Z.ldiff index 7).

(** The loop; [s2] translates the address of a descriptor, [None] is a fault. *)
Fixpoint walk_loop (s2 : Z -> M (option Z)) (fuel : nat) (v level ttbr grainsize stride firstblocklevel outputsize
    tableattrs : Z) : M (option leaf) :=
  match fuel with
  | O => sm_fail StopUndef
  | S fuel' =>
      do! a := s2 (descriptor_addr v level ttbr grainsize stride) in
      match a with
      | None => sm_ret None
      | Some descaddr =>
          do! d := read_desc descaddr in
          match d with
          | None => sm_ret None
          | Some desc =>
              let type := Z.land desc 3 in
              let ttbr := Z.ldiff (extract desc 0 48) (Z.ones grainsize) in
              if negb (bit type 1) && (level =? 3) then sm_ret None
              else if level =? 3 then sm_ret (Some (mk_leaf level ttbr desc tableattrs))
              else if (type =? 2) || (type =? 0) then sm_ret None
              else if type =? 1 then
                if level <? firstblocklevel then sm_ret None else sm_ret (Some (mk_leaf level ttbr desc tableattrs))
              else
                let tableattrs := Z.lor tableattrs (extract desc 59 5) in
                if negb (check_out_addr ttbr outputsize) then sm_ret None
                else walk_loop s2 fuel' v (level + 1) ttbr grainsize stride firstblocklevel outputsize tableattrs
          end
      end
  end.

(** The attribute bits of a leaf. *)
Definition leaf_attrs (desc : Z) : Z := Z.lor (extract desc 2 10) (Z.shiftl (extract desc 52 12) 10).

Definition s1_attrs (desc tableattrs : Z) : Z :=
  Z.lor (Z.lor (leaf_attrs desc) (Z.shiftl (extract32 tableattrs 0 2) 11)) (Z.shiftl (extract32 tableattrs 3 1) 5).

(** The access flag and permissions: what is left of [IOMMU_RW], and whether it is a
    fault. *)
Definition check_perm (st acc desc tableattrs : Z) : bool * Z :=
  let attrs := if st =? 1 then s1_attrs desc tableattrs else leaf_attrs desc in
  if negb (bit attrs 8) then (true, IOMMU_RW)
  else if st =? 1 then
    if negb (bit attrs 4) then (true, IOMMU_RW)
    else if bit attrs 5 then
      if acc =? IOMMU_WO then (true, IOMMU_RW) else (false, Z.ldiff IOMMU_RW IOMMU_WO)
    else (false, IOMMU_RW)
  else
    let ap := Z.land (Z.shiftr (leaf_attrs desc) 4) 3 in
    if ap =? 0 then (true, IOMMU_RW)
    else if ap =? 1 then if acc =? IOMMU_WO then (true, IOMMU_RW) else (false, Z.ldiff IOMMU_RW IOMMU_WO)
    else if ap =? 2 then if acc =? IOMMU_RO then (true, IOMMU_RW) else (false, Z.ldiff IOMMU_RW IOMMU_RO)
    else (false, IOMMU_RW).

(** From the leaf to the request. *)
Definition finish_walk (lf : leaf) (stride outputsize : Z) (r : TransReq) : bool * TransReq :=
  if negb (check_out_addr (lf_ttbr lf) outputsize) then (true, r)
  else
    let bits := stride * (4 - lf_level lf) + 3 in
    let ttbr := Z.lor (lf_ttbr lf) (Z.land (va r) (Z.ones bits)) in
    let '(bad, p) := check_perm (stage r) (access r) (lf_desc lf) (lf_tableattrs lf) in
    if (bad : bool) then (true, with_result (va r) (Some p) (Some bits) false r)
    else (false, with_result ttbr (Some p) (Some bits) false r).

(** The body of [smmu500_ptw64] after the test of SCTLR.M: whether it ends at [do_fault],
    and the request. *)
Definition walk_tables (s2 : Z -> M (option Z)) (cb : Z) (r : TransReq) : M (bool * TransReq) :=
  let tcr := if stage r =? 1 then tcr1 r else tcr2 r in
  let ps := if stage r =? 1 then extract tcr 32 3 else extract tcr 16 3 in
  do! (ttbr, tsz, tg, epd) := select_table cb r in
  if (epd : bool) then sm_ret (true, r)
  else
    let inputsize := 64 - tsz in
    let '(grainsize, level, firstblocklevel) := granule tg in
    let outputsize := Z.min (outsize_map ps) (p_pamax cfg) in
    let stride := u32 (grainsize - 3) in
    do! lvl := (if stage r =? 1 then
                  if (inputsize <? 25) || (48 <? inputsize) || negb (extract (va r) inputsize (64 - inputsize) =? 0)
                  then sm_ret None
                  else sm_ret (Some (s1_level level grainsize stride inputsize))
                else
                  let startlevel := extract32 tcr 6 2 in
                  let level := if grainsize =? 12 then 2 - startlevel else 3 - startlevel in
                  do! ok := lift (check_s2_startlevel true outputsize level inputsize stride) in
                  sm_ret (if (ok : bool) then Some level else None)) in
    match lvl with
    | None => sm_ret (true, r)
    | Some level =>
        let baselowerbound := u32 (3 + inputsize - ((3 - level) * stride + grainsize)) in
        do! low := shl1 baselowerbound in
        let ttbr := Z.ldiff (extract ttbr 0 48) (low - 1) in
        if negb (check_out_addr ttbr outputsize) then sm_ret (true, r)
        else
          do! _ := shl1 grainsize in
          do! l := walk_loop s2 4 (va r) level ttbr grainsize stride firstblocklevel outputsize 0 in
          match l with
          | None => sm_ret (true, r)
          | Some lf => sm_ret (finish_walk lf stride outputsize r)
          end
    end.

Definition ptw64_with (s2 : Z -> M (option Z)) (cb : Z) (r : TransReq) : M TransReq :=
  do! c := cb_rd CB_SCTLR cb in
  if negb (CB_SCTLR_M c) then sm_ret (with_result (va r) (Some IOMMU_RW) (page_size r) false r)
  else
    do! (bad, r') := walk_tables s2 cb (with_result (va r) (prot r) (page_size r) false r) in
    if (bad : bool) then
      smmu500_fault cb (stage r') (va r') ;;!
      sm_ret (with_result (pa r') (prot r') (page_size r') true r')
    else sm_ret r'.

Definition s2_none (a : Z) : M (option Z) := sm_ret (Some a).

(** The address of a stage 1 descriptor through stage 2. *)
Definition s2_translate (cb : Z) (r : TransReq) (descaddr : Z) : M (option Z) :=
  do! q := ptw64_with s2_none (s2_cb r) (with_stage 2 descaddr r) in
  if default false (err q) then
    cb_wr CB_IPAFAR_LOW cb (u32 descaddr) ;;!
    cb_wr CB_IPAFAR_HIGH cb (u32 (Z.shiftr descaddr 32)) ;;!
    sm_ret None
  else sm_ret (Some (pa q)).

Definition smmu500_ptw64 (cb : Z) (r : TransReq) : M TransReq :=
  ptw64_with (if (stage r =? 1) && s2_enabled r then s2_translate cb r else s2_none) cb r.

(** ** Translation *)

Definition pair64 (hi lo : Z) : Z := Z.lor (Z.shiftl hi 32) lo.

(** The request of [smmu500_at64], before the walks. *)
Definition at64_request (cb v : Z) (write : bool) (ps : option Z) : M TransReq :=
  do! bar := rd (SMMU_CBAR cb) in
  let t := CBAR_TYPE bar in
  let st := if t =? 0 then 2 else 1 in
  let s2en := (t =? 0) || (t =? 3) in
  let s2cb := if t =? 0 then cb else if t =? 3 then extract bar 8 8 else 0 in
  do! tcr_hi := cb_rd CB_TCR2 cb in
  do! tcr_lo := cb_rd CB_TCR_LPAE cb in
  do! t0h := cb_rd CB_TTBR0_HIGH cb in
  do! t0l := cb_rd CB_TTBR0_LOW cb in
  do! t1h := cb_rd CB_TTBR1_HIGH cb in
  do! t1l := cb_rd CB_TTBR1_LOW cb in
  do! (c2, b2) := (if (s2en : bool) then
                      do! c := cb_rd CB_TCR_LPAE s2cb in
                      do! h := cb_rd CB_TTBR0_HIGH s2cb in
                      do! l := cb_rd CB_TTBR0_LOW s2cb in
                      sm_ret (c, pair64 h l)
                    else sm_ret (0, 0)) in
  sm_ret (mk_req v (pair64 tcr_hi tcr_lo) c2 (pair64 t0h t0l) (pair64 t1h t1l) b2
            (if write then IOMMU_WO else IOMMU_RO) st s2en s2cb 0 None ps None).

(** The request with [pa] assigned. *)
Definition with_pa (a : Z) (r : TransReq) : TransReq :=
  mk_req (va r) (tcr1 r) (tcr2 r) (ttbr10 r) (ttbr11 r) (ttbr20 r) (access r) (stage r) (s2_enabled r) (s2_cb r)
    a (prot r) (page_size r) (err r).

(** [smmu500_at64]: the request holds what is returned through the pointers and as the
    result. *)
Definition smmu500_at64 (cb v : Z) (write s2 : bool) (ps : option Z) : M TransReq :=
  do! r := at64_request cb v write ps in
  do! r := (if stage r =? 1 then
              do! q := smmu500_ptw64 cb r in sm_ret (with_stage 2 (va q) q)
            else sm_ret (with_pa (va r) r)) in
  if s2 && s2_enabled r then smmu500_ptw64 cb (with_stage 2 (pa r) r) else sm_ret r.

Definition smmu500_at := smmu500_at64.

(** A use of a value that may be undefined. *)
Definition defined {A} (o : option A) : M A :=
  match o with Some a => sm_ret a | None => sm_fail StopUndef end.

(** Address translation operations. *)
Definition smmu500_gat (v : Z) (write s2 : bool) : M unit :=
  let a := Z.land (Z.ldiff v SMMU_ADDRMASK) (2 ^ SMMU_VA_WIDTH - 1) in
  let cb := Z.land v SMMU_ADDRMASK in
  do! r := smmu500_at cb a write s2 None in
  do! e := defined (err r) in
  wr SMMU_GPAR (u32 (Z.lor (pa r) (Z.b2z e))) ;;!
  wr SMMU_GPAR_H (u32 (Z.shiftr (pa r) 32)).

(** [IOMMUTLBEntry]. *)
Record tlb_entry : Type := mk_te {
  iova : Z;
  translated_addr : Z;
  addr_mask : Z;
  perm : Z;
}.

(** The first stream match register that matches from [i] on. *)
Fixpoint match_from (f : reg_file) (stream_id : Z) (n : nat) (i : Z) : Z :=
  match n with
  | O => -1
  | S n' =>
      let v := reg_get (SMMU_SMR i) f in
      let mask := SMR_MASK v in
      if SMR_VALID v && (Z.ldiff (SMR_ID v) mask =? Z.ldiff stream_id mask)
      then S2CR_CBNDX_VMID (reg_get (SMMU_S2CR i) f)
      else match_from f stream_id n' (i + 1)
  end.

Definition smmu500_stream_id_match (stream_id : Z) : M Z := fun s =>
  Ret (match_from (regs s.1) stream_id (Z.to_nat (field_get SIDR0_NUMSMRG (regs s.1))) 0, s).

Definition stream_of (sid addr : Z) : Z := Z.lor sid (Z.land (Z.shiftr addr 32) 0xf).

Definition smmu500_translate (t : payload) (sid : Z) : M tlb_entry :=
  let addr := address t in
  let a := Z.land (Z.ldiff addr SMMU_ADDRMASK) (2 ^ SMMU_VA_WIDTH - 1) in
  let master_id := stream_of (u16 sid) addr in
  do! pd := (fun s => Ret (field_get SCR0_CLIENTPD (regs s.1), s)) in
  if negb (pd =? 0) then sm_ret (mk_te 0 addr UINT64_MAX IOMMU_RW)
  else
    do! cb := smmu500_stream_id_match master_id in
    sm_assert (cb <? p_num_cb cfg) ;;!
    if 0 <=? cb then
      let write := bool_decide (command t = TLM_WRITE_COMMAND) in
      do! r := smmu500_at cb a write true (Some 12) in
      do! e := defined (err r) in
      if (e : bool) then sm_ret (mk_te 0 0 0 IOMMU_NONE)
      else
        do! p := defined (prot r) in
        sm_ret (mk_te 0 (pa r) (2 ^ 12 - 1) p)
    else sm_ret (mk_te 0 addr UINT64_MAX IOMMU_RW).

(** ** The TBU *)

Definition get_tbu (i : nat) : M tbu := fun s =>
  match tbus s.1 !! i with Some b => Ret (b, s) | None => Err StopUndef end.

Definition put_tbu (i : nat) (b : tbu) : M unit :=
  sm_modify (fun s => (set_tbus (<[i := b]> (tbus s.1)) s.1, s.2)).

(** A call on what a socket is bound to. *)
Definition call {A} (f : W -> res (A * W)) : M A := fun s =>
  match f s.2 with Ret (a, w) => Ret (a, (s.1, w)) | Err e => Err e end.

Definition refused (c : tlm_command) (p : Z) : bool :=
  (p =? IOMMU_NONE) || bool_decide (c = TLM_WRITE_COMMAND) && (p =? IOMMU_RO)
  || bool_decide (c = TLM_READ_COMMAND) && (p =? IOMMU_WO).

Definition b_transport (i : nat) (t : payload) : M payload :=
  do! b := get_tbu i in
  let addr := address t in
  do! te := smmu500_translate t (p_topology_id b) in
  if refused (command t) (perm te) then sm_ret (set_response_status TLM_ADDRESS_ERROR_RESPONSE t)
  else
    do! t' := call (down env i (set_address (Z.lor (translated_addr te) (Z.land addr SMMU_PAGEMASK)) t)) in
    sm_ret (set_address addr t').

Definition transport_dbg (i : nat) (t : payload) : M (Z * payload) :=
  do! b := get_tbu i in
  let addr := address t in
  do! te := smmu500_translate t (p_topology_id b) in
  do! (n, t') := call (down_dbg env i (set_address (Z.lor (translated_addr te) (Z.land addr SMMU_PAGEMASK)) t)) in
  sm_ret (n, set_address addr t').

(** The grant of an untranslated stream, cut to the 4G window of the address. *)
Definition bypass_window (addr : Z) (d : tlm_dmi) : tlm_dmi :=
  let win := Z.shiftr addr SMMU_VA_WIDTH in
  let d1 := if Z.shiftr (dmi_end d) SMMU_VA_WIDTH =? win then d
            else set_end_address (u64 (u64 (Z.shiftl (win + 1) SMMU_VA_WIDTH) - 1)) d in
  if Z.shiftr (dmi_start d1) SMMU_VA_WIDTH =? win then d1
  else
    let newstart := u64 (Z.shiftl win SMMU_VA_WIDTH) in
    set_dmi_ptr (u64 (dmi_ptr d1 + u64 (newstart - dmi_start d))) (set_start_address newstart d1).

(** The range of a context bank with a new grant. *)
Definition widen (o : option (Z * Z)) (lo hi : Z) : Z * Z :=
  match o with
  | None => (lo, hi)
  | Some (a, b) => (if lo <? a then lo else a, if b <? hi then hi else b)
  end.

Definition get_direct_mem_ptr (i : nat) (t : payload) (d : tlm_dmi) : M (bool * payload * tlm_dmi) :=
  do! b := get_tbu i in
  let vaddr := address t in
  do! te := smmu500_translate t (p_topology_id b) in
  if addr_mask te =? UINT64_MAX then
    sm_assert (translated_addr te =? vaddr) ;;!
    do! (ok, t', d') := call (down_dmi env i t d) in
    sm_ret (ok, t', bypass_window vaddr d')
  else
    let phys_start := Z.ldiff (translated_addr te) (addr_mask te) in
    let phys_size := addr_mask te + 1 in
    let phys_end := u64 (phys_start + phys_size) in
    sm_assert (phys_start <? phys_end) ;;!
    do! (ok, t1, d1) := call (down_dmi env i (set_address phys_start t) d) in
    if negb ok then sm_ret (false, t1, d1)
    else
      let t2 := match ext_udmi t1 with
                | Some u => set_udmi (Some (add_dmi u (Z.of_nat i) d1 dmi_iommu)) t1
                | None => t1
                end in
      let dmi_offset := u64 (phys_start - dmi_start d1) in
      sm_assert (phys_end <=? dmi_end d1) ;;!
      let abs := u64 (translated_addr te + Z.land vaddr SMMU_PAGEMASK) in
      let device_offset := u64 (abs - phys_start) in
      let virt_start := u64 (vaddr - device_offset) in
      let virt_end := u64 (u64 (virt_start + phys_size) - 1) in
      let d2 := mk_dmi (u64 (dmi_ptr d1 + dmi_offset)) virt_start virt_end DMI_ACCESS_READ_WRITE in
      do! cb := smmu500_stream_id_match (stream_of (p_topology_id b) vaddr) in
      do! b := get_tbu i in
      if (0 <=? cb) && (cb <? SMMU_MAX_CB) then
        put_tbu i (mk_tbu (p_topology_id b) (<[cb := widen (dmi_range b !! cb) virt_start virt_end]> (dmi_range b))) ;;!
        sm_ret (true, set_address vaddr t2, d2)
      else sm_fail StopUndef.

(** [smmu500_tbu::invalidate]. *)
Definition invalidate (cb : Z) (i : nat) : M unit :=
  do! b := get_tbu i in
  if (0 <=? cb) && (cb <? SMMU_MAX_CB) then
    (match dmi_range b !! cb with
     | Some (lo, hi) => sm_modify (fun s => (set_sent ((i, lo, hi) :: sent s.1) s.1, s.2))
     | None => sm_ret tt
     end) ;;!
    put_tbu i (mk_tbu (p_topology_id b) (delete cb (dmi_range b)))
  else sm_fail StopUndef.

Definition invalidate_all (cb : Z) : M unit := fun s =>
  sm_iter (invalidate cb) (seq 0 (length (tbus s.1))) s.

(** ** Register callbacks and reset *)

(** The callbacks, after the register is written.  [cb] is the element that the access
    names. *)
Inductive post_write : Type :=
| PW_GATS1PR_H | PW_GATS1PW_H | PW_GATS12PR_H | PW_GATS12PW_H
| PW_NSCR0
| PW_CB_FSR (cb : Z)
| PW_CB_TLBIASID (cb val : Z)
| PW_CB_TLBIALL (cb : Z).

Definition gats (hi lo : Z) (write s2 : bool) : M unit :=
  do! h := rd hi in do! l := rd lo in smmu500_gat (pair64 h l) write s2.

Definition on_post_write (p : post_write) : M unit :=
  match p with
  | PW_GATS1PR_H => gats SMMU_GATS1PR_H SMMU_GATS1PR false false
  | PW_GATS1PW_H => gats SMMU_GATS1PW_H SMMU_GATS1PW true false
  | PW_GATS12PR_H => gats SMMU_GATS12PR_H SMMU_GATS12PR false true
  | PW_GATS12PW_H => gats SMMU_GATS12PW_H SMMU_GATS12PW true true
  | PW_NSCR0 => do! v := rd SMMU_NSCR0 in wr SMMU_SCR0 v
  | PW_CB_FSR cb =>
      if p_num_cb cfg <=? cb then sm_ret tt
      else sm_iter smmu500_update_ctx_irq (map Z.of_nat (seq 0 (Z.to_nat (p_num_cb cfg))))
  | PW_CB_TLBIASID cb val => if p_num_cb cfg <=? cb then sm_ret tt else invalidate_all val
  | PW_CB_TLBIALL cb => if p_num_cb cfg <=? cb then sm_ret tt else invalidate_all cb
  end.

Definition clz32 (v : Z) : Z := if v =? 0 then 32 else 31 - Z.log2 v.

Definition start_of_simulation : M unit :=
  let num_pages_log2 := u32 (31 - clz32 (p_num_pages cfg)) in
  wr_field SIDR0_ATOSNS (Z.b2z (p_ato cfg)) ;;!
  wr_field SIDR0_NUMSMRG (p_num_smr cfg) ;;!
  wr_field SIDR1_NUMCB (p_num_cb cfg) ;;!
  wr_field SIDR1_NUMPAGENDXB (u32 (num_pages_log2 - 1)) ;;!
  wr_field SCR1_NSNUMCBO (p_num_cb cfg) ;;!
  wr_field SCR1_NSNUMSMRGO (p_num_smr cfg) ;;!
  wr SMMU_SIDR7 (p_version cfg) ;;!
  if p_num_tbu cfg <? 32 then wr SMMU_TBU_PWR_STATUS (u32 (2 ^ p_num_tbu cfg - 1)) else sm_fail StopUndef.

(** The reset signal: [reset_values] are those of the register memory. *)
Definition on_reset (reset_values : reg_file) (value : bool) : M unit :=
  if value then sm_modify (fun s => (set_regs reset_values s.1, s.2)) ;;! start_of_simulation else sm_ret tt.
End Model.

(** ** Reference translation *)

(** From a table to the leaf it gives for [v]: [desc] is what a descriptor address holds, [ro] tells
    whether a table on the way makes everything below read-only (APTable[1]).  [odd] tells that the
    architecture gives no translation to an unprivileged access all the same: the leaf is a reserved
    level 3 descriptor (bits 1:0 are 2), or a table on the way is for privileged accesses only
    (APTable[0]). *)
Definition entry (table v g level : Z) : Z := table + 8 * (v / 2 ^ level_shift g level mod 2 ^ (g - 3)).

Inductive tables (desc : Z -> option Z) (out v g first : Z) : Z -> Z -> Z -> Z -> bool -> bool -> Prop :=
| tb_page table d :
    desc (entry table v g 3) = Some d -> d mod 4 = 3 -> tables desc out v g first 3 table 3 d false false
| tb_reserved table d :
    desc (entry table v g 3) = Some d -> d mod 4 = 2 -> tables desc out v g first 3 table 3 d false true
| tb_block level table d :
    level < 3 -> first <= level -> desc (entry table v g level) = Some d -> d mod 4 = 1 ->
    tables desc out v g first level table level d false false
| tb_table level table d leaf d' ro odd :
    level < 3 -> desc (entry table v g level) = Some d -> d mod 4 = 3 -> frame g d < 2 ^ out ->
    tables desc out v g first (level + 1) (frame g d) leaf d' ro odd ->
    tables desc out v g first level table leaf d' (bit d 62 || ro) (bit d 61 || odd).

(** The tables of TTBR0 lead from the request [r] to the address [p] with the permission [pr]. *)
Definition s1_leads (cfg : config) (desc : Z -> option Z) (r : TransReq) (odd : bool) (p pr : Z) : Prop :=
  let n := 64 - extract (tcr1 r) 0 6 in
  let tg := extract (tcr1 r) 14 2 in
  let out := Z.min (outsize_map (extract (tcr1 r) 32 3)) (p_pamax cfg) in
  bit (tcr1 r) 7 = false /\ 25 <= n <= 48 /\ va r < 2 ^ n /\
  exists g start leaf d ro,
    (tg = 0 /\ g = 12 \/ tg = 2 /\ g = 14 \/ tg = 1 /\ g = 16) /\
    0 <= start <= 3 /\ level_shift g start < n <= level_shift g (start - 1) /\
    let k := 3 + n - level_shift g start in
    let base := ttbr10 r mod 2 ^ 48 / 2 ^ k * 2 ^ k in
    base < 2 ^ out /\
    tables desc out (va r) g (if g =? 12 then 1 else 2) start base leaf d ro odd /\
    frame g d < 2 ^ out /\ p = Z.lor (frame g d) (va r mod 2 ^ level_shift g leaf) /\
    bit d 10 = true /\ bit d 6 = true /\
    if bit d 7 || ro then access r <> IOMMU_WO /\ pr = IOMMU_RO else pr = IOMMU_RW.

(** The stage 1 translation of the architecture, for an unprivileged access; the other translations
    that the walk accepts; either. *)
Definition s1_maps (cfg : config) (desc : Z -> option Z) (r : TransReq) (p pr : Z) : Prop := s1_leads cfg desc r false p pr.
Definition s1_odd (cfg : config) (desc : Z -> option Z) (r : TransReq) : Prop := exists p pr, s1_leads cfg desc r true p pr.
Definition s1_walks (cfg : config) (desc : Z -> option Z) (r : TransReq) (p pr : Z) : Prop := exists odd, s1_leads cfg desc r odd p pr.

(** The DMA port reads descriptors and changes nothing: [desc w] is what memory holds. *)
Class DmaReads {W} (env : bound W) (desc : W -> Z -> option Z) : Prop :=
  dma_reads : forall a w, exists t, dma env (desc_txn a) w = Ret (t, w) /\
    match desc w a with
    | Some d => response t = TLM_OK_RESPONSE /\ load_le (data t) = d
    | None => response t <> TLM_OK_RESPONSE
    end.

Section Props.
Context {W : Type} (env : bound W) (cfg : config) (desc : W -> Z -> option Z).
Context `{!DmaReads env desc}.

Lemma read_desc_spec a s : read_desc env a s = Ret (desc s.2 a, s).
Proof.
  unfold read_desc. destruct (dma_reads a s.2) as (t & -> & H). destruct s as [s w]. cbn [fst snd] in *.
  destruct (desc w a) as [d|].
  - destruct H as [-> <-]. done.
  - by rewrite decide_False.
Qed.

Lemma check_out_addr_fits a out :
  0 <= a < 2 ^ 48 -> 0 <= out <= 48 -> check_out_addr a out = bool_decide (a < 2 ^ out).
Proof.
  intros Ha Ho. pose proof (check_out_addr_spec a out Ha ltac:(lia)) as H.
  assert (check_out_addr a out = SmmuWalk.check_out_addr a out) as ->.
  { unfold check_out_addr, SmmuWalk.check_out_addr, Smmu.PA_BITS. destruct (Z.eqb_spec out 48) as [->|]; [done|].
    rewrite (proj2 (Z.leb_gt 48 out)) by lia. by destruct (_ =? 0). }
  destruct (SmmuWalk.check_out_addr a out); symmetry; [apply bool_decide_eq_true|apply bool_decide_eq_false]; naive_solver.
Qed.

Lemma descriptor_addr_entry v level table g k :
  3 <= g -> level <= 3 -> 3 <= k -> table mod 2 ^ k = 0 ->
  v / 2 ^ level_shift g level mod 2 ^ (g - 3) < 2 ^ (k - 3) ->
  descriptor_addr v level table g (g - 3) = entry table v g level.
Proof. apply descriptor_addr_spec. Qed.

Lemma low_bits d : Z.land d 3 = d mod 4.
Proof. apply (Z.land_ones d 2). lia. Qed.

Lemma frame_bits g d : 0 <= g -> Z.ldiff (extract d 0 48) (Z.ones g) = frame g d.
Proof. apply frame_spec. Qed.

Lemma bit1_page d : bit d 1 = bool_decide (d mod 4 = 3 \/ d mod 4 = 2).
Proof.
  assert (0 <= d mod 4 < 4) as H by (apply Z.mod_pos_bound; lia). unfold bit. rewrite <- (Z.mod_pow2_bits_low d 2 1) by lia. change (2 ^ 2) with 4.
  assert (d mod 4 = 0 \/ d mod 4 = 1 \/ d mod 4 = 2 \/ d mod 4 = 3) as [E|[E|[E|E]]] by lia; rewrite E; done.
Qed.

Lemma bit1_mod4 d : bit (d mod 4) 1 = bit d 1.
Proof. unfold bit. change 4 with (2 ^ 2). rewrite <- Z.land_ones, Z.land_spec by lia. by rewrite andb_true_r. Qed.

(** The loop follows the tables exactly, and reads nothing else. *)
Lemma walk_loop_exact v g first out (s : smmu500 * W) : 12 <= g -> 0 <= out <= 48 -> forall fuel level table ta k,
  4 - level <= Z.of_nat fuel -> 0 <= level <= 3 -> 3 <= k <= g -> table mod 2 ^ k = 0 ->
  v / 2 ^ level_shift g level mod 2 ^ (g - 3) < 2 ^ (k - 3) ->
  exists o, walk_loop env s2_none fuel v level table g (g - 3) first out ta s = Ret (o, s) /\
  match o with
  | Some lf => lf_ttbr lf = frame g (lf_desc lf) /\ level <= lf_level lf <= 3 /\ exists ro odd,
      tables (desc s.2) out v g first level table (lf_level lf) (lf_desc lf) ro odd /\ bit (lf_tableattrs lf) 3 = bit ta 3 || ro
  | None => forall leaf d ro odd, ~ tables (desc s.2) out v g first level table leaf d ro odd
  end.
Proof.
  intros Hg Hout. induction fuel as [|fuel IH]; intros level table ta k Hf Hl Hk Ht Hi; [lia|].
  cbn [walk_loop]. unfold sm_bind at 1, s2_none at 1, sm_ret at 1. rewrite (descriptor_addr_entry _ _ _ _ k) by lia || done.
  unfold sm_bind at 1. rewrite read_desc_spec. destruct (desc s.2 (entry table v g level)) as [d|] eqn:Ed.
  2: { eexists. split; [done|]. cbn. intros leaf d ro odd H. inversion H; subst; congruence. }
  rewrite low_bits, bit1_mod4. rewrite !(frame_bits g d) by lia. cbv zeta.
  assert (0 <= d mod 4 < 4) as Hd4 by (apply Z.mod_pos_bound; lia).
  destruct (Z.eqb_spec level 3) as [->|Hl3].
  { rewrite andb_true_r, bit1_page. case_bool_decide as Eb; cbn [negb].
    - eexists. split; [done|]. cbn. split_and!; [done|lia..|]. exists false, (d mod 4 =? 2). rewrite orb_false_r.
      split; [|done]. destruct Eb as [Eb|Eb]; rewrite Eb; cbn; [by apply tb_page|by apply tb_reserved].
    - eexists. split; [done|]. cbn. intros leaf d' ro odd H. destruct Eb. inversion H; subst; try lia; simplify_eq; [by left|by right]. }
  rewrite andb_false_r. destruct ((d mod 4 =? 2) || (d mod 4 =? 0)) eqn:E02.
  { eexists. split; [done|]. cbn. intros leaf d' ro odd H. inversion H; subst; try lia; simplify_eq; lia. }
  destruct (Z.eqb_spec (d mod 4) 1).
  { destruct (Z.ltb_spec level first).
    - eexists. split; [done|]. cbn. intros leaf d' ro odd H'. inversion H'; subst; try lia; simplify_eq; lia.
    - eexists. split; [done|]. cbn. split_and!; [done|lia..|]. exists false, false. rewrite orb_false_r.
      split; [apply tb_block; done || lia|done]. }
  rewrite check_out_addr_fits by (apply frame_range || done; lia).
  case_bool_decide as Hfit; cbn [negb].
  2: { eexists. split; [done|]. cbn. intros leaf d' ro odd H'. inversion H'; subst; try lia; simplify_eq; lia. }
  destruct (IH (level + 1) (frame g d) (Z.lor ta (extract d 59 5)) g) as (o & -> & Ho); try lia.
  { unfold frame. apply Z.mod_mul. lia. }
  { apply Z.mod_pos_bound. lia. }
  exists o. split; [done|]. destruct o as [lf|].
  - destruct Ho as (H1 & H2 & ro & odd & H3 & H4). split_and!; [done|lia..|]. exists (bit d 62 || ro), (bit d 61 || odd). split.
    + apply (tb_table _ _ _ _ _ level table d); try done; lia.
    + rewrite H4. unfold bit, extract. rewrite Z.lor_spec, Z.land_spec, Z.shiftr_spec by lia. cbn.
      by rewrite andb_true_r, orb_assoc.
  - intros leaf d' ro odd H'. inversion H'; subst; try lia; simplify_eq; try lia. by eapply Ho.
Qed.

(** *** The leaf *)

Lemma leaf_attrs_eq d : leaf_attrs d = SmmuWalk.leaf_attrs d.
Proof. done. Qed.

Lemma u32_bits_low x i : 0 <= i < 32 -> Z.testbit (u32 x) i = Z.testbit x i.
Proof. intros Hi. unfold wrap. apply Z.mod_pow2_bits_low. lia. Qed.

Lemma extract32_low x start len : 0 <= start -> 0 <= len -> start + len <= 32 -> extract32 x start len = extract x start len.
Proof.
  intros Hs Hl Hw. unfold extract32, extract. apply Z.bits_inj'. intros i Hi.
  rewrite !Z.land_spec, !Z.shiftr_spec, Z.testbit_ones by lia.
  destruct (Z.ltb_spec i len); [|by rewrite !andb_false_r]. by rewrite u32_bits_low by lia.
Qed.

Lemma s1_attrs_eq d ta : s1_attrs d ta = SmmuWalk.s1_attrs d ta.
Proof. unfold s1_attrs. by rewrite !extract32_low by lia. Qed.

Lemma check_perm_s1 acc d ta :
  check_perm 1 acc d ta =
  if bit d 10 && bit d 6 then
    if bit d 7 || bit ta 3 then if acc =? IOMMU_WO then (true, IOMMU_RW) else (false, IOMMU_RO) else (false, IOMMU_RW)
  else (true, IOMMU_RW).
Proof.
  unfold check_perm. cbn [Z.eqb Pos.eqb]. rewrite s1_attrs_eq. pose proof (s1_attrs_ap1 d ta) as H1.
  pose proof (s1_attrs_ap2 d ta) as H2. unfold AP1 in H1. unfold AP2 in H2. rewrite H1, H2.
  assert (bit (SmmuWalk.s1_attrs d ta) 8 = bit d 10) as ->.
  { unfold SmmuWalk.s1_attrs, AP2. unfold bit at 1. rewrite !Z.lor_spec, !Z.shiftl_spec by lia.
    rewrite (Z.testbit_neg_r (extract ta 0 2) (8 - 11)) by lia.
    rewrite (testbit_above 1 (extract ta 3 1) (8 - 5)) by (try apply extract_range; lia).
    rewrite !orb_false_r. by apply (leaf_attrs_bit d 8). }
  by destruct (bit d 10), (bit d 6).
Qed.

(** *** Stage 1 walks *)

(** A request that the 32-bit front ends build, in a context with a legal granule. *)
Record s1_request (s : smmu500 * W) (cb : Z) (r : TransReq) : Prop := {
  rq_stage : stage r = 1;
  rq_va : 0 <= va r < 2 ^ 63;
  rq_type64 : CBA2R_VA64 (reg_get (SMMU_CBA2R cb) (regs s.1)) || bit (tcr1 r) 31 = true;
  rq_tg : extract (tcr1 r) 14 2 <> 3;
}.

Lemma select_table_s1 s cb r :
  s1_request s cb r ->
  select_table cb r s = Ret (ttbr10 r, extract (tcr1 r) 0 6, extract (tcr1 r) 14 2, bit (tcr1 r) 7, s).
Proof.
  intros []. unfold select_table. rewrite rq_stage0. cbn [Z.eqb Pos.eqb]. unfold sm_bind at 1, rd. cbv zeta.
  rewrite rq_type65. unfold sm_assert, sm_bind, sm_ret. rewrite !extract32_low by lia. unfold bit at 1.
  by rewrite (testbit_above 63) by lia.
Qed.

Lemma outsize_range ps : 0 <= ps < 8 -> 32 <= outsize_map ps <= 48.
Proof.
  intros H. assert (ps = 0 \/ ps = 1 \/ ps = 2 \/ ps = 3 \/ ps = 4 \/ ps = 5 \/ ps = 6 \/ ps = 7) as Hps by lia.
  by decompose [or] Hps; subst; vm_compute.
Qed.

Lemma s1_level_start g level0 n :
  granule_of g level0 -> 25 <= n <= 48 ->
  let start := s1_level level0 g (g - 3) n in
  0 <= start <= 3 /\ level_shift g start < n <= level_shift g (start - 1).
Proof.
  intros Hg Hn. cbv zeta. unfold s1_level, level_shift.
  destruct Hg as [[-> ->]|[[-> ->]|[-> ->]]]; rewrite !wrap_small by (unfold in_width; lia);
    cbn [Z.ltb Z.compare Pos.compare Pos.compare_cont andb];
    repeat match goal with |- context [?a <? ?b] => destruct (Z.ltb_spec a b) end; lia.
Qed.

Lemma level_unique g n s1 s2 :
  12 <= g -> level_shift g s1 < n <= level_shift g (s1 - 1) -> level_shift g s2 < n <= level_shift g (s2 - 1) -> s1 = s2.
Proof. unfold level_shift. intros Hg H1 H2. nia. Qed.

(** The base of a table and the bits below it. *)
Lemma table_base b k : 0 <= k < 48 -> let base := Z.ldiff (extract b 0 48) (2 ^ k - 1) in
  base = b mod 2 ^ 48 / 2 ^ k * 2 ^ k /\ 0 <= base < 2 ^ 48 /\ base mod 2 ^ k = 0.
Proof.
  intros Hk. cbv zeta. replace (2 ^ k - 1) with (Z.ones k) by (rewrite Z.ones_equiv; lia).
  change (Z.ldiff ?a ?b) with (andnot a b). rewrite andnot_ones, extract_div, Z.pow_0_r, Z.div_1_r by lia.
  pose proof (Z.mod_pos_bound b (2 ^ 48)). pose proof (Z.mul_div_le (b mod 2 ^ 48) (2 ^ k)).
  pose proof (Z.div_pos (b mod 2 ^ 48) (2 ^ k)). split_and!; [done|lia..|]. apply Z.mod_mul. lia.
Qed.

Lemma granule_legal tg :
  0 <= tg < 4 -> tg <> 3 -> exists g level0, granule tg = (g, level0, if g =? 12 then 1 else 2) /\
    granule_of g level0 /\ (tg = 0 /\ g = 12 \/ tg = 2 /\ g = 14 \/ tg = 1 /\ g = 16).
Proof.
  intros H Hn. assert (tg = 0 \/ tg = 1 \/ tg = 2) as [-> | [-> | ->]] by lia; unfold granule_of;
    [exists 12, 2|exists 16, 3|exists 14, 3]; (split; [reflexivity|]); lia.
Qed.

(** What the walk of [r] ends with. *)
Definition s1_outcome (m : Z -> option Z) (r : TransReq) (bad : bool) (r' : TransReq) : Prop :=
  stage r' = stage r /\ va r' = va r /\ s2_enabled r' = s2_enabled r /\
  if bad then forall p pr, ~ s1_walks cfg m r p pr
  else err r' = Some false /\ exists pr, prot r' = Some pr /\ s1_walks cfg m r (pa r') pr.

Lemma tables_det m out v g first level table leaf d ro odd :
  tables m out v g first level table leaf d ro odd -> forall leaf' d' ro' odd',
  tables m out v g first level table leaf' d' ro' odd' -> leaf' = leaf /\ d' = d /\ ro' = ro /\ odd' = odd.
Proof.
  induction 1 as [table d Hd Hb|table d Hd Hb|level table d Hl Hf Hd Ht|level table d leaf d' ro odd Hl Hd Ht Hfit Hw IH];
    intros leaf2 d2 ro2 odd2 H2; inversion H2; subst; simplify_eq; try lia; try done.
  by destruct (IH leaf2 d2 ro0 odd0) as (-> & -> & -> & ->).
Qed.

Lemma finish_walk_exact m r g start lf ro odd n :
  let out := Z.min (outsize_map (extract (tcr1 r) 32 3)) (p_pamax cfg) in
  let k := 3 + n - level_shift g start in
  let base := ttbr10 r mod 2 ^ 48 / 2 ^ k * 2 ^ k in
  stage r = 1 -> pa r = va r -> bit (tcr1 r) 7 = false -> n = 64 - extract (tcr1 r) 0 6 -> 25 <= n <= 48 -> va r < 2 ^ n ->
  let tg := extract (tcr1 r) 14 2 in (tg = 0 /\ g = 12 \/ tg = 2 /\ g = 14 \/ tg = 1 /\ g = 16) ->
  0 <= start <= 3 -> level_shift g start < n <= level_shift g (start - 1) -> base < 2 ^ out -> 0 <= out <= 48 ->
  lf_ttbr lf = frame g (lf_desc lf) -> start <= lf_level lf <= 3 -> bit (lf_tableattrs lf) 3 = ro ->
  tables m out (va r) g (if g =? 12 then 1 else 2) start base (lf_level lf) (lf_desc lf) ro odd ->
  let '(bad, r') := finish_walk lf (g - 3) out r in s1_outcome m r bad r'.
Proof.
  intros out k base Hst Hpa Hepd Hn Hr Hva tg Htg Hs Hlv Hbase Hout Htt Hll Hro Hw.
  assert (12 <= g) as Hg by lia.
  assert (forall p pr, s1_walks cfg m r p pr -> frame g (lf_desc lf) < 2 ^ out /\
            p = Z.lor (frame g (lf_desc lf)) (va r mod 2 ^ level_shift g (lf_level lf)) /\
            bit (lf_desc lf) 10 = true /\ bit (lf_desc lf) 6 = true /\
            if bit (lf_desc lf) 7 || ro then access r <> IOMMU_WO /\ pr = IOMMU_RO else pr = IOMMU_RW) as Huniq.
  { intros p pr (odd' & _ & _ & _ & g' & st' & leaf' & d' & ro' & Hg' & Hs' & Hlv' & _ & Hw' & H).
    assert (g' = g) as -> by lia. rewrite <- Hn in *. assert (st' = start) as -> by (by eapply level_unique).
    destruct (tables_det _ _ _ _ _ _ _ _ _ _ _ Hw _ _ _ _ Hw') as (-> & -> & -> & ->). done. }
  unfold finish_walk. rewrite Htt, check_out_addr_fits by (try apply frame_range; lia).
  case_bool_decide as Hfit; cbn [negb]; [|split_and!; try done; intros p pr ?%Huniq; naive_solver].
  rewrite Hst, check_perm_s1, Hro.
  assert ((g - 3) * (4 - lf_level lf) + 3 = level_shift g (lf_level lf)) as Hbits by (unfold level_shift; lia).
  assert (0 <= level_shift g (lf_level lf)) by (unfold level_shift; nia).
  rewrite Hbits, Z.land_ones by done.
  assert (bit (lf_desc lf) 10 = true -> bit (lf_desc lf) 6 = true -> forall pr,
          (if bit (lf_desc lf) 7 || ro then access r <> IOMMU_WO /\ pr = IOMMU_RO else pr = IOMMU_RW) ->
          s1_walks cfg m r (Z.lor (frame g (lf_desc lf)) (va r mod 2 ^ level_shift g (lf_level lf))) pr) as Hmaps.
  { intros H10 H6 pr Hpr. exists odd. unfold s1_leads. cbv zeta. rewrite <- Hn. split_and!; [done|lia..|done|].
    exists g, start, (lf_level lf), (lf_desc lf), ro. split_and!; done || lia. }
  destruct (bit (lf_desc lf) 10) eqn:E10, (bit (lf_desc lf) 6) eqn:E6; cbn [andb];
    try (split_and!; try done; intros p pr ?%Huniq; naive_solver).
  destruct (bit (lf_desc lf) 7 || ro) eqn:E7.
  - destruct (Z.eqb_spec (access r) IOMMU_WO); split_and!; try done; [intros p pr ?%Huniq; naive_solver|].
    eexists. split; [done|]. by apply Hmaps.
  - split_and!; try done. eexists. split; [done|]. by apply Hmaps.
Qed.

Lemma walk_tables_s1 s cb r :
  s1_request s cb r -> pa r = va r -> 0 <= p_pamax cfg ->
  exists bad r', walk_tables env cfg s2_none cb r s = Ret ((bad, r'), s) /\ s1_outcome (desc s.2) r bad r'.
Proof.
  intros Hrq Hpa Hpam. pose proof Hrq as [Hst Hva _ Htg]. unfold walk_tables. rewrite Hst. cbn [Z.eqb Pos.eqb].
  unfold sm_bind at 1. rewrite select_table_s1 by done. cbv iota beta zeta.
  assert ((forall p pr, s1_walks cfg (desc s.2) r p pr -> False) -> s1_outcome (desc s.2) r true r) as Hbad
    by (intros H; split_and!; try done; intros p pr Hm; by eapply H).
  destruct (bit (tcr1 r) 7) eqn:Eepd.
  { do 2 eexists. split; [done|]. apply Hbad. intros p pr (_ & ? & _). congruence. }
  set (n := 64 - extract (tcr1 r) 0 6). pose proof (extract_range (tcr1 r) 0 6 ltac:(lia)) as Hts.
  pose proof (extract_range (tcr1 r) 14 2 ltac:(lia)) as Htgr. pose proof (outsize_range (extract (tcr1 r) 32 3)) as Hos.
  pose proof (extract_range (tcr1 r) 32 3 ltac:(lia)) as Hps.
  destruct (granule_legal (extract (tcr1 r) 14 2)) as (g & level0 & Eg & Hgo & Hgt); [lia|done|]. rewrite Eg.
  assert (12 <= g <= 16) as Hg by lia. rewrite (wrap_small 32 (g - 3)) by (unfold in_width; lia).
  set (out := Z.min _ _) in *. assert (0 <= out <= 48) as Hout by lia.
  destruct ((n <? 25) || (48 <? n) || negb (extract (va r) n (64 - n) =? 0)) eqn:Ec.
  { do 2 eexists. split; [done|]. apply Hbad. intros p pr (_ & _ & Hn & Hlt & _). fold n in Hn, Hlt.
    rewrite extract_small in Ec by lia. lia. }
  apply orb_false_iff in Ec as [Ec Ex%negb_false_iff%Z.eqb_eq]. apply orb_false_iff in Ec as [Hn1 Hn2].
  apply extract_zero_lt in Ex; [|lia..]. destruct (s1_level_start g level0 n Hgo ltac:(lia)) as [Hsr Hs]. cbv zeta in Hsr, Hs.
  set (start := s1_level level0 g (g - 3) n) in *. unfold sm_bind at 1, sm_ret at 1.
  replace ((3 - start) * (g - 3) + g) with (level_shift g start) by (unfold level_shift; lia).
  set (k := 3 + n - level_shift g start). assert (level_shift g (start - 1) = level_shift g start + (g - 3)) by (unfold level_shift; lia).
  rewrite (wrap_small 32 k) by (unfold in_width; lia). unfold shl1 at 1. rewrite (proj2 (Z.leb_le 0 k)), (proj2 (Z.ltb_lt k 64)) by lia.
  unfold sm_bind at 1, sm_ret at 1. cbn [andb]. destruct (table_base (ttbr10 r) k ltac:(lia)) as (Hb & Hbr & Hbm). rewrite Hb in *.
  rewrite check_out_addr_fits by lia. case_bool_decide as Hfit; cbn [negb].
  2: { do 2 eexists. split; [done|]. apply Hbad. intros p pr (? & _ & _ & _ & g' & st' & ? & ? & ? & Hg' & _ & Hlv' & Hb' & _).
    assert (g' = g) as -> by lia. fold n in Hlv', Hb'. assert (st' = start) as -> by (apply (level_unique g n); done || lia). done. }
  unfold shl1. rewrite (proj2 (Z.leb_le 0 g)), (proj2 (Z.ltb_lt g 64)) by lia. unfold sm_bind, sm_ret. cbn [andb].
  destruct (walk_loop_exact (va r) g (if g =? 12 then 1 else 2) out s ltac:(lia) Hout 4 start
    (ttbr10 r mod 2 ^ 48 / 2 ^ k * 2 ^ k) 0 k) as (o & -> & Ho); [lia..|done|apply first_index; lia|].
  destruct o as [lf|].
  - destruct Ho as (Htt & Hll & ro & odd & Hw & Hro).
    pose proof (finish_walk_exact (desc s.2) r g start lf ro odd n Hst Hpa Eepd eq_refl ltac:(lia) Ex Hgt Hsr Hs Hfit Hout Htt Hll Hro Hw) as Hfin.
    fold out in Hfin. destruct (finish_walk lf (g - 3) out r) as [bad r']. exists bad, r'. split; [reflexivity|exact Hfin].
  - do 2 eexists. split; [done|]. apply Hbad. intros p pr (? & _ & _ & _ & g' & st' & ? & ? & ? & Hg' & _ & Hlv' & _ & Hw & _).
    assert (g' = g) as -> by lia. fold n in Hlv', Hw. assert (st' = start) as -> by (apply (level_unique g n); done || lia). by eapply Ho.
Qed.

(** *** Faults *)

(** The bank [cb] shows a fault at address [v], and its line follows SCTLR.CFIE. *)
Definition fault_shown (cb v : Z) (s : smmu500) : Prop :=
  let f := regs s in
  CB_FSR_TF (reg_get (cb_reg cfg CB_FSR cb) f) = true /\
  reg_get (cb_reg cfg CB_IPAFAR_LOW cb) f = u32 v /\
  reg_get (cb_reg cfg CB_IPAFAR_HIGH cb) f = u32 (Z.shiftr v 32) /\
  irq_context s !! cb = Some (CB_SCTLR_CFIE (reg_get (cb_reg cfg CB_SCTLR cb) f)).

Lemma smmu500_fault_s1 cb v (s : smmu500 * W) :
  0 <= cb < CB_BANK_COUNT -> cb < p_num_cb cfg -> exists s', smmu500_fault cfg cb 1 v s = Ret (tt, (s', s.2)) /\
    fault_shown cb v s' /\ tbus s' = tbus s.1 /\ sent s' = sent s.1.
Proof.
  intros Hcb Hn. unfold smmu500_fault, smmu500_update_ctx_irq, cb_rd, cb_wr, cb_ok.
  rewrite (proj2 (Z.leb_le 0 cb)), (proj2 (Z.ltb_lt cb CB_BANK_COUNT)), (proj2 (Z.ltb_lt cb (p_num_cb cfg))) by lia. cbn [andb].
  unfold sm_bind, rd, wr, sm_modify, sm_ret. cbn [Z.eqb Pos.eqb fst snd]. eexists. split; [reflexivity|]. unfold fault_shown.
  cbn [set_regs set_irq regs irq_context tbus sent fst snd]. unfold cb_reg, CB_FSR, CB_IPAFAR_LOW, CB_IPAFAR_HIGH, CB_SCTLR.
  repeat first [rewrite reg_get_set_eq|rewrite reg_get_set_ne by lia]. rewrite lookup_insert_eq.
  assert (forall x, CB_FSR_TF (u32 (Z.lor x 2)) = true) as Htf.
  { intros x. unfold CB_FSR_TF, bit. rewrite u32_bits_low, Z.lor_spec by lia. by rewrite orb_true_r. }
  rewrite !Htf, !(wrap_small 32 (u32 _)) by (apply wrap_in_width; lia). by split_and!.
Qed.

(** *** Stage 1 contexts *)

(** The walk of a stage 1 request: the translation the tables give, with nothing changed,
    or a fault shown by the context bank when they give none. *)
Lemma ptw64_s1 s cb r :
  s1_request s cb r -> s2_enabled r = false -> 0 <= p_pamax cfg -> 0 <= cb < CB_BANK_COUNT -> cb < p_num_cb cfg ->
  CB_SCTLR_M (reg_get (cb_reg cfg CB_SCTLR cb) (regs s.1)) = true ->
  exists r' s', smmu500_ptw64 env cfg cb r s = Ret (r', s') /\ s2_enabled r' = false /\
  ((exists pr, err r' = Some false /\ prot r' = Some pr /\ s1_walks cfg (desc s.2) r (pa r') pr /\ s' = s) \/
   err r' = Some true /\ (forall p pr, ~ s1_walks cfg (desc s.2) r p pr) /\ s'.2 = s.2 /\ fault_shown cb (va r) s'.1 /\
   tbus s'.1 = tbus s.1 /\ sent s'.1 = sent s.1).
Proof.
  intros Hrq Hs2 Hpam Hcb Hn HM. pose proof Hrq as [Hst Hva Ht64 Htg]. unfold smmu500_ptw64. rewrite Hst, Hs2. cbn [Z.eqb Pos.eqb andb].
  unfold ptw64_with, cb_rd, cb_ok. rewrite (proj2 (Z.leb_le 0 cb)), (proj2 (Z.ltb_lt cb CB_BANK_COUNT)) by lia. cbn [andb].
  unfold sm_bind at 1, rd. rewrite HM. cbn [negb]. set (r0 := with_result _ _ _ _ _).
  destruct (walk_tables_s1 s cb r0) as (bad & r' & Ew & Hst' & Hva' & Hs2' & Hout); [by split|done..|].
  unfold sm_bind at 1. rewrite Ew. destruct bad.
  - rewrite Hst', Hva'. cbn [r0 with_result stage va]. rewrite Hst.
    destruct (smmu500_fault_s1 cb (va r) s Hcb Hn) as (s' & Ef & Hf). unfold sm_bind. rewrite Ef.
    do 2 eexists. split; [reflexivity|]. split; [cbn; by rewrite Hs2'|]. right. by split_and!; try apply Hf.
  - destruct Hout as (He & pr & Hp & Hm). do 2 eexists. split; [reflexivity|]. split; [by rewrite Hs2'|]. left. by exists pr.
Qed.

(** The registers of a context bank that translates with stage 1 alone, stage 2 being bypassed. *)
Record s1_context (cb : Z) (f : reg_file) : Prop := {
  sc_bank : 0 <= cb < CB_BANK_COUNT;
  sc_used : cb < p_num_cb cfg;
  sc_type : CBAR_TYPE (reg_get (SMMU_CBAR cb) f) = 1;
  sc_on : CB_SCTLR_M (reg_get (cb_reg cfg CB_SCTLR cb) f) = true;
  sc_64 : CBA2R_VA64 (reg_get (SMMU_CBA2R cb) f) || bit (reg_get (cb_reg cfg CB_TCR_LPAE cb) f) 31 = true;
  sc_tg : extract (reg_get (cb_reg cfg CB_TCR_LPAE cb) f) 14 2 <> 3;
}.

(** The request such a bank makes of an address. *)
Definition s1_req (f : reg_file) (cb v : Z) (write : bool) : TransReq :=
  mk_req v (pair64 (reg_get (cb_reg cfg CB_TCR2 cb) f) (reg_get (cb_reg cfg CB_TCR_LPAE cb) f)) 0
    (pair64 (reg_get (cb_reg cfg CB_TTBR0_HIGH cb) f) (reg_get (cb_reg cfg CB_TTBR0_LOW cb) f))
    (pair64 (reg_get (cb_reg cfg CB_TTBR1_HIGH cb) f) (reg_get (cb_reg cfg CB_TTBR1_LOW cb) f)) 0
    (if write then IOMMU_WO else IOMMU_RO) 1 false 0 0 None (Some 12) None.

Lemma at64_request_s1 (s : smmu500 * W) cb v write :
  s1_context cb (regs s.1) -> at64_request cfg cb v write (Some 12) s = Ret (s1_req (regs s.1) cb v write, s).
Proof.
  intros [Hb Hu Ht _ _ _]. unfold at64_request, cb_rd, cb_ok. rewrite (proj2 (Z.leb_le 0 cb)), (proj2 (Z.ltb_lt cb CB_BANK_COUNT)) by lia.
  cbn [andb]. unfold sm_bind, rd, sm_ret. by rewrite Ht.
Qed.

Lemma pair64_low hi lo start len :
  0 <= lo < 2 ^ 32 -> 0 <= start -> 0 <= len -> start + len <= 32 -> extract (pair64 hi lo) start len = extract lo start len.
Proof.
  intros Hlo Hs Hl Hw. unfold extract, pair64. apply Z.bits_inj'. intros i Hi.
  rewrite !Z.land_spec, !Z.shiftr_spec, Z.lor_spec, Z.shiftl_spec, Z.testbit_ones by lia.
  destruct (Z.ltb_spec i len); [|by rewrite !andb_false_r]. by rewrite (Z.testbit_neg_r hi) by lia.
Qed.

Lemma s1_req_ok (s : smmu500 * W) cb v write :
  s1_context cb (regs s.1) -> regs_ok (regs s.1) -> 0 <= v < 2 ^ 63 -> s1_request s cb (s1_req (regs s.1) cb v write).
Proof.
  intros [Hb Hu Ht HM H64 Htg] Hok Hv. pose proof (regs_ok_get _ (cb_reg cfg CB_TCR_LPAE cb) Hok) as Hr. unfold in_width in Hr.
  split; unfold s1_req; cbn [stage va tcr1]; try done.
  - unfold pair64, bit in *. rewrite Z.lor_spec, Z.shiftl_spec, (Z.testbit_neg_r _ (31 - 32)) by lia. done.
  - by rewrite pair64_low by lia.
Qed.

(** What a stage 1 stream's address translates to: the page's frame, or nothing. *)
Lemma stream_translate_s1 (s : smmu500 * W) t sid cb :
  let f := regs s.1 in
  let v := Z.land (Z.ldiff (address t) SMMU_ADDRMASK) (2 ^ SMMU_VA_WIDTH - 1) in
  let r := s1_req f cb v (bool_decide (command t = TLM_WRITE_COMMAND)) in
  0 <= p_pamax cfg -> regs_ok f -> field_get SCR0_CLIENTPD f = 0 ->
  match_from f (stream_of (u16 sid) (address t)) (Z.to_nat (field_get SIDR0_NUMSMRG f)) 0 = cb -> s1_context cb f ->
  (exists p pr, smmu500_translate env cfg t sid s = Ret (mk_te 0 p 4095 pr, s) /\ s1_walks cfg (desc s.2) r p pr) \/
  exists s', smmu500_translate env cfg t sid s = Ret (mk_te 0 0 0 IOMMU_NONE, (s', s.2)) /\
    (forall p pr, ~ s1_walks cfg (desc s.2) r p pr) /\ fault_shown cb v s' /\ tbus s' = tbus s.1 /\ sent s' = sent s.1.
Proof.
  intros f v r Hpam Hok Hpd Hcb Hctx. pose proof Hctx as [Hb Hu _ HM _ _].
  assert (0 <= v < 2 ^ 63) as Hv.
  { subst v. change (2 ^ SMMU_VA_WIDTH - 1) with (Z.ones 32). rewrite Z.land_ones by lia. pose proof (Z.mod_pos_bound (Z.ldiff (address t) SMMU_ADDRMASK) (2 ^ 32)). lia. }
  destruct (ptw64_s1 s cb r) as (r' & s' & Ep & Hs2 & Hout); [by apply s1_req_ok|done..|].
  assert (smmu500_at env cfg cb v (bool_decide (command t = TLM_WRITE_COMMAND)) true (Some 12) s =
          Ret (with_stage 2 (va r') r', s')) as Eat.
  { unfold smmu500_at, smmu500_at64, sm_bind. rewrite at64_request_s1 by done. fold f r. change (stage r) with 1.
    cbn [Z.eqb Pos.eqb]. rewrite Ep. unfold sm_ret. cbn [andb]. change (s2_enabled (with_stage _ _ _)) with (s2_enabled r'). by rewrite Hs2. }
  assert (smmu500_translate env cfg t sid s =
          sm_bind (defined (err r')) (fun e => if e then sm_ret (mk_te 0 0 0 IOMMU_NONE)
            else sm_bind (defined (prot r')) (fun p => sm_ret (mk_te 0 (pa r') (2 ^ 12 - 1) p))) s') as Etr.
  { unfold smmu500_translate. fold v. unfold sm_bind at 1. fold f. rewrite Hpd. cbn [Z.eqb negb].
    unfold sm_bind at 1, smmu500_stream_id_match. fold f. rewrite Hcb. unfold sm_bind at 1, sm_assert.
    rewrite (proj2 (Z.ltb_lt cb (p_num_cb cfg))), (proj2 (Z.leb_le 0 cb)) by lia. unfold sm_ret at 1.
    unfold sm_bind at 1. by rewrite Eat. }
  destruct Hout as [(pr & He & Hp & Hm & ->)|(He & Hno & Hw & Hf & Ht & Hse)]; rewrite He in Etr.
  - left. exists (pa r'), pr. split; [|done]. rewrite Etr. unfold sm_bind, defined. by rewrite Hp.
  - right. destruct s' as [s' w']. cbn in Hw. subst w'. exists s'. by split_and!.
Qed.

Lemma s1_walks_perm m r p pr : s1_walks cfg m r p pr -> pr = IOMMU_RW \/ pr = IOMMU_RO /\ access r <> IOMMU_WO.
Proof. intros (? & _ & _ & _ & g & st & leaf & d & ro & _ & _ & _ & _ & _ & _ & _ & _ & _ & H). destruct (_ || _); naive_solver. Qed.
End Props.

(** ** The ranges of the TBUs *)

(** Translation leaves the TBUs alone. *)
Definition spares {W A} (m : SM (smmu500 * W) A) : Prop :=
  forall s a s', m s = Ret (a, s') -> tbus s'.1 = tbus s.1 /\ sent s'.1 = sent s.1.

Section Keeps.
Context {W : Type} (env : bound W) (cfg : config).

Lemma spares_bind {A B} (m : SM (smmu500 * W) A) (k : A -> SM (smmu500 * W) B) :
  spares m -> (forall a, spares (k a)) -> spares (sm_bind m k).
Proof.
  intros Hm Hk s b s'' H. apply sm_bind_Ret in H as (a & s' & H1 & H2). apply Hm in H1. apply Hk in H2. intuition congruence.
Qed.

Lemma spares_ret {A} (a : A) : spares (W := W) (sm_ret a).
Proof. by intros s b s' [= _ <-]. Qed.

Lemma spares_fail {A} e : spares (W := W) (A := A) (sm_fail e).
Proof. done. Qed.

Lemma spares_assert b : spares (W := W) (sm_assert b).
Proof. destruct b; [apply spares_ret|apply spares_fail]. Qed.

Lemma spares_rd r : spares (W := W) (rd r).
Proof. by intros s a s' [= _ <-]. Qed.

Lemma spares_wr r v : spares (W := W) (wr r v).
Proof. by intros s a s' [= _ <-]. Qed.

Lemma spares_irq f : spares (W := W) (sm_modify (fun s => (set_irq (f s) s.1, s.2))).
Proof. by intros s a s' [= _ <-]. Qed.

Lemma spares_lift {A} (r : res A) : spares (W := W) (lift r).
Proof. intros s a s'. unfold lift. destruct r; [|done]. by intros [= _ <-]. Qed.

Lemma spares_defined {A} (o : option A) : spares (W := W) (defined o).
Proof. destruct o; [apply spares_ret|apply spares_fail]. Qed.

Lemma spares_read_desc a : spares (read_desc env a).
Proof. intros s d s'. unfold read_desc. destruct (dma env _ _) as [[t w]|]; [|done]. by intros [= _ <-]. Qed.

Lemma spares_match sid : spares (W := W) (smmu500_stream_id_match sid).
Proof. by intros s a s' [= _ <-]. Qed.

Create HintDb spares.
Hint Resolve spares_ret spares_fail spares_assert spares_rd spares_wr spares_irq spares_lift spares_defined spares_read_desc spares_match : spares.

(** Through binds and case analysis to the leaves. *)
Ltac keep :=
  repeat first [ progress (intros; cbv zeta)
               | solve [eauto 1 with spares nocore]
               | apply spares_bind
               | match goal with |- spares (match ?x with _ => _ end) => destruct x eqn:?
                                | |- spares (if ?x then _ else _) => destruct x eqn:? end ].

Lemma spares_cb_rd r cb : spares (W := W) (cb_rd cfg r cb).
Proof. unfold cb_rd. keep. Qed.
Lemma spares_cb_wr r cb v : spares (W := W) (cb_wr cfg r cb v).
Proof. unfold cb_wr. keep. Qed.
Hint Resolve spares_cb_rd spares_cb_wr : spares.

Lemma spares_update_irq cb : spares (W := W) (smmu500_update_ctx_irq cfg cb).
Proof. unfold smmu500_update_ctx_irq. keep. Qed.
Hint Resolve spares_update_irq : spares.

Lemma spares_fault cb st v : spares (W := W) (smmu500_fault cfg cb st v).
Proof. unfold smmu500_fault. keep. Qed.

Lemma spares_select cb r : spares (W := W) (select_table cb r).
Proof. unfold select_table. keep. Qed.

Lemma spares_shl1 n : spares (W := W) (shl1 n).
Proof. unfold shl1. keep. Qed.
Hint Resolve spares_fault spares_select spares_shl1 : spares.

Lemma spares_walk_loop s2 : (forall a, spares (s2 a)) -> forall fuel v level ttbr g st first out ta,
  spares (walk_loop env s2 fuel v level ttbr g st first out ta).
Proof. intros Hs2. induction fuel as [|fuel IH]; intros v level ttbr g st first out ta; cbn [walk_loop]; keep; auto. Qed.

Lemma spares_ptw_with s2 cb r : (forall a, spares (s2 a)) -> spares (ptw64_with env cfg s2 cb r).
Proof. intros Hs2. unfold ptw64_with, walk_tables. pose proof (spares_walk_loop s2 Hs2). keep. Qed.

Lemma spares_ptw cb r : spares (smmu500_ptw64 env cfg cb r).
Proof.
  unfold smmu500_ptw64. apply spares_ptw_with. intros a. destruct (_ && _).
  - unfold s2_translate. apply spares_bind; [apply spares_ptw_with; intros; apply spares_ret|keep].
  - apply spares_ret.
Qed.
Hint Resolve spares_ptw : spares.

Lemma spares_at cb v write s2 ps : spares (smmu500_at env cfg cb v write s2 ps).
Proof. unfold smmu500_at, smmu500_at64, at64_request. keep. Qed.
Hint Resolve spares_at : spares.

Lemma spares_translate t sid : spares (smmu500_translate env cfg t sid).
Proof. unfold smmu500_translate. apply spares_bind; [by intros s a s' [= _ <-]|keep]. Qed.

Lemma spares_gats hi lo write s2 : spares (gats env cfg hi lo write s2).
Proof. unfold gats, smmu500_gat. keep. Qed.

End Keeps.

Section Ranges.
Context {W : Type} (env : bound W) (cfg : config).

(** One TBU gives up its range for a context bank. *)
Lemma invalidate_spec cb i (s : smmu500 * W) b :
  0 <= cb < SMMU_MAX_CB -> tbus s.1 !! i = Some b ->
  exists new, invalidate cb i s =
    Ret (tt, (set_sent (new ++ sent s.1) (set_tbus (<[i := mk_tbu (p_topology_id b) (delete cb (dmi_range b))]> (tbus s.1)) s.1), s.2)) /\
    forall a e, dmi_range b !! cb = Some (a, e) -> (i, a, e) ∈ new.
Proof.
  intros Hcb Hb. unfold invalidate, sm_bind, get_tbu. rewrite Hb, (proj2 (Z.leb_le 0 cb)), (proj2 (Z.ltb_lt cb SMMU_MAX_CB)) by lia.
  cbn [andb]. destruct (dmi_range b !! cb) as [[a e]|] eqn:E.
  - exists [(i, a, e)]. split; [done|]. intros a' e' [= <- <-]. set_solver.
  - exists []. split; [|done]. by destruct s as [[] w].
Qed.

Lemma invalidate_iter cb m : 0 <= cb < SMMU_MAX_CB -> forall k (s : smmu500 * W), (k + m <= length (tbus s.1))%nat ->
  exists s', sm_iter (invalidate cb) (seq k m) s = Ret (tt, s') /\ s'.2 = s.2 /\ regs s'.1 = regs s.1 /\
    (forall i b, tbus s.1 !! i = Some b -> tbus s'.1 !! i =
       Some (if decide (k <= i < k + m)%nat then mk_tbu (p_topology_id b) (delete cb (dmi_range b)) else b)) /\
    exists new, sent s'.1 = new ++ sent s.1 /\ forall i b a e, (k <= i < k + m)%nat ->
      tbus s.1 !! i = Some b -> dmi_range b !! cb = Some (a, e) -> (i, a, e) ∈ new.
Proof.
  intros Hcb. induction m as [|m IH]; intros k s Hk; cbn [seq sm_iter].
  { exists s. split_and!; [done..| |].
    - intros i b ->. by rewrite decide_False by lia.
    - exists []. split; [done|]. intros. lia. }
  destruct (lookup_lt_is_Some_2 (tbus s.1) k) as [bk Hbk]; [lia|].
  destruct (invalidate_spec cb k s bk Hcb Hbk) as (n1 & E1 & Hn1). unfold sm_bind. rewrite E1.
  match goal with |- context [sm_iter _ _ ?x] => set (s1 := x) end.
  destruct (IH (S k) s1) as (s' & -> & Hw & Hr & Ht & n2 & Hs & Hn2).
  { subst s1. cbn. rewrite length_insert. lia. }
  exists s'. split_and!; [done..| |].
  - intros i b Hb. destruct (decide (i = k)) as [->|Hne].
    + rewrite (Ht k (mk_tbu (p_topology_id bk) (delete cb (dmi_range bk)))).
      * rewrite decide_False, decide_True by lia. by simplify_eq.
      * subst s1. cbn. rewrite list_lookup_insert_eq; [done|lia].
    + rewrite (Ht i b).
      * by repeat case_decide; try lia.
      * subst s1. cbn. by rewrite list_lookup_insert_ne.
  - exists (n2 ++ n1). rewrite <- app_assoc. split; [done|]. intros i b a e Hi Hb Ha.
    destruct (decide (i = k)) as [->|Hne]; apply elem_of_app; [right; simplify_eq; by apply Hn1|left].
    apply (Hn2 i b); [lia| |done]. subst s1. cbn. by rewrite list_lookup_insert_ne.
Qed.

Lemma invalidate_all_spec cb (s : smmu500 * W) :
  0 <= cb < SMMU_MAX_CB ->
  exists s', invalidate_all cb s = Ret (tt, s') /\
    (forall i b, tbus s.1 !! i = Some b -> tbus s'.1 !! i = Some (mk_tbu (p_topology_id b) (delete cb (dmi_range b)))) /\
    exists new, sent s'.1 = new ++ sent s.1 /\ forall i b a e,
      tbus s.1 !! i = Some b -> dmi_range b !! cb = Some (a, e) -> (i, a, e) ∈ new.
Proof.
  intros Hcb. destruct (invalidate_iter cb (length (tbus s.1)) Hcb 0 s) as (s' & E & _ & _ & Ht & new & Hs & Hn); [lia|].
  exists s'. split; [done|]. split.
  - intros i b Hb. rewrite (Ht i b Hb). apply lookup_lt_Some in Hb. by rewrite decide_True by lia.
  - exists new. split; [done|]. intros i b a e Hb. apply (Hn i b); [|done]. apply lookup_lt_Some in Hb. lia.
Qed.

(** *** Grants *)

(** A grant: TBU, context bank, first and last address. *)
Definition grant : Type := nat * Z * Z * Z.

Definition in_range (s : smmu500) (g : grant) : Prop :=
  let '(i, cb, lo, hi) := g in
  exists b a e, tbus s !! i = Some b /\ dmi_range b !! cb = Some (a, e) /\ a <= lo /\ hi <= e.

(** The grant that a DMI request makes when the stream is translated. *)
Definition grants_of (i : nat) (t : payload) (b : tbu) (s s' : smmu500 * W) (ok : bool) (d : tlm_dmi) : list grant :=
  match smmu500_translate env cfg t (p_topology_id b) s with
  | Ret (te, _) =>
      if ok && negb (addr_mask te =? UINT64_MAX) then
        [(i, match_from (regs s'.1) (stream_of (p_topology_id b) (address t)) (Z.to_nat (field_get SIDR0_NUMSMRG (regs s'.1))) 0,
          dmi_start d, dmi_end d)]
      else []
  | Err _ => []
  end.

Lemma widen_covers o lo hi : let '(a, e) := widen o lo hi in a <= lo /\ hi <= e /\
  forall x y, o = Some (x, y) -> a <= x /\ y <= e.
Proof.
  destruct o as [[x y]|]; cbn; [|split_and!; [lia|lia|done]].
  destruct (Z.ltb_spec lo x), (Z.ltb_spec y hi); (split_and!; [lia..|intros ? ? [= <- <-]; lia]).
Qed.

(** A DMI request keeps every recorded range and records what it grants. *)
Lemma dmi_records i t d s b ok t' d' s' :
  tbus s.1 !! i = Some b -> get_direct_mem_ptr env cfg i t d s = Ret ((ok, t', d'), s') ->
  sent s'.1 = sent s.1 /\ (forall g, in_range s.1 g -> in_range s'.1 g) /\
  Forall (in_range s'.1) (grants_of i t b s s' ok d').
Proof.
  intros Hb. unfold get_direct_mem_ptr, grants_of. unfold sm_bind at 1, get_tbu. rewrite Hb. unfold sm_bind at 1.
  destruct (smmu500_translate env cfg t (p_topology_id b) s) as [[te s1]|] eqn:Et; [|done].
  apply spares_translate in Et as [Ht Hs].
  assert (forall s2 : smmu500 * W, tbus s2.1 = tbus s1.1 -> forall g, in_range s.1 g -> in_range s2.1 g) as Hkeep.
  { intros s2 E [[[j cb] lo] hi]. unfold in_range. by rewrite E, Ht. }
  destruct (addr_mask te =? UINT64_MAX); cbn [negb].
  { rewrite andb_false_r. unfold sm_bind, sm_assert, call, sm_ret. destruct (_ =? _); [|done].
    destruct (down_dmi env i t d s1.2) as [[[[ok1 t1] d1] w1]|]; [|done]. intros [= <- <- <- <-].
    split_and!; [done|by apply Hkeep|constructor]. }
  unfold sm_bind at 1, sm_assert at 1. destruct (_ <? _); [|done]. unfold sm_ret at 1. unfold sm_bind at 1, call.
  destruct (down_dmi env i _ d s1.2) as [[[[ok1 t1] d1] w1]|]; [|done]. destruct ok1; cbn [negb andb].
  2: { intros [= <- <- <- <-]. split_and!; [done|by apply Hkeep|constructor]. }
  unfold sm_bind at 1, sm_assert. destruct (_ <=? dmi_end d1); [|done]. unfold sm_ret at 1. unfold sm_bind at 1, smmu500_stream_id_match.
  cbn [fst]. set (cb := match_from _ _ _ _). unfold sm_bind at 1. cbn [fst]. rewrite Ht, Hb. destruct (_ && _); [|done].
  unfold sm_bind, put_tbu, sm_modify, sm_ret. intros [= <- <- <- <-]. cbn [fst snd set_tbus regs sent tbus dmi_start dmi_end andb].
  set (lo := u64 (address t - _)). set (hi := u64 (u64 _ - 1)).
  pose proof (widen_covers (dmi_range b !! cb) lo hi) as Hw. destruct (widen _ lo hi) as [a e]. destruct Hw as (Hlo & Hhi & Hold).
  rewrite Ht. assert (i < length (tbus s.1))%nat as Hi by (by eapply lookup_lt_Some). split_and!; [done| |].
  - intros [[[j cb'] x] y] (bj & x0 & y0 & Hj & Hr & ? & ?). unfold in_range. cbn [tbus set_tbus]. destruct (decide (j = i)) as [->|Hne].
    + simplify_eq. destruct (decide (cb' = cb)) as [->|].
      * destruct (Hold _ _ Hr). eexists _, a, e. rewrite list_lookup_insert_eq by done. split; [done|]. cbn [dmi_range]. rewrite lookup_insert_eq. split_and!; [done|lia..].
      * eexists _, x0, y0. rewrite list_lookup_insert_eq by done. split; [done|]. cbn [dmi_range]. by rewrite lookup_insert_ne.
    + exists bj, x0, y0. by rewrite list_lookup_insert_ne.
  - constructor; [|done]. fold cb. unfold in_range. cbn [tbus set_tbus]. eexists _, a, e. rewrite list_lookup_insert_eq by done. split; [done|]. cbn [dmi_range]. by rewrite lookup_insert_eq.
Qed.

(** *** Histories *)

(** Whether a callback withdraws a grant: the invalidations name a context bank. *)
Definition withdraws (p : post_write) (g : grant) : bool :=
  let '(_, cb, _, _) := g in
  match p with
  | PW_CB_TLBIASID c val => (c <? p_num_cb cfg) && (cb =? val)
  | PW_CB_TLBIALL c => (c <? p_num_cb cfg) && (cb =? c)
  | _ => false
  end.

(** The SMMU with the grants that stand.  Software may write any register; everything
    around the SMMU may change. *)
Inductive step : (smmu500 * W) * list grant -> (smmu500 * W) * list grant -> Prop :=
| st_transport i t t' s s' G : b_transport env cfg i t s = Ret (t', s') -> step (s, G) (s', G)
| st_debug i t n t' s s' G : transport_dbg env cfg i t s = Ret ((n, t'), s') -> step (s, G) (s', G)
| st_dmi i t d b ok t' d' s s' G :
    tbus s.1 !! i = Some b -> get_direct_mem_ptr env cfg i t d s = Ret ((ok, t', d'), s') ->
    step (s, G) (s', grants_of i t b s s' ok d' ++ G)
| st_register f s G : step (s, G) ((set_regs f s.1, s.2), G)
| st_callback p s s' G :
    on_post_write env cfg p s = Ret (tt, s') -> step (s, G) (s', base.filter (fun g => withdraws p g = false) G)
| st_reset f v s s' G : on_reset cfg f v s = Ret (tt, s') -> step (s, G) (s', G)
| st_world s w G : step (s, G) ((s.1, w), G).

Lemma in_range_kept {A} (m : SM (smmu500 * W) A) s a s' G :
  spares m -> m s = Ret (a, s') -> Forall (in_range s.1) G -> Forall (in_range s'.1) G.
Proof. intros Hm E%Hm. destruct E as [E _]. intros HG. eapply Forall_impl; [exact HG|]. intros [[[i cb] lo] hi]. unfold in_range. by rewrite E. Qed.

Lemma spares_call {A} (f : W -> res (A * W)) : spares (call f).
Proof. intros s a s'. unfold call. destruct (f s.2) as [[? ?]|]; [|done]. by intros [= _ <-]. Qed.

Lemma spares_get_tbu i : spares (W := W) (get_tbu i).
Proof. intros s a s'. unfold get_tbu. destruct (_ !! i); [|done]. by intros [= _ <-]. Qed.

Lemma spares_transport i t : spares (b_transport env cfg i t).
Proof.
  unfold b_transport. apply spares_bind; [apply spares_get_tbu|intros b]. apply spares_bind; [apply spares_translate|intros te].
  destruct (refused _ _); [apply spares_ret|]. apply spares_bind; [apply spares_call|intros; apply spares_ret].
Qed.

Lemma spares_debug i t : spares (transport_dbg env cfg i t).
Proof.
  unfold transport_dbg. apply spares_bind; [apply spares_get_tbu|intros b]. apply spares_bind; [apply spares_translate|intros te].
  apply spares_bind; [apply spares_call|intros []; apply spares_ret].
Qed.

Lemma spares_iter {A} (f : A -> SM (smmu500 * W) unit) l : (forall x, spares (f x)) -> spares (sm_iter f l).
Proof. intros Hf. induction l; cbn; [apply spares_ret|]. apply spares_bind; auto. Qed.

Lemma spares_wr_field fd v : spares (W := W) (wr_field fd v).
Proof. intros s a s'. unfold wr_field. destruct (field_set _ _ _); [|done]. by intros [= _ <-]. Qed.

Lemma spares_reset f v : spares (W := W) (on_reset cfg f v).
Proof.
  unfold on_reset, start_of_simulation. destruct v; [|apply spares_ret].
  apply spares_bind; [by intros s a s' [= _ <-]|intros _]. cbv zeta. do 6 (apply spares_bind; [apply spares_wr_field|intros _]).
  apply spares_bind; [apply spares_wr|intros _]. destruct (_ <? _); [apply spares_wr|apply spares_fail].
Qed.

Lemma invalidate_all_range cb (s s' : smmu500 * W) :
  invalidate_all cb s = Ret (tt, s') -> forall i c lo hi, c <> cb -> in_range s.1 (i, c, lo, hi) -> in_range s'.1 (i, c, lo, hi).
Proof.
  intros E i c lo hi Hne (b & a & e & Hb & Hr & Hle). destruct (decide (0 <= cb < SMMU_MAX_CB)) as [Hcb|Hcb].
  - destruct (invalidate_all_spec cb s Hcb) as (s2 & E2 & Ht & _). rewrite E in E2. injection E2 as <-.
    do 3 eexists. split; [by apply Ht|]. cbn [dmi_range]. by rewrite lookup_delete_ne.
  - revert E. unfold invalidate_all. apply lookup_lt_Some in Hb. destruct (length (tbus s.1)) eqn:El; [lia|]. cbn [seq sm_iter].
    unfold invalidate, sm_bind, get_tbu. destruct (tbus s.1 !! 0%nat); [|done].
    destruct ((0 <=? cb) && (cb <? SMMU_MAX_CB)) eqn:Ec; [lia|done].
Qed.

Lemma step_in_range x y : step x y -> Forall (in_range x.1.1) x.2 -> Forall (in_range y.1.1) y.2.
Proof.
  destruct 1 as [i t t' s s' G E|i t n t' s s' G E|i t d b ok t' d' s s' G Hb E|f s G|p s s' G E|f v s s' G E|s w G]; cbn [fst snd]; intros HG.
  - by eapply in_range_kept; [apply spares_transport|..].
  - by eapply in_range_kept; [apply spares_debug|..].
  - destruct (dmi_records _ _ _ _ _ _ _ _ _ Hb E) as (_ & Hk & Hg). apply Forall_app. split; [done|]. by eapply Forall_impl.
  - done.
  - apply Forall_forall. intros [[[i c] lo] hi] [Hw Hin]%list_elem_of_filter. rewrite Forall_forall in HG. pose proof (HG _ Hin) as Hg.
    assert (forall m : SM (smmu500 * W) unit, spares m -> m s = Ret (tt, s') -> in_range s'.1 (i, c, lo, hi)) as Hkeep.
    { intros m Hm Em. pose proof (in_range_kept m s tt s' [(i, c, lo, hi)] Hm Em) as H. rewrite !Forall_singleton in H. by apply H. }
    destruct p as [| | | | |c0|c0 val|c0]; cbn [on_post_write withdraws] in E, Hw; try by eapply Hkeep, E; apply spares_gats.
    + eapply Hkeep, E. apply spares_bind; [apply spares_rd|intros; apply spares_wr].
    + destruct (_ <=? _); [by injection E as <-|]. eapply Hkeep, E. apply spares_iter. intros. apply spares_update_irq.
    + rewrite Z.ltb_antisym in Hw. destruct (_ <=? _); [by injection E as <-|]. eapply invalidate_all_range; [done| |done]. cbn in Hw. lia.
    + rewrite Z.ltb_antisym in Hw. destruct (_ <=? _); [by injection E as <-|]. eapply invalidate_all_range; [done| |done]. cbn in Hw. lia.
  - by eapply in_range_kept; [apply spares_reset|..].
  - done.
Qed.

Lemma reachable_in_range x y : rtc step x y -> Forall (in_range x.1.1) x.2 -> Forall (in_range y.1.1) y.2.
Proof. induction 1; [done|]. intros HG. by apply IHrtc, (step_in_range x y). Qed.
End Ranges.

(** ** Properties *)


(** C30: SMMU-500: after any history, TLBIALL of a context bank withdraws every grant the TBUs
    made through that bank since it was last invalidated: each lies in a range that its TBU
    sends upstream now, and no range is kept for the bank. *)
Theorem tlbiall_withdraws {W} (env : bound W) cfg s0 s G cb :
  rtc (step env cfg) (s0, []) (s, G) -> 0 <= cb < SMMU_MAX_CB -> cb < p_num_cb cfg ->
  exists s' new, on_post_write env cfg (PW_CB_TLBIALL cb) s = Ret (tt, s') /\ sent s'.1 = new ++ sent s.1 /\
    (forall i lo hi, (i, cb, lo, hi) ∈ G -> exists a e, (i, a, e) ∈ new /\ a <= lo /\ hi <= e) /\
    forall i b, tbus s.1 !! i = Some b -> exists b', tbus s'.1 !! i = Some b' /\ dmi_range b' !! cb = None.
Proof.
  intros Hr Hcb Hn. apply (reachable_in_range env cfg) in Hr as HG; [|constructor]. cbn [fst snd] in HG. rewrite Forall_forall in HG.
  destruct (invalidate_all_spec cb s Hcb) as (s' & E & Ht & new & Hs & Hnew). exists s', new. cbn [on_post_write].
  rewrite (proj2 (Z.leb_gt (p_num_cb cfg) cb)) by lia. split_and!; [done..| |].
  - intros i lo hi Hin. destruct (HG _ Hin) as (b & a & e & Hb & Hrg & ?). exists a, e. split; [by eapply Hnew|done].
  - intros i b Hb. eexists. split; [by apply Ht|]. cbn. apply lookup_delete_eq.
Qed.

(** *** A configuration *)

(** Memory behind the DMA port holds descriptors; the TBU's socket leads to a target that
    notes the addresses it is sent and grants 64 KB of host memory from [0x1000000]. *)
Record ex_world : Type := mk_ex { ex_descs : gmap Z Z; ex_seen : list Z }.

Definition ex_desc (w : ex_world) (a : Z) : option Z := (fun d => d mod 2 ^ 64) <$> ex_descs w !! a.

Definition ex_seen_by (t : payload) (w : ex_world) : payload * ex_world :=
  (set_response_status TLM_OK_RESPONSE t, mk_ex (ex_descs w) (address t :: ex_seen w)).

Definition ex_bound (first last : Z) : bound ex_world :=
  mk_bound _
    (fun t w => Ret (match ex_descs w !! address t with
                     | Some d => set_response_status TLM_OK_RESPONSE (set_data (store_le 8 d) t)
                     | None => set_response_status TLM_ADDRESS_ERROR_RESPONSE t
                     end, w))
    (fun _ t w => Ret (ex_seen_by t w))
    (fun _ t w => let '(t', w') := ex_seen_by t w in Ret (data_length t, t', w'))
    (fun _ t d w =>
       if (first <=? address t) && (address t <=? last)
       then Ret (true, t, mk_dmi (0x1000000 + first) first last DMI_ACCESS_READ_WRITE, w)
       else Ret (false, t, d, w)).

Instance ex_reads first last : DmaReads (ex_bound first last) ex_desc.
Proof.
  intros a w. cbn -[store_le load_le]. unfold ex_desc. destruct (ex_descs w !! a) as [d|]; eexists; (split; [done|]); cbn -[store_le load_le]; [|done].
  split; [done|]. apply load_store_le.
Qed.

Definition ex_cfg : config := mk_config 48 48 16 16 true 0x21 1.

(** Stream 5 uses context bank 2, of type [type], with stage 2 in bank 3; 32-bit addresses. *)
Definition ex_regs (type : Z) : reg_file := list_to_map
  [(SMMU_SIDR0, 48); (SMMU_SMR 0, 0x80000005); (SMMU_S2CR 0, 2);
   (SMMU_CBAR 2, type * 0x10000 + 0x300); (SMMU_CBA2R 2, 1);
   (cb_reg ex_cfg CB_SCTLR 2, 0x41); (cb_reg ex_cfg CB_TCR2 2, 5); (cb_reg ex_cfg CB_TCR_LPAE 2, 32);
   (cb_reg ex_cfg CB_TTBR0_LOW 2, 0x1000);
   (cb_reg ex_cfg CB_TCR_LPAE 3, 0x50060); (cb_reg ex_cfg CB_TTBR0_LOW 3, 0x8000)].

Definition ex_smmu (type sid : Z) : smmu500 := mk_smmu (ex_regs type) ∅ [mk_tbu sid ∅] [].

(** Stage 1 maps the page 0x403000 by the descriptor [leaf]; stage 2 maps the first
    gigabyte to itself. *)
Definition ex_mem (leaf : Z) : ex_world := mk_ex (list_to_map
  [(0x1000, 0x2003); (0x2010, 0x3003); (0x3018, leaf); (0x8000, 0x4C1)]) [].

Definition ex_page : Z := 0x77443.
Definition ex_page_ro : Z := 0x774C3.

Definition ex_read (a : Z) : payload := plain_txn TLM_READ_COMMAND a [0; 0; 0; 0].
Definition ex_write (a : Z) : payload := plain_txn TLM_WRITE_COMMAND a [1; 2; 3; 4].

Lemma ex_regs_ok : regs_ok (ex_regs 1).
Proof. intros r v H%elem_of_list_to_map_2. unfold in_width. set_unfold in H. naive_solver lia. Qed.

Lemma ex_context : s1_context ex_cfg 2 (ex_regs 1).
Proof. split; vm_compute; (done || auto). Qed.

Lemma ex_not_odd : ~ s1_odd ex_cfg (ex_desc (ex_mem ex_page)) (s1_req ex_cfg (ex_regs 1) 2 0x403000 false).
Proof.
  intros (p & pr & _ & _ & _ & g & start & leaf & d & ro & Hg & Hs & Hlv & _ & Hw & _). change (extract (tcr1 _) 14 2) with 0 in Hg. change (64 - extract (tcr1 _) 0 6) with 32 in Hlv.
  assert (g = 12) as -> by lia. assert (start = 1) as -> by (unfold level_shift in Hlv; lia).
  match type of Hw with tables ?m ?out ?v _ ?first _ ?base _ _ _ _ => assert (tables m out v 12 first 1 base 3 ex_page false false) as Hex end.
  { apply (tb_table _ _ _ _ _ 1 _ 0x2003 3 ex_page false false); [done|by vm_compute..|]. apply (tb_table _ _ _ _ _ 2 _ 0x3003 3 ex_page false false); [done|by vm_compute..|].
    by apply tb_page; vm_compute. }
  destruct (tables_det _ _ _ _ _ _ _ _ _ _ _ Hex _ _ _ _ Hw) as (_ & _ & _ & ?). done.
Qed.


(** A grant, and the invalidation that withdraws it. *)
Definition ex_granted : smmu500 * ex_world :=
  (mk_smmu (ex_regs 1) ∅ [mk_tbu 5 {[ 2 := (0x403000, 0x403fff) ]}] [], ex_mem ex_page).

Definition ex_dmi : tlm_dmi := mk_dmi 0x1077000 0x403000 0x403fff DMI_ACCESS_READ_WRITE.

Lemma ex_grant_step :
  step (ex_bound 0 0xfffff) ex_cfg ((ex_smmu 1 5, ex_mem ex_page), []) (ex_granted, [(0%nat, 2, 0x403000, 0x403fff)]).
Proof.
  apply (st_dmi (ex_bound 0 0xfffff) ex_cfg 0 (ex_read 0x403004) dmi_init (mk_tbu 5 ∅) true (ex_read 0x403004) ex_dmi
           (ex_smmu 1 5, ex_mem ex_page) ex_granted []); [reflexivity|vm_compute; reflexivity].
Qed.

Lemma tlbiall_withdraws_witness :
  exists s' (new : list (nat * Z * Z)), on_post_write (ex_bound 0 0xfffff) ex_cfg (PW_CB_TLBIALL 2) ex_granted = Ret (tt, s') /\
    exists a e, (0%nat, a, e) ∈ new /\ a <= 0x403000 /\ 0x403fff <= e.
Proof.
  destruct (tlbiall_withdraws (ex_bound 0 0xfffff) ex_cfg (ex_smmu 1 5, ex_mem ex_page) ex_granted [(0%nat, 2, 0x403000, 0x403fff)] 2)
    as (s' & new & E & _ & Hg & _).
  - eapply rtc_l; [exact ex_grant_step|reflexivity].
  - by vm_compute.
  - by vm_compute.
  - exists s', new. split; [exact E|]. apply Hg. left.
Defined.

(** *** Departures from intent *)

(** The state an operation ends in. *)
Definition final {A} (x : res (A * (smmu500 * ex_world))) : smmu500 * ex_world :=
  match x with Ret (_, s) => s | Err _ => ex_granted end.

Ltac run :=
  match goal with
  | |- exists s' w', ?x = Ret _ /\ _ => exists (final x).1, (final x).2
  | |- exists w', ?x = Ret _ /\ _ => exists (final x).2
  | |- exists s', ?x = Ret (_, (s', _)) => exists (final x).1
  | |- exists w', ?x = Ret (_, (_, w')) => exists (final x).2
  end; vm_compute; repeat split.

(** Nested translation: the stage 2 walk clears the error of stage 1.  An address that
    stage 1 does not map is sent downstream as if stage 1 mapped it to itself, although
    the context bank shows the fault. *)
Theorem nested_fault_lost :
  exists s' w', b_transport (ex_bound 0 0xfffff) ex_cfg 0 (ex_write 0x600000) (ex_smmu 3 5, ex_mem ex_page) =
    Ret (set_response_status TLM_OK_RESPONSE (ex_write 0x600000), (s', w')) /\ ex_seen w' = [0x600000] /\
    fault_shown ex_cfg 2 0x600000 s' /\ ex_desc w' 0x2018 = None.
Proof. run. Qed.

(** At level 3 only bit 1 of a descriptor is looked at: a descriptor whose valid bit is
    clear is taken for a page. *)
Theorem invalid_page_accepted :
  exists w', b_transport (ex_bound 0 0xfffff) ex_cfg 0 (ex_read 0x403004) (ex_smmu 1 5, ex_mem (ex_page - 1)) =
    Ret (set_response_status TLM_OK_RESPONSE (ex_read 0x403004), (ex_smmu 1 5, w')) /\ ex_seen w' = [0x77004].
Proof. run. Qed.

(** APTable[0] of a table is not looked at: pages that it leaves to privileged accesses are reached. *)
Definition ex_private : ex_world := mk_ex (list_to_map [(0x1000, 0x2003 + 2 ^ 61); (0x2010, 0x3003); (0x3018, ex_page)]) [].

Theorem aptable_ignored :
  exists w', b_transport (ex_bound 0 0xfffff) ex_cfg 0 (ex_read 0x403004) (ex_smmu 1 5, ex_private) =
    Ret (set_response_status TLM_OK_RESPONSE (ex_read 0x403004), (ex_smmu 1 5, w')) /\ ex_seen w' = [0x77004].
Proof. run. Qed.

(** DMI: a page that stage 1 does not map is granted all the same: one byte, readable and
    writable, backed by physical address 0. *)
Theorem faulting_dmi_granted :
  exists s' w', get_direct_mem_ptr (ex_bound 0 0xfffff) ex_cfg 0 (ex_write 0x600000) dmi_init (ex_smmu 1 5, ex_mem ex_page) =
    Ret ((true, ex_write 0x600000, mk_dmi 0x1000000 0x600000 0x600000 DMI_ACCESS_READ_WRITE), (s', w')) /\
    fault_shown ex_cfg 2 0x600000 s'.
Proof. run. Qed.

(** DMI: a read-only page is granted for writing. *)
Theorem readonly_dmi_writable :
  (exists w', get_direct_mem_ptr (ex_bound 0 0xfffff) ex_cfg 0 (ex_read 0x403004) dmi_init (ex_smmu 1 5, ex_mem ex_page_ro) =
    Ret ((true, ex_read 0x403004, ex_dmi), (ex_granted.1, w'))) /\
  exists s', b_transport (ex_bound 0 0xfffff) ex_cfg 0 (ex_write 0x403004) (ex_smmu 1 5, ex_mem ex_page_ro) =
    Ret (set_response_status TLM_ADDRESS_ERROR_RESPONSE (ex_write 0x403004), (s', ex_mem ex_page_ro)).
Proof. split; run. Qed.

(** DMI: the end of the page, one past its last byte, is compared with the last address of
    the grant below: the last page of a memory stops the simulation. *)
Theorem last_page_dmi_stops :
  get_direct_mem_ptr (ex_bound 0 0x77fff) ex_cfg 0 (ex_read 0x403004) dmi_init (ex_smmu 1 5, ex_mem ex_page) = Err StopAssert.
Proof. by vm_compute. Qed.

(** DMI: a refused request comes back with the physical address. *)
Theorem refused_dmi_moves_address :
  exists w', get_direct_mem_ptr (ex_bound 0 0xffff) ex_cfg 0 (ex_read 0x403004) dmi_init (ex_smmu 1 5, ex_mem ex_page) =
    Ret ((false, ex_read 0x77000, dmi_init), (ex_smmu 1 5, w')).
Proof. run. Qed.

(** Debug accesses to a page that is not mapped reach physical page 0. *)
Theorem debug_ignores_fault :
  exists s' w', transport_dbg (ex_bound 0 0xfffff) ex_cfg 0 (ex_read 0x600004) (ex_smmu 1 5, ex_mem ex_page) =
    Ret ((4, set_response_status TLM_OK_RESPONSE (ex_read 0x600004)), (s', w')) /\ ex_seen w' = [4].
Proof. run. Qed.

(** The stream of a TBU has 16 bits in translation and 32 in the DMI path: with a wider
    topology number the page is translated, and its range is recorded outside the array. *)
Theorem wide_topology_undefined :
  get_direct_mem_ptr (ex_bound 0 0xfffff) ex_cfg 0 (ex_read 0x403004) dmi_init (ex_smmu 1 0x10005, ex_mem ex_page) = Err StopUndef /\
  exists w', b_transport (ex_bound 0 0xfffff) ex_cfg 0 (ex_read 0x403004) (ex_smmu 1 0x10005, ex_mem ex_page) =
    Ret (set_response_status TLM_OK_RESPONSE (ex_read 0x403004), (ex_smmu 1 0x10005, w')).
Proof. split; [by vm_compute|]. run. Qed.

(** TLBIASID takes the address space identifier for the number of a context bank: one that
    is no bank is used as an index out of the array. *)
Theorem tlbiasid_index {W} (env : bound W) cfg cb asid s :
  tbus s.1 <> [] -> cb < p_num_cb cfg -> SMMU_MAX_CB <= asid ->
  on_post_write env cfg (PW_CB_TLBIASID cb asid) s = Err StopUndef.
Proof.
  intros Hne Hcb Ha. cbn [on_post_write]. rewrite (proj2 (Z.leb_gt (p_num_cb cfg) cb)) by lia. unfold invalidate_all.
  destruct (tbus s.1) as [|b l] eqn:E; [done|]. cbn [length seq sm_iter]. unfold invalidate, sm_bind, get_tbu. rewrite E. cbn [lookup list_lookup].
  by rewrite (proj2 (Z.ltb_ge asid SMMU_MAX_CB)), andb_false_r by lia.
Qed.

(** Reset restores the registers and neither lowers an interrupt line nor withdraws a
    grant. *)
Theorem reset_keeps_lines {W} cfg f (s s' : smmu500 * W) :
  on_reset cfg f true s = Ret (tt, s') -> irq_context s'.1 = irq_context s.1 /\ tbus s'.1 = tbus s.1 /\ sent s'.1 = sent s.1.
Proof.
  intros E. split; [|by apply spares_reset in E].
  assert (forall fd v (s s' : smmu500 * W), wr_field fd v s = Ret (tt, s') -> irq_context s'.1 = irq_context s.1) as Hf.
  { intros fd v s1 s2. unfold wr_field. destruct (field_set _ _ _); [|done]. by intros [= <-]. }
  unfold on_reset, start_of_simulation in E. repeat (apply sm_bind_Ret in E as ([] & ? & ?E0 & E)).
  destruct (_ <? _); [|done]. injection E as <-. cbn.
  repeat match goal with H : wr_field _ _ _ = _ |- _ => apply Hf in H end.
  repeat match goal with H : sm_modify _ _ = _ |- _ => injection H as <- | H : wr _ _ _ = _ |- _ => injection H as <- end.
  cbn in *. congruence.
Qed.

(** An address of the upper range always faults: the check of its upper bits expects
    zeros, also for tables of TTBR1. *)
Theorem ttbr1_refused {W} (env : bound W) cfg s2 cb r s :
  stage r = 1 -> 2 ^ 63 <= va r < 2 ^ 64 -> CBA2R_VA64 (reg_get (SMMU_CBA2R cb) (regs s.1)) || bit (tcr1 r) 31 = true ->
  walk_tables env cfg s2 cb r s = Ret ((true, r), s).
Proof.
  intros Hst Hva Ht. unfold walk_tables. rewrite Hst. cbn [Z.eqb Pos.eqb]. unfold sm_bind at 1.
  assert (exists b z tg e, select_table cb r s = Ret ((b, z, tg, e), s) /\ 0 <= z) as (b & z & tg & e & -> & Hz).
  { unfold select_table, sm_bind, rd, sm_assert, sm_ret. rewrite Hst. cbn [Z.eqb Pos.eqb]. rewrite Ht.
    repeat case_match; do 4 eexists; (split; [reflexivity|]); apply extract_range; lia. }
  destruct e; [done|]. destruct (granule tg) as [[g l] fb]. unfold sm_bind at 1.
  destruct ((64 - z <? 25) || (48 <? 64 - z) || negb (extract (va r) (64 - z) (64 - (64 - z)) =? 0)) eqn:Ec; [done|exfalso].
  apply orb_false_iff in Ec as [Ec Ex%negb_false_iff%Z.eqb_eq]. apply extract_zero_lt in Ex; [|lia..].
  assert (2 ^ (64 - z) <= 2 ^ 48) by (apply Z.pow_le_mono_r; lia). lia.
Qed.

Lemma descriptor_addr_mod v v' level ttbr g :
  3 <= g -> level <= 3 -> v mod 2 ^ level_shift g (level - 1) = v' mod 2 ^ level_shift g (level - 1) ->
  descriptor_addr v level ttbr g (g - 3) = descriptor_addr v' level ttbr g (g - 3).
Proof.
  intros Hg Hl Hv. unfold descriptor_addr. f_equal. apply Z.bits_inj'. intros i Hi.
  assert (0 <= (3 - level) * (g - 3)) by (apply Z.mul_nonneg_nonneg; lia).
  rewrite !Z.ldiff_spec, !Z.land_spec, !Z.shiftr_spec, Z.testbit_ones by lia.
  destruct (Z.ltb_spec i g); [|by rewrite !andb_false_r]. do 2 f_equal.
  set (n := i + _). assert (0 <= n < level_shift g (level - 1)) by (subst n; unfold level_shift; lia).
  rewrite <- (Z.mod_pow2_bits_low v (level_shift g (level - 1)) n), <- (Z.mod_pow2_bits_low v' (level_shift g (level - 1)) n) by lia.
  by rewrite Hv.
Qed.

(** A walk looks at no address bit above those that one table of its first level resolves:
    stage 2 addresses that differ only in the bits of concatenated tables translate alike. *)
Theorem concatenation_ignored {W} (env : bound W) s2 v v' g first out : 3 <= g -> forall fuel level ttbr ta s,
  level <= 3 -> v mod 2 ^ level_shift g (level - 1) = v' mod 2 ^ level_shift g (level - 1) ->
  walk_loop env s2 fuel v level ttbr g (g - 3) first out ta s = walk_loop env s2 fuel v' level ttbr g (g - 3) first out ta s.
Proof.
  intros Hg. induction fuel as [|fuel IH]; intros level ttbr ta s Hl Hv; [done|]. cbn [walk_loop]. unfold sm_bind at 1 3.
  rewrite (descriptor_addr_mod v v') by done. destruct (s2 _ s) as [[[a|] s1]|]; [|done..]. unfold sm_bind.
  destruct (read_desc env a s1) as [[[d|] s2']|]; [|done..]. cbv zeta.
  destruct (Z.eqb_spec level 3); [done|]. do 4 (case_match; [done|]). apply IH; [lia|].
  assert (level_shift g (level - 1) = level_shift g (level + 1 - 1) + (g - 3)) as E by (unfold level_shift; lia).
  assert (0 <= level_shift g (level + 1 - 1)) by (unfold level_shift; pose proof (Z.mul_nonneg_nonneg (3 - level) (g - 3)); lia).
  rewrite E, Z.pow_add_r in Hv by lia.
  rewrite <- (Z.mod_mod_divide v (2 ^ level_shift g (level + 1 - 1) * 2 ^ (g - 3))), Hv by (apply Z.divide_factor_l).
  apply Z.mod_mod_divide, Z.divide_factor_l.
Qed.
