(* ===== verification/MacDma.v ===== *)
(** * Parts of the Ethernet MACs

    [macs/dma.h], [macs/mac.h], [macs/phy.h], [macs/payload.h]: the bus master that both MACs
    read descriptors and frames with, MAC addresses, the PHY and frame buffers. *)

From stdpp Require Import base list numbers option.
From S2P Require Import Prelude Monad Registers Tlm RegProxy.

(** ** Bus master *)

Record dma : Type := mk_dma {
  dmi_data : tlm_dmi;
  dmi_valid : bool;
}.

Definition dma_init : dma := mk_dma dmi_init false.

Section Dma.
Context {W : Type} (bus : dma_bus W).

(** [size] bytes at host address [p]. *)
Definition read_host (w : W) (p : Z) (size : nat) : list Z := map (fun i => bus_hread bus w (p + Z.of_nat i)) (seq 0 size).

(** A transaction, whatever its response, and the DMI pointer that follows it. *)
Definition bus_txn (addr : Z) (bytes : list Z) (is_write : bool) : SM (dma * W) (list Z) := fun '(d, w) =>
  let t := plain_txn (if is_write then TLM_WRITE_COMMAND else TLM_READ_COMMAND) addr bytes in
  let? (t', w') := bus_transport bus t w in
  if dmi_allowed t' then
    let? (ok, _, d', w'') := bus_dmi bus t' (dmi_data d) w' in
    Ret (data t', (mk_dma d' ok, w''))
  else Ret (data t', (d, w')).

(** [bus_do (addr, data, size, is_write)]: the bytes that [data] holds afterwards. *)
Definition bus_do (addr : Z) (bytes : list Z) (is_write : bool) : SM (dma * W) (list Z) := fun '(d, w) =>
  let size := Z.of_nat (length bytes) in
  let p := dmi_ptr (dmi_data d) + (addr - dmi_start (dmi_data d)) in
  if dmi_valid d && (dmi_start (dmi_data d) <=? addr) && (u64 (addr + size) <? dmi_end (dmi_data d)) then
    if is_write && is_write_allowed (dmi_data d) then Ret (bytes, (d, write_host bus w p bytes))
    else if negb is_write && is_read_allowed (dmi_data d) then Ret (read_host w p (length bytes), (d, w))
    else bus_txn addr bytes is_write (d, w)
  else bus_txn addr bytes is_write (d, w).

Definition bus_write (addr : Z) (bytes : list Z) : SM (dma * W) unit :=
  do! _ := bus_do addr bytes true in sm_ret tt.

Definition bus_read (addr : Z) (bytes : list Z) : SM (dma * W) (list Z) := bus_do addr bytes false.
End Dma.

(** ** Devices with a bus master *)

Section Device.
Context {S W : Type}.

Definition get {A} (f : S -> A) : SM (S * (dma * W)) A := fun s => Ret (f s.1, s).
Definition upd (f : S -> S) : SM (S * (dma * W)) unit := sm_modify (fun s => (f s.1, s.2)).

(** A call on the bus master. *)
Definition on_dma {A} (m : SM (dma * W) A) : SM (S * (dma * W)) A := fun s =>
  match m s.2 with
  | Ret (a, x) => Ret (a, (s.1, x))
  | Err e => Err e
  end.
End Device.

(** ** MAC addresses *)

(** [m_bytes]. *)
Definition MACAddress : Type := list Z.

Definition mac_zero : MACAddress := replicate 6 0.

Definition mac_byte (m : MACAddress) (i : nat) : Z := default 0 (m !! i).

Definition mac_lo (m : MACAddress) : Z :=
  Z.lor (Z.lor (mac_byte m 0) (Z.shiftl (mac_byte m 1) 8)) (Z.lor (Z.shiftl (mac_byte m 2) 16) (Z.shiftl (mac_byte m 3) 24)).
Definition mac_hi (m : MACAddress) : Z := Z.lor (mac_byte m 4) (Z.shiftl (mac_byte m 5) 8).

Definition set_lo (v : Z) (m : MACAddress) : MACAddress :=
  [Z.land v 0xff; Z.land (Z.shiftr v 8) 0xff; Z.land (Z.shiftr v 16) 0xff; Z.land (Z.shiftr v 24) 0xff; mac_byte m 4; mac_byte m 5].
(** The argument is a [uint16_t]. *)
Definition set_hi (v : Z) (m : MACAddress) : MACAddress :=
  let v := u16 v in
  [mac_byte m 0; mac_byte m 1; mac_byte m 2; mac_byte m 3; Z.land v 0xff; Z.land (Z.shiftr v 8) 0xff].

(** ** PHY *)

Record phy : Type := mk_phy {
  m_ctl : Z;
  m_status : Z;
  m_adv : Z;
  m_id : Z;
}.

Definition MII_BMCR : Z := 0x00.
Definition MII_BMSR : Z := 0x01.
Definition MII_PHYSID1 : Z := 0x02.
Definition MII_PHYSID2 : Z := 0x03.
Definition MII_ADVERTISE : Z := 0x04.
Definition MII_LPA : Z := 0x05.
Definition BMCR_ANRESTART : Z := 0x0200.
Definition BMCR_PDOWN : Z := 0x0800.
Definition BMCR_RESET : Z := 0x8000.

(** [BMSR_100FULL | BMSR_ANEGCOMPLETE | BMSR_LSTATUS] and [ADVERTISE_ALL]. *)
Definition phy_init (id : Z) : phy := mk_phy 0 0x4024 0x01E0 id.

(** [LPA_LPACK | LPA_100FULL | LPA_100HALF | LPA_10FULL | LPA_10HALF | SLCT_IEEE802_3]. *)
Definition LPA_VALUE : Z := 0x41E1.

Definition mdio_reg_read (reg : Z) (p : phy) : Z :=
  if reg =? MII_BMCR then m_ctl p
  else if reg =? MII_BMSR then m_status p
  else if reg =? MII_PHYSID1 then u16 (Z.shiftr (m_id p) 16)
  else if reg =? MII_PHYSID2 then Z.land (m_id p) 0xffff
  else if reg =? MII_ADVERTISE then m_adv p
  else if reg =? MII_LPA then LPA_VALUE
  else 0.

Definition mdio_reg_write (reg value : Z) (p : phy) : phy :=
  let value := u16 value in
  if reg =? MII_BMCR then
    mk_phy (Z.ldiff (Z.ldiff (Z.ldiff value BMCR_RESET) BMCR_ANRESTART) BMCR_PDOWN) (m_status p) (m_adv p) (m_id p)
  else if reg =? MII_ADVERTISE then mk_phy (m_ctl p) (m_status p) value (m_id p)
  else p.

(** ** Frame buffers *)

(** [m_buffer] has its capacity, of which [m_size] bytes are in use. *)
Record Payload : Type := mk_frame {
  m_buffer : list Z;
  m_size : Z;
}.

Definition frame_resize (size : Z) (f : Payload) : res Payload :=
  if size <=? Z.of_nat (length (m_buffer f)) then Ret (mk_frame (m_buffer f) size) else Err StopAssert.

(** Bytes stored through the data pointer. *)
Definition frame_store (off : Z) (l : list Z) (f : Payload) : Payload :=
  mk_frame (splice (Z.to_nat off) l (m_buffer f)) (m_size f).

Definition frame_bytes (f : Payload) : list Z := take (Z.to_nat (m_size f)) (m_buffer f).

(** ** Memory behind the bus master *)

Section DmaSpec.
Context {W : Type} (bus : dma_bus W) `{!RegMemory bus} `{!RegMemoryLaws bus}.

(** A DMI pointer that is held leads to the memory. *)
Definition dma_ok (x : dma * W) : Prop :=
  dmi_valid x.1 = true -> dmi_start (dmi_data x.1) = 0 /\ dmi_end (dmi_data x.1) = rm_limit - 1 /\
    forall a, 0 <= a < rm_limit -> rm_host x.2 (dmi_host (dmi_data x.1) a) a.

(** A state in which memory is [f]. *)
Definition dma_effect (f : contents) (x' : dma * W) : Prop := contents_eq (rm_rd x'.2) f /\ dma_ok x'.

Lemma write_host_spec l : Forall (fun v => 0 <= v < 256) l -> forall w p a,
  (forall k, 0 <= k < Z.of_nat (length l) -> rm_host w (p + k) (a + k)) ->
  contents_eq (rm_rd (write_host bus w p l)) (write_at (rm_rd w) a l) /\ host_kept w (write_host bus w p l).
Proof.
  induction 1 as [|v l Hv Hl IH]; intros w p a Hh; cbn [write_host length] in *.
  - split; [|by intros ??]. intros x. unfold write_at. cbn. by rewrite decide_False by lia.
  - destruct (rml_hwrite (bus := bus) w p a v) as [H1 H2]; [|done|].
    { specialize (Hh 0). rewrite !Z.add_0_r in Hh. apply Hh. lia. }
    destruct (IH (bus_hwrite bus w p v) (p + 1) (a + 1)) as [H3 H4].
    { intros k Hk. rewrite <- !Z.add_assoc. apply H2, Hh. lia. }
    split; [|unfold host_kept in *; auto]. rewrite H3, H1. change (v :: l) with ([v] ++ l). by rewrite write_at_app.
Qed.

(** The DMI request after a transaction. *)
Lemma txn_dmi_ok t d w f :
  0 <= address t < rm_limit -> contents_eq (rm_rd w) f ->
  exists ok t' d' w', bus_dmi bus t d w = Ret (ok, t', d', w') /\ dma_effect f (mk_dma d' ok, w').
Proof.
  intros Ha Hf. destruct (rml_dmi (bus := bus) t d w Ha) as (ok & t' & d' & w' & E & Hc & _ & Hok).
  do 4 eexists. split; [exact E|]. split; [by rewrite <- Hf|]. intros Hv. by apply Hok.
Qed.

Lemma bus_txn_ok (c : bool) a bytes x :
  dma_ok x -> 0 <= a < rm_limit -> a + Z.of_nat (length bytes) <= rm_limit -> Forall (fun v => 0 <= v < 256) bytes ->
  exists x', bus_txn bus a bytes c x = Ret (if c then bytes else bytes_at (rm_rd x.2) a (length bytes), x') /\
    dma_effect (if c then write_at (rm_rd x.2) a bytes else rm_rd x.2) x'.
Proof.
  intros Hd Ha Hn Hb. destruct x as [d w]. unfold bus_txn. cbn [snd].
  assert (exists t' w', bus_transport bus (plain_txn (if c then TLM_WRITE_COMMAND else TLM_READ_COMMAND) a bytes) w = Ret (t', w') /\
            address t' = a /\ data t' = (if c then bytes else bytes_at (rm_rd w) a (length bytes)) /\
            contents_eq (rm_rd w') (if c then write_at (rm_rd w) a bytes else rm_rd w) /\ host_kept w w') as (t' & w' & -> & Hat & Hdt & Hc & Hk).
  { destruct c.
    - destruct (rml_write (bus := bus) (plain_txn TLM_WRITE_COMMAND a bytes) w) as (t' & w' & E & Ht & Hc & Hk); try done; cbn; try lia.
      exists t', w'. split; [exact E|]. by rewrite Ht.
    - destruct (rml_read (bus := bus) (plain_txn TLM_READ_COMMAND a bytes) w) as (t' & w' & E & Ht & Hc & Hk); try done; cbn; try lia.
      exists t', w'. split; [exact E|]. by rewrite Ht. }
  cbn [rbind]. destruct (dmi_allowed t').
  - destruct (txn_dmi_ok t' (dmi_data d) w' _ ltac:(lia) Hc) as (ok & t2 & d' & w2 & -> & He). cbn [rbind]. rewrite Hdt. eauto.
  - rewrite Hdt. eexists. split; [done|]. split; [done|]. intros Hv. destruct (Hd Hv) as (? & ? & Hm). cbn in *. split_and!; [done..|].
    intros b Hbr. by apply Hk, Hm.
Qed.

(** The bus master reads and writes memory, through DMI or not. *)
Lemma bus_do_ok (c : bool) a bytes x :
  dma_ok x -> 0 <= a < rm_limit -> a + Z.of_nat (length bytes) <= rm_limit -> Forall (fun v => 0 <= v < 256) bytes ->
  exists x', bus_do bus a bytes c x = Ret (if c then bytes else bytes_at (rm_rd x.2) a (length bytes), x') /\
    dma_effect (if c then write_at (rm_rd x.2) a bytes else rm_rd x.2) x'.
Proof.
  intros Hd Ha Hn Hb. pose proof (bus_txn_ok c a bytes x Hd Ha Hn Hb) as Htxn. destruct x as [d w]. unfold bus_do.
  destruct (dmi_valid d) eqn:Ev; cbn [andb]; [|done]. destruct (Hd Ev) as (Hs & He & Hm). cbn [fst snd] in *.
  destruct (_ && _) eqn:Ec; [|done].
  assert (forall k, 0 <= k < Z.of_nat (length bytes) -> rm_host w (dmi_ptr (dmi_data d) + (a - dmi_start (dmi_data d)) + k) (a + k)) as Hh.
  { intros k Hk. specialize (Hm (a + k) ltac:(lia)). unfold dmi_host in Hm.
    by replace (_ + (a - dmi_start (dmi_data d)) + k) with (dmi_ptr (dmi_data d) + (a + k - dmi_start (dmi_data d))) by lia. }
  destruct c; cbn [andb negb].
  - destruct (is_write_allowed _); [|done]. destruct (write_host_spec bytes Hb w _ a Hh) as [Hc Hk].
    eexists. split; [done|]. split; [done|]. intros _. cbn. split_and!; [done..|]. intros b Hbr. by apply Hk, Hm.
  - destruct (is_read_allowed _); [|done]. eexists. split.
    + unfold read_host, bytes_at. do 2 f_equal. apply map_ext_in. intros i Hi%in_seq. apply (rml_hread (bus := bus)), Hh. lia.
    + by split.
Qed.

Lemma dma_read_ok a bytes x :
  dma_ok x -> 0 <= a < rm_limit -> a + Z.of_nat (length bytes) <= rm_limit -> Forall (fun v => 0 <= v < 256) bytes ->
  exists x', bus_read bus a bytes x = Ret (bytes_at (rm_rd x.2) a (length bytes), x') /\ dma_effect (rm_rd x.2) x'.
Proof. apply (bus_do_ok false). Qed.

Lemma dma_write_ok a bytes x :
  dma_ok x -> 0 <= a < rm_limit -> a + Z.of_nat (length bytes) <= rm_limit -> Forall (fun v => 0 <= v < 256) bytes ->
  exists x', bus_write bus a bytes x = Ret (tt, x') /\ dma_effect (write_at (rm_rd x.2) a bytes) x'.
Proof.
  intros Hd Ha Hn Hb. destruct (bus_do_ok true a bytes x Hd Ha Hn Hb) as (x' & E & He). exists x'. split; [|done].
  unfold bus_write, sm_bind. by rewrite E.
Qed.
End DmaSpec.

(** ** Runs of a device *)

Section Runs.
Context {S W : Type} (bus : dma_bus W) `{!RegMemory bus} `{!RegMemoryLaws bus}.

(** [m], started with registers [x] and memory [f], returns [a] and ends with [x'] and
    [f'], whatever the DMI pointer. *)
Definition runs {A} (m : SM (S * (dma * W)) A) (x : S) (f : contents) (a : A) (x' : S) (f' : contents) : Prop :=
  forall y, contents_eq (rm_rd y.2) f -> dma_ok bus y ->
  exists y', m (x, y) = Ret (a, (x', y')) /\ contents_eq (rm_rd y'.2) f' /\ dma_ok bus y'.

Lemma runs_bind {A B} (m : SM (S * (dma * W)) A) (k : A -> SM (S * (dma * W)) B) x f a x1 f1 b x2 f2 :
  runs m x f a x1 f1 -> runs (k a) x1 f1 b x2 f2 -> runs (sm_bind m k) x f b x2 f2.
Proof.
  intros H1 H2 y Hf Hd. destruct (H1 y Hf Hd) as (y1 & E1 & Hf1 & Hd1).
  destruct (H2 y1 Hf1 Hd1) as (y2 & E2 & Hf2 & Hd2). exists y2. split; [|done]. unfold sm_bind. by rewrite E1.
Qed.

Lemma runs_ret {A} (a : A) x f : runs (sm_ret a) x f a x f.
Proof. intros y Hf Hd. by exists y. Qed.

Lemma runs_get {A} (g : S -> A) x f : runs (get g) x f (g x) x f.
Proof. intros y Hf Hd. by exists y. Qed.

Lemma runs_upd g x f : runs (upd g) x f tt (g x) f.
Proof. intros y Hf Hd. by exists y. Qed.

Lemma runs_read a bytes x f :
  0 <= a < rm_limit -> a + Z.of_nat (length bytes) <= rm_limit -> Forall (fun v => 0 <= v < 256) bytes ->
  runs (on_dma (bus_read bus a bytes)) x f (bytes_at f a (length bytes)) x f.
Proof.
  intros Ha Hn Hb y Hf Hd. destruct (dma_read_ok bus a bytes y Hd Ha Hn Hb) as (y' & E & Hf' & Hd').
  exists y'. unfold on_dma. cbn [snd]. rewrite E. split_and!; [by rewrite Hf|by rewrite Hf'|done].
Qed.

Lemma runs_write a bytes x f :
  0 <= a < rm_limit -> a + Z.of_nat (length bytes) <= rm_limit -> Forall (fun v => 0 <= v < 256) bytes ->
  runs (on_dma (bus_write bus a bytes)) x f tt x (write_at f a bytes).
Proof.
  intros Ha Hn Hb y Hf Hd. destruct (dma_write_ok bus a bytes y Hd Ha Hn Hb) as (y' & E & Hf' & Hd').
  exists y'. unfold on_dma. cbn [snd]. rewrite E. split_and!; [done| |done]. by rewrite Hf', Hf.
Qed.

Lemma runs_ext {A} (m : SM (S * (dma * W)) A) x f a x' f' f'' : contents_eq f' f'' -> runs m x f a x' f' -> runs m x f a x' f''.
Proof. intros He H y Hf Hd. destruct (H y Hf Hd) as (y' & ? & Hf' & ?). exists y'. split_and!; [done|by rewrite Hf'|done]. Qed.
End Runs.

(** ** Bytes *)

Definition bytes_ok (l : list Z) : Prop := Forall (fun v => 0 <= v < 256) l.

(** Memory holds bytes. *)
Definition mem_ok (f : contents) : Prop := forall a, 0 <= f a < 256.

Lemma bytes_at_ok f a n : mem_ok f -> bytes_ok (bytes_at f a n).
Proof. intros H. apply Forall_forall. intros v Hv. unfold bytes_at in Hv. apply in_map_iff in Hv as (i & <- & _). apply H. Qed.

Lemma mem_ok_write f a l : mem_ok f -> bytes_ok l -> mem_ok (write_at f a l).
Proof.
  intros Hf Hl x. unfold write_at. case_decide; [|done]. destruct (l !! Z.to_nat (x - a)) eqn:E; cbn; [|lia]. exact (Forall_lookup_1 _ _ _ _ Hl E).
Qed.

Lemma take_drop_at f a n d i k : take n d = bytes_at f a n -> (i + k <= n)%nat -> take k (drop i d) = bytes_at f (a + Z.of_nat i) k.
Proof.
  intros H Hik. rewrite take_drop_commute. replace (i + k)%nat with ((i + k) `min` n)%nat by lia.
  rewrite <- take_take, H. replace n with (i + (n - i))%nat by lia. rewrite bytes_at_app.
  rewrite take_app, length_bytes_at, take_ge by (rewrite length_bytes_at; lia).
  rewrite drop_app_length' by (rewrite length_bytes_at; done). replace (i + k - i)%nat with k by lia.
  replace (n - i)%nat with (k + (n - i - k))%nat by lia. rewrite bytes_at_app. by rewrite take_app_length' by (by rewrite length_bytes_at).
Qed.

(** Writing back bytes of which the first were replaced. *)
Lemma write_prefix f a n l : (length l <= n)%nat -> contents_eq (write_at f a (splice 0 l (bytes_at f a n))) (write_at f a l).
Proof.
  intros Hl x. unfold write_at. rewrite length_splice by (rewrite length_bytes_at; lia). rewrite length_bytes_at.
  case_decide as H1; case_decide as H2; try lia; try done; rewrite lookup_splice by (rewrite length_bytes_at; lia).
  - by rewrite decide_True, Nat.sub_0_r by lia.
  - rewrite decide_False, lookup_bytes_at by lia. cbn. f_equal. lia.
Qed.

Lemma ldiff_width w a b : 0 <= w -> 0 <= a < 2 ^ w -> 0 <= Z.ldiff a b < 2 ^ w.
Proof.
  intros Hw Ha. assert (Z.ldiff a b = Z.ldiff a b mod 2 ^ w) as ->.
  { rewrite <- Z.land_ones by done. apply Z.bits_inj'. intros n Hn. rewrite Z.land_spec, Z.ldiff_spec, Z.testbit_ones_nonneg by lia.
    destruct (Z.ltb_spec n w); [by rewrite andb_true_r|]. by rewrite (testbit_above w) by lia. }
  apply Z.mod_pos_bound. lia.
Qed.

(** ** Addresses in registers *)

(** Arithmetic with division by constants. *)
Ltac bytes := Z.to_euclidean_division_equations; lia.

Lemma land_ff x : Z.land x 0xff = x mod 256.
Proof. apply (Z.land_ones x 8). lia. Qed.

(** Two bytes put together. *)
Lemma lor_bytes a b n : 0 <= n -> 0 <= a < 2 ^ n -> Z.lor a (Z.shiftl b n) = a + b * 2 ^ n.
Proof.
  intros Hn Ha. rewrite Z.shiftl_mul_pow2, Z.lor_comm by done. rewrite (lor_add_aligned _ _ n); [lia|done| |done].
  apply Z.mod_mul. lia.
Qed.

(** A MAC address is stored in two registers, which read back what was written. *)
Lemma mac_registers m lo hi : 0 <= lo < 2 ^ 32 -> 0 <= hi < 2 ^ 16 ->
  let m' := set_lo lo (set_hi hi m) in mac_lo m' = lo /\ mac_hi m' = hi /\ length m' = 6%nat.
Proof.
  intros Hlo Hhi. cbv zeta. unfold set_lo, set_hi, mac_lo, mac_hi, mac_byte. cbn [lookup list_lookup default id].
  rewrite (wrap_small 16 hi) by done. rewrite !land_ff, !Z.shiftr_div_pow2 by lia.
  split_and!; [| |done].
  - replace (Z.shiftl ((lo / 2 ^ 24) mod 256) 24) with (Z.shiftl (Z.shiftl ((lo / 2 ^ 24) mod 256) 8) 16) by (by rewrite Z.shiftl_shiftl by lia).
    rewrite <- Z.shiftl_lor. rewrite (lor_bytes (lo mod 256)), (lor_bytes ((lo / 2 ^ 16) mod 256)), lor_bytes by bytes. bytes.
  - rewrite lor_bytes by bytes. bytes.
Qed.
