(* ===== verification/Dwmac.v ===== *)
(** * DesignWare Ethernet MAC

    [dwmac.h], [dwmac.cc]: the registers, interrupts and descriptor rings of the MAC, with
    checksum insertion.  A member that is a register is named by its address; [des] is a
    descriptor as bytes.  What an uninitialised descriptor holds is the parameter
    [garbage]. *)

From stdpp Require Import base list numbers option gmap.
From S2P Require Import Prelude Monad Registers Tlm RegProxy MacDma.

(** ** Registers *)

Definition DMA_BUS_MODE : Z := 0x1000.
Definition DMA_TX_POLL : Z := 0x1004.
Definition DMA_RX_POLL : Z := 0x1008.
Definition DMA_RX_DESC_LIST_ADDR : Z := 0x100C.
Definition DMA_TX_DESC_LIST_ADDR : Z := 0x1010.
Definition DMA_STATUS : Z := 0x1014.
Definition DMA_OPERATION_MODE : Z := 0x1018.
Definition DMA_INTERRUPTS : Z := 0x101C.
Definition DMA_COUNTERS : Z := 0x1020.
Definition DMA_AXI_BUS_MODE : Z := 0x1028.
Definition DMA_CURRENT_TX_DESC : Z := 0x1048.
Definition DMA_CURRENT_RX_DESC : Z := 0x104C.
Definition DMA_CURRENT_TX_BUF : Z := 0x1050.
Definition DMA_CURRENT_RX_BUF : Z := 0x1054.
Definition HW_FEATURE : Z := 0x1058.
Definition DWMAC_VERSION_VALUE : Z := 0x0010.
Definition DWMAC_CONFIGURATION : Z := 0x0000.
Definition DWMAC_FRAME_FILTER : Z := 0x0004.
Definition DWMAC_HASH_TABLE_HI : Z := 0x0008.
Definition DWMAC_HASH_TABLE_LO : Z := 0x000C.
Definition DWMAC_GMII_ADDRESS : Z := 0x0010.
Definition DWMAC_GMII_DATA : Z := 0x0014.
Definition DWMAC_FLOW_CONTROL : Z := 0x0018.
Definition DWMAC_VLAN_TAG : Z := 0x001C.
Definition DWMAC_VERSION : Z := 0x0020.
Definition DWMAC_WAKE_UP_FILTER : Z := 0x0028.
Definition DWMAC_PMT : Z := 0x002C.
Definition DWMAC_INTERRUPT_MASK : Z := 0x003C.
Definition DWMAC_MAC0_HI : Z := 0x0040.
Definition DWMAC_MAC0_LO : Z := 0x0044.
Definition DWMAC_MACn : Z := 0x0048.
Definition MACn_COUNT : Z := 15.

(** The hash table registers. *)
Definition is_htbl (a : Z) : bool := (0x500 <=? a) && (a <=? 0x51C).

(** ** Interrupts *)

Definition TX_STOPPED : Z := 0.
Definition TX_FETCHING : Z := 1.
Definition TX_READING : Z := 3.
Definition TX_SUSPENDED : Z := 6.
Definition TX_CLOSING : Z := 7.
Definition RX_STOPPED : Z := 0.
Definition RX_FETCHING : Z := 1.
Definition RX_SUSPENDED : Z := 4.
Definition RX_CLOSING : Z := 5.
Definition RX_TRANSFERRING : Z := 7.

Definition NIS_mask : Z := 0x4045.
Definition AIS_mask : Z := 0x27ba.
Definition NIS_bit : Z := 0x10000.
Definition AIS_bit : Z := 0x8000.
Definition IS_mask : Z := Z.lor NIS_mask AIS_mask.
Definition IS_bits : Z := Z.lor NIS_bit AIS_bit.
Definition RxBufUnavailable : Z := 0x80.
Definition RxInt : Z := 0x40.
Definition TxBufUnavailable : Z := 0x4.
Definition TxInt : Z := 0x1.

(** [len] bits of [x] from [start] on, replaced. *)
Definition put_bits (start len v x : Z) : Z :=
  Z.lor (Z.ldiff x (Z.shiftl (Z.ones len) start)) (Z.shiftl (Z.land v (Z.ones len)) start).

(** [InterruptRegister]; [m_dma_reg_status] is the value of the union. *)
Record InterruptRegister : Type := mk_intr {
  m_regstate_staled : bool;
  m_regstate : Z;
  m_regmask : Z;
  m_interrupts : Z;
  m_dma_reg_status : Z;
}.

Definition intr_reset : InterruptRegister := mk_intr false 0 0 0 0.

(** The status union written, without marking the register stale. *)
Definition put_status (start len v : Z) (i : InterruptRegister) : InterruptRegister :=
  mk_intr (m_regstate_staled i) (m_regstate i) (m_regmask i) (m_interrupts i) (put_bits start len v (m_dma_reg_status i)).
Definition set_stale (i : InterruptRegister) : InterruptRegister :=
  mk_intr true (m_regstate i) (m_regmask i) (m_interrupts i) (m_dma_reg_status i).

Definition setTxState (st : Z) (i : InterruptRegister) : InterruptRegister := set_stale (put_status 20 3 st i).
Definition setRxState (st : Z) (i : InterruptRegister) : InterruptRegister := set_stale (put_status 17 3 st i).
Definition getTxState (i : InterruptRegister) : Z := extract (m_dma_reg_status i) 20 3.
Definition getRxState (i : InterruptRegister) : Z := extract (m_dma_reg_status i) 17 3.

(** The summary bits that go with some interrupts under a mask. *)
Definition summary (ints mask : Z) : Z :=
  let ints := if negb (Z.land ints NIS_mask =? 0) && negb (Z.land mask NIS_bit =? 0) then Z.lor ints NIS_bit else ints in
  if negb (Z.land ints AIS_mask =? 0) && negb (Z.land mask AIS_bit =? 0) then Z.lor ints AIS_bit else ints.

Definition intr_clear (clear : Z) (i : InterruptRegister) : InterruptRegister :=
  let clear := Z.land clear (Z.lor IS_mask IS_bits) in
  let ints := Z.land (m_interrupts i) (Z.ldiff IS_mask clear) in
  mk_intr true (m_regstate i) (m_regmask i) (summary ints (m_regmask i)) (m_dma_reg_status i).

Definition intr_fire (ints : Z) (i : InterruptRegister) : InterruptRegister :=
  let ints := Z.land (Z.land ints (m_regmask i)) IS_mask in
  mk_intr true (m_regstate i) (m_regmask i) (Z.lor (m_interrupts i) (summary ints (m_regmask i))) (m_dma_reg_status i).

Definition has_interrupts (i : InterruptRegister) : bool := negb (Z.land (m_interrupts i) (m_regmask i) =? 0).

Definition set_interrupts (mask : Z) (i : InterruptRegister) : InterruptRegister :=
  mk_intr (m_regstate_staled i) (m_regstate i) (Z.land mask (Z.lor IS_mask IS_bits)) (m_interrupts i) (m_dma_reg_status i).

Definition set_status (v : Z) (i : InterruptRegister) : InterruptRegister :=
  intr_clear (Z.land v (Z.lor IS_mask IS_bits)) i.

(** [status ()] refreshes the cached value. *)
Definition intr_status (i : InterruptRegister) : Z * InterruptRegister :=
  if m_regstate_staled i then
    let v := Z.lor (m_interrupts i) (m_dma_reg_status i) in
    (v, mk_intr false v (m_regmask i) (m_interrupts i) (m_dma_reg_status i))
  else (m_regstate i, i).

(** ** Descriptors *)

Definition word (des : list Z) (i : nat) : Z := load_le (take 4 (drop (4 * i) des)).
Definition put_word (i : nat) (v : Z) (des : list Z) : list Z := splice (4 * i) (store_le 4 v) des.

(** Transmit descriptors. *)
Definition etx_interrupt (d : list Z) : bool := bit (word d 0) 30.
Definition etx_last_segment (d : list Z) : bool := bit (word d 0) 29.
Definition etx_first_segment (d : list Z) : bool := bit (word d 0) 28.
Definition etx_checksum_insertion (d : list Z) : Z := extract (word d 0) 22 2.
Definition etx_end_ring (d : list Z) : bool := bit (word d 0) 21.
Definition etx_chained (d : list Z) : bool := bit (word d 0) 20.
Definition etx_buffer1_size (d : list Z) : Z := extract (word d 1) 0 13.
Definition etx_buffer2_size (d : list Z) : Z := extract (word d 1) 16 13.

(** Receive descriptors. *)
Definition erx_buffer1_size (d : list Z) : Z := extract (word d 1) 0 13.
Definition erx_chained (d : list Z) : bool := bit (word d 1) 14.
Definition erx_end_ring (d : list Z) : bool := bit (word d 1) 15.
Definition erx_disable_ic (d : list Z) : bool := bit (word d 1) 31.
Definition des2 (d : list Z) : Z := word d 2.
Definition des3 (d : list Z) : Z := word d 3.

Definition disown (d : list Z) : list Z := put_word 0 (put_bits 31 1 0 (word d 0)) d.

(** What [rx] leaves in the descriptor of a frame of [n] bytes: its first word [w] is changed. *)
Definition rx_word (n w : Z) : Z :=
  put_bits 31 1 0 (put_bits 0 1 0 (put_bits 5 1 1 (put_bits 16 14 (n + 4) (put_bits 8 1 1 (put_bits 9 1 1 w))))).
Definition erx_done (n : Z) (d : list Z) : list Z := put_word 0 (rx_word n (word d 0)) d.

(** ** Checksums *)

Definition rd16 (buf : list Z) (off : Z) : Z := load_le (take 2 (drop (Z.to_nat off) buf)).
Definition wr16 (off v : Z) (buf : list Z) : list Z := splice (Z.to_nat off) (store_le 2 v) buf.
Definition rd8 (buf : list Z) (off : Z) : Z := default 0 (buf !! Z.to_nat off).

Fixpoint add_words (n : nat) (off : Z) (buf : list Z) (sum : Z) : Z :=
  match n with
  | O => sum
  | S n' => add_words n' (off + 2) buf (u32 (sum + rd16 buf off))
  end.

Fixpoint fold_sum (fuel : nat) (sum : Z) : Z :=
  match fuel with
  | O => sum
  | S fuel' => if Z.shiftr sum 16 =? 0 then sum else fold_sum fuel' (Z.land sum 0xFFFF + Z.shiftr sum 16)
  end.

(** [checksum (buf + off, size, sum)]. *)
Definition checksum (buf : list Z) (off size sum : Z) : Z :=
  let n := Z.to_nat (size / 2) in
  let sum := add_words n off buf sum in
  let sum := if Z.odd size then u32 (sum + rd8 buf (off + 2 * Z.of_nat n)) else sum in
  u16 (Z.lnot (fold_sum 3 sum)).

Definition htons (v : Z) : Z := Z.lor (Z.shiftl (Z.land v 0xff) 8) (Z.shiftr (u16 v) 8).

(** The IPv4 header checksum. *)
Definition insert_ipv4 (len : Z) (buf : list Z) : list Z :=
  let ihl := 4 * Z.land (rd8 buf 14) 0x0f in
  if 14 + ihl <=? len then
    let buf := wr16 24 0 buf in
    wr16 24 (checksum buf 14 ihl 0) buf
  else buf.

(** The sum of the pseudo header. *)
Definition pseudo_sum (buf : list Z) (size : Z) : Z :=
  u32 (rd16 buf 26 + rd16 buf 28 + rd16 buf 30 + rd16 buf 32 + htons (rd8 buf 23) + htons (u32 size)).

(** The TCP or UDP checksum. *)
Definition insert_l4 (len : Z) (buf : list Z) : list Z :=
  let ihl := 4 * Z.land (rd8 buf 14) 0x0f in
  let ip_prot := rd8 buf 23 in
  let csum_offset := if ip_prot =? 0x06 then 16 else 6 in
  let tcp_seg := 14 + ihl in
  let size := len - 14 - ihl in
  let buf := wr16 (tcp_seg + csum_offset) 0 buf in
  wr16 (tcp_seg + csum_offset) (checksum buf tcp_seg size (pseudo_sum buf size)) buf.

Definition insert_checksums (ci len : Z) (buf : list Z) : list Z :=
  if (14 <=? len) && (rd8 buf 12 =? 0x08) && (rd8 buf 13 =? 0x00) then
    let buf := insert_ipv4 len buf in
    let ip_prot := rd8 buf 23 in
    if (ci =? 3) && (24 <=? len) && ((ip_prot =? 0x06) || (ip_prot =? 0x11)) then insert_l4 len buf else buf
  else buf.

(** ** State *)

(** [m_mac_0] is the first of [macs], [m_mac_n] the others.  [sent] are the frames given to
    the back end, the latest last. *)
Record dwmac : Type := mk_dwmac {
  regs : gmap Z Z;
  intr : InterruptRegister;
  macs : list MACAddress;
  phy_inst : phy;
  m_tx_frame : Payload;
  m_tx_event : bool;
  intr_wake : bool;
  intr0 : bool;
  sent : list (list Z);
}.

Definition set_regs f (s : dwmac) := mk_dwmac f (intr s) (macs s) (phy_inst s) (m_tx_frame s) (m_tx_event s) (intr_wake s) (intr0 s) (sent s).
Definition set_intr i (s : dwmac) := mk_dwmac (regs s) i (macs s) (phy_inst s) (m_tx_frame s) (m_tx_event s) (intr_wake s) (intr0 s) (sent s).
Definition set_macs l (s : dwmac) := mk_dwmac (regs s) (intr s) l (phy_inst s) (m_tx_frame s) (m_tx_event s) (intr_wake s) (intr0 s) (sent s).
Definition set_phy p (s : dwmac) := mk_dwmac (regs s) (intr s) (macs s) p (m_tx_frame s) (m_tx_event s) (intr_wake s) (intr0 s) (sent s).
Definition set_frame f (s : dwmac) := mk_dwmac (regs s) (intr s) (macs s) (phy_inst s) f (m_tx_event s) (intr_wake s) (intr0 s) (sent s).
Definition set_tx_event b (s : dwmac) := mk_dwmac (regs s) (intr s) (macs s) (phy_inst s) (m_tx_frame s) b (intr_wake s) (intr0 s) (sent s).
Definition set_wake b (s : dwmac) := mk_dwmac (regs s) (intr s) (macs s) (phy_inst s) (m_tx_frame s) (m_tx_event s) b (intr0 s) (sent s).
Definition set_intr0 b (s : dwmac) := mk_dwmac (regs s) (intr s) (macs s) (phy_inst s) (m_tx_frame s) (m_tx_event s) (intr_wake s) b (sent s).
Definition set_sent l (s : dwmac) := mk_dwmac (regs s) (intr s) (macs s) (phy_inst s) (m_tx_frame s) (m_tx_event s) (intr_wake s) (intr0 s) l.

Definition reg (r : Z) (s : dwmac) : Z := default 0 (regs s !! r).
Definition put_reg (r v : Z) (s : dwmac) : dwmac := set_regs (<[r := u32 v]> (regs s)) s.

(** [desc_size ()] and the distance to the next descriptor. *)
Definition desc_size (s : dwmac) : Z := if bit (reg DMA_BUS_MODE s) 7 then 32 else 16.
Definition desc_skip (s : dwmac) : Z := desc_size s + extract (reg DMA_BUS_MODE s) 2 5 * 4.

Section Model.
Context {W : Type} (bus : dma_bus W) (garbage : list Z).

Abbreviation M := (SM (dwmac * (dma * W))).

Definition upd_intr (f : InterruptRegister -> InterruptRegister) : M unit := upd (fun s => set_intr (f (intr s)) s).

Definition interrupts_fire (ints : Z) : M unit := upd_intr (intr_fire ints) ;;! upd (set_wake true).

Definition reset_values : gmap Z Z := list_to_map
  (map (fun r => (r, 0)) [DMA_BUS_MODE; DMA_RX_DESC_LIST_ADDR; DMA_TX_DESC_LIST_ADDR; DMA_OPERATION_MODE; DMA_COUNTERS;
     DMA_CURRENT_TX_DESC; DMA_CURRENT_RX_DESC; DMA_CURRENT_TX_BUF; DMA_CURRENT_RX_BUF; DWMAC_CONFIGURATION;
     DWMAC_FRAME_FILTER; DWMAC_HASH_TABLE_LO; DWMAC_HASH_TABLE_HI; DWMAC_GMII_ADDRESS; DWMAC_FLOW_CONTROL;
     DWMAC_VLAN_TAG; DWMAC_PMT]
   ++ [(DMA_AXI_BUS_MODE, 0x00110001)]).

(** [reset ()]: the hash table and the interrupt mask keep their values. *)
Definition reset : M unit := upd (fun s =>
  set_macs (replicate (1 + Z.to_nat MACn_COUNT) mac_zero)
    (set_intr intr_reset (set_regs (union reset_values (regs s)) s))).

(** ** Descriptors *)

(** A descriptor read into [old]: whether it is owned by the MAC, and its bytes. *)
Definition read_desc (r : Z) (old : list Z) : M (bool * list Z) :=
  do! a := get (reg r) in
  do! n := get desc_size in
  do! l := on_dma (bus_read bus a (take (Z.to_nat n) old)) in
  let d := splice 0 l old in
  sm_ret (bit (word d 0) 31, d).

Definition read_tx_desc : list Z -> M (bool * list Z) := read_desc DMA_CURRENT_TX_DESC.
Definition read_rx_desc : list Z -> M (bool * list Z) := read_desc DMA_CURRENT_RX_DESC.

Definition write_desc (a : Z) (d : list Z) : M unit :=
  do! n := get desc_size in on_dma (bus_write bus a (take (Z.to_nat n) d)).

Definition move_to_next_tx_desc (d : list Z) : M unit :=
  if etx_end_ring d then upd (fun s => put_reg DMA_CURRENT_TX_DESC (reg DMA_TX_DESC_LIST_ADDR s) s)
  else if etx_chained d then upd (put_reg DMA_CURRENT_TX_DESC (des3 d))
  else if (0 <? etx_buffer2_size d) || negb (des3 d =? 0) then sm_fail StopExit
  else upd (fun s => put_reg DMA_CURRENT_TX_DESC (reg DMA_CURRENT_TX_DESC s + desc_skip s) s).

(** ** Transmission *)

(** [size] more bytes of the frame, from guest address [a] into the buffer. *)
Definition fetch (a size : Z) : M unit :=
  do! f := get m_tx_frame in
  let off := m_size f in
  match frame_resize (off + size) f with
  | Err e => sm_fail e
  | Ret f =>
      do! l := on_dma (bus_read bus a (take (Z.to_nat size) (drop (Z.to_nat off) (m_buffer f)))) in
      upd (set_frame (frame_store off l f))
  end.

(** The rest of the frame after the segment of [d]: the last descriptor. *)
Fixpoint segments (fuel : nat) (d : list Z) : M (list Z) :=
  if etx_last_segment d then sm_ret d
  else match fuel with
       | O => sm_fail StopUndef
       | S fuel' =>
           do! cur := get (reg DMA_CURRENT_TX_DESC) in
           move_to_next_tx_desc d ;;!
           let d := disown d in
           write_desc cur d ;;!
           do! (own, d) := read_tx_desc d in
           if negb own then sm_fail StopExit
           else fetch (des2 d) (etx_buffer1_size d) ;;! segments fuel' d
       end.

(** Checksum insertion, if the configuration and the last descriptor ask for it. *)
Definition offload (d : list Z) : M unit :=
  do! c := get (reg DWMAC_CONFIGURATION) in
  let ci := etx_checksum_insertion d in
  if bit c 10 && negb (ci =? 0) then
    upd (fun s => set_frame (mk_frame (insert_checksums ci (m_size (m_tx_frame s)) (m_buffer (m_tx_frame s)))
                                      (m_size (m_tx_frame s))) s)
  else sm_ret tt.

(** The gathered frame, with its last descriptor: sent, and the descriptor given back. *)
Definition tx_finish (d : list Z) : M bool :=
  do! size := get (fun s => m_size (m_tx_frame s)) in
  if size <? 14 then upd_intr (setTxState TX_SUSPENDED) ;;! sm_ret false
  else
    offload d ;;!
    upd (fun s => set_sent (sent s ++ [frame_bytes (m_tx_frame s)]) s) ;;!
    upd_intr (setTxState TX_CLOSING) ;;!
    do! cur := get (reg DMA_CURRENT_TX_DESC) in
    let d := disown d in
    write_desc cur d ;;!
    move_to_next_tx_desc d ;;!
    sm_when (etx_interrupt d) (interrupts_fire TxInt) ;;!
    upd_intr (setTxState TX_SUSPENDED) ;;!
    sm_ret true.

Definition tx (fuel : nat) : M bool :=
  do! st := get (fun s => getTxState (intr s)) in
  if negb (st =? TX_SUSPENDED) then sm_ret false
  else
    upd_intr (setTxState TX_FETCHING) ;;!
    do! (own, d) := read_tx_desc garbage in
    if negb own then upd_intr (setTxState TX_SUSPENDED) ;;! interrupts_fire TxBufUnavailable ;;! sm_ret false
    else if negb (etx_first_segment d) then upd_intr (setTxState TX_SUSPENDED) ;;! sm_ret false
    else
      upd_intr (setTxState TX_READING) ;;!
      upd (fun s => set_frame (mk_frame (m_buffer (m_tx_frame s)) 0) s) ;;!
      fetch (des2 d) (etx_buffer1_size d) ;;!
      do! d := segments fuel d in
      tx_finish d.

(** [while (tx ())]. *)
Fixpoint tx_all (n fuel : nat) : M unit :=
  match n with
  | O => sm_fail StopUndef
  | S n' => do! more := tx fuel in if (more : bool) then tx_all n' fuel else sm_ret tt
  end.

(** A turn of [tx_thread] after its event. *)
Definition tx_turn (n fuel : nat) : M unit :=
  upd (set_tx_event false) ;;!
  do! st := get (fun s => getTxState (intr s)) in
  if st =? TX_STOPPED then sm_ret tt else tx_all n fuel.

(** A turn of [intr_thread]. *)
Definition intr_turn : M unit :=
  upd (set_wake false) ;;! upd (fun s => set_intr0 (has_interrupts (intr s)) s).

(** ** Reception *)

(** [rx] moves on to the next descriptor. *)
Definition next_rx_desc (d : list Z) : M unit :=
  if erx_end_ring d then upd (fun s => put_reg DMA_CURRENT_RX_DESC (reg DMA_RX_DESC_LIST_ADDR s) s)
  else if erx_chained d then upd (put_reg DMA_CURRENT_RX_DESC (des3 d))
  else upd (fun s => put_reg DMA_CURRENT_RX_DESC (reg DMA_CURRENT_RX_DESC s + desc_skip s) s).

Definition rx (frame : list Z) : M bool :=
  let size := Z.of_nat (length frame) in
  if size <? 14 then sm_ret false
  else
    do! opr := get (reg DMA_OPERATION_MODE) in
    if negb (bit opr 1) then sm_ret false
    else
      do! st := get (fun s => getRxState (intr s)) in
      if negb (st =? RX_SUSPENDED) then sm_ret false
      else
        upd_intr (setRxState RX_FETCHING) ;;!
        do! (own, d) := read_rx_desc garbage in
        if negb own then upd_intr (setRxState RX_SUSPENDED) ;;! interrupts_fire RxBufUnavailable ;;! sm_ret false
        else
          upd_intr (setRxState RX_TRANSFERRING) ;;!
          if erx_buffer1_size d <? size then sm_ret false
          else
            on_dma (bus_write bus (des2 d) frame) ;;!
            upd_intr (setRxState RX_CLOSING) ;;!
            let d := erx_done size d in
            do! cur := get (reg DMA_CURRENT_RX_DESC) in
            write_desc cur d ;;!
            next_rx_desc d ;;!
            sm_when (negb (erx_disable_ic d)) (interrupts_fire RxInt) ;;!
            upd_intr (setRxState RX_SUSPENDED) ;;!
            sm_ret true.

Definition payload_recv (frame : list Z) : M unit :=
  do! st := get (fun s => getRxState (intr s)) in
  if st =? RX_STOPPED then sm_ret tt else do! _ := rx frame in sm_ret tt.

(** ** Register accesses *)

(** The MAC address registers: which address, and which half. *)
Definition mac_reg (a : Z) : option (nat * bool) :=
  if (DWMAC_MACn <=? a) && (a <? DWMAC_MACn + MACn_COUNT * 8) then
    Some (S (Z.to_nat (Z.shiftr (a - DWMAC_MACn) 3)), bit (a - DWMAC_MACn) 2)
  else if a =? DWMAC_MAC0_HI then Some (O, false)
  else if a =? DWMAC_MAC0_LO then Some (O, true)
  else None.

(** Registers that are read as the member they name. *)
Definition plain (a : Z) : bool :=
  bool_decide (a ∈ [DMA_BUS_MODE; DMA_RX_DESC_LIST_ADDR; DMA_TX_DESC_LIST_ADDR; DMA_OPERATION_MODE; DMA_COUNTERS;
    DMA_CURRENT_TX_DESC; DMA_CURRENT_RX_DESC; DMA_CURRENT_TX_BUF; DMA_CURRENT_RX_BUF; DWMAC_CONFIGURATION;
    DWMAC_FRAME_FILTER; DWMAC_HASH_TABLE_HI; DWMAC_HASH_TABLE_LO; DWMAC_GMII_ADDRESS; DWMAC_FLOW_CONTROL;
    DWMAC_VLAN_TAG; DWMAC_PMT; DWMAC_INTERRUPT_MASK; DMA_AXI_BUS_MODE]) || is_htbl a.

(** Registers that are assigned and nothing else. *)
Definition plain_write (a : Z) : bool :=
  bool_decide (a ∈ [DMA_COUNTERS; DWMAC_CONFIGURATION; DWMAC_FRAME_FILTER; DWMAC_HASH_TABLE_HI; DWMAC_HASH_TABLE_LO;
    DWMAC_FLOW_CONTROL; DWMAC_VLAN_TAG; DWMAC_PMT; DWMAC_INTERRUPT_MASK; DMA_AXI_BUS_MODE]) || is_htbl a.

Definition hw_feature : Z := Z.lor (Z.ldiff 0x10D7F37 (Z.shiftl 1 14)) (Z.shiftl 1 24).

Definition gmii_gr (v : Z) : Z := extract v 6 5.
Definition gmii_pa (v : Z) : Z := extract v 11 5.

Definition read_word (a : Z) : M Z :=
  if negb (Z.land a 3 =? 0) then sm_ret 0
  else match mac_reg a with
  | Some (i, islow) => get (fun s => let m := default mac_zero (macs s !! i) in if islow then mac_lo m else mac_hi m)
  | None =>
      if plain a then get (reg a)
      else if a =? DMA_STATUS then
        fun s => let '(v, i) := intr_status (intr s.1) in Ret (v, (set_intr i s.1, s.2))
      else if a =? DMA_INTERRUPTS then get (fun s => m_regmask (intr s))
      else if a =? DWMAC_GMII_DATA then
        get (fun s => let g := reg DWMAC_GMII_ADDRESS s in
                      if gmii_pa g =? 0 then mdio_reg_read (gmii_gr g) (phy_inst s) else 0xffff)
      else if a =? DWMAC_VERSION then sm_ret DWMAC_VERSION_VALUE
      else if a =? DWMAC_WAKE_UP_FILTER then sm_fail StopAssert
      else if a =? HW_FEATURE then sm_ret hw_feature
      else sm_ret 0
  end.

Definition write_word (a v : Z) : M unit :=
  if negb (Z.land a 3 =? 0) then sm_ret tt
  else match mac_reg a with
  | Some (i, islow) =>
      upd (fun s => set_macs (alter (if islow then set_lo v else set_hi v) i (macs s)) s)
  | None =>
      if plain_write a then upd (put_reg a v)
      else if a =? DMA_BUS_MODE then upd (put_reg DMA_BUS_MODE v) ;;! sm_when (bit v 0) reset
      else if a =? DMA_TX_POLL then
        do! (own, _) := read_tx_desc garbage in
        sm_when (negb own) (upd_intr (put_status 2 1 1)) ;;!
        upd_intr (setTxState TX_SUSPENDED) ;;! upd (set_tx_event true)
      else if a =? DMA_RX_POLL then
        do! (own, _) := read_rx_desc garbage in
        sm_when (negb own) (upd_intr (put_status 7 1 0)) ;;!
        upd_intr (setRxState RX_SUSPENDED)
      else if a =? DMA_RX_DESC_LIST_ADDR then
        upd (fun s => if getRxState (intr s) =? RX_STOPPED
                      then put_reg DMA_CURRENT_RX_DESC v (put_reg DMA_RX_DESC_LIST_ADDR v s) else s)
      else if a =? DMA_TX_DESC_LIST_ADDR then
        upd (fun s => if getTxState (intr s) =? TX_STOPPED
                      then put_reg DMA_CURRENT_TX_DESC v (put_reg DMA_TX_DESC_LIST_ADDR v s) else s)
      else if a =? DMA_STATUS then upd_intr (set_status v) ;;! upd (set_wake true)
      else if a =? DMA_OPERATION_MODE then
        upd (put_reg DMA_OPERATION_MODE (put_bits 20 1 0 v)) ;;!
        sm_when (bit v 1) (upd (fun s => if getRxState (intr s) =? RX_STOPPED
                                          then set_intr (setRxState RX_SUSPENDED (intr s)) s else s)) ;;!
        sm_when (bit v 13) (upd (fun s => if getTxState (intr s) =? TX_STOPPED
                                          then set_tx_event true (set_intr (setTxState TX_SUSPENDED (intr s)) s) else s))
      else if a =? DMA_INTERRUPTS then upd_intr (set_interrupts v) ;;! upd (set_wake true)
      else if a =? DWMAC_GMII_ADDRESS then upd (put_reg DWMAC_GMII_ADDRESS (put_bits 0 1 0 v))
      else if a =? DWMAC_GMII_DATA then
        upd (fun s => let g := reg DWMAC_GMII_ADDRESS s in
                      if gmii_pa g =? 0 then set_phy (mdio_reg_write (gmii_gr g) v (phy_inst s)) s else s)
      else if a =? DWMAC_WAKE_UP_FILTER then sm_fail StopAssert
      else sm_ret tt
  end.

(** [b_transport]: four bytes, whatever the length. *)
Definition b_transport (t : payload) : M payload :=
  let t := set_response_status TLM_OK_RESPONSE (set_dmi_allowed false t) in
  let a := u32 (address t) in
  match command t with
  | TLM_IGNORE_COMMAND => sm_ret t
  | c =>
      if (length (data t) <? 4)%nat then sm_fail StopUndef
      else match c with
      | TLM_WRITE_COMMAND => write_word a (load_le (take 4 (data t))) ;;! sm_ret t
      | _ => do! v := read_word a in sm_ret (set_data (splice 0 (store_le 4 v) (data t)) t)
      end
  end.
End Model.

(** ** Checksums *)

(** The words of [n] pairs of bytes from [off] on, added up. *)
Fixpoint word_sum (n : nat) (off : Z) (buf : list Z) : Z :=
  match n with
  | O => 0
  | S n' => rd16 buf off + word_sum n' (off + 2) buf
  end.

Lemma rd16_range buf off : bytes_ok buf -> 0 <= rd16 buf off < 2 ^ 16.
Proof.
  intros Hb. unfold rd16. set (l := take 2 _). assert (Forall (fun v => 0 <= v < 256) l) as Hl by (by apply Forall_take, Forall_drop).
  pose proof (load_le_bound l Hl) as H. assert (length l <= 2)%nat as Hn by (unfold l; rewrite length_take; lia).
  assert (2 ^ (8 * Z.of_nat (length l)) <= 2 ^ 16) by (apply Z.pow_le_mono_r; lia). lia.
Qed.

Lemma rd8_range buf off : bytes_ok buf -> 0 <= rd8 buf off < 256.
Proof.
  intros Hb. unfold rd8. destruct (buf !! Z.to_nat off) eqn:E; cbn; [|lia]. exact (Forall_lookup_1 _ _ _ _ Hb E).
Qed.

Lemma word_sum_range n off buf : bytes_ok buf -> 0 <= word_sum n off buf <= Z.of_nat n * 65535.
Proof.
  intros Hb. revert off. induction n as [|n IH]; intros off; cbn [word_sum]; [lia|].
  pose proof (rd16_range buf off Hb). pose proof (IH (off + 2)). lia.
Qed.

Lemma add_words_sum n off buf sum : bytes_ok buf -> 0 <= sum -> sum + Z.of_nat n * 65535 < 2 ^ 32 ->
  add_words n off buf sum = sum + word_sum n off buf.
Proof.
  intros Hb. revert off sum. induction n as [|n IH]; intros off sum Hs Hlt; cbn [add_words word_sum]; [lia|].
  pose proof (rd16_range buf off Hb). rewrite (wrap_small 32) by (unfold in_width; lia). rewrite IH; lia.
Qed.

(** Two folds bring a sum to 16 bits: the sum modulo [0xffff], nonzero if the sum is. *)
Lemma fold_sum_spec s : 0 <= s < 2 ^ 32 ->
  let r := fold_sum 3 s in 0 <= r < 2 ^ 16 /\ (r mod 65535 = s mod 65535) /\ (r = 0 <-> s = 0).
Proof.
  intros Hs. assert (forall x, 0 <= x < 2 ^ 32 -> Z.land x 0xFFFF + x / 65536 = x - 65535 * (x / 65536)) as Hstep.
  { intros x Hx. change (Z.land x 0xFFFF) with (Z.land x (Z.ones 16)). rewrite Z.land_ones by lia.
    change (2 ^ 16) with 65536. pose proof (Z.div_mod x 65536 ltac:(lia)). lia. }
  cbn [fold_sum]. assert (forall x, Z.shiftr x 16 = x / 65536) as Hshift by (intros; by rewrite Z.shiftr_div_pow2 by lia).
  rewrite !Hshift. set (s1 := Z.land s 0xFFFF + s / 65536). assert (s1 = s - 65535 * (s / 65536)) as E1 by (by apply Hstep).
  set (s2 := Z.land s1 0xFFFF + s1 / 65536). pose proof (Z.div_mod s 65536 ltac:(lia)) as D1. pose proof (Z.mod_pos_bound s 65536 ltac:(lia)).
  assert (0 <= s / 65536 < 65536) by (split; [apply Z.div_pos; lia|apply Z.div_lt_upper_bound; lia]).
  assert (s2 = s1 - 65535 * (s1 / 65536)) as E2 by (apply Hstep; lia).
  pose proof (Z.div_mod s1 65536 ltac:(lia)) as D2. pose proof (Z.mod_pos_bound s1 65536 ltac:(lia)).
  assert (s1 mod 65535 = s mod 65535) as M1 by (rewrite E1; replace (s - 65535 * (s / 65536)) with (s + (- (s / 65536)) * 65535) by lia; apply Z.mod_add; lia).
  assert (s2 mod 65535 = s1 mod 65535) as M2 by (rewrite E2; replace (s1 - 65535 * (s1 / 65536)) with (s1 + (- (s1 / 65536)) * 65535) by lia; apply Z.mod_add; lia).
  destruct (Z.eqb_spec (s / 65536) 0) as [Hq|Hq]; [split_and!; lia|].
  destruct (Z.eqb_spec (s1 / 65536) 0) as [Hq1|Hq1]; [split_and!; lia|].
  assert (s2 / 65536 = 0) as -> by (apply Z.div_small; lia). cbn [Z.eqb]. split_and!; lia.
Qed.

(** The odd byte at the end. *)
Definition tail_byte (buf : list Z) (off size : Z) : Z :=
  if Z.odd size then rd8 buf (off + 2 * Z.of_nat (Z.to_nat (size / 2))) else 0.

Lemma tail_byte_range buf off size : bytes_ok buf -> 0 <= tail_byte buf off size < 256.
Proof. intros Hb. unfold tail_byte. destruct (Z.odd size); [by apply rd8_range|lia]. Qed.

(** The checksum is the complement of the folded sum. *)
Lemma checksum_spec buf off size sum : bytes_ok buf -> 0 <= size -> 0 <= sum -> sum + size * 65535 + 255 < 2 ^ 32 ->
  checksum buf off size sum = 65535 - fold_sum 3 (sum + word_sum (Z.to_nat (size / 2)) off buf + tail_byte buf off size).
Proof.
  intros Hb Hz Hs Hlt. unfold checksum, tail_byte. set (n := Z.to_nat (size / 2)).
  pose proof (Z.mul_div_le size 2 ltac:(lia)). pose proof (Z.div_pos size 2 Hz ltac:(lia)).
  assert (Z.of_nat n <= size) by (unfold n; lia). pose proof (word_sum_range n off buf Hb).
  rewrite add_words_sum by (try done; lia). pose proof (rd8_range buf (off + 2 * Z.of_nat n) Hb).
  set (t := if Z.odd size then _ else 0). replace (if Z.odd size then _ else _) with (sum + word_sum n off buf + t);
    [|unfold t; destruct (Z.odd size); [by rewrite wrap_small by (unfold in_width; lia)|lia]].
  assert (0 <= t < 256) by (unfold t; destruct (Z.odd size); lia).
  destruct (fold_sum_spec (sum + word_sum n off buf + t)) as (Hr & _); [lia|]. set (r := fold_sum 3 _) in *.
  unfold wrap, Z.lnot. replace (Z.pred (- r)) with (65535 - r + (-1) * 2 ^ 16) by lia. rewrite Z.mod_add, Z.mod_small by lia. done.
Qed.

(** A sum to which the complement of its fold was added folds to all ones. *)
Lemma complement_sum s : 0 <= s -> s + 65535 < 2 ^ 32 -> fold_sum 3 (s + (65535 - fold_sum 3 s)) = 65535.
Proof.
  intros Hs Hlt. destruct (fold_sum_spec s ltac:(lia)) as (Hr & Hm & Hz). set (r := fold_sum 3 s) in *.
  destruct (fold_sum_spec (s + (65535 - r)) ltac:(lia)) as (Hr' & Hm' & Hz'). set (r' := fold_sum 3 (s + (65535 - r))) in *.
  assert ((s + (65535 - r)) mod 65535 = 0) as H0.
  { rewrite Zplus_mod, Zminus_mod, <- Hm, Z.mod_same by lia. rewrite Z.sub_0_l. rewrite Z.add_mod_idemp_r by lia.
    replace (r mod 65535 + - (r mod 65535)) with 0 by lia. done. }
  rewrite H0 in Hm'. assert (r' <> 0) by (intros E%Hz'; assert (s = 0) as Hs0 by lia; apply Hz in Hs0; lia).
  apply Z.mod_divide in Hm' as [q Hq]; [|lia]. lia.
Qed.

Lemma rd16_wr16_eq buf off v : 0 <= off -> off + 2 <= Z.of_nat (length buf) -> 0 <= v < 2 ^ 16 -> rd16 (wr16 off v buf) off = v.
Proof.
  intros Ho Hl Hv. unfold rd16, wr16. pose proof (splice_read_back (Z.to_nat off) (store_le 2 v) buf) as H.
  rewrite length_store_le in H. rewrite H by lia. rewrite load_store_le. by apply Z.mod_small.
Qed.

Lemma rd16_wr16_ne buf off v k : 0 <= off -> off + 2 <= Z.of_nat (length buf) -> 0 <= k -> k + 2 <= off \/ off + 2 <= k ->
  rd16 (wr16 off v buf) k = rd16 buf k.
Proof.
  intros Ho Hl Hk Hd. unfold rd16, wr16. f_equal. apply list_eq. intros i. destruct (decide (i < 2)%nat); [|by rewrite !lookup_take_ge by lia].
  rewrite !lookup_take_lt, !lookup_drop by lia. rewrite lookup_splice by (rewrite length_store_le; lia).
  rewrite length_store_le. by rewrite decide_False by lia.
Qed.

(** The sum after the word at [off + 2 k] was changed. *)
Lemma word_sum_wr16 n off buf k v : 0 <= off -> off + 2 * Z.of_nat n <= Z.of_nat (length buf) -> (k < n)%nat -> 0 <= v < 2 ^ 16 ->
  word_sum n off (wr16 (off + 2 * Z.of_nat k) v buf) = word_sum n off buf - rd16 buf (off + 2 * Z.of_nat k) + v.
Proof.
  revert off k. assert (forall n off c, 0 <= off -> c + 2 <= Z.of_nat (length buf) -> 0 <= c -> c + 2 <= off \/ off + 2 * Z.of_nat n <= c ->
    word_sum n off (wr16 c v buf) = word_sum n off buf) as Hout.
  { induction n0 as [|n0 IH]; intros off c Ho Hc Hc0 Hd; cbn [word_sum]; [done|]. rewrite rd16_wr16_ne, IH by lia. done. }
  induction n as [|n IH]; intros off k Ho Hl Hk Hv; [lia|]. cbn [word_sum]. destruct k as [|k].
  - rewrite Z.add_0_r, rd16_wr16_eq, Hout by lia. lia.
  - replace (off + 2 * Z.of_nat (S k)) with (off + 2 + 2 * Z.of_nat k) by lia. rewrite rd16_wr16_ne, IH by lia. lia.
Qed.

Lemma bytes_ok_wr16 off v buf : bytes_ok buf -> bytes_ok (wr16 off v buf).
Proof. intros Hb. unfold wr16, splice. apply Forall_app. split; [by apply Forall_take|]. apply Forall_app. split; [apply store_le_bytes|by apply Forall_drop]. Qed.

Lemma length_wr16 off v buf : 0 <= off -> off + 2 <= Z.of_nat (length buf) -> length (wr16 off v buf) = length buf.
Proof. intros. unfold wr16. apply length_splice. rewrite length_store_le. lia. Qed.

Lemma rd8_wr16_ne buf off v k : 0 <= off -> off + 2 <= Z.of_nat (length buf) -> 0 <= k -> k < off \/ off + 2 <= k ->
  rd8 (wr16 off v buf) k = rd8 buf k.
Proof.
  intros Ho Hl Hk Hd. unfold rd8, wr16. rewrite lookup_splice by (rewrite length_store_le; lia).
  rewrite length_store_le. by rewrite decide_False by lia.
Qed.

(** Inserting a checksum into the word [k] of [size] bytes makes the sum of all of them,
    with the start value, verify. *)
Lemma insert_verifies buf off size k sum :
  bytes_ok buf -> 0 <= off -> 0 <= size -> off + size <= Z.of_nat (length buf) -> 0 <= k -> 2 * k + 2 <= size -> 0 <= sum ->
  sum + size * 65535 + 131070 < 2 ^ 32 ->
  let c := off + 2 * k in
  let z := wr16 c 0 buf in
  checksum (wr16 c (checksum z off size sum) z) off size sum = 0.
Proof.
  intros Hb Ho Hz Hl Hk. destruct (Z_of_nat_complete k Hk) as [k' ->]. intros Hks Hs Hlt c z. assert (bytes_ok z) as Hzb by (by apply bytes_ok_wr16).
  assert (length z = length buf) as Hlz by (apply length_wr16; subst c; lia).
  rewrite (checksum_spec z) by (try done; lia). set (n := Z.to_nat (size / 2)). set (r := fold_sum 3 _).
  assert (Z.of_nat n = size / 2) as Hn by (unfold n; rewrite Z2Nat.id; [done|apply Z.div_pos; lia]).
  pose proof (Z.mul_div_le size 2 ltac:(lia)). pose proof (Z.mul_succ_div_gt size 2 ltac:(lia)).
  pose proof (word_sum_range n off z Hzb) as Hws. pose proof (tail_byte_range z off size Hzb).
  destruct (fold_sum_spec (sum + word_sum n off z + tail_byte z off size) ltac:(lia)) as (Hr & _). fold r in Hr.
  rewrite checksum_spec; [|by apply bytes_ok_wr16|lia..]. fold n. subst c.
  rewrite word_sum_wr16 by (rewrite ?Hlz; lia).
  replace (rd16 z (off + 2 * Z.of_nat k')) with 0 by (symmetry; apply rd16_wr16_eq; lia).
  replace (tail_byte (wr16 _ _ z) off size) with (tail_byte z off size).
  - replace (sum + _ + _) with (sum + word_sum n off z + tail_byte z off size + (65535 - r)) by lia. unfold r. rewrite complement_sum by lia. lia.
  - unfold tail_byte. destruct (Z.odd size) eqn:Eo; [|done]. fold n. by rewrite rd8_wr16_ne by (rewrite ?Hlz; lia).
Qed.

(** The header length a frame gives, and the sums that the MAC makes zero. *)
Definition ihl_of (buf : list Z) : Z := 4 * Z.land (rd8 buf 14) 0x0f.
Definition ipv4_zero (buf : list Z) : Prop := checksum buf 14 (ihl_of buf) 0 = 0.
Definition l4_zero (len : Z) (buf : list Z) : Prop :=
  let size := len - 14 - ihl_of buf in checksum buf (14 + ihl_of buf) size (pseudo_sum buf size) = 0.

Lemma ihl_of_range buf : 0 <= ihl_of buf <= 60.
Proof. unfold ihl_of. change 0x0f with (Z.ones 4). rewrite Z.land_ones by lia. pose proof (Z.mod_pos_bound (rd8 buf 14) (2 ^ 4)). lia. Qed.

Lemma ihl_of_wr16 off v buf : 15 <= off -> off + 2 <= Z.of_nat (length buf) -> ihl_of (wr16 off v buf) = ihl_of buf.
Proof. intros. unfold ihl_of. by rewrite rd8_wr16_ne by lia. Qed.

Lemma htons_range v : 0 <= htons v < 2 ^ 16.
Proof.
  unfold htons. change 0xff with (Z.ones 8). rewrite Z.land_ones, Z.lor_comm, lor_bytes, Z.shiftr_div_pow2; try lia.
  - pose proof (u32_range v). pose proof (Z.mod_pos_bound v (2 ^ 8)). pose proof (Z.mod_pos_bound v (2 ^ 16)).
    unfold wrap. pose proof (Z.div_lt_upper_bound (v mod 2 ^ 16) (2 ^ 8) (2 ^ 8)). pose proof (Z.div_pos (v mod 2 ^ 16) (2 ^ 8)). lia.
  - rewrite Z.shiftr_div_pow2 by lia. pose proof (Z.mod_pos_bound v (2 ^ 16)). unfold wrap.
    pose proof (Z.div_lt_upper_bound (v mod 2 ^ 16) (2 ^ 8) (2 ^ 8)). pose proof (Z.div_pos (v mod 2 ^ 16) (2 ^ 8)). lia.
Qed.

Lemma pseudo_sum_range buf size : bytes_ok buf -> 0 <= pseudo_sum buf size < 6 * 2 ^ 16.
Proof.
  intros Hb. unfold pseudo_sum. pose proof (rd16_range buf 26 Hb). pose proof (rd16_range buf 28 Hb). pose proof (rd16_range buf 30 Hb).
  pose proof (rd16_range buf 32 Hb). pose proof (htons_range (rd8 buf 23)). pose proof (htons_range (u32 size)).
  rewrite wrap_small by (unfold in_width; lia). lia.
Qed.

Lemma pseudo_sum_wr16 off v buf size : 34 <= off -> off + 2 <= Z.of_nat (length buf) -> pseudo_sum (wr16 off v buf) size = pseudo_sum buf size.
Proof. intros. unfold pseudo_sum. by rewrite !rd16_wr16_ne, rd8_wr16_ne by lia. Qed.

Lemma checksum_bytes buf buf' off size sum :
  0 <= off -> 0 <= size -> (forall k, off <= k < off + size -> rd8 buf' k = rd8 buf k) ->
  off + size <= Z.of_nat (length buf) -> length buf' = length buf -> checksum buf' off size sum = checksum buf off size sum.
Proof.
  intros Ho Hs Heq Hl Hlen. assert (forall k, off <= k -> k + 2 <= off + size -> rd16 buf' k = rd16 buf k) as H16.
  { intros k Hk Hk2. unfold rd16. f_equal. apply list_eq. intros i. destruct (decide (i < 2)%nat); [|by rewrite !lookup_take_ge by lia].
    rewrite !lookup_take_lt, !lookup_drop by lia. specialize (Heq (k + Z.of_nat i) ltac:(lia)). unfold rd8 in Heq.
    replace (Z.to_nat (k + Z.of_nat i)) with (Z.to_nat k + i)%nat in Heq by lia.
    destruct (lookup_lt_is_Some_2 buf (Z.to_nat k + i)) as [x Hx]; [lia|]. destruct (lookup_lt_is_Some_2 buf' (Z.to_nat k + i)) as [y Hy]; [lia|].
    rewrite Hx, Hy in *. by cbn in Heq; subst. }
  unfold checksum. pose proof (Z.mul_div_le size 2 ltac:(lia)). set (n := Z.to_nat (size / 2)).
  assert (Z.of_nat n = size / 2) as Hn by (unfold n; rewrite Z2Nat.id; [done|apply Z.div_pos; lia]).
  assert (forall m o x, off <= o -> o + 2 * Z.of_nat m <= off + size -> add_words m o buf' x = add_words m o buf x) as Hadd.
  { induction m as [|m IH]; intros o x H1 H2; cbn [add_words]; [done|]. rewrite H16, IH by lia. done. }
  rewrite Hadd by lia. destruct (Z.odd size) eqn:Eo; [|done]. rewrite Heq; [done|].
  apply Z.odd_spec in Eo as [q Hq]. subst size. replace (2 * q + 1) with (1 + q * 2) in Hn by lia. rewrite Z.div_add in Hn by lia. cbn in Hn. lia.
Qed.

Lemma insert_ipv4_spec len buf :
  bytes_ok buf -> len <= Z.of_nat (length buf) -> 20 <= ihl_of buf -> 14 + ihl_of buf <= len ->
  let buf' := insert_ipv4 len buf in
  ipv4_zero buf' /\ ihl_of buf' = ihl_of buf /\ bytes_ok buf' /\ length buf' = length buf /\
  forall k, 0 <= k -> ~ 24 <= k < 26 -> rd8 buf' k = rd8 buf k.
Proof.
  intros Hb Hl Hi Hlen. cbv zeta. unfold insert_ipv4. fold (ihl_of buf). rewrite (proj2 (Z.leb_le _ _)) by lia. pose proof (ihl_of_range buf).
  set (z := wr16 24 0 buf). assert (length z = length buf) as Hlz by (apply length_wr16; lia).
  assert (ihl_of (wr16 24 (checksum z 14 (ihl_of buf) 0) z) = ihl_of buf) as Hih by (rewrite ihl_of_wr16 by lia; apply ihl_of_wr16; lia).
  split_and!.
  - unfold ipv4_zero. rewrite Hih. apply (insert_verifies buf 14 (ihl_of buf) 5 0); try done; lia.
  - done.
  - by apply bytes_ok_wr16, bytes_ok_wr16.
  - rewrite length_wr16; lia.
  - intros k Hk Hout. rewrite rd8_wr16_ne by lia. apply rd8_wr16_ne; lia.
Qed.

Lemma insert_l4_spec len buf (Hp : rd8 buf 23 = 0x06 \/ rd8 buf 23 = 0x11) :
  let o := 14 + ihl_of buf + (if rd8 buf 23 =? 0x06 then 16 else 6) in
  bytes_ok buf -> len <= Z.of_nat (length buf) -> len <= 9018 -> 20 <= ihl_of buf -> o + 2 <= len ->
  let buf' := insert_l4 len buf in
  l4_zero len buf' /\ ihl_of buf' = ihl_of buf /\ length buf' = length buf /\
  forall k, 0 <= k -> ~ o <= k < o + 2 -> rd8 buf' k = rd8 buf k.
Proof.
  intros o Hb Hl Hcap Hi Hlen. cbv zeta. unfold insert_l4. fold (ihl_of buf). fold o. set (size := len - 14 - ihl_of buf).
  pose proof (ihl_of_range buf). assert (14 + ihl_of buf + 6 <= o <= 14 + ihl_of buf + 16) as Ho by (subst o; destruct (_ =? _); lia).
  set (z := wr16 o 0 buf). assert (length z = length buf) as Hlz by (apply length_wr16; lia).
  assert (bytes_ok z) as Hzb by (by apply bytes_ok_wr16). pose proof (pseudo_sum_range z size Hzb).
  set (c := checksum z _ size _). assert (ihl_of (wr16 o c z) = ihl_of buf) as Hih by (rewrite ihl_of_wr16 by lia; apply ihl_of_wr16; lia).
  split_and!; [|done|rewrite length_wr16; lia|intros k Hk Hout; rewrite rd8_wr16_ne by lia; apply rd8_wr16_ne; lia].
  unfold l4_zero. rewrite Hih. fold size. rewrite pseudo_sum_wr16 by lia. subst c.
  assert (exists j, o = 14 + ihl_of buf + 2 * j /\ (j = 8 \/ j = 3)) as (j & Hoj & Hj) by (subst o; destruct (_ =? _); [exists 8|exists 3]; lia).
  assert (size = len - 14 - ihl_of buf) by done. subst z. rewrite Hoj in *.
  apply (insert_verifies buf (14 + ihl_of buf) size j); try done; lia.
Qed.

(** ** The status register *)

(** The cached value is the current one unless it is marked stale. *)
Definition intr_ok (i : InterruptRegister) : Prop :=
  m_regstate_staled i = false -> m_regstate i = Z.lor (m_interrupts i) (m_dma_reg_status i).

Definition keeps_cache {W A} (m : SM (dwmac * (dma * W)) A) : Prop :=
  forall s a s', m s = Ret (a, s') -> intr_ok (intr s.1) -> intr_ok (intr s'.1).

Section Cache.
Context {W : Type} (bus : dma_bus W) (garbage : list Z).

Lemma cache_bind {A B} (m : SM (dwmac * (dma * W)) A) (k : A -> SM (dwmac * (dma * W)) B) :
  keeps_cache m -> (forall a, keeps_cache (k a)) -> keeps_cache (sm_bind m k).
Proof. intros Hm Hk s b s'' H Hi. apply sm_bind_Ret in H as (a & s' & H1 & H2). eapply Hk; [exact H2|]. by eapply Hm. Qed.

Lemma cache_ret {A} (a : A) : keeps_cache (W := W) (sm_ret a).
Proof. by intros s b s' [= _ <-]. Qed.

Lemma cache_fail {A} e : keeps_cache (W := W) (A := A) (sm_fail e).
Proof. done. Qed.

Lemma cache_get {A} (f : dwmac -> A) : keeps_cache (W := W) (get f).
Proof. by intros s b s' [= _ <-]. Qed.

Lemma cache_upd f : (forall s, intr_ok (intr s) -> intr_ok (intr (f s))) -> keeps_cache (W := W) (upd f).
Proof. intros Hf s b s' [= _ <-]. apply Hf. Qed.

Lemma cache_upd_intr f : (forall i, intr_ok i -> intr_ok (f i)) -> keeps_cache (W := W) (upd_intr f).
Proof. intros Hf. apply cache_upd. intros s. apply Hf. Qed.

Lemma cache_dma {A} (m : SM (dma * W) A) : keeps_cache (on_dma m).
Proof. intros s b s'. unfold on_dma. destruct (m _) as [[? ?]|]; [|done]. by intros [= _ <-]. Qed.

(** A change that marks the register stale. *)
Lemma stale_ok i : m_regstate_staled i = true -> intr_ok i.
Proof. unfold intr_ok. congruence. Qed.

Create HintDb cache.
Hint Resolve cache_ret cache_fail cache_get cache_dma : cache.
Hint Extern 1 (keeps_cache (upd_intr _)) => apply cache_upd_intr; intros; by apply stale_ok : cache.
Hint Extern 2 (keeps_cache (upd _)) =>
  apply cache_upd; intros; repeat case_match; first [assumption | by apply stale_ok] : cache.

Ltac cached :=
  repeat first [ progress (intros; cbv zeta)
               | solve [eauto 1 with cache nocore]
               | apply cache_bind
               | match goal with |- keeps_cache (match ?x with _ => _ end) => destruct x
                                | |- keeps_cache (if ?x then _ else _) => destruct x end ].

Lemma cache_fire ints : keeps_cache (W := W) (interrupts_fire ints).
Proof. unfold interrupts_fire. cached. Qed.

Lemma cache_reset : keeps_cache (W := W) reset.
Proof. apply cache_upd. by intros s _ _. Qed.

Lemma cache_read_desc r old : keeps_cache (read_desc bus r old).
Proof. unfold read_desc. cached. Qed.

Lemma cache_write_desc a d : keeps_cache (write_desc bus a d).
Proof. unfold write_desc. cached. Qed.

Lemma cache_move d : keeps_cache (W := W) (move_to_next_tx_desc d).
Proof. unfold move_to_next_tx_desc. cached. Qed.

Lemma cache_fetch a n : keeps_cache (fetch bus a n).
Proof. unfold fetch. cached. Qed.

Lemma cache_offload d : keeps_cache (W := W) (offload d).
Proof. unfold offload. cached. Qed.
Hint Resolve cache_fire cache_reset cache_read_desc cache_write_desc cache_move cache_fetch cache_offload : cache.

Lemma cache_segments fuel d : keeps_cache (segments bus fuel d).
Proof. revert d. induction fuel as [|fuel IH]; intros d; cbn [segments]; unfold read_tx_desc; cached. Qed.
Hint Resolve cache_segments : cache.

Lemma cache_tx fuel : keeps_cache (tx bus garbage fuel).
Proof. unfold tx, tx_finish, read_tx_desc, sm_when. cached. Qed.
Hint Resolve cache_tx : cache.

Lemma cache_tx_turn n fuel : keeps_cache (tx_turn bus garbage n fuel).
Proof.
  unfold tx_turn. assert (forall n, keeps_cache (tx_all bus garbage n fuel)) as Hall.
  { induction n0 as [|m IH]; cbn [tx_all]; cached. }
  cached.
Qed.

Lemma cache_recv f : keeps_cache (payload_recv bus garbage f).
Proof. unfold payload_recv, rx, next_rx_desc, read_rx_desc, sm_when. cached. Qed.

Lemma cache_intr_turn : keeps_cache (W := W) intr_turn.
Proof. unfold intr_turn. cached. Qed.

Lemma cache_read_word a : keeps_cache (W := W) (read_word a).
Proof.
  unfold read_word. cached. intros s v s'. unfold intr_status. destruct (m_regstate_staled (intr s.1)).
  - by intros [= <- <-].
  - by intros [= <- <-].
Qed.

(** Poll requests change the status and then mark it stale. *)
Lemma cache_poll_rx c g st : keeps_cache (W := W) (sm_when c (upd_intr g) ;;! upd_intr (setRxState st)).
Proof. intros s u s' H _. apply sm_bind_Ret in H as ([] & s1 & _ & H). injection H as _ <-. by apply stale_ok. Qed.

Lemma cache_poll_tx c g st b : keeps_cache (W := W) (sm_when c (upd_intr g) ;;! upd_intr (setTxState st) ;;! upd (set_tx_event b)).
Proof. intros s u s' H _. apply sm_bind_Ret in H as ([] & s1 & _ & H). injection H as _ <-. by apply stale_ok. Qed.

Lemma cache_set_interrupts v : keeps_cache (W := W) (upd_intr (set_interrupts v)).
Proof. by apply cache_upd_intr. Qed.
Hint Resolve cache_poll_rx cache_poll_tx cache_set_interrupts : cache.

Lemma cache_write_word a v : keeps_cache (write_word bus garbage a v).
Proof. unfold write_word, read_tx_desc, read_rx_desc. cached; unfold sm_when; cached. Qed.

Lemma cache_b_transport t : keeps_cache (b_transport bus garbage t).
Proof. unfold b_transport. pose proof cache_read_word. pose proof cache_write_word. cached; auto. Qed.
End Cache.

(** ** The MAC in use *)

Inductive step {W} (bus : dma_bus W) (garbage : list Z) : dwmac * (dma * W) -> dwmac * (dma * W) -> Prop :=
| st_bus t t' s s' : b_transport bus garbage t s = Ret (t', s') -> step bus garbage s s'
| st_frame f s s' : payload_recv bus garbage f s = Ret (tt, s') -> step bus garbage s s'
| st_tx n fuel s s' : tx_turn bus garbage n fuel s = Ret (tt, s') -> step bus garbage s s'
| st_intr s s' : intr_turn s = Ret (tt, s') -> step bus garbage s s'
| st_world s w : step bus garbage s (s.1, (s.2.1, w)).

Lemma step_intr_ok {W} (bus : dma_bus W) garbage s s' : step bus garbage s s' -> intr_ok (intr s.1) -> intr_ok (intr s'.1).
Proof.
  destruct 1 as [t t' s s' E|f s s' E|n fuel s s' E|s s' E|s w].
  - by eapply cache_b_transport.
  - by eapply cache_recv.
  - by eapply cache_tx_turn.
  - by eapply cache_intr_turn.
  - done.
Qed.

Lemma reachable_intr_ok {W} (bus : dma_bus W) garbage s s' : rtc (step bus garbage) s s' -> intr_ok (intr s.1) -> intr_ok (intr s'.1).
Proof. induction 1; [done|]. eauto using step_intr_ok. Qed.

(** The MAC after construction, with the buffer's capacity. *)
Definition dwmac_init (buf : list Z) (mac : MACAddress) : dwmac :=
  mk_dwmac reset_values intr_reset (mac :: replicate (Z.to_nat MACn_COUNT) mac_zero) (phy_init 0x00010001)
    (mk_frame buf 0) false false false [].

(** ** Checksum offload *)

(** What a receiver checks (RFC 1071, RFC 791, RFC 793, RFC 768): the one's complement sum of 16-bit
    words in network order is all ones, that is, a positive multiple of [0xffff]; a last odd byte is
    padded with zero.  For TCP and UDP a pseudo header comes first: both IP addresses, zero, the
    protocol, and the length of the segment, which follows from the total length of the datagram. *)
Fixpoint net_sum (l : list Z) : Z :=
  match l with
  | [] => 0
  | [x] => 256 * x
  | x :: y :: l' => 256 * x + y + net_sum l'
  end.

Definition sums_to_ones (l : list Z) : Prop := 0 < net_sum l /\ net_sum l mod 65535 = 0.

Definition slice (off size : Z) (buf : list Z) : list Z := take (Z.to_nat size) (drop (Z.to_nat off) buf).
Definition total_length (buf : list Z) : Z := 256 * rd8 buf 16 + rd8 buf 17.

Definition ipv4_verifies (buf : list Z) : Prop := sums_to_ones (slice 14 (ihl_of buf) buf).
Definition l4_verifies (buf : list Z) : Prop :=
  let size := total_length buf - ihl_of buf in
  sums_to_ones (slice 26 8 buf ++ [0; rd8 buf 23; size / 256; size mod 256] ++ slice (14 + ihl_of buf) size buf).

(** The sum with the bytes of each word swapped. *)
Fixpoint host_sum (l : list Z) : Z :=
  match l with
  | [] => 0
  | [x] => x
  | x :: y :: l' => x + 256 * y + host_sum l'
  end.

Lemma pairs_ind (P : list Z -> Prop) : P [] -> (forall x, P [x]) -> (forall x y l, P l -> P (x :: y :: l)) -> forall l, P l.
Proof. intros H0 H1 H2. fix IH 1. intros [|x [|y l]]; [done|apply H1|apply H2, IH]. Qed.

Lemma net_host l : exists q, 256 * host_sum l = net_sum l + 65535 * q.
Proof. induction l as [|x|x y l [q Hq]] using pairs_ind; cbn [host_sum net_sum]; [by exists 0|exists 0; lia|exists (y + q); lia]. Qed.

Lemma net_host_pos l : bytes_ok l -> (0 < net_sum l <-> 0 < host_sum l) /\ 0 <= net_sum l /\ 0 <= host_sum l.
Proof.
  unfold bytes_ok. induction l as [|x|x y l IH] using pairs_ind; cbn [host_sum net_sum]; [lia|intros [Hx _]%Forall_cons; lia|].
  intros [Hx [Hy Hb]%Forall_cons]%Forall_cons. specialize (IH Hb). lia.
Qed.

Lemma ones_host l : bytes_ok l -> 0 < host_sum l -> host_sum l mod 65535 = 0 -> sums_to_ones l.
Proof.
  intros Hb Hp Hm. split; [by apply net_host_pos|]. destruct (net_host l) as [q Hq]. apply Z.mod_divide in Hm as [k Hk]; [|lia].
  apply Z.mod_divide; [lia|]. exists (256 * k - q). lia.
Qed.

Lemma host_sum_app l l' : Nat.Even (length l) -> host_sum (l ++ l') = host_sum l + host_sum l'.
Proof.
  induction l as [|x|x y l IH] using pairs_ind; cbn [host_sum app length]; intros [k Hk]; [lia|lia|]. rewrite IH; [lia|]. exists (pred k). lia.
Qed.

Lemma rd16_bytes buf k : bytes_ok buf -> 0 <= k -> k + 2 <= Z.of_nat (length buf) -> rd16 buf k = rd8 buf k + 256 * rd8 buf (k + 1).
Proof.
  intros Hb Hk Hl. unfold rd16, rd8. destruct (lookup_lt_is_Some_2 buf (Z.to_nat k)) as [x Hx]; [lia|].
  destruct (lookup_lt_is_Some_2 buf (Z.to_nat (k + 1))) as [y Hy]; [lia|]. replace (Z.to_nat (k + 1)) with (S (Z.to_nat k)) in * by lia.
  rewrite (drop_S buf x) by done. rewrite (drop_S buf y) by done. rewrite Hx, Hy. change (load_le [x; y] = x + 256 * y). cbn [load_le]. lia.
Qed.

Lemma slice_cons2 buf off size : 0 <= off -> 2 <= size -> off + size <= Z.of_nat (length buf) ->
  slice off size buf = rd8 buf off :: rd8 buf (off + 1) :: slice (off + 2) (size - 2) buf.
Proof.
  intros Ho Hs Hl. unfold slice, rd8. destruct (lookup_lt_is_Some_2 buf (Z.to_nat off)) as [x Hx]; [lia|].
  destruct (lookup_lt_is_Some_2 buf (Z.to_nat (off + 1))) as [y Hy]; [lia|]. replace (Z.to_nat (off + 1)) with (S (Z.to_nat off)) in * by lia.
  replace (Z.to_nat (off + 2)) with (S (S (Z.to_nat off))) by lia. replace (Z.to_nat size) with (S (S (Z.to_nat (size - 2)))) by lia.
  rewrite (drop_S buf x) by done. rewrite (drop_S buf y) by done. rewrite Hx, Hy. done.
Qed.

(** The sum that the MAC forms. *)
Lemma host_slice buf : bytes_ok buf -> forall n off size, 0 <= off -> 0 <= size -> Z.to_nat (size / 2) = n -> off + size <= Z.of_nat (length buf) ->
  host_sum (slice off size buf) = word_sum n off buf + tail_byte buf off size.
Proof.
  intros Hb. induction n as [|n IH]; intros off size Ho Hs Hn Hl.
  - assert (size = 0 \/ size = 1) as [-> | ->] by (pose proof (Z.mul_succ_div_gt size 2); lia); [done|]. unfold slice, tail_byte, rd8. cbn -[drop].
    destruct (lookup_lt_is_Some_2 buf (Z.to_nat off)) as [x Hx]; [lia|]. rewrite (drop_S buf x) by done. rewrite Z.add_0_r, Hx. cbn. by destruct (drop _ _).
  - assert (2 <= size) as H2 by (destruct (decide (size < 2)); [|lia]; rewrite Z.div_small in Hn by lia; lia). rewrite slice_cons2 by lia. cbn [host_sum word_sum].
    assert (size / 2 = (size - 2) / 2 + 1) as Hd by (replace size with (size - 2 + 1 * 2) at 1 by lia; by rewrite Z.div_add by lia).
    pose proof (Z.div_pos (size - 2) 2). rewrite (IH (off + 2) (size - 2)) by lia. rewrite rd16_bytes by (done || lia). unfold tail_byte.
    replace (Z.odd (size - 2)) with (Z.odd size) by (rewrite Z.odd_sub; by destruct (Z.odd size)).
    replace (off + 2 + 2 * Z.of_nat (Z.to_nat ((size - 2) / 2))) with (off + 2 * Z.of_nat (Z.to_nat (size / 2))) by lia. lia.
Qed.

Lemma checksum_zero_sum buf off size sum : bytes_ok buf -> 0 <= size -> 0 <= sum -> sum + size * 65535 + 255 < 2 ^ 32 -> checksum buf off size sum = 0 ->
  let s := sum + word_sum (Z.to_nat (size / 2)) off buf + tail_byte buf off size in 0 < s /\ s mod 65535 = 0.
Proof.
  intros Hb Hz Hs Hlt. rewrite checksum_spec by done. intros H s. pose proof (Z.mul_div_le size 2 ltac:(lia)). pose proof (Z.div_pos size 2 Hz ltac:(lia)).
  pose proof (word_sum_range (Z.to_nat (size / 2)) off buf Hb). pose proof (tail_byte_range buf off size Hb).
  destruct (fold_sum_spec s) as (Hr & Hm & Hnz); [subst s; lia|]. fold s in H. assert (fold_sum 3 s = 65535) as E by lia. rewrite E in *. split; [|by rewrite <- Hm].
  assert (s <> 0) by (intros ?%Hnz; lia). subst s. lia.
Qed.

Lemma bytes_slice off size buf : bytes_ok buf -> bytes_ok (slice off size buf).
Proof. intros. unfold slice. by apply Forall_take, Forall_drop. Qed.

Lemma ipv4_received buf : bytes_ok buf -> 14 + ihl_of buf <= Z.of_nat (length buf) -> ipv4_zero buf -> ipv4_verifies buf.
Proof.
  intros Hb Hl Hz. pose proof (ihl_of_range buf). destruct (checksum_zero_sum buf 14 (ihl_of buf) 0) as [Hp Hm]; try done; try lia.
  apply ones_host; [by apply bytes_slice|..]; by rewrite (host_slice buf Hb _ 14 (ihl_of buf) ltac:(lia) ltac:(lia) eq_refl ltac:(lia)).
Qed.

Lemma htons_value v : 0 <= v < 2 ^ 16 -> htons v = v / 256 + 256 * (v mod 256).
Proof.
  intros Hv. unfold htons. rewrite (wrap_small 16) by (unfold in_width; lia). change 0xff with (Z.ones 8). rewrite Z.land_ones, Z.lor_comm by lia.
  rewrite Z.shiftr_div_pow2 by lia. change (2 ^ 8) with 256. rewrite lor_bytes; [lia|lia|]. split; [apply Z.div_pos; lia|apply Z.div_lt_upper_bound; lia].
Qed.

Lemma l4_received len buf : bytes_ok buf -> 20 <= ihl_of buf -> len = 14 + total_length buf -> 14 + ihl_of buf <= len -> len <= 9018 -> len <= Z.of_nat (length buf) ->
  l4_zero len buf -> l4_verifies buf.
Proof.
  intros Hb Hi Hlen Hge Hcap Hl Hz. pose proof (ihl_of_range buf). set (size := len - 14 - ihl_of buf). unfold l4_verifies. cbv zeta.
  replace (total_length buf - ihl_of buf) with size by (subst size; lia). assert (0 <= size) as Hs0 by (subst size; lia).
  pose proof (pseudo_sum_range buf size Hb) as Hps. destruct (checksum_zero_sum buf (14 + ihl_of buf) size (pseudo_sum buf size)) as [Hp Hm]; try done; try lia.
  assert (forall k, 0 <= rd8 buf k < 256) as Hr by (intros; by apply rd8_range). pose proof (Z.mod_pos_bound size 256 ltac:(lia)).
  assert (0 <= size / 256 < 256) by (split; [apply Z.div_pos; lia|apply Z.div_lt_upper_bound; lia]).
  assert (bytes_ok [0; rd8 buf 23; size / 256; size mod 256]) as Hph by (pose proof (Hr 23); repeat constructor; lia).
  assert (host_sum (slice 26 8 buf ++ [0; rd8 buf 23; size / 256; size mod 256] ++ slice (14 + ihl_of buf) size buf) =
          pseudo_sum buf size + word_sum (Z.to_nat (size / 2)) (14 + ihl_of buf) buf + tail_byte buf (14 + ihl_of buf) size) as Hsum.
  { rewrite !host_sum_app; [|by exists 2%nat|unfold slice; rewrite length_take, length_drop; exists 4%nat; lia].
    rewrite (host_slice buf Hb _ (14 + ihl_of buf) size ltac:(lia) Hs0 eq_refl ltac:(lia)), (host_slice buf Hb 4 26 8) by (done || lia).
    unfold pseudo_sum. rewrite (wrap_small 32 size) by (unfold in_width; lia). rewrite !htons_value by (pose proof (Hr 23); lia).
    rewrite (Z.div_small (rd8 buf 23)), (Z.mod_small (rd8 buf 23)) by apply Hr.
    pose proof (rd16_range buf 26 Hb). pose proof (rd16_range buf 28 Hb). pose proof (rd16_range buf 30 Hb). pose proof (rd16_range buf 32 Hb). pose proof (Hr 23).
    rewrite wrap_small by (unfold in_width; lia). 
    assert (word_sum 4 26 buf = rd16 buf 26 + (rd16 buf 28 + (rd16 buf 30 + (rd16 buf 32 + 0)))) as -> by reflexivity.
    assert (tail_byte buf 26 8 = 0) as -> by reflexivity. cbn [host_sum]. lia. }
  apply ones_host; [|by rewrite Hsum..]. apply Forall_app. split; [by apply bytes_slice|]. apply Forall_app. split; [done|by apply bytes_slice].
Qed.

(** C32: with full offload, an unpadded IPv4 frame of at most 9018 bytes that carries TCP or UDP, whole
    and not a fragment, leaves with a header checksum and a segment checksum that a receiver accepts,
    and only the two checksum fields differ from what memory held. *)
Theorem checksum_offload_verifies len buf :
  let o := 14 + ihl_of buf + (if rd8 buf 23 =? 0x06 then 16 else 6) in
  bytes_ok buf -> len <= Z.of_nat (length buf) -> len <= 9018 -> len = 14 + total_length buf ->
  rd8 buf 12 = 0x08 -> rd8 buf 13 = 0x00 -> 20 <= ihl_of buf -> rd8 buf 23 = 0x06 \/ rd8 buf 23 = 0x11 -> o + 2 <= len ->
  let buf' := insert_checksums 3 len buf in
  ipv4_verifies buf' /\ l4_verifies buf' /\ length buf' = length buf /\
  forall k, 0 <= k -> ~ 24 <= k < 26 -> ~ o <= k < o + 2 -> rd8 buf' k = rd8 buf k.
Proof.
  intros o Hb Hl Hcap Htot H12 H13 Hi Hp Hlen. cbv zeta. pose proof (ihl_of_range buf).
  assert (14 + ihl_of buf + 6 <= o) as Ho by (subst o; destruct (_ =? _); lia).
  destruct (insert_ipv4_spec len buf) as (Hv & Hih & Hb1 & Hl1 & Heq1); [done|lia..|]. unfold insert_checksums.
  rewrite H12, H13. rewrite !(proj2 (Z.leb_le _ len)) by lia. cbn [andb Z.eqb Pos.eqb]. set (b1 := insert_ipv4 len buf) in *.
  assert (rd8 b1 23 = rd8 buf 23) as H23 by (apply Heq1; lia).
  replace (_ || _) with true by (rewrite H23; symmetry; apply orb_true_iff; rewrite !Z.eqb_eq; exact Hp).
  destruct (insert_l4_spec len b1) as (Hv2 & Hih2 & Hl2 & Heq2); rewrite ?H23, ?Hih; try done; try lia.
  rewrite H23, Hih in Heq2. fold o in Heq2. assert (bytes_ok (insert_l4 len b1)) as Hb2 by (unfold insert_l4; by apply bytes_ok_wr16, bytes_ok_wr16).
  assert (forall k, 0 <= k -> ~ 24 <= k < 26 -> ~ o <= k < o + 2 -> rd8 (insert_l4 len b1) k = rd8 buf k) as Heq by (intros k Hk H1 H2; rewrite Heq2, Heq1 by lia; done).
  split_and!; [|apply (l4_received len); try done; try lia|lia|done].
  - apply ipv4_received; [done|lia|]. unfold ipv4_zero in *. rewrite Hih2. etrans; [|exact Hv]. apply checksum_bytes; try lia. intros k Hk. apply Heq2; lia.
  - unfold total_length. rewrite !Heq by lia. exact Htot.
Qed.

(** A TCP frame of 60 bytes. *)
Definition tcp_frame : list Z :=
  replicate 12 0x0a ++ [0x08; 0x00] ++ [0x45; 0; 0; 46; 0; 1; 0; 0; 64; 6; 0; 0; 10; 0; 0; 1; 10; 0; 0; 2] ++ replicate 26 0x55.

Lemma checksum_offload_verifies_witness : l4_verifies (insert_checksums 3 60 tcp_frame).
Proof.
  assert (Forall (fun v => 0 <= v < 256) tcp_frame) as Hb by (apply (bool_decide_unpack _); vm_compute; exact I).
  assert (60 <= Z.of_nat (length tcp_frame)) as Hl by (by apply Z.leb_le).
  assert (20 <= ihl_of tcp_frame) as Hi by (by apply Z.leb_le).
  refine (proj1 (proj2 (checksum_offload_verifies 60 tcp_frame Hb Hl _ eq_refl eq_refl eq_refl Hi (or_introl eq_refl) _))); by apply Z.leb_le.
Defined.

(** The length of the segment is taken from the length of the frame: the checksum of a frame that was
    padded to 60 bytes, with 20 bytes of TCP, is refused. *)
Definition padded_frame : list Z :=
  replicate 12 0x0a ++ [0x08; 0x00] ++ [0x45; 0; 0; 40; 0; 1; 0; 0; 64; 6; 0; 0; 10; 0; 0; 1; 10; 0; 0; 2] ++ replicate 20 0x55 ++ replicate 6 0.

Lemma padded_frame_refused : total_length padded_frame = 40 /\ ~ l4_verifies (insert_checksums 3 60 padded_frame).
Proof. split; [reflexivity|]. intros [_ H]. vm_compute in H. discriminate. Qed.

(** ** Status *)

(** C: what a guest reads from the status register is always the pending interrupts and the state
    of the two DMA engines. *)
Theorem status_current {W} (bus : dma_bus W) garbage buf mac w s :
  rtc (step bus garbage) (dwmac_init buf mac, (dma_init, w)) s ->
  exists s', read_word DMA_STATUS s = Ret (Z.lor (m_interrupts (intr s.1)) (m_dma_reg_status (intr s.1)), s').
Proof.
  intros Hr. apply reachable_intr_ok in Hr; [|by intros _]. unfold read_word.
  change (mac_reg DMA_STATUS) with (@None (nat * bool)). replace (plain DMA_STATUS) with false by (by vm_compute).
  change (negb (Z.land DMA_STATUS 3 =? 0)) with false. cbv iota. rewrite Z.eqb_refl.
  unfold intr_status. destruct (m_regstate_staled (intr s.1)) eqn:E; [by eexists|].
  rewrite <- (Hr E). by eexists.
Qed.

Lemma status_current_witness :
  exists s', read_word (W := unit) DMA_STATUS (dwmac_init [] mac_zero, (dma_init, tt)) = Ret (0, s').
Proof. exact (status_current (W := unit) (mk_bus (fun _ _ => 0) (fun w _ _ => w) (fun t w => Ret (t, w)) (fun t d w => Ret (false, t, d, w))) [] [] mac_zero tt _ (rtc_refl _ _)). Defined.
