(* ===== verification/DwmacRings.v ===== *)
(** * Descriptor rings of the DesignWare MAC

    What [tx] and [rx] of [dwmac.cc] do with descriptors and frames in memory, against the memory
    interface [RegMemory]: a frame is gathered from a chain of descriptors and sent, a frame that
    arrives is stored, and the descriptors go back to the driver. *)

From stdpp Require Import base list numbers option gmap.
From S2P Require Import Prelude Monad Registers Tlm RegProxy MacDma Dwmac.

(** ** Fields *)

Lemma put_bits_testbit start len v x n : 0 <= start -> 0 <= len -> 0 <= n ->
  Z.testbit (put_bits start len v x) n = if (start <=? n) && (n <? start + len) then Z.testbit v (n - start) else Z.testbit x n.
Proof.
  intros Hs Hl Hn. unfold put_bits. rewrite Z.lor_spec, Z.ldiff_spec, !Z.shiftl_spec, Z.land_spec by done.
  destruct (Z.leb_spec start n); cbn [andb].
  - rewrite (Z.testbit_ones_nonneg len) by lia. destruct (Z.ltb_spec n (start + len)), (Z.ltb_spec (n - start) len); try lia; cbn.
    + by rewrite !andb_true_r, !andb_false_r.
    + by rewrite !andb_false_r, andb_true_r, orb_false_r.
  - rewrite !(Z.testbit_neg_r _ (n - start)) by lia. cbn. by rewrite andb_true_r, orb_false_r.
Qed.

Lemma bit_put_ne start len v x k : 0 <= start -> 0 <= len -> 0 <= k -> k < start \/ start + len <= k ->
  bit (put_bits start len v x) k = bit x k.
Proof.
  intros. unfold bit. rewrite put_bits_testbit by done.
  destruct (Z.leb_spec start k), (Z.ltb_spec k (start + len)); try lia; done.
Qed.

Lemma extract_testbit v s n i : 0 <= s -> 0 <= n -> 0 <= i -> Z.testbit (extract v s n) i = (i <? n) && Z.testbit v (i + s).
Proof. intros. unfold extract. rewrite Z.land_spec, Z.shiftr_spec, Z.testbit_ones_nonneg by lia. apply andb_comm. Qed.

Lemma extract_put start len v x : 0 <= start -> 0 <= len -> 0 <= v < 2 ^ len -> extract (put_bits start len v x) start len = v.
Proof.
  intros Hs Hl Hv. apply Z.bits_inj'. intros i Hi. rewrite extract_testbit, put_bits_testbit by lia.
  destruct (Z.ltb_spec i len); cbn [andb].
  - destruct (Z.leb_spec start (i + start)), (Z.ltb_spec (i + start) (start + len)); try lia. cbn. f_equal. lia.
  - symmetry. by apply (testbit_above len).
Qed.

Lemma extract_put_ne start len v x s n : 0 <= start -> 0 <= len -> 0 <= s -> 0 <= n -> s + n <= start \/ start + len <= s ->
  extract (put_bits start len v x) s n = extract x s n.
Proof.
  intros. apply Z.bits_inj'. intros i Hi. rewrite !extract_testbit by lia. destruct (Z.ltb_spec i n); cbn [andb]; [|done].
  rewrite put_bits_testbit by lia. destruct (Z.leb_spec start (i + s)), (Z.ltb_spec (i + s) (start + len)); try lia; done.
Qed.

Lemma getTx_setTx st i : 0 <= st < 8 -> getTxState (setTxState st i) = st.
Proof. intros. unfold getTxState, setTxState. cbn [set_stale put_status m_dma_reg_status]. by apply extract_put. Qed.

Lemma getRx_setRx st i : 0 <= st < 8 -> getRxState (setRxState st i) = st.
Proof. intros. unfold getRxState, setRxState. cbn [set_stale put_status m_dma_reg_status]. by apply extract_put. Qed.

(** ** Words of a descriptor *)

Lemma word_put_eq i v d : (4 * i + 4 <= length d)%nat -> word (put_word i v d) i = u32 v.
Proof.
  intros Hi. unfold word, put_word. pose proof (splice_read_back (4 * i) (store_le 4 v) d) as H. rewrite length_store_le in H.
  rewrite H by lia. apply load_store_le.
Qed.

Lemma word_put_ne i j v d : (4 * i + 4 <= length d)%nat -> i <> j -> word (put_word i v d) j = word d j.
Proof.
  intros Hi Hj. unfold word, put_word. f_equal. apply list_eq. intros k. destruct (decide (k < 4)%nat); [|by rewrite !lookup_take_ge by lia].
  rewrite !lookup_take_lt, !lookup_drop, lookup_splice by (rewrite ?length_store_le; lia). rewrite length_store_le. by rewrite decide_False by lia.
Qed.

(** ** Rings in memory *)

Section Rings.
Context {W : Type} (bus : dma_bus W) `{!RegMemory bus} `{!RegMemoryLaws bus} (garbage : list Z).

Abbreviation runs := (MacDma.runs bus).

Lemma runs_upd_intr g x f : runs (upd_intr g) x f tt (set_intr (g (intr x)) x) f.
Proof. exact (runs_upd bus (fun s => set_intr (g (intr s)) s) x f). Qed.

(** Word [i] of the descriptor at [a]. *)
Definition dw (f : contents) (a : Z) (i : nat) : Z := load_le (bytes_at f (a + 4 * Z.of_nat i) 4).

(** [d] is the descriptor of [n] bytes at [a]. *)
Definition is_desc (f : contents) (a : Z) (n : nat) (d : list Z) : Prop :=
  length d = 32%nat /\ bytes_ok d /\ take n d = bytes_at f a n.

Lemma word_desc f a n d i : is_desc f a n d -> (4 * i + 4 <= n)%nat -> word d i = dw f a i.
Proof.
  intros (_ & _ & H) Hi. unfold word, dw. rewrite (take_drop_at f a n) by (done || lia). do 2 f_equal. lia.
Qed.

Lemma dsize_range x : desc_size x = 16 \/ desc_size x = 32.
Proof. unfold desc_size. destruct (bit _ _); auto. Qed.

(** The number of bytes of a descriptor. *)
Definition dlen (x : dwmac) : nat := Z.to_nat (desc_size x).

Lemma read_desc_runs r old x f a :
  reg r x = a -> length old = 32%nat -> bytes_ok old -> mem_ok f -> 0 <= a -> a + desc_size x <= rm_limit ->
  exists d, is_desc f a (dlen x) d /\ runs (read_desc bus r old) x f (bit (dw f a 0) 31, d) x f.
Proof.
  intros <- Hold Hob Hf Ha Hn. pose proof (dsize_range x) as Hds. set (d := splice 0 (bytes_at f (reg r x) (dlen x)) old).
  assert (is_desc f (reg r x) (dlen x) d) as Hd.
  { unfold d, splice, dlen in *. rewrite take_0. cbn [app]. split_and!.
    - rewrite length_app, length_drop, length_bytes_at. lia.
    - apply Forall_app. split; [by apply bytes_at_ok|by apply Forall_drop].
    - by rewrite take_app_length' by (by rewrite length_bytes_at). }
  exists d. split; [done|]. unfold read_desc. eapply runs_bind; [by apply runs_get|]. eapply runs_bind; [by apply runs_get|]. cbv beta.
  assert (length (take (dlen x) old) = dlen x) as Hl by (rewrite length_take; unfold dlen; lia).
  eapply runs_bind; [apply (runs_read bus _ (take (dlen x) old)); [lia|rewrite Hl; unfold dlen; lia|by apply Forall_take]|].
  rewrite Hl. fold d. cbv zeta. rewrite (word_desc f (reg r x) (dlen x) d 0) by (done || (unfold dlen; lia)). apply runs_ret.
Qed.

(** ** Descriptors given back *)

(** Writing a descriptor whose first word alone was changed. *)
Lemma write_first_word f a n d v : is_desc f a n d -> (4 <= n <= 32)%nat ->
  contents_eq (write_at f a (take n (put_word 0 v d))) (write_at f a (store_le 4 v)).
Proof.
  intros (Hl & _ & Hd) Hn x. unfold write_at, put_word.
  assert (length (splice (4 * 0) (store_le 4 v) d) = length d) as Hls by (apply length_splice; rewrite length_store_le; lia).
  rewrite length_take, Hls, length_store_le. case_decide as H1; case_decide as H2; try lia; try done.
  - rewrite lookup_take_lt, lookup_splice by (rewrite ?length_store_le; lia). rewrite length_store_le, decide_True by lia. do 2 f_equal. lia.
  - rewrite lookup_take_lt, lookup_splice by (rewrite ?length_store_le; lia). rewrite length_store_le, decide_False by lia.
    assert (take n d !! Z.to_nat (x - a) = Some (f x)) as E.
    { rewrite Hd, lookup_bytes_at by lia. do 2 f_equal. lia. }
    rewrite lookup_take_lt in E by lia. by rewrite E.
Qed.

Lemma desc_first_word f a n d v : is_desc f a n d -> (4 <= n <= 32)%nat -> is_desc (write_at f a (store_le 4 v)) a n (put_word 0 v d).
Proof.
  intros Hd Hn. assert (length (put_word 0 v d) = 32%nat) as Hl.
  { unfold put_word. rewrite length_splice; destruct Hd; rewrite ?length_store_le; lia. }
  split_and!; [done| |].
  - unfold put_word, splice. destruct Hd as (_ & Hb & _). apply Forall_app. split; [by apply Forall_take|].
    apply Forall_app. split; [apply store_le_bytes|by apply Forall_drop].
  - rewrite <- (write_first_word f a n d v Hd Hn). pose proof (bytes_at_write f a (take n (put_word 0 v d))) as H.
    rewrite length_take, Hl in H. by replace (n `min` 32)%nat with n in H by lia.
Qed.

Lemma write_desc_runs x f a d v :
  is_desc f a (dlen x) d -> 0 <= a -> a + desc_size x <= rm_limit -> runs (write_desc bus a (put_word 0 v d)) x f tt x (write_at f a (store_le 4 v)).
Proof.
  intros Hd Ha Hn. pose proof (dsize_range x) as Hds. assert (4 <= dlen x <= 32)%nat as Hr by (unfold dlen; lia).
  eapply runs_ext; [by apply (write_first_word f a (dlen x) d v)|].
  destruct (desc_first_word f a _ _ v Hd Hr) as (Hl & Hb & _). unfold write_desc. eapply runs_bind; [by apply runs_get|]. cbv beta.
  apply (runs_write bus); [lia| |by apply Forall_take]. rewrite length_take, Hl. unfold dlen in *. lia.
Qed.

Lemma dw_write_ne f a v b i : (b + 4 * Z.of_nat i + 4 <= a \/ a + 4 <= b + 4 * Z.of_nat i) -> dw (write_at f a (store_le 4 v)) b i = dw f b i.
Proof. intros H. unfold dw. by rewrite bytes_at_write_disjoint by (rewrite length_store_le; lia). Qed.

Lemma dw_write_eq f a v : dw (write_at f a (store_le 4 v)) a 0 = u32 v.
Proof.
  unfold dw. rewrite Z.add_0_r. pose proof (bytes_at_write f a (store_le 4 v)) as H. rewrite length_store_le in H. rewrite H. apply load_store_le.
Qed.

Lemma dw_range f a i : mem_ok f -> 0 <= dw f a i < 2 ^ 32.
Proof. intros Hf. pose proof (load_le_bound _ (bytes_at_ok f (a + 4 * Z.of_nat i) 4 Hf)) as H. by rewrite length_bytes_at in H. Qed.

Lemma put_bits_range w start len v x : 0 <= start -> 0 <= len -> start + len <= w -> 0 <= x < 2 ^ w -> 0 <= put_bits start len v x < 2 ^ w.
Proof.
  intros Hs Hl Hw Hx. assert (0 <= put_bits start len v x) as H0.
  { unfold put_bits. apply Z.lor_nonneg. split; [apply Z.ldiff_nonneg; lia|]. apply Z.shiftl_nonneg, Z.land_nonneg. right. rewrite Z.ones_equiv. lia. }
  split; [done|]. destruct (Z.eq_dec (put_bits start len v x) 0) as [->|Hne]; [lia|]. apply Z.log2_lt_pow2; [lia|].
  destruct (Z.lt_ge_cases (Z.log2 (put_bits start len v x)) w) as [|Hge]; [done|]. exfalso.
  pose proof (Z.bit_log2 (put_bits start len v x) ltac:(lia)) as Hb. rewrite put_bits_testbit in Hb by lia.
  destruct (Z.leb_spec start (Z.log2 (put_bits start len v x))), (Z.ltb_spec (Z.log2 (put_bits start len v x)) (start + len)); try lia;
    cbn in Hb; rewrite (testbit_above w) in Hb by lia; done.
Qed.

(** ** Transmit descriptors in memory *)

Definition tx_size (f : contents) (a : Z) : Z := extract (dw f a 1) 0 13.
Definition tx_buf (f : contents) (a : Z) : list Z := bytes_at f (dw f a 2) (Z.to_nat (tx_size f a)).

(** The descriptor after the one at [a]. *)
Definition tx_next (x : dwmac) (f : contents) (a : Z) : Z :=
  u32 (if bit (dw f a 0) 21 then reg DMA_TX_DESC_LIST_ADDR x else if bit (dw f a 0) 20 then dw f a 3 else a + desc_skip x).

(** One buffer, or a pointer to the next descriptor in place of the second. *)
Definition tx_single (f : contents) (a : Z) : bool :=
  bit (dw f a 0) 21 || bit (dw f a 0) 20 || (extract (dw f a 1) 16 13 =? 0) && (dw f a 3 =? 0).

(** A descriptor that the MAC owns, with its buffer in memory. *)
Definition tx_owned (x : dwmac) (f : contents) (a : Z) : Prop :=
  0 <= a < 2 ^ 32 /\ a + desc_size x <= rm_limit /\ bit (dw f a 0) 31 = true /\ tx_single f a = true /\
  dw f a 2 < rm_limit /\ dw f a 2 + tx_size f a <= rm_limit.

Definition disowned (f : contents) (a : Z) : contents := write_at f a (store_le 4 (put_bits 31 1 0 (dw f a 0))).

(** The first word of the descriptor at [a] is not part of the descriptor at [b] or its buffer. *)
Definition apart (x : dwmac) (f : contents) (a b : Z) : Prop :=
  (b + desc_size x <= a \/ a + 4 <= b) /\ (dw f b 2 + tx_size f b <= a \/ a + 4 <= dw f b 2).

(** A frame: the descriptor at [a] and then those of [l]. *)
Fixpoint tx_chain (x : dwmac) (f : contents) (a : Z) (l : list Z) : Prop :=
  tx_owned x f a /\
  match l with
  | [] => bit (dw f a 0) 29 = true
  | b :: l' => bit (dw f a 0) 29 = false /\ tx_next x f a = b /\ Forall (apart x f a) l /\ tx_chain x f b l'
  end.

Fixpoint tx_last (a : Z) (l : list Z) : Z := match l with [] => a | b :: l' => tx_last b l' end.
Fixpoint tx_front (a : Z) (l : list Z) : list Z := match l with [] => [] | b :: l' => a :: tx_front b l' end.

Definition gather (f : contents) (l : list Z) : list Z := concat (map (tx_buf f) l).

(** The descriptor at [b] and its buffer are the same in both memories. *)
Definition same_tx (x : dwmac) (f g : contents) (b : Z) : Prop :=
  (forall i, (i < 4)%nat -> dw g b i = dw f b i) /\ tx_buf g b = tx_buf f b.

Lemma same_disowned x f a b : apart x f a b -> same_tx x f (disowned f a) b.
Proof.
  intros [H1 H2]. pose proof (dsize_range x). assert (forall i, (i < 4)%nat -> dw (disowned f a) b i = dw f b i) as Hw.
  { intros i Hi. apply dw_write_ne. lia. }
  split; [done|]. unfold tx_buf, tx_size. rewrite !Hw by lia. fold (tx_size f b).
  apply bytes_at_write_disjoint. rewrite length_store_le. pose proof (extract_range (dw f b 1) 0 13). unfold tx_size in *. lia.
Qed.

Lemma tx_size_same x f g b : same_tx x f g b -> tx_size g b = tx_size f b.
Proof. intros [H _]. unfold tx_size. by rewrite H by lia. Qed.

Lemma tx_owned_same x f g b : same_tx x f g b -> tx_owned x f b -> tx_owned x g b.
Proof. intros Hs. pose proof (tx_size_same _ _ _ _ Hs) as Hz. destruct Hs as [H _]. unfold tx_owned, tx_single. by rewrite Hz, !H by lia. Qed.

Lemma tx_next_same x f g b : same_tx x f g b -> tx_next x g b = tx_next x f b.
Proof. intros [H _]. unfold tx_next. by rewrite !H by lia. Qed.

Lemma apart_same x f g a b : same_tx x f g b -> apart x f a b -> apart x g a b.
Proof. intros Hs. pose proof (tx_size_same _ _ _ _ Hs) as Hz. destruct Hs as [H _]. unfold apart. by rewrite Hz, !H by lia. Qed.

Lemma tx_chain_same x f g l : forall a, Forall (same_tx x f g) (a :: l) -> tx_chain x f a l -> tx_chain x g a l.
Proof.
  induction l as [|b l IH]; intros a Hs Hc; inversion_clear Hs as [|?? Ha Hl]; cbn [tx_chain] in *; pose proof Ha as [Hw _].
  - destruct Hc as [Ho He]. rewrite Hw by lia. eauto using tx_owned_same.
  - destruct Hc as (Ho & He & Hn & Hp & Hc). rewrite Hw, (tx_next_same _ _ _ _ Ha) by lia. split_and!; eauto using tx_owned_same.
    eapply Forall_impl; [exact (proj2 (Forall_and _ _) (conj Hl Hp))|]. intros c [? ?]. by eapply apart_same.
Qed.

Lemma gather_same x f g l : Forall (same_tx x f g) l -> gather g l = gather f l /\ map (tx_buf g) l = map (tx_buf f) l.
Proof. unfold gather. induction 1 as [|b l [_ H] _ [IH1 IH2]]; [done|]. cbn. by rewrite H, IH1, IH2. Qed.

(** ** The steps of [tx] *)

Lemma mem_ok_disowned f a : mem_ok f -> mem_ok (disowned f a).
Proof. intros Hf. apply mem_ok_write; [done|apply store_le_bytes]. Qed.

Lemma own_word f a : mem_ok f -> dw (disowned f a) a 0 = put_bits 31 1 0 (dw f a 0).
Proof.
  intros Hf. unfold disowned. rewrite dw_write_eq. apply wrap_small. pose proof (dw_range f a 0 Hf). by apply put_bits_range.
Qed.

Lemma disown_desc x f a d : is_desc f a (dlen x) d -> is_desc (disowned f a) a (dlen x) (disown d).
Proof.
  intros Hd. pose proof (dsize_range x). unfold disowned, disown. rewrite <- (word_desc f a (dlen x) d 0) by (done || unfold dlen; lia).
  apply desc_first_word; [done|unfold dlen; lia].
Qed.

(** A descriptor that was given back leads to the same next descriptor. *)
Lemma disowned_next x f a : mem_ok f -> tx_next x (disowned f a) a = tx_next x f a /\ tx_single (disowned f a) a = tx_single f a /\
  bit (dw (disowned f a) a 0) 30 = bit (dw f a 0) 30.
Proof.
  intros Hf. unfold tx_next, tx_single. rewrite (own_word f a Hf). rewrite !bit_put_ne by lia.
  assert (forall i, (0 < i)%nat -> dw (disowned f a) a i = dw f a i) as Hw by (intros; apply dw_write_ne; lia). by rewrite !Hw by lia.
Qed.

Lemma reg_put_eq r v x : reg r (put_reg r v x) = u32 v.
Proof. unfold reg, put_reg. cbn. by rewrite lookup_insert_eq. Qed.

Lemma reg_put_ne r r' v x : r <> r' -> reg r (put_reg r' v x) = reg r x.
Proof. intros. unfold reg, put_reg. cbn. by rewrite lookup_insert_ne. Qed.

Lemma put_put r v v' x : put_reg r v' (put_reg r v x) = put_reg r v' x.
Proof. unfold put_reg, set_regs. cbn. by rewrite insert_insert_eq. Qed.

(** The MAC at the descriptor [a]. *)
Definition tx_at (a : Z) (x : dwmac) : dwmac := put_reg DMA_CURRENT_TX_DESC a x.

Lemma tx_at_size a x : desc_size (tx_at a x) = desc_size x /\ desc_skip (tx_at a x) = desc_skip x /\
  reg DMA_TX_DESC_LIST_ADDR (tx_at a x) = reg DMA_TX_DESC_LIST_ADDR x.
Proof. unfold tx_at, desc_skip, desc_size. by rewrite !reg_put_ne. Qed.

Lemma move_runs x f a d :
  is_desc f a (dlen x) d -> 0 <= a < 2 ^ 32 -> tx_single f a = true ->
  runs (move_to_next_tx_desc d) (tx_at a x) f tt (tx_at (tx_next x f a) x) f.
Proof.
  intros Hd Ha Hs. pose proof (dsize_range x). unfold move_to_next_tx_desc, etx_end_ring, etx_chained, etx_buffer2_size, des3.
  rewrite !(word_desc f a (dlen x) d) by (done || unfold dlen; lia). destruct (tx_at_size a x) as (Hz & Hk & Hl).
  assert (forall v, put_reg DMA_CURRENT_TX_DESC v (tx_at a x) = tx_at (u32 v) x) as Hput.
  { intros v. unfold tx_at. rewrite put_put. unfold put_reg. by rewrite (wrap_small 32 (u32 v)) by apply u32_range. }
  unfold tx_single, tx_next in *. destruct (bit (dw f a 0) 21) eqn:E1.
  - rewrite <- Hl, <- Hput. by apply (runs_upd bus (fun s => put_reg DMA_CURRENT_TX_DESC (reg DMA_TX_DESC_LIST_ADDR s) s)).
  - destruct (bit (dw f a 0) 20) eqn:E2.
    + rewrite <- Hput. by apply (runs_upd bus (put_reg DMA_CURRENT_TX_DESC (dw f a 3))).
    + cbn [orb] in Hs. apply andb_true_iff in Hs as [->%Z.eqb_eq ->%Z.eqb_eq]. cbn [orb Z.ltb Z.compare negb Z.eqb].
      rewrite <- Hk, <- Hput. replace (a + desc_skip (tx_at a x)) with (reg DMA_CURRENT_TX_DESC (tx_at a x) + desc_skip (tx_at a x))
        by (unfold tx_at at 1; rewrite reg_put_eq, wrap_small by done; done).
      by apply (runs_upd bus (fun s => put_reg DMA_CURRENT_TX_DESC (reg DMA_CURRENT_TX_DESC s + desc_skip s) s)).
Qed.

(** A frame buffer with [l] appended. *)
Definition add_bytes (fr : Payload) (l : list Z) : Payload :=
  frame_store (m_size fr) l (mk_frame (m_buffer fr) (m_size fr + Z.of_nat (length l))).

Definition frame_ok (fr : Payload) : Prop := bytes_ok (m_buffer fr) /\ 0 <= m_size fr <= Z.of_nat (length (m_buffer fr)).

Lemma add_bytes_ok fr l : frame_ok fr -> bytes_ok l -> m_size fr + Z.of_nat (length l) <= Z.of_nat (length (m_buffer fr)) ->
  frame_ok (add_bytes fr l) /\ frame_bytes (add_bytes fr l) = frame_bytes fr ++ l /\ length (m_buffer (add_bytes fr l)) = length (m_buffer fr) /\
  m_size (add_bytes fr l) = m_size fr + Z.of_nat (length l).
Proof.
  intros [Hb Hz] Hl Hc. unfold add_bytes, frame_store, frame_ok, frame_bytes. cbn [m_buffer m_size].
  rewrite length_splice by lia. split_and!; try lia.
  - unfold splice, bytes_ok. rewrite !Forall_app. split_and!; [by apply Forall_take|done|by apply Forall_drop].
  - unfold splice. rewrite app_assoc. apply take_app_length'. rewrite length_app, length_take. lia.
Qed.

Lemma add_all_ok bs : forall fr, frame_ok fr -> Forall bytes_ok bs -> m_size fr + Z.of_nat (length (concat bs)) <= Z.of_nat (length (m_buffer fr)) ->
  let fr' := foldl add_bytes fr bs in
  frame_ok fr' /\ frame_bytes fr' = frame_bytes fr ++ concat bs /\ length (m_buffer fr') = length (m_buffer fr) /\
  m_size fr' = m_size fr + Z.of_nat (length (concat bs)).
Proof.
  induction bs as [|b bs IH]; intros fr Hf Hb Hc; cbn [foldl concat length] in *; [rewrite app_nil_r; split_and!; [done..|lia]|].
  inversion_clear Hb. rewrite length_app in *. destruct (add_bytes_ok fr b) as (H1 & H2 & H3 & H4); [done|done|lia|].
  destruct (IH (add_bytes fr b)) as (J1 & J2 & J3 & J4); [done|done|lia|]. rewrite J2, H2, <- app_assoc. split_and!; [done..|lia|lia].
Qed.

Lemma fetch_runs x f a n :
  frame_ok (m_tx_frame x) -> 0 <= n -> m_size (m_tx_frame x) + n <= Z.of_nat (length (m_buffer (m_tx_frame x))) ->
  0 <= a < rm_limit -> a + n <= rm_limit ->
  runs (fetch bus a n) x f tt (set_frame (add_bytes (m_tx_frame x) (bytes_at f a (Z.to_nat n))) x) f.
Proof.
  intros [Hb Hz] Hn Hc Ha Hl. unfold fetch. eapply runs_bind; [by apply runs_get|]. cbv zeta beta. unfold frame_resize.
  rewrite (proj2 (Z.leb_le _ _)) by lia. cbn [m_buffer]. set (old := take _ _).
  assert (length old = Z.to_nat n) as Ho by (unfold old; rewrite length_take, length_drop; lia).
  eapply runs_bind; [apply (runs_read bus _ old); [done|lia|by apply Forall_take, Forall_drop]|]. rewrite Ho.
  unfold add_bytes. rewrite length_bytes_at, Z2Nat.id by done. by apply (runs_upd bus (set_frame _)).
Qed.

Lemma tx_at_id a x : regs x !! DMA_CURRENT_TX_DESC = Some a -> 0 <= a < 2 ^ 32 -> tx_at a x = x.
Proof. intros H Ha. unfold tx_at, put_reg. rewrite wrap_small, insert_id by done. by destruct x. Qed.

Lemma tx_fetch_runs x f a d :
  is_desc f a (dlen x) d -> tx_owned x f a -> mem_ok f -> frame_ok (m_tx_frame x) ->
  m_size (m_tx_frame x) + Z.of_nat (length (tx_buf f a)) <= Z.of_nat (length (m_buffer (m_tx_frame x))) ->
  runs (fetch bus (des2 d) (etx_buffer1_size d)) x f tt (set_frame (add_bytes (m_tx_frame x) (tx_buf f a)) x) f.
Proof.
  intros Hd (Ha & Hs & _ & _ & H2 & H3) Hm Hf Hc. pose proof (dsize_range x). unfold des2, etx_buffer1_size.
  rewrite !(word_desc f a (dlen x) d) by (done || unfold dlen; lia). fold (tx_size f a).
  unfold tx_buf in Hc. rewrite length_bytes_at in Hc. pose proof (extract_range (dw f a 1) 0 13). pose proof (dw_range f a 2 Hm).
  unfold tx_buf. apply fetch_runs; try done; unfold tx_size in *; lia.
Qed.

Lemma segments_end fuel d : etx_last_segment d = true -> segments bus fuel d = sm_ret d.
Proof. destruct fuel; cbn [segments]; by intros ->. Qed.

(** One turn of the loop: the descriptor at [a] is given back and the one at [b] read. *)
Lemma segment_runs {A} (k : list Z -> SM (dwmac * (dma * W)) A) x f a b d :
  etx_last_segment d = false -> is_desc f a (dlen x) d -> mem_ok f -> tx_owned x f a -> tx_next x f a = b -> apart x f a b -> tx_owned x f b ->
  frame_ok (m_tx_frame x) -> m_size (m_tx_frame x) + Z.of_nat (length (tx_buf f b)) <= Z.of_nat (length (m_buffer (m_tx_frame x))) ->
  exists d', is_desc (disowned f a) b (dlen x) d' /\ forall r x' f',
  runs (k d') (tx_at b (set_frame (add_bytes (m_tx_frame x) (tx_buf f b)) x)) (disowned f a) r x' f' ->
  runs (do! cur := get (reg DMA_CURRENT_TX_DESC) in
        move_to_next_tx_desc d ;;!
        let d := disown d in
        write_desc bus cur d ;;!
        do! (own, d) := read_tx_desc bus d in
        if negb own then sm_fail StopExit else fetch bus (des2 d) (etx_buffer1_size d) ;;! k d) (tx_at a x) f r x' f'.
Proof.
  intros Hlast Hd Hm Ho Hnext Hap Hob Hf Hcap. pose proof (dsize_range x) as Hds. pose proof Ho as (Ha & Han & _ & Hs & _).
  pose proof (same_disowned x f a b Hap) as Hsame. pose proof (tx_owned_same _ _ _ _ Hsame Hob) as Hob'. pose proof Hob' as (Hb & Hbn & Hown & _).
  assert (dlen (tx_at (tx_next x f a) x) = dlen x) as Hdl by (unfold dlen; by rewrite (proj1 (tx_at_size _ _))).
  pose proof (disown_desc x f a d Hd) as (Hl' & Hb' & _). rewrite Hnext in *.
  destruct (read_desc_runs DMA_CURRENT_TX_DESC (disown d) (tx_at b x) (disowned f a) b) as (d' & Hd' & Hrun).
  { unfold tx_at. by rewrite reg_put_eq, wrap_small. } { done. } { done. } { by apply mem_ok_disowned. } { lia. } { by rewrite (proj1 (tx_at_size _ _)). }
  rewrite Hdl in Hd'. exists d'. split; [done|]. intros r x' f' Hk.
  eapply runs_bind; [by apply runs_get|]. eapply runs_bind; [by apply move_runs|]. cbv zeta.
  replace (reg DMA_CURRENT_TX_DESC (tx_at a x)) with a by (unfold tx_at; rewrite reg_put_eq; by rewrite wrap_small).
  eapply runs_bind.
  { unfold disown. rewrite (word_desc f a (dlen x) d 0) by (done || unfold dlen; lia). rewrite Hnext.
    apply write_desc_runs; [by rewrite Hdl|lia|]. by rewrite (proj1 (tx_at_size _ _)). }
  fold (disowned f a). eapply runs_bind; [exact Hrun|]. rewrite Hown. cbn [negb].
  eapply runs_bind; [|exact Hk].
  replace (tx_buf f b) with (tx_buf (disowned f a) b) by apply Hsame.
  apply (tx_fetch_runs (tx_at b x)); try done.
  - by rewrite Hdl.
  - unfold tx_owned in *. by rewrite (proj1 (tx_at_size _ _)).
  - by apply mem_ok_disowned.
  - replace (tx_buf (disowned f a) b) with (tx_buf f b) by (symmetry; apply Hsame). done.
Qed.

Lemma tx_chain_regs x y f l : regs x = regs y -> forall a, tx_chain x f a l -> tx_chain y f a l.
Proof.
  intros E. assert (forall r, reg r x = reg r y) as Hr by (intros; unfold reg; by rewrite E).
  assert (desc_size x = desc_size y) as Hz by (unfold desc_size; by rewrite Hr). assert (desc_skip x = desc_skip y) as Hk by (unfold desc_skip; by rewrite Hz, Hr).
  induction l as [|b l IH]; intros a; cbn [tx_chain]; unfold tx_owned, tx_next, apart; rewrite Hz, ?Hr, ?Hk; [done|].
  intros (H1 & H2 & H3 & H4 & H5). by repeat split; auto; apply H1.
Qed.

Lemma tx_last_elem a l : tx_last a l ∈ a :: l.
Proof. revert a. induction l as [|b l IH]; intros a; cbn [tx_last]; [set_solver|]. specialize (IH b). set_solver. Qed.

Lemma same_tx_trans x f g h b : same_tx x f g b -> same_tx x g h b -> same_tx x f h b.
Proof. intros [H1 H2] [H3 H4]. split; [intros i Hi; rewrite H3 by done; auto|congruence]. Qed.

(** The loop over the segments of a frame. *)
Lemma segments_runs l : forall fuel x f a d,
  tx_chain x f a l -> is_desc f a (dlen x) d -> mem_ok f -> frame_ok (m_tx_frame x) ->
  m_size (m_tx_frame x) + Z.of_nat (length (gather f l)) <= Z.of_nat (length (m_buffer (m_tx_frame x))) -> (length l <= fuel)%nat ->
  let g := foldl disowned f (tx_front a l) in
  let e := tx_last a l in
  exists d', is_desc g e (dlen x) d' /\ mem_ok g /\ same_tx x f g e /\ tx_owned x g e /\
    runs (segments bus fuel d) (tx_at a x) f d' (tx_at e (set_frame (foldl add_bytes (m_tx_frame x) (map (tx_buf f) l)) x)) g.
Proof.
  induction l as [|b l IH]; intros fuel x f a d Hc Hd Hm Hf Hcap Hfuel g e; cbn [tx_chain tx_last tx_front foldl map length] in *;
    pose proof (dsize_range x) as Hds; destruct Hc as (Ho & He);
    assert (etx_last_segment d = bit (dw f a 0) 29) as Hlast by (unfold etx_last_segment; by rewrite (word_desc f a (dlen x) d) by (done || unfold dlen; lia)).
  - exists d. split_and!; try done. rewrite segments_end by congruence. replace (set_frame _ x) with x by (by destruct x). apply runs_ret.
  - destruct He as (He & Hn & Hap & Hc). destruct fuel as [|fuel]; [lia|]. inversion Hap as [|?? Hab Hal]; subst.
    unfold gather in Hcap. cbn [map concat] in Hcap. rewrite length_app in Hcap.
    assert (bytes_ok (tx_buf f (tx_next x f a))) as Hbb by (by apply bytes_at_ok).
    assert (Forall (same_tx x f (disowned f a)) (tx_next x f a :: l)) as Hsame by (eapply Forall_impl; [exact Hap|]; by apply same_disowned).
    destruct (segment_runs (segments bus fuel) x f a (tx_next x f a) d) as (d1 & Hd1 & Hrun); try done; try lia.
    { congruence. } { destruct l; apply Hc. }
    destruct (add_bytes_ok (m_tx_frame x) (tx_buf f (tx_next x f a))) as (F1 & F2 & F3 & F4); [done..|lia|].
    inversion Hsame as [|?? Hs1 Hsl]; subst. destruct (gather_same _ _ _ _ Hsl) as [G1 G2].
    destruct (IH fuel (set_frame (add_bytes (m_tx_frame x) (tx_buf f (tx_next x f a))) x) (disowned f a) (tx_next x f a) d1)
      as (d' & Hd' & Hm' & Hsm & Ho' & Hrun'); try done.
    { by apply (tx_chain_regs x), (tx_chain_same x f). } { by apply mem_ok_disowned. } { rewrite G1. cbn [m_tx_frame set_frame]. rewrite F4, F3. unfold gather. lia. } { lia. }
    exists d'. split_and!; try done.
    + eapply same_tx_trans; [|exact Hsm]. exact (proj1 (Forall_forall _ _) Hsame _ (tx_last_elem _ _)).
    + cbn [segments]. rewrite Hlast, He. apply Hrun. rewrite <- G2. exact Hrun'.
Qed.

(** ** Transmission *)

(** The frame buffer after checksum offload, for the last descriptor's request [ci]. *)
Definition offloaded (c ci : Z) (fr : Payload) : Payload :=
  if bit c 10 && negb (ci =? 0) then mk_frame (insert_checksums ci (m_size fr) (m_buffer fr)) (m_size fr) else fr.

Lemma offload_runs x f d :
  runs (offload d) x f tt (set_frame (offloaded (reg DWMAC_CONFIGURATION x) (etx_checksum_insertion d) (m_tx_frame x)) x) f.
Proof.
  unfold offload, offloaded. eapply runs_bind; [by apply runs_get|]. cbv zeta. destruct (_ && _).
  - by apply (runs_upd bus (fun s => set_frame _ s)).
  - replace (set_frame _ x) with x by (by destruct x). apply runs_ret.
Qed.

(** The interrupt register after a frame was sent. *)
Definition tx_intr (ic : bool) (i : InterruptRegister) : InterruptRegister :=
  let i := setTxState TX_CLOSING (setTxState TX_READING (setTxState TX_FETCHING i)) in
  setTxState TX_SUSPENDED (if ic then intr_fire TxInt i else i).

(** The MAC after the frame of the descriptors [a :: l] was sent. *)
Definition tx_done (x : dwmac) (f : contents) (a : Z) (l : list Z) : dwmac :=
  let e := tx_last a l in
  let fr := foldl add_bytes (mk_frame (m_buffer (m_tx_frame x)) 0) (map (tx_buf f) (a :: l)) in
  let fr := offloaded (reg DWMAC_CONFIGURATION x) (extract (dw f e 0) 22 2) fr in
  let ic := bit (dw f e 0) 30 in
  set_wake (ic || intr_wake x) (set_sent (sent x ++ [frame_bytes fr])
    (tx_at (tx_next x f e) (set_frame fr (set_intr (tx_intr ic (intr x)) x)))).

(** The end of [tx], with [fr] gathered and the last descriptor at [e]. *)
Lemma tx_finish_runs x f e d :
  is_desc f e (dlen x) d -> mem_ok f -> tx_owned x f e -> 14 <= m_size (m_tx_frame x) ->
  let fr := offloaded (reg DWMAC_CONFIGURATION x) (extract (dw f e 0) 22 2) (m_tx_frame x) in
  let ic := bit (dw f e 0) 30 in
  runs (tx_finish bus d) (tx_at e x) f true
    (set_wake (ic || intr_wake x) (set_sent (sent x ++ [frame_bytes fr]) (tx_at (tx_next x f e) (set_frame fr
      (set_intr (setTxState TX_SUSPENDED (if ic then intr_fire TxInt (setTxState TX_CLOSING (intr x)) else setTxState TX_CLOSING (intr x))) x)))))
    (disowned f e).
Proof.
  intros Hd Hm (He & Hen & _ & Hsg & _) H14 fr ic. pose proof (dsize_range x) as Hds. unfold tx_finish.
  eapply runs_bind; [by apply runs_get|]. cbv beta. cbn [tx_at put_reg set_regs m_tx_frame]. rewrite (proj2 (Z.ltb_ge _ _)) by done.
  eapply runs_bind; [apply offload_runs|].
  replace (reg DWMAC_CONFIGURATION (tx_at e x)) with (reg DWMAC_CONFIGURATION x) by (unfold tx_at; by rewrite reg_put_ne).
  replace (etx_checksum_insertion d) with (extract (dw f e 0) 22 2)
    by (unfold etx_checksum_insertion; by rewrite (word_desc f e (dlen x) d) by (done || unfold dlen; lia)).
  eapply runs_bind; [by apply (runs_upd bus (fun s => set_sent (sent s ++ [frame_bytes (m_tx_frame s)]) s))|].
  eapply runs_bind; [apply runs_upd_intr|]. eapply runs_bind; [by apply runs_get|]. cbv zeta.
  set (y := set_intr (setTxState TX_CLOSING (intr x)) (set_sent (sent x ++ [frame_bytes fr]) (set_frame fr x))).
  change (runs _ _ _ _ _ _) with (runs (write_desc bus (reg DMA_CURRENT_TX_DESC (tx_at e y)) (disown d) ;;!
     move_to_next_tx_desc (disown d) ;;! sm_when (etx_interrupt (disown d)) (interrupts_fire TxInt) ;;! upd_intr (setTxState TX_SUSPENDED) ;;! sm_ret true)
     (tx_at e y) f true (set_wake (ic || intr_wake x) (set_sent (sent x ++ [frame_bytes fr]) (tx_at (tx_next x f e) (set_frame fr
      (set_intr (setTxState TX_SUSPENDED (if ic then intr_fire TxInt (setTxState TX_CLOSING (intr x)) else setTxState TX_CLOSING (intr x))) x))))) (disowned f e)).
  replace (reg DMA_CURRENT_TX_DESC (tx_at e y)) with e by (unfold tx_at; rewrite reg_put_eq; by rewrite wrap_small).
  assert (dlen (tx_at e y) = dlen x) as Hdl by (unfold dlen; by rewrite (proj1 (tx_at_size _ _))).
  eapply runs_bind.
  { unfold disown. rewrite (word_desc f e (dlen x) d 0) by (done || unfold dlen; lia).
    apply write_desc_runs; [by rewrite Hdl|lia|]. by rewrite (proj1 (tx_at_size _ _)). }
  fold (disowned f e). destruct (disowned_next y f e Hm) as (Hn & Hs & Hi). pose proof (disown_desc x f e d Hd) as Hd'.
  eapply runs_bind; [apply (move_runs y _ e); [done|done|by rewrite Hs]|]. rewrite Hn.
  replace (etx_interrupt (disown d)) with ic
    by (unfold etx_interrupt; by rewrite (word_desc (disowned f e) e (dlen x) (disown d)) by (done || unfold dlen; lia)).
  destruct ic; cbn [sm_when orb].
  - eapply runs_bind; [eapply runs_bind; [apply runs_upd_intr|by apply (runs_upd bus (set_wake true))]|].
    eapply runs_bind; [apply runs_upd_intr|]. apply runs_ret.
  - eapply runs_bind; [apply runs_ret|]. eapply runs_bind; [apply runs_upd_intr|].
    match goal with |- runs _ ?u _ _ ?v _ => replace v with u by (by destruct x) end. apply runs_ret.
Qed.

Lemma tx_runs fuel x f a l :
  length garbage = 32%nat -> bytes_ok garbage -> mem_ok f -> bytes_ok (m_buffer (m_tx_frame x)) ->
  getTxState (intr x) = TX_SUSPENDED -> regs x !! DMA_CURRENT_TX_DESC = Some a ->
  tx_chain x f a l -> bit (dw f a 0) 28 = true -> (length l <= fuel)%nat ->
  14 <= Z.of_nat (length (gather f (a :: l))) <= Z.of_nat (length (m_buffer (m_tx_frame x))) ->
  runs (tx bus garbage fuel) x f true (tx_done x f a l) (foldl disowned f (tx_front a l ++ [tx_last a l])).
Proof.
  intros Hg Hgb Hm Hb Hst Hcur Hc Hfs Hfuel Hlen. pose proof (dsize_range x) as Hds.
  assert (tx_owned x f a) as Ho by (destruct l; apply Hc). pose proof Ho as (Ha & Han & Hown & Hsg & _).
  destruct (read_desc_runs DMA_CURRENT_TX_DESC garbage (set_intr (setTxState TX_FETCHING (intr x)) x) f a) as (d & Hd & Hread); try done; try lia.
  { unfold reg. cbn. by rewrite Hcur. }
  set (x1 := set_frame (mk_frame (m_buffer (m_tx_frame x)) 0) (set_intr (setTxState TX_READING (setTxState TX_FETCHING (intr x))) x)).
  assert (tx_at a x1 = x1) as Hat by (apply tx_at_id; done).
  unfold gather in Hlen. cbn [map concat] in Hlen. rewrite length_app in Hlen.
  assert (frame_ok (m_tx_frame x1)) as Hf1 by (split; [done|cbn; lia]).
  set (x2 := set_frame (add_bytes (m_tx_frame x1) (tx_buf f a)) x1).
  destruct (add_bytes_ok (m_tx_frame x1) (tx_buf f a)) as (F1 & F2 & F3 & F4); [done|by apply bytes_at_ok|cbn; lia|].
  destruct (segments_runs l fuel x2 f a d) as (d' & Hd' & Hm' & Hs' & Ho' & Hseg); try done.
  { by apply (tx_chain_regs x). } { cbn [x2 m_tx_frame set_frame]. rewrite F4, F3. unfold gather. cbn. lia. }
  set (g := foldl disowned f (tx_front a l)) in *. set (e := tx_last a l) in *.
  set (x3 := set_frame (foldl add_bytes (m_tx_frame x2) (map (tx_buf f) l)) x2) in *.
  destruct (add_all_ok (map (tx_buf f) l) (m_tx_frame x2)) as (_ & _ & _ & G4); [done|apply Forall_fmap, Forall_true; intros; by apply bytes_at_ok|cbn [x2 m_tx_frame set_frame]; rewrite F4, F3; cbn; lia|].
  pose proof (tx_finish_runs x3 g e d' Hd' Hm' Ho') as Hfin. cbv zeta in Hfin.
  rewrite (proj1 Hs' 0%nat ltac:(lia)), (tx_next_same x3 f g e Hs') in Hfin.
  unfold tx. eapply runs_bind; [by apply runs_get|]. cbv beta. rewrite Hst. cbn [negb Z.eqb TX_SUSPENDED Pos.eqb].
  eapply runs_bind; [apply runs_upd_intr|]. eapply runs_bind; [exact Hread|]. rewrite Hown. cbn [negb].
  replace (etx_first_segment d) with true by (unfold etx_first_segment; by rewrite (word_desc f a (dlen x) d) by (done || unfold dlen; lia)).
  cbn [negb]. eapply runs_bind; [apply runs_upd_intr|].
  eapply runs_bind; [by apply (runs_upd bus (fun s => set_frame (mk_frame (m_buffer (m_tx_frame s)) 0) s))|]. change (set_frame _ (set_intr _ _)) with x1.
  eapply runs_bind; [apply (tx_fetch_runs x1 f a); [done|done|done|done|cbn; lia]|]. fold x2.
  eapply runs_bind; [rewrite <- (tx_at_id a x2) by done; exact Hseg|]. rewrite foldl_app. cbn [foldl]. fold g.
  apply Hfin. change (14 <= m_size (foldl add_bytes (m_tx_frame x2) (map (tx_buf f) l))). rewrite G4. change (m_size (m_tx_frame x2)) with (m_size (add_bytes (m_tx_frame x1) (tx_buf f a))). rewrite F4. cbn. lia.
Qed.

Lemma front_last a l : tx_front a l ++ [tx_last a l] = a :: l.
Proof. revert a. induction l as [|b l IH]; intros a; cbn; [done|]. by rewrite IH. Qed.

Lemma dw_disowned_all l : forall f a, Forall (fun b => b + 4 <= a \/ a + 4 <= b) l -> dw (foldl disowned f l) a 0 = dw f a 0.
Proof. induction l as [|b l IH]; intros f a H; cbn [foldl]; [done|]. inversion_clear H. rewrite IH by done. apply dw_write_ne. lia. Qed.

(** The descriptors of a frame are given back and not changed otherwise. *)
Lemma own_cleared x l : forall f a b, mem_ok f -> tx_chain x f a l -> b ∈ a :: l -> dw (foldl disowned f (a :: l)) b 0 = put_bits 31 1 0 (dw f b 0).
Proof.
  pose proof (dsize_range x) as Hds. induction l as [|c l IH]; intros f a b Hm Hc Hb; cbn [foldl tx_chain] in *.
  - apply list_elem_of_singleton in Hb as ->. by apply own_word.
  - destruct Hc as (_ & _ & _ & Hap & Hc). apply elem_of_cons in Hb as [->|Hb].
    + rewrite <- (own_word f a Hm). apply (dw_disowned_all (c :: l)). eapply Forall_impl; [exact Hap|]. intros e [? _]. lia.
    + assert (Forall (same_tx x f (disowned f a)) (c :: l)) as Hs by (eapply Forall_impl; [exact Hap|]; by apply same_disowned).
      pose proof (proj1 (Forall_forall _ _) Hs b Hb) as [Hw _]. rewrite <- (Hw 0%nat) by lia.
      apply IH; [by apply mem_ok_disowned|by apply (tx_chain_same x f)|done].
Qed.

(** C20: a frame that the driver spread over a chain of descriptors is sent once, as the bytes of
    its buffers in order (with the checksums it asked for), every descriptor goes back to the
    driver, and the MAC waits at the next one. *)
Theorem tx_sends_frame fuel x f a l :
  length garbage = 32%nat -> bytes_ok garbage -> mem_ok f -> bytes_ok (m_buffer (m_tx_frame x)) ->
  getTxState (intr x) = TX_SUSPENDED -> regs x !! DMA_CURRENT_TX_DESC = Some a ->
  tx_chain x f a l -> bit (dw f a 0) 28 = true -> (length l <= fuel)%nat ->
  14 <= Z.of_nat (length (gather f (a :: l))) <= Z.of_nat (length (m_buffer (m_tx_frame x))) ->
  exists x' g fr, runs (tx bus garbage fuel) x f true x' g /\
    frame_bytes fr = gather f (a :: l) /\
    sent x' = sent x ++ [frame_bytes (offloaded (reg DWMAC_CONFIGURATION x) (extract (dw f (tx_last a l) 0) 22 2) fr)] /\
    (forall b, b ∈ a :: l -> dw g b 0 = put_bits 31 1 0 (dw f b 0)) /\
    reg DMA_CURRENT_TX_DESC x' = tx_next x f (tx_last a l) /\ getTxState (intr x') = TX_SUSPENDED /\
    (bit (dw f (tx_last a l) 0) 30 = true -> intr_wake x' = true).
Proof.
  intros Hg Hgb Hm Hb Hst Hcur Hc Hfs Hfuel Hlen. do 3 eexists. split; [by apply tx_runs|]. rewrite front_last. split_and!.
  - exact (proj1 (proj2 (add_all_ok (map (tx_buf f) (a :: l)) (mk_frame (m_buffer (m_tx_frame x)) 0)
      ltac:(split; [done|cbn; lia]) ltac:(apply Forall_fmap, Forall_true; intros; by apply bytes_at_ok) ltac:(unfold gather in Hlen; cbn [m_size m_buffer]; lia)))).
  - done.
  - intros b Hbin. by apply (own_cleared x).
  - change (reg _ _) with (reg DMA_CURRENT_TX_DESC (put_reg DMA_CURRENT_TX_DESC (tx_next x f (tx_last a l)) x)). rewrite reg_put_eq. apply wrap_small, u32_range.
  - unfold tx_done, tx_intr. cbn [intr set_wake set_sent tx_at put_reg set_regs set_frame set_intr]. by apply getTx_setTx.
  - unfold tx_done. cbn [intr_wake set_wake]. by intros ->.
Qed.

(** ** Reception *)

(** The descriptor after the one at [a]. *)
Definition rx_next (x : dwmac) (f : contents) (a : Z) : Z :=
  u32 (if bit (dw f a 1) 15 then reg DMA_RX_DESC_LIST_ADDR x else if bit (dw f a 1) 14 then dw f a 3 else a + desc_skip x).

(** A descriptor that the MAC owns, with room for [n] bytes apart from the descriptor itself. *)
Definition rx_ready (x : dwmac) (f : contents) (a n : Z) : Prop :=
  0 <= a < 2 ^ 32 /\ a + desc_size x <= rm_limit /\ bit (dw f a 0) 31 = true /\ n <= extract (dw f a 1) 0 13 /\
  dw f a 2 < rm_limit /\ dw f a 2 + n <= rm_limit /\ (dw f a 2 + n <= a \/ a + desc_size x <= dw f a 2).

Definition rx_intr (ic : bool) (i : InterruptRegister) : InterruptRegister :=
  let i := setRxState RX_CLOSING (setRxState RX_TRANSFERRING (setRxState RX_FETCHING i)) in
  setRxState RX_SUSPENDED (if ic then intr_fire RxInt i else i).

Definition rx_mem (f : contents) (a : Z) (frame : list Z) : contents :=
  write_at (write_at f (dw f a 2) frame) a (store_le 4 (rx_word (Z.of_nat (length frame)) (dw f a 0))).

Definition rx_state (x : dwmac) (f : contents) (a : Z) : dwmac :=
  let ic := negb (bit (dw f a 1) 31) in
  set_wake (ic || intr_wake x) (put_reg DMA_CURRENT_RX_DESC (rx_next x f a) (set_intr (rx_intr ic (intr x)) x)).

Lemma next_rx_runs x f g a d :
  (forall i, (0 < i < 4)%nat -> word d i = dw f a i) -> regs x !! DMA_CURRENT_RX_DESC = Some a ->
  runs (next_rx_desc d) x g tt (put_reg DMA_CURRENT_RX_DESC (rx_next x f a) x) g.
Proof.
  intros Hw Hcur. assert (forall v, put_reg DMA_CURRENT_RX_DESC (u32 v) x = put_reg DMA_CURRENT_RX_DESC v x) as Hput.
  { intros v. unfold put_reg. by rewrite (wrap_small 32 (u32 v)) by apply u32_range. }
  unfold next_rx_desc, erx_end_ring, erx_chained, des3, rx_next. rewrite !Hw by lia. rewrite Hput. destruct (bit (dw f a 1) 15); [|destruct (bit (dw f a 1) 14)].
  - by apply (runs_upd bus (fun s => put_reg DMA_CURRENT_RX_DESC (reg DMA_RX_DESC_LIST_ADDR s) s)).
  - by apply (runs_upd bus (put_reg DMA_CURRENT_RX_DESC (dw f a 3))).
  - replace (a + desc_skip x) with (reg DMA_CURRENT_RX_DESC x + desc_skip x) by (unfold reg; by rewrite Hcur).
    by apply (runs_upd bus (fun s => put_reg DMA_CURRENT_RX_DESC (reg DMA_CURRENT_RX_DESC s + desc_skip s) s)).
Qed.

Lemma rx_runs x f a frame :
  length garbage = 32%nat -> bytes_ok garbage -> mem_ok f -> bytes_ok frame -> 14 <= Z.of_nat (length frame) ->
  bit (reg DMA_OPERATION_MODE x) 1 = true -> getRxState (intr x) = RX_SUSPENDED -> regs x !! DMA_CURRENT_RX_DESC = Some a ->
  rx_ready x f a (Z.of_nat (length frame)) ->
  runs (rx bus garbage frame) x f true (rx_state x f a) (rx_mem f a frame).
Proof.
  intros Hg Hgb Hm Hfb Hlen Hop Hst Hcur (Ha & Han & Hown & Hsz & H2 & H2n & Hdis). pose proof (dsize_range x) as Hds. pose proof (dw_range f a 2 Hm) as Hd2.
  destruct (read_desc_runs DMA_CURRENT_RX_DESC garbage (set_intr (setRxState RX_FETCHING (intr x)) x) f a) as (d & Hd & Hread); try done; try lia.
  { unfold reg. cbn. by rewrite Hcur. }
  assert (forall i, (i < 4)%nat -> word d i = dw f a i) as Hw by (intros i Hi; apply (word_desc f a (dlen x)); [done|unfold dlen; lia]).
  assert (forall v i, (0 < i < 4)%nat -> word (put_word 0 v d) i = dw f a i) as Hw' by (intros v i Hi; rewrite word_put_ne; [apply Hw; lia|destruct Hd as [-> _]; lia|lia]).
  unfold rx. cbv zeta. rewrite (proj2 (Z.ltb_ge _ _)) by lia. eapply runs_bind; [by apply runs_get|]. rewrite Hop. cbn [negb].
  eapply runs_bind; [by apply runs_get|]. cbv beta. rewrite Hst. cbn [negb Z.eqb RX_SUSPENDED Pos.eqb].
  eapply runs_bind; [apply runs_upd_intr|]. eapply runs_bind; [exact Hread|]. rewrite Hown. cbn [negb].
  eapply runs_bind; [apply runs_upd_intr|]. unfold erx_buffer1_size, des2, erx_done, erx_disable_ic.
  rewrite !Hw by lia. rewrite !Hw' by lia. rewrite (proj2 (Z.ltb_ge _ _)) by lia.
  eapply runs_bind; [apply (runs_write bus); [lia|lia|done]|]. eapply runs_bind; [apply runs_upd_intr|]. eapply runs_bind; [by apply runs_get|].
  match goal with |- runs _ ?y _ _ _ _ => set (x1 := y) end. replace (reg DMA_CURRENT_RX_DESC x1) with a by (unfold reg, x1; cbn; by rewrite Hcur).
  eapply runs_bind.
  { apply write_desc_runs; [|lia|done]. destruct Hd as (Hl & Hb & Ht). split_and!; [done|done|].
    rewrite bytes_at_write_disjoint; [exact Ht|]. unfold dlen. change (desc_size x1) with (desc_size x). lia. }
  eapply runs_bind; [apply (next_rx_runs x1 f _ a); [intros i Hi; by apply Hw'|done]|].
  unfold rx_state. destruct (bit (dw f a 1) 31); cbn [negb sm_when orb].
  - eapply runs_bind; [apply runs_ret|]. eapply runs_bind; [apply runs_upd_intr|].
    match goal with |- runs _ ?u _ _ ?v _ => replace v with u by (by destruct x) end. apply runs_ret.
  - eapply runs_bind; [eapply runs_bind; [apply runs_upd_intr|by apply (runs_upd bus (set_wake true))]|].
    eapply runs_bind; [apply runs_upd_intr|]. apply runs_ret.
Qed.

(** C31: a frame that arrives while the receiver waits is stored in the buffer of the current
    descriptor, the descriptor goes back to the driver with the length of the frame and its FCS,
    and the receiver waits at the next descriptor. *)
Theorem rx_stores_frame x f a frame :
  length garbage = 32%nat -> bytes_ok garbage -> mem_ok f -> bytes_ok frame -> 14 <= Z.of_nat (length frame) ->
  bit (reg DMA_OPERATION_MODE x) 1 = true -> getRxState (intr x) = RX_SUSPENDED -> regs x !! DMA_CURRENT_RX_DESC = Some a ->
  rx_ready x f a (Z.of_nat (length frame)) ->
  exists x' g, runs (payload_recv bus garbage frame) x f tt x' g /\
    bytes_at g (dw f a 2) (length frame) = frame /\
    bit (dw g a 0) 31 = false /\ extract (dw g a 0) 16 14 = Z.of_nat (length frame) + 4 /\ bit (dw g a 0) 8 = true /\ bit (dw g a 0) 9 = true /\
    (forall b, ~ a <= b < a + 4 -> ~ dw f a 2 <= b < dw f a 2 + Z.of_nat (length frame) -> g b = f b) /\
    reg DMA_CURRENT_RX_DESC x' = rx_next x f a /\ getRxState (intr x') = RX_SUSPENDED.
Proof.
  intros Hg Hgb Hm Hfb Hlen Hop Hst Hcur Hr. exists (rx_state x f a), (rx_mem f a frame).
  pose proof Hr as (Ha & Han & Hown & Hsz & H2 & H2n & Hdis). pose proof (dsize_range x) as Hds. pose proof (extract_range (dw f a 1) 0 13 ltac:(lia)) as He.
  assert (dw (rx_mem f a frame) a 0 = rx_word (Z.of_nat (length frame)) (dw f a 0)) as Hw.
  { unfold rx_mem. rewrite dw_write_eq. apply wrap_small. unfold rx_word. pose proof (dw_range f a 0 Hm). repeat (apply put_bits_range; [done..|]). done. }
  split_and!.
  - unfold payload_recv. eapply runs_bind; [by apply runs_get|]. cbv beta. rewrite Hst. cbn [Z.eqb RX_SUSPENDED RX_STOPPED].
    eapply runs_bind; [by apply rx_runs|]. apply runs_ret.
  - unfold rx_mem. rewrite bytes_at_write_disjoint by (rewrite length_store_le; lia). apply bytes_at_write.
  - rewrite Hw. unfold rx_word, bit. by rewrite put_bits_testbit.
  - rewrite Hw. unfold rx_word. rewrite !(extract_put_ne _ 1) by lia. apply extract_put; lia.
  - rewrite Hw. unfold rx_word. rewrite !bit_put_ne by lia. unfold bit. by rewrite put_bits_testbit.
  - rewrite Hw. unfold rx_word. rewrite !bit_put_ne by lia. unfold bit. by rewrite put_bits_testbit.
  - intros b H1 H3. unfold rx_mem, write_at. rewrite length_store_le. by rewrite !decide_False by lia.
  - change (reg _ _) with (reg DMA_CURRENT_RX_DESC (put_reg DMA_CURRENT_RX_DESC (rx_next x f a) x)). rewrite reg_put_eq. apply wrap_small, u32_range.
  - unfold rx_state, rx_intr. cbn [intr set_wake put_reg set_regs set_intr]. by apply getRx_setRx.
Qed.
(** A frame that does not fit the buffer of the current descriptor leaves the receiver in its
    transferring state, in which it drops every later frame. *)
Theorem small_buffer_wedges x f a frame :
  length garbage = 32%nat -> bytes_ok garbage -> mem_ok f -> 14 <= Z.of_nat (length frame) ->
  bit (reg DMA_OPERATION_MODE x) 1 = true -> getRxState (intr x) = RX_SUSPENDED -> regs x !! DMA_CURRENT_RX_DESC = Some a ->
  0 <= a -> a + desc_size x <= rm_limit -> bit (dw f a 0) 31 = true -> extract (dw f a 1) 0 13 < Z.of_nat (length frame) ->
  exists x', runs (payload_recv bus garbage frame) x f tt x' f /\ getRxState (intr x') = RX_TRANSFERRING /\
    forall later, runs (payload_recv bus garbage later) x' f tt x' f.
Proof.
  intros Hg Hgb Hm Hlen Hop Hst Hcur Ha Han Hown Hsz. pose proof (dsize_range x) as Hds.
  destruct (read_desc_runs DMA_CURRENT_RX_DESC garbage (set_intr (setRxState RX_FETCHING (intr x)) x) f a) as (d & Hd & Hread); try done.
  { unfold reg. cbn. by rewrite Hcur. }
  set (x' := set_intr (setRxState RX_TRANSFERRING (setRxState RX_FETCHING (intr x))) x).
  assert (getRxState (intr x') = RX_TRANSFERRING) as Hx' by (by apply getRx_setRx). exists x'. split_and!; [|done|].
  - unfold payload_recv. eapply runs_bind; [by apply runs_get|]. cbv beta. rewrite Hst. cbn [Z.eqb RX_SUSPENDED RX_STOPPED].
    eapply runs_bind; [|apply runs_ret]. unfold rx. cbv zeta. rewrite (proj2 (Z.ltb_ge _ _)) by lia.
    eapply runs_bind; [by apply runs_get|]. rewrite Hop. cbn [negb]. eapply runs_bind; [by apply runs_get|]. cbv beta. rewrite Hst.
    cbn [negb Z.eqb RX_SUSPENDED Pos.eqb]. eapply runs_bind; [apply runs_upd_intr|]. eapply runs_bind; [exact Hread|]. rewrite Hown. cbn [negb].
    eapply runs_bind; [apply runs_upd_intr|]. unfold erx_buffer1_size. rewrite (word_desc f a (dlen x) d) by (done || unfold dlen; lia).
    rewrite (proj2 (Z.ltb_lt _ _)) by done. apply runs_ret.
  - intros later. unfold payload_recv. eapply runs_bind; [by apply runs_get|]. cbv beta. rewrite Hx'. cbn [Z.eqb RX_TRANSFERRING RX_STOPPED].
    eapply runs_bind; [|apply runs_ret]. unfold rx. cbv zeta. destruct (_ <? 14); [apply runs_ret|].
    eapply runs_bind; [by apply runs_get|]. destruct (negb _); [apply runs_ret|]. eapply runs_bind; [by apply runs_get|]. cbv beta. rewrite Hx'.
    apply runs_ret.
Qed.
End Rings.

(** The buffer-unavailable bit that a transmit poll request sets cannot be cleared by writing the
    status register. *)
Theorem poll_status_sticks v i : bit (m_dma_reg_status (set_status v (put_status 2 1 1 i))) 2 = true.
Proof. unfold bit. cbn [set_status intr_clear m_dma_reg_status put_status]. by rewrite put_bits_testbit. Qed.

(** ** Examples *)

(** The bytes of some 32-bit words. *)
Definition words (l : list Z) : list Z := concat (map (store_le 4) l).

Lemma words_ok l : bytes_ok (words l).
Proof. unfold words, bytes_ok. induction l as [|v l IH]; [constructor|]. cbn [map concat]. apply Forall_app. split; [apply store_le_bytes|exact IH]. Qed.

(** Two descriptors with buffers of 8 and of 12 bytes. *)
Definition tx_mem : contents :=
  write_at (write_at (write_at (fun _ => 0) 0x100 (words [0x90000000; 8; 0x200; 0; 0xE0000000; 12; 0x300; 0])) 0x200 (words [1; 2])) 0x300 (words [3; 4; 5]).

Lemma tx_mem_ok : mem_ok tx_mem.
Proof. repeat (apply mem_ok_write; [|apply words_ok]). intros a. lia. Qed.

Definition tx_mac : dwmac :=
  put_reg DMA_CURRENT_TX_DESC 0x100 (set_intr (setTxState TX_SUSPENDED intr_reset) (dwmac_init (replicate 64 0) mac_zero)).

Definition zeros : list Z := replicate 32 0.
Lemma zeros_ok n : bytes_ok (replicate n 0).
Proof. unfold bytes_ok. induction n; cbn; constructor; auto; lia. Qed.

(** A goal about numbers in the memory above. *)
Ltac memory :=
  repeat match goal with |- _ /\ _ => split end;
  first [ vm_compute; reflexivity | apply Z.leb_le; vm_compute; reflexivity | apply Z.ltb_lt; vm_compute; reflexivity
        | left; apply Z.leb_le; vm_compute; reflexivity | right; apply Z.leb_le; vm_compute; reflexivity ].

Lemma tx_sends_frame_witness :
  exists x' g, MacDma.runs ex_bus (tx ex_bus zeros 1) tx_mac tx_mem true x' g /\ sent x' = [words [1; 2; 3; 4; 5]] /\
    reg DMA_CURRENT_TX_DESC x' = 0x120 /\ dw g 0x110 0 = 0x60000000.
Proof.
  destruct (tx_sends_frame ex_bus zeros 1 tx_mac tx_mem 0x100 [0x110]) as (x' & g & fr & H1 & H2 & H3 & H4 & H5 & _).
  - reflexivity.
  - apply zeros_ok.
  - apply tx_mem_ok.
  - apply zeros_ok.
  - reflexivity.
  - reflexivity.
  - cbn [tx_chain]. unfold tx_owned. split; [memory|]. split; [memory|]. split; [memory|]. split; [|memory].
    constructor; [unfold apart; memory|constructor].
  - reflexivity.
  - reflexivity.
  - memory.
  - exists x', g. split; [exact H1|]. split; [|split].
    + rewrite H3. unfold offloaded. replace (bit (reg DWMAC_CONFIGURATION tx_mac) 10) with false by (vm_compute; reflexivity).
      cbn [andb]. rewrite H2. vm_compute. reflexivity.
    + rewrite H5. vm_compute. reflexivity.
    + rewrite H4 by (constructor; constructor). vm_compute. reflexivity.
Defined.

(** A receive descriptor with a buffer of 64 bytes. *)
Definition rx_mem0 : contents := write_at (fun _ => 0) 0x100 (words [0x80000000; 0x8040; 0x200; 0]).

Lemma rx_mem0_ok : mem_ok rx_mem0.
Proof. apply mem_ok_write; [|apply words_ok]. intros a. lia. Qed.

Definition rx_mac : dwmac :=
  put_reg DMA_OPERATION_MODE 2 (put_reg DMA_CURRENT_RX_DESC 0x100 (set_intr (setRxState RX_SUSPENDED intr_reset) (dwmac_init [] mac_zero))).

Lemma rx_stores_frame_witness :
  exists x' g, MacDma.runs ex_bus (payload_recv ex_bus zeros (words [1; 2; 3; 4])) rx_mac rx_mem0 tt x' g /\
    bytes_at g 0x200 16 = words [1; 2; 3; 4] /\ extract (dw g 0x100 0) 16 14 = 20 /\ reg DMA_CURRENT_RX_DESC x' = 0.
Proof.
  destruct (rx_stores_frame ex_bus zeros rx_mac rx_mem0 0x100 (words [1; 2; 3; 4])) as (x' & g & H1 & H2 & _ & H4 & _ & _ & _ & H5 & _).
  - reflexivity.
  - apply zeros_ok.
  - apply rx_mem0_ok.
  - apply words_ok.
  - memory.
  - reflexivity.
  - reflexivity.
  - reflexivity.
  - unfold rx_ready. memory.
  - exists x', g. split; [exact H1|]. split; [exact H2|]. split; [exact H4|]. rewrite H5. vm_compute. reflexivity.
Defined.
