(* ===== verification/Xgmac.v ===== *)
(** * XGMAC Ethernet controller

    [xgmac.h], [xgmac.cc]: the registers, descriptor rings, statistics and interrupt line of the
    controller.  [garbage] is what the uninitialised descriptor on the stack holds, [scratch] the
    uninitialised array that a frame is gathered in. *)

From stdpp Require Import base list numbers option gmap.
From S2P Require Import Prelude Monad Registers Tlm RegProxy MacDma.

Module Xgmac.

(** ** Registers *)

Definition R_MAX : Z := 0x400.
Definition XGMAC_VERSION : Z := 0x8.
Definition XGMAC_ADDR_HIGH (r : Z) : Z := 0x10 + r * 2.
Definition XGMAC_ADDR_LOW (r : Z) : Z := 0x11 + r * 2.
Definition DMA_BUS_MODE : Z := 0x3c0.
Definition DMA_XMT_POLL_DEMAND : Z := 0x3c1.
Definition DMA_RCV_BASE_ADDR : Z := 0x3c3.
Definition DMA_TX_BASE_ADDR : Z := 0x3c4.
Definition DMA_STATUS : Z := 0x3c5.
Definition DMA_CONTROL : Z := 0x3c6.
Definition DMA_INTR_ENA : Z := 0x3c7.
Definition DMA_CUR_TX_DESC_ADDR : Z := 0x3d2.
Definition DMA_CUR_RX_DESC_ADDR : Z := 0x3d3.
Definition DMA_STATUS_NIS : Z := 0x00010000.
Definition DMA_STATUS_AIS : Z := 0x00008000.
Definition DMA_STATUS_RU : Z := 0x00000080.
Definition DMA_STATUS_RI : Z := 0x00000040.
Definition DMA_STATUS_TI : Z := 0x00000001.
Definition DMA_CONTROL_SR : Z := 0x00000002.

Record RxTxStats : Type := mk_stats {
  rx_bytes : Z;
  tx_bytes : Z;
  st_rx : Z;
  rx_bcast : Z;
  rx_mcast : Z;
}.

(** [sent] are the frames given to the back end, the latest last; [update_event] is a pending
    notification, [sbd_irq] the level of the line. *)
Record xgmac : Type := mk_xgmac {
  m_regs : gmap Z Z;
  m_stats : RxTxStats;
  m_tx_frame : Payload;
  sent : list (list Z);
  update_event : bool;
  sbd_irq : bool;
}.

Definition reg (r : Z) (s : xgmac) : Z := default 0 (m_regs s !! r).
Definition put (r v : Z) (s : xgmac) : xgmac :=
  mk_xgmac (<[r := u32 v]> (m_regs s)) (m_stats s) (m_tx_frame s) (sent s) (update_event s) (sbd_irq s).
Definition set_stats st (s : xgmac) := mk_xgmac (m_regs s) st (m_tx_frame s) (sent s) (update_event s) (sbd_irq s).
Definition send (fr : Payload) (s : xgmac) := mk_xgmac (m_regs s) (m_stats s) fr (sent s ++ [frame_bytes fr]) (update_event s) (sbd_irq s).
Definition notify (s : xgmac) := mk_xgmac (m_regs s) (m_stats s) (m_tx_frame s) (sent s) true (sbd_irq s).
Definition put_status (bits : Z) (s : xgmac) : xgmac := put DMA_STATUS (Z.lor (reg DMA_STATUS s) bits) s.

(** ** Descriptors *)

(** [XGmacDesc] as bytes: a field of [n] bytes at [off]. *)
Definition sizeof_desc : nat := 40.
Definition field (off n : nat) (d : list Z) : Z := load_le (take n (drop off d)).
Definition ctl_stat (d : list Z) : Z := field 0 4 d.
Definition buffer1_size (d : list Z) : Z := field 4 2 d.
Definition buffer2_size (d : list Z) : Z := field 6 2 d.
Definition buffer1_addr (d : list Z) : Z := field 8 8 d.
Definition buffer2_addr (d : list Z) : Z := field 16 8 d.
Definition set_ctl (v : Z) (d : list Z) : list Z := splice 0 (store_le 4 v) d.
Definition buffer (d : list Z) : Z := Z.lor (u64 (Z.shiftl (buffer2_addr d) 32)) (buffer1_addr d).

Definition dir_reg (rx : bool) : Z := if rx then DMA_CUR_RX_DESC_ADDR else DMA_CUR_TX_DESC_ADDR.

Section Model.
Context {W : Type} (bus : dma_bus W) (garbage scratch : list Z).

Abbreviation M := (SM (xgmac * (dma * W))).

Definition enet_update_irq : M unit := upd notify.

(** The method that the event runs. *)
Definition enet_update_irq_sysc : M unit := upd (fun s =>
  mk_xgmac (m_regs s) (m_stats s) (m_tx_frame s) (sent s) false
    (negb (Z.land (reg DMA_STATUS s) (reg DMA_INTR_ENA s) =? 0))).

Definition xgmac_read_desc (d : list Z) (rx : bool) : M (list Z) :=
  do! addr := get (reg (dir_reg rx)) in on_dma (bus_read bus addr d).

Definition xgmac_write_desc (d : list Z) (rx : bool) : M unit :=
  do! addr := get (reg (dir_reg rx)) in
  upd (fun s =>
    if negb rx && bit (ctl_stat d) 21 then put (dir_reg rx) (reg DMA_TX_BASE_ADDR s) s
    else if rx && bit (buffer1_size d) 15 then put (dir_reg rx) (reg DMA_RCV_BASE_ADDR s) s
    else put (dir_reg rx) (reg (dir_reg rx) s + Z.of_nat sizeof_desc) s) ;;!
  on_dma (bus_write bus addr d).

(** ** Transmission *)

(** The body of the loop: [d] is a descriptor of the controller, [frame_size] bytes of the frame
    are in [frame]; the same for the next turn. *)
Definition send_segment (d frame : list Z) (frame_size : Z) : M (list Z * list Z * Z) :=
  let len := Z.land (buffer1_size d) 0xfff + Z.land (buffer2_size d) 0xfff in
  if Z.of_nat (length frame) <? frame_size + len then sm_fail StopUndef
  else
    do! l := on_dma (bus_read bus (buffer d) (take (Z.to_nat len) (drop (Z.to_nat frame_size) frame))) in
    let frame := splice (Z.to_nat frame_size) l frame in
    let frame_size := frame_size + len in
    do! frame_size :=
      (if bit (ctl_stat d) 29 then
         do! fr := get m_tx_frame in
         match frame_resize frame_size fr with
         | Err e => sm_fail e
         | Ret fr =>
             upd (send (frame_store 0 (take (Z.to_nat frame_size) frame) fr)) ;;!
             upd (put_status (Z.lor DMA_STATUS_TI DMA_STATUS_NIS)) ;;!
             sm_ret 0
         end
       else sm_ret frame_size) in
    let d := set_ctl (Z.ldiff (ctl_stat d) 0x80000000) d in
    xgmac_write_desc d false ;;!
    sm_ret (d, frame, frame_size).

Fixpoint send_loop (fuel : nat) (d frame : list Z) (frame_size : Z) : M unit :=
  match fuel with
  | O => sm_fail StopUndef
  | S fuel' =>
      do! d := xgmac_read_desc d false in
      if negb (bit (ctl_stat d) 31) then sm_ret tt
      else
        do! (d, frame, frame_size) := send_segment d frame frame_size in
        send_loop fuel' d frame frame_size
  end.

Definition xgmac_enet_send (fuel : nat) : M unit := send_loop fuel garbage scratch 0.

(** ** Reception *)

Definition eth_can_rx (s : xgmac) : bool := negb (Z.land (reg DMA_CONTROL s) DMA_CONTROL_SR =? 0).

Definition is_unicast (buf : list Z) : bool := negb (bit (default 0 (buf !! 0%nat)) 0).
Definition is_broadcast (buf : list Z) : bool := bool_decide (take 6 buf = replicate 6 0xff).

Definition count_rx (buf : list Z) (size : Z) (st : RxTxStats) : RxTxStats :=
  let multicast := negb (is_unicast buf) && negb (is_broadcast buf) in
  mk_stats (u64 (rx_bytes st + size)) (tx_bytes st) (u64 (st_rx st + 1))
    (if negb multicast && is_broadcast buf then u64 (rx_bcast st + 1) else rx_bcast st)
    (if multicast then u64 (rx_mcast st + 1) else rx_mcast st).

(** What [eth_rx] returns is -1 for a frame that was not taken. *)
Definition eth_rx (buf : list Z) : M Z :=
  let size := Z.of_nat (length buf) in
  do! on := get eth_can_rx in
  if negb on then sm_ret (-1)
  else if size <? 12 then
    upd (put_status (Z.lor DMA_STATUS_RI DMA_STATUS_NIS)) ;;! enet_update_irq ;;! sm_ret (-1)
  else
    do! d := xgmac_read_desc garbage true in
    if negb (bit (ctl_stat d) 31) then
      upd (put_status (Z.lor DMA_STATUS_RU DMA_STATUS_AIS)) ;;! enet_update_irq ;;! sm_ret size
    else
      on_dma (bus_write bus (buffer d) buf) ;;!
      let size := size + 4 in
      let d := set_ctl (Z.lor (u32 (Z.shiftl size 16)) 0x300) d in
      xgmac_write_desc d true ;;!
      upd (fun s => set_stats (count_rx buf size (m_stats s)) s) ;;!
      upd (put_status (Z.lor DMA_STATUS_RI DMA_STATUS_NIS)) ;;!
      enet_update_irq ;;! sm_ret size.

Definition payload_recv (frame : list Z) : M unit := do! _ := eth_rx frame in sm_ret tt.

(** ** Register accesses *)

Definition enet_read (addr : Z) : M Z :=
  let addr := Z.shiftr addr 2 in
  if addr =? XGMAC_VERSION then sm_ret 0x1012
  else if addr <? R_MAX then get (reg addr)
  else sm_ret 0.

Definition enet_write (fuel : nat) (addr value : Z) : M unit :=
  let addr := Z.shiftr addr 2 in
  (if addr =? DMA_BUS_MODE then upd (put DMA_BUS_MODE (Z.ldiff value 1))
   else if addr =? DMA_XMT_POLL_DEMAND then xgmac_enet_send fuel
   else if addr =? DMA_STATUS then upd (fun s => put DMA_STATUS (Z.ldiff (reg DMA_STATUS s) value) s)
   else if addr =? DMA_RCV_BASE_ADDR then upd (fun s => put DMA_RCV_BASE_ADDR value (put DMA_CUR_RX_DESC_ADDR value s))
   else if addr =? DMA_TX_BASE_ADDR then upd (fun s => put DMA_TX_BASE_ADDR value (put DMA_CUR_TX_DESC_ADDR value s))
   else if addr <? R_MAX then upd (put addr value)
   else sm_ret tt) ;;!
  enet_update_irq.

(** Four bytes, whatever the length. *)
Definition b_transport (fuel : nat) (t : payload) : M payload :=
  let t := set_response_status TLM_OK_RESPONSE (set_dmi_allowed false t) in
  let a := address t in
  match command t with
  | TLM_IGNORE_COMMAND => sm_ret t
  | c =>
      if (length (data t) <? 4)%nat then sm_fail StopUndef
      else match c with
      | TLM_WRITE_COMMAND => enet_write fuel a (load_le (take 4 (data t))) ;;! sm_ret t
      | _ => do! v := enet_read a in sm_ret (set_data (splice 0 (store_le 4 v) (data t)) t)
      end
  end.
End Model.

(** After construction; the buffer and the statistics are not initialised. *)
Definition xgmac_init (buf : list Z) (st : RxTxStats) (mac : MACAddress) : xgmac :=
  mk_xgmac (<[XGMAC_ADDR_HIGH 0 := mac_hi mac]> {[ XGMAC_ADDR_LOW 0 := mac_lo mac ]}) st (mk_frame buf 0) [] false false.

(** ** Rings in memory *)

Lemma xreg_put_eq r v s : reg r (put r v s) = u32 v.
Proof. unfold reg, put. cbn. by rewrite lookup_insert_eq. Qed.

Lemma xreg_put_ne r r' v s : r <> r' -> reg r (put r' v s) = reg r s.
Proof. intros. unfold reg, put. cbn. by rewrite lookup_insert_ne. Qed.

(** The descriptor at [a] and its buffer. *)
Definition desc (f : contents) (a : Z) : list Z := bytes_at f a sizeof_desc.
Definition seg_len (d : list Z) : Z := Z.land (buffer1_size d) 0xfff + Z.land (buffer2_size d) 0xfff.
Definition seg (f : contents) (a : Z) : list Z := bytes_at f (buffer (desc f a)) (Z.to_nat (seg_len (desc f a))).

(** The descriptor after the one at [a], and memory once it was given back. *)
Definition next_desc (base : Z) (f : contents) (a : Z) : Z := u32 (if bit (ctl_stat (desc f a)) 21 then base else a + 40).
Definition given_back (f : contents) (a : Z) : contents := write_at f a (store_le 4 (Z.ldiff (ctl_stat (desc f a)) 0x80000000)).

Section Ring.
Context {W : Type} (bus : dma_bus W) `{!RegMemory bus} `{!RegMemoryLaws bus}.

Definition queued (f : contents) (a : Z) : Prop :=
  0 <= a < 2 ^ 32 /\ a + 40 <= rm_limit /\ bit (ctl_stat (desc f a)) 31 = true /\
  0 <= buffer (desc f a) < rm_limit /\ buffer (desc f a) + seg_len (desc f a) <= rm_limit.

Definition apart (f : contents) (a b : Z) : Prop :=
  (b + 40 <= a \/ a + 4 <= b) /\ (buffer (desc f b) + seg_len (desc f b) <= a \/ a + 4 <= buffer (desc f b)).

(** The descriptors [l] of the controller, from [a] up to the one at [e]. *)
Fixpoint ring (base : Z) (f : contents) (a : Z) (l : list Z) (e : Z) : Prop :=
  match l with
  | [] => a = e
  | b :: l' => b = a /\ queued f a /\ Forall (apart f a) l' /\ ring base f (next_desc base f a) l' e
  end.

(** The frames in them, when [acc] was gathered before. *)
Fixpoint frames (f : contents) (acc : list Z) (l : list Z) : list (list Z) :=
  match l with
  | [] => []
  | a :: l' =>
      let acc := acc ++ seg f a in
      if bit (ctl_stat (desc f a)) 29 then acc :: frames f [] l' else frames f acc l'
  end.

Fixpoint fits (cap : Z) (f : contents) (acc : list Z) (l : list Z) : Prop :=
  match l with
  | [] => True
  | a :: l' =>
      let acc := acc ++ seg f a in
      Z.of_nat (length acc) <= cap /\ fits cap f (if bit (ctl_stat (desc f a)) 29 then [] else acc) l'
  end.

(** ** The steps of the loop *)

Lemma ctl_set v d : (4 <= length d)%nat -> ctl_stat (set_ctl v d) = u32 v.
Proof.
  intros Hl. unfold ctl_stat, set_ctl, field. rewrite drop_0. pose proof (splice_read_back 0 (store_le 4 v) d) as H.
  rewrite length_store_le, drop_0 in H. rewrite H by lia. apply load_store_le.
Qed.

Lemma field_set off n v d : (4 <= length d)%nat -> (4 <= off)%nat -> field off n (set_ctl v d) = field off n d.
Proof.
  intros Hl Ho. unfold field, set_ctl. f_equal. apply list_eq. intros i. destruct (decide (i < n)%nat); [|by rewrite !lookup_take_ge by lia].
  rewrite !lookup_take_lt, !lookup_drop, lookup_splice by (rewrite ?length_store_le; lia). rewrite length_store_le. by rewrite decide_False by lia.
Qed.

Lemma length_desc f a : length (desc f a) = 40%nat.
Proof. apply length_bytes_at. Qed.

Lemma ctl_range f a : mem_ok f -> 0 <= ctl_stat (desc f a) < 2 ^ 32.
Proof.
  intros Hm. unfold ctl_stat, field. rewrite drop_0. pose proof (load_le_bound (take 4 (desc f a)) ltac:(apply Forall_take, bytes_at_ok, Hm)) as H.
  by rewrite length_take, length_desc in H.
Qed.

Lemma seg_len_range f a : 0 <= seg_len (desc f a) < 8192.
Proof.
  unfold seg_len. change 0xfff with (Z.ones 12). rewrite !Z.land_ones by lia.
  pose proof (Z.mod_pos_bound (buffer1_size (desc f a)) (2 ^ 12)). pose proof (Z.mod_pos_bound (buffer2_size (desc f a)) (2 ^ 12)). lia.
Qed.

Lemma same_given_back f a b : apart f a b -> desc (given_back f a) b = desc f b /\ seg (given_back f a) b = seg f b.
Proof.
  intros [H1 H2]. assert (desc (given_back f a) b = desc f b) as Hd by (apply bytes_at_write_disjoint; rewrite length_store_le; unfold sizeof_desc; lia).
  split; [done|]. unfold seg. rewrite Hd. apply bytes_at_write_disjoint. rewrite length_store_le. pose proof (seg_len_range f b). lia.
Qed.

(** The ring is the same in a memory that agrees on its descriptors and buffers. *)
Definition same (f g : contents) (b : Z) : Prop := desc g b = desc f b /\ seg g b = seg f b.

Lemma ring_same base f g l e : forall a, Forall (same f g) l -> ring base f a l e -> ring base g a l e.
Proof.
  induction l as [|b l IH]; intros a Hs Hr; [done|]. inversion_clear Hs as [|?? [Hd _] Hl]. cbn [ring] in *. destruct Hr as (-> & Hq & Ha & Hr).
  unfold next_desc, queued in *. rewrite Hd. split_and!; try apply Hq; auto.
  eapply Forall_impl; [exact (proj2 (Forall_and _ _) (conj Hl Ha))|]. intros c [[Hc _] H]. unfold apart in *. by rewrite Hc.
Qed.

Lemma frames_same f g l : forall acc, Forall (same f g) l -> frames g acc l = frames f acc l /\ (forall cap, fits cap f acc l -> fits cap g acc l).
Proof.
  induction l as [|b l IH]; intros acc Hs; [done|]. inversion_clear Hs as [|?? [Hd Hb] Hl]. cbn [frames fits]. rewrite Hd, Hb.
  split; [|intros cap [? ?]; split; [done|by apply IH]]. destruct (bit _ 29); [f_equal|]; by apply IH.
Qed.

Lemma read_tx_runs x f a d :
  reg DMA_CUR_TX_DESC_ADDR x = a -> length d = 40%nat -> bytes_ok d -> 0 <= a -> a + 40 <= rm_limit ->
  runs bus (xgmac_read_desc bus d false) x f (desc f a) x f.
Proof.
  intros <- Hl Hb Ha Hn. unfold xgmac_read_desc. eapply runs_bind; [apply runs_get|]. cbn [dir_reg].
  unfold desc, sizeof_desc. rewrite <- Hl. apply (runs_read bus _ d); [lia|rewrite Hl; lia|done].
Qed.

(** A descriptor written back with another first word. *)
Lemma write_back_runs (x : xgmac) f a v : mem_ok f -> 0 <= a -> a + 40 <= rm_limit ->
  runs bus (on_dma (bus_write bus a (set_ctl v (desc f a)))) x f tt x (write_at f a (store_le 4 v)).
Proof.
  intros Hm Ha Hn.
  eapply runs_ext; [apply (write_prefix f a 40); rewrite length_store_le; lia|].
  assert (length (set_ctl v (desc f a)) = 40%nat) as Hl by (unfold set_ctl; rewrite length_splice; rewrite ?length_store_le, length_desc; lia).
  apply (runs_write bus a (set_ctl v (desc f a))); [lia|by rewrite Hl|]. unfold set_ctl, splice. apply Forall_app. split; [by apply Forall_take, bytes_at_ok|].
  apply Forall_app. split; [apply store_le_bytes|by apply Forall_drop, bytes_at_ok].
Qed.

Lemma write_tx_runs x f a v :
  reg DMA_CUR_TX_DESC_ADDR x = a -> mem_ok f -> 0 <= a < 2 ^ 32 -> a + 40 <= rm_limit -> in_width 32 v -> bit v 21 = bit (ctl_stat (desc f a)) 21 ->
  runs bus (xgmac_write_desc bus (set_ctl v (desc f a)) false) x f tt (put DMA_CUR_TX_DESC_ADDR (next_desc (reg DMA_TX_BASE_ADDR x) f a) x) (write_at f a (store_le 4 v)).
Proof.
  intros Hcur Hm Ha Hn Hv Hbit. assert (forall z, put DMA_CUR_TX_DESC_ADDR (u32 z) x = put DMA_CUR_TX_DESC_ADDR z x) as Hput.
  { intros z. unfold put. by rewrite (wrap_small 32 (u32 z)) by apply u32_range. }
  unfold xgmac_write_desc. eapply runs_bind; [apply runs_get|]. cbn [dir_reg negb andb]. rewrite Hcur.
  rewrite ctl_set by (rewrite length_desc; lia). rewrite wrap_small, Hbit by done. eapply runs_bind; [apply runs_upd|].
  assert ((if bit (ctl_stat (desc f a)) 21 then put DMA_CUR_TX_DESC_ADDR (reg DMA_TX_BASE_ADDR x) x
           else put DMA_CUR_TX_DESC_ADDR (reg DMA_CUR_TX_DESC_ADDR x + Z.of_nat sizeof_desc) x) =
          put DMA_CUR_TX_DESC_ADDR (next_desc (reg DMA_TX_BASE_ADDR x) f a) x) as ->.
  { unfold next_desc. rewrite Hput, Hcur. by destruct (bit (ctl_stat (desc f a)) 21). }
  apply write_back_runs; [done|lia|done].
Qed.

Lemma ctl_cleared f a : mem_ok f -> let v := Z.ldiff (ctl_stat (desc f a)) 0x80000000 in
  in_width 32 v /\ bit v 31 = false /\ forall k, 0 <= k < 31 -> bit v k = bit (ctl_stat (desc f a)) k.
Proof.
  intros Hm. pose proof (ctl_range f a Hm) as Hr. cbv zeta. change 0x80000000 with (2 ^ 31). split_and!.
  - by apply ldiff_width.
  - unfold bit. rewrite Z.ldiff_spec, Z.pow2_bits_true by lia. apply andb_false_r.
  - intros k Hk. unfold bit. rewrite Z.ldiff_spec, Z.pow2_bits_false by lia. apply andb_true_r.
Qed.

(** One descriptor: [acc] is gathered already. *)
Definition sent_by (last : bool) (fr : Payload) (x : xgmac) : xgmac :=
  if last then put_status (Z.lor DMA_STATUS_TI DMA_STATUS_NIS) (send fr x) else x.

Lemma segment_step x f a frame n :
  reg DMA_CUR_TX_DESC_ADDR x = a -> mem_ok f -> queued f a -> bytes_ok frame -> 0 <= n -> n + Z.of_nat (length (seg f a)) <= Z.of_nat (length frame) ->
  Z.of_nat (length frame) <= Z.of_nat (length (m_buffer (m_tx_frame x))) ->
  let frame' := splice (Z.to_nat n) (seg f a) frame in
  let n' := n + Z.of_nat (length (seg f a)) in
  let last := bit (ctl_stat (desc f a)) 29 in
  let fr := frame_store 0 (take (Z.to_nat n') frame') (mk_frame (m_buffer (m_tx_frame x)) n') in
  runs bus (send_segment bus (desc f a) frame n) x f
    (set_ctl (Z.ldiff (ctl_stat (desc f a)) 0x80000000) (desc f a), frame', if last then 0 else n')
    (put DMA_CUR_TX_DESC_ADDR (next_desc (reg DMA_TX_BASE_ADDR x) f a) (sent_by last fr x)) (given_back f a).
Proof.
  intros Hcur Hm (Ha & Hn & _ & Hb1 & Hb2) Hfb Hn0 Hfit Hcap frame' n' last fr. pose proof (seg_len_range f a) as Hsl.
  assert (length (seg f a) = Z.to_nat (seg_len (desc f a))) as Hlen by apply length_bytes_at.
  unfold send_segment. fold (seg_len (desc f a)). cbv zeta. rewrite (proj2 (Z.ltb_ge _ _)) by lia.
  eapply runs_bind.
  { apply (runs_read bus _ (take (Z.to_nat (seg_len (desc f a))) (drop (Z.to_nat n) frame))); [done| |by apply Forall_take, Forall_drop].
    rewrite length_take, length_drop. lia. }
  replace (length (take _ (drop _ frame))) with (Z.to_nat (seg_len (desc f a))) by (rewrite length_take, length_drop; lia). fold (seg f a). fold frame'.
  replace (n + seg_len (desc f a)) with n' by (unfold n'; lia).
  destruct (ctl_cleared f a Hm) as (Hw & _ & Hk).
  assert (forall y, reg DMA_CUR_TX_DESC_ADDR y = a -> reg DMA_TX_BASE_ADDR y = reg DMA_TX_BASE_ADDR x ->
    forall A (r : A), runs bus (xgmac_write_desc bus (set_ctl (Z.ldiff (ctl_stat (desc f a)) 0x80000000) (desc f a)) false ;;! sm_ret r) y f r
      (put DMA_CUR_TX_DESC_ADDR (next_desc (reg DMA_TX_BASE_ADDR x) f a) y) (given_back f a)) as Hend.
  { intros y Hy1 Hy2 A r. eapply runs_bind; [|apply runs_ret]. rewrite <- Hy2. apply write_tx_runs; try done. apply Hk. lia. }
  fold last. unfold sent_by. destruct last.
  - eapply runs_bind.
    + eapply runs_bind; [apply runs_get|]. unfold frame_resize. rewrite (proj2 (Z.leb_le _ _)) by lia. cbn [m_buffer].
      eapply runs_bind; [apply runs_upd|]. eapply runs_bind; [apply runs_upd|]. apply runs_ret.
    + apply Hend; [|]; unfold put_status; rewrite xreg_put_ne by done; done.
  - eapply runs_bind; [apply runs_ret|]. by apply Hend.
Qed.

(** What the gathered bytes are. *)
Lemma gathered (frame acc l : list Z) : take (length acc) frame = acc -> (length acc + length l <= length frame)%nat ->
  take (length (acc ++ l)) (splice (length acc) l frame) = acc ++ l.
Proof. intros Ha Hl. unfold splice. rewrite Ha, app_assoc, length_app. apply take_app_length'. by rewrite length_app. Qed.

Lemma next_range base f a : 0 <= next_desc base f a < 2 ^ 32.
Proof. apply u32_range. Qed.

Lemma cur_put v x : 0 <= v < 2 ^ 32 -> reg DMA_CUR_TX_DESC_ADDR (put DMA_CUR_TX_DESC_ADDR v x) = v.
Proof. intros. by rewrite xreg_put_eq, wrap_small. Qed.

Lemma sent_by_regs last fr x r : r <> DMA_STATUS -> reg r (sent_by last fr x) = reg r x.
Proof. intros. unfold sent_by, put_status. destruct last; [|done]. by rewrite xreg_put_ne. Qed.

Lemma mem_given_back f a : mem_ok f -> mem_ok (given_back f a).
Proof. intros Hm. apply mem_ok_write; [done|apply store_le_bytes]. Qed.

Lemma bytes_ok_splice n l buf : bytes_ok l -> bytes_ok buf -> bytes_ok (splice n l buf).
Proof. intros Hl Hb. unfold splice, bytes_ok. rewrite !Forall_app. split_and!; [by apply Forall_take|done|by apply Forall_drop]. Qed.

(** The frame handed to the back end. *)
Lemma stored_bytes l buf : (length l <= length buf)%nat -> frame_bytes (frame_store 0 l (mk_frame buf (Z.of_nat (length l)))) = l.
Proof. intros Hl. unfold frame_bytes, frame_store, splice. cbn [m_size m_buffer]. rewrite Nat2Z.id. change (Z.to_nat 0) with 0%nat. rewrite take_0. cbn [app]. apply take_app_length. Qed.

Lemma send_loop_runs l : forall x f a e acc d frame fuel,
  reg DMA_CUR_TX_DESC_ADDR x = a -> mem_ok f -> ring (reg DMA_TX_BASE_ADDR x) f a l e -> 0 <= e -> e + 40 <= rm_limit ->
  bit (ctl_stat (desc (foldl given_back f l) e)) 31 = false ->
  length d = 40%nat -> bytes_ok d -> bytes_ok frame -> fits (Z.of_nat (length frame)) f acc l -> take (length acc) frame = acc ->
  (length frame <= length (m_buffer (m_tx_frame x)))%nat -> (length l < fuel)%nat ->
  exists x', runs bus (send_loop bus fuel d frame (Z.of_nat (length acc))) x f tt x' (foldl given_back f l) /\
    sent x' = sent x ++ frames f acc l /\ reg DMA_CUR_TX_DESC_ADDR x' = e.
Proof.
  induction l as [|b l IH]; intros x f a e acc d frame fuel Hcur Hm Hr He0 He Hend Hd Hdb Hfb Hfit Hacc Hcap Hfuel;
    cbn [ring foldl frames fits length] in *; destruct fuel as [|fuel]; try lia; cbn [send_loop].
  - subst e. exists x. rewrite app_nil_r. split_and!; [|done|done]. eapply runs_bind; [apply read_tx_runs; done || lia|]. rewrite Hend. apply runs_ret.
  - destruct Hr as (-> & Hq & Hap & Hr). pose proof Hq as (Ha & Hn & Hown & _). destruct Hfit as [Hf1 Hf2]. rewrite length_app in Hf1.
    assert (Forall (same f (given_back f a)) l) as Hs by (eapply Forall_impl; [exact Hap|]; intros c; apply same_given_back).
    pose proof (segment_step x f a frame (Z.of_nat (length acc)) Hcur Hm Hq Hfb ltac:(lia) ltac:(lia) ltac:(lia)) as Hstep. cbv zeta in Hstep. rewrite Nat2Z.id in Hstep.
    set (frame' := splice (length acc) (seg f a) frame) in *. set (last := bit (ctl_stat (desc f a)) 29) in *.
    assert (length frame' = length frame) as Hfl by (apply length_splice; lia).
    pose proof (gathered frame acc (seg f a) Hacc ltac:(lia)) as Hg. fold frame' in Hg. rewrite <- Nat2Z.inj_add, <- length_app, Nat2Z.id in Hstep. rewrite Hg in Hstep.
    set (x1 := put DMA_CUR_TX_DESC_ADDR _ _) in Hstep. set (acc' := if last then [] else acc ++ seg f a).
    destruct (frames_same f (given_back f a) l acc' Hs) as [Hfr Hfi].
    destruct (IH x1 (given_back f a) (next_desc (reg DMA_TX_BASE_ADDR x) f a) e acc' (set_ctl (Z.ldiff (ctl_stat (desc f a)) 0x80000000) (desc f a)) frame' fuel)
      as (x' & Hrun & Hsent & Hc).
    { apply cur_put, next_range. } { by apply mem_given_back. }
    { replace (reg DMA_TX_BASE_ADDR x1) with (reg DMA_TX_BASE_ADDR x) by (unfold x1; by rewrite xreg_put_ne, sent_by_regs). by apply (ring_same _ f). }
    { done. } { done. } { done. } { unfold set_ctl. rewrite length_splice; rewrite ?length_store_le, length_desc; lia. }
    { apply bytes_ok_splice; [apply store_le_bytes|by apply bytes_at_ok]. } { apply bytes_ok_splice; [by apply bytes_at_ok|done]. }
    { rewrite Hfl. by apply Hfi. } { unfold acc'. destruct last; [done|exact Hg]. }
    { unfold x1, sent_by. destruct last; cbn [put_status send put m_tx_frame frame_store m_buffer]; [|lia].
      rewrite length_splice; rewrite ?length_app; lia. } { lia. }
    exists x'. split_and!; [|rewrite Hsent, Hfr; unfold x1, sent_by, acc'|done].
    + eapply runs_bind; [apply read_tx_runs; done || lia|]. rewrite Hown. cbn [negb]. eapply runs_bind; [exact Hstep|].
      replace (if last then 0 else Z.of_nat (length (acc ++ seg f a))) with (Z.of_nat (length acc')) by (unfold acc'; by destruct last). exact Hrun.
    + destruct last; [|done]. cbn [put_status send put sent]. rewrite stored_bytes by (rewrite length_app; lia). by rewrite <- app_assoc.
Qed.

Lemma ctl_word f a : ctl_stat (desc f a) = load_le (bytes_at f a 4).
Proof.
  unfold ctl_stat, field, desc, sizeof_desc. rewrite drop_0. change 40%nat with (4 + 36)%nat. rewrite bytes_at_app. f_equal.
Qed.

Lemma ctl_kept l : forall f a, Forall (fun b => b + 40 <= a \/ a + 4 <= b) l -> ctl_stat (desc (foldl given_back f l) a) = ctl_stat (desc f a).
Proof.
  induction l as [|b l IH]; intros f a H; cbn [foldl]; [done|]. inversion_clear H. rewrite IH by done. rewrite !ctl_word.
  unfold given_back. by rewrite bytes_at_write_disjoint by (rewrite length_store_le; lia).
Qed.

Lemma ctl_given_back f a : mem_ok f -> ctl_stat (desc (given_back f a) a) = Z.ldiff (ctl_stat (desc f a)) 0x80000000.
Proof.
  intros Hm. rewrite ctl_word. unfold given_back. pose proof (bytes_at_write f a (store_le 4 (Z.ldiff (ctl_stat (desc f a)) 0x80000000))) as H.
  rewrite length_store_le in H. rewrite H, load_store_le. apply Z.mod_small. by apply (ctl_cleared f a).
Qed.

(** Every descriptor of the ring goes back to the driver. *)
Lemma ring_given_back base l e : forall f a b, mem_ok f -> ring base f a l e -> b ∈ l ->
  ctl_stat (desc (foldl given_back f l) b) = Z.ldiff (ctl_stat (desc f b)) 0x80000000.
Proof.
  induction l as [|c l IH]; intros f a b Hm Hr Hb; [set_solver|]. cbn [ring foldl] in *. destruct Hr as (-> & Hq & Hap & Hr).
  assert (Forall (same f (given_back f a)) l) as Hs by (eapply Forall_impl; [exact Hap|]; intros c; apply same_given_back).
  apply elem_of_cons in Hb as [->|Hb].
  - rewrite ctl_kept, ctl_given_back; [done|done|]. eapply Forall_impl; [exact Hap|]. intros c [Hc _]. pose proof Hc. lia.
  - rewrite (IH (given_back f a) (next_desc base f a)); [|by apply mem_given_back|by apply (ring_same _ f)|done].
    by rewrite (proj1 (proj1 (Forall_forall _ _) Hs b Hb)).
Qed.

Context (garbage scratch : list Z).

(** C21: a transmit poll demand sends every frame that the driver queued, in order, each as the
    bytes of its buffers, gives all their descriptors back, and leaves the controller at the first
    descriptor it does not own. *)
Theorem poll_sends_ring x f l e fuel :
  length garbage = 40%nat -> bytes_ok garbage -> bytes_ok scratch -> (length scratch <= length (m_buffer (m_tx_frame x)))%nat -> mem_ok f ->
  ring (reg DMA_TX_BASE_ADDR x) f (reg DMA_CUR_TX_DESC_ADDR x) l e -> 0 <= e -> e + 40 <= rm_limit ->
  bit (ctl_stat (desc (foldl given_back f l) e)) 31 = false -> fits (Z.of_nat (length scratch)) f [] l -> (length l < fuel)%nat ->
  exists x' g, runs bus (enet_write bus garbage scratch fuel (4 * DMA_XMT_POLL_DEMAND) 1) x f tt x' g /\
    sent x' = sent x ++ frames f [] l /\ reg DMA_CUR_TX_DESC_ADDR x' = e /\ update_event x' = true /\
    forall b, b ∈ l -> ctl_stat (desc g b) = Z.ldiff (ctl_stat (desc f b)) 0x80000000.
Proof.
  intros Hg Hgb Hsb Hcap Hm Hr He0 He Hend Hfit Hfuel.
  destruct (send_loop_runs l x f _ e [] garbage scratch fuel eq_refl Hm Hr He0 He Hend Hg Hgb Hsb Hfit) as (x' & Hrun & Hs & Hc); [by rewrite take_0|done|done|].
  exists (notify x'), (foldl given_back f l). split_and!; [|done|done|done|].
  - unfold enet_write. eapply runs_bind; [exact Hrun|]. apply runs_upd.
  - intros b Hb. by eapply ring_given_back.
Qed.

(** ** Reception *)

Lemma rx_word_bits n : 0 <= n < 2 ^ 15 -> let w := Z.lor (u32 (Z.shiftl n 16)) 0x300 in in_width 32 w /\ bit w 31 = false /\ Z.shiftr w 16 = n.
Proof.
  intros Hn. cbv zeta. assert (in_width 32 (Z.shiftl n 16)) as Hs by (rewrite Z.shiftl_mul_pow2 by lia; unfold in_width; lia).
  rewrite wrap_small by done. rewrite Z.lor_comm, lor_bytes by lia. unfold in_width, bit. split_and!; [lia|lia| |].
  - apply Z.testbit_false; [lia|]. rewrite Z.div_small by lia. done.
  - rewrite Z.shiftr_div_pow2 by lia. rewrite Z.div_add by lia. done.
Qed.

Lemma read_rx_runs x f a d :
  reg DMA_CUR_RX_DESC_ADDR x = a -> length d = 40%nat -> bytes_ok d -> 0 <= a < 2 ^ 32 -> a + 40 <= rm_limit ->
  runs bus (xgmac_read_desc bus d true) x f (desc f a) x f.
Proof.
  intros <- Hl Hb Ha Hn. unfold xgmac_read_desc. eapply runs_bind; [apply runs_get|]. cbn [dir_reg].
  unfold desc, sizeof_desc. rewrite <- Hl. apply (runs_read bus _ d); [lia|rewrite Hl; lia|done].
Qed.

Lemma write_rx_runs x f a v :
  reg DMA_CUR_RX_DESC_ADDR x = a -> mem_ok f -> 0 <= a < 2 ^ 32 -> a + 40 <= rm_limit ->
  runs bus (xgmac_write_desc bus (set_ctl v (desc f a)) true) x f tt
    (put DMA_CUR_RX_DESC_ADDR (if bit (buffer1_size (desc f a)) 15 then reg DMA_RCV_BASE_ADDR x else a + 40) x) (write_at f a (store_le 4 v)).
Proof.
  intros Hcur Hm Ha Hn. unfold xgmac_write_desc. eapply runs_bind; [apply runs_get|]. cbn [dir_reg negb andb]. rewrite Hcur.
  eapply runs_bind; [apply runs_upd|]. unfold buffer1_size. rewrite field_set by (rewrite ?length_desc; lia).
  assert ((if bit (field 4 2 (desc f a)) 15 then put DMA_CUR_RX_DESC_ADDR (reg DMA_RCV_BASE_ADDR x) x
           else put DMA_CUR_RX_DESC_ADDR (reg DMA_CUR_RX_DESC_ADDR x + Z.of_nat sizeof_desc) x) =
          put DMA_CUR_RX_DESC_ADDR (if bit (field 4 2 (desc f a)) 15 then reg DMA_RCV_BASE_ADDR x else a + 40) x) as ->.
  { rewrite Hcur. by destruct (bit (field 4 2 (desc f a)) 15). }
  apply write_back_runs; [done|lia|done].
Qed.

(** The memory after a frame was received at the descriptor [a]. *)
Definition received (f : contents) (a : Z) (buf : list Z) : contents :=
  write_at (write_at f (buffer (desc f a)) buf) a (store_le 4 (Z.lor (u32 (Z.shiftl (Z.of_nat (length buf) + 4) 16)) 0x300)).

(** C: a frame that arrives at a descriptor of the controller is stored at the address it gives,
    whatever the size of the buffer there; the descriptor goes back to the driver with the length
    of the frame and its FCS, and the interrupt is requested. *)
Theorem rx_stores x f a buf :
  length garbage = 40%nat -> bytes_ok garbage -> mem_ok f -> bytes_ok buf -> 12 <= Z.of_nat (length buf) < 2 ^ 15 - 4 ->
  eth_can_rx x = true -> reg DMA_CUR_RX_DESC_ADDR x = a -> 0 <= a < 2 ^ 32 -> a + 40 <= rm_limit -> bit (ctl_stat (desc f a)) 31 = true ->
  0 <= buffer (desc f a) < rm_limit -> buffer (desc f a) + Z.of_nat (length buf) <= rm_limit ->
  buffer (desc f a) + Z.of_nat (length buf) <= a \/ a + 40 <= buffer (desc f a) ->
  exists x' g, runs bus (payload_recv bus garbage buf) x f tt x' g /\
    bytes_at g (buffer (desc f a)) (length buf) = buf /\
    bit (ctl_stat (desc g a)) 31 = false /\ Z.shiftr (ctl_stat (desc g a)) 16 = Z.of_nat (length buf) + 4 /\
    reg DMA_CUR_RX_DESC_ADDR x' = u32 (if bit (buffer1_size (desc f a)) 15 then reg DMA_RCV_BASE_ADDR x else a + 40) /\
    bit (reg DMA_STATUS x') 6 = true /\ update_event x' = true.
Proof.
  intros Hg Hgb Hm Hbb Hlen Hon Hcur Ha Han Hown Hb Hbn Hdis. set (w := Z.lor (u32 (Z.shiftl (Z.of_nat (length buf) + 4) 16)) 0x300).
  set (f1 := write_at f (buffer (desc f a)) buf). assert (desc f1 a = desc f a) as Hd by (apply bytes_at_write_disjoint; unfold sizeof_desc; lia).
  destruct (rx_word_bits (Z.of_nat (length buf) + 4) ltac:(lia)) as (Hw & Hw31 & Hw16). fold w in Hw, Hw31, Hw16.
  assert (ctl_stat (desc (received f a buf) a) = w) as Hctl.
  { rewrite ctl_word. unfold received. fold f1 w. pose proof (bytes_at_write f1 a (store_le 4 w)) as H. rewrite length_store_le in H.
    rewrite H, load_store_le. by apply Z.mod_small. }
  do 2 eexists. split; [|split; [|rewrite Hctl; split_and!; [done|done|..]]].
  - unfold payload_recv. eapply runs_bind; [|apply runs_ret]. unfold eth_rx. cbv zeta. eapply runs_bind; [apply runs_get|]. rewrite Hon. cbn [negb].
    rewrite (proj2 (Z.ltb_ge _ _)) by lia. eapply runs_bind; [by apply read_rx_runs|]. rewrite Hown. cbn [negb].
    eapply runs_bind; [by apply runs_write|]. fold f1. fold w. eapply runs_bind; [rewrite <- Hd at 1; by apply write_rx_runs; try apply mem_ok_write|].
    eapply runs_bind; [apply runs_upd|]. eapply runs_bind; [apply runs_upd|]. eapply runs_bind; [apply runs_upd|]. apply runs_ret.
  - unfold received. fold f1. rewrite bytes_at_write_disjoint by (rewrite length_store_le; lia). apply bytes_at_write.
  - change (reg DMA_CUR_RX_DESC_ADDR (notify ?y)) with (reg DMA_CUR_RX_DESC_ADDR y). unfold put_status. rewrite xreg_put_ne by done.
    rewrite Hd. apply xreg_put_eq.
  - change (reg DMA_STATUS (notify ?y)) with (reg DMA_STATUS y). unfold put_status. rewrite xreg_put_eq.
    unfold bit, wrap. rewrite Z.mod_pow2_bits_low, Z.lor_spec by lia. apply orb_true_r.
  - done.
Qed.
End Ring.

(** ** Examples *)

(** The bytes of a descriptor: control word, sizes, addresses. *)
Definition desc_bytes (ctl size1 addr : Z) : list Z := store_le 4 ctl ++ store_le 2 size1 ++ store_le 2 0 ++ store_le 8 addr ++ replicate 24 0.

(** Two frames, one of two segments, and a descriptor of the driver. *)
Definition ring_mem : contents :=
  write_at (write_at (fun _ => 0) 0x100 (desc_bytes 0x80000000 2 0x800 ++ desc_bytes 0xA0000000 3 0x804 ++ desc_bytes 0xA0000000 1 0x808 ++ desc_bytes 0 0 0))
    0x800 [1; 2; 0; 0; 3; 4; 5; 0; 6].

Definition ring_mac : xgmac := put DMA_TX_BASE_ADDR 0x100 (put DMA_CUR_TX_DESC_ADDR 0x100 (xgmac_init (replicate 64 0) (mk_stats 0 0 0 0 0) mac_zero)).

Lemma bytes_bool l : forallb (fun v => (0 <=? v) && (v <? 256)) l = true -> bytes_ok l.
Proof. intros H. apply List.Forall_forall. intros v Hv. rewrite forallb_forall in H. specialize (H v Hv). lia. Qed.

Lemma ring_mem_ok : mem_ok ring_mem.
Proof. repeat (apply mem_ok_write; [|apply bytes_bool; vm_compute; reflexivity]). intros a. lia. Qed.

(** A goal about numbers in the memory above. *)
Ltac numbers :=
  repeat match goal with |- _ /\ _ => split end;
  first [ exact I | vm_compute; reflexivity | apply Z.leb_le; vm_compute; reflexivity | apply Z.ltb_lt; vm_compute; reflexivity
        | left; apply Z.leb_le; vm_compute; reflexivity | right; apply Z.leb_le; vm_compute; reflexivity ].

Lemma poll_sends_ring_witness :
  exists x' g, runs ex_bus (enet_write ex_bus (replicate 40 0) (replicate 64 0) 4 (4 * DMA_XMT_POLL_DEMAND) 1) ring_mac ring_mem tt x' g /\
    sent x' = [[1; 2; 3; 4; 5]; [6]] /\ reg DMA_CUR_TX_DESC_ADDR x' = 0x178.
Proof.
  assert (ring ex_bus 0x100 ring_mem 0x100 [0x100; 0x128; 0x150] 0x178) as Hr.
  { cbn [ring]. unfold queued. repeat (split; [numbers|]; split; [numbers|]; split; [repeat (constructor; [unfold apart; numbers|]); constructor|]).
    vm_compute. reflexivity. }
  assert (forall n, bytes_ok (replicate n 0)) as Hz by (intros n; induction n; constructor; [lia|done]).
  destruct (poll_sends_ring ex_bus (replicate 40 0) (replicate 64 0) ring_mac ring_mem [0x100; 0x128; 0x150] 0x178 4
    ltac:(done) (Hz _) (Hz _) ltac:(done) ring_mem_ok Hr ltac:(lia)) as (x' & g & H1 & H2 & H3 & _).
  - numbers.
  - numbers.
  - cbn [fits]. numbers.
  - cbn. lia.
  - exists x', g. split; [exact H1|]. split; [|exact H3]. rewrite H2. vm_compute. reflexivity.
Defined.

(** A receive descriptor for 4 bytes, which is given a frame of 16. *)
Definition rx_ring : contents := write_at (fun _ => 0) 0x100 (desc_bytes 0x80000000 4 0x800).
Definition rx_mac : xgmac := put DMA_CONTROL 2 (put DMA_CUR_RX_DESC_ADDR 0x100 (xgmac_init [] (mk_stats 0 0 0 0 0) mac_zero)).

Lemma rx_stores_witness :
  exists x' g, runs ex_bus (payload_recv ex_bus (replicate 40 0) (replicate 16 7)) rx_mac rx_ring tt x' g /\ bytes_at g 0x800 16 = replicate 16 7.
Proof.
  assert (forall n v, 0 <= v < 256 -> bytes_ok (replicate n v)) as Hz by (intros n v Hv; induction n; constructor; done).
  destruct (rx_stores ex_bus (replicate 40 0) rx_mac rx_ring 0x100 (replicate 16 7)) as (x' & g & H1 & H2 & _).
  - reflexivity.
  - apply Hz. lia.
  - apply mem_ok_write; [intros a; lia|apply bytes_bool; vm_compute; reflexivity].
  - apply Hz. lia.
  - numbers.
  - reflexivity.
  - reflexivity.
  - lia.
  - numbers.
  - numbers.
  - numbers.
  - numbers.
  - numbers.
  - exists x', g. split; [exact H1|exact H2].
Defined.

(** Three segments of 4095 bytes: each is smaller than the array on the stack, but nothing bounds
    their sum, and the third is read past its end. *)
Definition long_mem : contents :=
  write_at (fun _ => 0) 0 (desc_bytes 0x80000000 0xfff 0 ++ desc_bytes 0x80000000 0xfff 0 ++ desc_bytes 0xA0000000 0xfff 0).

Theorem frame_overflows :
  xgmac_enet_send (flat_bus 0 (2 ^ 32)) (replicate 40 0) (replicate (Z.to_nat 8192) 0) 4 (xgmac_init (replicate (Z.to_nat 9018) 0) (mk_stats 0 0 0 0 0) mac_zero, (dma_init, long_mem)) = Err StopUndef.
Proof. vm_compute. reflexivity. Qed.
End Xgmac.
