(* ===== verification/SyncWindow.v ===== *)
(** * Synchronisation windows

    [sc_sync_window] (common/include/sync_window.h): a SystemC kernel runs up to the end of
    the window that the other side gave it, tells the other side, and waits for a new one.  Times
    are [sc_time] values: unsigned 64-bit counts of the time resolution.  The kernel around the
    window appears as its time, the pending notifications of the window's events and whether its
    time is suspended; the other side calls from another thread, under the mutex. *)

From stdpp Require Import base list numbers option relations.
From S2P Require Import Prelude Monad.

(** ** Windows and policies *)

Record window : Type := mk_window {
  w_from : Z;
  w_to : Z;
}.

#[global] Instance window_eq_dec : EqDecision window.
Proof. solve_decision. Defined.

Definition sc_max_time : Z := 2 ^ 64 - 1.
Definition zero_window : window := mk_window 0 0.
Definition open_window : window := mk_window 0 sc_max_time.

(** What a policy gives: the quantum, from the time to the pending activity if there is some, and
    whether the window stays attached when there are no events. *)
Class SyncPolicy : Type := {
  pol_quantum : option Z -> Z;
  pol_keep_alive : bool;
}.

Definition sync_policy_tlm_quantum (global : Z) : SyncPolicy := {| pol_quantum := fun _ => global; pol_keep_alive := true |}.
Definition sync_policy_in_sync : SyncPolicy := {| pol_quantum := fun p => default 0 p; pol_keep_alive := false |}.

(** ** State *)

(** [sw_update] is a requested update; [sw_sweep] and [sw_step] are the times of the pending
    notifications of [m_sweep_ev] and [m_step_ev], [sw_update_ev] a pending delta notification of
    [m_update_ev]; [sw_suspended] is what was last asked of the kernel, [sw_channel] whether the
    channel keeps it alive, [sw_jobs] the changes to that which wait for the SystemC thread;
    [sw_bound] says whether the other side is known. *)
Record sync : Type := mk_sync {
  sw_now : Z;
  sw_window : window;
  sw_incoming : window;
  sw_attached : bool;
  sw_bound : bool;
  sw_update : bool;
  sw_sweep : option Z;
  sw_step : option Z;
  sw_update_ev : bool;
  sw_suspended : bool;
  sw_channel : bool;
  sw_jobs : list bool;
}.

Definition set_now v (s : sync) := mk_sync v (sw_window s) (sw_incoming s) (sw_attached s) (sw_bound s) (sw_update s) (sw_sweep s) (sw_step s) (sw_update_ev s) (sw_suspended s) (sw_channel s) (sw_jobs s).
Definition set_window v (s : sync) := mk_sync (sw_now s) v (sw_incoming s) (sw_attached s) (sw_bound s) (sw_update s) (sw_sweep s) (sw_step s) (sw_update_ev s) (sw_suspended s) (sw_channel s) (sw_jobs s).
Definition set_incoming v (s : sync) := mk_sync (sw_now s) (sw_window s) v (sw_attached s) (sw_bound s) (sw_update s) (sw_sweep s) (sw_step s) (sw_update_ev s) (sw_suspended s) (sw_channel s) (sw_jobs s).
Definition set_attached v (s : sync) := mk_sync (sw_now s) (sw_window s) (sw_incoming s) v (sw_bound s) (sw_update s) (sw_sweep s) (sw_step s) (sw_update_ev s) (sw_suspended s) (sw_channel s) (sw_jobs s).
Definition set_bound v (s : sync) := mk_sync (sw_now s) (sw_window s) (sw_incoming s) (sw_attached s) v (sw_update s) (sw_sweep s) (sw_step s) (sw_update_ev s) (sw_suspended s) (sw_channel s) (sw_jobs s).
Definition set_update v (s : sync) := mk_sync (sw_now s) (sw_window s) (sw_incoming s) (sw_attached s) (sw_bound s) v (sw_sweep s) (sw_step s) (sw_update_ev s) (sw_suspended s) (sw_channel s) (sw_jobs s).
Definition set_sweep v (s : sync) := mk_sync (sw_now s) (sw_window s) (sw_incoming s) (sw_attached s) (sw_bound s) (sw_update s) v (sw_step s) (sw_update_ev s) (sw_suspended s) (sw_channel s) (sw_jobs s).
Definition set_step v (s : sync) := mk_sync (sw_now s) (sw_window s) (sw_incoming s) (sw_attached s) (sw_bound s) (sw_update s) (sw_sweep s) v (sw_update_ev s) (sw_suspended s) (sw_channel s) (sw_jobs s).
Definition set_update_ev v (s : sync) := mk_sync (sw_now s) (sw_window s) (sw_incoming s) (sw_attached s) (sw_bound s) (sw_update s) (sw_sweep s) (sw_step s) v (sw_suspended s) (sw_channel s) (sw_jobs s).
Definition set_suspended v (s : sync) := mk_sync (sw_now s) (sw_window s) (sw_incoming s) (sw_attached s) (sw_bound s) (sw_update s) (sw_sweep s) (sw_step s) (sw_update_ev s) v (sw_channel s) (sw_jobs s).
Definition set_channel v (s : sync) := mk_sync (sw_now s) (sw_window s) (sw_incoming s) (sw_attached s) (sw_bound s) (sw_update s) (sw_sweep s) (sw_step s) (sw_update_ev s) (sw_suspended s) v (sw_jobs s).
Definition set_jobs v (s : sync) := mk_sync (sw_now s) (sw_window s) (sw_incoming s) (sw_attached s) (sw_bound s) (sw_update s) (sw_sweep s) (sw_step s) (sw_update_ev s) (sw_suspended s) (sw_channel s) v.

(** [notify (delay)] on an event: of two pending notifications the earlier stays. *)
Definition notify_at (t : Z) (e : option Z) : option Z := Some (match e with Some t' => Z.min t' t | None => t end).

(** ** Operations *)

Section Ops.
Context `{!SyncPolicy}.

(** [pend] is the time to the pending activity.  The second result is what the other side is
    told. *)
Definition tell_other (w : window) (s : sync) : option window := if sw_bound s then Some w else None.

Definition step_helper (pend : option Z) (s : sync) : sync * option window :=
  let now := sw_now s in
  let to := w_to (sw_window s) in
  if to <=? now then
    let out := tell_other (mk_window now (u64 (now + pol_quantum pend))) s in
    let s := if pol_keep_alive then s else set_channel true s in
    (set_suspended true s, out)
  else
    let s := set_suspended false s in
    let s := if pol_keep_alive then s else set_channel false s in
    (set_step (notify_at (now + (to - now)) (sw_step s)) s, None).

Definition sweep_helper (pend : option Z) (s : sync) : sync * option window :=
  (s, tell_other (mk_window (sw_now s) (u64 (sw_now s + pol_quantum pend))) s).

(** [update], on the SystemC thread. *)
Definition update (s : sync) : sync :=
  let s := set_window (sw_incoming s) s in
  let now := sw_now s in
  let s := if now <? w_from (sw_window s) then set_sweep (notify_at (now + (w_from (sw_window s) - now)) (sw_sweep s)) s
           else set_sweep None s in
  set_update_ev true s.

(** Called by the other side. *)
Definition async_set_window (w : window) (s : sync) : res sync :=
  if negb (sw_attached s) then Err StopFatal
  else
    let s := set_incoming w s in
    Ret (if bool_decide (w = sw_window s) then s else set_update true s).

(** [attach] and [detach] leave the change of the channel to the SystemC thread. *)
Definition attach (s : sync) : sync := set_attached true (set_jobs (sw_jobs s ++ [true]) s).

Definition detach (now : Z) (s : sync) : res sync :=
  let? s := async_set_window (mk_window now sc_max_time) s in
  Ret (set_attached false (set_jobs (sw_jobs s ++ [false]) s)).

(** A job of [attach] or [detach] on the SystemC thread. *)
Definition run_job (s : sync) : sync :=
  match sw_jobs s with
  | [] => s
  | b :: l => set_jobs l (set_channel b s)
  end.

Definition register_sync_cb (s : sync) : sync := set_bound true s.

(** The constructor; [m_incomming_window] is default initialised. *)
Definition sync_init (pend : option Z) : sync :=
  attach (mk_sync 0 (mk_window 0 (pol_quantum pend)) zero_window false false false None (Some 0) false false false []).
End Ops.

(** ** Two kernels bound to each other *)

Section Pair.
Variable q : Z.
Hypothesis q_range : 0 < q < 2 ^ 63.

#[local] Instance pair_policy : SyncPolicy := sync_policy_tlm_quantum q.

(** The window given to the other side. *)
Definition deliver (out : option window) (b : sync) : res sync :=
  match out with Some w => async_set_window w b | None => Ret b end.

(** The notifications that a run of [step_helper] answers. *)
Definition step_due (a : sync) : bool := match sw_step a with Some u => u <=? sw_now a | None => false end.
Definition take_step (a : sync) : sync := set_update_ev false (if step_due a then set_step None a else a).

(** Steps of the first of two kernels.  Its time moves on while it is not suspended, up to the next
    notification of one of its events. *)
Inductive side : sync * sync -> sync * sync -> Prop :=
| sd_update a b : sw_update a = true -> side (a, b) (update (set_update false a), b)
| sd_step pend a b a' b' out :
    sw_update_ev a = true \/ step_due a = true ->
    step_helper pend (take_step a) = (a', out) -> deliver out b = Ret b' -> side (a, b) (a', b')
| sd_sweep pend a b a' b' out u :
    sw_sweep a = Some u -> u <= sw_now a ->
    sweep_helper pend (set_sweep None a) = (a', out) -> deliver out b = Ret b' -> side (a, b) (a', b')
| sd_job a b : side (a, b) (run_job a, b)
| sd_advance a b t :
    sw_now a < t -> sw_suspended a = false -> sw_update_ev a = false ->
    (forall u, sw_step a = Some u -> t <= u) -> (forall u, sw_sweep a = Some u -> t <= u) -> t < 2 ^ 63 ->
    side (a, b) (set_now t a, b).

Definition swap (p : sync * sync) : sync * sync := (p.2, p.1).

Inductive pair_step : sync * sync -> sync * sync -> Prop :=
| ps_left p p' : side p p' -> pair_step p p'
| ps_right p p' : side (swap p) (swap p') -> pair_step p p'.

Definition pair_init : sync * sync := (register_sync_cb (sync_init None), register_sync_cb (sync_init None)).

(** What the first kernel keeps to. *)
Record half (p : sync * sync) : Prop := {
  h_bound : sw_attached p.1 = true /\ sw_bound p.1 = true;
  h_range : 0 <= sw_now p.1 < 2 ^ 63;
  h_to : w_to (sw_window p.1) <= sw_now p.2 + q;
  h_in : w_to (sw_incoming p.1) <= sw_now p.2 + q;
  h_upd : sw_update p.1 = true -> w_to (sw_window p.1) <= w_to (sw_incoming p.1);
  h_now : sw_now p.1 <= w_to (sw_window p.1);
  h_step : forall u, sw_step p.1 = Some u -> u <= w_to (sw_window p.1);
  h_run : sw_suspended p.1 = false -> sw_update_ev p.1 = false -> sw_step p.1 <> None;
  h_susp : sw_suspended p.1 = true -> sw_update_ev p.1 = false -> w_to (sw_window p.1) <= sw_now p.1;
  h_told : sw_suspended p.1 = true -> w_to (sw_incoming p.2) = sw_now p.1 + q;
  h_idle : sw_update p.1 = false -> sw_window p.1 = sw_incoming p.1 \/ sw_incoming p.1 = zero_window;
}.

Definition pair_inv (p : sync * sync) : Prop := half p /\ half (swap p).

Lemma pair_inv_init : pair_inv pair_init.
Proof. assert (half pair_init) as H; [|by split]. split; cbn; try done; try lia; try (intros; simplify_eq; lia). by right. Qed.

(** A window given to the other side. *)
Lemma told_half a b b' : half (a, b) -> half (b, a) -> async_set_window (mk_window (sw_now a) (u64 (sw_now a + q))) b = Ret b' ->
  half (b', a) /\ sw_now b' = sw_now b /\ w_to (sw_incoming b') = sw_now a + q /\ sw_suspended b' = sw_suspended b.
Proof.
  intros Ha Hb. unfold async_set_window. destruct (h_bound _ Hb) as [Hat _]. cbn [fst] in Hat. rewrite Hat. cbn [negb]. pose proof (h_range _ Ha) as Hr. cbn [fst] in *.
  rewrite wrap_small by (unfold in_width; lia). set (w := mk_window _ _). cbn [sw_window set_incoming]. intros [= <-].
  assert (w_to w = sw_now a + q) as Hw by done. destruct Hb as [H1 H2 H3 H4 H5 H6 H7 H8 H9 H10 H11]. cbn [fst snd] in *.
  case_bool_decide as E; split_and!; try done; split; cbn [set_incoming set_update sw_now sw_window sw_incoming sw_attached sw_bound sw_update sw_step sw_update_ev sw_suspended fst snd]; try done; try lia.
  all: try (rewrite <- E, Hw; lia). by left.
Qed.

(** The other kernel's view when the time of this one moves on. *)
Lemma half_later a b a' : sw_now a <= sw_now a' -> sw_incoming a' = sw_incoming a \/ sw_suspended b = false -> half (b, a) -> half (b, a').
Proof.
  intros Hn Hi [H1 H2 H3 H4 H5 H6 H7 H8 H9 H10 H11]. split; cbn [fst snd] in *; try done; try lia.
  intros Hs. destruct Hi as [->|?]; [auto|congruence].
Qed.

Ltac fields := cbn [set_now set_window set_incoming set_update set_sweep set_step set_update_ev set_suspended set_channel set_jobs
  sw_now sw_window sw_incoming sw_attached sw_bound sw_update sw_step sw_sweep sw_update_ev sw_suspended sw_channel sw_jobs fst snd swap] in *.

Lemma pair_inv_update a b : pair_inv (a, b) -> sw_update a = true -> pair_inv (update (set_update false a), b).
Proof.
  intros [Ha Hb] Hu. pose proof Ha as [H1 H2 H3 H4 H5 H6 H7 H8 H9 H10 H11]. unfold update. fields. specialize (H5 Hu).
  split.
  - destruct (_ <? _); split; fields; try done; try lia; try (intros u Hs; specialize (H7 u Hs); lia); by left.
  - apply (half_later a b); [|left|done]; by destruct (_ <? _).
Qed.

Lemma pair_inv_step pend a b a' b' out : pair_inv (a, b) -> sw_update_ev a = true \/ step_due a = true ->
  step_helper pend (take_step a) = (a', out) -> deliver out b = Ret b' -> pair_inv (a', b').
Proof.
  intros [Ha Hb] Hev. pose proof Ha as [H1 H2 H3 H4 H5 H6 H7 H8 H9 H10 H11]. fields.
  assert (forall u, sw_step (take_step a) = Some u -> u <= w_to (sw_window a)) as Hst by (unfold take_step; destruct (step_due a); fields; [done|auto]).
  assert (half (set_update_ev true (take_step a), b)) as Ht by (unfold take_step; destruct (step_due a); split; fields; done).
  assert (sw_window (take_step a) = sw_window a /\ sw_now (take_step a) = sw_now a /\ sw_bound (take_step a) = true /\ sw_incoming (take_step a) = sw_incoming a) as (Ew & En & Eb & Ei)
    by (unfold take_step; destruct (step_due a); fields; split_and!; try done; apply H1).
  unfold step_helper, tell_other. rewrite Ew, En, Eb. cbn [pol_keep_alive pol_quantum pair_policy sync_policy_tlm_quantum].
  destruct (Z.leb_spec (w_to (sw_window a)) (sw_now a)) as [Hle|Hlt]; intros [= <- <-]; cbn [deliver].
  - intros Hd. destruct (told_half a b b' Ha Hb Hd) as (Hb' & Hnb & Hib & _). clear Hd. split.
    + destruct Ht. unfold take_step in *. destruct (step_due a); split; fields; try done; try lia; rewrite ?Hnb; auto.
    + apply (half_later a b'); [by fields; rewrite En|left; by fields|done].
  - intros [= <-]. split.
    + destruct Ht. unfold take_step in *. destruct (step_due a); split; fields; try done; try lia; unfold notify_at;
        intros; simplify_eq; try (destruct (sw_step a) eqn:Es; simplify_eq; try specialize (H7 _ eq_refl); lia); try lia.
    + apply (half_later a b); [by fields; rewrite En|left; by fields|done].
Qed.

Lemma pair_inv_sweep pend a b a' b' out : pair_inv (a, b) ->
  sweep_helper pend (set_sweep None a) = (a', out) -> deliver out b = Ret b' -> pair_inv (a', b').
Proof.
  intros [Ha Hb]. pose proof Ha as [[H0 H1] H2 H3 H4 H5 H6 H7 H8 H9 H10 H11]. unfold sweep_helper, tell_other. fields. rewrite H1. intros [= <- <-] Hd.
  destruct (told_half a b b' Ha Hb Hd) as (Hb' & Hnb & Hib & _). split.
  - split; fields; try done; try lia; rewrite ?Hnb; auto.
  - apply (half_later a b'); [done|by left|done].
Qed.

Lemma pair_inv_job a b : pair_inv (a, b) -> pair_inv (run_job a, b).
Proof.
  intros [Ha Hb]. unfold run_job. destruct (sw_jobs a) as [|j l]; [done|]. split; [destruct Ha; split; fields; done|].
  apply (half_later a b); [done|by left|done].
Qed.

Lemma pair_inv_advance a b t : pair_inv (a, b) ->
  sw_now a < t -> sw_suspended a = false -> sw_update_ev a = false -> (forall u, sw_step a = Some u -> t <= u) -> t < 2 ^ 63 -> pair_inv (set_now t a, b).
Proof.
  intros [Ha Hb] Ht Hs He Hu Hr. pose proof Ha as [H1 H2 H3 H4 H5 H6 H7 H8 H9 H10 H11]. fields. split.
  - split; fields; try done; try lia; try congruence. destruct (sw_step a) as [u|] eqn:E; [|exfalso; by apply H8]. specialize (Hu u eq_refl). specialize (H7 u eq_refl). lia.
  - apply (half_later a b); [fields; lia|by left|done].
Qed.

Lemma pair_inv_side p p' : pair_inv p -> side p p' -> pair_inv p'.
Proof. intros Hi. destruct 1; eauto using pair_inv_update, pair_inv_step, pair_inv_sweep, pair_inv_job, pair_inv_advance. Qed.

Lemma pair_inv_swap p : pair_inv p -> pair_inv (swap p).
Proof. destruct p. by intros [? ?]. Qed.

Lemma pair_reachable_inv p : rtc pair_step pair_init p -> pair_inv p.
Proof.
  intros Hr. assert (forall x y, rtc pair_step x y -> pair_inv x -> pair_inv y) as Hind; [|by eapply Hind, pair_inv_init].
  clear p Hr. induction 1 as [|x y z Hxy _ IH]; [done|]. intros Hx. apply IH. destruct Hxy as [x y H|x y H]; [by eapply pair_inv_side|].
  assert (pair_inv (swap (swap y))) as Hy by (apply pair_inv_swap; eapply pair_inv_side; [by apply pair_inv_swap|exact H]). by destruct y.
Qed.

(** Nothing is left to do at the present times. *)
Definition quiet (a : sync) : Prop := sw_update a = false /\ sw_update_ev a = false /\ step_due a = false.

(** C14: two kernels whose windows are bound to each other stay within one quantum of each other, in
    every reachable state, and they never wait for each other: when nothing is left to do at the
    present times, one of them may move on. *)
Theorem sync_pair_lockstep a b : rtc pair_step pair_init (a, b) ->
  (sw_now a <= sw_now b + q /\ sw_now b <= sw_now a + q) /\
  (quiet a -> quiet b -> sw_suspended a = false \/ sw_suspended b = false).
Proof.
  intros Hr. destruct (pair_reachable_inv _ Hr) as [Ha Hb]. pose proof (h_now _ Ha). pose proof (h_to _ Ha). pose proof (h_now _ Hb). pose proof (h_to _ Hb).
  fields. split; [lia|]. intros (Ua & Ea & _) (Ub & Eb & _).
  destruct (sw_suspended a) eqn:Sa; [|by left]. destruct (sw_suspended b) eqn:Sb; [|by right]. exfalso.
  pose proof (h_susp _ Ha Sa Ea) as Pa. pose proof (h_susp _ Hb Sb Eb) as Pb. pose proof (h_told _ Ha Sa) as Ta. pose proof (h_told _ Hb Sb) as Tb.
  pose proof (h_range _ Ha). pose proof (h_range _ Hb). destruct (h_idle _ Ha Ua) as [Ia|Ia]; destruct (h_idle _ Hb Ub) as [Ib|Ib]; fields; rewrite ?Ia, ?Ib in *; cbn in *; lia.
Qed.
End Pair.

(** Both kernels start, and the first runs to the end of its window. *)
Lemma sync_pair_lockstep_witness :
  exists a b, rtc (pair_step 10) (pair_init 10) (a, b) /\ sw_now a = 10 /\ sw_now a <= sw_now b + 10.
Proof.
  set (s0 := register_sync_cb (@sync_init (sync_policy_tlm_quantum 10) None)).
  set (s1 := set_step (Some 10) (set_suspended false s0)). set (s2 := set_now 10 s1).
  assert (rtc (pair_step 10) (pair_init 10) (s2, s0)) as Hr.
  { eapply rtc_l; [apply ps_left, (sd_step 10 None s0 s0 s1 s0 None); [by right|reflexivity|reflexivity]|].
    eapply rtc_l; [apply ps_left, (sd_advance 10 s1 s0 10); [reflexivity|reflexivity|reflexivity| | |reflexivity]|apply rtc_refl].
    - intros u [= <-]. lia.
    - discriminate. }
  exists s2, s0. split; [exact Hr|]. split; [reflexivity|]. apply (sync_pair_lockstep 10 ltac:(lia) s2 s0 Hr).
Defined.
