(* ===== verification/Mcips.v ===== *)
(** * Instruction-counted time

    [McipsPlugin] (src/qemu-components/common/include/mcips-plugin.h): the time of a QEMU
    instance is the time of one of its processors, the active one, whose instructions are counted
    by a QEMU plugin; the others are paused when they are ahead of it.  The plugin exchanges
    windows with the SystemC kernel through [SyncWindow].

    Each callback holds [m_mcips_mutex] and is one operation.  Parameters: [delta_time n ips] is the
    [sc_time] of [n] instructions (a division of doubles), [to_ns] the conversion of an [sc_time]
    to nanoseconds and [rounded] that to seconds and back.  Calls of the plugin interface and
    notifications of the idle event are outputs. *)

From stdpp Require Import base list numbers option relations.
From S2P Require Import Prelude Monad SyncWindow.

Module Mcips.

Inductive vCPUTimeStatus : Type := IDLE | PAUSED | RUNNING.

#[global] Instance status_eq_dec : EqDecision vCPUTimeStatus.
Proof. solve_decision. Defined.

Record vCPUTime : Type := mk_vcpu {
  index : Z;
  insn_per_second : Z;
  delta_insn : Z;
  cpu_time : Z;
  status : vCPUTimeStatus;
}.

Definition set_ips v (c : vCPUTime) := mk_vcpu (index c) v (delta_insn c) (cpu_time c) (status c).
Definition set_delta v (c : vCPUTime) := mk_vcpu (index c) (insn_per_second c) v (cpu_time c) (status c).
Definition set_time v (c : vCPUTime) := mk_vcpu (index c) (insn_per_second c) (delta_insn c) v (status c).
Definition set_status v (c : vCPUTime) := mk_vcpu (index c) (insn_per_second c) (delta_insn c) (cpu_time c) v.

Inductive call : Type :=
| request_pause (i : Z)
| resume (i : Z)
| idle_tick (delay : Z).

(** [vcpus] is the scoreboard; the active processor is an index into it. *)
Record mcips : Type := mk_mcips {
  m_global_quantum : Z;
  m_num_vcpus : nat;
  m_sync_sc : sync;
  sc_current_window : window;
  m_quantum : Z;
  m_qemu_time : Z;
  m_active_vcpu : option nat;
  vcpus : list vCPUTime;
  m_qemu_time_ns : Z;
  m_shutdown : bool;
  m_inflight_cb : Z;
  m_first_vcpu_initialized : bool;
  m_wd_last_clock_ns : Z;
  m_wd_freeze_start_ns : Z;
  m_wd_last_tick_qemu_time : Z;
  calls : list call;
}.

Definition kWdFreezeThresholdNs : Z := 1000000000.

Definition set_quanta g v (s : mcips) := mk_mcips g (m_num_vcpus s) (m_sync_sc s) (sc_current_window s) v (m_qemu_time s) (m_active_vcpu s) (vcpus s) (m_qemu_time_ns s) (m_shutdown s) (m_inflight_cb s) (m_first_vcpu_initialized s) (m_wd_last_clock_ns s) (m_wd_freeze_start_ns s) (m_wd_last_tick_qemu_time s) (calls s).
Definition set_num v (s : mcips) := mk_mcips (m_global_quantum s) v (m_sync_sc s) (sc_current_window s) (m_quantum s) (m_qemu_time s) (m_active_vcpu s) (vcpus s) (m_qemu_time_ns s) (m_shutdown s) (m_inflight_cb s) (m_first_vcpu_initialized s) (m_wd_last_clock_ns s) (m_wd_freeze_start_ns s) (m_wd_last_tick_qemu_time s) (calls s).
Definition set_sync v (s : mcips) := mk_mcips (m_global_quantum s) (m_num_vcpus s) v (sc_current_window s) (m_quantum s) (m_qemu_time s) (m_active_vcpu s) (vcpus s) (m_qemu_time_ns s) (m_shutdown s) (m_inflight_cb s) (m_first_vcpu_initialized s) (m_wd_last_clock_ns s) (m_wd_freeze_start_ns s) (m_wd_last_tick_qemu_time s) (calls s).
Definition set_cur v (s : mcips) := mk_mcips (m_global_quantum s) (m_num_vcpus s) (m_sync_sc s) v (m_quantum s) (m_qemu_time s) (m_active_vcpu s) (vcpus s) (m_qemu_time_ns s) (m_shutdown s) (m_inflight_cb s) (m_first_vcpu_initialized s) (m_wd_last_clock_ns s) (m_wd_freeze_start_ns s) (m_wd_last_tick_qemu_time s) (calls s).
Definition set_qemu_time t ns (s : mcips) := mk_mcips (m_global_quantum s) (m_num_vcpus s) (m_sync_sc s) (sc_current_window s) (m_quantum s) t (m_active_vcpu s) (vcpus s) ns (m_shutdown s) (m_inflight_cb s) (m_first_vcpu_initialized s) (m_wd_last_clock_ns s) (m_wd_freeze_start_ns s) (m_wd_last_tick_qemu_time s) (calls s).
Definition set_active v (s : mcips) := mk_mcips (m_global_quantum s) (m_num_vcpus s) (m_sync_sc s) (sc_current_window s) (m_quantum s) (m_qemu_time s) v (vcpus s) (m_qemu_time_ns s) (m_shutdown s) (m_inflight_cb s) (m_first_vcpu_initialized s) (m_wd_last_clock_ns s) (m_wd_freeze_start_ns s) (m_wd_last_tick_qemu_time s) (calls s).
Definition set_vcpus v (s : mcips) := mk_mcips (m_global_quantum s) (m_num_vcpus s) (m_sync_sc s) (sc_current_window s) (m_quantum s) (m_qemu_time s) (m_active_vcpu s) v (m_qemu_time_ns s) (m_shutdown s) (m_inflight_cb s) (m_first_vcpu_initialized s) (m_wd_last_clock_ns s) (m_wd_freeze_start_ns s) (m_wd_last_tick_qemu_time s) (calls s).
Definition set_shutdown v (s : mcips) := mk_mcips (m_global_quantum s) (m_num_vcpus s) (m_sync_sc s) (sc_current_window s) (m_quantum s) (m_qemu_time s) (m_active_vcpu s) (vcpus s) (m_qemu_time_ns s) v (m_inflight_cb s) (m_first_vcpu_initialized s) (m_wd_last_clock_ns s) (m_wd_freeze_start_ns s) (m_wd_last_tick_qemu_time s) (calls s).
Definition set_inflight v (s : mcips) := mk_mcips (m_global_quantum s) (m_num_vcpus s) (m_sync_sc s) (sc_current_window s) (m_quantum s) (m_qemu_time s) (m_active_vcpu s) (vcpus s) (m_qemu_time_ns s) (m_shutdown s) v (m_first_vcpu_initialized s) (m_wd_last_clock_ns s) (m_wd_freeze_start_ns s) (m_wd_last_tick_qemu_time s) (calls s).
Definition set_first v (s : mcips) := mk_mcips (m_global_quantum s) (m_num_vcpus s) (m_sync_sc s) (sc_current_window s) (m_quantum s) (m_qemu_time s) (m_active_vcpu s) (vcpus s) (m_qemu_time_ns s) (m_shutdown s) (m_inflight_cb s) v (m_wd_last_clock_ns s) (m_wd_freeze_start_ns s) (m_wd_last_tick_qemu_time s) (calls s).
Definition set_wd last start tick (s : mcips) := mk_mcips (m_global_quantum s) (m_num_vcpus s) (m_sync_sc s) (sc_current_window s) (m_quantum s) (m_qemu_time s) (m_active_vcpu s) (vcpus s) (m_qemu_time_ns s) (m_shutdown s) (m_inflight_cb s) (m_first_vcpu_initialized s) last start tick (calls s).
Definition out c (s : mcips) := mk_mcips (m_global_quantum s) (m_num_vcpus s) (m_sync_sc s) (sc_current_window s) (m_quantum s) (m_qemu_time s) (m_active_vcpu s) (vcpus s) (m_qemu_time_ns s) (m_shutdown s) (m_inflight_cb s) (m_first_vcpu_initialized s) (m_wd_last_clock_ns s) (m_wd_freeze_start_ns s) (m_wd_last_tick_qemu_time s) (calls s ++ [c]).

Definition set_vcpu (i : nat) (f : vCPUTime -> vCPUTime) (s : mcips) : mcips := set_vcpus (alter f i (vcpus s)) s.

Section Model.
Context (delta_time : Z -> Z -> Z) (to_ns rounded : Z -> Z).

Abbreviation M := (SM mcips).

Definition get {A} (f : mcips -> A) : M A := fun s => Ret (f s, s).
Definition upd (f : mcips -> mcips) : M unit := sm_modify f.

Definition get_vcpu (i : nat) : M vCPUTime := fun s =>
  match vcpus s !! i with Some c => Ret (c, s) | None => Err StopUndef end.

(** ** Times *)

Definition sync_qemu_time_ns (t : Z) (s : mcips) : mcips := set_qemu_time t (to_ns t) s.

Definition cpu_delta_time (c : vCPUTime) : Z := delta_time (delta_insn c) (insn_per_second c).

Definition cpu_time_now (c : vCPUTime) : Z :=
  if bool_decide (status c = IDLE) then cpu_time c else u64 (cpu_time c + cpu_delta_time c).

Definition active_vcpu (s : mcips) : option vCPUTime := m_active_vcpu s ≫= (vcpus s !!.).

Definition qemu_time_now (s : mcips) : Z :=
  match active_vcpu s with
  | None => m_qemu_time s
  | Some c => u64 (m_qemu_time s + cpu_delta_time c)
  end.

(** The time of the slowest processor that is not idle. *)
Definition slower (acc : option Z) (c : vCPUTime) : option Z :=
  if bool_decide (status c = IDLE) then acc
  else match acc with
       | None => Some (cpu_time_now c)
       | Some t => if cpu_time_now c <? t then Some (cpu_time_now c) else acc
       end.

Definition slowest_none_idle_cpu (s : mcips) : option Z := foldl slower None (take (m_num_vcpus s) (vcpus s)).

Definition compute_threshold (s : mcips) : Z :=
  match slowest_none_idle_cpu s with
  | None => 0
  | Some t => Z.min (w_to (sc_current_window s)) (u64 (t + m_quantum s))
  end.

(** ** Windows *)

Definition on_sync (f : sync -> res sync) : M unit := fun s =>
  match f (m_sync_sc s) with Ret y => Ret (tt, set_sync y s) | Err e => Err e end.

Definition attach_sync_window : M unit := on_sync (fun y => Ret (if sw_attached y then y else attach y)).

Definition detach_sync_window : M unit :=
  do! t := get m_qemu_time in on_sync (fun y => if sw_attached y then detach t y else Ret y).

Definition set_systemc_window (custom : option window) : M unit :=
  do! t := get qemu_time_now in
  do! q := get m_quantum in
  on_sync (fun y => if sw_attached y then async_set_window (default (mk_window t (u64 (t + q))) custom) y else Ret y).

(** ** Which processors run *)

(** The first processor that is not idle becomes the active one. *)
Definition first_busy (s : mcips) : option nat :=
  fst <$> list_find (fun c => status c <> IDLE) (take (m_num_vcpus s) (vcpus s)).

Definition select_active_vcpu : M (option nat) :=
  upd (fun s => set_active (first_busy s) s) ;;! get m_active_vcpu.

(** Whether the processor [i] is ahead: the active one of the threshold, another of the active. *)
Definition is_ahead (active : option nat) (now threshold : Z) (i : nat) (c : vCPUTime) : bool :=
  if bool_decide (active = Some i) then threshold <? now else now <? cpu_time_now c.

Definition pause_if_ahead (i : nat) (active : option nat) (now threshold : Z) : M unit :=
  do! c := get_vcpu i in
  if negb (bool_decide (status c = RUNNING)) then sm_ret tt
  else if is_ahead active now threshold i c then upd (set_vcpu i (set_status PAUSED)) ;;! upd (out (request_pause (index c)))
  else sm_ret tt.

Definition resume_one (active : option nat) (now threshold : Z) (i : nat) : M unit :=
  do! c := get_vcpu i in
  if negb (bool_decide (status c = PAUSED)) then sm_ret tt
  else if is_ahead active now threshold i c then sm_ret tt
  else upd (set_vcpu i (set_status RUNNING)) ;;! upd (out (resume (index c))).

Definition resume_if_behind (active : option nat) (now threshold : Z) : M unit :=
  do! n := get m_num_vcpus in sm_iter (resume_one active now threshold) (seq 0 n).

Definition rebalance_and_sync (vcpu : option nat) : M unit :=
  do! active := get m_active_vcpu in
  match active with
  | None => detach_sync_window
  | Some _ =>
      do! threshold := get compute_threshold in
      if threshold =? 0 then sm_ret tt
      else
        do! now := get qemu_time_now in
        match vcpu with Some i => pause_if_ahead i active now threshold | None => sm_ret tt end ;;!
        resume_if_behind active now threshold ;;!
        set_systemc_window None
  end.

(** ** Callbacks *)

(** Called by the sync window with a new window. *)
Definition receive_window_cb (w : window) : M unit :=
  do! down := get m_shutdown in
  if (down : bool) then sm_ret tt
  else
    upd (fun s => set_inflight (m_inflight_cb s + 1) s) ;;!
    upd (set_cur w) ;;!
    do! active := get m_active_vcpu in
    match active with
    | None => rebalance_and_sync None
    | Some a =>
        do! c := get_vcpu a in
        (if bool_decide (status c = PAUSED) then
           do! threshold := get compute_threshold in
           do! now := get qemu_time_now in
           if negb (threshold =? 0) && (now <=? threshold)
           then upd (set_vcpu a (set_status RUNNING)) ;;! upd (out (resume (index c)))
           else sm_ret tt
         else sm_ret tt) ;;!
        set_systemc_window None
    end ;;!
    upd (fun s => set_inflight (m_inflight_cb s - 1) s).

(** [current] is the number of processors that QEMU reports. *)
Definition vcpu_init (current i : nat) : M unit :=
  do! down := get m_shutdown in
  if (down : bool) then sm_ret tt
  else
    upd (fun s => if (m_num_vcpus s <? current)%nat then set_num current s else s) ;;!
    do! c := get_vcpu i in
    upd (set_vcpu i (fun c => mk_vcpu (Z.of_nat i) (if insn_per_second c =? 0 then 1000000000 else insn_per_second c) 0 0 RUNNING)) ;;!
    upd (fun s => match m_active_vcpu s with Some _ => s | None => set_active (Some i) s end) ;;!
    upd (set_first true).

(** The processor [i] has run its quota. *)
Definition cpu_end_delta_quota (i : nat) : M unit :=
  do! c := get_vcpu i in
  if negb (bool_decide (status c = RUNNING)) then sm_ret tt
  else
    let d := cpu_delta_time c in
    do! active := get m_active_vcpu in
    match active with
    | None => sm_fail StopAssert
    | Some a =>
        upd (fun s => if bool_decide (a = i) then sync_qemu_time_ns (u64 (m_qemu_time s + d)) s else s) ;;!
        upd (set_vcpu i (fun c => set_delta 0 (set_time (u64 (cpu_time c + d)) c))) ;;!
        rebalance_and_sync (Some i)
    end.

Definition vcpu_tb_exec_cond (i : nat) : M unit :=
  do! down := get m_shutdown in
  if (down : bool) then sm_ret tt
  else
    do! c := get_vcpu i in
    if negb (bool_decide (status c = RUNNING)) then sm_ret tt
    else
      do! g := get m_global_quantum in
      if delta_insn c <? g then sm_fail StopAssert else cpu_end_delta_quota i.

(** What [vcpu_tb_trans] adds to a block of [n] instructions: the count, and the callback when the
    count has reached the quantum. *)
Definition tb_inline (n : Z) (i : nat) : M unit := upd (set_vcpu i (fun c => set_delta (u64 (delta_insn c + n)) c)).

Definition tb_cond (i : nat) : M unit :=
  do! c := get_vcpu i in
  do! g := get m_global_quantum in
  if g <=? delta_insn c then vcpu_tb_exec_cond i else sm_ret tt.

(** The active processor [i] went idle: another takes over at its time. *)
Definition hand_over (i : nat) (d : Z) : M unit :=
  upd (fun s => sync_qemu_time_ns (u64 (m_qemu_time s + d)) s) ;;!
  upd (set_vcpu i (fun c => set_time (u64 (cpu_time c + d)) c)) ;;!
  do! new_active := select_active_vcpu in
  match new_active with
  | None =>
      do! q := get m_quantum in
      do! down := get m_shutdown in
      sm_when (negb down) (upd (out (idle_tick q))) ;;! detach_sync_window
  | Some n =>
      do! t := get m_qemu_time in
      upd (set_vcpu n (fun c => set_delta 0 (set_time t c))) ;;!
      do! c := get_vcpu n in
      sm_when (bool_decide (status c = PAUSED)) (upd (set_vcpu n (set_status RUNNING)) ;;! upd (out (resume (index c))))
  end.

Definition vcpu_idle (i : nat) : M unit :=
  do! down := get m_shutdown in
  if (down : bool) then sm_ret tt
  else
    do! c := get_vcpu i in
    match status c with
    | RUNNING =>
        upd (set_vcpu i (set_status IDLE)) ;;!
        do! active := get m_active_vcpu in
        sm_when (bool_decide (active = Some i)) (hand_over i (cpu_delta_time c)) ;;!
        upd (set_vcpu i (set_delta 0)) ;;!
        rebalance_and_sync None
    | _ => sm_ret tt
    end.

Definition vcpu_resume (i : nat) : M unit :=
  do! down := get m_shutdown in
  if (down : bool) then sm_ret tt
  else
    do! c := get_vcpu i in
    match status c with
    | IDLE =>
        upd (fun s => set_vcpu i (fun c => set_time (qemu_time_now s) (set_status RUNNING c)) s) ;;!
        do! active := get m_active_vcpu in
        match active with
        | Some _ => sm_ret tt
        | None =>
            upd (fun s => let sc_now := rounded (sw_now (m_sync_sc s)) in
                          if m_qemu_time s <? sc_now then sync_qemu_time_ns sc_now s else s) ;;!
            upd (fun s => set_active (Some i) (set_vcpu i (set_time (m_qemu_time s)) s)) ;;!
            attach_sync_window ;;! set_systemc_window None
        end
    | PAUSED =>
        do! active := get m_active_vcpu in
        do! threshold := get compute_threshold in
        do! now := get qemu_time_now in
        if negb (threshold =? 0) && negb (is_ahead active now threshold i c)
        then upd (set_vcpu i (set_status RUNNING)) ;;! upd (out (resume (index c)))
        else upd (out (request_pause (index c)))
    | RUNNING => sm_ret tt
    end.

(** The method of the idle event. *)
Definition idle_tick_method : M unit :=
  do! active := get m_active_vcpu in
  match active with
  | None => sm_ret tt
  | Some a =>
      do! now := get qemu_time_now in
      do! last := get m_wd_last_tick_qemu_time in
      do! q := get m_quantum in
      sm_when ((now =? last) && (0 <? q))
        (upd (fun s => sync_qemu_time_ns (u64 (m_qemu_time s + q)) s) ;;!
         upd (set_vcpu a (fun c => set_time (u64 (cpu_time c + q)) c)) ;;!
         set_systemc_window None ;;!
         upd (out (idle_tick q))) ;;!
      upd (fun s => set_wd (m_wd_last_clock_ns s) (m_wd_freeze_start_ns s) now s)
  end.

(** [get_qemu_clock] holds no lock: it loads the active processor and the nanoseconds, and then reads
    the instructions of that processor; callbacks can run in between.  [now_ns] is the wall clock. *)
Definition clock_load : M (option nat * Z) :=
  do! active := get m_active_vcpu in do! t := get m_qemu_time_ns in sm_ret (active, t).

Definition clock_result (now_ns : Z) (ld : option nat * Z) : M Z :=
  match ld.1 with
  | None =>
      do! sysc := get (fun s => to_ns (sw_now (m_sync_sc s))) in
      do! first := get m_first_vcpu_initialized in
      do! q := get m_quantum in
      sm_when (negb first) (upd (out (idle_tick q))) ;;!
      sm_ret (if (0 <? ld.2) && (ld.2 <? sysc) then sysc else ld.2)
  | Some a =>
      do! c := get_vcpu a in
      let t := ld.2 + to_ns (cpu_delta_time c) in
      do! prev := get m_wd_last_clock_ns in
      do! start := get m_wd_freeze_start_ns in
      (if negb (prev =? t) then upd (fun s => set_wd t 0 (m_wd_last_tick_qemu_time s) s)
       else if start =? 0 then upd (fun s => set_wd (m_wd_last_clock_ns s) now_ns (m_wd_last_tick_qemu_time s) s)
       else if kWdFreezeThresholdNs <? now_ns - start then
         upd (out (idle_tick 0)) ;;! upd (fun s => set_wd (m_wd_last_clock_ns s) now_ns (m_wd_last_tick_qemu_time s) s)
       else sm_ret tt) ;;!
      sm_ret t
  end.

(** A reading during which no callback runs. *)
Definition get_qemu_clock (now_ns : Z) : M Z :=
  do! down := get m_shutdown in
  if (down : bool) then get (fun s => to_ns (sw_now (m_sync_sc s)))
  else do! ld := clock_load in clock_result now_ns ld.

Definition set_vcpu_insn_per_second (n i : nat) (ips : Z) : M bool :=
  if ips =? 0 then sm_fail StopFatal
  else if (n <=? i)%nat then sm_ret false
  else
    upd (fun s => if (m_num_vcpus s <? n)%nat then set_num n s else s) ;;!
    do! c := get (fun s => vcpus s !! i) in
    match c with
    | None => sm_ret false
    | Some _ => upd (set_vcpu i (set_ips ips)) ;;! sm_ret true
    end.

(** [global] is the global quantum, [n] the number of processors. *)
Definition end_of_elaboration (global : Z) (n : nat) : M unit :=
  upd (set_quanta (to_ns global) global) ;;!
  upd (set_cur (mk_window 0 global)) ;;!
  do! on := get (fun s => sw_attached (m_sync_sc s)) in
  (if (on : bool) then on_sync (async_set_window (mk_window 0 global)) else sm_fail StopFatal) ;;!
  upd (set_num n) ;;!
  on_sync (fun y => Ret (register_sync_cb y)).

(** The part of [shutdown_cleanup] before it waits for the callbacks in flight, and the rest. *)
Definition shutdown_begin : M unit := upd (fun s => set_active None (set_shutdown true s)).
Definition shutdown_cleanup : M unit :=
  do! down := get m_shutdown in
  if (down : bool) then sm_ret tt else shutdown_begin ;;! detach_sync_window.
End Model.

(** After construction, with the scoreboard and the sync window. *)
Definition mcips_init (board : list vCPUTime) (y : sync) : mcips :=
  mk_mcips 0 0 y zero_window 0 0 None board 0 false 0 false 0 0 0 [].

(** ** Pausing and resuming *)

Section Proofs.
Context (delta_time : Z -> Z -> Z) (to_ns rounded : Z -> Z).

(** Times and who is active stay as they are; processors that are not idle may be paused or
    resumed. *)
Record soft (s s' : mcips) : Prop := {
  so_time : m_qemu_time s' = m_qemu_time s /\ m_qemu_time_ns s' = m_qemu_time_ns s;
  so_same : m_num_vcpus s' = m_num_vcpus s /\ m_active_vcpu s' = m_active_vcpu s /\ m_quantum s' = m_quantum s /\ m_shutdown s' = m_shutdown s /\
    m_inflight_cb s' = m_inflight_cb s;
  so_len : length (vcpus s') = length (vcpus s);
  so_vcpu : forall i c, vcpus s !! i = Some c -> exists st, vcpus s' !! i = Some (set_status st c) /\ (st = IDLE <-> status c = IDLE);
  so_att : m_active_vcpu s <> None -> sw_attached (m_sync_sc s') = sw_attached (m_sync_sc s);
  so_now : sw_now (m_sync_sc s') = sw_now (m_sync_sc s);
}.

Lemma soft_refl s : soft s s.
Proof. split; try done. intros i c E. exists (status c). by destruct c. Qed.

Lemma soft_trans s1 s2 s3 : soft s1 s2 -> soft s2 s3 -> soft s1 s3.
Proof.
  intros [[A1 A1'] (B1 & C1 & D1 & E1 & F1) L1 V1 T1 N1] [[A2 A2'] (B2 & C2 & D2 & E2 & F2) L2 V2 T2 N2]. split; [split; congruence|split_and!; congruence|congruence| | |congruence].
  - intros i c E. destruct (V1 i c E) as (st & E' & Hst). destruct (V2 i _ E') as (st' & E'' & Hst'). exists st'. split; [done|]. cbn [status set_status] in Hst'. tauto.
  - intros Hn. rewrite T2, T1; [done|done|by rewrite C1].
Qed.

Definition softly {A} (m : SM mcips A) : Prop := forall s a s', m s = Ret (a, s') -> soft s s'.

Lemma softly_bind {A B} (m : SM mcips A) (k : A -> SM mcips B) : softly m -> (forall a, softly (k a)) -> softly (sm_bind m k).
Proof. intros Hm Hk s b s'' H. apply sm_bind_Ret in H as (a & s' & H1 & H2). eapply soft_trans; [by eapply Hm|by eapply Hk]. Qed.

Lemma softly_ret {A} (a : A) : softly (sm_ret a).
Proof. intros s b s' [= _ <-]. apply soft_refl. Qed.

Lemma softly_get {A} (f : mcips -> A) : softly (get f).
Proof. intros s b s' [= _ <-]. apply soft_refl. Qed.

Lemma softly_out c : softly (upd (out c)).
Proof. intros s b s' [= _ <-]. split; try done. intros i d E. exists (status d). by destruct d. Qed.

Lemma softly_set_cur w : softly (upd (set_cur w)).
Proof. intros s b s' [= _ <-]. split; try done. intros i d E. exists (status d). by destruct d. Qed.

Lemma soft_status i st c s : vcpus s !! i = Some c -> status c <> IDLE -> st <> IDLE -> soft s (set_vcpu i (set_status st) s).
Proof.
  intros E Hc Hst. split; try done; cbn; [by rewrite length_alter|]. intros j d Ej. destruct (decide (j = i)) as [->|Hne].
  - rewrite list_lookup_alter_eq, Ej. simplify_eq. by exists st.
  - rewrite list_lookup_alter_ne by done. exists (status d). split; [rewrite Ej; by destruct d|done].
Qed.

(** A processor that is not idle is given another state, and QEMU is told. *)
Lemma soft_told i st c x s u s' : vcpus s !! i = Some c -> status c <> IDLE -> st <> IDLE ->
  (upd (set_vcpu i (set_status st)) ;;! upd (out x)) s = Ret (u, s') -> soft s s'.
Proof.
  intros E Hc Hst H. apply sm_bind_Ret in H as (v & s1 & [= _ <-] & H). eapply soft_trans; [by eapply soft_status|by eapply softly_out].
Qed.

Lemma softly_vcpu {A} i (k : vCPUTime -> SM mcips A) :
  (forall c s a s', vcpus s !! i = Some c -> k c s = Ret (a, s') -> soft s s') -> softly (do! c := get_vcpu i in k c).
Proof.
  intros Hk s a s' H. apply sm_bind_Ret in H as (c & s1 & H1 & H2). unfold get_vcpu in H1. destruct (vcpus s !! i) eqn:E; [|done]. simplify_eq. by eapply Hk.
Qed.

Lemma softly_pause i active now thr : softly (pause_if_ahead delta_time i active now thr).
Proof.
  apply softly_vcpu. intros c s a s' E. case_bool_decide as Hs; cbn [negb]; [|apply softly_ret]. destruct (is_ahead _ _ _ _ _ _); [|apply softly_ret].
  apply (soft_told i PAUSED c); congruence.
Qed.

Lemma softly_resume active now thr i : softly (resume_one delta_time active now thr i).
Proof.
  apply softly_vcpu. intros c s a s' E. case_bool_decide as Hs; cbn [negb]; [|apply softly_ret]. destruct (is_ahead _ _ _ _ _ _); [apply softly_ret|].
  apply (soft_told i RUNNING c); congruence.
Qed.

Lemma softly_iter {A} (f : A -> SM mcips unit) l : (forall x, softly (f x)) -> softly (sm_iter f l).
Proof. intros Hf. induction l as [|x l IH]; cbn [sm_iter]; [apply softly_ret|]. by apply softly_bind. Qed.

(** A change of the window that keeps it attached. *)
Lemma softly_on_sync f : (forall y y', f y = Ret y' -> sw_attached y' = sw_attached y /\ sw_now y' = sw_now y) -> softly (on_sync f).
Proof.
  intros Hf s u s'. unfold on_sync. destruct (f _) as [y|] eqn:E; [|done]. intros [= _ <-]. apply Hf in E as [Ea En]. split; try done.
  intros i d Ed. exists (status d). by destruct d.
Qed.

Lemma async_set_attached w y y' : async_set_window w y = Ret y' -> sw_attached y' = sw_attached y /\ sw_now y' = sw_now y.
Proof. unfold async_set_window. destruct (negb _); [done|]. intros [= <-]. by case_bool_decide. Qed.

Lemma softly_window custom : softly (set_systemc_window delta_time custom).
Proof.
  apply softly_bind; [apply softly_get|]. intros t. apply softly_bind; [apply softly_get|]. intros q. apply softly_on_sync. intros y y'.
  destruct (sw_attached y) eqn:Ea; [|by intros [= <-]; rewrite Ea]. intros H. rewrite <- Ea. by eapply async_set_attached.
Qed.

Lemma detach_now t y y' : (if sw_attached y then detach t y else Ret y) = Ret y' -> sw_now y' = sw_now y.
Proof.
  destruct (sw_attached y); [|by intros [= <-]]. unfold detach. destruct (async_set_window _ y) as [z|] eqn:E; [|done]. cbn. intros [= <-]. cbn.
  by eapply async_set_attached.
Qed.

Lemma soft_detach s u s' : m_active_vcpu s = None -> detach_sync_window s = Ret (u, s') -> soft s s'.
Proof.
  intros Hn. unfold detach_sync_window, on_sync, sm_bind, get. destruct (if sw_attached _ then _ else _) as [y|] eqn:E; [|done]. intros [= _ <-].
  split; try done; [|by eapply detach_now]. intros i d Ed. exists (status d). by destruct d.
Qed.

Lemma softly_rebalance v : softly (rebalance_and_sync delta_time v).
Proof.
  intros s u s' H. apply sm_bind_Ret in H as (a & s1 & [= <- <-] & H). destruct (m_active_vcpu s) as [a|] eqn:Ea; [|by eapply soft_detach].
  apply sm_bind_Ret in H as (thr & s1 & [= <- <-] & H). destruct (_ =? 0); [by eapply softly_ret|].
  apply sm_bind_Ret in H as (now & s1 & [= <- <-] & H). revert H. generalize (qemu_time_now delta_time s), (compute_threshold delta_time s). intros now thr.
  revert s Ea u s'. assert (softly (match v with Some i => pause_if_ahead delta_time i (Some a) now thr | None => sm_ret tt end ;;!
    resume_if_behind delta_time (Some a) now thr ;;! set_systemc_window delta_time None)) as Hs; [|intros; by eapply Hs].
  apply softly_bind; [destruct v; [apply softly_pause|apply softly_ret]|]. intros _. apply softly_bind; [|intros _; apply softly_window].
  apply softly_bind; [apply softly_get|]. intros n. apply softly_iter. intros i. apply softly_resume.
Qed.

(** ** The invariant *)

(** What the conversions of times keep to when they are exact but for rounding down: more
    instructions take longer, and rounding a sum loses no more than rounding its parts. *)
Record time_laws : Prop := {
  tl_nonneg : forall n ips, 0 <= delta_time n ips;
  tl_zero : forall ips, delta_time 0 ips = 0;
  tl_more : forall n n' ips, n <= n' -> delta_time n ips <= delta_time n' ips;
  tl_ns_zero : to_ns 0 = 0;
  tl_ns_mono : forall t t', t <= t' -> to_ns t <= to_ns t';
  tl_ns_sum : forall t t', 0 <= t -> 0 <= t' -> to_ns t + to_ns t' <= to_ns (t + t');
  tl_rounded : forall t, 0 <= t -> to_ns t <= to_ns (rounded t);
}.

Record minv (s : mcips) : Prop := {
  mi_num : (m_num_vcpus s <= length (vcpus s))%nat;
  mi_active : forall a, m_active_vcpu s = Some a -> (a < m_num_vcpus s)%nat /\ sw_attached (m_sync_sc s) = true /\
    exists c, vcpus s !! a = Some c /\ status c <> IDLE /\ cpu_time c = m_qemu_time s;
  mi_idle : m_active_vcpu s = None -> forall i c, vcpus s !! i = Some c -> status c = IDLE;
  mi_rest : forall i c, (m_num_vcpus s <= i)%nat -> vcpus s !! i = Some c -> status c = IDLE;
  mi_ns : m_qemu_time_ns s = to_ns (m_qemu_time s);
  mi_up : m_inflight_cb s = 0 /\ m_shutdown s = false;
  mi_now : 0 <= sw_now (m_sync_sc s);
}.

(** The time of the instance, before it is cut to 64 bits. *)
Definition clock (s : mcips) : Z := m_qemu_time s + from_option (cpu_delta_time delta_time) 0 (active_vcpu s).

(** The time that QEMU reads while the plugin is up. *)
Definition read_clock (s : mcips) : Z :=
  match active_vcpu s with
  | None => let sysc := to_ns (sw_now (m_sync_sc s)) in
            if (0 <? m_qemu_time_ns s) && (m_qemu_time_ns s <? sysc) then sysc else m_qemu_time_ns s
  | Some c => m_qemu_time_ns s + to_ns (cpu_delta_time delta_time c)
  end.

Lemma soft_keeps s s' : soft s s' -> minv s -> minv s' /\ read_clock s' = read_clock s.
Proof.
  intros [[A A'] (B & C & D & E & F) L V T N] [H1 H2 H3 H4 H5 [H6 H7] H8].
  assert (forall i c', vcpus s' !! i = Some c' -> exists c, vcpus s !! i = Some c /\ (status c' = IDLE <-> status c = IDLE)) as Hback.
  { intros i c' Ei. apply lookup_lt_Some in Ei as Hi. rewrite L in Hi. apply lookup_lt_is_Some in Hi as [c Ec]. destruct (V i c Ec) as (st & Es & Hst).
    rewrite Ei in Es. simplify_eq. by exists c. }
  split.
  - split; rewrite ?A, ?A', ?B, ?C, ?E, ?F, ?L, ?N; try done.
    + intros a Ea. destruct (H2 a Ea) as (Hn & Hat & c & Ec & Hs & Ht). destruct (V a c Ec) as (st & Es & Hst). split_and!; [done|by rewrite T, Hat by congruence|].
      exists (set_status st c). split_and!; [done| |done]. cbn. tauto.
    + intros Hn i c' Ei. destruct (Hback i c' Ei) as (c & Ec & Hiff). apply Hiff. by eapply H3.
    + intros i c' Hi Ei. destruct (Hback i c' Ei) as (c & Ec & Hiff). apply Hiff. by eapply H4.
  - unfold read_clock, active_vcpu. rewrite A', C, N. destruct (m_active_vcpu s) as [a|]; [|done]. cbn.
    destruct (vcpus s !! a) as [c|] eqn:Ec; cbn.
    + by destruct (V a c Ec) as (st & -> & _).
    + rewrite (lookup_ge_None_2 (vcpus s')); [done|]. rewrite L. by apply lookup_ge_None.
Qed.

Context (laws : time_laws).

(** No time overflows. *)
Definition roomy (s : mcips) : Prop := 0 <= m_qemu_time s /\ 0 <= m_quantum s /\ clock s + m_quantum s < 2 ^ 64.

(** The invariant holds, and the time that QEMU reads is not before [t]. *)
Definition good (t : Z) (s : mcips) : Prop := minv s /\ t <= read_clock s.

Definition advances {A} (m : SM mcips A) : Prop := forall s a s', m s = Ret (a, s') -> minv s -> roomy s -> good (read_clock s) s'.

Lemma soft_good t s s' : soft s s' -> good t s -> good t s'.
Proof. intros Hs [Hi Ht]. destruct (soft_keeps s s' Hs Hi) as [Hi' Hr]. split; [done|]. by rewrite Hr. Qed.

Lemma softly_advances {A} (m : SM mcips A) : softly m -> advances m.
Proof. intros Hm s a s' H Hi _. eapply soft_good; [by eapply Hm|]. by split. Qed.

(** The time of the active processor moves on by [d]: read at once or in the time of the instance. *)
Lemma to_ns_fold t d : 0 <= t -> 0 <= d -> t + d < 2 ^ 64 -> to_ns t + to_ns d <= to_ns (u64 (t + d)).
Proof. intros H1 H2 H3. rewrite wrap_small by (unfold in_width; lia). by apply (tl_ns_sum laws). Qed.

Lemma delta_pos c : 0 <= cpu_delta_time delta_time c.
Proof. apply (tl_nonneg laws). Qed.

Lemma to_ns_pos t : 0 <= t -> 0 <= to_ns t.
Proof. intros Ht. rewrite <- (tl_ns_zero laws). by apply (tl_ns_mono laws). Qed.

Lemma read_active s a c : m_active_vcpu s = Some a -> vcpus s !! a = Some c -> read_clock s = m_qemu_time_ns s + to_ns (cpu_delta_time delta_time c).
Proof. intros Ha Ec. unfold read_clock, active_vcpu. rewrite Ha. cbn. by rewrite Ec. Qed.

Lemma clock_active s a c : m_active_vcpu s = Some a -> vcpus s !! a = Some c -> clock s = m_qemu_time s + cpu_delta_time delta_time c.
Proof. intros Ha Ec. unfold clock, active_vcpu. rewrite Ha. cbn. by rewrite Ec. Qed.

(** Another processor than the active one changes. *)
Lemma other_vcpu s i f a : minv s -> m_active_vcpu s = Some a -> a <> i ->
  (forall c, (m_num_vcpus s <= i)%nat -> status c = IDLE -> status (f c) = IDLE) -> good (read_clock s) (set_vcpu i f s).
Proof.
  intros [H1 H2 H3 H4 H5 H6 H7] Ha Hne Hf. destruct (H2 a Ha) as (Han & Hat & ca & Eca & Hsa & Hta). split.
  - split; cbn; rewrite ?length_alter; try done.
    + rewrite Ha. intros b [= <-]. split_and!; [done|done|]. rewrite list_lookup_alter_ne by done. by exists ca.
    + rewrite Ha. done.
    + intros j cj Hj. rewrite list_lookup_alter. case_decide as Hij; [|by apply H4]. subst j. destruct (vcpus s !! i) as [c|] eqn:Ec; [|done]. intros [= <-].
      apply Hf; [done|]. by eapply H4.
  - rewrite (read_active s a ca Ha Eca), (read_active _ a ca); [done|done|]. cbn. by rewrite list_lookup_alter_ne.
Qed.

(** The time of a processor that is not idle, the active one or another, moves on. *)
Lemma charge_keeps s i c a : minv s -> roomy s -> m_active_vcpu s = Some a -> vcpus s !! i = Some c -> status c <> IDLE ->
  let d := cpu_delta_time delta_time c in
  let s1 := if bool_decide (a = i) then sync_qemu_time_ns to_ns (u64 (m_qemu_time s + d)) s else s in
  good (read_clock s) (set_vcpu i (fun c => set_delta 0 (set_time (u64 (cpu_time c + d)) c)) s1).
Proof.
  intros [H1 H2 H3 H4 H5 H6 H7] (R1 & R2 & R3) Ha Ec Hs. cbv zeta. destruct (H2 a Ha) as (Han & Hat & ca & Eca & Hsa & Hta).
  pose proof (clock_active s a ca Ha Eca) as Hclk. pose proof (delta_pos ca) as Hd. case_bool_decide as Hai.
  - subst i. rewrite Eca in Ec. simplify_eq. split.
    + split; cbn; rewrite ?length_alter, ?list_lookup_alter_eq; try done.
      * rewrite Ha. intros b [= <-]. split_and!; [done|done|]. rewrite list_lookup_alter_eq, Eca. eexists. split; [done|]. cbn. split; [done|]. by rewrite Hta.
      * rewrite Ha. done.
      * intros j cj Hj. rewrite list_lookup_alter_ne by lia. by apply H4.
    + rewrite (read_active s a c Ha Eca), (read_active _ a (set_delta 0 (set_time (u64 (cpu_time c + cpu_delta_time delta_time c)) c)));
        [|done|cbn; by rewrite list_lookup_alter_eq, Eca]. cbn. unfold cpu_delta_time at 3. cbn. rewrite (tl_zero laws), (tl_ns_zero laws), H5, Z.add_0_r.
      apply to_ns_fold; [done|done|lia].
  - apply (other_vcpu s i _ a); [by split|done|done|]. done.
Qed.

Lemma get_vcpu_Ret i s c s' : get_vcpu i s = Ret (c, s') -> s' = s /\ vcpus s !! i = Some c.
Proof. unfold get_vcpu. destruct (vcpus s !! i); [|done]. by intros [= <- <-]. Qed.

(** ** Handlers *)

Ltac step_in H x := let s := fresh "s" in apply sm_bind_Ret in H as (x & s & [= <- <-] & H).
Ltac skip_in H := let u := fresh "u" in let s := fresh "s" in apply sm_bind_Ret in H as (u & s & [= _ <-] & H).

Lemma advances_up {A} (m : SM mcips A) (a : A) : advances m -> advances (do! down := get m_shutdown in if (down : bool) then sm_ret a else m).
Proof. intros Hm s b s' H Hi Hr. step_in H down. destruct (mi_up s Hi) as [_ Hup]. rewrite Hup in H. by eapply Hm. Qed.

Lemma advances_quota i : advances (cpu_end_delta_quota delta_time to_ns i).
Proof.
  intros s u s' H Hi Hr. apply sm_bind_Ret in H as (c & s1 & H1 & H). apply get_vcpu_Ret in H1 as [-> Ec]. case_bool_decide as Hs; cbn [negb] in H.
  - step_in H active. destruct (m_active_vcpu s) as [a|] eqn:Ha; [|done]. skip_in H. skip_in H.
    eapply soft_good; [by eapply softly_rebalance|]. apply (charge_keeps s i c a); congruence.
  - injection H as _ <-. by split.
Qed.

Lemma advances_exec_cond i : advances (vcpu_tb_exec_cond delta_time to_ns i).
Proof.
  apply advances_up. intros s u s' H Hi Hr. apply sm_bind_Ret in H as (c & s1 & H1 & H). apply get_vcpu_Ret in H1 as [-> Ec].
  destruct (negb _); [injection H as _ <-; by split|]. step_in H g. destruct (_ <? _); [done|]. by eapply advances_quota.
Qed.

Lemma advances_cond i : advances (tb_cond delta_time to_ns i).
Proof.
  intros s u s' H Hi Hr. apply sm_bind_Ret in H as (c & s1 & H1 & H). apply get_vcpu_Ret in H1 as [-> Ec]. step_in H g.
  destruct (_ <=? _); [by eapply advances_exec_cond|injection H as _ <-; by split].
Qed.

Lemma first_busy_Some s n : first_busy s = Some n -> exists c, vcpus s !! n = Some c /\ status c <> IDLE /\ (n < m_num_vcpus s)%nat.
Proof.
  unfold first_busy. destruct (list_find _ _) as [[k c]|] eqn:E; [|done]. cbn. intros [= <-]. apply list_find_Some in E as (E & Hc & _).
  apply lookup_take_Some in E as [E Hk]. by exists c.
Qed.

Lemma first_busy_None s i c : first_busy s = None -> (i < m_num_vcpus s)%nat -> vcpus s !! i = Some c -> status c = IDLE.
Proof.
  unfold first_busy. destruct (list_find _ _) as [[k d]|] eqn:E; [done|]. intros _ Hi Ec. apply list_find_None in E. rewrite Forall_lookup in E.
  apply dec_stable, (E i). by rewrite lookup_take_lt.
Qed.

(** A processor other than the active one, if there is one, changes but for its state. *)
Lemma passive_vcpu s i f : minv s -> m_active_vcpu s <> Some i -> (forall c, status (f c) = status c) -> good (read_clock s) (set_vcpu i f s).
Proof.
  intros Hi Hne Hf. destruct (m_active_vcpu s) as [a|] eqn:Ha; [eapply other_vcpu; [done|done|congruence|]; intros c _; by rewrite Hf|].
  destruct Hi as [H1 H2 H3 H4 H5 H6 H7].
  assert (forall j c, vcpus (set_vcpu i f s) !! j = Some c -> status c = IDLE) as Hall.
  { intros j c. cbn. rewrite list_lookup_alter. case_decide; [|by apply H3]. subst j. destruct (vcpus s !! i) as [d|] eqn:Ed; [|done]. intros [= <-].
    rewrite Hf. by eapply H3. }
  split; [split; try done; [cbn; by rewrite length_alter|cbn; by rewrite Ha|intros; by eapply Hall]|].
  unfold read_clock, active_vcpu. cbn. by rewrite Ha.
Qed.

(** The active processor goes idle. *)
Lemma hand_over_good s i c u s' : minv s -> roomy s -> m_active_vcpu s = Some i -> vcpus s !! i = Some c ->
  hand_over to_ns i (cpu_delta_time delta_time c) (set_vcpu i (set_status IDLE) s) = Ret (u, s') ->
  good (read_clock s) s' /\ m_active_vcpu s' <> Some i.
Proof.
  intros Hi (R1 & R2 & R3) Ha Ec H. pose proof (clock_active s i c Ha Ec) as Hclk. pose proof (delta_pos c) as Hd. pose proof Hi as [H1 H2 H3 H4 H5 H6 H7].
  destruct (H2 i Ha) as (Hin & Hat & c' & Ec' & _). rewrite (read_active s i c Ha Ec), H5. skip_in H. skip_in H. apply sm_bind_Ret in H as (new & s2 & Hn & H). skip_in Hn. injection Hn as <- <-.
  cbn [m_active_vcpu set_active] in H. set (s3 := set_vcpu i _ _) in H.
  assert (forall j cj, vcpus s3 !! j = Some cj -> if decide (j = i) then status cj = IDLE else vcpus s !! j = Some cj) as Hback.
  { intros j cj. cbn. rewrite !list_lookup_alter. destruct (decide (i = j)) as [<-|Hne]; [|by rewrite decide_False]. rewrite !decide_True, Ec by done. cbn. by intros [= <-]. }
  pose proof (to_ns_fold (m_qemu_time s) (cpu_delta_time delta_time c) R1 Hd ltac:(lia)) as Hfold.
  destruct (first_busy s3) as [n|] eqn:Ef.
  - destruct (first_busy_Some s3 n Ef) as (cn & En & Hcn & Hnn). pose proof (Hback n cn En) as Hbn. case_decide as Hni; [congruence|]. step_in H t. skip_in H.
    apply sm_bind_Ret in H as (d & s4 & H8 & H). apply get_vcpu_Ret in H8 as [-> Ed]. cbn in Ed.
    match goal with H : sm_when _ _ ?x = _ |- _ => set (s4 := x) in H end.
    assert (good (to_ns (m_qemu_time s) + to_ns (cpu_delta_time delta_time c)) s4 /\ m_active_vcpu s4 = Some n) as [Hg Hact].
    { split; [|done]. split.
      - split; cbn; try done.
        + by rewrite !length_alter.
        + intros b [= <-]. split_and!; [done|done|]. rewrite list_lookup_alter_eq. cbn in En. rewrite En. by eexists.
        + intros j cj Hj. rewrite list_lookup_alter_ne by (cbn in Hnn; lia). intros Ej. specialize (Hback j cj Ej). case_decide; [done|]. by eapply H4.
      - rewrite (read_active s4 n (set_delta 0 (set_time (m_qemu_time s3) cn))); [|done|cbn; rewrite list_lookup_alter_eq; cbn in En; by rewrite En].
        unfold cpu_delta_time at 2. cbn. rewrite (tl_zero laws), (tl_ns_zero laws). lia. }
    unfold sm_when in H. case_bool_decide as Hp; [|injection H as _ <-; split; [done|congruence]].
    assert (soft s4 s') as Hso by (eapply (soft_told n RUNNING d); [done|congruence|done|done]).
    split; [by eapply soft_good|]. destruct (so_same _ _ Hso) as (_ & -> & _). congruence.
  - step_in H q. step_in H down. apply sm_bind_Ret in H as (v & s5 & Ho & H).
    set (s4 := set_active _ _) in Ho.
    assert (soft s4 s5) as Hs5 by (unfold sm_when in Ho; destruct (negb _); [by eapply softly_out|by eapply softly_ret]).
    assert (m_active_vcpu s5 = None) as Hn5 by (destruct (so_same _ _ Hs5) as (_ & -> & _); done).
    assert (soft s4 s') as Hs' by (eapply soft_trans; [done|by eapply soft_detach]). split; [|destruct (so_same _ _ Hs') as (_ & -> & _); done].
    eapply soft_good; [done|]. assert (forall j cj, vcpus s3 !! j = Some cj -> status cj = IDLE) as Hall.
    { intros j cj Ej. destruct (decide (j < m_num_vcpus s3)%nat) as [Hj|Hj]; [by eapply first_busy_None|]. specialize (Hback j cj Ej). case_decide; [done|].
      eapply H4; [|done]. cbn in Hj. lia. }
    split; [split; try done; [cbn; rewrite !length_alter; done|intros; by eapply Hall]|]. unfold read_clock. cbn. destruct (_ && _) eqn:Eb; [|lia].
    apply andb_true_iff in Eb as [_ Eb]. apply Z.ltb_lt in Eb. lia.
Qed.

Lemma good_trans t s s' : good t s -> good (read_clock s) s' -> good t s'.
Proof. intros [_ H1] [H2 H3]. split; [done|lia]. Qed.

Lemma running_active s i c : minv s -> vcpus s !! i = Some c -> status c <> IDLE -> exists a, m_active_vcpu s = Some a.
Proof. intros Hi Ec Hc. destruct (m_active_vcpu s) as [a|] eqn:Ha; [by exists a|]. by specialize (mi_idle s Hi Ha i c Ec). Qed.

Lemma idle_passive s i c : minv s -> vcpus s !! i = Some c -> status c = IDLE -> m_active_vcpu s <> Some i.
Proof. intros Hi Ec Hc Ha. destruct (mi_active s Hi i Ha) as (_ & _ & d & Ed & Hd & _). congruence. Qed.

Lemma advances_idle i : advances (vcpu_idle delta_time to_ns i).
Proof.
  apply advances_up. intros s u s' H Hi Hr. apply sm_bind_Ret in H as (c & s1 & H1 & H). apply get_vcpu_Ret in H1 as [-> Ec].
  destruct (status c) eqn:Hs; [injection H as _ <-; by split..|]. skip_in H. step_in H active. apply sm_bind_Ret in H as (v & s2 & Hh & H). skip_in H.
  destruct (running_active s i c Hi Ec) as [a Ha]; [congruence|]. eapply soft_good; [by eapply softly_rebalance|].
  assert (good (read_clock s) s2 /\ m_active_vcpu s2 <> Some i) as [Hg Hne].
  { cbn in Hh. rewrite Ha in Hh. unfold sm_when in Hh. case_bool_decide as Hai.
    - injection Hai as ->. eapply hand_over_good; [done|done|done|done|exact Hh].
    - injection Hh as _ <-. split; [|cbn; congruence]. eapply other_vcpu; [done|done|congruence|done]. }
  eapply good_trans; [done|]. apply passive_vcpu; [apply Hg|done|done].
Qed.

(** The first processor to resume drives the time, which is not before that of SystemC. *)
Lemma resume_first s i c t : minv s -> roomy s -> m_active_vcpu s = None -> vcpus s !! i = Some c -> (i < m_num_vcpus s)%nat ->
  let s1 := set_vcpu i (fun c => set_time t (set_status RUNNING c)) s in
  let sc_now := rounded (sw_now (m_sync_sc s)) in
  let s2 := if m_qemu_time s1 <? sc_now then sync_qemu_time_ns to_ns sc_now s1 else s1 in
  forall y, sw_attached y = true -> sw_now y = sw_now (m_sync_sc s) ->
  good (read_clock s) (set_sync y (set_active (Some i) (set_vcpu i (set_time (m_qemu_time s2)) s2))).
Proof.
  intros [H1 H2 H3 H4 H5 H6 H7] (R1 & R2 & R3) Ha Ec Hi. cbv zeta. intros y Hy Hn.
  set (s1 := set_vcpu i _ s). set (s2 := if _ <? _ then _ else s1).
  assert (vcpus s2 = alter (fun c => set_time t (set_status RUNNING c)) i (vcpus s) /\ m_num_vcpus s2 = m_num_vcpus s /\ m_inflight_cb s2 = m_inflight_cb s /\ m_shutdown s2 = m_shutdown s) as (V & N & I & U)
    by (unfold s2; by destruct (_ <? _)).
  assert (m_qemu_time_ns s2 = to_ns (m_qemu_time s2)) as Hns by (unfold s2; by destruct (_ <? _)).
  assert (m_qemu_time s <= m_qemu_time s2 /\ rounded (sw_now (m_sync_sc s)) <= m_qemu_time s2) as [Hge Hsc] by (unfold s2; change (m_qemu_time s1) with (m_qemu_time s); destruct (Z.ltb_spec (m_qemu_time s) (rounded (sw_now (m_sync_sc s)))); cbn; lia).
  split.
  - split; cbn; rewrite ?V, ?N, ?I, ?U, ?Hn; rewrite ?length_alter; try done.
    + intros a [= <-]. split_and!; [done|done|]. rewrite !list_lookup_alter_eq, Ec. by eexists.
    + intros j cj Hj. rewrite !list_lookup_alter_ne by lia. by apply H4.
  - rewrite (read_active (set_sync y _) i (set_time (m_qemu_time s2) (set_time t (set_status RUNNING c)))); [|done|cbn; rewrite V, !list_lookup_alter_eq, Ec; done]. cbn. rewrite Hns.
    pose proof (to_ns_pos _ (delta_pos (set_time (m_qemu_time s2) (set_time t (set_status RUNNING c))))) as Hd.
    pose proof (tl_ns_mono laws _ _ Hge) as Hm. pose proof (tl_ns_mono laws _ _ Hsc) as Hm'. pose proof (tl_rounded laws _ H7) as Hr.
    unfold read_clock, active_vcpu. rewrite Ha. cbn. destruct (_ && _); lia.
Qed.

Lemma advances_resume i s u s' : (i < m_num_vcpus s)%nat -> vcpu_resume delta_time to_ns rounded i s = Ret (u, s') -> minv s -> roomy s -> good (read_clock s) s'.
Proof.
  intros Hn H Hi Hr. step_in H down. destruct (mi_up s Hi) as [_ Hup]. rewrite Hup in H.
  apply sm_bind_Ret in H as (c & s1 & H1 & H). apply get_vcpu_Ret in H1 as [-> Ec]. destruct (status c) eqn:Hs.
  - skip_in H. step_in H active. cbn in H. destruct (m_active_vcpu s) as [a|] eqn:Ha.
    + injection H as _ <-. eapply other_vcpu; [done|done| |intros; lia]. intros ->. by apply (idle_passive s i c Hi Ec Hs).
    + skip_in H. skip_in H. apply sm_bind_Ret in H as (v & s3 & Hat & H). eapply soft_good; [by eapply softly_window|].
      injection Hat as _ <-. eapply resume_first; [done|done|done|done|done| |].
      all: destruct (sw_attached (m_sync_sc _)) eqn:Ew; cbn; try done; by destruct (_ <? _).
  - step_in H active. step_in H thr. step_in H now. eapply soft_good; [|by split].
    destruct (_ && _); [by eapply (soft_told i RUNNING c); [|congruence| |]|by eapply softly_out].
  - injection H as _ <-. by split.
Qed.

Lemma softly_wd last start tick : softly (upd (fun s => set_wd (last s) (start s) (tick s) s)).
Proof. intros s b s' [= _ <-]. split; try done. intros i d E. exists (status d). by destruct d. Qed.

Lemma advances_tick : advances (idle_tick_method delta_time to_ns).
Proof.
  intros s u s' H Hi Hr. step_in H active. destruct (m_active_vcpu s) as [a|] eqn:Ha; [|injection H as _ <-; by split].
  step_in H now. step_in H prev. step_in H q. apply sm_bind_Ret in H as (v & s1 & Hw & H). eapply soft_good; [by eapply (softly_wd m_wd_last_clock_ns m_wd_freeze_start_ns (fun _ => _))|].
  unfold sm_when in Hw. destruct (_ && _); [|injection Hw as _ <-; by split]. skip_in Hw. skip_in Hw.
  apply sm_bind_Ret in Hw as (v' & s2 & Hw1 & Hw2). eapply soft_good; [by eapply softly_out|]. eapply soft_good; [by eapply softly_window|].
  destruct (mi_active s Hi a Ha) as (Hn & Hat & c & Ec & Hs & Ht). destruct Hr as (R1 & R2 & R3). pose proof (clock_active s a c Ha Ec) as Hclk. pose proof (delta_pos c) as Hd.
  destruct Hi as [H1 H2 H3 H4 H5 H6 H7]. split.
  - split; cbn; rewrite ?length_alter, ?Ha; try done.
    + intros b [= <-]. split_and!; [done|done|]. rewrite list_lookup_alter_eq, Ec. eexists. split_and!; [done|done|]. cbn. by rewrite Ht.
    + intros j cj Hj. rewrite list_lookup_alter_ne by lia. by apply H4.
  - rewrite (read_active s a c Ha Ec). erewrite (read_active (set_vcpu _ _ _)); [|done|cbn; rewrite list_lookup_alter_eq, Ec; done]. cbn.
    assert (to_ns (m_qemu_time s) <= to_ns (u64 (m_qemu_time s + m_quantum s))); [|unfold cpu_delta_time in *; cbn; lia].
    rewrite wrap_small by (unfold in_width; lia). apply (tl_ns_mono laws). lia.
Qed.

(** A window received. *)
Lemma soft_counted s s2 : soft (set_inflight (m_inflight_cb s + 1) s) s2 -> soft s (set_inflight (m_inflight_cb s2 - 1) s2).
Proof.
  intros [A (B & C & D & E & F) L V T N]. split; try done. cbn in *. split_and!; try done. rewrite F. lia.
Qed.

Lemma softly_grant active : softly (
    match active with
    | None => rebalance_and_sync delta_time None
    | Some a =>
        do! c := get_vcpu a in
        (if bool_decide (status c = PAUSED) then
           do! threshold := get (compute_threshold delta_time) in
           do! now := get (qemu_time_now delta_time) in
           if negb (threshold =? 0) && (now <=? threshold)
           then upd (set_vcpu a (set_status RUNNING)) ;;! upd (out (resume (index c)))
           else sm_ret tt
         else sm_ret tt) ;;!
        set_systemc_window delta_time None
    end).
Proof.
  destruct active as [a|]; [|by eapply softly_rebalance]. apply softly_vcpu.
  intros c s u s' Ec H. apply sm_bind_Ret in H as (v & s1 & Hp & H). eapply soft_trans; [|by eapply softly_window].
  case_bool_decide as Hs; [|by eapply softly_ret]. step_in Hp thr. step_in Hp now. destruct (_ && _); [|by eapply softly_ret].
  eapply (soft_told a RUNNING c); [done|congruence|done|done].
Qed.

Lemma advances_window w : advances (receive_window_cb delta_time w).
Proof.
  apply advances_up. intros s u s' H Hi Hr. skip_in H. skip_in H. step_in H active. apply sm_bind_Ret in H as (v & s2 & Hg & H). injection H as _ <-.
  eapply soft_good; [|by split]. apply soft_counted. eapply soft_trans; [|by eapply softly_grant]. by eapply softly_set_cur.
Qed.

Lemma softly_clock_result ns ld : softly (clock_result delta_time to_ns ns ld).
Proof.
  destruct ld as [[a|] t]; unfold clock_result; cbn [fst snd].
  - apply softly_vcpu. intros c s v s' Ec. cbv zeta. revert s v s' Ec. assert (forall A (m : SM mcips A), softly m -> forall s v s', vcpus s !! a = Some c -> m s = Ret (v, s') -> soft s s') as Hany
      by (intros A m Hm s v s' _; apply Hm).
    apply Hany. apply softly_bind; [apply softly_get|]. intros prev. apply softly_bind; [apply softly_get|]. intros start.
    apply softly_bind; [|intros _; apply softly_ret]. destruct (negb _).
    + apply (softly_wd (fun _ => _) (fun _ => 0) m_wd_last_tick_qemu_time).
    + destruct (_ =? 0); [apply (softly_wd m_wd_last_clock_ns (fun _ => ns) m_wd_last_tick_qemu_time)|]. destruct (_ <? _); [|apply softly_ret].
      apply softly_bind; [apply softly_out|]. intros _. apply (softly_wd m_wd_last_clock_ns (fun _ => ns) m_wd_last_tick_qemu_time).
  - apply softly_bind; [apply softly_get|]. intros sysc. apply softly_bind; [apply softly_get|]. intros init. apply softly_bind; [apply softly_get|]. intros q.
    apply softly_bind; [|intros _; apply softly_ret]. unfold sm_when. destruct (negb _); [apply softly_out|apply softly_ret].
Qed.

Lemma soft_get_clock s ns v s' : m_shutdown s = false -> get_qemu_clock delta_time to_ns ns s = Ret (v, s') -> v = read_clock s /\ soft s s'.
Proof.
  intros Hup H. step_in H down. rewrite Hup in H. step_in H ld. split; [|by eapply softly_clock_result].
  unfold read_clock, active_vcpu. unfold clock_result in H. cbn [fst snd] in H. destruct (m_active_vcpu s) as [a|]; cbn [mbind option_bind].
  - apply sm_bind_Ret in H as (c & s1 & H1 & H). apply get_vcpu_Ret in H1 as [-> ->]. step_in H prev. step_in H start.
    apply sm_bind_Ret in H as (w & s1 & _ & H). unfold sm_ret in H. by injection H as <- _.
  - step_in H sysc. step_in H init. step_in H q. apply sm_bind_Ret in H as (w & s1 & _ & H). unfold sm_ret in H. by injection H as <- _.
Qed.

Lemma advances_init current i s u s' : (i < current <= length (vcpus s))%nat -> m_active_vcpu s <> Some i ->
  (m_active_vcpu s = None -> m_qemu_time s = 0 /\ sw_attached (m_sync_sc s) = true) ->
  vcpu_init current i s = Ret (u, s') -> minv s -> good (read_clock s) s'.
Proof.
  intros Hi Hne Hfresh H Hinv. step_in H down. destruct (mi_up s Hinv) as [_ Hup]. rewrite Hup in H. skip_in H.
  set (s1 := if Nat.ltb _ _ then set_num current s else s) in H. apply sm_bind_Ret in H as (c & s2 & H1 & H). apply get_vcpu_Ret in H1 as [-> Ec]. skip_in H. skip_in H. injection H as _ <-.
  assert (minv s1 /\ read_clock s1 = read_clock s /\ (i < m_num_vcpus s1)%nat) as (Hi1 & Hr1 & Hn1).
  { unfold s1. destruct (Nat.ltb_spec (m_num_vcpus s) current); [|by split_and!; [| |lia]]. split_and!; [|done|cbn; lia]. destruct Hinv as [H1 H2 H3 H4 H5 H6 H7].
    split; try done; cbn; [lia| |].
    - intros a Ha. destruct (H2 a Ha) as (? & ? & ?). split; [lia|done].
    - intros j cj Hj. apply H4. lia. }
  assert (m_active_vcpu s1 = m_active_vcpu s /\ m_qemu_time s1 = m_qemu_time s /\ m_sync_sc s1 = m_sync_sc s) as (A1 & T1 & S1) by (unfold s1; by destruct (_ <? _)%nat).
  rewrite <- Hr1, <- A1, <- T1, <- S1 in *. clearbody s1. clear Hr1 A1 T1 S1 Hinv Hup. cbn [m_active_vcpu set_vcpu set_vcpus].
  destruct (m_active_vcpu s1) as [a|] eqn:Ha.
  - assert (good (read_clock s1) (set_vcpu i (fun c => mk_vcpu (Z.of_nat i) (if insn_per_second c =? 0 then 1000000000 else insn_per_second c) 0 0 RUNNING) s1)) as [[H1 H2 H3 H4 H5 H6 H7] Hle]
      by (eapply other_vcpu; [done|done|congruence|intros; lia]). by split.
  - destruct Hfresh as [Hz Hat]; [done|]. destruct Hi1 as [H1 H2 H3 H4 H5 H6 H7]. split.
    + split; cbn; rewrite ?length_alter; try done.
      * intros b [= <-]. split_and!; [done|done|]. rewrite list_lookup_alter_eq, Ec. by eexists.
      * intros j cj Hj. rewrite list_lookup_alter_ne by lia. by apply H4.
    + erewrite (read_active (set_first _ _)); [|done|cbn; rewrite list_lookup_alter_eq, Ec; done]. cbn. unfold cpu_delta_time. cbn. rewrite (tl_zero laws), (tl_ns_zero laws).
      unfold read_clock, active_vcpu. rewrite Ha. cbn. rewrite H5, Hz, (tl_ns_zero laws). done.
Qed.

(** A processor that is not idle runs [n] instructions. *)
Lemma advances_run s i c n u s' : minv s -> vcpus s !! i = Some c -> status c <> IDLE -> 0 <= n -> in_width 64 (delta_insn c + n) ->
  tb_inline n i s = Ret (u, s') -> good (read_clock s) s'.
Proof.
  intros Hi Ec Hc Hn Hw [= _ <-]. destruct (running_active s i c Hi Ec Hc) as [a Ha]. destruct (decide (a = i)) as [->|Hne]; [|by eapply other_vcpu].
  destruct (mi_active s Hi i Ha) as (Hin & Hat & d & Ed & Hd & Ht). destruct Hi as [H1 H2 H3 H4 H5 H6 H7]. simplify_eq. split.
  - split; cbn; rewrite ?length_alter, ?Ha; try done.
    + intros b [= <-]. split_and!; [done|done|]. rewrite list_lookup_alter_eq, Ec. by eexists.
    + intros j cj Hj. rewrite list_lookup_alter_ne by lia. by apply H4.
  - rewrite (read_active s i c Ha Ec). erewrite (read_active (set_vcpu _ _ _)); [|done|cbn; rewrite list_lookup_alter_eq, Ec; done].
    apply Z.add_le_mono_l, (tl_ns_mono laws), (tl_more laws). cbn. rewrite wrap_small by done. lia.
Qed.

(** The SystemC kernel moves on. *)
Lemma advances_sync s y : minv s -> sw_attached y = sw_attached (m_sync_sc s) -> sw_now (m_sync_sc s) <= sw_now y -> good (read_clock s) (set_sync y s).
Proof.
  intros [H1 H2 H3 H4 H5 H6 H7] Ha Hn. split; [split; try done; cbn; [by rewrite Ha|lia]|]. pose proof (tl_ns_mono laws _ _ Hn) as Hm.
  unfold read_clock. change (active_vcpu (set_sync y s)) with (active_vcpu s). destruct (active_vcpu s); [done|]. cbn.
  repeat case_match; rewrite ?andb_true_iff, ?andb_false_iff, ?Z.ltb_lt, ?Z.ltb_ge in *; lia.
Qed.

(** ** Runs *)

(** [mr_run] and [mr_quota] are the code that the plugin adds to a translated block, [mr_sync] the SystemC thread
    outside the plugin, [mr_clock] the end of a reading that may have begun at any time.  Processors
    are initialised before time passes. *)
Inductive mstep : mcips -> mcips -> Prop :=
| mr_init current i s u s' :
    (i < current <= length (vcpus s))%nat -> m_active_vcpu s <> Some i ->
    (m_active_vcpu s = None -> m_qemu_time s = 0 /\ sw_attached (m_sync_sc s) = true) ->
    vcpu_init current i s = Ret (u, s') -> mstep s s'
| mr_run i c n s u s' :
    vcpus s !! i = Some c -> status c <> IDLE -> 0 <= n -> in_width 64 (delta_insn c + n) -> tb_inline n i s = Ret (u, s') -> mstep s s'
| mr_quota i s u s' : tb_cond delta_time to_ns i s = Ret (u, s') -> mstep s s'
| mr_idle i s u s' : vcpu_idle delta_time to_ns i s = Ret (u, s') -> mstep s s'
| mr_resume i s u s' : (i < m_num_vcpus s)%nat -> vcpu_resume delta_time to_ns rounded i s = Ret (u, s') -> mstep s s'
| mr_window w s u s' : receive_window_cb delta_time w s = Ret (u, s') -> mstep s s'
| mr_tick s u s' : idle_tick_method delta_time to_ns s = Ret (u, s') -> mstep s s'
| mr_clock ns ld s t s' : clock_result delta_time to_ns ns ld s = Ret (t, s') -> mstep s s'
| mr_sync y s : sw_attached y = sw_attached (m_sync_sc s) -> sw_now (m_sync_sc s) <= sw_now y -> mstep s (set_sync y s).

Definition mrun : mcips -> mcips -> Prop := rtc (fun s s' => roomy s /\ mstep s s').

Lemma mstep_good s s' : mstep s s' -> minv s -> roomy s -> good (read_clock s) s'.
Proof.
  intros [] Hi Hr.
  - by eapply advances_init.
  - by eapply advances_run.
  - by eapply advances_cond.
  - by eapply advances_idle.
  - by eapply advances_resume.
  - by eapply advances_window.
  - by eapply advances_tick.
  - eapply soft_good; [|by split]. by eapply softly_clock_result.
  - by apply advances_sync.
Qed.

Lemma mrun_good s s' : mrun s s' -> minv s -> good (read_clock s) s'.
Proof.
  induction 1 as [s|s s1 s2 [Hr Hs] _ IH]; intros Hi; [by split|]. destruct (mstep_good s s1 Hs Hi Hr) as [Hi1 Hle].
  destruct (IH Hi1) as [Hi2 Hle2]. split; [done|lia].
Qed.

(** The state at the start of a simulation. *)
Lemma minv_start pend g n board u s : Forall (fun c => status c = IDLE) board -> (n <= length board)%nat ->
  end_of_elaboration to_ns g n (mcips_init board (@sync_init (sync_policy_tlm_quantum g) pend)) = Ret (u, s) -> minv s.
Proof.
  intros Hb Hn H. skip_in H. skip_in H. step_in H on. apply sm_bind_Ret in H as (v & s1 & Hw & H). skip_in H. injection H as _ <-.
  cbn in Hw. injection Hw as _ <-. rewrite Forall_lookup in Hb.
  split; try done; cbn. all: try (intros; by eapply Hb). all: try by rewrite (tl_ns_zero laws).
  by case_bool_decide.
Qed.

(** ** No processor waits for another *)

(** The slowest processor. *)
Lemma slower_min l acc : match foldl (slower delta_time) acc l with
  | Some t => (acc = Some t \/ exists c, c ∈ l /\ status c <> IDLE /\ cpu_time_now delta_time c = t) /\ (forall t', acc = Some t' -> t <= t') /\
              (forall c, c ∈ l -> status c <> IDLE -> t <= cpu_time_now delta_time c)
  | None => acc = None /\ forall c, c ∈ l -> status c = IDLE
  end.
Proof.
  revert acc. induction l as [|c l IH]; intros acc; cbn [foldl].
  - destruct acc as [t|]; [|by split; [|intros c Hc%elem_of_nil]]. split_and!; [by left|intros t' [= <-]; done|by intros c Hc%elem_of_nil].
  - specialize (IH (slower delta_time acc c)). destruct (decide (status c = IDLE)) as [Hc|Hc].
    + assert (slower delta_time acc c = acc) as Hacc by (unfold slower; by rewrite bool_decide_true).
      rewrite Hacc in *. destruct (foldl _ acc l) as [t|]; [destruct IH as (H1 & H2 & H3)|destruct IH as (H1 & H2)].
      * split_and!; [|done|].
        -- destruct H1 as [?|(d & ? & ? & ?)]; [by left|right; exists d; split; [by right|done]].
        -- intros d [->|Hd]%elem_of_cons ?; [done|by apply H3].
      * split; [done|]. intros d [->|Hd]%elem_of_cons; [done|by apply H2].
    + assert (exists t, slower delta_time acc c = Some t /\ t <= cpu_time_now delta_time c /\ (forall t', acc = Some t' -> t <= t') /\
        (acc = Some t \/ cpu_time_now delta_time c = t)) as (t0 & Hacc & Hle & Hmin & Hor).
      { unfold slower. rewrite bool_decide_false by done. destruct acc as [t|]; [destruct (Z.ltb_spec (cpu_time_now delta_time c) t)|]; eexists; split_and!; try done; try (by left); try (by right);
          try (intros ? [= <-]); lia. }
      rewrite Hacc in *. destruct (foldl _ (Some t0) l) as [t|]; [|by destruct IH]. destruct IH as (H1 & H2 & H3). specialize (H2 t0 eq_refl). split_and!.
      * destruct H1 as [[= <-]|(d & ? & ? & ?)]; [|right; exists d; split; [by right|done]]. destruct Hor as [?|?]; [by left|right; exists c; split; [by left|done]].
      * intros t' Ht'. specialize (Hmin t' Ht'). lia.
      * intros d [->|Hd]%elem_of_cons ?; [lia|by apply H3].
Qed.

(** After [resume_if_behind] a processor that is paused was paused before, and is ahead. *)
Lemma resume_iter active now thr l s u s' i c : sm_iter (resume_one delta_time active now thr) l s = Ret (u, s') -> vcpus s' !! i = Some c -> status c = PAUSED ->
  vcpus s !! i = Some c /\ (i ∈ l -> is_ahead delta_time active now thr i c = true).
Proof.
  intros H Ec Hc. revert s H. induction l as [|x l IH]; cbn [sm_iter]; intros s H; [injection H as _ <-; split; [done|by intros ?%elem_of_nil]|].
  apply sm_bind_Ret in H as (v & s1 & H1 & H). destruct (IH s1 H) as [Es Hin]. apply sm_bind_Ret in H1 as (d & s2 & Hg & H1). apply get_vcpu_Ret in Hg as [-> Ed].
  case_bool_decide as Hd; cbn [negb] in H1; [destruct (is_ahead delta_time active now thr x d) eqn:Eah|].
  - injection H1 as _ <-. split; [done|]. intros [->|Hl]%elem_of_cons; [|by apply Hin]. congruence.
  - skip_in H1. injection H1 as _ <-. cbn in Es. rewrite list_lookup_alter in Es. case_decide as Hxi.
    + subst x. rewrite Ed in Es. simplify_eq/=.
    + split; [done|]. intros [->|Hl]%elem_of_cons; [done|by apply Hin].
  - injection H1 as _ <-. split; [done|]. intros [->|Hl]%elem_of_cons; [|by apply Hin]. congruence.
Qed.

(** A processor that is neither idle nor running is as slow as before. *)
Lemma soft_time s s' i c : soft s s' -> vcpus s !! i = Some c -> status c <> IDLE ->
  exists c', vcpus s' !! i = Some c' /\ status c' <> IDLE /\ cpu_time_now delta_time c' = cpu_time_now delta_time c.
Proof.
  intros Hs Ec Hc. destruct (so_vcpu _ _ Hs i c Ec) as (st & Es & Hst). exists (set_status st c). split_and!; [done|cbn; tauto|].
  unfold cpu_time_now. rewrite !bool_decide_false by (cbn; tauto). done.
Qed.

(** What [rebalance_and_sync] does with an active processor. *)
Lemma rebalance_parts v s a u s' : m_active_vcpu s = Some a -> compute_threshold delta_time s <> 0 -> rebalance_and_sync delta_time v s = Ret (u, s') ->
  exists s1 s2 u1, soft s s1 /\ sm_iter (resume_one delta_time (Some a) (qemu_time_now delta_time s) (compute_threshold delta_time s)) (seq 0 (m_num_vcpus s)) s1 = Ret (u1, s2) /\
    soft s1 s2 /\ set_systemc_window delta_time None s2 = Ret (u, s').
Proof.
  intros Ha Hthr H. step_in H active. rewrite Ha in H. step_in H thr. rewrite (proj2 (Z.eqb_neq _ _) Hthr) in H. step_in H now.
  apply sm_bind_Ret in H as (w & s1 & Hp & H). apply sm_bind_Ret in H as (w' & s2 & Hr & H). step_in Hr n. exists s1, s2, w'.
  assert (soft s s1) as Hs by (destruct v; [by eapply softly_pause|by eapply softly_ret]). destruct (so_same _ _ Hs) as (Hn & _). rewrite Hn in Hr.
  split_and!; [done|done| |done]. eapply softly_iter; [|done]. intros. apply softly_resume.
Qed.

Lemma window_sent s u s' : sw_attached (m_sync_sc s) = true -> set_systemc_window delta_time None s = Ret (u, s') ->
  vcpus s' = vcpus s /\ sw_incoming (m_sync_sc s') = mk_window (qemu_time_now delta_time s) (u64 (qemu_time_now delta_time s + m_quantum s)).
Proof.
  intros Ha H. step_in H t. step_in H q. unfold on_sync, async_set_window in H. rewrite Ha in H. cbn in H. injection H as _ <-. split; [done|]. cbn. by case_bool_decide.
Qed.

Lemma soft_now s s' : soft s s' -> minv s -> qemu_time_now delta_time s' = qemu_time_now delta_time s.
Proof.
  intros [[A _] (_ & C & _) _ V _ _] Hi. unfold qemu_time_now, active_vcpu. rewrite C, A. destruct (m_active_vcpu s) as [a|] eqn:Ha; [|done]. cbn.
  destruct (mi_active s Hi a Ha) as (_ & _ & c & Ec & _). destruct (V a c Ec) as (st & -> & _). by rewrite Ec.
Qed.

Lemma now_clock s : minv s -> roomy s -> 0 <= clock s /\ qemu_time_now delta_time s = clock s.
Proof.
  intros Hi (R1 & R2 & R3). unfold qemu_time_now, clock in *. destruct (active_vcpu s) as [c|]; cbn in *; [|lia]. pose proof (delta_pos c).
  split; [lia|]. apply wrap_small. unfold in_width. lia.
Qed.

(** If the active processor is ahead, of SystemC or of another processor that is not ahead of it. *)
Lemma ahead_of_whom s a : minv s -> roomy s -> m_active_vcpu s = Some a -> compute_threshold delta_time s < qemu_time_now delta_time s ->
  w_to (sc_current_window s) < qemu_time_now delta_time s \/
  exists i d, vcpus s !! i = Some d /\ (i < m_num_vcpus s)%nat /\ status d <> IDLE /\ i <> a /\ cpu_time_now delta_time d <= qemu_time_now delta_time s.
Proof.
  intros Hi Hr Ha Hthr. destruct (mi_active s Hi a Ha) as (Han & _ & c & Ec & Hc & Ht). destruct (now_clock s Hi Hr) as [Hpos Hnow]. destruct Hr as (R1 & R2 & R3).
  assert (cpu_time_now delta_time c = qemu_time_now delta_time s) as Htc.
  { unfold cpu_time_now, qemu_time_now, active_vcpu. rewrite Ha, bool_decide_false by done. cbn. by rewrite Ec, Ht. }
  assert (c ∈ take (m_num_vcpus s) (vcpus s)) as Hin by (eapply list_elem_of_lookup_2; by rewrite lookup_take_lt).
  unfold compute_threshold, slowest_none_idle_cpu in Hthr. pose proof (slower_min (take (m_num_vcpus s) (vcpus s)) None) as Hmin.
  destruct (foldl _ None _) as [t|]; [|destruct Hmin as [_ Hmin]; destruct Hc; by apply Hmin].
  destruct Hmin as ([?|(d & Hd & Hds & Hdt)] & _ & Hmin); [done|]. specialize (Hmin c Hin Hc). apply list_elem_of_lookup in Hd as [i [Ed Hn]%lookup_take_Some].
  assert (0 <= t) as Ht0 by (subst t; unfold cpu_time_now; rewrite bool_decide_false by done; by apply Z.mod_pos_bound).
  rewrite wrap_small in Hthr by (unfold in_width; lia). destruct (decide (w_to (sc_current_window s) < qemu_time_now delta_time s)) as [|Hw]; [by left|right].
  exists i, d. split_and!; [done|done|done| |lia]. intros ->. rewrite Ec in Ed. simplify_eq. lia.
Qed.

(** C24: When a processor has been accounted for, SystemC is told that it may go on to one quantum
    after the time of the instance, and a processor runs, unless the time of the instance is after
    the window that SystemC gave: processors never wait only for each other. *)
Theorem rebalance_progress v s a u s' :
  minv s -> roomy s -> m_active_vcpu s = Some a -> compute_threshold delta_time s <> 0 -> rebalance_and_sync delta_time v s = Ret (u, s') ->
  sw_incoming (m_sync_sc s') = mk_window (qemu_time_now delta_time s) (qemu_time_now delta_time s + m_quantum s) /\
  ((exists i c, vcpus s' !! i = Some c /\ status c = RUNNING) \/ w_to (sc_current_window s) < qemu_time_now delta_time s).
Proof.
  intros Hi Hr Ha Hthr H. destruct (rebalance_parts v s a u s' Ha Hthr H) as (s1 & s2 & u1 & S1 & Hit & S2 & Hw).
  assert (soft s s2) as Hs by (by eapply soft_trans). destruct (mi_active s Hi a Ha) as (Han & Hat & c & Ec & Hc & Ht).
  destruct (now_clock s Hi Hr) as [Hpos Hnow]. pose proof Hr as (R1 & R2 & R3).
  destruct (window_sent s2 u s') as [Hv Hin]; [by rewrite (so_att _ _ Hs) by congruence|done|].
  rewrite (soft_now s s2 Hs Hi), (proj1 (proj2 (proj2 (so_same _ _ Hs)))), (wrap_small 64 (_ + _)) in Hin by (unfold in_width; lia). split; [done|].
  rewrite Hv. destruct (decide (Exists (fun c => status c = RUNNING) (vcpus s2))) as [(d & (i & Ed)%list_elem_of_lookup & Hd)%Exists_exists|Hnone]; [left; by exists i, d|right].
  assert (forall i d, vcpus s !! i = Some d -> (i < m_num_vcpus s)%nat -> status d <> IDLE ->
    exists d', cpu_time_now delta_time d' = cpu_time_now delta_time d /\ is_ahead delta_time (Some a) (qemu_time_now delta_time s) (compute_threshold delta_time s) i d' = true) as Hah.
  { intros i d Ed Hin' Hd. destruct (soft_time s s2 i d Hs Ed Hd) as (d' & Ed' & Hd' & Htime). exists d'. split; [done|].
    eapply resume_iter; [exact Hit|exact Ed'| |apply elem_of_seq; lia]. destruct (status d') eqn:E; [done|done|]. destruct Hnone. apply Exists_exists.
    exists d'. split; [|done]. by eapply list_elem_of_lookup_2. }
  destruct (Hah a c Ec Han Hc) as (c' & _ & Hca). unfold is_ahead in Hca. rewrite bool_decide_true in Hca by done. apply Z.ltb_lt in Hca.
  destruct (ahead_of_whom s a Hi Hr Ha Hca) as [|(i & d & Ed & Hn & Hds & Hia & Hle)]; [done|]. destruct (Hah i d Ed Hn Hds) as (d' & Htime & Hd').
  unfold is_ahead in Hd'. rewrite bool_decide_false in Hd' by congruence. apply Z.ltb_lt in Hd'. lia.
Qed.

End Proofs.

(** ** An instance with two processors *)

(** Exact times, with the resolution of a picosecond. *)
Definition exact_delta (n ips : Z) : Z := Z.max 0 n * 1000000000000 / Z.max 1 ips.
Definition exact_ns (t : Z) : Z := t / 1000.

Lemma exact_laws : time_laws exact_delta exact_ns id.
Proof.
  split; unfold exact_delta, exact_ns, id; try done.
  - intros. apply Z.div_pos; lia.
  - intros n n' ips H. apply Z.div_le_mono; lia.
  - intros t t' H. by apply Z.div_le_mono.
  - intros t t' H H'. Z.div_mod_to_equations. lia.
Qed.

Definition demo_board : list vCPUTime := repeat (mk_vcpu 0 0 0 0 IDLE) 2.

Definition after {A} (m : SM mcips A) (s : mcips) : mcips := match m s with Ret (_, s') => s' | Err _ => s end.

(** A quantum of a microsecond; both processors start, and the first runs half a quantum. *)
Definition demo0 : mcips := after (end_of_elaboration exact_ns 1000000 2) (mcips_init demo_board (@sync_init (sync_policy_tlm_quantum 1000000) None)).
Definition demo1 : mcips := after (vcpu_init 2 1) (after (vcpu_init 2 0) demo0).
Definition demo2 : mcips := after (tb_inline 500 0) demo1.

(** QEMU reads the time; the processor runs another half and a bit, and its quota is used up. *)
Definition demo2' : mcips := after (get_qemu_clock exact_delta exact_ns 5) demo2.
Definition demo3 : mcips := after (tb_inline 600 0) demo2'.
Definition demo4 : mcips := after (tb_cond exact_delta exact_ns 0) demo3.

Lemma demo_roomy : Forall (roomy exact_delta) [demo0; after (vcpu_init 2 0) demo0; demo1; demo2; demo2'; demo3; demo4].
Proof. repeat constructor; vm_compute; congruence. Qed.

Ltac demo_step k := split; [exact (proj1 (Forall_lookup _ _) demo_roomy k _ eq_refl)|].

Lemma demo_run2 : mrun exact_delta exact_ns id demo0 demo2.
Proof.
  apply (rtc_l _ _ (after (vcpu_init 2 0) demo0)).
  { demo_step 0%nat. eapply (mr_init _ _ _ 2 0 demo0 tt); vm_compute; [lia|congruence|by split|reflexivity]. }
  apply (rtc_l _ _ demo1).
  { demo_step 1%nat. eapply (mr_init _ _ _ 2 1 _ tt); vm_compute; [lia|congruence|by split|reflexivity]. }
  apply rtc_once. demo_step 2%nat. eapply (mr_run _ _ _ 0 _ 500 demo1 tt); [reflexivity|done|lia|split; vm_compute; congruence|reflexivity].
Qed.

Lemma demo_run4 : mrun exact_delta exact_ns id demo2' demo4.
Proof.
  apply (rtc_l _ _ demo3). { demo_step 4%nat. eapply (mr_run _ _ _ 0 _ 600 demo2' tt); [reflexivity|done|lia|split; vm_compute; congruence|reflexivity]. }
  apply rtc_once. demo_step 5%nat. apply (mr_quota _ _ _ 0 _ tt). vm_compute. reflexivity.
Qed.

Lemma demo_start : end_of_elaboration exact_ns 1000000 2 (mcips_init demo_board (@sync_init (sync_policy_tlm_quantum 1000000) None)) = Ret (tt, demo0).
Proof. vm_compute. reflexivity. Qed.

Lemma demo_read : get_qemu_clock exact_delta exact_ns 5 demo2 = Ret (500, demo2').
Proof. vm_compute. reflexivity. Qed.

Lemma demo_read_end : clock_result exact_delta exact_ns 5 (Some 0%nat, 0) demo2 = Ret (500, demo2').
Proof. vm_compute. reflexivity. Qed.

Lemma demo_inv : minv exact_ns demo4.
Proof.
  apply (mrun_good exact_delta exact_ns id exact_laws demo0).
  - etrans; [exact demo_run2|]. eapply rtc_l; [|exact demo_run4]. demo_step 3%nat. eapply (mr_clock _ _ _ 5 (Some 0%nat, 0)). exact demo_read_end.
  - eapply (minv_start exact_delta exact_ns id exact_laws None 1000000 2 demo_board); [by repeat constructor|apply le_n|exact demo_start].
Qed.


(** The first processor is ahead and is paused; the second runs. *)
Lemma rebalance_progress_witness :
  let s' := after (rebalance_and_sync exact_delta (Some 0%nat)) demo4 in
  sw_incoming (m_sync_sc s') = mk_window (qemu_time_now exact_delta demo4) (qemu_time_now exact_delta demo4 + m_quantum demo4) /\
  ((exists i c, vcpus s' !! i = Some c /\ status c = RUNNING) \/ w_to (sc_current_window demo4) < qemu_time_now exact_delta demo4).
Proof.
  apply (rebalance_progress exact_delta exact_ns id exact_laws (Some 0%nat) demo4 0%nat tt);
    [exact demo_inv|exact (proj1 (Forall_lookup _ _) demo_roomy 6%nat _ eq_refl)|vm_compute; reflexivity|vm_compute; congruence|vm_compute; reflexivity].
Defined.

(** [cpu_end_delta_quota] stores the new time of the instance before it clears the count of
    instructions: a reading in between counts them twice, and the next reading is before it. *)
Lemma overlapped_reading :
  let middle := sync_qemu_time_ns exact_ns 1100000 demo3 in
  demo4 = after (rebalance_and_sync exact_delta (Some 0%nat)) (set_vcpu 0 (fun c => set_delta 0 (set_time 1100000 c)) middle) /\
  (exists s, get_qemu_clock exact_delta exact_ns 9 middle = Ret (2200, s)) /\ exists s, get_qemu_clock exact_delta exact_ns 9 demo4 = Ret (1100, s).
Proof.
  split; [vm_compute; reflexivity|]. split; eexists; vm_compute; reflexivity.
Qed.

(** A window that comes before the first processor is initialised detaches the sync window, and
    [vcpu_init] does not attach it again: SystemC is never told of the time of the processor. *)
Lemma early_window_detaches :
  let s := after (vcpu_init 2 0) (after (receive_window_cb exact_delta (mk_window 0 1000000)) demo0) in
  m_active_vcpu s = Some 0%nat /\ sw_attached (m_sync_sc s) = false /\ set_systemc_window exact_delta None s = Ret (tt, s).
Proof. vm_compute. done. Qed.
End Mcips.
