(* ===== verification/QemuCpu.v ===== *)
(** * Processors

    [QemuCpu] (src/qemu-components/common/include/cpu.h): a QEMU processor in SystemC.  QEMU runs
    it on a thread of its own, which calls [end_of_loop_cb] to synchronise with the kernel and to
    sleep when there is nothing to run; the SystemC thread halts, resets and stops it.

    QEMU, the instance and the quantum keeper are outside: what is asked of them is the output
    [calls], what they answer (the virtual clock, whether the processor can run) is an argument.
    [asleep] says that the thread is blocked on the condition variable.  Whether the quantum keeper
    runs is what it was last told, [keeper_running]: its [sync] returns when it does not run, or when
    the kernel leaves the processor some budget.  Of the coroutine mode only the tests of it are
    modelled; of the destructor, the loop that waits for the thread to leave the callback. *)

From stdpp Require Import base list numbers option relations.
From S2P Require Import Prelude.

Module Cpu.

(** ** State *)

Inductive reset_state : Type := none | start_reset | hold_reset | finish_reset.

#[global] Instance reset_state_eq_dec : EqDecision reset_state.
Proof. solve_decision. Defined.

Inductive call : Type :=
| qk_start | qk_stop | qk_reset | qk_sync
| qk_set (t : Z)
| timer_mod (t : Z) | timer_del
| cpu_kick | cpu_halt (v : bool) | cpu_reset (v : bool)
| set_soft_stopped (v : bool) | set_unplug (v : bool) | set_vcpu_dirty (v : bool)
| remove_sync | clear_callbacks | socket_reset | coroutine_yield.

(** Jobs of [async_run] and [async_safe_run]: the job of [reset_cb], and those of the initiator. *)
Inductive job : Type := ResetJob | UserJob (id : Z).

(** What [make_tracked_async_job] returns: the wrapper, or the empty function. *)
Inductive qjob : Type := Tracked (j : job) | Empty.

Record qcpu : Type := mk_qcpu {
  m_coroutines : bool;
  tcg_single : bool;
  accel : bool;
  m_signaled : bool;
  g_signaled : bool;
  m_finished : bool;
  m_started : bool;
  m_resetting : reset_state;
  m_async_work_outstanding : Z;
  valid : bool;
  m_realized : bool;
  callbacks : bool;
  m_quantum_ns : Z;
  asleep : bool;
  m_qemu_kick_ev : bool;
  m_start_reset_done_ev : bool;
  jobs : list qjob;
  calls : list call;
}.

Definition set_coroutines v (s : qcpu) := mk_qcpu v (tcg_single s) (accel s) (m_signaled s) (g_signaled s) (m_finished s) (m_started s) (m_resetting s) (m_async_work_outstanding s) (valid s) (m_realized s) (callbacks s) (m_quantum_ns s) (asleep s) (m_qemu_kick_ev s) (m_start_reset_done_ev s) (jobs s) (calls s).
Definition set_m_signaled v (s : qcpu) := mk_qcpu (m_coroutines s) (tcg_single s) (accel s) v (g_signaled s) (m_finished s) (m_started s) (m_resetting s) (m_async_work_outstanding s) (valid s) (m_realized s) (callbacks s) (m_quantum_ns s) (asleep s) (m_qemu_kick_ev s) (m_start_reset_done_ev s) (jobs s) (calls s).
Definition set_g_signaled v (s : qcpu) := mk_qcpu (m_coroutines s) (tcg_single s) (accel s) (m_signaled s) v (m_finished s) (m_started s) (m_resetting s) (m_async_work_outstanding s) (valid s) (m_realized s) (callbacks s) (m_quantum_ns s) (asleep s) (m_qemu_kick_ev s) (m_start_reset_done_ev s) (jobs s) (calls s).
Definition set_finished v (s : qcpu) := mk_qcpu (m_coroutines s) (tcg_single s) (accel s) (m_signaled s) (g_signaled s) v (m_started s) (m_resetting s) (m_async_work_outstanding s) (valid s) (m_realized s) (callbacks s) (m_quantum_ns s) (asleep s) (m_qemu_kick_ev s) (m_start_reset_done_ev s) (jobs s) (calls s).
Definition set_started v (s : qcpu) := mk_qcpu (m_coroutines s) (tcg_single s) (accel s) (m_signaled s) (g_signaled s) (m_finished s) v (m_resetting s) (m_async_work_outstanding s) (valid s) (m_realized s) (callbacks s) (m_quantum_ns s) (asleep s) (m_qemu_kick_ev s) (m_start_reset_done_ev s) (jobs s) (calls s).
Definition set_resetting v (s : qcpu) := mk_qcpu (m_coroutines s) (tcg_single s) (accel s) (m_signaled s) (g_signaled s) (m_finished s) (m_started s) v (m_async_work_outstanding s) (valid s) (m_realized s) (callbacks s) (m_quantum_ns s) (asleep s) (m_qemu_kick_ev s) (m_start_reset_done_ev s) (jobs s) (calls s).
Definition set_outstanding v (s : qcpu) := mk_qcpu (m_coroutines s) (tcg_single s) (accel s) (m_signaled s) (g_signaled s) (m_finished s) (m_started s) (m_resetting s) v (valid s) (m_realized s) (callbacks s) (m_quantum_ns s) (asleep s) (m_qemu_kick_ev s) (m_start_reset_done_ev s) (jobs s) (calls s).
Definition set_callbacks v (s : qcpu) := mk_qcpu (m_coroutines s) (tcg_single s) (accel s) (m_signaled s) (g_signaled s) (m_finished s) (m_started s) (m_resetting s) (m_async_work_outstanding s) (valid s) (m_realized s) v (m_quantum_ns s) (asleep s) (m_qemu_kick_ev s) (m_start_reset_done_ev s) (jobs s) (calls s).
Definition set_quantum_ns v (s : qcpu) := mk_qcpu (m_coroutines s) (tcg_single s) (accel s) (m_signaled s) (g_signaled s) (m_finished s) (m_started s) (m_resetting s) (m_async_work_outstanding s) (valid s) (m_realized s) (callbacks s) v (asleep s) (m_qemu_kick_ev s) (m_start_reset_done_ev s) (jobs s) (calls s).
Definition set_asleep v (s : qcpu) := mk_qcpu (m_coroutines s) (tcg_single s) (accel s) (m_signaled s) (g_signaled s) (m_finished s) (m_started s) (m_resetting s) (m_async_work_outstanding s) (valid s) (m_realized s) (callbacks s) (m_quantum_ns s) v (m_qemu_kick_ev s) (m_start_reset_done_ev s) (jobs s) (calls s).
Definition set_kick_ev v (s : qcpu) := mk_qcpu (m_coroutines s) (tcg_single s) (accel s) (m_signaled s) (g_signaled s) (m_finished s) (m_started s) (m_resetting s) (m_async_work_outstanding s) (valid s) (m_realized s) (callbacks s) (m_quantum_ns s) (asleep s) v (m_start_reset_done_ev s) (jobs s) (calls s).
Definition set_done_ev v (s : qcpu) := mk_qcpu (m_coroutines s) (tcg_single s) (accel s) (m_signaled s) (g_signaled s) (m_finished s) (m_started s) (m_resetting s) (m_async_work_outstanding s) (valid s) (m_realized s) (callbacks s) (m_quantum_ns s) (asleep s) (m_qemu_kick_ev s) v (jobs s) (calls s).
Definition set_jobs v (s : qcpu) := mk_qcpu (m_coroutines s) (tcg_single s) (accel s) (m_signaled s) (g_signaled s) (m_finished s) (m_started s) (m_resetting s) (m_async_work_outstanding s) (valid s) (m_realized s) (callbacks s) (m_quantum_ns s) (asleep s) (m_qemu_kick_ev s) (m_start_reset_done_ev s) v (calls s).
Definition set_calls v (s : qcpu) := mk_qcpu (m_coroutines s) (tcg_single s) (accel s) (m_signaled s) (g_signaled s) (m_finished s) (m_started s) (m_resetting s) (m_async_work_outstanding s) (valid s) (m_realized s) (callbacks s) (m_quantum_ns s) (asleep s) (m_qemu_kick_ev s) (m_start_reset_done_ev s) (jobs s) v.

Definition emit (l : list call) (s : qcpu) : qcpu := set_calls (calls s ++ l) s.

(** The [status] of the quantum keeper: set by [start] and [stop], not running at first. *)
Definition keeper_running (l : list call) : bool :=
  foldl (fun b c => match c with qk_start => true | qk_stop => false | _ => b end) false l.

Section Times.

(** The [sc_time] of a number of nanoseconds. *)
Variable of_ns : Z -> Z.

(** ** Work and signals *)

(** Wakes the thread: [m_signaled] of the processor, or [g_signaled] of the instance when one thread
    runs all processors. *)
Definition set_signaled (s : qcpu) : qcpu := set_asleep false (if tcg_single s then set_g_signaled true s else set_m_signaled true s).

Definition signal (s : qcpu) : bool := if tcg_single s then g_signaled s else m_signaled s.
Definition clear_signal (s : qcpu) : qcpu := if tcg_single s then set_g_signaled false s else set_m_signaled false s.

Definition kick_notify (s : qcpu) : qcpu := set_kick_ev true s.

Definition kick_cb (s : qcpu) : qcpu :=
  if m_coroutines s then (if m_finished s then s else kick_notify s) else set_signaled s.

(** One turn of [watch_external_ev]. *)
Definition watch_external_ev (s : qcpu) : qcpu := set_signaled (set_kick_ev false s).

(** [vclock] is the virtual clock of QEMU. *)
Definition rearm_deadline_timer (vclock : Z) (s : qcpu) : qcpu := emit [timer_mod (vclock + m_quantum_ns s)] s.

(** The local time of the processor: what its clock is ahead of SystemC. *)
Definition set_ahead (vclock now : Z) (s : qcpu) : qcpu := if now <? of_ns vclock then emit [qk_set (of_ns vclock - now)] s else s.

Definition deadline_timer_cb (vclock now : Z) (s : qcpu) : qcpu :=
  let s := emit [cpu_kick] s in
  if m_finished s then s else set_ahead vclock now (rearm_deadline_timer vclock s).

(** ** Asynchronous jobs *)

Definition make_tracked_async_job (j : job) (s : qcpu) : qjob * qcpu :=
  let s := set_outstanding (m_async_work_outstanding s + 1) s in
  (if m_finished s then Empty else Tracked j, s).

Definition queue_job (q : qjob) (s : qcpu) : qcpu := set_jobs (jobs s ++ [q]) s.

Definition job_body (j : job) (s : qcpu) : qcpu :=
  match j with
  | ResetJob => set_done_ev true (set_resetting hold_reset (emit [cpu_reset true] s))
  | UserJob _ => s
  end.

(** The wrapper; calling the empty function throws, which nothing catches. *)
Definition run_qjob (q : qjob) (s : qcpu) : res qcpu :=
  match q with
  | Empty => Err StopFatal
  | Tracked j =>
      let s := if m_finished s then s else job_body j s in
      Ret (set_outstanding (m_async_work_outstanding s - 1) s)
  end.

(** ** Time synchronisation *)

(** [CpuTimeSyncStrategy]. *)
Class Strategy : Type := {
  on_before_end_of_elaboration : qcpu -> qcpu;
  on_end_of_simulation : qcpu -> qcpu;
  on_destroy : qcpu -> qcpu;
  on_halt_pre : bool -> Z -> qcpu -> qcpu;
  on_halt_post : qcpu -> qcpu;
  on_reset_finish : qcpu -> qcpu;
  on_kick_notify : qcpu -> qcpu;
  on_qk_start : qcpu -> qcpu;
  on_arm_deadline : Z -> qcpu -> qcpu;
  get_local_time : Z -> Z -> qcpu -> option Z * qcpu;
  set_local_time : bool -> Z -> qcpu -> qcpu;
}.

(** [on_destroy] is a turn of the loop that waits for the thread, if there is one; [get_local_time] gives [None] where the quantum keeper is asked, [need] is its [need_sync]. *)
Definition QuantumKeeperSync : Strategy := {|
  on_before_end_of_elaboration := set_callbacks true;
  on_end_of_simulation := fun s => set_signaled (emit [timer_del; qk_stop] s);
  on_destroy := emit [qk_stop];
  on_halt_pre := fun v vclock s => if v then emit [timer_del; qk_stop] s else rearm_deadline_timer vclock (emit [qk_start] s);
  on_halt_post := kick_notify;
  on_reset_finish := fun s => kick_notify (emit [qk_start; qk_reset] s);
  on_kick_notify := kick_notify;
  on_qk_start := emit [qk_start];
  on_arm_deadline := rearm_deadline_timer;
  get_local_time := fun vclock now s => if now <? of_ns vclock then (None, emit [qk_set (of_ns vclock - now)] s) else (Some 0, s);
  set_local_time := fun need t s => let s := emit [qk_set t] s in if need then emit [cpu_kick] s else s;
|}.

Definition McipsSync : Strategy := {|
  on_before_end_of_elaboration := id; on_end_of_simulation := id;
  on_destroy := fun s => if negb (m_started s) || m_coroutines s || negb (valid s) then s else emit [remove_sync] s;
  on_halt_pre := fun _ _ => id; on_halt_post := id; on_reset_finish := id;
  on_kick_notify := id; on_qk_start := id; on_arm_deadline := fun _ => id; get_local_time := fun _ _ s => (Some 0, s); set_local_time := fun _ _ => id;
|}.

Section Ops.
Context `{!Strategy}.

(** ** The processor thread *)

(** Where it is: in QEMU's loop; in [sync_with_kernel] after the lock is released, before the
    quantum keeper is started, before its time is set, and in its [sync]; at the head of the loop of [prepare_run_cpu]; in [wait_for_work] before
    the test of [m_finished], before the test of the condition variable, blocked on it, and after;
    about to take the lock. *)
Inductive cpu_pc : Type := InLoop | Unlocked | Starting | Setting | Syncing | Head | WaitCheck | WaitPred | Sleep | Left_ | Lock_.

#[global] Instance cpu_pc_eq_dec : EqDecision cpu_pc.
Proof. solve_decision. Defined.

(** [end_of_loop_cb] up to the release of the lock. *)
Definition end_of_loop_cb (s : qcpu) : cpu_pc * qcpu :=
  if m_finished s then (InLoop, s)
  else if negb (m_started s) then (InLoop, s)
  else if m_coroutines s then (InLoop, emit [coroutine_yield] s)
  else (Unlocked, emit [set_soft_stopped true] s).

(** The rest of [sync_with_kernel], from each of its points to the next; [vclock] was read before the
    lock was released. *)
Definition sync_with_kernel (vclock now : Z) (p : cpu_pc) (s : qcpu) : cpu_pc * qcpu :=
  match p with
  | Unlocked => if m_finished s then (Head, s) else (Starting, s)
  | Starting => (Setting, if m_coroutines s then s else emit [qk_start] s)
  | Setting => (Syncing, emit [qk_sync] (set_ahead vclock now s))
  | _ => (p, s)
  end.

(** Where the callback holds [m_can_delete]: all of it but its return to QEMU's loop. *)
Definition can_delete_held (p : cpu_pc) : bool := negb (bool_decide (p = InLoop)).

(** A turn of [prepare_run_cpu]; [can] is the answer of [can_run]. *)
Definition leave_prepare (s : qcpu) : cpu_pc * qcpu := (Lock_, if m_started s then emit [set_soft_stopped false] s else s).

Definition prepare_run_cpu (can : bool) (s : qcpu) : cpu_pc * qcpu :=
  if can || m_finished s then leave_prepare s
  else if negb (tcg_single s) && negb (m_coroutines s) && accel s then leave_prepare (emit [qk_stop] s)
  else (WaitCheck, emit [qk_stop] s).

Definition wait_check (s : qcpu) : cpu_pc := if m_finished s then Head else WaitPred.

Definition wait_pred (s : qcpu) : cpu_pc * qcpu :=
  if signal s || m_finished s then (Left_, clear_signal s) else (Sleep, set_asleep true s).

Definition wait_left (s : qcpu) : qcpu := if m_finished s then s else emit [qk_start] s.

(** ** The SystemC thread *)

(** [reset_cb (true)]. *)
Definition reset_cb_true (s : qcpu) : qcpu :=
  if m_finished s then s
  else if negb (bool_decide (m_resetting s = none)) then s
  else
    let s := set_resetting start_reset s in
    let '(q, s) := make_tracked_async_job ResetJob s in
    on_kick_notify (queue_job q s).

(** [reset_cb (false)] after the wait; it takes the lock for the reset of the socket. *)
Definition reset_release (s : qcpu) : qcpu :=
  on_kick_notify (set_resetting none (on_reset_finish (emit [socket_reset; cpu_reset false] s))).

Definition halt_locked (v : bool) (s : qcpu) : qcpu := on_halt_post (emit [cpu_halt v] s).

(** [end_of_simulation] before and with the lock. *)
Definition end_of_simulation (s : qcpu) : bool * qcpu :=
  if m_finished s then (false, s)
  else (valid s && m_realized s && m_started s, set_finished true s).

Definition end_locked (s : qcpu) : qcpu :=
  let s := set_callbacks false (emit [clear_callbacks] s) in
  if m_coroutines s then s
  else emit [cpu_halt true; cpu_kick; set_unplug true] (on_end_of_simulation s).

(** [inst_can_run] is the answer of the instance, [quantum] the global quantum in nanoseconds. *)
Definition start_of_simulation (inst_can_run : bool) (quantum vclock : Z) (s : qcpu) : qcpu :=
  let s := set_quantum_ns quantum s in
  let s := if tcg_single s then (if inst_can_run then on_qk_start s else s)
           else if m_coroutines s then s else on_qk_start s in
  let s := set_started true s in
  let s := if m_coroutines s then s
           else emit [cpu_kick] (on_arm_deadline vclock (emit [set_soft_stopped false] (on_qk_start s))) in
  emit [set_vcpu_dirty true] s.

Definition retrieve_qemu_cpu (s : qcpu) : qcpu := on_before_end_of_elaboration (emit [set_soft_stopped true] s).

(** [initiator_get_local_time], [initiator_set_local_time]. *)
Definition initiator_get_local_time (vclock now : Z) (s : qcpu) : option Z * qcpu :=
  if m_finished s then (Some 0, s) else get_local_time vclock now s.

Definition initiator_set_local_time (need : bool) (t : Z) (s : qcpu) : qcpu :=
  if m_finished s then s else set_local_time need t s.
End Ops.

(** ** The two threads *)

(** The SystemC thread: free, in a handler and waiting for the lock, in the destructor and waiting for
    the thread, or past it. *)
Inductive sc_pc : Type := ScFree | ScHalt (v : bool) | ScKick | ScFinish | ScEnd | ScDestroy | ScDeleted.

(** [bql] says whether the processor thread holds the lock, [r_wait] whether a process waits in
    [reset_cb (false)], [ended] that [end_of_simulation] has stopped the processor, [passed] counts
    the calls of [initiator_async_run] that have seen [m_finished] false.  The SystemC thread holds
    the lock within a step only. *)
Record machine : Type := mk_machine {
  cpu : qcpu;
  pc : cpu_pc;
  bql : bool;
  sc : sc_pc;
  r_wait : bool;
  ended : bool;
  passed : nat;
}.

Definition with_cpu v (s : machine) := mk_machine v (pc s) (bql s) (sc s) (r_wait s) (ended s) (passed s).
Definition with_pc v (s : machine) := mk_machine (cpu s) v (bql s) (sc s) (r_wait s) (ended s) (passed s).
Definition with_bql v (s : machine) := mk_machine (cpu s) (pc s) v (sc s) (r_wait s) (ended s) (passed s).
Definition with_sc v (s : machine) := mk_machine (cpu s) (pc s) (bql s) v (r_wait s) (ended s) (passed s).
Definition with_r_wait v (s : machine) := mk_machine (cpu s) (pc s) (bql s) (sc s) v (ended s) (passed s).
Definition with_ended v (s : machine) := mk_machine (cpu s) (pc s) (bql s) (sc s) (r_wait s) v (passed s).
Definition with_passed v (s : machine) := mk_machine (cpu s) (pc s) (bql s) (sc s) (r_wait s) (ended s) v.

Definition on_cpu (f : qcpu -> qcpu) (s : machine) : machine := with_cpu (f (cpu s)) s.

(** The thread goes on at [r.1] with the state [r.2]. *)
Definition go (r : cpu_pc * qcpu) (s : machine) : machine := with_pc r.1 (with_cpu r.2 s).

(** [reset_cb (false)] at the head of its loop. *)
Definition reset_loop (s : machine) : machine := with_sc (if bool_decide (m_resetting (cpu s) = start_reset) then ScKick else ScFinish) s.

Definition reset_deassert (s : machine) : machine :=
  if m_finished (cpu s) then s else if bool_decide (m_resetting (cpu s) = none) then s else reset_loop s.

(** [wait (m_start_reset_done_ev)] returns, if a process waits. *)
Definition reset_done (s : machine) : machine :=
  let s := on_cpu (set_done_ev false) s in
  if r_wait s then reset_loop (with_r_wait false s) else s.

Section Machine.
Context `{!Strategy}.

Inductive vcpu_step : machine -> machine -> Prop :=
| vc_end s : pc s = InLoop -> bql s = true -> callbacks (cpu s) = true ->
    vcpu_step s (with_bql (bool_decide ((end_of_loop_cb (cpu s)).1 = InLoop)) (go (end_of_loop_cb (cpu s)) s))
| vc_sync vclock now s : pc s = Unlocked \/ pc s = Starting \/ pc s = Setting -> vcpu_step s (go (sync_with_kernel vclock now (pc s) (cpu s)) s)
| vc_synced s : pc s = Syncing -> keeper_running (calls (cpu s)) = false -> vcpu_step s (with_pc Head s)
| vc_head can s : pc s = Head -> vcpu_step s (go (prepare_run_cpu can (cpu s)) s)
| vc_check s : pc s = WaitCheck -> vcpu_step s (with_pc (wait_check (cpu s)) s)
| vc_pred s : pc s = WaitPred -> vcpu_step s (go (wait_pred (cpu s)) s)
| vc_wake s : pc s = Sleep -> asleep (cpu s) = false -> vcpu_step s (with_pc WaitPred s)
| vc_left s : pc s = Left_ -> vcpu_step s (with_pc Head (on_cpu wait_left s))
| vc_lock s : pc s = Lock_ -> bql s = false -> vcpu_step s (with_pc InLoop (with_bql true s)).

(** The kernel advances, or its thread sees that there is budget left: [sync] returns. *)
Inductive grant_step : machine -> machine -> Prop :=
| gr_budget s : pc s = Syncing -> grant_step s (with_pc Head s).

(** Within QEMU's loop the lock is released and taken, and jobs are run. *)
Inductive qemu_step : machine -> machine -> Prop :=
| qe_bql b s : pc s = InLoop -> qemu_step s (with_bql b s)
| qe_job q l c s : pc s = InLoop -> jobs (cpu s) = q :: l -> run_qjob q (set_jobs l (cpu s)) = Ret c -> qemu_step s (with_cpu c s)
| qe_kick s : callbacks (cpu s) = true -> qemu_step s (on_cpu kick_cb s)
| qe_deadline vclock now s : qemu_step s (on_cpu (deadline_timer_cb vclock now) s)
| qe_spurious s : asleep (cpu s) = true -> qemu_step s (on_cpu (set_asleep false) s)
| qe_passed s : m_finished (cpu s) = false -> qemu_step s (with_passed (S (passed s)) s)
| qe_async j n s : j <> ResetJob -> passed s = S n ->
    qemu_step s (with_passed n (on_cpu (fun c => let '(q, c) := make_tracked_async_job j c in queue_job q c) s)).

Inductive sc_step : machine -> machine -> Prop :=
| st_watch s : sc s = ScFree -> m_qemu_kick_ev (cpu s) = true -> sc_step s (on_cpu watch_external_ev s)
| st_halt v vclock s : sc s = ScFree -> m_finished (cpu s) = false -> sc_step s (with_sc (ScHalt v) (on_cpu (on_halt_pre v vclock) s))
| st_halted v s : sc s = ScHalt v -> bql s = false -> sc_step s (with_sc ScFree (on_cpu (halt_locked v) s))
| st_assert s : sc s = ScFree -> sc_step s (on_cpu reset_cb_true s)
| st_deassert s : sc s = ScFree -> r_wait s = false -> sc_step s (reset_deassert s)
| st_kicked s : sc s = ScKick -> bql s = false -> sc_step s (with_sc ScFree (with_r_wait true (on_cpu (emit [cpu_kick]) s)))
| st_done s : sc s = ScFree -> m_start_reset_done_ev (cpu s) = true -> sc_step s (reset_done s)
| st_released s : sc s = ScFinish -> bql s = false -> sc_step s (with_sc ScFree (on_cpu reset_release s))
| st_end s : sc s = ScFree ->
    sc_step s (with_sc (if (end_of_simulation (cpu s)).1 then ScEnd else ScFree) (with_cpu (end_of_simulation (cpu s)).2 s))
| st_ended s : sc s = ScEnd -> bql s = false -> sc_step s (with_ended true (with_sc ScFree (on_cpu end_locked s)))
| st_destroy s : sc s = ScFree -> ended s = true -> sc_step s (with_sc ScDestroy s)
| st_try s : sc s = ScDestroy -> can_delete_held (pc s) = true -> sc_step s (on_cpu on_destroy s)
| st_deleted s : sc s = ScDestroy -> can_delete_held (pc s) = false -> sc_step s (with_sc ScDeleted s).

Definition mach_step (s s' : machine) : Prop := vcpu_step s s' \/ grant_step s s' \/ qemu_step s s' \/ sc_step s s'.
End Machine.

(** At the end of elaboration, in a mode where QEMU runs the processor on its own thread, and when
    the simulation starts. *)
Definition cpu_init (single acc : bool) : qcpu := mk_qcpu false single acc false false false false none 0 true true false 0 false false false [] [].

Definition machine_init `{!Strategy} (single acc can : bool) (quantum vclock : Z) : machine :=
  mk_machine (start_of_simulation can quantum vclock (retrieve_qemu_cpu (cpu_init single acc))) InLoop false ScFree false false 0.

(** ** The invariant *)

(** What QEMU was told of resets, and what it must be told next. *)
Definition resets (l : list call) : list bool := omap (fun c => match c with cpu_reset b => Some b | _ => None end) l.

Fixpoint expects (b : bool) (l : list bool) : option bool :=
  match l with
  | [] => Some b
  | x :: l' => if bool_decide (x = b) then expects (negb b) l' else None
  end.

Definition is_reset (q : qjob) : bool := match q with Tracked ResetJob => true | _ => false end.
Definition reset_jobs (l : list qjob) : nat := length (filter (fun q => is_reset q = true) l).

Record cinv (s : machine) : Prop := {
  ci_conf : m_coroutines (cpu s) = false /\ m_started (cpu s) = true /\ valid (cpu s) = true /\ m_realized (cpu s) = true;
  ci_bql : bql s = true -> pc s = InLoop;
  ci_sleep : asleep (cpu s) = true -> pc s = Sleep /\ signal (cpu s) = false /\ ended s = false;
  ci_end : m_finished (cpu s) = true <-> ended s = true \/ sc s = ScEnd;
  ci_once : ended s = true -> sc s <> ScEnd;
  ci_work : m_async_work_outstanding (cpu s) = Z.of_nat (length (jobs (cpu s)));
}.

Record rinv (s : machine) : Prop := {
  ri_jobs : reset_jobs (jobs (cpu s)) = 0%nat \/ reset_jobs (jobs (cpu s)) = 1%nat /\ m_resetting (cpu s) = start_reset;
  ri_start : m_resetting (cpu s) = start_reset -> m_finished (cpu s) = false -> reset_jobs (jobs (cpu s)) = 1%nat;
  ri_calls : expects true (resets (calls (cpu s))) = Some (negb (bool_decide (m_resetting (cpu s) = hold_reset)));
  ri_known : m_resetting (cpu s) <> finish_reset;
  ri_wait : r_wait s = true -> (m_resetting (cpu s) = start_reset \/ m_resetting (cpu s) = hold_reset /\ m_start_reset_done_ev (cpu s) = true) /\ sc s <> ScKick /\ sc s <> ScFinish;
  ri_kick : sc s = ScKick -> m_resetting (cpu s) = start_reset \/ m_resetting (cpu s) = hold_reset /\ m_start_reset_done_ev (cpu s) = true;
  ri_finish : sc s = ScFinish -> m_resetting (cpu s) = hold_reset;
}.

Lemma expects_app b l l' : expects b (l ++ l') = expects b l ≫= fun n => expects n l'.
Proof. revert b. induction l as [|x l IH]; intros b; [done|]. cbn. case_bool_decide; [apply IH|done]. Qed.

Lemma resets_app l l' : resets (l ++ l') = resets l ++ resets l'.
Proof. apply omap_app. Qed.

Lemma reset_jobs_snoc l q : reset_jobs (l ++ [q]) = (reset_jobs l + if is_reset q then 1 else 0)%nat.
Proof. unfold reset_jobs. rewrite filter_app, length_app. f_equal. unfold filter. cbn. by destruct (is_reset q). Qed.

Lemma reset_jobs_cons l q : reset_jobs (q :: l) = ((if is_reset q then 1 else 0) + reset_jobs l)%nat.
Proof. unfold reset_jobs. rewrite filter_cons. by destruct (is_reset q). Qed.

#[local] Existing Instance QuantumKeeperSync.
#[local] Arguments reset_jobs : simpl never.
#[local] Arguments resets : simpl never.

(** What the invariants look at; most operations leave it. *)
Definition core (c : qcpu) :=
  (m_coroutines c, m_started c, valid c, m_realized c, m_finished c, m_async_work_outstanding c, jobs c, (m_resetting c, m_start_reset_done_ev c), resets (calls c)).
Definition view (c : qcpu) := (core c, signal c).

Definition keeps (c c' : qcpu) : Prop := view c' = view c /\ asleep c' = asleep c.

Lemma keeps_refl c : keeps c c.
Proof. done. Qed.

Lemma keeps_emit l c c' : resets l = [] -> keeps c c' -> keeps c (emit l c').
Proof. intros H [H1 H2]. split; [|done]. rewrite <- H1. unfold view, core, emit. cbn. by rewrite resets_app, H, app_nil_r. Qed.

Lemma keeps_ahead vclock now c c' : keeps c c' -> keeps c (set_ahead vclock now c').
Proof. unfold set_ahead. destruct (_ <? _); [by apply keeps_emit|done]. Qed.

Lemma keeps_kick_ev b c c' : keeps c c' -> keeps c (set_kick_ev b c').
Proof. intros [H1 H2]. split; [by rewrite <- H1|done]. Qed.

Ltac keep := cbn; repeat first [apply keeps_refl | apply keeps_emit; [reflexivity|] | apply keeps_ahead | apply keeps_kick_ev | case_match; cbn].

Lemma keeps_end c : keeps c (end_of_loop_cb c).2.
Proof. unfold end_of_loop_cb. keep. Qed.

Lemma keeps_kernel vclock now p c : keeps c (sync_with_kernel vclock now p c).2.
Proof. unfold sync_with_kernel. keep. Qed.

Lemma keeps_prepare can c : keeps c (prepare_run_cpu can c).2.
Proof. unfold prepare_run_cpu, leave_prepare. keep. Qed.

Lemma keeps_left c : keeps c (wait_left c).
Proof. unfold wait_left. keep. Qed.

Lemma keeps_deadline vclock now c : keeps c (deadline_timer_cb vclock now c).
Proof. unfold deadline_timer_cb, rearm_deadline_timer. keep. Qed.

(** The rest of the state: the thread, the lock, whether the thread sleeps. *)
Lemma cinv_core s s' : cinv s -> core (cpu s') = core (cpu s) -> (bql s' = true -> pc s' = InLoop) ->
  (asleep (cpu s') = true -> pc s' = Sleep /\ signal (cpu s') = false /\ ended s = false) -> ended s' = ended s -> (sc s' = ScEnd <-> sc s = ScEnd) -> cinv s'.
Proof.
  intros [(H1 & H2 & H3 & H4) H5 H6 H7 H8 H9] [= V1 V2 V3 V4 V5 V6 V7 V8 V9 V10] Hb Ha He Hs. by split; rewrite ?V1, ?V2, ?V3, ?V4, ?V5, ?V6, ?V7, ?He, ?Hs.
Qed.

(** The SystemC thread stays where it is, or moves between handlers that are not those of a reset. *)
Definition quiet (x : sc_pc) : Prop := x <> ScKick /\ x <> ScFinish /\ x <> ScEnd.
Definition sc_keeps (s s' : machine) : Prop := sc s' = sc s \/ quiet (sc s') /\ quiet (sc s).

Lemma rinv_core s s' : rinv s -> core (cpu s') = core (cpu s) -> r_wait s' = r_wait s -> sc_keeps s s' -> rinv s'.
Proof.
  intros [H1 H2 H3 H4 H5 H6 H7] [= V1 V2 V3 V4 V5 V6 V7 V8 V9 V10] Hw [Hs|[(Q1 & Q2 & _) _]]; [by split; rewrite ?V5, ?V7, ?V8, ?V9, ?V10, ?Hw, ?Hs|].
  split; rewrite ?V5, ?V7, ?V8, ?V9, ?V10, ?Hw; try done. intros Hr. by destruct (H5 Hr).
Qed.

Lemma awake s : cinv s -> pc s <> Sleep -> asleep (cpu s) = false.
Proof. intros Hi Hp. apply not_true_is_false. intros Ha. by destruct (ci_sleep s Hi Ha). Qed.

Definition inv (s : machine) : Prop := cinv s /\ rinv s.

Lemma unlocked s : inv s -> pc s <> InLoop -> bql s = false.
Proof. intros [Hi _] Hp. apply not_true_is_false. intros Hb. by apply (ci_bql s Hi) in Hb. Qed.

(** A step that leaves what the invariants look at. *)
Lemma inv_core s s' : inv s -> core (cpu s') = core (cpu s) -> (bql s' = true -> pc s' = InLoop) ->
  (asleep (cpu s') = true -> pc s' = Sleep /\ signal (cpu s') = false /\ ended s = false) -> ended s' = ended s -> r_wait s' = r_wait s -> sc_keeps s s' -> inv s'.
Proof.
  intros [Hc Hr] Hv Hb Ha He Hw Hs. split; [|by eapply rinv_core]. eapply cinv_core; try done. destruct Hs as [->|[(? & ? & ?) (? & ? & ?)]]; [done|]. by split.
Qed.

Lemma inv_keeps s s' : inv s -> keeps (cpu s) (cpu s') -> (bql s' = true -> pc s' = InLoop) -> (pc s = Sleep -> pc s' = Sleep \/ asleep (cpu s) = false) ->
  ended s' = ended s -> r_wait s' = r_wait s -> sc_keeps s s' -> inv s'.
Proof.
  intros Hi [Hview Ha] Hb Hp He Hw Hs. assert (core (cpu s') = core (cpu s)) as Hv by exact (f_equal fst Hview).
  assert (signal (cpu s') = signal (cpu s)) as Hg by exact (f_equal snd Hview). apply (inv_core s); try done.
  rewrite Ha, Hg. intros Has. destruct (ci_sleep s (proj1 Hi) Has) as (Hsl & ? & ?). split; [|done]. destruct (Hp Hsl); congruence.
Qed.

Lemma core_clear c : core (clear_signal c) = core c /\ asleep (clear_signal c) = asleep c.
Proof. unfold clear_signal. by destruct (tcg_single c). Qed.

Lemma core_set c : core (set_signaled c) = core c /\ asleep (set_signaled c) = false.
Proof. unfold set_signaled. by destruct (tcg_single c). Qed.

Ltac off Hi := let Hb := fresh "Hb" in intros Hb; rewrite (unlocked _ Hi) in Hb by congruence; done.

Lemma inv_vcpu s s' : vcpu_step s s' -> inv s -> inv s'.
Proof.
  intros H Hi. destruct H as [s Hp Hb Hc|vclock now s Hp|s Hp Hq|can s Hp|s Hp|s Hp|s Hp Ha|s Hp|s Hp Hb].
  - apply (inv_keeps s); cbn; try done; try (left; reflexivity); [apply keeps_end|by intros ?%bool_decide_eq_true|congruence].
  - apply (inv_keeps s); cbn; try done; try (left; reflexivity); [apply keeps_kernel| |by destruct Hp as [?|[?|?]]; congruence]. intros Hb. rewrite (unlocked _ Hi) in Hb; [done|]. by destruct Hp as [->|[->| ->]].
  - apply (inv_keeps s); cbn; try done; try (left; reflexivity); [off Hi|congruence].
  - apply (inv_keeps s); cbn; try done; try (left; reflexivity); [apply keeps_prepare|off Hi|congruence].
  - apply (inv_keeps s); cbn; try done; try (left; reflexivity); [off Hi|congruence].
  - unfold wait_pred, go. destruct (core_clear (cpu s)) as [Hcore Has]. destruct (signal (cpu s)) eqn:Hg; cbn; [|destruct (m_finished (cpu s)) eqn:Hf; cbn].
    1,2: apply (inv_core s); cbn; try done; try (left; reflexivity); [off Hi|]; rewrite Has, (awake s (proj1 Hi)) by congruence; done.
    apply (inv_core s); cbn; try done; try (left; reflexivity); [off Hi|]. intros _. split_and!; [done|done|]. apply not_true_is_false. intros He.
    pose proof (proj2 (ci_end s (proj1 Hi)) (or_introl He)). congruence.
  - apply (inv_keeps s); cbn; try done; try (left; reflexivity); [off Hi|by right].
  - apply (inv_keeps s); cbn; try done; try (left; reflexivity); [apply keeps_left|off Hi|congruence].
  - apply (inv_keeps s); cbn; try done; try (left; reflexivity). congruence.
Qed.

Lemma inv_grant s s' : grant_step s s' -> inv s -> inv s'.
Proof. intros [s0 Hp] Hi. apply (inv_keeps s0); cbn; try done; try (left; reflexivity); [off Hi|congruence]. Qed.

(** Jobs. *)
Lemma inv_async s j n : inv s -> j <> ResetJob -> inv (with_passed n (on_cpu (fun c => let '(q, c) := make_tracked_async_job j c in queue_job q c) s)).
Proof.
  intros [[H1 H2 H3 H4 H5 H6] [R1 R2 R3 R4 R5 R6 R7]] Hj. set (q := if m_finished (cpu s) then Empty else Tracked j).
  assert (reset_jobs (jobs (cpu s) ++ [q]) = reset_jobs (jobs (cpu s))) as Hq.
  { rewrite reset_jobs_snoc. unfold q. destruct (m_finished (cpu s)), j; cbn; try lia. done. }
  split; split; cbn; try done; fold q; rewrite ?Hq; try done. rewrite length_app, H6. cbn. lia.
Qed.

Lemma inv_reset_job s l : inv s -> m_finished (cpu s) = false -> jobs (cpu s) = Tracked ResetJob :: l ->
  inv (with_cpu (set_outstanding (m_async_work_outstanding (cpu s) - 1) (job_body ResetJob (set_jobs l (cpu s)))) s).
Proof.
  intros [[H1 H2 H3 H4 H5 H6] [R1 R2 R3 R4 R5 R6 R7]] Hf Hj. rewrite Hj in H6, R1. rewrite reset_jobs_cons in R1. cbn in R1, H6.
  destruct R1 as [R1|[R1 Hst]]; [done|]. assert (reset_jobs l = 0%nat) as Hl by lia. rewrite Hst in R3. cbn in R3. split; split; cbn; try done.
  - lia.
  - by left.
  - by rewrite resets_app, expects_app, R3.
  - intros Hw. destruct (R5 Hw) as (_ & ? & ?). split; [by right|done].
  - intros _. by right.
Qed.

Lemma inv_run_job s q l c : inv s -> jobs (cpu s) = q :: l -> run_qjob q (set_jobs l (cpu s)) = Ret c -> inv (with_cpu c s).
Proof.
  intros Hi Hj Hq. destruct q as [j|]; [|done]. unfold run_qjob in Hq. cbn [m_finished set_jobs] in Hq. destruct (m_finished (cpu s)) eqn:Hf; [|destruct j].
  2: { injection Hq as <-. by apply inv_reset_job. }
  all: injection Hq as <-; destruct Hi as [[H1 H2 H3 H4 H5 H6] [R1 R2 R3 R4 R5 R6 R7]]; rewrite Hj in H6, R1, R2; rewrite reset_jobs_cons in R1, R2; split; split; cbn; try done; cbn in *.
  all: try lia.
  all: rewrite ?Hf in *; try destruct j; cbn in *; intuition (lia || congruence).
Qed.

Lemma inv_qemu s s' : qemu_step s s' -> inv s -> inv s'.
Proof.
  intros H Hi. destruct H as [b s Hp|q l c s Hp Hj Hq|s Hc|vclock now s|s Ha|s Hf|j n s Hj Hn].
  - apply (inv_keeps s); cbn; try done; try (left; reflexivity). congruence.
  - by eapply inv_run_job.
  - assert (kick_cb (cpu s) = set_signaled (cpu s)) as Hk by (unfold kick_cb; by rewrite (proj1 (ci_conf s (proj1 Hi)))).
    unfold on_cpu. rewrite Hk. destruct (core_set (cpu s)) as [Hcore Has]. apply (inv_core s); cbn; try done; try (left; reflexivity); apply (ci_bql s (proj1 Hi)).
  - apply (inv_keeps s); cbn; try done; try (left; reflexivity); [apply keeps_deadline|apply (ci_bql s (proj1 Hi))|by left].
  - apply (inv_core s); cbn; try done; try (left; reflexivity). apply (ci_bql s (proj1 Hi)).
  - apply (inv_keeps s); cbn; try done; try (left; reflexivity); [apply (ci_bql s (proj1 Hi))|by left].
  - by apply inv_async.
Qed.

(** Resets. *)
Lemma inv_assert s : inv s -> sc s = ScFree -> inv (on_cpu reset_cb_true s).
Proof.
  intros Hi Hs. unfold on_cpu, reset_cb_true. destruct (m_finished (cpu s)) eqn:Hf; [by destruct s|]. case_bool_decide as Hn; cbn [negb]; [|by destruct s].
  destruct Hi as [[H1 H2 H3 H4 H5 H6] [R1 R2 R3 R4 R5 R6 R7]]. cbn. rewrite Hf, Hn in *. destruct R1 as [R1|[_ ?]]; [|done].
  split; split; cbn; rewrite ?Hf, ?Hs in *; try done.
  - rewrite length_app, H6. cbn. lia.
  - rewrite reset_jobs_snoc, R1. by right.
  - by rewrite reset_jobs_snoc, R1.
  - intros Hr. split; [by left|done].
Qed.

Lemma inv_loop s : cinv s -> m_resetting (cpu s) = start_reset \/ m_resetting (cpu s) = hold_reset -> r_wait s = false -> sc s = ScFree -> rinv s -> inv (reset_loop s).
Proof.
  intros [H1 H2 H3 H4 H5 H6] Hor Hw Hs [R1 R2 R3 R4 R5 R6 R7]. unfold reset_loop. rewrite Hs in *.
  assert (m_finished (cpu s) = true <-> ended s = true) as Hf by (rewrite H4; split; [by intros [?|?]|by left]).
  destruct (decide (m_resetting (cpu s) = start_reset)) as [Hst|Hst]; [rewrite bool_decide_true by done|rewrite bool_decide_false by done]; split; split; cbn; rewrite ?Hw; try done.
  - rewrite Hf. split; [by left|by intros [?|?]].
  - intros _. by left.
  - rewrite Hf. split; [by left|by intros [?|?]].
  - intros _. by destruct Hor.
Qed.

Lemma inv_deassert s : inv s -> sc s = ScFree -> r_wait s = false -> inv (reset_deassert s).
Proof.
  intros [Hc Hr] Hs Hw. unfold reset_deassert. destruct (m_finished (cpu s)); [done|]. case_bool_decide as Hn; [done|]. apply inv_loop; try done.
  pose proof (ri_known s Hr). destruct (m_resetting (cpu s)); try done; [by left|by right].
Qed.

Lemma inv_done s : inv s -> sc s = ScFree -> inv (reset_done s).
Proof.
  intros [Hc Hr] Hs. unfold reset_done. assert (cinv (on_cpu (set_done_ev false) s)) as Hc' by (destruct Hc as [H1 H2 H3 H4 H5 H6]; by split).
  destruct Hr as [R1 R2 R3 R4 R5 R6 R7]. cbn [r_wait on_cpu with_cpu]. destruct (r_wait s) eqn:Hw.
  - destruct (R5 eq_refl) as (Hor & _). apply inv_loop; cbn; try done; [by destruct Hc'|tauto|]. split; cbn; try done; rewrite Hs; done.
  - split; [done|]. split; cbn; try done; rewrite ?Hs, ?Hw; done.
Qed.

Lemma inv_released s : inv s -> sc s = ScFinish -> inv (with_sc ScFree (on_cpu reset_release s)).
Proof.
  intros [[H1 H2 H3 H4 H5 H6] [R1 R2 R3 R4 R5 R6 R7]] Hs. pose proof (R7 Hs) as Hh. rewrite Hh in *. destruct R1 as [R1|[_ ?]]; [|done].
  assert (r_wait s = false) as Hw by (apply not_true_is_false; intros Hw; by destruct (R5 Hw) as (_ & _ & ?)). rewrite Hs in *.
  split; split; cbn; rewrite ?Hw; try done; [|by left|].
  - rewrite H4. split; intros [?|?]; auto; done.
  - by rewrite !resets_app, !expects_app, R3.
Qed.

Lemma inv_stopped s : inv s -> sc s = ScFree ->
  inv (with_sc (if (end_of_simulation (cpu s)).1 then ScEnd else ScFree) (with_cpu (end_of_simulation (cpu s)).2 s)).
Proof.
  intros Hi Hs. unfold end_of_simulation. destruct (m_finished (cpu s)) eqn:Hf; cbn; [rewrite <- Hs; by destruct s|].
  destruct Hi as [[(H1 & H2 & H2' & H2'') H3 H4 H5 H6 H7] [R1 R2 R3 R4 R5 R6 R7]]. rewrite H2, H2', H2''. cbn. rewrite Hf, Hs in *.
  assert (ended s = false) as He by (apply not_true_is_false; intros He; by assert (false = true) by (apply H5; by left)).
  split; split; cbn; try done; [split; [by right|done]|by rewrite He|]. intros Hr. by destruct (R5 Hr).
Qed.

Lemma inv_ended s : inv s -> sc s = ScEnd -> inv (with_ended true (with_sc ScFree (on_cpu end_locked s))).
Proof.
  intros [[(H1 & H2 & H2' & H2'') H3 H4 H5 H6 H7] [R1 R2 R3 R4 R5 R6 R7]] Hs.
  assert (core (end_locked (cpu s)) = core (cpu s) /\ asleep (end_locked (cpu s)) = false) as [[= V1 V2 V3 V4 V5 V6 V7 V8 V9 V10] Ha].
  { unfold end_locked. cbn. rewrite H1. unfold core. cbn. rewrite !resets_app. cbn. rewrite !app_nil_r. unfold set_signaled. cbn. destruct (tcg_single _); cbn; rewrite !resets_app; cbn; by rewrite !app_nil_r. }
  split; split; cbn -[end_locked]; rewrite ?V1, ?V2, ?V3, ?V4, ?V5, ?V6, ?V7, ?V8, ?V9, ?V10, ?Ha; try done.
  - split; [by left|]. intros _. apply H5. by right.
  - intros Hr. by destruct (R5 Hr).
Qed.

Lemma inv_kicked s : inv s -> sc s = ScKick -> inv (with_sc ScFree (with_r_wait true (on_cpu (emit [cpu_kick]) s))).
Proof.
  intros [[H1 H2 H3 H4 H5 H6] [R1 R2 R3 R4 R5 R6 R7]] Hs. rewrite Hs in *. split; split; cbn; try done.
  - rewrite H4. split; intros [?|?]; auto; done.
  - by rewrite resets_app, app_nil_r.
  - intros _. by split; [apply R6|].
Qed.

Lemma inv_sc s s' : sc_step s s' -> inv s -> inv s'.
Proof.
  intros H Hi. pose proof (ci_bql s (proj1 Hi)) as Hb.
  destruct H as [s Hs Hk|v vclock s Hs Hf|v s Hs Hl|s Hs|s Hs Hr|s Hs Hl|s Hs Hd|s Hs Hl|s Hs|s Hs Hl|s Hs He|s Hs Hm|s Hs Hm].
  - destruct (core_set (set_kick_ev false (cpu s))) as [Hc Ha]. apply (inv_core s); cbn -[set_signaled]; try done. by left.
  - apply (inv_keeps s); cbn; try done; [|by left|right; cbn; rewrite Hs; done]. unfold rearm_deadline_timer. destruct v; keep.
  - apply (inv_keeps s); cbn; try done; [keep|by left|right; cbn; rewrite Hs; done].
  - by apply inv_assert.
  - by apply inv_deassert.
  - by apply inv_kicked.
  - by apply inv_done.
  - by apply inv_released.
  - by apply inv_stopped.
  - by apply inv_ended.
  - apply (inv_keeps s); cbn; try done; [by left|right; cbn; rewrite Hs; done].
  - apply (inv_keeps s); cbn; try done; [keep|by left|by left].
  - apply (inv_keeps s); cbn; try done; [by left|right; cbn; rewrite Hs; done].
Qed.

Lemma inv_init single acc can quantum vclock : inv (machine_init single acc can quantum vclock).
Proof.
  unfold machine_init, start_of_simulation. destruct single, can; split; split; cbn; try done; try (by left); split; try done; by intros [].
Qed.

Lemma cpu_reachable_inv single acc can quantum vclock s : rtc mach_step (machine_init single acc can quantum vclock) s -> inv s.
Proof.
  intros H. remember (machine_init _ _ _ _ _) as s0 eqn:E. assert (inv s0) as Hi by (subst; apply inv_init). clear E.
  induction H as [|s0 s1 s2 [Hs|[Hs|[Hs|Hs]]] _ IH]; [done|apply IH; by eapply inv_vcpu|apply IH; by eapply inv_grant|apply IH; by eapply inv_qemu|apply IH; by eapply inv_sc].
Qed.

(** C26: QEMU is told to reset a processor and to end the reset alternately, and holds it in reset just
    while [m_resetting] says so; a process that waits for the start of a reset is woken: the event is
    pending or the job that notifies it is queued; no job is forgotten by the count that the
    destructor waits for. *)
Theorem cpu_reset_protocol single acc can quantum vclock s : rtc mach_step (machine_init single acc can quantum vclock) s ->
  expects true (resets (calls (cpu s))) = Some (negb (bool_decide (m_resetting (cpu s) = hold_reset))) /\
  (r_wait s = true -> m_finished (cpu s) = false -> m_start_reset_done_ev (cpu s) = true \/ Tracked ResetJob ∈ jobs (cpu s)) /\
  m_async_work_outstanding (cpu s) = Z.of_nat (length (jobs (cpu s))).
Proof.
  intros [Hc Hr]%cpu_reachable_inv. split_and!; [by apply ri_calls| |by apply ci_work]. intros Hw Hf. destruct (ri_wait s Hr Hw) as ([Hst|[_ ?]] & _); [right|by left].
  pose proof (ri_start s Hr Hst Hf) as H1. unfold reset_jobs in H1. destruct (filter _ _) as [|q l] eqn:E; [done|].
  assert (q ∈ filter (fun q => is_reset q = true) (jobs (cpu s))) as [Hq ?]%list_elem_of_filter by (rewrite E; by left). by destruct q as [[]|].
Qed.

(** ** Shutting down *)

(** How far the thread is from QEMU's loop when [m_finished] is set. *)
Definition rank (p : cpu_pc) : nat :=
  match p with
  | InLoop => 0 | Lock_ => 1 | Head => 2 | Syncing | WaitCheck | Left_ => 3 | Setting | WaitPred => 4 | Starting | Sleep => 5 | Unlocked => 6
  end.

Lemma finished_step s s' : m_finished (cpu s) = true -> vcpu_step s s' \/ grant_step s s' -> pc s = InLoop /\ pc s' = InLoop \/ (rank (pc s') < rank (pc s))%nat.
Proof.
  intros Hf [H|H].
  2: { destruct H as [s Hp]. cbn. rewrite Hp. right. cbn. lia. }
  destruct H as [s Hp Hb Hc|vclock now s Hp|s Hp Hq|can s Hp|s Hp|s Hp|s Hp Ha|s Hp|s Hp Hb]; cbn; rewrite ?Hp; cbn; try (right; lia).
  - left. unfold end_of_loop_cb. by rewrite Hf.
  - right. destruct Hp as [->|[->| ->]]; cbn; rewrite ?Hf; cbn; lia.
  - right. unfold prepare_run_cpu. rewrite Hf, orb_true_r. cbn. lia.
  - right. unfold wait_check. rewrite Hf. cbn. lia.
  - right. unfold wait_pred. rewrite Hf, orb_true_r. cbn. lia.
Qed.

(** Only the quantum keeper can hold the thread. *)
Lemma finished_enabled s : inv s -> ended s = true -> pc s <> InLoop -> (pc s = Syncing -> keeper_running (calls (cpu s)) = false) -> exists s', vcpu_step s s'.
Proof.
  intros Hi He Hp Hk. pose proof (unlocked s Hi Hp) as Hb.
  assert (asleep (cpu s) = false) as Ha by (apply not_true_is_false; intros Ha; destruct (ci_sleep s (proj1 Hi) Ha) as (_ & _ & ?); congruence).
  destruct (pc s) eqn:E; [done|..]; eexists.
  1-3: apply (vc_sync 0 0); by (left + (right; left) + (right; right)).
  - apply vc_synced; [done|by apply Hk].
  - by apply (vc_head false).
  - by apply vc_check.
  - by apply vc_pred.
  - by apply vc_wake.
  - by apply vc_left.
  - by apply vc_lock.
Qed.

Lemma others_stay s s' : qemu_step s s' \/ sc_step s s' -> pc s' = pc s.
Proof.
  intros [H|H]; destruct H; try done.
  - unfold reset_deassert, reset_loop. by repeat case_match.
  - unfold reset_done, reset_loop. cbn. by repeat case_match.
Qed.

(** When the end of the simulation has been told, the keeper does not run. *)
Lemma end_stops_keeper c : m_coroutines c = false -> keeper_running (calls (end_locked c)) = false.
Proof.
  intros Hc. unfold end_locked. cbn [m_coroutines set_callbacks emit set_calls]. rewrite Hc. unfold keeper_running. cbn -[foldl set_signaled]. rewrite foldl_app. unfold set_signaled.
  destruct (tcg_single _); cbn -[foldl]; rewrite !foldl_app; done.
Qed.

Lemma destroy_stops_keeper c : keeper_running (calls (on_destroy c)) = false.
Proof. unfold keeper_running. cbn -[foldl]. by rewrite foldl_app. Qed.

(** Callbacks: given up at the end for good. *)
Record dinv (s : machine) : Prop := {
  di_callbacks : ended s = true -> callbacks (cpu s) = false;
  di_destroy : sc s = ScDestroy \/ sc s = ScDeleted -> ended s = true;
  di_deleted : sc s = ScDeleted -> pc s = InLoop;
}.

Definition cb_keeps (s s' : machine) : Prop := callbacks (cpu s') = callbacks (cpu s) /\ ended s' = ended s.

Lemma cb_vcpu s s' : vcpu_step s s' \/ grant_step s s' -> cb_keeps s s' /\ sc s' = sc s.
Proof.
  intros [H|H]; destruct H; unfold cb_keeps, end_of_loop_cb, sync_with_kernel, set_ahead, prepare_run_cpu, leave_prepare, wait_pred, clear_signal, wait_left; cbn; repeat case_match; done.
Qed.

Lemma cb_qemu s s' : qemu_step s s' -> cb_keeps s s' /\ sc s' = sc s.
Proof.
  intros H. destruct H as [b s Hp|q l c s Hp Hj Hq|s Hc|vclock now s|s Ha|s Hf|j n s Hj Hn];
    unfold cb_keeps, kick_cb, kick_notify, set_signaled, deadline_timer_cb, set_ahead, make_tracked_async_job; cbn; repeat case_match; simplify_eq; try done.
  destruct q as [[]|]; cbn in Hq; repeat case_match; by simplify_eq.
Qed.

Lemma dinv_keeps s s' : dinv s -> cb_keeps s s' -> (sc s' = sc s \/ sc s' <> ScDestroy /\ sc s' <> ScDeleted) -> (pc s = InLoop -> pc s' = InLoop) -> dinv s'.
Proof. intros [H1 H2 H3] [Hc He] Hs Hp. split; rewrite ?Hc, ?He; [done| |]; destruct Hs as [->|[? ?]]; naive_solver. Qed.

Lemma dinv_sc s s' : sc_step s s' -> inv s -> dinv s -> dinv s'.
Proof.
  intros H Hi Hd. destruct H as [s Hs Hk|v vclock s Hs Hf|v s Hs Hl|s Hs|s Hs Hr|s Hs Hl|s Hs Hk|s Hs Hl|s Hs|s Hs Hl|s Hs He|s Hs Hm|s Hs Hm].
  1-9: apply (dinv_keeps s); [done|unfold cb_keeps, watch_external_ev, set_signaled, reset_cb_true, reset_deassert, reset_done, reset_loop, end_of_simulation; cbn; repeat case_match; simplify_eq; done| |];
    unfold reset_deassert, reset_done, reset_loop, end_of_simulation; cbn; repeat case_match; cbn; simplify_eq; try done; try (by left); right; cbn; try rewrite Hs; done.
  - split; cbn -[end_locked]; [|done|done]. intros _. unfold end_locked. cbn. destruct (m_coroutines _); cbn; [done|]. unfold set_signaled. by destruct (tcg_single _).
  - split; cbn; [apply (di_callbacks s Hd)|done|done].
  - split; cbn; [apply (di_callbacks s Hd)|apply (di_destroy s Hd)|apply (di_deleted s Hd)].
  - split; cbn; [apply (di_callbacks s Hd)|intros _; apply (di_destroy s Hd); by left|]. intros _. unfold can_delete_held in Hm. by apply negb_false_iff, bool_decide_eq_true in Hm.
Qed.

(** A thread that has left a processor that is stopped does not call it any more. *)
Lemma ended_thread_leaves s s' : dinv s -> ended s = true -> vcpu_step s s' \/ grant_step s s' -> pc s <> InLoop.
Proof. intros Hd He [H|H] Hp; [|destruct H; congruence]. destruct H as [s ? ? ?|? ? s Hq|s|? s|s|s|s|s|s]; try congruence; [pose proof (di_callbacks s Hd He); congruence|destruct Hq as [?|[?|?]]; congruence]. Qed.

Lemma cpu_reachable_dinv single acc can quantum vclock s : rtc mach_step (machine_init single acc can quantum vclock) s -> inv s /\ dinv s.
Proof.
  intros H. remember (machine_init _ _ _ _ _) as s0 eqn:E. assert (inv s0 /\ dinv s0) as Hi by (subst; split; [apply inv_init|split; naive_solver]). clear E.
  induction H as [|s0 s1 s2 Hs _ IH]; [done|]. apply IH. destruct Hi as [Hi Hd]. destruct Hs as [Hs|[Hs|[Hs|Hs]]].
  1,2: destruct (cb_vcpu s0 s1) as [Hcb Hsc]; [by auto|]; split; [by first [eapply inv_vcpu; eassumption|eapply inv_grant; eassumption]|]; destruct Hd as [D1 D2 D3], Hcb as [C1 C2]; split; rewrite ?C1, ?C2, ?Hsc; try done;
    intros Hdel; assert (ended s0 = true) as He by (apply D2; by right); destruct (ended_thread_leaves s0 s1 (Build_dinv s0 D1 D2 D3) He); [by auto|by apply D3].
  - destruct (cb_qemu s0 s1 Hs) as [Hcb Hsc]. split; [by eapply inv_qemu|]. eapply dinv_keeps; [done..|by left|]. by rewrite (others_stay s0 s1 (or_introl Hs)).
  - split; [by eapply inv_sc|by eapply dinv_sc].
Qed.

(** C15: The thread of a processor leaves the callback when the simulation ends.  When
    [end_of_simulation] stops the processor, the thread can go on wherever it is, also asleep or
    waiting for budget; from then on each of its steps brings it closer to QEMU's loop, whatever
    the others do, and it does not call the processor again.  A thread that had passed the test of
    [m_finished] starts the quantum keeper again and can wait for budget that never comes: each turn
    of the destructor's loop then lets it go.  The destructor ends only when the thread has left. *)
Theorem cpu_shutdown_completes single acc can quantum vclock s : rtc mach_step (machine_init single acc can quantum vclock) s ->
  (forall s', sc s = ScEnd -> sc_step s s' -> ended s' = true /\ (pc s' = InLoop \/ exists s'', vcpu_step s' s'')) /\
  (ended s = true -> forall s', vcpu_step s s' \/ grant_step s s' -> (rank (pc s') < rank (pc s))%nat) /\
  (forall s', qemu_step s s' \/ sc_step s s' -> pc s' = pc s) /\
  (ended s = true -> pc s <> InLoop -> pc s <> Syncing -> exists s', vcpu_step s s') /\
  (sc s = ScDestroy -> pc s <> InLoop -> exists s', sc_step s s' /\ exists s'', vcpu_step s' s'') /\
  (sc s = ScDeleted -> pc s = InLoop /\ forall s', ~ vcpu_step s s').
Proof.
  intros [Hi Hd]%cpu_reachable_dinv. split_and!.
  - intros s' Hs H. assert (inv s') as Hi' by by eapply inv_sc. assert (s' = with_ended true (with_sc ScFree (on_cpu end_locked s))) as Hs' by (destruct H; congruence).
    assert (ended s' = true) as He by by subst s'. split; [done|]. destruct (decide (pc s' = InLoop)) as [|Hn]; [by left|right]. apply finished_enabled; try done.
    intros _. subst s'. apply end_stops_keeper. apply (ci_conf s (proj1 Hi)).
  - intros He s' H. assert (m_finished (cpu s) = true) as Hf by (apply (ci_end s (proj1 Hi)); by left).
    destruct (finished_step s s' Hf H) as [[Hp _]|?]; [|done]. by destruct (ended_thread_leaves s s' Hd He H).
  - intros s'. apply others_stay.
  - intros He Hp Hq. by apply finished_enabled.
  - intros Hs Hp. assert (sc_step s (on_cpu on_destroy s)) as Ht by (apply st_try; [done|]; unfold can_delete_held; by rewrite bool_decide_false).
    exists (on_cpu on_destroy s). split; [done|]. apply finished_enabled; [by eapply inv_sc|cbn; apply (di_destroy s Hd); by left|done|intros _; apply destroy_stops_keeper].
  - intros Hs. pose proof (di_deleted s Hd Hs) as Hp. split; [done|]. intros s' H. destruct (ended_thread_leaves s s' Hd); [apply (di_destroy s Hd); by right|by left|done].
Qed.
End Times.

(** ** A run *)

Definition demo_sync : Strategy := QuantumKeeperSync (fun n => 1000 * n).
#[local] Existing Instance demo_sync.
Abbreviation demo_step := (mach_step (fun n => 1000 * n)).

(** The processor waits for budget, and the simulation ends. *)
Definition demo1 : machine := with_bql true (machine_init false false true 1000 0).
Definition demo2 : machine := with_bql (bool_decide ((end_of_loop_cb (cpu demo1)).1 = InLoop)) (go (end_of_loop_cb (cpu demo1)) demo1).
Definition sync_on (s : machine) : machine := go (sync_with_kernel (fun n => 1000 * n) 5 0 (pc s) (cpu s)) s.
Definition finish (s : machine) : machine := with_sc ScEnd (with_cpu (end_of_simulation (cpu s)).2 s).
Definition stopped (s : machine) : machine := with_ended true (with_sc ScFree (on_cpu end_locked s)).

Definition demo_waiting : machine := finish (sync_on (sync_on (sync_on demo2))).

(** The processor passes the test of [m_finished], the simulation ends, and the processor goes on. *)
Definition demo3 : machine := stopped (finish (sync_on demo2)).
Definition demo_late : machine := with_sc ScDestroy (sync_on (sync_on demo3)).

Lemma demo_run : rtc demo_step (machine_init false false true 1000 0) demo2.
Proof.
  apply (rtc_l _ _ demo1); [right; right; left; exact (qe_bql _ true (machine_init false false true 1000 0) eq_refl)|].
  apply rtc_once. left. exact (vc_end _ demo1 eq_refl eq_refl eq_refl).
Qed.

Lemma sync_runs s : pc s = Unlocked \/ pc s = Starting \/ pc s = Setting -> demo_step s (sync_on s).
Proof. intros H. left. by apply vc_sync. Qed.

Lemma demo_waiting_run : rtc demo_step (machine_init false false true 1000 0) demo_waiting.
Proof.
  etrans; [exact demo_run|]. eapply rtc_l; [apply sync_runs; by left|]. eapply rtc_l; [apply sync_runs; by right; left|].
  eapply rtc_l; [apply sync_runs; by right; right|]. apply rtc_once. right. right. right. exact (st_end (sync_on (sync_on (sync_on demo2))) eq_refl).
Qed.

Lemma demo_late_run : rtc demo_step (machine_init false false true 1000 0) demo_late.
Proof.
  etrans; [exact demo_run|]. eapply rtc_l; [apply sync_runs; by left|].
  eapply rtc_l; [right; right; right; exact (st_end (sync_on demo2) eq_refl)|]. eapply rtc_l; [right; right; right; exact (st_ended (finish (sync_on demo2)) eq_refl eq_refl)|].
  eapply rtc_l; [apply (sync_runs demo3); by right; left|]. eapply rtc_l; [apply sync_runs; by right; right|].
  apply rtc_once. right. right. right. by apply st_destroy.
Qed.

(** There the thread waits for the destructor. *)
Lemma start_after_end : ended demo_late = true /\ pc demo_late = Syncing /\ keeper_running (calls (cpu demo_late)) = true /\ forall s', ~ vcpu_step (fun n => 1000 * n) demo_late s'.
Proof.
  split_and!; try reflexivity. intros s' H. remember demo_late as s eqn:E. assert (pc s = Syncing /\ keeper_running (calls (cpu s)) = true) as [Hp Hk] by (subst; split; reflexivity).
  clear E. destruct H as [s ? ? ?|? ? s Hq|s|? s|s|s|s|s|s]; try congruence. destruct Hq as [?|[?|?]]; congruence.
Qed.

Lemma cpu_shutdown_completes_witness :
  (pc demo_waiting = Syncing /\ keeper_running (calls (cpu demo_waiting)) = true /\
   forall s', sc_step demo_waiting s' -> ended s' = true /\ (pc s' = InLoop \/ exists s'', vcpu_step (fun n => 1000 * n) s' s'')) /\
  (pc demo_late = Syncing /\ keeper_running (calls (cpu demo_late)) = true /\
   exists s', sc_step demo_late s' /\ exists s'', vcpu_step (fun n => 1000 * n) s' s'').
Proof.
  split; (split; [reflexivity|split; [reflexivity|]]).
  - intros s' H. apply (cpu_shutdown_completes (fun n => 1000 * n) false false true 1000 0 demo_waiting demo_waiting_run); [reflexivity|exact H].
  - apply (cpu_shutdown_completes (fun n => 1000 * n) false false true 1000 0 demo_late demo_late_run); [reflexivity|discriminate].
Defined.

(** A reset is asserted, and released before QEMU has run the job. *)
Definition demo_reset1 : machine := on_cpu reset_cb_true (machine_init false false true 1000 0).
Definition demo_reset2 : machine := with_sc ScFree (with_r_wait true (on_cpu (emit [cpu_kick]) (reset_deassert demo_reset1))).

Lemma demo_reset_run : rtc demo_step (machine_init false false true 1000 0) demo_reset2.
Proof.
  apply (rtc_l _ _ demo_reset1); [right; right; right; exact (st_assert (machine_init false false true 1000 0) eq_refl)|].
  apply (rtc_l _ _ (reset_deassert demo_reset1)); [right; right; right; exact (st_deassert demo_reset1 eq_refl eq_refl)|].
  apply (rtc_l _ _ demo_reset2); [right; right; right; exact (st_kicked (reset_deassert demo_reset1) eq_refl eq_refl)|]. apply rtc_refl.
Qed.

Lemma cpu_reset_protocol_witness : r_wait demo_reset2 = true /\
  expects true (resets (calls (cpu demo_reset2))) = Some (negb (bool_decide (m_resetting (cpu demo_reset2) = hold_reset))) /\
  (r_wait demo_reset2 = true -> m_finished (cpu demo_reset2) = false -> m_start_reset_done_ev (cpu demo_reset2) = true \/ Tracked ResetJob ∈ jobs (cpu demo_reset2)) /\
  m_async_work_outstanding (cpu demo_reset2) = Z.of_nat (length (jobs (cpu demo_reset2))).
Proof. split; [reflexivity|]. apply (cpu_reset_protocol (fun n => 1000 * n) false false true 1000 0 demo_reset2). exact demo_reset_run. Defined.

(** [initiator_async_run] tests [m_finished], then [end_of_simulation] runs: the empty function is
    given to QEMU, which throws when it is called, and the count never comes back to zero. *)
Lemma async_after_end : let c := (end_of_simulation (cpu (machine_init false false true 1000 0))).2 in
  let '(q, c') := make_tracked_async_job (UserJob 1) c in
  q = Empty /\ m_async_work_outstanding c' = 1 /\ run_qjob q c' = Err StopFatal.
Proof. done. Qed.
End Cpu.
